(* ===== verification/_CoqProject ===== *)
-Q . S2P
Prelude.v
GoIO.v
GoStr.v
GoBytes.v
GoSort.v
NetIP.v
NetIPFacts.v
Framed.v
FramedFacts.v
Fec.v
Datagram.v
DatagramFacts.v
KeyLimits.v
KeyLimitsFacts.v
Registry.v
RegistryFacts.v
Cache.v
Router.v
RouterFacts.v
Routing.v
Auth.v
AuthFacts.v
TargetGuard.v
SplitTunnel.v
SplitTunnelRanges.v
SplitTunnelFacts.v
SplitTunnelReach.v
Tunnel.v
Dns.v
Buf.v
Socks5.v
Socks5Facts.v
ProxyStream.v
ProxyStreamFacts.v
Relay.v
RelayFacts.v
IdleSet.v
Socks5Module.v
Socks5ModuleFacts.v
Events.v
EventsFacts.v
MultiRouter.v
MultiRouterFacts.v
KillSwitch.v
KillSwitchFacts.v
TunnelManager.v
TunnelManagerFacts.v
ClientPool.v
ClientPoolFacts.v
ControlAPI.v
ControlAPIFacts.v
GoJson.v
GoJsonFacts.v
ConnKey.v
ConnKeyFacts.v
UserStore.v
UserStoreFacts.v
Camo.v
CamoFacts.v
QuicInitial.v
QuicInitialFacts.v
AsnBypass.v
AsnBypassFacts.v
YaDisk.v
YaDiskFacts.v
DnsResolver.v
DnsResolverFacts.v
GoPath.v
ServerCfg.v
ServerCfgFacts.v
ApiServer.v
ApiServerFacts.v
Updater.v
UpdaterFacts.v
Identity.v
IdentityFacts.v
