(* ===== verification/Prelude.v ===== *)
(** * Whispera: a verification development

    Whispera is a censorship-resistant tunnel written in Go.  A client opens
    streams to a server; each stream is authenticated with a one-time token,
    framed into TLS-looking records with padding and filler (or carried as
    QUIC datagrams under forward error correction), admitted against the limits
    of its key, routed by rules on its destination, and relayed.  To whoever does
    not know a key the server is the web site it hides behind: the first bytes of
    a connection decide, and strangers are passed on to that site.  The server is
    a set of modules that a registry starts in dependency order, with settings it
    watches, an API and an updater; the client keeps a pool of tunnels behind a
    SOCKS5 server and a control API.  This library models the parts that carry
    that logic and proves what they promise.

    ** The files and the code they model

    Shared ground
    - [Prelude] (this file): machine integers with their wrap-around, big-endian
      encodings, slices indexed by [Z], random draws as a list of outcomes, the
      tactics and hint databases [go] and [golen].
    - [GoIO]: Go's [io] errors and a [net.Conn] as two byte streams with a
      script of write failures.
    - [GoStr], [NetIP], [NetIPFacts]: the functions of [strings], [strconv] and
      [net] the code calls, as executable definitions, and what parsed addresses
      and networks are.  Non-ASCII case mapping is the class [UnicodeCase].
    - [GoBytes], [GoSort]: byte strings as numbers, [sort.SliceStable] and
      [sort.Search]; [GoPath]: the functions of [path/filepath]; [GoJson],
      [GoJsonFacts]: [encoding/json], base64 and UTF-8, with the round trip of the
      printer and the parser.

    The data path
    - [Framed], [FramedFacts]: src/core/protocol/framed.go.  Module [Shape] is
      [ShapeKnobs] and the padding; module [FramedConn] is the connection, one
      definition per method; [fillLoop_turn] is one turn of the filler
      goroutine, so an interleaving is a list of operations.
    - [Fec], [Datagram], [DatagramFacts]: src/core/protocol/quic/fec.go and the
      address header, sender and receiver of datagram.go.  The Reed-Solomon
      library is the class [ReedSolomon] with its laws in [ReedSolomonLaws];
      [ColumnCode] in [DatagramFacts] is an instance that satisfies them.
    - [ProxyStream], [ProxyStreamFacts]: a stream between client and relay, from
      [openStreamPerFlow] of src/core/tunnel/datapath.go to
      [readProxyStreamHeader] of src/core/relay/relay.go, and the UDP frames of
      src/core/socks5/module.go and relay.go.
    - [IdleSet]: the pool of idle connections, src/core/tunnel/keepalive.go; the
      callers, watchers and the filler loop are steps on a [pool].
    - [Socks5], [Socks5Facts]: src/core/socks5/server.go in a state and error
      monad over a connection; [Socks5Module], [Socks5ModuleFacts]: routes, direct
      addresses and the UDP relay of src/core/socks5/module.go.
    - [Relay], [RelayFacts]: routing and dialing of src/core/relay/relay.go; the
      router is the class [AddrRouter], with the engine of [Router] as an instance.
    - [Buf]: src/common/buf/buf.go.  Buffers live in a heap shared with the
      pool; [New] may hand out any pooled buffer.

    - [AsnBypass], [AsnBypassFacts]: src/core/asn_bypass, the fragmentation of the
      first record; [YaDisk], [YaDiskFacts]: the transport over files of a cloud
      disk, src/core/transport/yadisk; its loops and requests are a step relation.

    Admission and policy
    - [Auth], [AuthFacts]: tokens (src/core/protocol/pathgen.go), the replay set
      (tokenset.go) and the admission path of listener.go and
      selector_index.go.  HMAC and HKDF are the class [Crypto].
    - [KeyLimits], [KeyLimitsFacts]: src/core/keylimits/keylimits.go.  The
      methods are functions on [Manager]; the interleaving of their critical
      sections is a step relation.
    - [TargetGuard]: src/common/targetguard/targetguard.go, with the functions of
      [net/netip] it calls.
    - [Camo], [CamoFacts]: the marker and the selector in a ClientHello
      (src/core/protocol/camo), the index of users and the listener of
      src/core/protocol/camouflage.go with its decoy and throttle; [QuicInitial],
      [QuicInitialFacts]: the same for QUIC, src/core/protocol/quic/initial.go and
      camouflage.go.  The primitives are the classes [Curve] and [QuicCrypto].
    - [Identity], [IdentityFacts]: src/core/protocol/identity.go, the binding of
      the server's certificates and the client's check of them.
    - [SplitTunnel], [SplitTunnelRanges], [SplitTunnelFacts], [SplitTunnelReach]:
      src/common/split_tunnel.  The sweep over address ranges, the published
      snapshot, lookups, the country list; callers and background resolutions
      are a step relation.
    - [Router], [RouterFacts]: src/core/router/router.go, with the rule array
      and the pointers into it explicit; [Routing]: src/common/routing/routing.go
      with its geo databases (regular expressions are the class [Regexp]).
    - [Cache]: src/common/cache/cache.go over the class [LruOps] of the
      third-party LRU with its laws [LruLaws]; [Router] is a client of it.

    The runtime
    - [Registry], [RegistryFacts]: src/common/runtime/registry and the start and
      stop of src/common/runtime/lifecycle.  The order in which Go visits a map
      is an argument ([visit], [vdeg]) of the definitions that range over one.
    - [Tunnel]: modules [StateMachine], [Breaker] (src/core/tunnel) and
      [ConnLimiter] (src/app/server/conn_limiter.go).
    - [Dns]: src/common/dns/dns_wire.go; [DnsResolver], [DnsResolverFacts]: the
      resolver above it, src/common/dns/resolver.go, its callers as steps.
    - [Events], [EventsFacts]: src/common/runtime/events, channels and handlers
      under any schedule.

    The client
    - [TunnelManager], [TunnelManagerFacts]: src/core/tunnel, connecting,
      reconnecting and opening streams, with the dialers as arguments.
    - [MultiRouter], [MultiRouterFacts]: src/core/socks5/multirouter.go, bridges behind
      shared slices, with the heap explicit.
    - [ClientPool], [ClientPoolFacts], [ControlAPI], [ControlAPIFacts]:
      src/app/client, the pool with its revivals and the control server.
    - [KillSwitch], [KillSwitchFacts]: src/core/killswitch, the state machine over
      the class of a platform, and Linux over a model of iptables.

    The server's administration
    - [ConnKey], [ConnKeyFacts], [UserStore], [UserStoreFacts]: connection keys,
      subscriptions and users, src/core/config and src/core/apiserver.
    - [ServerCfg], [ServerCfgFacts]: src/core/config/config.go and checksum.go over
      a file system with modification times; YAML is the class [Yaml].  Updates,
      the two steps of the watcher and edits by others are steps.
    - [ApiServer], [ApiServerFacts]: the chain of middlewares, the routes and the
      outbounds of src/core/apiserver; the remaining handlers are parameters.
    - [Updater], [UpdaterFacts]: src/common/update, over files with permissions.

    ** What the theorems show

    - Framing: whatever writes, filler and padding a sender produces, the
      receiver reads back exactly the written bytes, then the end of the stream
      or the hand-over to the raw connection, with nothing behind the marker
      consumed; [Write] accounts exactly for what went out on a failing
      connection; nothing follows the end of a stream; reading ends on any
      input; the shape knobs stay within one record.
    - Datagrams: the address header round trips and its decoder is safe on any
      bytes; any ten of the fourteen packets of a block give back its payloads.
    - Key limits: [Admit] decides as its guards say and keeps the caps; the
      session counter agrees with the table under every interleaving, up to the
      re-admissions the code counts twice; expiry and eviction remove exactly
      what they should.
    - Registry: the start order is a topological order whenever there is one and
      does not depend on map order; [StartAll] and [StopAll] follow it.
    - Routing: the engine's tables agree in every reachable state, the best rule
      wins on every miss of the cache, and the cache is transparent under every
      interleaving where rules see only the destination and do not change while
      a call is between its scan and its store.
    - Authentication: a client's token verifies within the clock tolerance, and
      a token string is accepted at most once over its whole validity, as long as
      it is consumed in the window it was verified in.
    - Split tunnelling: in every reachable state a lookup decides like the first
      matching rule of the list, though it runs on tables made by a sweep and a
      binary search; the country list is sound, and complete without nesting.
    - SOCKS5: which client bytes reach the handler and what is answered; what is
      read to choose the protocol is replayed; UDP targets are registered with
      one lane and unregistered in the end.
    - Streams: the relay reads the header the client sent, also behind filler; UDP
      packets come through in order in both directions; every stream is blocked,
      dialled or passed on as the router says, and addresses are tried in order
      until one answers; the pool neither loses a
      connection nor hands one out twice.
    - Target guard: a dial is refused exactly when its target lies in a network an
      entry stands for, also in the mapped or zoned spelling.
    - Buffers: [Copy] moves exactly the reader's bytes and leaks no buffer; the
      pool never gives one buffer to two holders.
    - Camouflage: who marks the hello with a user's secret is recognised, nobody
      else is, and for everybody else the listener is the site: no byte is lost,
      doubled or added.  Over QUIC likewise, and a packet is delivered only after
      its address announced itself.  A client that knows the server's identity
      accepts only certificates the server bound to the name it asks for.
    - Keys: what the server issues is read back by the client and configures it
      with the user's secret; the server's own subscriptions are not.
    - Administration: settings are always valid; a file somebody else wrote is not
      loaded unless it is put in place between its check and its load; without
      the token no protected handler is reached; forwarded addresses are believed
      only from private networks; and only what the manifest describes, or a
      backup, replaces the binary.
    - The client: one revival at a time with everybody woken, the tunnel of the
      first connected bridge that matches, and no packet over IPv4 in or out that
      the kill switch's rules do not accept.
    - Cloud disk, events and resolver: bytes and events arrive once and in order,
      and one query per name is under way at a time, answered for that name.
    - The remaining files: the ready channel follows the state, the breaker
      blocks exactly when it should, connection slots are counted, and parsing a
      DNS response neither panics nor loops.

    Some theorems state what the code does against its intention (a replayed
    token with a newline, the route cache ignoring the source, a session counter
    that drifts, an idle time that wraps, block numbers after the sequence
    wraps, credentials a client can do without, a router that is asked about
    another address than the one dialled, a stream that is forgotten, a verdict
    stored after its rule is gone, a file swapped between its check and its load,
    a rolled back binary that cannot be executed, a forged address behind a proxy
    that serves a private network); they are recorded as findings.

    ** Choices

    - Time is an argument, in the unit the code uses; a method under a mutex is
      one step; [None] marks a Go panic or, in a loop with fuel, that the fuel
      ran out, and the theorems show that it does not.
    - Fuel: [FramedConn.write_loop] takes the number of bytes to write, since a
      record carries at least one; [readRecord_loop] one more than the pending
      input, since each record uses five header bytes; [Registry.drain] the
      number of modules, since a name is queued once; the label loops of [Dns]
      the length of the response, since each turn moves forward; [Copy_loop]
      the bytes and answers of the reader; [write_out] one turn, since a write
      without an error is complete; [sweep_ranges] the number of events, since a
      turn uses one; [header_start], [udp_up] and [pump_loop] one more than the
      input, since a turn reads a record or frame; [GoJson.parse_value] two more
      than twice the input, since a turn reads a byte or closes a value; the peek
      of [Camo] one more than the largest hello, and the frame and name loops of
      [QuicInitial] and [AsnBypass] the length of the payload, since a turn moves
      forward.
    - Integers keep their width where the code can reach the edge ([i32] filler
      times, [u32] sequence numbers, 16-bit lengths); counters that cannot are
      unbounded.

    ** Not modelled

    Third-party code (TLS and its fingerprints, HTTP/2, gRPC, QUIC, YAML, the
    cryptographic primitives) is a parameter where the modelled code calls it.
    Left out: the TCP and gRPC transports and the outbound
    dialers, which wrap such libraries; the shape policy and its training, a
    neural network in floating point, and the choice of a handshake strategy; the
    kill switches of macOS and Windows, whose platforms are not specified here;
    the wiring of the commands and of the server, logging and traffic counters;
    the datagram sessions' pumps and the splicing copy of the relay, whose loops
    are in the kernel or in goroutines over libraries. *)

From stdpp Require Export base gmap strings list numbers sorting.
From Stdlib Require Export Floats.
From Stdlib Require Uint63.

(** ** Scope and notations *)

Declare Scope go_scope.
Delimit Scope go_scope with go.

(** Go's [len] on slices and the slice expressions [s[i:]], [s[:j]], [s[i:j]],
    with the indices as [Z], the way Go's [int] indexes are. *)
Definition zlen {A} (l : list A) : Z := Z.of_nat (length l).
Definition zdrop {A} (i : Z) (l : list A) : list A := drop (Z.to_nat i) l.
Definition ztake {A} (j : Z) (l : list A) : list A := take (Z.to_nat j) l.
Definition zslice {A} (i j : Z) (l : list A) : list A := ztake (j - i) (zdrop i l).

Notation "'len' l" := (zlen l) (at level 9, l at level 0) : go_scope.

Global Open Scope go_scope.
Global Open Scope Z_scope.

(** ** Machine integers: the wrap-around of each width, written out *)

Definition u8 (z : Z) : Z := z mod 256.
Definition u16 (z : Z) : Z := z mod 65536.
Definition u32 (z : Z) : Z := z mod 4294967296.
Definition u64 (z : Z) : Z := z mod 18446744073709551616.
Definition i32 (z : Z) : Z := (z + 2147483648) mod 4294967296 - 2147483648.
Definition i64 (z : Z) : Z :=
  (z + 9223372036854775808) mod 18446744073709551616 - 9223372036854775808.

(** [encoding/binary]'s big-endian encoders and decoders. *)
Definition put16 (v : Z) : list Z := [u8 (Z.shiftr v 8); u8 v].
Definition put32 (v : Z) : list Z :=
  [u8 (Z.shiftr v 24); u8 (Z.shiftr v 16); u8 (Z.shiftr v 8); u8 v].
Definition put64 (v : Z) : list Z := put32 (Z.shiftr v 32) ++ put32 v.

Definition get16 (b : list Z) : Z :=
  match b with
  | hi :: lo :: _ => Z.lor (Z.shiftl hi 8) lo
  | _ => 0
  end.
Definition get32 (b : list Z) : Z :=
  match b with
  | a :: b :: c :: d :: _ =>
      Z.lor (Z.shiftl a 24) (Z.lor (Z.shiftl b 16) (Z.lor (Z.shiftl c 8) d))
  | _ => 0
  end.

Definition is_byte (b : Z) : Prop := 0 <= b < 256.
Definition is_byteb (b : Z) : bool := (0 <=? b) && (b <? 256).

(** ** Random numbers

    [math/rand] is modelled by the list of its future draws: [Intn n] is the
    next draw modulo [n], and any sequence of outcomes the generator can
    produce is the one of some list.  An exhausted list draws 0. *)

Definition rng := list Z.

Definition draw (r : rng) : Z * rng :=
  match r with
  | [] => (0, [])
  | z :: r' => (z, r')
  end.

Definition Intn (n : Z) (r : rng) : Z * rng :=
  let '(z, r') := draw r in (z mod n, r').
Definition Uint64 (r : rng) : Z * rng :=
  let '(z, r') := draw r in (u64 z, r').
(** [Float64] is [float64(Int63n(1<<53)) / (1<<53)]. *)
Definition Float64 (r : rng) : float * rng :=
  let '(z, r') := draw r in
  (PrimFloat.div (PrimFloat.of_uint63 (Uint63.of_Z (z mod 9007199254740992)))
                 (PrimFloat.of_uint63 (Uint63.of_Z 9007199254740992)), r').

(** ** Bytes and strings *)

Definition ascii_code (a : Ascii.ascii) : Z := Z.of_nat (Ascii.nat_of_ascii a).
Definition code_ascii (z : Z) : Ascii.ascii := Ascii.ascii_of_nat (Z.to_nat z).

(** [[]byte(s)] and [string(b)]. *)
Fixpoint bytes_of_string (s : string) : list Z :=
  match s with
  | EmptyString => []
  | String a s' => ascii_code a :: bytes_of_string s'
  end.
Fixpoint string_of_bytes (b : list Z) : string :=
  match b with
  | [] => EmptyString
  | z :: b' => String (code_ascii z) (string_of_bytes b')
  end.

(** ** Automation *)

Create HintDb go.
Create Rewrite HintDb golen.

Ltac go_unfold := unfold zlen, zdrop, ztake, zslice in *.

(** Splits the booleans of the code's guards into the propositions they
    decide. *)
Ltac bool_to_prop :=
  repeat match goal with
  | H : (_ && _)%bool = true |- _ => apply andb_true_iff in H; destruct H
  | H : (_ || _)%bool = false |- _ => apply orb_false_iff in H; destruct H
  | H : negb _ = true |- _ => apply negb_true_iff in H
  | H : negb _ = false |- _ => apply negb_false_iff in H
  | H : (_ <? _) = true |- _ => apply Z.ltb_lt in H
  | H : (_ <? _) = false |- _ => apply Z.ltb_ge in H
  | H : (_ <=? _) = true |- _ => apply Z.leb_le in H
  | H : (_ <=? _) = false |- _ => apply Z.leb_gt in H
  | H : (_ =? _) = true |- _ => apply Z.eqb_eq in H
  | H : (_ =? _) = false |- _ => apply Z.eqb_neq in H
  | H : bool_decide _ = true |- _ => apply bool_decide_eq_true in H
  | H : bool_decide _ = false |- _ => apply bool_decide_eq_false in H
  end.

(** Case analysis on every test of the goal, remembering its outcome. *)
Ltac split_ifs :=
  repeat match goal with
  | |- context [if ?b then _ else _] =>
      lazymatch type of b with bool => destruct b eqn:? end
  end; bool_to_prop.

Ltac split_ifs_in H :=
  repeat match type of H with
  | context [if ?b then _ else _] =>
      lazymatch type of b with bool => destruct b eqn:? end
  end; bool_to_prop.

(** ** Lemmas on lengths and slices *)

Lemma zlen_nil {A} : zlen (@nil A) = 0.
Proof. reflexivity. Qed.

Lemma zlen_cons {A} (x : A) l : zlen (x :: l) = 1 + zlen l.
Proof. unfold zlen. simpl. lia. Qed.

Lemma zlen_app {A} (l k : list A) : zlen (l ++ k) = zlen l + zlen k.
Proof. unfold zlen. rewrite length_app. lia. Qed.

Lemma zlen_nonneg {A} (l : list A) : 0 <= zlen l.
Proof. unfold zlen. lia. Qed.

#[export] Instance zlen_proper {A} : Proper (Permutation ==> eq) (@zlen A).
Proof. intros l k Hp. unfold zlen. by rewrite Hp. Qed.

Lemma zlen_zero {A} (l : list A) : zlen l = 0 -> l = [].
Proof. destruct l; [done|]. rewrite zlen_cons. pose proof (zlen_nonneg l). lia. Qed.

Lemma zlen_ztake {A} n (l : list A) : 0 <= n <= zlen l -> zlen (ztake n l) = n.
Proof. unfold zlen, ztake. intros. rewrite length_take. lia. Qed.

Lemma zlen_zdrop {A} n (l : list A) : 0 <= n <= zlen l -> zlen (zdrop n l) = zlen l - n.
Proof. unfold zlen, zdrop. intros. rewrite length_drop. lia. Qed.

Lemma zlen_replicate {A} n (x : A) : 0 <= n -> zlen (replicate (Z.to_nat n) x) = n.
Proof. unfold zlen. intros. rewrite length_replicate. lia. Qed.

Lemma ztake_zdrop {A} n (l : list A) : ztake n l ++ zdrop n l = l.
Proof. apply take_drop. Qed.

Lemma ztake_app_exact {A} n (l k : list A) : zlen l = n -> ztake n (l ++ k) = l.
Proof.
  intros <-. unfold ztake, zlen. rewrite Nat2Z.id. apply take_app_length.
Qed.

Lemma zdrop_app_exact {A} n (l k : list A) : zlen l = n -> zdrop n (l ++ k) = k.
Proof.
  intros <-. unfold zdrop, zlen. rewrite Nat2Z.id. apply drop_app_length.
Qed.

Lemma ztake_ge {A} n (l : list A) : zlen l <= n -> ztake n l = l.
Proof. unfold zlen, ztake. intros. apply take_ge. lia. Qed.

Lemma zdrop_ge {A} n (l : list A) : zlen l <= n -> zdrop n l = [].
Proof. unfold zlen, zdrop. intros. apply drop_ge. lia. Qed.

Lemma ztake_le0 {A} n (l : list A) : n <= 0 -> ztake n l = [].
Proof. unfold ztake. intros. replace (Z.to_nat n) with 0%nat by lia. done. Qed.

Lemma zdrop_le0 {A} n (l : list A) : n <= 0 -> zdrop n l = l.
Proof. unfold zdrop. intros. replace (Z.to_nat n) with 0%nat by lia. done. Qed.

Lemma length_zlen {A} (l : list A) : length l = Z.to_nat (zlen l).
Proof. unfold zlen. lia. Qed.

Lemma ztake_app_le {A} n (l k : list A) : n <= zlen l -> ztake n (l ++ k) = ztake n l.
Proof. intros Hn. unfold ztake. apply take_app_le. unfold zlen in Hn. lia. Qed.

Lemma ztake_app_ge {A} n (l k : list A) :
  zlen l <= n -> ztake n (l ++ k) = l ++ ztake (n - zlen l) k.
Proof.
  intros. unfold ztake. rewrite take_app_ge by (unfold zlen in *; lia).
  do 2 f_equal. unfold zlen in *. lia.
Qed.

Lemma lookup_map {A B} (f : A -> B) (l : list A) i : map f l !! i = f <$> l !! i.
Proof. exact (list_lookup_fmap f l i). Qed.

(** ** Lemmas on sorted lists *)

Lemma StronglySorted_app_le {A} (R : A -> A -> Prop) (l k : list A) x y :
  StronglySorted R (l ++ k) -> x ∈ l -> y ∈ k -> R x y.
Proof.
  induction l as [|z l IH]; cbn; [by intros _ ?%not_elem_of_nil|].
  intros Hs [->|Hx]%elem_of_cons Hy; apply StronglySorted_inv in Hs as [Hs Hz].
  - rewrite Forall_forall in Hz. apply Hz, elem_of_app. by right.
  - by apply IH.
Qed.

Lemma sublist_StronglySorted {A} (R : A -> A -> Prop) (l k : list A) :
  sublist l k -> StronglySorted R k -> StronglySorted R l.
Proof.
  induction 1 as [|x l k Hs IH|x l k Hs IH]; intros Hk; [constructor|..]; apply StronglySorted_inv in Hk as [Hk Hx].
  - constructor; [by apply IH|]. rewrite Forall_forall in *. intros y Hy. eapply Hx, elem_of_submseteq; [exact Hy|by apply sublist_submseteq].
  - by apply IH.
Qed.

Lemma sublist_omap {A B} (f : A -> option B) (l k : list A) : sublist l k -> sublist (omap f l) (omap f k).
Proof. induction 1 as [|x l k Hs IH|x l k Hs IH]; cbn; [done|..]; destruct (f x); try constructor; exact IH. Qed.

Lemma sublist_map {A B} (f : A -> B) (l k : list A) : sublist l k -> sublist (map f l) (map f k).
Proof. induction 1; cbn; by constructor. Qed.

Lemma sublist_Forall {A} (P : A -> Prop) (l k : list A) : sublist l k -> Forall P k -> Forall P l.
Proof. intros Hs Hk. apply Forall_forall. intros x Hx. rewrite Forall_forall in Hk. eapply Hk, elem_of_submseteq; [exact Hx|by apply sublist_submseteq]. Qed.

Lemma StronglySorted_lookup {A} (R : A -> A -> Prop) (l : list A) i j x y :
  StronglySorted R l -> l !! i = Some x -> l !! j = Some y -> (i < j)%nat -> R x y.
Proof.
  intros Hs Hi Hj Hlt. rewrite <- (take_drop_middle l i x Hi), (cons_middle x), app_assoc in Hs.
  eapply StronglySorted_app_le; [exact Hs|apply elem_of_app; right; by apply list_elem_of_singleton|].
  apply list_elem_of_lookup_2 with (j - S i)%nat. rewrite lookup_drop.
  by replace (S i + (j - S i))%nat with j by lia.
Qed.

(** ** Progress

    Every run of [step] from [s] comes to a state that satisfies [P], and no run
    stops before. *)
Inductive eventually {S} (step : S -> S -> Prop) (P : S -> Prop) (s : S) : Prop :=
| eventually_now : P s -> eventually step P s
| eventually_later : (exists s', step s s') -> (forall s', step s s' -> eventually step P s') -> eventually step P s.

(** A measure that every step lowers, and a step as long as [P] does not hold. *)
Lemma eventually_measure {S} (step : S -> S -> Prop) (P : S -> Prop) (inv : S -> Prop) (m : S -> nat) s :
  (forall s, inv s -> P s \/ exists s', step s s') ->
  (forall s s', inv s -> step s s' -> P s' \/ (inv s' /\ m s' < m s)%nat) ->
  inv s -> eventually step P s.
Proof.
  intros Hprog Hstep. remember (m s) as n eqn:Hn. revert s Hn. induction (lt_wf n) as [n _ IH]. intros s -> Hi.
  destruct (Hprog s Hi) as [HP|Hs]; [by apply eventually_now|]. apply eventually_later; [done|].
  intros s' Hs'. destruct (Hstep s s' Hi Hs') as [HP|[Hi' Hm]]; [by apply eventually_now|]. by apply (IH (m s')).
Qed.

(** ** Lemmas on words *)

Lemma u8_range z : 0 <= u8 z < 256.
Proof. apply Z.mod_pos_bound. lia. Qed.
Lemma u16_range z : 0 <= u16 z < 65536.
Proof. apply Z.mod_pos_bound. lia. Qed.
Lemma u32_range z : 0 <= u32 z < 4294967296.
Proof. apply Z.mod_pos_bound. lia. Qed.
Lemma i32_range z : -2147483648 <= i32 z < 2147483648.
Proof. unfold i32. pose proof (Z.mod_pos_bound (z + 2147483648) 4294967296). lia. Qed.
Lemma u8_small z : 0 <= z < 256 -> u8 z = z.
Proof. apply Z.mod_small. Qed.
Lemma u16_small z : 0 <= z < 65536 -> u16 z = z.
Proof. apply Z.mod_small. Qed.
Lemma u32_small z : 0 <= z < 4294967296 -> u32 z = z.
Proof. apply Z.mod_small. Qed.
Lemma i32_small z : -2147483648 <= z < 2147483648 -> i32 z = z.
Proof. unfold i32. intros. rewrite Z.mod_small by lia. lia. Qed.

Lemma lor_shiftl_add hi lo n :
  0 <= n -> 0 <= lo < 2 ^ n -> Z.lor (Z.shiftl hi n) lo = hi * 2 ^ n + lo.
Proof.
  intros Hn Hlo. rewrite <- Z.shiftl_mul_pow2 by done.
  apply Z.bits_inj'. intros i Hi. rewrite Z.lor_spec.
  destruct (Z_lt_le_dec i n).
  - rewrite Z.shiftl_spec_low by done. simpl.
    rewrite Z.shiftl_mul_pow2 by done.
    rewrite <- (Z.mod_pow2_bits_low (hi * 2 ^ n + lo) n) by done.
    rewrite Z.add_comm, Z_mod_plus_full, Z.mod_small by done. done.
  - assert (Hz : Z.testbit lo i = false).
    { rewrite <- (Z.mod_small lo (2 ^ n)) by done. apply Z.mod_pow2_bits_high. lia. }
    rewrite Hz, orb_false_r, Z.shiftl_spec_high by lia.
    rewrite Z.shiftl_mul_pow2 by done.
    assert (Hd : hi = (hi * 2 ^ n + lo) / 2 ^ n).
    { rewrite Z.div_add_l by lia. rewrite Z.div_small by done. lia. }
    rewrite Hd at 1. rewrite <- Z.shiftr_div_pow2 by done.
    rewrite Z.shiftr_spec by lia. f_equal. lia.
Qed.

Lemma get16_val hi lo k :
  is_byte lo -> get16 (hi :: lo :: k) = hi * 256 + lo.
Proof. intros H. simpl. rewrite lor_shiftl_add; [done|lia|exact H]. Qed.

Lemma get16_put16 v k : 0 <= v < 65536 -> get16 (put16 v ++ k) = v.
Proof.
  intros Hv. unfold put16. simpl app.
  rewrite get16_val by apply u8_range.
  unfold u8. rewrite Z.shiftr_div_pow2 by lia. change (2 ^ 8) with 256.
  rewrite (Z.mod_small (v / 256)).
  - pose proof (Z.div_mod v 256). lia.
  - split; [apply Z.div_pos; lia | apply Z.div_lt_upper_bound; lia].
Qed.

Lemma get32_put32 v k : 0 <= v < 4294967296 -> get32 (put32 v ++ k) = v.
Proof.
  intros Hv. unfold put32. simpl app. unfold get32, u8.
  rewrite !Z.shiftr_div_pow2 by lia.
  change (2 ^ 24) with 16777216. change (2 ^ 16) with 65536. change (2 ^ 8) with 256.
  assert (H1 : 0 <= v mod 256 < 2 ^ 8) by (apply Z.mod_pos_bound; lia).
  assert (H2 : 0 <= (v / 256) mod 256 < 256) by (apply Z.mod_pos_bound; lia).
  assert (H3 : 0 <= (v / 65536) mod 256 < 256) by (apply Z.mod_pos_bound; lia).
  rewrite (lor_shiftl_add _ (v mod 256) 8) by (try exact H1; lia).
  rewrite (lor_shiftl_add _ _ 16) by lia.
  rewrite (lor_shiftl_add _ _ 24) by lia.
  rewrite (Z.mod_small (v / 16777216)) by
    (split; [apply Z.div_pos; lia | apply Z.div_lt_upper_bound; lia]).
  change 16777216 with (65536 * 256). change 65536 with (256 * 256).
  rewrite <- !Z.div_div by lia.
  pose proof (Z.div_mod v 256). pose proof (Z.div_mod (v / 256) 256).
  pose proof (Z.div_mod (v / 256 / 256) 256). lia.
Qed.

Lemma put16_len v : zlen (put16 v) = 2.
Proof. reflexivity. Qed.
Lemma put32_len v : zlen (put32 v) = 4.
Proof. reflexivity. Qed.
Lemma put64_len v : zlen (put64 v) = 8.
Proof. reflexivity. Qed.

Lemma get16_range b : Forall is_byte b -> 0 <= get16 b < 65536.
Proof.
  intros H. destruct b as [|x [|y b]]; [simpl; lia..|].
  apply Forall_cons in H as [Hx H]. apply Forall_cons in H as [Hy _].
  rewrite get16_val by done. unfold is_byte in *. lia.
Qed.

Lemma put16_bytes v : Forall is_byte (put16 v).
Proof. repeat constructor; apply u8_range. Qed.
Lemma put32_bytes v : Forall is_byte (put32 v).
Proof. repeat constructor; apply u8_range. Qed.

(** ** Lemmas on random draws *)

Lemma Intn_range n r : 0 < n -> 0 <= (Intn n r).1 < n.
Proof. intros. unfold Intn. destruct (draw r). simpl. by apply Z.mod_pos_bound. Qed.

(** ** Lemmas on strings *)

Lemma ascii_code_range a : 0 <= ascii_code a < 256.
Proof. unfold ascii_code. pose proof (Ascii.nat_ascii_bounded a). lia. Qed.

Lemma code_ascii_code a : code_ascii (ascii_code a) = a.
Proof.
  unfold code_ascii, ascii_code. rewrite Nat2Z.id. apply Ascii.ascii_nat_embedding.
Qed.

Lemma ascii_code_code z : is_byte z -> ascii_code (code_ascii z) = z.
Proof.
  intros [? ?]. unfold code_ascii, ascii_code. rewrite Ascii.nat_ascii_embedding; lia.
Qed.

Lemma string_of_bytes_of_string s : string_of_bytes (bytes_of_string s) = s.
Proof. induction s; simpl; [done|]. by rewrite code_ascii_code, IHs. Qed.

Lemma bytes_of_string_of_bytes b :
  Forall is_byte b -> bytes_of_string (string_of_bytes b) = b.
Proof. induction 1; simpl; [done|]. by rewrite ascii_code_code, IHForall. Qed.

Lemma bytes_of_string_app s t : bytes_of_string (String.append s t) = bytes_of_string s ++ bytes_of_string t.
Proof. induction s; simpl; [done|]. by rewrite IHs. Qed.

Lemma string_of_bytes_app a b : string_of_bytes (a ++ b) = String.append (string_of_bytes a) (string_of_bytes b).
Proof. induction a; simpl; [done|]. by rewrite IHa. Qed.

Lemma bytes_of_string_ok s : Forall is_byte (bytes_of_string s).
Proof. induction s; simpl; constructor; [apply ascii_code_range|done]. Qed.

Lemma bytes_of_string_len s : zlen (bytes_of_string s) = Z.of_nat (String.length s).
Proof. induction s; simpl; [done|]. rewrite zlen_cons, IHs. lia. Qed.

#[export] Hint Resolve zlen_nonneg u8_range u16_range u32_range put16_bytes put32_bytes
  bytes_of_string_ok : go.
#[export] Hint Rewrite @zlen_nil @zlen_cons @zlen_app put16_len put32_len put64_len : golen.

(** Normalises lengths and closes linear goals about them. *)
Ltac zlen_lia :=
  autorewrite with golen in *;
  repeat match goal with
  | |- context [zlen ?l] => lazymatch goal with
      | _ : 0 <= zlen l |- _ => fail | _ => pose proof (zlen_nonneg l) end
  | _ : context [zlen ?l] |- _ => lazymatch goal with
      | _ : 0 <= zlen l |- _ => fail | _ => pose proof (zlen_nonneg l) end
  end; lia.
