(* ===== verification/GoIO.v ===== *)
(** The parts of Go's [io] and [net] the transports rest on: the errors they
    return and a connection as a pair of byte streams.

    A [Conn] holds the bytes the peer has sent and that are not read yet, the
    error a read gets once they are used up, the bytes written so far, and the
    outcome of each future [Write]: success, or failure with an error after a
    prefix of the buffer went out.  An empty script means every write succeeds.
    Locks are not modelled: each method that runs under a mutex is one step. *)

From S2P Require Import Prelude.

(** The error values the modelled code returns or tests for. *)
Inductive error :=
| EOF
| ErrUnexpectedEOF
| ErrClosedPipe
| ErrShortBuffer
| errFramedBadRecord
| ErrSwitchRaw
| errShapeRange
| OtherErr (code : Z).

#[export] Instance error_eq_dec : EqDecision error.
Proof. solve_decision. Defined.

Record Conn := mkConn {
  c_in : list Z;
  c_inerr : error;
  c_out : list Z;
  c_wscript : list (option (Z * error));
  c_closed : bool
}.

(** [net.Conn.Write]. *)
Definition Conn_Write (c : Conn) (b : list Z) : Conn * option error :=
  match c_wscript c with
  | [] => (mkConn (c_in c) (c_inerr c) (c_out c ++ b) [] (c_closed c), None)
  | None :: s => (mkConn (c_in c) (c_inerr c) (c_out c ++ b) s (c_closed c), None)
  | Some (n, e) :: s =>
      (mkConn (c_in c) (c_inerr c) (c_out c ++ ztake n b) s (c_closed c), Some e)
  end.

(** [io.ReadFull(conn, buf)] with [n = len(buf)]: the bytes, or the error.  A
    short stream is used up; ending after part of the buffer was filled turns
    [EOF] into [ErrUnexpectedEOF]. *)
Definition ReadFull (c : Conn) (n : Z) : Conn * (list Z + error) :=
  if n <=? zlen (c_in c) then
    (mkConn (zdrop n (c_in c)) (c_inerr c) (c_out c) (c_wscript c) (c_closed c),
     inl (ztake n (c_in c)))
  else
    let e := if (0 <? zlen (c_in c)) && bool_decide (c_inerr c = EOF)
             then ErrUnexpectedEOF else c_inerr c in
    (mkConn [] (c_inerr c) (c_out c) (c_wscript c) (c_closed c), inr e).

Definition Conn_Close (c : Conn) : Conn :=
  mkConn (c_in c) (c_inerr c) (c_out c) (c_wscript c) true.

(** A connection whose writes succeed. *)
Definition writable (c : Conn) : Prop := Forall (fun o => o = None) (c_wscript c).

(** The connection with [b] taken from the front of its input. *)
Definition with_in (c : Conn) (b : list Z) : Conn :=
  mkConn b (c_inerr c) (c_out c) (c_wscript c) (c_closed c).
Definition with_out (c : Conn) (b : list Z) : Conn :=
  mkConn (c_in c) (c_inerr c) b (tail (c_wscript c)) (c_closed c).

Lemma Conn_Write_ok c b : writable c -> Conn_Write c b = (with_out c (c_out c ++ b), None).
Proof.
  unfold writable, Conn_Write, with_out. intros H.
  destruct (c_wscript c) as [|o s]; [done|].
  apply Forall_cons in H as [-> _]. done.
Qed.

Lemma with_out_writable c b : writable c -> writable (with_out c b).
Proof. unfold writable. simpl. intros H. destruct (c_wscript c); [done|]. by inversion H. Qed.

Lemma ReadFull_app c n b k :
  c_in c = b ++ k -> zlen b = n -> ReadFull c n = (with_in c k, inl b).
Proof.
  intros Hc Hn. unfold ReadFull, with_in. rewrite Hc.
  assert (Hl : (n <=? zlen (b ++ k)) = true) by (apply Z.leb_le; zlen_lia).
  rewrite Hl, zdrop_app_exact, ztake_app_exact by done. done.
Qed.

Lemma ReadFull_shrinks c n c' b :
  0 <= n -> ReadFull c n = (c', inl b) ->
  c_in c = b ++ c_in c' /\ zlen b = n /\ c_out c' = c_out c /\ c_inerr c' = c_inerr c.
Proof.
  unfold ReadFull. intros Hn H. destruct (Z.leb_spec n (zlen (c_in c))); [|done].
  injection H as <- <-. simpl. rewrite ztake_zdrop. split_and!; try done.
  apply zlen_ztake. lia.
Qed.

#[export] Hint Resolve with_out_writable : go.
