(* ===== verification/GoStr.v ===== *)
(** Go's [strings] and [strconv] functions the configuration and routing code
    calls, on strings as sequences of bytes.

    [TrimSpace] removes the white space of [unicode.IsSpace] in its UTF-8
    encodings.  [ToLower] and [ToUpper] map the ASCII letters; on a string
    with a byte above 127 Go consults the Unicode tables, and that case is the
    operation of the class [UnicodeCase]. *)

From S2P Require Import Prelude.

(** ** Prefixes, suffixes and searches on bytes *)

Fixpoint strip_prefix (p l : list Z) : option (list Z) :=
  match p, l with
  | [], _ => Some l
  | x :: p', y :: l' => if x =? y then strip_prefix p' l' else None
  | _ :: _, [] => None
  end.

Definition has_prefix (p l : list Z) : bool :=
  match strip_prefix p l with Some _ => true | None => false end.

Fixpoint contains (sub l : list Z) : bool :=
  has_prefix sub l ||
  match l with
  | [] => false
  | _ :: l' => contains sub l'
  end.

(** [strings.IndexByte]: the position of the first [c], or -1. *)
Fixpoint index_byte (c : Z) (l : list Z) : Z :=
  match l with
  | [] => -1
  | x :: l' => if x =? c then 0
               else let i := index_byte c l' in if i =? -1 then -1 else 1 + i
  end.

(** ** White space *)

Definition space_runes : list (list Z) :=
  [[9]; [10]; [11]; [12]; [13]; [32];
   [194; 133]; [194; 160]; [225; 154; 128];
   [226; 128; 128]; [226; 128; 129]; [226; 128; 130]; [226; 128; 131];
   [226; 128; 132]; [226; 128; 133]; [226; 128; 134]; [226; 128; 135];
   [226; 128; 136]; [226; 128; 137]; [226; 128; 138];
   [226; 128; 168]; [226; 128; 169]; [226; 128; 175];
   [226; 129; 159]; [227; 128; 128]].

Definition strip_one (ps : list (list Z)) (l : list Z) : option (list Z) :=
  foldr (fun p acc => match strip_prefix p l with Some r => Some r | None => acc end) None ps.

Fixpoint strip_all (fuel : nat) (ps : list (list Z)) (l : list Z) : list Z :=
  match fuel with
  | O => l
  | S f => match strip_one ps l with
           | Some r => strip_all f ps r
           | None => l
           end
  end.

Definition trim_left (l : list Z) : list Z := strip_all (length l) space_runes l.
Definition trim_right (l : list Z) : list Z :=
  rev (strip_all (length l) (map (@rev Z) space_runes) (rev l)).
Definition trim_space (l : list Z) : list Z := trim_right (trim_left l).

(** ** Functions on Go strings *)

Definition TrimSpace (s : string) : string := string_of_bytes (trim_space (bytes_of_string s)).
Definition HasPrefix (s p : string) : bool := has_prefix (bytes_of_string p) (bytes_of_string s).
Definition HasSuffix (s p : string) : bool :=
  has_prefix (rev (bytes_of_string p)) (rev (bytes_of_string s)).
Definition Contains (s sub : string) : bool := contains (bytes_of_string sub) (bytes_of_string s).
Definition IndexByte (s : string) (c : Z) : Z := index_byte c (bytes_of_string s).
Definition TrimPrefix (s p : string) : string :=
  match strip_prefix (bytes_of_string p) (bytes_of_string s) with
  | Some r => string_of_bytes r
  | None => s
  end.
Definition TrimSuffix (s p : string) : string :=
  match strip_prefix (rev (bytes_of_string p)) (rev (bytes_of_string s)) with
  | Some r => string_of_bytes (rev r)
  | None => s
  end.

(** [strings.SplitN(s, sep, n)] for a one-byte separator and [n > 0]. *)
Fixpoint split_n (n : nat) (sep : Z) (cur l : list Z) : list (list Z) :=
  match l with
  | [] => [rev cur]
  | x :: l' =>
      match n with
      | S (S n') => if x =? sep then rev cur :: split_n (S n') sep [] l'
                    else split_n n sep (x :: cur) l'
      | _ => [rev cur ++ l]
      end
  end.
Definition SplitN (s : string) (sep : Z) (n : nat) : list string :=
  map string_of_bytes (split_n n sep [] (bytes_of_string s)).

(** [strings.Split(s, sep)] for a one-byte separator. *)
Definition split_all (sep : Z) (l : list Z) : list (list Z) := split_n (S (S (length l))) sep [] l.

(** ** Numbers *)

Definition is_digit (c : Z) : bool := (48 <=? c) && (c <=? 57).

Fixpoint digits_val (acc : Z) (l : list Z) : option Z :=
  match l with
  | [] => Some acc
  | c :: l' => if is_digit c then digits_val (acc * 10 + (c - 48)) l' else None
  end.

(** [strconv.Atoi]: an optional sign and one or more digits; [None] for a
    syntax error or a value out of the range of [int]. *)
Definition atoi (l : list Z) : option Z :=
  let '(neg, ds) := match l with
                    | c :: l' => if c =? 45 then (true, l')
                                 else if c =? 43 then (false, l') else (false, l)
                    | [] => (false, l)
                    end in
  match ds with
  | [] => None
  | _ => match digits_val 0 ds with
         | Some v => let v := if (neg : bool) then - v else v in
                     if (-9223372036854775808 <=? v) && (v <=? 9223372036854775807)
                     then Some v else None
         | None => None
         end
  end.
Definition Atoi (s : string) : option Z := atoi (bytes_of_string s).

(** [strconv.Itoa] for a non-negative [int]. *)
Fixpoint itoa_digits (fuel : nat) (n : Z) (acc : list Z) : list Z :=
  match fuel with
  | O => acc
  | S f => let acc := (48 + n mod 10) :: acc in
           if n / 10 =? 0 then acc else itoa_digits f (n / 10) acc
  end.
Definition Itoa (n : Z) : string := string_of_bytes (itoa_digits 20 n []).

(** ** Letter case *)

Class UnicodeCase := {
  unicode_lower : string -> string;
  unicode_upper : string -> string
}.

Definition is_ascii (s : string) : bool :=
  forallb (fun c => c <? 128) (bytes_of_string s).
Definition lower_byte (c : Z) : Z := if (65 <=? c) && (c <=? 90) then c + 32 else c.
Definition upper_byte (c : Z) : Z := if (97 <=? c) && (c <=? 122) then c - 32 else c.

Definition ToLower `{UnicodeCase} (s : string) : string :=
  if is_ascii s then string_of_bytes (map lower_byte (bytes_of_string s)) else unicode_lower s.
Definition ToUpper `{UnicodeCase} (s : string) : string :=
  if is_ascii s then string_of_bytes (map upper_byte (bytes_of_string s)) else unicode_upper s.

(** [strings.EqualFold]; folding outside ASCII is an operation of the class. *)
Class UnicodeFold := { unicode_equal_fold : string -> string -> bool }.
Definition EqualFold `{UnicodeFold} (s t : string) : bool :=
  if is_ascii s && is_ascii t then
    bool_decide (map lower_byte (bytes_of_string s) = map lower_byte (bytes_of_string t))
  else unicode_equal_fold s t.

(** ** Lemmas *)

Lemma strip_prefix_Some p l r : strip_prefix p l = Some r <-> l = p ++ r.
Proof.
  revert l. induction p as [|x p IH]; intros l; simpl; [naive_solver|].
  destruct l as [|y l]; [naive_solver|]. destruct (Z.eqb_spec x y) as [->|].
  - rewrite IH. naive_solver.
  - naive_solver.
Qed.

Lemma has_prefix_true p l : has_prefix p l = true <-> exists r, l = p ++ r.
Proof.
  unfold has_prefix. destruct (strip_prefix p l) as [r|] eqn:E.
  - apply strip_prefix_Some in E. naive_solver.
  - split; [done|]. intros [r Hr%strip_prefix_Some]. congruence.
Qed.

Lemma contains_true sub l : contains sub l = true <-> exists a b, l = a ++ sub ++ b.
Proof.
  induction l as [|x l IH]; simpl; rewrite orb_true_iff, has_prefix_true.
  - split; [intros [[r ?]|?]; [exists [], r|]; done|].
    intros (a & b & H). left. destruct a; [by exists b|done].
  - split.
    + intros [[r ->]|(a & b & ->)%IH]; [by exists [], r|by exists (x :: a), b].
    + intros ([|y a] & b & H); [left; by exists b|right]. apply IH.
      injection H as -> ->. eauto.
Qed.

Lemma index_byte_spec c l :
  (index_byte c l = -1 /\ ~ In c l) \/
  (0 <= index_byte c l < zlen l /\
   exists a b, l = a ++ c :: b /\ zlen a = index_byte c l /\ ~ In c a).
Proof.
  induction l as [|x l IH]; simpl; [left; naive_solver|].
  destruct (Z.eqb_spec x c) as [->|Hne].
  - right. split; [zlen_lia|]. exists [], l. naive_solver.
  - destruct IH as [[-> ?]|(Hr & a & b & -> & Hl & Hn)].
    + left. naive_solver.
    + right. destruct (Z.eqb_spec (index_byte c (a ++ c :: b)) (-1)); [lia|].
      split; [zlen_lia|]. exists (x :: a), b. split_and!; [done|zlen_lia|].
      simpl. naive_solver.
Qed.

Lemma digits_val_nonneg acc l v : 0 <= acc -> digits_val acc l = Some v -> 0 <= v.
Proof.
  revert acc. induction l as [|c l IH]; simpl; intros acc Ha H; [naive_solver|].
  unfold is_digit in H. split_ifs_in H; [|done]. apply IH in H; lia.
Qed.

(** ** Decimal numbers *)

Lemma itoa_value f n tl : 0 <= n < 10 ^ Z.of_nat f -> (0 < f)%nat -> digits_val 0 (itoa_digits f n tl) = digits_val n tl.
Proof.
  revert n tl. induction f as [|f IH]; intros n tl Hn Hf; [lia|]. cbn [itoa_digits].
  pose proof (Z.mod_pos_bound n 10 ltac:(lia)) as Hm. pose proof (Z.div_mod n 10 ltac:(lia)) as Hd.
  assert (Hdig : forall a, digits_val a (48 + n mod 10 :: tl) = digits_val (a * 10 + n mod 10) tl).
  { intros a. cbn [digits_val]. unfold is_digit. replace ((48 <=? 48 + n mod 10) && (48 + n mod 10 <=? 57)) with true.
    - f_equal. lia.
    - symmetry. apply andb_true_intro. split; apply Z.leb_le; lia. }
  destruct (Z.eqb_spec (n / 10) 0) as [E|E].
  - rewrite Hdig. f_equal. lia.
  - replace (Z.of_nat (S f)) with (Z.succ (Z.of_nat f)) in Hn by lia. rewrite Z.pow_succ_r in Hn by lia.
    destruct f as [|f]; [exfalso; apply E, Z.div_small; cbn in Hn; lia|].
    rewrite IH; [rewrite Hdig; f_equal; lia| |lia]. split; [apply Z.div_pos; lia|]. apply Z.div_lt_upper_bound; lia.
Qed.

Lemma itoa_bytes f n tl : Forall is_byte tl -> Forall is_byte (itoa_digits f n tl).
Proof.
  revert n tl. induction f as [|f IH]; intros n tl H; [done|]. cbn [itoa_digits].
  assert (Forall is_byte (48 + n mod 10 :: tl)) by (constructor; [|done]; pose proof (Z.mod_pos_bound n 10 ltac:(lia)); unfold is_byte; lia).
  destruct (n / 10 =? 0); [done|by apply IH].
Qed.

Lemma Itoa_inj a b : 0 <= a < 2 ^ 64 -> 0 <= b < 2 ^ 64 -> Itoa a = Itoa b -> a = b.
Proof.
  intros Ha Hb H. apply (f_equal bytes_of_string) in H. unfold Itoa in H.
  rewrite !bytes_of_string_of_bytes in H by (apply itoa_bytes; constructor).
  apply (f_equal (digits_val 0)) in H. rewrite !itoa_value in H by (cbn; lia). cbn in H. congruence.
Qed.
