(* ===== verification/GoBytes.v ===== *)
(** Byte arrays as numbers: Go's [bytes.Compare] and the big-endian value of a
    byte string, which orders arrays of one length the same way.  Shared by the
    files that look addresses up in tables. *)

From S2P Require Import Prelude.

(** [bytes.Compare]. *)
Fixpoint bytes_compare (a b : list Z) : comparison :=
  match a, b with
  | [], [] => Eq
  | [], _ => Lt
  | _, [] => Gt
  | x :: a', y :: b' => match x ?= y with Eq => bytes_compare a' b' | c => c end
  end.

Definition bytes_val (b : list Z) : Z := foldl (fun v x => v * 256 + x) 0 b.

(** Linear arithmetic with the ranges of bytes and division by constants. *)
Ltac byte_lia := unfold is_byte in *; Z.to_euclidean_division_equations; lia.

Lemma bytes_val_acc v b : foldl (fun v x => v * 256 + x) v b = v * 256 ^ len b + bytes_val b.
Proof.
  unfold bytes_val. revert v. induction b as [|x b IH]; intros v; cbn [foldl].
  - rewrite zlen_nil. lia.
  - rewrite (IH (v * 256 + x)), (IH (0 * 256 + x)), zlen_cons, Z.pow_add_r by auto with go lia. lia.
Qed.

Lemma bytes_val_app a b : bytes_val (a ++ b) = bytes_val a * 256 ^ len b + bytes_val b.
Proof. unfold bytes_val at 1. rewrite foldl_app. apply bytes_val_acc. Qed.

Lemma bytes_val_range b : Forall is_byte b -> 0 <= bytes_val b < 256 ^ len b.
Proof.
  induction b as [|x b IH] using rev_ind; [done|]. intros [Hb Hx]%Forall_app.
  rewrite bytes_val_app, zlen_app, Z.pow_add_r by auto with go lia.
  apply Forall_cons in Hx as [[? ?] _]. specialize (IH Hb).
  change (len [x]) with 1. change (bytes_val [x]) with x. lia.
Qed.

(** The number of the first bytes is the number shifted right by the others. *)
Lemma bytes_val_head a b : Forall is_byte b -> bytes_val (a ++ b) / 256 ^ len b = bytes_val a.
Proof.
  intros Hb. pose proof (bytes_val_range b Hb). rewrite bytes_val_app, Z.div_add_l by lia.
  rewrite Z.div_small by lia. lia.
Qed.

Lemma bytes_val_inj a b :
  Forall is_byte a -> Forall is_byte b -> len a = len b -> bytes_val a = bytes_val b -> a = b.
Proof.
  revert b. induction a as [|x a IH] using rev_ind; intros b Ha Hb Hl Hv.
  - symmetry. by apply zlen_zero.
  - destruct b as [|y b _] using rev_ind; [rewrite zlen_app, zlen_cons in Hl; rewrite zlen_nil in Hl; zlen_lia|].
    apply Forall_app in Ha as [Ha [[? ?] _]%Forall_cons], Hb as [Hb [[? ?] _]%Forall_cons].
    rewrite !bytes_val_app in Hv. change (len [_]) with 1 in Hv. cbn in Hv.
    assert (x = y) as -> by lia. f_equal. apply IH; [done|done|zlen_lia|lia].
Qed.

Lemma bytes_val_cons x b : bytes_val (x :: b) = x * 256 ^ len b + bytes_val b.
Proof. exact (bytes_val_app [x] b). Qed.

(** Arrays of one length are ordered like their numbers. *)
Lemma bytes_compare_val a b :
  Forall is_byte a -> Forall is_byte b -> len a = len b ->
  bytes_compare a b = (bytes_val a ?= bytes_val b).
Proof.
  intros Ha. revert b. induction Ha as [|x a Hx Ha IH]; intros b Hb Hl.
  - apply eq_sym, zlen_zero in Hl as ->. done.
  - destruct Hb as [|y b Hy Hb]; [rewrite zlen_cons in Hl; zlen_lia|].
    assert (Hl' : len a = len b) by zlen_lia. cbn [bytes_compare]. rewrite !bytes_val_cons, IH by done.
    pose proof (bytes_val_range a Ha). pose proof (bytes_val_range b Hb). rewrite Hl' in *.
    destruct (Z.compare_spec x y) as [->|Hlt|Hlt]; symmetry.
    + apply Z.add_compare_mono_l.
    + apply Z.compare_lt_iff. nia.
    + apply Z.compare_gt_iff. nia.
Qed.

Lemma range_ones w x : 0 <= w -> 0 <= x < 2 ^ w <-> Z.land x (Z.ones w) = x.
Proof.
  intros Hw. rewrite Z.land_ones by done. split; [apply Z.mod_small|].
  intros <-. apply Z.mod_pos_bound. lia.
Qed.

Lemma lxor_range w x y : 0 <= w -> 0 <= x < 2 ^ w -> 0 <= y < 2 ^ w -> 0 <= Z.lxor x y < 2 ^ w.
Proof.
  intros Hw. rewrite !range_ones by done. intros Hx Hy. apply Z.bits_inj'. intros i Hi.
  rewrite <- Hx, <- Hy. rewrite !Z.land_spec, !Z.lxor_spec, !Z.land_spec. by destruct (Z.testbit (Z.ones w) i), (Z.testbit x i), (Z.testbit y i).
Qed.

Lemma land_range w x m : 0 <= w -> 0 <= x < 2 ^ w -> 0 <= Z.land x m < 2 ^ w.
Proof.
  intros Hw. rewrite !range_ones by done. intros Hx.
  rewrite <- Z.land_assoc, (Z.land_comm m), Z.land_assoc. by rewrite Hx.
Qed.

Lemma byte_enum (P : Z -> bool) b :
  forallb P (Z.of_nat <$> seq 0 256) = true -> is_byte b -> P b = true.
Proof.
  intros H [? ?]. rewrite forallb_forall in H. apply H, list_elem_of_In, list_elem_of_fmap.
  exists (Z.to_nat b). split; [lia|]. apply elem_of_seq. lia.
Qed.
