(* ===== verification/GoSort.v ===== *)
(** Go's [sort.SliceStable] and [sort.Search].

    The stable sort is determined by its specification; it is written here as an
    insertion sort.  [Search] is the binary search of the library, turn by turn. *)

From S2P Require Import Prelude.

(** ** Stable sorting *)

Section Stable.
Context {A : Type} (before : A -> A -> bool).

(** In front of the first element it need not follow. *)
Fixpoint stable_insert (x : A) (l : list A) : list A :=
  match l with
  | [] => [x]
  | y :: l' => if before y x then y :: stable_insert x l' else x :: l
  end.
Definition SliceStable (l : list A) : list A := foldr stable_insert [] l.

Lemma stable_insert_Permutation x l : stable_insert x l ≡ₚ x :: l.
Proof.
  induction l as [|y l IH]; cbn; [done|]. destruct (before y x); [|done].
  rewrite IH. apply Permutation_swap.
Qed.

Lemma SliceStable_Permutation l : SliceStable l ≡ₚ l.
Proof. induction l as [|x l IH]; cbn; [done|]. by rewrite stable_insert_Permutation, IH. Qed.

(** On elements that satisfy [P], [before] compares integer keys. *)
Context (P : A -> Prop) (key : A -> Z).
Context (Hkey : forall x y, P x -> P y -> before x y = (key x <? key y)).

Lemma stable_insert_sorted x l :
  P x -> Forall P l -> StronglySorted (fun a b => key a <= key b) l ->
  StronglySorted (fun a b => key a <= key b) (stable_insert x l).
Proof using Hkey.
  intros Hx Hl Hs. induction Hs as [|y l Hs IH Hy]; cbn; [repeat constructor|].
  apply Forall_cons in Hl as [HPy Hl]. rewrite Hkey by done. destruct (Z.ltb_spec (key y) (key x)).
  - constructor; [by apply IH|]. rewrite stable_insert_Permutation. constructor; [lia|done].
  - constructor; [by constructor|]. constructor; [done|]. eapply Forall_impl; [exact Hy|]. cbn. lia.
Qed.

Lemma SliceStable_sorted l :
  Forall P l -> StronglySorted (fun a b => key a <= key b) (SliceStable l).
Proof using Hkey.
  induction 1 as [|x l Hx Hl IH]; cbn; [constructor|]. apply stable_insert_sorted; [done| |done].
  fold (SliceStable l). by rewrite SliceStable_Permutation.
Qed.

(** Elements with the same key keep their order. *)
Lemma stable_insert_stable k x l :
  P x -> Forall P l ->
  filter (fun x => key x = k) (stable_insert x l) = filter (fun x => key x = k) (x :: l).
Proof using Hkey.
  intros Hx Hl. induction Hl as [|y l Hy Hl IH]; [done|]. cbn [stable_insert]. rewrite Hkey by done.
  destruct (Z.ltb_spec (key y) (key x)); [|done].
  rewrite filter_cons, IH, !filter_cons. destruct (decide (key y = k)), (decide (key x = k)); done || lia.
Qed.

Lemma SliceStable_stable k l :
  Forall P l -> filter (fun x => key x = k) (SliceStable l) = filter (fun x => key x = k) l.
Proof using Hkey.
  induction 1 as [|x l Hx Hl IH]; [done|]. cbn [SliceStable foldr]. fold (SliceStable l).
  rewrite stable_insert_stable; [|done|by rewrite SliceStable_Permutation].
  rewrite !filter_cons, IH. done.
Qed.

End Stable.

(** ** Binary search *)

(** [sort.Search(n, f)], with [n] turns of fuel. *)
Fixpoint Search_loop (fuel : nat) (f : nat -> bool) (i j : nat) : nat :=
  match fuel with
  | O => i
  | S fuel =>
      if (i <? j)%nat then
        let h := Nat.div2 (i + j) in
        if f h then Search_loop fuel f i h else Search_loop fuel f (S h) j
      else i
  end.
Definition Search (n : nat) (f : nat -> bool) : nat := Search_loop n f 0 n.

Lemma Search_loop_spec fuel f i j :
  (j - i <= fuel)%nat -> (i <= j)%nat ->
  (forall a b, (a <= b)%nat -> f a = true -> f b = true) ->
  let r := Search_loop fuel f i j in
  (i <= r <= j)%nat /\ (forall k, (i <= k < r)%nat -> f k = false) /\
  (forall k, (r <= k < j)%nat -> f k = true).
Proof.
  revert i j. induction fuel as [|fuel IH]; intros i j Hf Hij Hm; cbn [Search_loop].
  - split; [lia|]. split; intros k ?; lia.
  - destruct (Nat.ltb_spec i j) as [Hlt|]; [|split; [lia|]; split; intros k ?; lia].
    set (h := Nat.div2 (i + j)).
    assert (Hh : (i <= h < j)%nat).
    { unfold h. rewrite Nat.div2_div. split; [apply Nat.div_le_lower_bound; lia|apply Nat.Div0.div_lt_upper_bound; lia]. }
    destruct (f h) eqn:E.
    + destruct (IH i h ltac:(lia) ltac:(lia) Hm) as (H1 & H2 & H3).
      split; [lia|]. split; [done|]. intros k Hk. destruct (decide (k < h)%nat); [apply H3; lia|].
      apply (Hm h); [lia|done].
    + destruct (IH (S h) j ltac:(lia) ltac:(lia) Hm) as (H1 & H2 & H3).
      split; [lia|]. split; [|done]. intros k Hk. destruct (decide (h < k)%nat); [apply H2; lia|].
      destruct (f k) eqn:Ek; [|done]. rewrite (Hm k h) in E; [done|lia|done].
Qed.

(** On a predicate that stays true once it is, [Search] is the first index
    where it is. *)
Lemma Search_spec n f :
  (forall a b, (a <= b)%nat -> f a = true -> f b = true) ->
  (Search n f <= n)%nat /\ (forall k, (k < Search n f)%nat -> f k = false) /\
  (forall k, (Search n f <= k < n)%nat -> f k = true).
Proof.
  intros Hm. destruct (Search_loop_spec n f 0 n ltac:(lia) ltac:(lia) Hm) as (H1 & H2 & H3).
  split; [apply H1|]. split; [intros k Hk; apply H2; unfold Search in Hk; lia|exact H3].
Qed.
