(* ===== verification/NetIP.v ===== *)
(** Go's [net] address functions: [ParseIP], [IP.To4], [IP.String], [IP.Equal],
    [ParseCIDR] and [IPNet.Contains], written after the documented formats
    (dotted decimal without leading zeros, RFC 4291 text with one [::] and an
    optional trailing dotted quad, RFC 5952 output, CIDR).

    An address is the list of its 4 or 16 bytes; [ParseIP] always gives 16. *)

From S2P Require Import Prelude GoStr.

Definition IP := list Z.

Definition v4InV6Prefix : list Z := [0; 0; 0; 0; 0; 0; 0; 0; 0; 0; 255; 255].

Definition To4 (ip : IP) : option IP :=
  if zlen ip =? 4 then Some ip
  else if (zlen ip =? 16) && bool_decide (ztake 12 ip = v4InV6Prefix) then Some (zdrop 12 ip)
  else None.

Definition To16 (ip : IP) : option IP :=
  if zlen ip =? 4 then Some (v4InV6Prefix ++ ip)
  else if zlen ip =? 16 then Some ip
  else None.

Definition IP_Equal (a b : IP) : bool :=
  if zlen a =? zlen b then bool_decide (a = b)
  else if (zlen a =? 4) && (zlen b =? 16) then bool_decide (v4InV6Prefix ++ a = b)
  else if (zlen a =? 16) && (zlen b =? 4) then bool_decide (a = v4InV6Prefix ++ b)
  else false.

(** ** Parsing *)

(** The loop of the dotted-quad parser: [prev] is the previous character,
    [first] whether none was read, [dig] the digits of the current field. *)
Fixpoint parse_v4_fields (l : list Z) (first : bool) (prev val dig : Z) (done : list Z)
  : option (list Z) :=
  match l with
  | [] => if zlen done <? 3 then None else Some (done ++ [u8 val])
  | c :: l' =>
      if is_digit c then
        if (dig =? 1) && (val =? 0) then None
        else
          let val := val * 10 + (c - 48) in
          if 255 <? val then None else parse_v4_fields l' false c val (dig + 1) done
      else if c =? 46 then
        if first || bool_decide (l' = []) || (prev =? 46) then None
        else if zlen done =? 3 then None
        else parse_v4_fields l' false c 0 0 (done ++ [u8 val])
      else None
  end.

Definition parse_v4 (l : list Z) : option (list Z) := parse_v4_fields l true 0 0 0 [].

Definition hex_val (c : Z) : option Z :=
  if is_digit c then Some (c - 48)
  else if (97 <=? c) && (c <=? 102) then Some (c - 87)
  else if (65 <=? c) && (c <=? 70) then Some (c - 55)
  else None.

(** The leading hex digits of a group: the value, how many, and what follows. *)
Fixpoint hex_group (l : list Z) (acc off : Z) : option (Z * Z * list Z) :=
  match l with
  | [] => Some (acc, off, [])
  | c :: l' =>
      match hex_val c with
      | None => Some (acc, off, l)
      | Some v =>
          if 3 <? off then None
          else let acc := acc * 16 + v in
               if 65535 <? acc then None else hex_group l' acc (off + 1)
      end
  end.

(** The group loop: the bytes read so far and the position of the ellipsis. *)
Fixpoint parse_v6_loop (fuel : nat) (s : list Z) (ip : list Z) (ell : option Z)
  : option (list Z * option Z * list Z) :=
  if 16 <=? zlen ip then Some (ip, ell, s)
  else
  match fuel with
  | O => None
  | S f =>
      match hex_group s 0 0 with
      | None => None
      | Some (acc, off, s') =>
          if off =? 0 then None
          else if hd 0 s' =? 46 then
            if (match ell with None => true | _ => false end) && negb (zlen ip =? 12) then None
            else if 16 <? zlen ip + 4 then None
            else match parse_v4 s with
                 | Some q => Some (ip ++ q, ell, [])
                 | None => None
                 end
          else
            let ip := ip ++ [u8 (Z.shiftr acc 8); u8 acc] in
            match s' with
            | [] => Some (ip, ell, [])
            | [c] => None
            | c :: (c2 :: s3) as s2 =>
                if negb (c =? 58) then None
                else if c2 =? 58 then
                  match ell with
                  | Some _ => None
                  | None =>
                      match s3 with
                      | [] => Some (ip, Some (zlen ip), [])
                      | _ => parse_v6_loop f s3 ip (Some (zlen ip))
                      end
                  end
                else parse_v6_loop f (tail s') ip ell
            end
      end
  end.

Definition parse_v6_body (s : list Z) : option (list Z) :=
  let '(ell, s) := match strip_prefix [58; 58] s with
                   | Some s' => (Some 0, s')
                   | None => (None, s)
                   end in
  match ell, s with
  | Some _, [] => Some (replicate 16 0)
  | _, _ =>
      match parse_v6_loop 9 s [] ell with
      | Some (ip, ell, []) =>
          if zlen ip <? 16 then
            match ell with
            | None => None
            | Some e => Some (ztake e ip ++ replicate (Z.to_nat (16 - zlen ip)) 0 ++ zdrop e ip)
            end
          else match ell with None => Some ip | Some _ => None end
      | _ => None
      end
  end.

(** [netip.ParseAddr]: which family the first separator says, the 16-byte
    form, whether it is a 4-byte address, and the zone. *)
Fixpoint first_sep (l : list Z) : Z :=
  match l with
  | [] => 0
  | c :: l' => if (c =? 46) || (c =? 58) || (c =? 37) then c else first_sep l'
  end.

Record Addr := mkAddr { a_bytes : list Z; a_is4 : bool; a_zone : list Z }.

Definition ParseAddr (l : list Z) : option Addr :=
  let sep := first_sep l in
  if sep =? 46 then
    q ← parse_v4 l; Some (mkAddr (v4InV6Prefix ++ q) true [])
  else if sep =? 58 then
    let i := index_byte 37 l in
    if i =? -1 then b ← parse_v6_body l; Some (mkAddr b false [])
    else if zlen l =? i + 1 then None
    else b ← parse_v6_body (ztake i l); Some (mkAddr b false (zdrop (i + 1) l))
  else None.

Definition ParseIP (s : string) : option IP :=
  a ← ParseAddr (bytes_of_string s);
  if bool_decide (a_zone a = []) then Some (a_bytes a) else None.

(** ** Printing *)

Definition hex_digit (n : Z) : Z := if n <? 10 then 48 + n else 87 + n.

Definition hex_text (v : Z) : list Z :=
  (if 4096 <=? v then [hex_digit (Z.shiftr v 12)] else []) ++
  (if 256 <=? v then [hex_digit (Z.land (Z.shiftr v 8) 15)] else []) ++
  (if 16 <=? v then [hex_digit (Z.land (Z.shiftr v 4) 15)] else []) ++
  [hex_digit (Z.land v 15)].

Definition dec_text (n : Z) : list Z := itoa_digits 3 n [].

Definition v4_text (b : list Z) : list Z :=
  match b with
  | [a; b; c; d] => dec_text a ++ [46] ++ dec_text b ++ [46] ++ dec_text c ++ [46] ++ dec_text d
  | _ => []
  end.

Fixpoint groups (b : list Z) : list Z :=
  match b with
  | x :: y :: b' => x * 256 + y :: groups b'
  | _ => []
  end.

Fixpoint zero_run (g : list Z) : nat :=
  match g with
  | x :: g' => if x =? 0 then S (zero_run g') else O
  | [] => O
  end.

(** The first longest run of at least two zero groups: its start and length. *)
Fixpoint best_run (i : nat) (g : list Z) (best : nat * nat) : nat * nat :=
  match g with
  | [] => best
  | _ :: g' =>
      let l := zero_run g in
      best_run (S i) g' (if (2 <=? l)%nat && (best.2 <? l)%nat then (i, l) else best)
  end.

Fixpoint join_colon (l : list (list Z)) : list Z :=
  match l with
  | [] => []
  | [x] => x
  | x :: l' => x ++ [58] ++ join_colon l'
  end.

Definition v6_text (b : list Z) : list Z :=
  let g := groups b in
  let '(i, n) := best_run 0 g (0%nat, 0%nat) in
  if (n =? 0)%nat then join_colon (map hex_text g)
  else join_colon (map hex_text (take i g)) ++ [58; 58] ++
       join_colon (map hex_text (drop (i + n) g)).

Definition IP_text (ip : IP) : list Z :=
  if zlen ip =? 0 then bytes_of_string "<nil>"
  else if negb (zlen ip =? 4) && negb (zlen ip =? 16) then
    63 :: concat (map (fun c => [hex_digit (Z.shiftr c 4); hex_digit (Z.land c 15)]) ip)
  else match To4 ip with
       | Some b => v4_text b
       | None => v6_text ip
       end.
Definition IP_String (ip : IP) : string := string_of_bytes (IP_text ip).

(** [net.JoinHostPort]. *)
Definition JoinHostPort (host port : string) : string :=
  if 0 <=? IndexByte host 58 then ("[" +:+ host +:+ "]:" +:+ port)%string
  else (host +:+ ":" +:+ port)%string.

Fixpoint last_index_byte (c : Z) (l : list Z) : Z :=
  match l with
  | [] => -1
  | x :: l' => let i := last_index_byte c l' in
               if i =? -1 then if x =? c then 0 else -1 else 1 + i
  end.

(** [net.SplitHostPort]; every error returns empty strings and is [None] here. *)
Definition split_host_port (l : list Z) : option (list Z * list Z) :=
  let i := last_index_byte 58 l in
  if i <? 0 then None
  else
    '(host, j, k) ← (if bool_decide (head l = Some 91) then
                       let e := index_byte 93 l in
                       if (e <? 0) || negb (e + 1 =? i) then None else Some (zslice 1 e l, 1, e + 1)
                     else if 0 <=? index_byte 58 (ztake i l) then None else Some (ztake i l, 0, 0));
    if (0 <=? index_byte 91 (zdrop j l)) || (0 <=? index_byte 93 (zdrop k l)) then None
    else Some (host, zdrop (i + 1) l).
Definition SplitHostPort (s : string) : option (string * string) :=
  '(h, p) ← split_host_port (bytes_of_string s); Some (string_of_bytes h, string_of_bytes p).

(** ** Networks *)

Record IPNet := mkIPNet { n_ip : IP; n_mask : list Z }.

(** [CIDRMask(ones, bits)]. *)
Fixpoint cidr_mask (n : nat) (ones : Z) : list Z :=
  match n with
  | O => []
  | S n' =>
      (if 8 <=? ones then 255 else if ones <=? 0 then 0 else Z.land (Z.lnot (Z.shiftr 255 ones)) 255)
      :: cidr_mask n' (ones - 8)
  end.

Definition and_bytes (a m : list Z) : list Z := zip_with Z.land a m.

(** [ParseCIDR]: the network; the host address is not used by the callers. *)
Definition ParseCIDR (s : string) : option IPNet :=
  let l := bytes_of_string s in
  let i := index_byte 47 l in
  if i =? -1 then None
  else
    a ← ParseAddr (ztake i l);
    if negb (bool_decide (a_zone a = [])) then None
    else
      let mask := zdrop (i + 1) l in
      if bool_decide (mask = []) then None
      else
        n ← digits_val 0 mask;
        let bits := if a_is4 a then 32 else 128 in
        if bits <? n then None
        else
          let m := cidr_mask (Z.to_nat (bits / 8)) n in
          let ip := if a_is4 a then zdrop 12 (a_bytes a) else a_bytes a in
          Some (mkIPNet (and_bytes ip m) m).

Definition networkNumberAndMask (n : IPNet) : option (IP * list Z) :=
  let ip := match To4 (n_ip n) with
            | Some ip => Some ip
            | None => if zlen (n_ip n) =? 16 then Some (n_ip n) else None
            end in
  ip ← ip;
  if zlen (n_mask n) =? 4 then
    if zlen ip =? 4 then Some (ip, n_mask n) else None
  else if zlen (n_mask n) =? 16 then
    Some (ip, if zlen ip =? 4 then zdrop 12 (n_mask n) else n_mask n)
  else None.

Definition IPNet_Contains (n : IPNet) (ip : IP) : bool :=
  match networkNumberAndMask n with
  | None => zlen (default ip (To4 ip)) =? 0
  | Some (nn, m) =>
      let ip := default ip (To4 ip) in
      (zlen ip =? zlen nn) && bool_decide (and_bytes nn m = and_bytes ip m)
  end.

(** ** Checks against the documented examples *)

Example parse_v4_ex : ParseIP "192.0.2.1" = Some (v4InV6Prefix ++ [192; 0; 2; 1]).
Proof. vm_compute. reflexivity. Qed.
Example parse_v4_zero : ParseIP "192.0.02.1" = None.
Proof. vm_compute. reflexivity. Qed.
Example parse_v6_ex : IP_String <$> ParseIP "2001:DB8:0:0::1" = Some "2001:db8::1"%string.
Proof. vm_compute. reflexivity. Qed.
Example parse_v6_mapped : IP_String <$> ParseIP "::ffff:192.0.2.1" = Some "192.0.2.1"%string.
Proof. vm_compute. reflexivity. Qed.
Example parse_v6_any : IP_String <$> ParseIP "::" = Some "::"%string.
Proof. vm_compute. reflexivity. Qed.
Example parse_v6_zone : ParseIP "fe80::1%eth0" = None.
Proof. vm_compute. reflexivity. Qed.
Example cidr_ex :
  (fun n => (IPNet_Contains n [10; 1; 2; 3], IPNet_Contains n [11; 1; 2; 3])) <$> ParseCIDR "10.0.0.0/8"
  = Some (true, false).
Proof. vm_compute. reflexivity. Qed.

(** ** Lemmas *)

Lemma parse_v4_fields_len l first prev val dig done b :
  parse_v4_fields l first prev val dig done = Some b -> zlen done <= 3 -> zlen b = 4.
Proof.
  revert first prev val dig done. induction l as [|c l IH]; intros first prev val dig done; simpl.
  - destruct (Z.ltb_spec (zlen done) 3); [done|]. intros [= <-] ?. zlen_lia.
  - intros H Hd. split_ifs_in H; try done; apply IH in H; zlen_lia.
Qed.

Lemma parse_v4_fields_bytes l first prev val dig done b :
  Forall is_byte done -> parse_v4_fields l first prev val dig done = Some b -> Forall is_byte b.
Proof.
  revert first prev val dig done. induction l as [|c l IH]; intros first prev val dig done Hd; simpl.
  - intros H. split_ifs_in H; [done|]. injection H as <-. apply Forall_app. split; [done|].
    constructor; [apply u8_range|done].
  - intros H. split_ifs_in H; try done; eapply IH; try exact H; try done.
    apply Forall_app. split; [done|]. constructor; [apply u8_range|done].
Qed.

Lemma To4_len ip b : To4 ip = Some b -> zlen b = 4.
Proof.
  unfold To4. intros H. split_ifs_in H; simplify_eq; [lia|]. rewrite zlen_zdrop; lia.
Qed.

Lemma To4_bytes ip b : To4 ip = Some b -> Forall is_byte ip -> Forall is_byte b.
Proof.
  unfold To4. intros H. split_ifs_in H; simplify_eq; [done|]. apply Forall_drop.
Qed.

Definition ell_ok (n : Z) (ell : option Z) : Prop :=
  match ell with Some e => 0 <= e <= n | None => True end.

Lemma ell_ok_mono n n' ell : ell_ok n ell -> n <= n' -> ell_ok n' ell.
Proof. destruct ell; simpl; lia. Qed.

Lemma parse_v6_loop_len fuel s ip ell ip' ell' s' :
  parse_v6_loop fuel s ip ell = Some (ip', ell', s') ->
  (exists j, zlen ip = 2 * j) -> zlen ip <= 16 -> ell_ok (zlen ip) ell ->
  zlen ip' <= 16 /\ ell_ok (zlen ip') ell'.
Proof.
  revert s ip ell. induction fuel as [|f IH]; intros s ip ell H [j Hj] Hl He; simpl in H.
  { destruct (Z.leb_spec 16 (zlen ip)); [by simplify_eq|done]. }
  destruct (Z.leb_spec 16 (zlen ip)); [by simplify_eq|].
  destruct (hex_group s 0 0) as [[[acc off] s1]|]; [|done].
  destruct (off =? 0); [done|]. pose proof (zlen_nonneg ip).
  destruct (hd 0 s1 =? 46).
  - destruct (_ && _); [done|]. destruct (Z.ltb_spec 16 (zlen ip + 4)); [done|].
    destruct (parse_v4 s) as [q|] eqn:Eq; [|done]. simplify_eq.
    apply parse_v4_fields_len in Eq; [|zlen_lia].
    split; [zlen_lia|]. eapply ell_ok_mono; [done|zlen_lia].
  - set (ip2 := ip ++ [u8 (Z.shiftr acc 8); u8 acc]) in *.
    assert (Hip2 : zlen ip2 = zlen ip + 2) by (unfold ip2; zlen_lia).
    assert (He2 : ell_ok (zlen ip2) ell) by (eapply ell_ok_mono; [done|lia]).
    assert (Hev : exists j', zlen ip2 = 2 * j') by (exists (j + 1); lia).
    destruct s1 as [|c [|c2 s3]]; [simplify_eq; split; [lia|done]|done|].
    destruct (negb _); [done|]. destruct (c2 =? 58).
    + destruct ell; [done|]. destruct s3; [simplify_eq; simpl; lia|].
      apply IH in H; [done|done|lia|simpl; lia].
    + apply IH in H; [done|done|lia|done].
Qed.

Lemma parse_v6_body_len s b : parse_v6_body s = Some b -> zlen b = 16.
Proof.
  unfold parse_v6_body. intros H.
  destruct (match strip_prefix [58; 58] s with Some _ => _ | None => _ end) as [ell s0] eqn:E.
  assert (He : ell_ok 0 ell) by (destruct (strip_prefix _ s); simplify_eq; simpl; lia).
  destruct ell as [e0|], s0 as [|x s0]; try (simplify_eq; done).
  all: match type of H with context [parse_v6_loop ?f ?a ?b ?c] =>
         destruct (parse_v6_loop f a b c) as [[[ip ell] s1]|] eqn:El; [|done] end.
  all: apply parse_v6_loop_len in El as [Hl Hell]; [|by exists 0|zlen_lia|done].
  all: destruct s1; [|done]; destruct (Z.ltb_spec (zlen ip) 16);
       [|destruct ell; simplify_eq; lia].
  all: destruct ell as [e|]; [|done]; injection H as <-; simpl in Hell;
       rewrite !zlen_app, zlen_ztake, zlen_replicate, zlen_zdrop by lia; lia.
Qed.

Lemma parse_v6_loop_bytes fuel s ip ell ip' ell' s' :
  parse_v6_loop fuel s ip ell = Some (ip', ell', s') -> Forall is_byte ip -> Forall is_byte ip'.
Proof.
  revert s ip ell. induction fuel as [|f IH]; intros s ip ell H Hip; simpl in H.
  { destruct (16 <=? zlen ip); [by simplify_eq|done]. }
  destruct (16 <=? zlen ip); [by simplify_eq|].
  destruct (hex_group s 0 0) as [[[acc off] s1]|]; [|done]. destruct (off =? 0); [done|].
  destruct (hd 0 s1 =? 46).
  - destruct (_ && _); [done|]. destruct (16 <? _); [done|].
    destruct (parse_v4 s) as [q|] eqn:Eq; [|done]. simplify_eq. apply Forall_app. split; [done|].
    by apply parse_v4_fields_bytes in Eq.
  - assert (Hip2 : Forall is_byte (ip ++ [u8 (Z.shiftr acc 8); u8 acc])).
    { apply Forall_app. split; [done|]. repeat constructor; apply u8_range. }
    destruct s1 as [|c [|c2 s3]]; [by simplify_eq|done|].
    destruct (negb _); [done|]. destruct (c2 =? 58); [|by eapply IH].
    destruct ell; [done|]. destruct s3; [by simplify_eq|by eapply IH].
Qed.

Lemma parse_v6_body_bytes s b : parse_v6_body s = Some b -> Forall is_byte b.
Proof.
  unfold parse_v6_body. intros H.
  destruct (match strip_prefix [58; 58] s with Some _ => _ | None => _ end) as [ell s0].
  assert (Hz : forall n, Forall is_byte (replicate n 0)) by (intros; by apply Forall_replicate).
  destruct ell as [e0|], s0 as [|x s0]; try (simplify_eq; apply Hz).
  all: match type of H with context [parse_v6_loop ?f ?a ?b ?c] =>
         destruct (parse_v6_loop f a b c) as [[[ip ell] s1]|] eqn:El; [|done] end.
  all: apply parse_v6_loop_bytes in El; [|done]; destruct s1; [|done].
  all: destruct (zlen ip <? 16), ell as [e|]; simplify_eq; try done.
  all: repeat (apply Forall_app; split); unfold ztake, zdrop; auto using Forall_take, Forall_drop.
Qed.

Lemma ParseIP_len s ip : ParseIP s = Some ip -> zlen ip = 16.
Proof.
  unfold ParseIP, ParseAddr. intros H. apply bind_Some in H as (a & Ha & H).
  destruct (bool_decide _); [|done]. injection H as <-.
  destruct (_ =? 46).
  { apply bind_Some in Ha as (q & Hq & Ha). injection Ha as <-. simpl.
    apply parse_v4_fields_len in Hq; [|zlen_lia]. rewrite !zlen_cons. lia. }
  destruct (_ =? 58); [|done]. destruct (_ =? -1).
  { apply bind_Some in Ha as (q & Hq & Ha). injection Ha as <-. by apply parse_v6_body_len in Hq. }
  destruct (_ =? _); [done|].
  apply bind_Some in Ha as (q & Hq & Ha). injection Ha as <-. by apply parse_v6_body_len in Hq.
Qed.

Lemma To16_16 ip : zlen ip = 16 -> To16 ip = Some ip.
Proof. intros H. unfold To16. by rewrite H. Qed.
