(* ===== verification/NetIPFacts.v ===== *)
(** Networks as intervals of numbers: masking an address keeps its leading bits,
    and [IPNet.Contains] compares them. *)

From S2P Require Import Prelude GoBytes GoStr NetIP.

(** ** Masks *)

(** The number without its last [k] bits. *)
Definition floor2 (k v : Z) : Z := v / 2 ^ k * 2 ^ k.

Lemma mask_byte o : 0 < o < 8 -> Z.land (Z.lnot (Z.shiftr 255 o)) 255 = 256 - 2 ^ (8 - o).
Proof.
  intros Ho. assert (o = 1 \/ o = 2 \/ o = 3 \/ o = 4 \/ o = 5 \/ o = 6 \/ o = 7) as Hc by lia.
  by destruct Hc as [->|[->|[->|[->|[->|[->| ->]]]]]].
Qed.

Lemma land_mask_byte x o : is_byte x -> 0 < o < 8 -> Z.land x (256 - 2 ^ (8 - o)) = floor2 (8 - o) x.
Proof.
  intros Hx Ho. apply Z.eqb_eq.
  apply (byte_enum (fun x => Z.land x (256 - 2 ^ (8 - o)) =? floor2 (8 - o) x)); [|done].
  assert (o = 1 \/ o = 2 \/ o = 3 \/ o = 4 \/ o = 5 \/ o = 6 \/ o = 7) as Hc by lia.
  destruct Hc as [->|[->|[->|[->|[->|[->| ->]]]]]]; vm_compute; reflexivity.
Qed.

Lemma cidr_mask_length n o : length (cidr_mask n o) = n.
Proof. revert o. induction n as [|n IH]; intros o; cbn; [done|]. by rewrite IH. Qed.

Lemma and_bytes_zero a n o : o <= 0 -> length a = n -> and_bytes a (cidr_mask n o) = replicate n 0.
Proof.
  intros Ho <-. revert o Ho. induction a as [|x a IH]; intros o Ho; cbn; [done|].
  rewrite (proj2 (Z.leb_gt 8 o)), (proj2 (Z.leb_le o 0)), Z.land_0_r by lia. f_equal. apply IH. lia.
Qed.

Lemma bytes_val_zeros n : bytes_val (replicate n 0) = 0.
Proof. induction n as [|n IH]; [done|]. cbn [replicate]. rewrite bytes_val_cons, IH. lia. Qed.

Lemma pow256 n : 0 <= n -> 256 ^ n = 2 ^ (8 * n).
Proof. intros. change 256 with (2 ^ 8). by rewrite <- Z.pow_mul_r by lia. Qed.

(** Masking clears the bits behind the prefix. *)
Lemma and_bytes_val a n o :
  Forall is_byte a -> length a = n -> 0 <= o <= 8 * Z.of_nat n ->
  bytes_val (and_bytes a (cidr_mask n o)) = floor2 (8 * Z.of_nat n - o) (bytes_val a) /\
  Forall is_byte (and_bytes a (cidr_mask n o)) /\ length (and_bytes a (cidr_mask n o)) = n.
Proof.
  intros Ha <-. revert o. induction Ha as [|x a Hx Ha IH]; intros o Ho.
  { cbn in *. assert (o = 0) as -> by lia. done. }
  cbn [length] in *. unfold and_bytes in *. cbn [cidr_mask zip_with]. rewrite !bytes_val_cons.
  pose proof (bytes_val_range a Ha) as Hr. destruct (Z.leb_spec 8 o).
  - destruct (IH (o - 8) ltac:(lia)) as (H1 & H2 & H3).
    assert (Hx255 : Z.land x 255 = x) by (change 255 with (Z.ones 8); apply range_ones; [done|exact Hx]).
    rewrite Hx255. split_and!; [|by constructor|cbn; by rewrite H3].
    rewrite H1. unfold zlen. rewrite H3. replace (8 * Z.of_nat (S (length a)) - o) with (8 * Z.of_nat (length a) - (o - 8)) by lia.
    set (k := 8 * Z.of_nat (length a) - (o - 8)). unfold floor2.
    replace (256 ^ Z.of_nat (length a)) with (2 ^ (o - 8) * 2 ^ k)
      by (rewrite <- Z.pow_add_r, pow256 by (unfold k; lia); f_equal; unfold k; lia).
    rewrite Z.mul_assoc, Z.div_add_l by (unfold k; lia). lia.
  - destruct (Z.leb_spec o 0).
    + assert (o = 0) as -> by lia. fold (and_bytes a (cidr_mask (length a) (0 - 8))).
      rewrite and_bytes_zero, Z.land_0_r, bytes_val_zeros by (done || lia). unfold floor2.
      split_and!; [|constructor; [done|by apply Forall_replicate]|cbn; by rewrite length_replicate].
      rewrite Z.div_small; [lia|]. rewrite Z.sub_0_r, <- bytes_val_cons.
      pose proof (bytes_val_range (x :: a) ltac:(by constructor)) as Hr'. rewrite zlen_cons in Hr'.
      rewrite pow256 in Hr' by (pose proof (zlen_nonneg a); lia).
      by replace (8 * Z.of_nat (S (length a))) with (8 * (1 + len a)) by (unfold zlen; lia).
    + fold (and_bytes a (cidr_mask (length a) (o - 8))).
      rewrite mask_byte, land_mask_byte, and_bytes_zero, bytes_val_zeros by (done || lia).
      assert (Hf : floor2 (8 - o) x < 256 /\ 0 <= floor2 (8 - o) x).
      { unfold floor2. assert (Hpos : 0 < 2 ^ (8 - o)) by (apply Z.pow_pos_nonneg; lia).
        pose proof (Z.mul_div_le x (2 ^ (8 - o)) Hpos). unfold is_byte in Hx.
        split; [lia|]. apply Z.mul_nonneg_nonneg; [apply Z.div_pos; lia|lia]. }
      split_and!; [|constructor; [split; lia|by apply Forall_replicate]|cbn; by rewrite length_replicate].
      replace (8 * Z.of_nat (S (length a)) - o) with ((8 - o) + 8 * len a) by (unfold zlen; lia).
      unfold zlen at 1. rewrite length_replicate. fold (zlen a).
      unfold floor2. rewrite Z.pow_add_r, (Z.mul_comm (2 ^ (8 - o)) (2 ^ (8 * len a))) by (unfold zlen; lia).
      rewrite <- (Z.div_div _ (2 ^ (8 * len a))) by (unfold zlen; lia).
      rewrite pow256 in * by auto with go.
      rewrite Z.div_add_l, (Z.div_small (bytes_val a)) by (done || lia). rewrite !Z.add_0_r. ring.
Qed.

(** Two addresses masked alike are equal when their leading bits are. *)
Lemma and_bytes_eq a b n o :
  Forall is_byte a -> Forall is_byte b -> length a = n -> length b = n -> 0 <= o <= 8 * Z.of_nat n ->
  and_bytes a (cidr_mask n o) = and_bytes b (cidr_mask n o) <->
  bytes_val a / 2 ^ (8 * Z.of_nat n - o) = bytes_val b / 2 ^ (8 * Z.of_nat n - o).
Proof.
  intros Ha Hb Hla Hlb Ho.
  destruct (and_bytes_val a n o Ha Hla Ho) as (Hva & Hba & Hna), (and_bytes_val b n o Hb Hlb Ho) as (Hvb & Hbb & Hnb).
  unfold floor2 in *. split; intros E.
  - rewrite E in Hva. rewrite Hva in Hvb. apply Z.mul_reg_r in Hvb; [done|lia].
  - apply bytes_val_inj; [done|done|unfold zlen; by rewrite Hna, Hnb|]. by rewrite Hva, Hvb, E.
Qed.

(** ** Networks *)

(** What [ParseCIDR] returns: an address of 4 or 16 bytes masked by as many bits
    as the text says. *)
Definition net_ok (n : IPNet) (size : nat) (o : Z) : Prop :=
  n_mask n = cidr_mask size o /\ 0 <= o <= 8 * Z.of_nat size /\ length (n_ip n) = size /\
  Forall is_byte (n_ip n) /\ (2 ^ (8 * Z.of_nat size - o) | bytes_val (n_ip n)).

Lemma ParseAddr_bytes l a :
  ParseAddr l = Some a ->
  length (a_bytes a) = 16%nat /\ Forall is_byte (a_bytes a) /\
  (a_is4 a = true -> exists q, a_bytes a = v4InV6Prefix ++ q /\ length q = 4%nat).
Proof.
  assert (Hlen : forall b : list Z, len b = 16 -> length b = 16%nat) by (unfold zlen; lia).
  unfold ParseAddr. intros H. destruct (_ =? 46).
  { apply bind_Some in H as (q & Hq & E). assert (a = mkAddr (v4InV6Prefix ++ q) true []) as -> by congruence.
    cbn [a_bytes a_is4].
    assert (Hl : len q = 4) by (by eapply parse_v4_fields_len in Hq).
    assert (Hb : Forall is_byte q) by (by eapply parse_v4_fields_bytes in Hq).
    split_and!; [apply Hlen; rewrite zlen_app, Hl; done|apply Forall_app; split; [repeat constructor; done|done]|].
    intros _. exists q. split; [done|]. unfold zlen in Hl. lia. }
  destruct (_ =? 58); [|done].
  assert (Hv6 : forall s b z, parse_v6_body s = Some b -> a = mkAddr b false z ->
    length (a_bytes a) = 16%nat /\ Forall is_byte (a_bytes a) /\
    (a_is4 a = true -> exists q, a_bytes a = v4InV6Prefix ++ q /\ length q = 4%nat)).
  { intros s b z Hb ->. split_and!; [by apply Hlen; eapply parse_v6_body_len|by eapply parse_v6_body_bytes|done]. }
  destruct (_ =? -1); [|destruct (_ =? _); [done|]]; apply bind_Some in H as (q & Hq & [= <-]); by eapply Hv6.
Qed.

Lemma ParseIP_bytes s ip : ParseIP s = Some ip -> Forall is_byte ip.
Proof.
  unfold ParseIP. intros (a & Ha & H)%bind_Some. destruct (bool_decide _); [|done]. injection H as <-.
  by apply ParseAddr_bytes in Ha as (_ & ? & _).
Qed.

Lemma ParseCIDR_ok s n : ParseCIDR s = Some n -> exists size o, (size = 4 \/ size = 16)%nat /\ net_ok n size o.
Proof.
  unfold ParseCIDR. destruct (_ =? -1); [done|]. intros (a & Ha & H)%bind_Some.
  destruct (negb _); [done|]. destruct (bool_decide _); [done|]. apply bind_Some in H as (o & Ho & H).
  apply digits_val_nonneg in Ho; [|done]. destruct (ParseAddr_bytes _ _ Ha) as (Hl & Hb & H4).
  assert (Hsize : forall size ip, length ip = size -> Forall is_byte ip -> o <= 8 * Z.of_nat size ->
    net_ok (mkIPNet (and_bytes ip (cidr_mask size o)) (cidr_mask size o)) size o).
  { intros size ip Hlen Hby Hle. destruct (and_bytes_val ip size o Hby Hlen ltac:(lia)) as (H1 & H2 & H3).
    split_and!; [done|lia|lia|done|done|]. cbn [n_ip]. rewrite H1. unfold floor2. by exists (bytes_val ip / 2 ^ (8 * Z.of_nat size - o)). }
  cbv zeta in H. destruct (a_is4 a); cbn iota in H.
  - destruct (Z.ltb_spec 32 o); [done|]. apply (inj Some) in H. subst n.
    exists 4%nat, o. split; [by left|]. apply Hsize; [|by apply Forall_drop|lia].
    unfold zdrop. rewrite length_drop, Hl. done.
  - destruct (Z.ltb_spec 128 o); [done|]. apply (inj Some) in H. subst n.
    exists 16%nat, o. split; [by right|]. apply Hsize; [done|done|lia].
Qed.

(** ** Mapped addresses *)

Lemma To4_mapped a : length a = 16%nat ->
  match To4 a with
  | Some q => a = v4InV6Prefix ++ q /\ length q = 4%nat
  | None => forall q, a <> v4InV6Prefix ++ q
  end.
Proof.
  intros Hl. unfold To4, zlen. rewrite Hl. change (Z.of_nat 16 =? 4) with false. change (Z.of_nat 16 =? 16) with true. cbn [andb].
  destruct (bool_decide _) eqn:E.
  - apply bool_decide_eq_true in E. rewrite <- E. unfold ztake, zdrop.
    rewrite take_drop. split; [done|]. by rewrite length_drop, Hl.
  - apply bool_decide_eq_false in E. intros q ->. by destruct E.
Qed.

(** The mapped form of an IPv4 address is in the block of its prefix. *)
Lemma mapped_val q : length q = 4%nat -> bytes_val (v4InV6Prefix ++ q) = 65535 * 2 ^ 32 + bytes_val q.
Proof. intros Hq. rewrite bytes_val_app. unfold zlen. by rewrite Hq. Qed.

Lemma mapped_block a : length a = 16%nat -> Forall is_byte a ->
  bytes_val a / 2 ^ 32 = 65535 <-> exists q, a = v4InV6Prefix ++ q.
Proof.
  intros Hl Hb. rewrite <- (take_drop 12 a) in *. apply Forall_app in Hb as [Hb1 Hb2].
  assert (Hl2 : len (drop 12 a) = 4) by (unfold zlen; rewrite length_drop; rewrite take_drop in Hl; lia).
  change (2 ^ 32) with (256 ^ 4). rewrite <- Hl2, bytes_val_head by done. split.
  - intros E. exists (drop 12 a). f_equal. apply bytes_val_inj; [done|repeat constructor; done| |done].
    unfold zlen. rewrite length_take. rewrite take_drop in Hl. rewrite Hl. done.
  - intros [q E]. apply (f_equal (take 12)) in E. rewrite take_app_length' in E by (rewrite length_take; rewrite take_drop in Hl; lia).
    rewrite E. done.
Qed.

(** The 16-byte form of a network's address and its number of trailing bits. *)
Definition net16 (n : IPNet) : list Z := default [] (To16 (n_ip n)).

Lemma net16_val n size o : (size = 4 \/ size = 16)%nat -> net_ok n size o ->
  To16 (n_ip n) = Some (net16 n) /\ length (net16 n) = 16%nat /\ Forall is_byte (net16 n) /\
  net16 n = (if (size =? 4)%nat then v4InV6Prefix else []) ++ n_ip n.
Proof.
  intros Hs (_ & _ & Hl & Hb & _). unfold net16, To16, zlen. rewrite Hl. destruct Hs as [-> | ->].
  - change (Z.of_nat 4 =? 4) with true. cbn iota. split_and!; [done| |apply Forall_app; split; [repeat constructor; done|done]|done].
    change (default _ _) with (v4InV6Prefix ++ n_ip n). rewrite length_app, Hl. done.
  - change (Z.of_nat 16 =? 4) with false. change (Z.of_nat 16 =? 16) with true. cbn iota. by split_and!.
Qed.

Lemma drop_cidr_mask i n o : drop i (cidr_mask (i + n) o) = cidr_mask n (o - 8 * Z.of_nat i).
Proof.
  revert o. induction i as [|i IH]; intros o; [by replace (o - 8 * Z.of_nat 0) with o by lia|]. cbn [Nat.add cidr_mask drop].
  rewrite IH. f_equal. lia.
Qed.

(** A mapped network has at least the 96 bits of the mapping. *)
Lemma mapped_bits q o :
  length q = 4%nat -> Forall is_byte q -> o <= 128 -> (2 ^ (128 - o) | bytes_val (v4InV6Prefix ++ q)) -> 96 <= o.
Proof.
  intros Hl Hb Ho [c Hc]. destruct (decide (96 <= o)) as [|Hlt]; [done|]. exfalso.
  rewrite mapped_val in Hc by done. pose proof (bytes_val_range q Hb) as Hr. unfold zlen in Hr. rewrite Hl in Hr.
  change (256 ^ Z.of_nat 4) with (2 ^ 32) in Hr.
  replace (128 - o) with ((95 - o) + 33) in Hc by lia. rewrite Z.pow_add_r in Hc by lia.
  rewrite Z.mul_assoc in Hc. set (t := c * 2 ^ (95 - o)) in Hc.
  change (2 ^ 33) with 8589934592 in *. change (2 ^ 32) with 4294967296 in *. lia.
Qed.

(** The number and the mask [Contains] works with. *)
Lemma networkNumberAndMask_ok n size o : (size = 4 \/ size = 16)%nat -> net_ok n size o ->
  let nn := default (n_ip n) (To4 (n_ip n)) in
  exists o', networkNumberAndMask n = Some (nn, cidr_mask (length nn) o') /\
    0 <= o' <= 8 * Z.of_nat (length nn) /\ 8 * Z.of_nat (length nn) - o' = 8 * Z.of_nat size - o.
Proof.
  intros Hs (Hm & Ho & Hl & Hb & Hd) nn. unfold networkNumberAndMask. unfold nn. clear nn.
  destruct Hs as [-> | ->].
  - assert (E : To4 (n_ip n) = Some (n_ip n)) by (unfold To4, zlen; rewrite Hl; done). rewrite E.
    cbn [mbind option_bind default from_option id]. rewrite Hm, Hl. exists o. unfold zlen. rewrite cidr_mask_length, Hl.
    change (Z.of_nat 4 =? 4) with true. cbn iota. split_and!; [done|lia|lia|lia].
  - pose proof (To4_mapped (n_ip n) Hl) as H4. destruct (To4 (n_ip n)) as [q|].
    + destruct H4 as [Eq Hq]. cbn [mbind option_bind default from_option id]. rewrite Hm, Hq. exists (o - 96).
      assert (Hbq : Forall is_byte q) by (rewrite Eq in Hb; by apply Forall_app in Hb as [_ ?]).
      assert (Hge : 96 <= o) by (apply (mapped_bits q); [done|done|lia|rewrite <- Eq; exact Hd]).
      unfold zlen. rewrite cidr_mask_length, Hq. change (Z.of_nat 16 =? 4) with false.
      change (Z.of_nat 16 =? 16) with true. change (Z.of_nat 4 =? 4) with true. cbn iota.
      change 16%nat with (12 + 4)%nat. unfold zdrop. change (Z.to_nat 12) with 12%nat. rewrite drop_cidr_mask.
      split_and!; [done|lia|lia|lia].
    + unfold zlen. rewrite Hl. change (Z.of_nat 16 =? 16) with true. cbn [mbind option_bind default from_option id].
      rewrite Hm, cidr_mask_length, Hl. change (Z.of_nat 16 =? 4) with false. change (Z.of_nat 16 =? 16) with true. cbn iota.
      exists o. split_and!; [done|lia|lia|lia].
Qed.

Lemma mapped_div q k : length q = 4%nat -> 0 <= k <= 32 ->
  bytes_val (v4InV6Prefix ++ q) / 2 ^ k = 65535 * 2 ^ (32 - k) + bytes_val q / 2 ^ k.
Proof.
  intros Hq Hk. rewrite mapped_val by done. replace (2 ^ 32) with (2 ^ (32 - k) * 2 ^ k)
    by (rewrite <- Z.pow_add_r by lia; f_equal; lia).
  rewrite Z.mul_assoc, Z.div_add_l by (apply Z.pow_nonzero; lia). done.
Qed.

(** An address that shares the leading bits of a mapped one is mapped. *)
Lemma mapped_same_bits a q k :
  length a = 16%nat -> Forall is_byte a -> length q = 4%nat -> Forall is_byte q -> 0 <= k <= 32 ->
  bytes_val a / 2 ^ k = bytes_val (v4InV6Prefix ++ q) / 2 ^ k -> exists q', a = v4InV6Prefix ++ q'.
Proof.
  intros Hla Hba Hlq Hbq Hk Ed. apply mapped_block; [done|done|].
  replace 32 with (k + (32 - k)) by lia. rewrite Z.pow_add_r, <- Z.div_div by lia. rewrite Ed, mapped_div by (done || lia).
  rewrite Z.div_add_l by lia. rewrite Z.div_small; [lia|]. pose proof (bytes_val_range q Hbq) as Hr.
  unfold zlen in Hr. rewrite Hlq in Hr. change (256 ^ Z.of_nat 4) with (2 ^ 32) in Hr.
  split; [apply Z.div_pos; lia|]. apply Z.div_lt_upper_bound; [lia|]. rewrite <- Z.pow_add_r by lia.
  replace (k + (32 - k)) with 32 by lia. lia.
Qed.

(** A network contains the addresses with its leading bits, as 16-byte numbers,
    except that an IPv6 network contains no IPv4 address. *)
Lemma IPNet_Contains_spec n size o a :
  (size = 4 \/ size = 16)%nat -> net_ok n size o -> length a = 16%nat -> Forall is_byte a ->
  let k := 8 * Z.of_nat size - o in
  IPNet_Contains n a = true <->
  bytes_val a / 2 ^ k = bytes_val (net16 n) / 2 ^ k /\ (is_Some (To4 a) -> is_Some (To4 (n_ip n))).
Proof.
  intros Hs Hn Hla Hba k. destruct (networkNumberAndMask_ok n size o Hs Hn) as (o' & E & Ho' & Hk).
  destruct (net16_val n size o Hs Hn) as (_ & Hl16 & Hb16 & E16). destruct Hn as (_ & Ho & Hln & Hbn & _).
  unfold IPNet_Contains. rewrite E. fold k in Hk.
  pose proof (To4_mapped a Hla) as Ha4.
  assert (Hn4 : match To4 (n_ip n) with
          | Some q => net16 n = v4InV6Prefix ++ q /\ length q = 4%nat /\ Forall is_byte q
          | None => size = 16%nat /\ net16 n = n_ip n end).
  { destruct Hs as [-> | ->]; cbn in E16.
    - assert (E4 : To4 (n_ip n) = Some (n_ip n)) by (unfold To4, zlen; rewrite Hln; done). by rewrite E4.
    - pose proof (To4_mapped (n_ip n) Hln) as H4. destruct (To4 (n_ip n)); [|done]. destruct H4 as [E4 ?].
      rewrite E4 in Hbn. apply Forall_app in Hbn as [_ ?]. by rewrite E16. }
  destruct (To4 (n_ip n)) as [nq|]; cbn [default from_option id] in *.
  - destruct Hn4 as (-> & Hlq & Hbq). rewrite Hlq in *. rewrite andb_true_iff, bool_decide_eq_true, Z.eqb_eq.
    destruct (To4 a) as [q|]; cbn [default from_option id].
    + destruct Ha4 as [-> Hq]. apply Forall_app in Hba as [_ Hbq'].
      rewrite and_bytes_eq, Hk, !mapped_div by (done || lia). unfold zlen. rewrite Hq, Hlq.
      split; [intros [_ ->]; split; [done|by eexists]|intros [? _]; split; [done|lia]].
    + unfold zlen. rewrite Hla, Hlq. split; [lia|]. intros [Ed _].
      destruct (mapped_same_bits a nq k) as [q Hq]; [done|done|done|done|lia|done|].
      by destruct (Ha4 q).
  - destruct Hn4 as [-> ->]. rewrite andb_true_iff, bool_decide_eq_true, Z.eqb_eq.
    destruct (To4 a) as [q|]; cbn [default from_option id].
    + destruct Ha4 as [-> Hq]. unfold zlen. rewrite Hq, Hln. split; [lia|]. intros [_ H]. destruct H; [by eexists|done].
    + rewrite Hln in *. rewrite and_bytes_eq, Hk by done. unfold zlen. rewrite Hla, Hln.
      split; [intros [_ ->]; split; [done|by intros []]|intros [-> _]; done].
Qed.
