(* ===== verification/Framed.v ===== *)
(** The framed stream layer (core/protocol/framed.go): one bidirectional
    stream over a connection whose bytes look like TLS application records.

    A record is [0x17 0x03 0x03], a 16-bit body length, and a body that opens
    with a 16-bit data length, then the data, then random padding.  The data
    lengths 0, 0xFFFF and 0xFFFE are the end-of-stream, switch-to-raw and
    filler markers.  [Module Shape] holds the process-wide knobs that choose
    record sizes and padding, [Module FramedConn] the connection. *)

From S2P Require Import Prelude GoIO GoStr.

Definition framedWireTarget : Z := 5 + 16384 + 1 + 16.
Definition framedPlainTarget : Z := 16384.
Definition framedMaxData : Z := framedPlainTarget - 5 - 2.
Definition shapePadMin : Z := 111.
Definition shapePadMax : Z := 1111.
Definition shapePadRecords : Z := 3.
Definition shapeChunkMin : Z := 4096.
Definition shapeChunkMax : Z := framedMaxData.
Definition framedSwitchMarker : Z := 65535.
Definition framedFillerMarker : Z := 65534.
Definition chunkWireOverhead : Z := 29.

Module Shape.

(** The knobs; every number is an [atomic.Int32]. *)
Record ShapeKnobs := mkKnobs {
  records : Z;
  kmin : Z;
  kmax : Z;
  fillIdle : Z;
  fillInterval : Z;
  fillMin : Z;
  fillMax : Z;
  chunkMin : Z;
  chunkMax : Z;
  chunkShaped : bool
}.

Record shapeBucket := mkBucket { b_lo : Z; b_hi : Z; b_w : float }.

Definition chunkShape : list shapeBucket :=
  [ mkBucket 0 64 7.2; mkBucket 64 128 2.3; mkBucket 128 256 1.6;
    mkBucket 256 512 3.1; mkBucket 512 1024 4.1; mkBucket 1024 2048 52.7;
    mkBucket 2048 4096 1.2; mkBucket 4096 8192 7.0; mkBucket 8192 16000 1.0;
    mkBucket 16000 (framedMaxData + chunkWireOverhead) 19.7 ]%float.

(** The second loop of [shapedChunk]: the first bucket at which the running
    remainder is no longer positive is drawn from. *)
Fixpoint shapedChunk_pick (cs : list shapeBucket) (x : float) (left : Z) (r : rng) : Z * rng :=
  match cs with
  | [] => (left, r)
  | c :: cs' =>
      let x := (x - b_w c)%float in
      if PrimFloat.ltb 0 x then shapedChunk_pick cs' x left r
      else
        let lo := b_lo c - chunkWireOverhead in
        let hi := b_hi c - chunkWireOverhead in
        let lo := if lo <? 1 then 1 else lo in
        let hi := if framedMaxData <? hi then framedMaxData else hi in
        let hi := if hi <=? lo then lo + 1 else hi in
        let '(d, r) := Intn (hi - lo) r in
        let n := lo + d in
        if n <? left then (n, r) else (left, r)
  end.

Definition shapedChunk (left : Z) (r : rng) : Z * rng :=
  let total := fold_left (fun t c => (t + b_w c)%float) chunkShape 0%float in
  let '(f, r) := Float64 r in
  shapedChunk_pick chunkShape (f * total)%float left r.

(** [chunkDefaults], with the value of the WHISPERA_CHUNK variable. *)
Definition chunkDefaults (env : string) : Z * Z :=
  let v := bytes_of_string (TrimSpace env) in
  match v with
  | [] => (shapeChunkMin, shapeChunkMax)
  | _ =>
      let i := index_byte 45 v in
      let '(lo, hi) := if 0 <? i then (ztake i v, zdrop (i + 1) v) else (v, v) in
      match atoi lo, atoi hi with
      | Some a, Some b =>
          if (a <? 0) || (b <? 0) || (framedMaxData <? b) || ((0 <? b) && (b <? a))
          then (shapeChunkMin, shapeChunkMax) else (a, b)
      | _, _ => (shapeChunkMin, shapeChunkMax)
      end
  end.

Definition newShapeKnobs (env : string) : ShapeKnobs :=
  let '(lo, hi) := chunkDefaults env in
  {| records := shapePadRecords; kmin := shapePadMin; kmax := shapePadMax;
     fillIdle := 0; fillInterval := 0; fillMin := 0; fillMax := 0;
     chunkMin := i32 lo; chunkMax := i32 hi;
     chunkShaped := bool_decide (TrimSpace env = "shape"%string) |}.

Definition Get (k : ShapeKnobs) : Z * Z * Z := (records k, kmin k, kmax k).
Definition Chunk (k : ShapeKnobs) : Z * Z := (chunkMin k, chunkMax k).
Definition Filler (k : ShapeKnobs) : Z * Z * Z * Z :=
  (fillIdle k, fillInterval k, fillMin k, fillMax k).

Definition SetChunk (k : ShapeKnobs) (min max : Z) : ShapeKnobs * option error :=
  if (min <? 0) || (max <? 0) || (framedMaxData <? max) || ((0 <? max) && (max <? min))
  then (k, Some errShapeRange)
  else
    ({| records := records k; kmin := kmin k; kmax := kmax k;
        fillIdle := fillIdle k; fillInterval := fillInterval k;
        fillMin := fillMin k; fillMax := fillMax k;
        chunkMin := i32 min; chunkMax := i32 max; chunkShaped := chunkShaped k |}, None).

Definition SetFiller (k : ShapeKnobs) (idleMs intervalMs min max : Z)
  : ShapeKnobs * option error :=
  if (idleMs <? 0) || (intervalMs <? 0) || (60000 <? intervalMs) then (k, Some errShapeRange)
  else if (min <? 0) || (framedMaxData <? max) || (max <? min) then (k, Some errShapeRange)
  else
    ({| records := records k; kmin := kmin k; kmax := kmax k;
        fillIdle := i32 idleMs; fillInterval := i32 intervalMs;
        fillMin := i32 min; fillMax := i32 max;
        chunkMin := chunkMin k; chunkMax := chunkMax k; chunkShaped := chunkShaped k |}, None).

Definition Set_ (k : ShapeKnobs) (recs min max : Z) : ShapeKnobs * option error :=
  if (recs <? 0) || (64 <? recs) then (k, Some errShapeRange)
  else if (min <? 0) || (framedMaxData <? max) || (max <? min) then (k, Some errShapeRange)
  else
    ({| records := i32 recs; kmin := i32 min; kmax := i32 max;
        fillIdle := fillIdle k; fillInterval := fillInterval k;
        fillMin := fillMin k; fillMax := fillMax k;
        chunkMin := chunkMin k; chunkMax := chunkMax k; chunkShaped := chunkShaped k |}, None).

(** How much data the next record carries; the trace file is not modelled. *)
Definition chunkLen (k : ShapeKnobs) (left : Z) (r : rng) : Z * rng :=
  if chunkShaped k then shapedChunk left r
  else
    let '(min, max) := Chunk k in
    if max <=? 0 then (left, r)
    else
      let min := if min <? 1 then 1 else min in
      let '(want, r) := if min <? max
                        then let '(d, r) := Intn (max - min + 1) r in (min + d, r)
                        else (min, r) in
      if want <? left then (want, r) else (left, r).

Definition ShapePadLen (k : ShapeKnobs) (room : Z) (r : rng) : Z * rng :=
  if room <=? 0 then (0, r)
  else
    let min := kmin k in
    let max := kmax k in
    if max <=? min then (0, r)
    else
      let '(d, r) := Intn (max - min + 1) r in
      let pad := min + d in
      ((if room <? pad then room else pad), r).

(** The padding bytes of [AppendShapePad]: 8-byte random words copied over the
    new tail, the last one cut short. *)
Fixpoint shape_pad (fuel : nat) (n : Z) (r : rng) : list Z * rng :=
  match fuel with
  | O => ([], r)
  | S f =>
      if n <=? 0 then ([], r)
      else
        let '(w, r) := Uint64 r in
        let '(rest, r) := shape_pad f (n - 8) r in
        (ztake n (put64 w) ++ rest, r)
  end.

Definition AppendShapePad (out : list Z) (n : Z) (r : rng) : list Z * rng :=
  if n <=? 0 then (out, r)
  else let '(p, r) := shape_pad (Z.to_nat n) n r in (out ++ p, r).

Definition FillerPad (k : ShapeKnobs) (r : rng) : option Z * rng :=
  let '(_, intervalMs, min, max) := Filler k in
  if intervalMs <=? 0 then (None, r)
  else if min <? max then
    let '(d, r) := Intn (max - min + 1) r in (Some (min + d), r)
  else (Some min, r).

(** [ShapeBudget]: how many records still get padded; [None] is a nil budget.
    [take] is the compare-and-swap loop, which succeeds in one atomic step. *)
Definition NewShapeBudget (k : ShapeKnobs) : option Z := Some (records k).

Definition take_budget (b : option Z) : bool * option Z :=
  match b with
  | None => (false, None)
  | Some v => if v <=? 0 then (false, Some v) else (true, Some (v - 1))
  end.

End Shape.

Module FramedConn.
Import Shape.

(** The connection.  [hasBatch] says whether a pooled record buffer is held;
    the buffers' contents are always overwritten before use, and the reuse of
    [rrec] is not visible.  [pad] is the padding budget, [stopped] whether the
    [stop] channel is closed, [filling] whether the filler loop runs. *)
Record FramedConn := mkFramed {
  conn : Conn;
  rbuf : list Z;
  done_ : bool;
  hasBatch : bool;
  ended : bool;
  endErr : option error;
  switched : bool;
  pad : option Z;
  lastWrite : Z;
  stopped : bool;
  filling : bool
}.

Definition set_conn (c : FramedConn) (cn : Conn) : FramedConn :=
  mkFramed cn (rbuf c) (done_ c) (hasBatch c) (ended c) (endErr c) (switched c)
           (pad c) (lastWrite c) (stopped c) (filling c).
Definition set_read (c : FramedConn) (cn : Conn) (rb : list Z) (d : bool) : FramedConn :=
  mkFramed cn rb d (hasBatch c) (ended c) (endErr c) (switched c)
           (pad c) (lastWrite c) (stopped c) (filling c).
Definition set_sent (c : FramedConn) (cn : Conn) (p : option Z) : FramedConn :=
  mkFramed cn (rbuf c) (done_ c) (hasBatch c) (ended c) (endErr c) (switched c)
           p (lastWrite c) (stopped c) (filling c).
Definition set_filling (c : FramedConn) (f : bool) : FramedConn :=
  mkFramed (conn c) (rbuf c) (done_ c) (hasBatch c) (ended c) (endErr c) (switched c)
           (pad c) (lastWrite c) (stopped c) f.
Definition set_end (c : FramedConn) (e : bool) (err : option error) (sw batch : bool)
  : FramedConn :=
  mkFramed (conn c) (rbuf c) (done_ c) batch e err sw
           (pad c) (lastWrite c) (stopped c) (filling c).

(** [armFiller] starts the filler loop once, if the filler is switched on. *)
Definition armFiller (k : ShapeKnobs) (c : FramedConn) : FramedConn :=
  let '(_, intervalMs, _, _) := Filler k in
  if intervalMs <=? 0 then c else set_filling c true.

Definition NewFramedConn (k : ShapeKnobs) (cn : Conn) (budget : option Z) (now : Z)
  : FramedConn :=
  armFiller k (mkFramed cn [] false false false None false budget now false false).

Definition record_header (body : Z) : list Z := [23; 3; 3] ++ put16 (u16 body).

Definition WriteFillerRecord (cn : Conn) (pad : Z) (r : rng) : Conn * option error * rng :=
  let out := record_header (2 + pad) ++ put16 framedFillerMarker in
  let '(out, r) := AppendShapePad out pad r in
  let '(cn, err) := Conn_Write cn out in
  (cn, err, r).

Definition writeFiller (c : FramedConn) (pad : Z) (r : rng)
  : FramedConn * option error * rng :=
  if ended c then (c, Some ErrClosedPipe, r)
  else let '(cn, err, r) := WriteFillerRecord (conn c) pad r in (set_conn c cn, err, r).

(** One turn of [fillLoop]: the [select] sees the stop channel closed, or the
    timer fires at [now].  [false] means the loop has returned, which clears
    [filling]. *)
Inductive fillEvent := FillStop | FillTimer (now : Z).

Definition fillLoop_turn (k : ShapeKnobs) (c : FramedConn) (ev : fillEvent) (r : rng)
  : FramedConn * bool * rng :=
  let '(idleMs, intervalMs, min, max) := Filler k in
  if intervalMs <=? 0 then (set_filling c false, false, r)
  else
    match ev with
    | FillStop => (set_filling c false, false, r)
    | FillTimer now =>
        if now - lastWrite c <? idleMs * 1000000 then (c, true, r)
        else
          let '(p, r) := if min <? max
                         then let '(d, r) := Intn (max - min + 1) r in (min + d, r)
                         else (min, r) in
          let '(c, err, r) := writeFiller c p r in
          match err with
          | None => (c, true, r)
          | Some _ => (set_filling c false, false, r)
          end
    end.

(** The bytes of one data record. *)
Definition data_record (data : list Z) (n pad : Z) (r : rng) : list Z * rng :=
  AppendShapePad (record_header (2 + n + pad) ++ put16 (u16 n) ++ ztake n data) pad r.

(** The loop of [Write]: [None] is a loop that has not ended within the fuel. *)
Fixpoint write_loop (fuel : nat) (k : ShapeKnobs) (c : FramedConn) (b : list Z) (sent : Z)
  (r : rng) : option (FramedConn * Z * option error * rng) :=
  match b with
  | [] => Some (c, sent, None, r)
  | _ =>
      match fuel with
      | O => None
      | S f =>
          let '(n, r) := chunkLen k (zlen b) r in
          let n := if framedMaxData <? n then framedMaxData else n in
          let '(taken, budget) := take_budget (pad c) in
          let '(p, r) := if (taken : bool) then ShapePadLen k (framedMaxData - n) r else (0, r) in
          let '(out, r) := data_record b n p r in
          let '(cn, err) := Conn_Write (conn c) out in
          let c := set_sent c cn budget in
          match err with
          | Some e => Some (c, sent, Some e, r)
          | None => write_loop f k c (zdrop n b) (sent + n) r
          end
      end
  end.

Definition Write (k : ShapeKnobs) (c : FramedConn) (b : list Z) (now : Z) (r : rng)
  : option (FramedConn * Z * option error * rng) :=
  if ended c then Some (c, 0, Some ErrClosedPipe, r)
  else
    let c := mkFramed (conn c) (rbuf c) (done_ c) true (ended c) (endErr c) (switched c)
                      (pad c) now (stopped c) (filling c) in
    write_loop (length b) k (armFiller k c) b 0 r.

(** [readRecord], which skips filler records by calling itself. *)
Fixpoint readRecord_loop (fuel : nat) (cn : Conn) : option (Conn * (list Z + error)) :=
  match fuel with
  | O => None
  | S f =>
      let '(cn, res) := ReadFull cn 5 in
      match res with
      | inr e => Some (cn, inr e)
      | inl hdr =>
          if negb (hd 0 hdr =? 23) then Some (cn, inr errFramedBadRecord)
          else
            let body := get16 (zslice 3 5 hdr) in
            if (body <? 2) || (framedWireTarget <? body) then Some (cn, inr errFramedBadRecord)
            else
              let '(cn, res) := ReadFull cn body in
              match res with
              | inr e => Some (cn, inr e)
              | inl rec =>
                  let dataLen := get16 (zslice 0 2 rec) in
                  if dataLen =? framedSwitchMarker then Some (cn, inr ErrSwitchRaw)
                  else if dataLen =? framedFillerMarker then readRecord_loop f cn
                  else if body <? 2 + dataLen then Some (cn, inr errFramedBadRecord)
                  else Some (cn, inl (zslice 2 (2 + dataLen) rec))
              end
      end
  end.

(** Every call of [readRecord] uses up the five header bytes or fails, so
    the length of the pending input bounds the recursion. *)
Definition readRecord (cn : Conn) : Conn * (list Z + error) :=
  default (cn, inr errFramedBadRecord) (readRecord_loop (S (length (c_in cn))) cn).

(** [Read] into a buffer of [size] bytes: the bytes copied, or the error. *)
Definition Read (c : FramedConn) (size : Z) : FramedConn * (list Z + error) :=
  if 0 <? zlen (rbuf c) then
    let n := Z.min size (zlen (rbuf c)) in
    (set_read c (conn c) (zdrop n (rbuf c)) (done_ c), inl (ztake n (rbuf c)))
  else if done_ c then (c, inr EOF)
  else
    let '(cn, res) := readRecord (conn c) in
    match res with
    | inr e => (set_read c cn (rbuf c) (done_ c), inr e)
    | inl data =>
        if zlen data =? 0 then (set_read c cn (rbuf c) true, inr EOF)
        else
          let n := Z.min size (zlen data) in
          let rb := if n <? zlen data then zdrop n data else rbuf c in
          (set_read c cn rb (done_ c), inl (ztake n data))
    end.

Definition writeMarker (k : ShapeKnobs) (c : FramedConn) (marker : Z) (r : rng)
  : FramedConn * option error * rng :=
  let '(taken, budget) := take_budget (pad c) in
  let '(p, r) := if (taken : bool) then ShapePadLen k framedMaxData r else (0, r) in
  let '(out, r) := AppendShapePad (record_header (2 + p) ++ put16 marker) p r in
  let '(cn, err) := Conn_Write (conn c) out in
  (set_sent c cn budget, err, r).

Definition SwitchRaw (k : ShapeKnobs) (c : FramedConn) (r : rng)
  : FramedConn * option error * rng :=
  if ended c then (c, None, r)
  else writeMarker k (set_end c true (endErr c) true (hasBatch c)) framedSwitchMarker r.

Definition SwitchedRaw (c : FramedConn) : bool := switched c.

Definition EndStream (k : ShapeKnobs) (c : FramedConn) (r : rng)
  : FramedConn * option error * rng :=
  if ended c then (c, endErr c, r)
  else
    let '(c, err, r) :=
      writeMarker k (set_end c true (endErr c) (switched c) (hasBatch c)) 0 r in
    (set_end c true err (switched c) false, err, r).

Definition StreamDone (c : FramedConn) : bool := done_ c.
Definition Reusable (c : FramedConn) : bool := done_ c && ended c && negb (switched c).

Definition stopFiller (c : FramedConn) : FramedConn :=
  mkFramed (conn c) (rbuf c) (done_ c) (hasBatch c) (ended c) (endErr c) (switched c)
           (pad c) (lastWrite c) true (filling c).
Definition Close (k : ShapeKnobs) (c : FramedConn) (r : rng)
  : FramedConn * option error * rng := EndStream k (stopFiller c) r.
Definition CloseUnderlying (c : FramedConn) : FramedConn :=
  set_conn (stopFiller c) (Conn_Close (conn c)).

Definition Reset (c : FramedConn) : FramedConn :=
  mkFramed (conn c) [] false (hasBatch c) false (endErr c) (switched c)
           (pad c) (lastWrite c) (stopped c) (filling c).

End FramedConn.

(** [SkipFillerRecord] (used before a connection is framed): reads what
    follows the three type and version bytes of a record. *)
Definition SkipFillerRecord (cn : Conn) : Conn * bool :=
  let '(cn, res) := ReadFull cn 2 in
  match res with
  | inr _ => (cn, false)
  | inl size =>
      let body := get16 size in
      if (body <? 2) || (framedWireTarget <? body) then (cn, false)
      else
        let '(cn, res) := ReadFull cn body in
        match res with
        | inr _ => (cn, false)
        | inl rec => (cn, get16 (zslice 0 2 rec) =? framedFillerMarker)
        end
  end.
