(* ===== verification/FramedFacts.v ===== *)
(** What the framed layer guarantees: the knobs stay in range, [Write] ends
    and sends everything, and whatever a sender writes, in records of any
    size with padding and filler between them, the receiver reads back. *)

From S2P Require Import Prelude GoIO GoStr Framed.
Import Shape FramedConn.

(** ** The knobs *)

(** The ranges every setter establishes. *)
Definition knobs_ok (k : ShapeKnobs) : Prop :=
  (0 <= records k <= 64) /\
  (0 <= kmin k <= kmax k /\ kmax k <= framedMaxData) /\
  (0 <= fillInterval k <= 60000) /\
  (0 <= fillMin k <= fillMax k /\ fillMax k <= framedMaxData) /\
  (0 <= chunkMax k <= framedMaxData) /\
  (0 < chunkMax k -> 0 <= chunkMin k <= chunkMax k).

Lemma framedMaxData_val : framedMaxData = 16377.
Proof. reflexivity. Qed.

Lemma chunkDefaults_range env a b :
  chunkDefaults env = (a, b) ->
  0 <= a /\ 0 <= b <= framedMaxData /\ (0 < b -> a <= b).
Proof.
  unfold chunkDefaults. intros H.
  assert (Hd : 0 <= shapeChunkMin /\ 0 <= shapeChunkMax <= framedMaxData /\
               (0 < shapeChunkMax -> shapeChunkMin <= shapeChunkMax)).
  { unfold shapeChunkMin, shapeChunkMax. rewrite framedMaxData_val. lia. }
  destruct (bytes_of_string (TrimSpace env)) as [|x v] eqn:Ev; [by simplify_eq|].
  destruct (if 0 <? index_byte 45 (x :: v) then _ else _) as [lo hi].
  destruct (atoi lo) as [a'|]; [|by simplify_eq].
  destruct (atoi hi) as [b'|]; [|by simplify_eq].
  destruct ((a' <? 0) || (b' <? 0) || (framedMaxData <? b') || ((0 <? b') && (b' <? a')))
    eqn:E; simplify_eq; [done|]. bool_to_prop.
  destruct (Z.ltb_spec 0 b); simpl in *; bool_to_prop; lia.
Qed.

(** The int32 conversions of the setters lose nothing on checked values. *)
Ltac i32_solve :=
  repeat match goal with
  | |- context [i32 ?z] => rewrite (i32_small z) by (rewrite ?framedMaxData_val in *; lia)
  end.

Lemma newShapeKnobs_ok env : knobs_ok (newShapeKnobs env).
Proof.
  unfold newShapeKnobs. destruct (chunkDefaults env) as [a b] eqn:E.
  apply chunkDefaults_range in E as (Ha & Hb & Hab).
  unfold knobs_ok. simpl. rewrite framedMaxData_val in *.
  unfold shapePadRecords, shapePadMin, shapePadMax.
  rewrite (i32_small b) by lia. split_and!; try lia.
  intros Hpos. rewrite i32_small by lia. lia.
Qed.

Lemma Set_ok k n lo hi : knobs_ok k -> knobs_ok (Set_ k n lo hi).1.
Proof.
  intros Hk. unfold Set_. split_ifs; simpl; try done.
  unfold knobs_ok in *; simpl. i32_solve. rewrite framedMaxData_val in *. lia.
Qed.

Lemma SetChunk_ok k lo hi : knobs_ok k -> knobs_ok (SetChunk k lo hi).1.
Proof.
  intros Hk. unfold SetChunk.
  destruct ((lo <? 0) || (hi <? 0) || (framedMaxData <? hi) || ((0 <? hi) && (hi <? lo)))
    eqn:E; simpl; [done|]. bool_to_prop.
  unfold knobs_ok in *; simpl. rewrite (i32_small hi) by (rewrite framedMaxData_val in *; lia).
  rewrite framedMaxData_val in *. split_and!; try lia.
  all: intros Hp; destruct (Z.ltb_spec 0 hi); simpl in *; bool_to_prop;
    rewrite i32_small; lia.
Qed.

Lemma SetFiller_ok k idle iv lo hi : knobs_ok k -> knobs_ok (SetFiller k idle iv lo hi).1.
Proof.
  intros Hk. unfold SetFiller. split_ifs; simpl; try done.
  unfold knobs_ok in *; simpl.
  rewrite (i32_small iv), (i32_small lo), (i32_small hi) by (rewrite framedMaxData_val in *; lia).
  rewrite framedMaxData_val in *. lia.
Qed.

(** A knob update is one call of a setter. *)
Inductive knob_op :=
| KSet (n lo hi : Z)
| KSetChunk (lo hi : Z)
| KSetFiller (idle iv lo hi : Z).

Definition knob_step (k : ShapeKnobs) (o : knob_op) : ShapeKnobs :=
  match o with
  | KSet n lo hi => (Set_ k n lo hi).1
  | KSetChunk lo hi => (SetChunk k lo hi).1
  | KSetFiller idle iv lo hi => (SetFiller k idle iv lo hi).1
  end.

(** The shape knobs are always in range.  Starting from the value of
    WHISPERA_CHUNK, whatever string it is, and after any sequence of setter
    calls with any arguments, the padding, filler and chunk ranges the writer
    reads stay within one record. *)
Theorem knobs_invariant env ops : knobs_ok (fold_left knob_step ops (newShapeKnobs env)).
Proof.
  assert (H : knobs_ok (newShapeKnobs env)) by apply newShapeKnobs_ok.
  revert H. generalize (newShapeKnobs env). induction ops as [|o ops IH]; intros k Hk; [done|].
  simpl. apply IH. destruct o; simpl; [by apply Set_ok|by apply SetChunk_ok|by apply SetFiller_ok].
Qed.

(** ** Record sizes and padding *)

Lemma shapedChunk_pick_range cs x left r :
  1 <= left -> 1 <= (shapedChunk_pick cs x left r).1 <= left.
Proof.
  intros Hl. revert x r. induction cs as [|c cs IH]; intros x r; simpl; [lia|].
  destruct (PrimFloat.ltb 0 _); [apply IH|].
  set (lo := if b_lo c - chunkWireOverhead <? 1 then 1 else b_lo c - chunkWireOverhead).
  set (hi := if framedMaxData <? b_hi c - chunkWireOverhead then framedMaxData
             else b_hi c - chunkWireOverhead).
  assert (Hlo : 1 <= lo) by (unfold lo; split_ifs; lia).
  pose proof (Intn_range ((if hi <=? lo then lo + 1 else hi) - lo) r) as Hr.
  destruct (Intn _ r) as [d r']. simpl in Hr.
  assert (0 <= d) by (split_ifs; destruct (Z.leb_spec hi lo); lia).
  split_ifs; simpl; lia.
Qed.

Lemma chunkLen_range k left r : 1 <= left -> 1 <= (chunkLen k left r).1 <= left.
Proof.
  intros Hl. unfold chunkLen, shapedChunk, Chunk. destruct (chunkShaped k).
  { destruct (Float64 r). by apply shapedChunk_pick_range. }
  destruct (Z.leb_spec (chunkMax k) 0); simpl; [lia|].
  set (m := if chunkMin k <? 1 then 1 else chunkMin k).
  assert (1 <= m) by (unfold m; split_ifs; lia).
  destruct (Z.ltb_spec m (chunkMax k)).
  - pose proof (Intn_range (chunkMax k - m + 1) r). destruct (Intn _ r) as [d r']. simpl in *.
    split_ifs; simpl; lia.
  - split_ifs; simpl; lia.
Qed.

Lemma ShapePadLen_range k room r :
  knobs_ok k -> 0 <= room -> 0 <= (ShapePadLen k room r).1 <= room.
Proof.
  intros (_ & Hp & _) Hr. unfold ShapePadLen.
  destruct (Z.leb_spec room 0); simpl; [lia|].
  destruct (Z.leb_spec (kmax k) (kmin k)); simpl; [lia|].
  pose proof (Intn_range (kmax k - kmin k + 1) r). destruct (Intn _ r) as [d r']. simpl in *.
  split_ifs; lia.
Qed.

Lemma pad_choice k (t : bool) room r :
  knobs_ok k -> 0 <= room ->
  exists p r', (if t then ShapePadLen k room r else (0, r)) = (p, r') /\ 0 <= p <= room.
Proof.
  intros Hk Hr. destruct t; [|eexists _, _; split; [done|lia]].
  pose proof (ShapePadLen_range k room r Hk Hr). destruct (ShapePadLen k room r). eauto.
Qed.

Lemma shape_pad_len fuel n r :
  n <= Z.of_nat fuel -> zlen (shape_pad fuel n r).1 = Z.max 0 n.
Proof.
  revert n r. induction fuel as [|f IH]; intros n r Hn; simpl; [zlen_lia|].
  destruct (Z.leb_spec n 0); simpl; [zlen_lia|].
  destruct (Uint64 r) as [w r1]. specialize (IH (n - 8) r1).
  destruct (shape_pad f (n - 8) r1) as [rest r2]. simpl in *.
  rewrite zlen_app, IH by lia.
  destruct (Z_le_gt_dec n 8).
  - rewrite zlen_ztake by (rewrite put64_len; lia). lia.
  - rewrite ztake_ge, put64_len by (rewrite put64_len; lia). lia.
Qed.

Lemma AppendShapePad_spec out n r :
  0 <= n -> exists p, (AppendShapePad out n r).1 = out ++ p /\ zlen p = n.
Proof.
  intros Hn. unfold AppendShapePad. destruct (Z.leb_spec n 0).
  - exists []. rewrite app_nil_r. simpl. split; [done|zlen_lia].
  - pose proof (shape_pad_len (Z.to_nat n) n r ltac:(lia)) as Hp.
    destruct (shape_pad _ n r) as [p r1]. exists p. simpl in *. split; [done|lia].
Qed.

Lemma take_budget_le b t b' :
  take_budget (Some b) = (t, b') -> b' = Some (if (t : bool) then b - 1 else b).
Proof. unfold take_budget. intros. split_ifs_in H; by simplify_eq. Qed.

(** ** The wire format

    [record_bytes dl d p] is a record whose length field says [dl], with data
    [d] and padding [p]; [carries w b] says that the byte sequence [w] is a
    sequence of data and filler records whose data, put together, is [b]. *)

Definition record_bytes (dl : Z) (d p : list Z) : list Z :=
  [23; 3; 3] ++ put16 (2 + zlen d + zlen p) ++ put16 dl ++ d ++ p.

Arguments record_bytes : simpl never.

Inductive carries : list Z -> list Z -> Prop :=
| carries_nil : carries [] []
| carries_data d p w b :
    1 <= zlen d -> zlen d + zlen p <= framedMaxData -> carries w b ->
    carries (record_bytes (zlen d) d p ++ w) (d ++ b)
| carries_filler p w b :
    zlen p <= framedMaxData -> carries w b ->
    carries (record_bytes framedFillerMarker [] p ++ w) b.

Lemma carries_app w b w' b' : carries w b -> carries w' b' -> carries (w ++ w') (b ++ b').
Proof. induction 1; intros; rewrite <- ?app_assoc; try done; constructor; auto. Qed.

Lemma carries_one d p :
  1 <= zlen d -> zlen d + zlen p <= framedMaxData ->
  carries (record_bytes (zlen d) d p) d.
Proof.
  intros. rewrite <- (app_nil_r d) at 3. rewrite <- (app_nil_r (record_bytes _ _ _)).
  apply carries_data; [done..|constructor].
Qed.

Lemma record_bytes_len dl d p : zlen (record_bytes dl d p) = 7 + zlen d + zlen p.
Proof. unfold record_bytes. zlen_lia. Qed.

(** A whole record at the front of the input, whatever its length field says. *)
Lemma readRecord_record f cn dl d p k :
  c_in cn = record_bytes dl d p ++ k ->
  zlen d + zlen p <= framedMaxData -> 0 <= dl < 65536 ->
  readRecord_loop (S f) cn =
    if dl =? framedSwitchMarker then Some (with_in cn k, inr ErrSwitchRaw)
    else if dl =? framedFillerMarker then readRecord_loop f (with_in cn k)
    else if zlen d + zlen p <? dl then Some (with_in cn k, inr errFramedBadRecord)
    else Some (with_in cn k, inl (ztake dl (d ++ p))).
Proof.
  intros Hin Hb Hdl. cbn [readRecord_loop].
  set (L := 2 + zlen d + zlen p).
  assert (HL : 2 <= L <= 16379) by (rewrite framedMaxData_val in Hb; unfold L; zlen_lia).
  rewrite (ReadFull_app cn 5 ([23; 3; 3] ++ put16 L) (put16 dl ++ (d ++ p) ++ k)); cycle 1.
  { rewrite Hin. unfold record_bytes. by rewrite <- !app_assoc. }
  { zlen_lia. }
  cbn [hd app negb]. change (23 =? 23) with true. cbn [negb].
  change (zslice 3 5 (23 :: 3 :: 3 :: put16 L)) with (put16 L ++ []).
  rewrite get16_put16 by lia.
  assert (Hg : (L <? 2) || (framedWireTarget <? L) = false).
  { apply orb_false_iff. rewrite !Z.ltb_ge. unfold framedWireTarget. lia. }
  rewrite Hg.
  rewrite (ReadFull_app (with_in cn _) L (put16 dl ++ d ++ p) k); cycle 1.
  { simpl. by rewrite <- !app_assoc. }
  { unfold L. zlen_lia. }
  change (zslice 0 2 (put16 dl ++ d ++ p)) with (put16 dl ++ []).
  rewrite get16_put16 by lia.
  unfold L, zslice.
  replace (2 + dl - 2) with dl by lia.
  change (zdrop 2 (put16 dl ++ d ++ p)) with (d ++ p).
  replace (2 + zlen d + zlen p <? 2 + dl) with (zlen d + zlen p <? dl)
    by (destruct (Z.ltb_spec (zlen d + zlen p) dl), (Z.ltb_spec (2 + zlen d + zlen p) (2 + dl));
        done || lia).
  done.
Qed.

Lemma readRecord_loop_mono f f' cn res :
  readRecord_loop f cn = Some res -> (f <= f')%nat -> readRecord_loop f' cn = Some res.
Proof.
  revert f' cn. induction f as [|f IH]; intros [|f'] cn H Hle; try done; [lia|].
  cbn [readRecord_loop] in *.
  destruct (ReadFull cn 5) as [cn1 [hdr|e]]; [|done].
  destruct (negb _); [done|]. destruct ((_ <? 2) || _); [done|].
  destruct (ReadFull cn1 _) as [cn2 [rec|e]]; [|done].
  destruct (_ =? framedSwitchMarker); [done|].
  destruct (_ =? framedFillerMarker); [|done]. apply IH; [done|lia].
Qed.

(** The recursion of [readRecord] ends: each call takes five bytes. *)
Lemma readRecord_loop_total f cn :
  (length (c_in cn) < f)%nat -> is_Some (readRecord_loop f cn).
Proof.
  revert cn. induction f as [|f IH]; intros cn Hf; [lia|]. cbn [readRecord_loop].
  destruct (ReadFull cn 5) as [cn1 [hdr|e]] eqn:E1; [|eauto].
  apply ReadFull_shrinks in E1 as (Hin1 & Hl1 & _); [|lia].
  destruct (negb _); [eauto|]. destruct ((_ <? 2) || _) eqn:Eb; [eauto|]. bool_to_prop.
  destruct (ReadFull cn1 _) as [cn2 [rec|e]] eqn:E2; [|eauto].
  apply ReadFull_shrinks in E2 as (Hin2 & Hl2 & _); [|lia].
  destruct (_ =? framedSwitchMarker); [eauto|].
  destruct (_ =? framedFillerMarker); [|destruct (_ <? _); eauto].
  apply IH. rewrite Hin1, Hin2, !length_app in Hf. unfold zlen in *. lia.
Qed.

Lemma readRecord_eq f cn res :
  readRecord_loop f cn = Some res -> (f <= S (length (c_in cn)))%nat -> readRecord cn = res.
Proof. intros H Hf. unfold readRecord. by rewrite (readRecord_loop_mono f _ cn res). Qed.

(** One call of [readRecord] on carried data: filler is skipped and the next
    data record returned, or, when nothing is left, what follows is read. *)
Lemma readRecord_carries w b cn k :
  carries w b -> c_in cn = w ++ k ->
  (b = [] /\ readRecord cn = readRecord (with_in cn k)) \/
  (exists d b' w', b = d ++ b' /\ 1 <= zlen d /\ carries w' b' /\
     readRecord cn = (with_in cn (w' ++ k), inl d)).
Proof.
  intros Hc. revert cn. induction Hc as [|d p w b Hd Hp Hc IH|p w b Hp Hc IH]; intros cn Hin.
  - left. split; [done|]. by destruct cn; simpl in *; subst.
  - right. exists d, b, w. split_and!; try done.
    rewrite <- app_assoc in Hin. pose proof (zlen_nonneg p) as Hp0.
    eapply readRecord_eq with (f := 1%nat); [|lia].
    rewrite (readRecord_record _ _ _ _ _ _ Hin Hp) by (rewrite framedMaxData_val in Hp; lia).
    rewrite framedMaxData_val in Hp.
    destruct (Z.eqb_spec (zlen d) framedSwitchMarker) as [E|_];
      [unfold framedSwitchMarker in E; lia|].
    destruct (Z.eqb_spec (zlen d) framedFillerMarker) as [E|_];
      [unfold framedFillerMarker in E; lia|].
    destruct (Z.ltb_spec (zlen d + zlen p) (zlen d)); [lia|].
    by rewrite ztake_app_exact.
  - rewrite <- app_assoc in Hin.
    assert (Hstep : readRecord cn = readRecord (with_in cn (w ++ k))).
    { pose proof (readRecord_loop_total (S (length (w ++ k))) (with_in cn (w ++ k))) as [res Hres];
        [simpl; lia|].
      rewrite (readRecord_eq _ _ _ Hres) by (simpl; lia).
      apply readRecord_eq with (f := S (S (length (w ++ k)))).
      - rewrite (readRecord_record _ _ _ _ _ _ Hin);
          [|rewrite zlen_nil; lia|unfold framedFillerMarker; lia].
        by rewrite (Z.eqb_refl framedFillerMarker).
      - pose proof (record_bytes_len framedFillerMarker [] p) as Hrl.
        rewrite Hin, length_app. unfold zlen in Hrl. rewrite ?length_app in *. lia. }
    destruct (IH (with_in cn (w ++ k)) eq_refl) as [[-> Heq]|(d & b' & w' & -> & ? & ? & Heq)].
    + left. split; [done|]. by rewrite Hstep, Heq.
    + right. exists d, b', w'. by rewrite Hstep, Heq.
Qed.

(** The two records that end a framed stream. *)
Inductive terminator := TEnd | TSwitch.

Definition term_marker (t : terminator) : Z :=
  match t with TEnd => 0 | TSwitch => framedSwitchMarker end.
Definition term_error (t : terminator) : error :=
  match t with TEnd => EOF | TSwitch => ErrSwitchRaw end.
Definition term_done (t : terminator) : bool :=
  match t with TEnd => true | TSwitch => false end.

Lemma readRecord_term t cn p k :
  c_in cn = record_bytes (term_marker t) [] p ++ k -> zlen p <= framedMaxData ->
  readRecord cn = (with_in cn k, match t with TEnd => inl [] | TSwitch => inr ErrSwitchRaw end).
Proof.
  intros Hin Hp. eapply readRecord_eq with (f := 1%nat); [|lia].
  pose proof (zlen_nonneg p).
  rewrite (readRecord_record _ _ _ _ _ _ Hin); [|rewrite zlen_nil; lia|destruct t; simpl; vm_compute; split; congruence].
  destruct t; [|done]. cbn [term_marker].
  change (0 =? framedSwitchMarker) with false. change (0 =? framedFillerMarker) with false.
  destruct (Z.ltb_spec (zlen (@nil Z) + zlen p) 0); [rewrite zlen_nil in *; lia|].
  by rewrite ztake_le0.
Qed.

(** ** The receiver *)

(** Reading with a buffer of each of the given sizes in turn, up to the first
    error; the bytes read are put together. *)
Fixpoint read_all (sizes : list Z) (c : FramedConn) : FramedConn * list Z * option error :=
  match sizes with
  | [] => (c, [], None)
  | n :: sizes' =>
      let '(c, res) := Read c n in
      match res with
      | inr e => (c, [], Some e)
      | inl d => let '(c, ds, e) := read_all sizes' c in (c, d ++ ds, e)
      end
  end.

(** [pending t c b p k]: what [c] has buffered and its input carry [b], and
    the terminator [t] with padding [p] and then [k] follow. *)
Definition pending (t : terminator) (c : FramedConn) (b p k : list Z) : Prop :=
  exists w b', carries w b' /\ b = rbuf c ++ b' /\ done_ c = false /\
    zlen p <= framedMaxData /\ c_in (conn c) = w ++ record_bytes (term_marker t) [] p ++ k.

(** A [Read] on a pending stream takes bytes off its front, and returns the
    terminator's error exactly when nothing is left. *)
Lemma Read_pending t c b p k n :
  pending t c b p k -> 1 <= n ->
  (b = [] /\ exists c', Read c n = (c', inr (term_error t)) /\ done_ c' = term_done t /\
     rbuf c' = [] /\ c_in (conn c') = k) \/
  (exists c' d b', Read c n = (c', inl d) /\ b = d ++ b' /\ 1 <= zlen d /\ pending t c' b' p k).
Proof.
  intros (w & b' & Hc & -> & Hdone & Hp & Hin) Hn. unfold Read.
  destruct (Z.ltb_spec 0 (zlen (rbuf c))) as [Hrb|Hrb].
  - right. eexists _, _, _. split; [done|].
    rewrite <- (ztake_zdrop (Z.min n (zlen (rbuf c))) (rbuf c)) at 1.
    rewrite <- app_assoc. split; [done|]. split; [rewrite zlen_ztake; lia|].
    exists w, b'. simpl. by rewrite Hdone.
  - assert (Hnil : rbuf c = []) by (apply zlen_zero; pose proof (zlen_nonneg (rbuf c)); lia).
    rewrite Hdone, Hnil. simpl.
    destruct (readRecord_carries _ _ _ _ Hc Hin) as [[-> Heq]|(d & b2 & w2 & -> & Hd & Hc2 & Heq)].
    + left. split; [done|]. rewrite Heq, (readRecord_term t (with_in (conn c) _) p k) by done.
      destruct t; simpl; rewrite ?Hnil, ?Hdone; eauto 10.
    + right. rewrite Heq. destruct (Z.eqb_spec (zlen d) 0); [lia|].
      eexists _, (ztake (Z.min n (zlen d)) d), (zdrop (Z.min n (zlen d)) d ++ b2).
      split; [done|]. rewrite app_assoc, ztake_zdrop. split; [done|].
      split; [rewrite zlen_ztake; lia|].
      exists w2, b2. simpl. split_and!; try done.
      destruct (Z.ltb_spec (Z.min n (zlen d)) (zlen d)); [done|].
      by rewrite zdrop_ge by lia.
Qed.

Lemma read_all_pending t sizes c b p k :
  pending t c b p k -> Forall (Z.le 1) sizes -> (length b < length sizes)%nat ->
  exists c', read_all sizes c = (c', b, Some (term_error t)) /\ done_ c' = term_done t /\
    rbuf c' = [] /\ c_in (conn c') = k.
Proof.
  revert c b. induction sizes as [|n sizes IH]; intros c b Hpend Hs Hlen; [simpl in Hlen; lia|].
  apply Forall_cons in Hs as [Hn Hs]. simpl.
  destruct (Read_pending _ _ _ _ _ _ Hpend Hn)
    as [[-> (c' & -> & ? & ? & ?)]|(c' & d & b' & -> & -> & Hd & Hpend')]; [eauto 10|].
  destruct (IH c' b' Hpend' Hs) as (c2 & -> & ?); [|eauto].
  rewrite length_app in Hlen. simpl in Hlen. unfold zlen in Hd. lia.
Qed.

(** ** The sender *)

(** [sends c c' b]: between the two states [c] put bytes on the wire that carry
    exactly [b], and is still open for writing. *)
Definition sends (c c' : FramedConn) (b : list Z) : Prop :=
  exists w, carries w b /\ c_out (conn c') = c_out (conn c) ++ w /\
    ended c' = ended c /\ (writable (conn c) -> writable (conn c')).

Lemma sends_refl c c' :
  conn c' = conn c -> ended c' = ended c -> sends c c' [].
Proof. intros Hc He. exists []. rewrite Hc, app_nil_r. split_and!; [constructor|done..]. Qed.

Lemma sends_trans c1 c2 c3 b b' : sends c1 c2 b -> sends c2 c3 b' -> sends c1 c3 (b ++ b').
Proof.
  intros (w & Hw & Ho & He & Hwr) (w' & Hw' & Ho' & He' & Hwr').
  exists (w ++ w'). split_and!; [by apply carries_app| |congruence|auto].
  by rewrite Ho', Ho, app_assoc.
Qed.

Lemma data_record_spec b n p r :
  1 <= n <= zlen b -> n + p <= framedMaxData -> 0 <= p ->
  exists pd, (data_record b n p r).1 = record_bytes n (ztake n b) pd /\ zlen pd = p.
Proof.
  intros Hn Hm Hp. rewrite framedMaxData_val in Hm. unfold data_record.
  destruct (AppendShapePad_spec
    (record_header (2 + n + p) ++ put16 (u16 n) ++ ztake n b) p r Hp) as (pd & -> & Hl).
  exists pd. split; [|done]. unfold record_bytes, record_header.
  rewrite zlen_ztake, Hl, !u16_small by lia. by rewrite <- !app_assoc.
Qed.

Lemma Conn_Write_out c b c' e :
  Conn_Write c b = (c', e) ->
  exists tl, c_out c' = c_out c ++ tl /\ (e = None -> tl = b) /\
    (writable c -> e = None /\ writable c').
Proof.
  unfold Conn_Write, writable. intros H.
  destruct (c_wscript c) as [|[[n e']|] s] eqn:Es; simplify_eq; simpl.
  - eauto.
  - eexists. split_and!; [done..|]. intros Hw. apply Forall_cons in Hw as [? _]. done.
  - eexists. split_and!; [done..|]. intros Hw. by apply Forall_cons in Hw as [_ ?].
Qed.

(** What the loop of [Write] does on any connection: it ends, and the bytes it
    reports as sent are exactly the ones whole records carried. *)
Lemma write_loop_spec fuel k c b sent r :
  knobs_ok k -> (length b <= fuel)%nat ->
  exists c' n e r' w tl,
    write_loop fuel k c b sent r = Some (c', sent + n, e, r') /\
    0 <= n <= zlen b /\ carries w (ztake n b) /\
    c_out (conn c') = c_out (conn c) ++ w ++ tl /\ ended c' = ended c /\
    (writable (conn c) -> e = None /\ writable (conn c')) /\
    (e = None -> n = zlen b /\ tl = []) /\ (e <> None -> n < zlen b).
Proof.
  intros Hk. revert c b sent r. induction fuel as [|f IH]; intros c b sent r Hf.
  { destruct b; [|simpl in Hf; lia]. exists c, 0, None, r, [], []. rewrite app_nil_r. simpl.
    rewrite Z.add_0_r. split_and!; try done. constructor. }
  destruct b as [|x b0].
  { exists c, 0, None, r, [], []. rewrite app_nil_r. simpl. rewrite Z.add_0_r.
    split_and!; try done. constructor. }
  set (b := x :: b0) in *.
  assert (Hb1 : 1 <= zlen b) by (unfold b; zlen_lia).
  cbn [write_loop]. change (x :: b0) with b.
  pose proof (chunkLen_range k (zlen b) r Hb1) as Hcl.
  destruct (chunkLen k (zlen b) r) as [n0 r1]. simpl in Hcl.
  set (n := if framedMaxData <? n0 then framedMaxData else n0).
  assert (Hn : 1 <= n <= zlen b /\ n <= framedMaxData)
    by (unfold n; rewrite framedMaxData_val; destruct (Z.ltb_spec 16377 n0); lia).
  destruct (take_budget (pad c)) as [t bg].
  destruct (pad_choice k t (framedMaxData - n) r1 Hk ltac:(lia)) as (p & r2 & -> & Hp).
  destruct (data_record_spec b n p r2 ltac:(lia) ltac:(lia) ltac:(lia)) as (pd & Hrec & Hpd).
  destruct (data_record b n p r2) as [out r3]. simpl in Hrec. subst out.
  destruct (Conn_Write (conn c) _) as [cn e] eqn:Ew.
  apply Conn_Write_out in Ew as (tl & Ho & Htl & Hwr).
  assert (Hln : zlen (ztake n b) = n) by (apply zlen_ztake; lia).
  destruct e as [e|].
  - exists (set_sent c cn bg), 0, (Some e), r3, [], tl. rewrite Z.add_0_r. simpl.
    rewrite ztake_le0 by lia. split_and!; try done; try lia; try constructor.
    all: naive_solver.
  - destruct (IH (set_sent c cn bg) (zdrop n b) (sent + n) r3)
      as (c' & m & e & r' & w & tl' & Heq & Hm & Hc & Ho' & He & Hw' & Hok & Hbad).
    { unfold zdrop. rewrite length_drop. simpl length in Hf |- *. lia. }
    rewrite zlen_zdrop in Hm, Hok, Hbad by lia.
    assert (Htk : ztake (n + m) b = ztake n b ++ ztake m (zdrop n b)).
    { rewrite <- (ztake_zdrop n b) at 1. rewrite ztake_app_ge, Hln by lia. do 2 f_equal. lia. }
    exists c', (n + m), e, r', (record_bytes n (ztake n b) pd ++ w), tl'.
    rewrite Heq, Z.add_assoc. cbn [set_sent conn ended] in *.
    split_and!; try done; try lia.
    + rewrite Htk. apply carries_app; [|done].
      rewrite <- Hln at 1. apply carries_one; lia.
    + rewrite Ho', Ho, (Htl eq_refl). by rewrite <- !app_assoc.
    + intros Hw. destruct (Hwr Hw). auto.
    + intros Hn0. destruct (Hok Hn0) as [-> ->]. split; [lia|done].
    + intros Hn0. specialize (Hbad Hn0). lia.
Qed.

Lemma armFiller_fields k c :
  conn (armFiller k c) = conn c /\ ended (armFiller k c) = ended c /\
  pad (armFiller k c) = pad c.
Proof. unfold armFiller. destruct (Filler k) as [[[? ?] ?] ?]. by destruct (_ <=? 0). Qed.

(** The whole [Write] on an open connection, whether its writes succeed or not. *)
Lemma Write_spec k c b now r :
  knobs_ok k -> ended c = false ->
  exists c' n e r' w tl,
    Write k c b now r = Some (c', n, e, r') /\
    0 <= n <= zlen b /\ carries w (ztake n b) /\
    c_out (conn c') = c_out (conn c) ++ w ++ tl /\ ended c' = false /\
    (writable (conn c) -> e = None /\ writable (conn c')) /\
    (e = None -> n = zlen b /\ tl = []) /\ (e <> None -> n < zlen b).
Proof.
  intros Hk He. unfold Write. rewrite He.
  set (c0 := mkFramed _ _ _ _ _ _ _ _ _ _ _).
  destruct (armFiller_fields k c0) as (Hc & Hen & _).
  destruct (write_loop_spec (length b) k (armFiller k c0) b 0 r Hk ltac:(lia))
    as (c' & n & e & r' & w & tl & Heq & Hr & Hcar & Ho & Hen' & Hw & Hok & Hbad).
  rewrite Hc in Ho, Hw. rewrite Hen in Hen'. exists c', n, e, r', w, tl.
  rewrite Heq. split_and!; try done; lia.
Qed.

Lemma Write_sends k c b now r :
  knobs_ok k -> ended c = false -> writable (conn c) ->
  exists c' r', Write k c b now r = Some (c', zlen b, None, r') /\ sends c c' b.
Proof.
  intros Hk He Hw.
  destruct (Write_spec k c b now r Hk He)
    as (c' & n & e & r' & w & tl & Heq & _ & Hcar & Ho & He' & Hwr & Hok & _).
  destruct (Hwr Hw) as [-> Hw']. destruct (Hok eq_refl) as [-> ->].
  rewrite ztake_ge in Hcar by lia. rewrite app_nil_r in Ho.
  exists c', r'. split; [done|]. exists w. by rewrite He, He'.
Qed.

Lemma marker_record k budget (room m : Z) r :
  knobs_ok k -> 0 <= room <= framedMaxData ->
  let '(t, budget') := take_budget budget in
  let '(p, r) := if (t : bool) then ShapePadLen k room r else (0, r) in
  exists pd, (AppendShapePad (record_header (2 + p) ++ put16 m) p r).1 = record_bytes m [] pd /\
    zlen pd <= room.
Proof.
  intros Hk Hr. destruct (take_budget budget) as [t b'].
  destruct (pad_choice k t room r Hk ltac:(lia)) as (p & r' & -> & Hp).
  destruct (AppendShapePad_spec (record_header (2 + p) ++ put16 m) p r') as (pd & -> & Hl); [lia|].
  exists pd. split; [|lia]. unfold record_bytes, record_header.
  rewrite Hl, zlen_nil, u16_small by (rewrite framedMaxData_val in Hr; lia).
  rewrite Z.add_0_r. simpl. by rewrite <- ?app_assoc.
Qed.

Lemma writeMarker_spec k c m r :
  knobs_ok k -> writable (conn c) ->
  exists c' r' pd, writeMarker k c m r = (c', None, r') /\
    c_out (conn c') = c_out (conn c) ++ record_bytes m [] pd /\ zlen pd <= framedMaxData /\
    ended c' = ended c /\ switched c' = switched c /\ writable (conn c').
Proof.
  intros Hk Hw. unfold writeMarker.
  pose proof (marker_record k (pad c) framedMaxData m r Hk ltac:(rewrite framedMaxData_val; lia)) as H.
  destruct (take_budget (pad c)) as [t b']. destruct (if t then _ else _) as [p r'].
  destruct H as (pd & Heq & Hl). destruct (AppendShapePad _ p r') as [out r2]. simpl in Heq. subst.
  rewrite Conn_Write_ok by done. eexists _, _, pd. cbn [set_sent conn].
  split_and!; try done. by apply with_out_writable.
Qed.

Lemma writeFiller_sends k c p r :
  knobs_ok k -> fillMin k <= p <= fillMax k -> ended c = false -> writable (conn c) ->
  exists c' r', writeFiller c p r = (c', None, r') /\ sends c c' [].
Proof.
  intros (_ & _ & _ & Hf & _) Hp He Hw. unfold writeFiller, WriteFillerRecord. rewrite He.
  destruct (AppendShapePad_spec (record_header (2 + p) ++ put16 framedFillerMarker) p r)
    as (pd & Heq & Hl); [lia|].
  destruct (AppendShapePad _ p r) as [out r']. simpl in Heq. subst out.
  rewrite Conn_Write_ok by done. eexists _, r'. split; [done|].
  exists (record_bytes framedFillerMarker [] pd). cbn [set_conn conn ended]. split_and!; try done.
  - rewrite <- (app_nil_r (record_bytes _ _ _)). constructor; [lia|constructor].
  - unfold record_bytes, record_header.
    rewrite Hl, u16_small, zlen_nil by (rewrite framedMaxData_val in Hf; lia).
    rewrite Z.add_0_r. simpl. by rewrite <- ?app_assoc.
  - intros _. by apply with_out_writable.
Qed.

Lemma fillLoop_turn_sends k c ev r :
  knobs_ok k -> ended c = false -> writable (conn c) ->
  sends c (fillLoop_turn k c ev r).1.1 [].
Proof.
  intros Hk He Hw. unfold fillLoop_turn, Filler.
  destruct (_ <=? 0); [by apply sends_refl|]. destruct ev as [|now]; [by apply sends_refl|].
  destruct (_ <? _); [by apply sends_refl|].
  assert (Hp : exists p r', (if fillMin k <? fillMax k
      then let '(d, r) := Intn (fillMax k - fillMin k + 1) r in (fillMin k + d, r)
      else (fillMin k, r)) = (p, r') /\ fillMin k <= p <= fillMax k).
  { destruct Hk as (_ & _ & _ & Hf & _). destruct (Z.ltb_spec (fillMin k) (fillMax k)).
    - pose proof (Intn_range (fillMax k - fillMin k + 1) r). destruct (Intn _ r) as [d r'].
      simpl in *. eexists _, _. split; [done|lia].
    - eexists _, _. split; [done|lia]. }
  destruct Hp as (p & r' & -> & Hp).
  destruct (writeFiller_sends k c p r' Hk Hp He Hw) as (c' & r2 & -> & Hs). done.
Qed.

(** What a sender does before it ends the stream: writes, and turns of the
    filler loop, each under the knobs in force at that moment. *)
Inductive send_op :=
| SWrite (k : ShapeKnobs) (b : list Z) (now : Z)
| SFill (k : ShapeKnobs) (ev : fillEvent).

Definition op_knobs (o : send_op) : ShapeKnobs :=
  match o with SWrite k _ _ => k | SFill k _ => k end.
Definition op_payload (o : send_op) : list Z :=
  match o with SWrite _ b _ => b | SFill _ _ => [] end.

Definition send_step (c : FramedConn) (o : send_op) (r : rng) : option (FramedConn * rng) :=
  match o with
  | SWrite k b now => '(c, _, _, r) ← Write k c b now r; Some (c, r)
  | SFill k ev => let '(c, _, r) := fillLoop_turn k c ev r in Some (c, r)
  end.

Fixpoint run_sender (c : FramedConn) (ops : list send_op) (r : rng) : option (FramedConn * rng) :=
  match ops with
  | [] => Some (c, r)
  | o :: ops => '(c, r) ← send_step c o r; run_sender c ops r
  end.

Lemma send_step_sends c o r :
  knobs_ok (op_knobs o) -> ended c = false -> writable (conn c) ->
  exists c' r', send_step c o r = Some (c', r') /\ sends c c' (op_payload o).
Proof.
  intros Hk He Hw. destruct o as [k b now|k ev]; simpl in *.
  - destruct (Write_sends k c b now r Hk He Hw) as (c' & r' & -> & ?). eauto.
  - pose proof (fillLoop_turn_sends k c ev r Hk He Hw).
    destruct (fillLoop_turn k c ev r) as [[c' ?] r']. eauto.
Qed.

Lemma run_sender_sends ops c r :
  Forall (fun o => knobs_ok (op_knobs o)) ops -> ended c = false -> writable (conn c) ->
  exists c' r', run_sender c ops r = Some (c', r') /\ sends c c' (concat (map op_payload ops)).
Proof.
  intros Hk. revert c r. induction Hk as [|o ops Ho Hk IH]; intros c r He Hw; simpl.
  { eexists _, _. split; [done|]. by apply sends_refl. }
  destruct (send_step_sends c o r Ho He Hw) as (c1 & r1 & -> & Hs).
  destruct (IH c1 r1) as (c2 & r2 & Heq & Hs2).
  { destruct Hs as (w & _ & _ & -> & _). done. }
  { destruct Hs as (w & _ & _ & _ & Hw'). auto. }
  simpl. rewrite Heq. eexists _, _. split; [done|]. by eapply sends_trans.
Qed.

Lemma EndStream_spec k c r :
  knobs_ok k -> ended c = false -> writable (conn c) ->
  exists c' r' pd, EndStream k c r = (c', None, r') /\
    c_out (conn c') = c_out (conn c) ++ record_bytes 0 [] pd /\ zlen pd <= framedMaxData /\
    ended c' = true /\ endErr c' = None.
Proof.
  intros Hk He Hw. unfold EndStream. rewrite He.
  destruct (writeMarker_spec k (set_end c true (endErr c) (switched c) (hasBatch c)) 0 r Hk Hw)
    as (c' & r' & pd & -> & Ho & Hl & _).
  eexists _, _, pd. split; [done|]. simpl. done.
Qed.

(** C1: a whole stream round trip.  Whatever sequence of writes and filler
    turns a sender performs over a connection whose writes succeed, under any
    valid knobs, the sender's loop ends, [EndStream] succeeds, and a receiver
    that reads the sent bytes with buffers of any positive sizes gets exactly
    the bytes written, in order, and then end of file; the bytes after the
    stream stay in the input for the next one. *)
Theorem framed_session_roundtrip c ops k r rcv sizes rest :
  Forall (fun o => knobs_ok (op_knobs o)) ops -> knobs_ok k ->
  ended c = false -> writable (conn c) -> c_out (conn c) = [] ->
  rbuf rcv = [] -> done_ rcv = false ->
  Forall (Z.le 1) sizes -> (length (concat (map op_payload ops)) < length sizes)%nat ->
  exists c1 r1 c2 r2, run_sender c ops r = Some (c1, r1) /\
    EndStream k c1 r1 = (c2, None, r2) /\
    (c_in (conn rcv) = c_out (conn c2) ++ rest ->
     exists rcv', read_all sizes rcv = (rcv', concat (map op_payload ops), Some EOF) /\
       done_ rcv' = true /\ c_in (conn rcv') = rest).
Proof.
  intros Hops Hk He Hw Hout Hrb Hd Hs Hlen.
  destruct (run_sender_sends ops c r Hops He Hw) as (c1 & r1 & Hrun & w & Hcar & Ho1 & He1 & Hw1).
  destruct (EndStream_spec k c1 r1 Hk ltac:(congruence) (Hw1 Hw)) as (c2 & r2 & pd & Hend & Ho2 & Hl & _).
  exists c1, r1, c2, r2. split_and!; [done..|]. intros Hin.
  destruct (read_all_pending TEnd sizes rcv (concat (map op_payload ops)) pd rest) as (rcv' & ? & ? & ? & ?);
    [|done..|eauto].
  exists w, (concat (map op_payload ops)). rewrite Hrb. split_and!; try done.
  rewrite Hin, Ho2, Ho1, Hout. by rewrite <- app_assoc.
Qed.

Definition demo_conn (inp : list Z) : Conn := mkConn inp EOF [] [] false.
Definition demo_knobs : ShapeKnobs := newShapeKnobs "2-3".
Definition demo_sender : FramedConn := NewFramedConn demo_knobs (demo_conn []) (Some 1) 0.

Lemma framed_session_roundtrip_witness :
  exists c1 r1 c2 r2 rcv',
    run_sender demo_sender [SWrite demo_knobs [1; 2; 3; 4; 5] 7] [9; 8; 7] = Some (c1, r1) /\
    EndStream demo_knobs c1 r1 = (c2, None, r2) /\
    read_all (replicate 6 2) (NewFramedConn demo_knobs (demo_conn (c_out (conn c2) ++ [])) None 0)
      = (rcv', [1; 2; 3; 4; 5], Some EOF).
Proof.
  assert (Hk : knobs_ok demo_knobs) by apply newShapeKnobs_ok.
  destruct (run_sender demo_sender [SWrite demo_knobs [1; 2; 3; 4; 5] 7] [9; 8; 7])
    as [[c1 r1]|] eqn:E1; [|vm_compute in E1; discriminate].
  destruct (EndStream demo_knobs c1 r1) as [[c2 e] r2] eqn:E2.
  destruct (framed_session_roundtrip demo_sender [SWrite demo_knobs [1; 2; 3; 4; 5] 7]
    demo_knobs [9; 8; 7] (NewFramedConn demo_knobs (demo_conn (c_out (conn c2) ++ [])) None 0)
    (replicate 6 2) []) as (c1' & r1' & c2' & r2' & H1 & H2 & H3);
    [constructor; [exact Hk|constructor]|exact Hk|reflexivity|constructor|reflexivity..
    |repeat constructor; lia|simpl; lia|].
  rewrite E1 in H1. injection H1 as <- <-. rewrite E2 in H2. injection H2 as <- -> <-.
  destruct (H3 eq_refl) as (rcv' & Hr & _). eexists _, _, _, _, _. eauto.
Defined.

(** C2: the hand-over to the raw connection.  A sender that writes and then
    calls [SwitchRaw] makes the receiver read exactly those bytes and then
    [ErrSwitchRaw]; at that moment the receiver has consumed nothing behind
    the marker, so [rest] is what the raw connection delivers next. *)
Theorem framed_switch_handoff c ops k r rcv sizes rest :
  Forall (fun o => knobs_ok (op_knobs o)) ops -> knobs_ok k ->
  ended c = false -> writable (conn c) -> c_out (conn c) = [] ->
  rbuf rcv = [] -> done_ rcv = false ->
  Forall (Z.le 1) sizes -> (length (concat (map op_payload ops)) < length sizes)%nat ->
  exists c1 r1 c2 r2, run_sender c ops r = Some (c1, r1) /\
    SwitchRaw k c1 r1 = (c2, None, r2) /\ SwitchedRaw c2 = true /\ Reusable c2 = false /\
    (c_in (conn rcv) = c_out (conn c2) ++ rest ->
     exists rcv', read_all sizes rcv = (rcv', concat (map op_payload ops), Some ErrSwitchRaw) /\
       rbuf rcv' = [] /\ c_in (conn rcv') = rest).
Proof.
  intros Hops Hk He Hw Hout Hrb Hd Hs Hlen.
  destruct (run_sender_sends ops c r Hops He Hw) as (c1 & r1 & Hrun & w & Hcar & Ho1 & He1 & Hw1).
  assert (Hsw : SwitchRaw k c1 r1 =
    writeMarker k (set_end c1 true (endErr c1) true (hasBatch c1)) framedSwitchMarker r1).
  { unfold SwitchRaw. by rewrite He1, He. }
  destruct (writeMarker_spec k (set_end c1 true (endErr c1) true (hasBatch c1))
    framedSwitchMarker r1 Hk (Hw1 Hw)) as (c2 & r2 & pd & Heq & Ho2 & Hl & He2 & Hs2 & _).
  exists c1, r1, c2, r2. rewrite Hsw. unfold SwitchedRaw, Reusable. rewrite He2, Hs2.
  split_and!; try done; [by rewrite andb_false_r|]. intros Hin.
  destruct (read_all_pending TSwitch sizes rcv (concat (map op_payload ops)) pd rest)
    as (rcv' & ? & ? & ? & ?); [|done..|eauto].
  exists w, (concat (map op_payload ops)). rewrite Hrb. split_and!; try done.
  rewrite Hin, Ho2. simpl. rewrite Ho1, Hout. by rewrite <- app_assoc.
Qed.

Lemma framed_switch_handoff_witness :
  exists c1 r1 c2 r2 rcv',
    run_sender demo_sender [SWrite demo_knobs [1; 2; 3] 7] [] = Some (c1, r1) /\
    SwitchRaw demo_knobs c1 r1 = (c2, None, r2) /\
    read_all (replicate 4 1)
      (NewFramedConn demo_knobs (demo_conn (c_out (conn c2) ++ [42; 43])) None 0)
      = (rcv', [1; 2; 3], Some ErrSwitchRaw) /\ c_in (conn rcv') = [42; 43].
Proof.
  assert (Hk : knobs_ok demo_knobs) by apply newShapeKnobs_ok.
  destruct (run_sender demo_sender [SWrite demo_knobs [1; 2; 3] 7] [])
    as [[c1 r1]|] eqn:E1; [|vm_compute in E1; discriminate].
  destruct (SwitchRaw demo_knobs c1 r1) as [[c2 e] r2] eqn:E2.
  destruct (framed_switch_handoff demo_sender [SWrite demo_knobs [1; 2; 3] 7] demo_knobs []
    (NewFramedConn demo_knobs (demo_conn (c_out (conn c2) ++ [42; 43])) None 0)
    (replicate 4 1) [42; 43]) as (c1' & r1' & c2' & r2' & H1 & H2 & _ & _ & H3);
    [constructor; [exact Hk|constructor]|exact Hk|reflexivity|constructor|reflexivity..
    |repeat constructor; lia|simpl; lia|].
  rewrite E1 in H1. injection H1 as <- <-. rewrite E2 in H2. injection H2 as <- -> <-.
  destruct (H3 eq_refl) as (rcv' & Hr & _ & ?). eexists _, _, _, _, _. eauto.
Defined.

(** [Write] on a connection that may fail at any point.  It always
    returns; the count it reports is the length of the prefix of the data that
    complete records carried; it is the whole data exactly when there is no
    error, and a closed stream takes nothing. *)
Theorem framed_write_accounts k c b now r :
  knobs_ok k ->
  exists c' n e r' w tl,
    Write k c b now r = Some (c', n, e, r') /\
    0 <= n <= zlen b /\ carries w (ztake n b) /\
    c_out (conn c') = c_out (conn c) ++ w ++ tl /\
    (e = None -> n = zlen b /\ tl = []) /\
    (e <> None -> b <> [] -> n < zlen b) /\
    (ended c = true -> n = 0 /\ e = Some ErrClosedPipe /\ c' = c).
Proof.
  intros Hk. destruct (ended c) eqn:He.
  - exists c, 0, (Some ErrClosedPipe), r, [], []. unfold Write. rewrite He, !app_nil_r, ztake_le0 by lia.
    split_and!; try done; [zlen_lia..|constructor|].
    intros _ Hb. destruct b; [done|zlen_lia].
  - destruct (Write_spec k c b now r Hk He)
      as (c' & n & e & r' & w & tl & ? & ? & ? & ? & ? & ? & ? & ?).
    exists c', n, e, r', w, tl. split_and!; auto; lia || done.
Qed.

Lemma framed_write_accounts_witness :
  exists c' r', Write demo_knobs
    (NewFramedConn demo_knobs (mkConn [] EOF [] [None; Some (4, OtherErr 1)] false) None 0)
    [1; 2; 3; 4; 5] 0 [] = Some (c', 2, Some (OtherErr 1), r').
Proof.
  assert (Hk : knobs_ok demo_knobs) by apply newShapeKnobs_ok.
  destruct (framed_write_accounts demo_knobs
    (NewFramedConn demo_knobs (mkConn [] EOF [] [None; Some (4, OtherErr 1)] false) None 0)
    [1; 2; 3; 4; 5] 0 [] Hk) as (c' & n & e & r' & w & tl & H & _).
  rewrite H. vm_compute in H. injection H as <- <- <- <-. eauto.
Defined.

(** A stream ends once.  After [EndStream] or [SwitchRaw], whatever the
    connection did, every further [Write] and filler is refused without
    touching the wire, and a repeated [EndStream] returns the first one's
    result without writing a second marker. *)
Theorem framed_ends_once k c r c' e r' :
  EndStream k c r = (c', e, r') \/ SwitchRaw k c r = (c', e, r') ->
  ended c' = true /\
  (forall k2 b now r2, Write k2 c' b now r2 = Some (c', 0, Some ErrClosedPipe, r2)) /\
  (forall p r2, writeFiller c' p r2 = (c', Some ErrClosedPipe, r2)) /\
  (forall k2 r2, EndStream k2 c' r2 = (c', endErr c', r2)) /\
  (forall k2 r2, SwitchRaw k2 c' r2 = (c', None, r2)) /\
  (ended c = false -> EndStream k c r = (c', e, r') -> endErr c' = e).
Proof.
  intros H. assert (Hend : ended c' = true).
  { destruct H as [H|H].
    - unfold EndStream in H. destruct (ended c) eqn:E; [by simplify_eq|].
      destruct (writeMarker _ _ _ _) as [[? ?] ?]. by simplify_eq.
    - unfold SwitchRaw in H. destruct (ended c) eqn:E; [by simplify_eq|].
      unfold writeMarker in H. destruct (take_budget _) as [t bg].
      destruct (if t then _ else _) as [p r1]. destruct (AppendShapePad _ p r1) as [out r2].
      destruct (Conn_Write _ out). by simplify_eq. }
  unfold Write, writeFiller, EndStream, SwitchRaw. rewrite Hend. split_and!; try done.
  intros -> HE. destruct (writeMarker _ _ _ _) as [[? ?] ?]. by simplify_eq.
Qed.

Lemma framed_ends_once_witness :
  exists c' r', EndStream demo_knobs demo_sender [] = (c', None, r') /\
    Write demo_knobs c' [1; 2] 5 [] = Some (c', 0, Some ErrClosedPipe, []).
Proof.
  destruct (EndStream demo_knobs demo_sender []) as [[c' e] r'] eqn:E.
  pose proof (framed_ends_once demo_knobs demo_sender [] c' e r' (or_introl E)) as (_ & H & _).
  exists c', r'. split; [|apply H]. vm_compute in E. injection E as <- <- <-. reflexivity.
Defined.

(** What [readRecord] does to an arbitrary input: it takes a prefix of it. *)
Lemma readRecord_loop_suffix f cn cn' res :
  readRecord_loop f cn = Some (cn', res) ->
  c_in cn' `suffix_of` c_in cn /\
  (forall d, res = inl d -> zlen d <= framedWireTarget - 2 /\
     exists a z, c_in cn = a ++ d ++ z ++ c_in cn').
Proof.
  revert cn. induction f as [|f IH]; intros cn H; [done|]. cbn [readRecord_loop] in H.
  destruct (ReadFull cn 5) as [cn1 r1] eqn:E1.
  assert (Hs1 : c_in cn1 `suffix_of` c_in cn).
  { unfold ReadFull in E1. destruct (_ <=? _); injection E1 as <- <-; simpl;
      [eexists; symmetry; apply ztake_zdrop|apply suffix_nil]. }
  destruct r1 as [hdr|e]; [|by simplify_eq].
  destruct (negb _); [by simplify_eq|]. destruct ((_ <? 2) || _) eqn:Eb; [by simplify_eq|].
  destruct (ReadFull cn1 _) as [cn2 r2] eqn:E2. bool_to_prop.
  assert (Hs2 : c_in cn2 `suffix_of` c_in cn1).
  { unfold ReadFull in E2. destruct (_ <=? _); injection E2 as <- <-; simpl;
      [eexists; symmetry; apply ztake_zdrop|apply suffix_nil]. }
  assert (Hs3 : c_in cn2 `suffix_of` c_in cn) by (by etrans).
  destruct r2 as [rec|e]; [|by simplify_eq].
  destruct (_ =? framedSwitchMarker); [by simplify_eq|].
  destruct (_ =? framedFillerMarker).
  { apply IH in H as [Hs H]. split; [by etrans|]. intros d Hd.
    destruct (H d Hd) as [? (a & z & Ha)]. split; [done|]. destruct Hs3 as [l Hl].
    exists (l ++ a), z. by rewrite Hl, Ha, <- app_assoc. }
  destruct (_ <? _) eqn:Ed; [by simplify_eq|]. simplify_eq. bool_to_prop. split; [done|].
  intros d [= <-]. apply ReadFull_shrinks in E2 as (Hin & Hlen & _); [|lia].
  split.
  - unfold zslice, ztake, zdrop, zlen in *. rewrite length_take, length_drop. lia.
  - destruct Hs1 as [l Hl].
    exists (l ++ ztake 2 rec), (zdrop (2 + get16 (zslice 0 2 rec) - 2) (zdrop 2 rec)).
    rewrite Hl, Hin. unfold zslice. rewrite <- !app_assoc. f_equal.
    rewrite !(app_assoc (ztake _ _) (zdrop _ _)), !ztake_zdrop, app_assoc, ztake_zdrop. done.
Qed.

(** Reading an arbitrary, possibly hostile, byte stream.  [readRecord]
    never runs out of its recursion bound, consumes a prefix of the input, and
    any data it returns is a contiguous piece of that prefix no longer than a
    record body. *)
Theorem framed_read_total cn :
  exists cn' res,
    readRecord_loop (S (length (c_in cn))) cn = Some (cn', res) /\ readRecord cn = (cn', res) /\
    c_in cn' `suffix_of` c_in cn /\
    (forall d, res = inl d -> zlen d <= framedWireTarget - 2 /\
       exists a z, c_in cn = a ++ d ++ z ++ c_in cn').
Proof.
  destruct (readRecord_loop_total (S (length (c_in cn))) cn) as [[cn' res] H]; [lia|].
  exists cn', res. unfold readRecord. rewrite H. split_and!; try done;
    by eapply readRecord_loop_suffix.
Qed.

(** The filler's idle time has a lower bound only.  An idle time of 2^31
    milliseconds is accepted and stored as a negative int32, and under it a
    filler turn at the very instant of a data write sends a filler record
    instead of staying idle. *)
Theorem setfiller_idle_wraps k iv lo hi :
  0 < iv <= 60000 -> 0 <= lo <= hi -> hi <= framedMaxData ->
  exists k', SetFiller k 2147483648 iv lo hi = (k', None) /\ fillIdle k' = -2147483648 /\
    forall c r, ended c = false -> writable (conn c) ->
      exists c' r', fillLoop_turn k' c (FillTimer (lastWrite c)) r = (c', true, r') /\
        c_out (conn c') <> c_out (conn c).
Proof.
  intros Hiv Hlo Hhi. unfold SetFiller. rewrite framedMaxData_val in *.
  destruct ((_ <? 0) || _ || _) eqn:E1.
  { apply orb_true_iff in E1 as [E1|E1]; [apply orb_true_iff in E1 as [E1|E1]|]; bool_to_prop; lia. }
  destruct ((lo <? 0) || _ || _) eqn:E2.
  { apply orb_true_iff in E2 as [E2|E2]; [apply orb_true_iff in E2 as [E2|E2]|]; bool_to_prop; lia. }
  eexists. split; [done|]. split; [done|]. intros c r He Hw.
  unfold fillLoop_turn, Filler. cbn [fillIdle fillInterval fillMin fillMax].
  rewrite (i32_small iv), (i32_small lo), (i32_small hi) by lia.
  destruct (Z.leb_spec iv 0); [lia|].
  destruct (Z.ltb_spec (lastWrite c - lastWrite c) (i32 2147483648 * 1000000)) as [Hx|_].
  { change (i32 2147483648) with (-2147483648) in Hx. lia. }
  destruct (if lo <? hi then _ else _) as [p r1].
  unfold writeFiller, WriteFillerRecord. rewrite He.
  destruct (AppendShapePad _ p r1) as [out r2] eqn:Ea.
  rewrite Conn_Write_ok by done. eexists _, _. split; [done|]. simpl.
  assert (Ho : exists q, out = record_header (2 + p) ++ put16 framedFillerMarker ++ q).
  { unfold AppendShapePad in Ea. destruct (p <=? 0); [|destruct (shape_pad _ p r1)]; simplify_eq;
      eexists; [by rewrite app_nil_r|by rewrite <- !app_assoc]. }
  destruct Ho as [q ->]. intros H0. apply (f_equal length) in H0.
  rewrite length_app in H0. simpl in H0. lia.
Qed.

Lemma setfiller_idle_wraps_witness :
  exists k', SetFiller demo_knobs 2147483648 1000 10 20 = (k', None) /\
    fillIdle k' = -2147483648 /\
    exists c' r', fillLoop_turn k' demo_sender (FillTimer (lastWrite demo_sender)) [] = (c', true, r').
Proof.
  destruct (setfiller_idle_wraps demo_knobs 1000 10 20) as (k' & H1 & H2 & H3);
    [lia|lia|rewrite framedMaxData_val; lia|].
  exists k'. split; [exact H1|]. split; [exact H2|].
  destruct (H3 demo_sender [] eq_refl ltac:(constructor)) as (c' & r' & H & _). eauto.
Defined.
