(* ===== verification/Fec.v ===== *)
(** Forward error correction blocks (core/protocol/quic/fec.go).

    The Reed-Solomon coder is the library github.com/klauspost/reedsolomon: its
    operations are the class [ReedSolomon] and what the code relies on of it,
    as the library documents it, the class [ReedSolomonLaws].

    Buffers come from a process-wide pool.  Their contents are overwritten
    before use, but their capacity matters: a shard is grown in place.  A
    buffer is its bytes and its capacity, the pool the list of the capacities
    it holds.  [None] results are the run-time panics of out-of-range
    indexing. *)

From S2P Require Import Prelude.

(** ** The Reed-Solomon library *)

Class ReedSolomon := {
  (** [New(k, m)] succeeds *)
  rs_New : Z -> Z -> bool;
  (** [Encode] on the k+m shards: the shards with the parity ones filled in *)
  rs_Encode : Z -> Z -> list (list Z) -> option (list (list Z));
  (** [Reconstruct] on the k+m shards, [None] for a missing one *)
  rs_Reconstruct : Z -> Z -> list (option (list Z)) -> option (list (list Z))
}.

(** [agrees s x]: the shard slot is empty or holds [x]. *)
Definition agrees (s : option (list Z)) (x : list Z) : Prop := s = None \/ s = Some x.

Definition present (s : option (list Z)) : bool := match s with Some _ => true | None => false end.
Definition count_present (ss : list (option (list Z))) : Z := zlen (List.filter present ss).

(** Documented behaviour: shards of one positive size can be encoded, which
    keeps the data shards and fills the parity ones with a function of the
    data; and from at least k of the k+m shards [Reconstruct] restores all. *)
Class ReedSolomonLaws `{ReedSolomon} := {
  rs_parity : Z -> Z -> list (list Z) -> list (list Z);
  rs_new_ok k m : 0 < k -> 0 < m -> k + m <= 256 -> rs_New k m = true;
  rs_parity_shape k m data L :
    0 < k -> 0 < m -> zlen data = k -> Forall (fun d => zlen d = L) data ->
    zlen (rs_parity k m data) = m /\ Forall (fun d => zlen d = L) (rs_parity k m data);
  rs_encode_ok k m shards L :
    0 < k -> 0 < m -> k + m <= 256 -> 0 < L ->
    zlen shards = k + m -> Forall (fun d => zlen d = L) shards ->
    rs_Encode k m shards = Some (ztake k shards ++ rs_parity k m (ztake k shards));
  rs_reconstruct_ok k m data L ss :
    0 < k -> 0 < m -> k + m <= 256 -> 0 < L ->
    zlen data = k -> Forall (fun d => zlen d = L) data ->
    Forall2 agrees ss (data ++ rs_parity k m data) -> k <= count_present ss ->
    rs_Reconstruct k m ss = Some (data ++ rs_parity k m data)
}.

(** ** Pooled buffers *)

Definition packetPoolSize : Z := 2048.

Record buffer := mkBuf { bytes : list Z; bcap : Z }.
Definition pool := list Z.

(** [getPacketBuf]: the capacity of the buffer handed out.  An empty pool
    allocates [packetPoolSize] bytes; a pooled buffer that is too small goes
    back and a fresh one of the exact size is made. *)
Definition getPacketBuf (p : pool) (size : Z) : Z * pool :=
  match p with
  | [] => if packetPoolSize <? size then (size, [packetPoolSize]) else (packetPoolSize, [])
  | c :: p' => if c <? size then (size, c :: p') else (c, p')
  end.

Definition putPacketBuf (p : pool) (c : Z) : pool :=
  if c <? packetPoolSize then p else c :: p.

(** ** The encoder *)

Record FECEncoder := mkEnc {
  e_k : Z;
  e_m : Z;
  e_shards : list (option buffer);
  e_shardSize : Z;
  e_idx : Z
}.

Definition NewFECEncoder `{ReedSolomon} (k m : Z) : option FECEncoder :=
  if rs_New k m then Some (mkEnc k m (replicate (Z.to_nat (k + m)) None) 0 0) else None.

(** The seven bytes before a shard on the wire. *)
Definition fec_header (seq k m : Z) : list Z := [255] ++ put32 seq ++ [u8 k; u8 m].

(** [head] is the headroom before the packet, as the pooled buffer had it. *)
Definition EncodeFEC (fe : FECEncoder) (p : pool) (data : list Z) (seqNum : Z) (head : list Z)
  : option (FECEncoder * pool * list Z) :=
  let rsShardLen := 2 + zlen data in
  let '(_, p) := getPacketBuf p (zlen head + 7 + rsShardLen) in
  let shard := put16 (u16 (zlen data)) ++ data in
  let buf := head ++ fec_header seqNum (e_k fe) (e_m fe) ++ shard in
  let '(c, p) := getPacketBuf p rsShardLen in
  if (e_idx fe <? 0) || (zlen (e_shards fe) <=? e_idx fe) then None
  else
    let shards := <[Z.to_nat (e_idx fe) := Some (mkBuf shard c)]> (e_shards fe) in
    let ss := if e_shardSize fe <? rsShardLen then rsShardLen else e_shardSize fe in
    Some (mkEnc (e_k fe) (e_m fe) shards ss (e_idx fe + 1), p, buf).

(** The padding loop on one data shard: grown in place within its capacity. *)
Definition pad_shard (size : Z) (s : option buffer) : option (option buffer) :=
  let b := default (mkBuf [] 0) s in
  if zlen (bytes b) <? size then
    if bcap b <? size then None
    else Some (Some (mkBuf (bytes b ++ replicate (Z.to_nat (size - zlen (bytes b))) 0) (bcap b)))
  else Some s.

Fixpoint pad_shards (size : Z) (ss : list (option buffer)) : option (list (option buffer)) :=
  match ss with
  | [] => Some []
  | s :: ss' => s' ← pad_shard size s; r ← pad_shards size ss'; Some (s' :: r)
  end.

Fixpoint get_bufs (n : nat) (p : pool) (size : Z) : list buffer * pool :=
  match n with
  | O => ([], p)
  | S n' =>
      let '(c, p) := getPacketBuf p size in
      let '(bs, p) := get_bufs n' p size in
      (mkBuf (replicate (Z.to_nat size) 0) c :: bs, p)
  end.

Fixpoint parity_packets (i : Z) (par : list (list Z)) (p : pool) (baseSeq k m : Z) (head : list Z)
  : list (list Z) * pool :=
  match par with
  | [] => ([], p)
  | d :: par' =>
      let '(_, p) := getPacketBuf p (zlen head + 7 + zlen d) in
      let '(rest, p) := parity_packets (i + 1) par' p baseSeq k m head in
      ((head ++ fec_header (u32 (baseSeq + i)) k m ++ d) :: rest, p)
  end.

Definition release_shards (ss : list (option buffer)) (p : pool) : pool :=
  fold_left (fun p s => match s with Some b => putPacketBuf p (bcap b) | None => p end) ss p.

Definition reset (fe : FECEncoder) (p : pool) : FECEncoder * pool :=
  (mkEnc (e_k fe) (e_m fe) (replicate (length (e_shards fe)) None) 0 0,
   release_shards (e_shards fe) p).

Definition shard_bytes (s : option buffer) : list Z := bytes (default (mkBuf [] 0) s).

Definition GetParityPackets `{ReedSolomon} (fe : FECEncoder) (p : pool) (baseSeq : Z) (head : list Z)
  : option (FECEncoder * pool * list (list Z)) :=
  if e_idx fe <? e_k fe then Some (fe, p, [])
  else
    padded ← pad_shards (e_shardSize fe) (ztake (e_k fe) (e_shards fe));
    let '(par, p) := get_bufs (Z.to_nat (e_m fe)) p (e_shardSize fe) in
    let shards := padded ++ map Some par in
    let fe := mkEnc (e_k fe) (e_m fe) shards (e_shardSize fe) (e_idx fe) in
    match rs_Encode (e_k fe) (e_m fe) (map shard_bytes shards) with
    | None => let '(fe, p) := reset fe p in Some (fe, p, [])
    | Some coded =>
        let '(pkts, p) := parity_packets 0 (zdrop (e_k fe) coded) p baseSeq (e_k fe) (e_m fe) head in
        let '(fe, p) := reset fe p in
        Some (fe, p, pkts)
    end.

(** ** The decoder *)

Record FECDecoder := mkDec {
  d_k : Z;
  d_m : Z;
  d_packets : gmap Z (list Z);
  d_total : Z
}.

Definition NewFECDecoder (k m : Z) : FECDecoder := mkDec k m ∅ 0.

(** The data part of the result is only set for a packet without the FEC
    marker; the second part is always [false]. *)
Definition DecodeFEC (fd : FECDecoder) (packet : list Z) : FECDecoder * option (list Z) * bool :=
  let fd := mkDec (d_k fd) (d_m fd) (d_packets fd) (d_total fd + 1) in
  if zlen packet <? 7 then (fd, None, false)
  else if negb (hd 0 packet =? 255) then (fd, Some (zdrop 7 packet), false)
  else
    let recvSeqNum := get32 (zslice 1 5 packet) in
    (mkDec (d_k fd) (d_m fd) (<[recvSeqNum := zdrop 7 packet]> (d_packets fd)) (d_total fd),
     None, false).

(** The sequence numbers of a block, on uint32. *)
Definition block_seqs (start n : Z) : list Z :=
  map (fun i => u32 (start + Z.of_nat i)) (seq 0 (Z.to_nat n)).

Definition Forget (fd : FECDecoder) (start k m : Z) : FECDecoder :=
  mkDec (d_k fd) (d_m fd)
        (foldr (fun s pk => delete s pk) (d_packets fd) (block_seqs start (k + m))) (d_total fd).

Definition max_len (ss : list (option (list Z))) : Z :=
  foldr (fun s acc => Z.max (zlen (default [] s)) acc) 0 ss.

Definition pad_to (n : Z) (d : list Z) : list Z :=
  if zlen d <? n then d ++ replicate (Z.to_nat (n - zlen d)) 0 else d.

(** The payload a restored shard holds, if its length field fits.  The upper
    bound of the slice is computed on uint16. *)
Definition shard_payload (shard : list Z) : option (list Z) :=
  if zlen shard <? 2 then None
  else
    let dataLen := get16 (zslice 0 2 shard) in
    if zlen shard <? dataLen + 2 then None else Some (zslice 2 (u16 (2 + dataLen)) shard).

Definition Reconstruct `{ReedSolomon} (fd : FECDecoder) (start k m : Z) : list (list Z) :=
  let shards := map (fun s => d_packets fd !! s) (block_seqs start (k + m)) in
  if count_present shards <? k then []
  else
    let maxLen := max_len shards in
    let shards := map (fmap (pad_to maxLen)) shards in
    if negb (rs_New k m) then []
    else
      match rs_Reconstruct k m shards with
      | None => []
      | Some full =>
          omap (fun '(s, shard) =>
                  match d_packets fd !! s with
                  | Some _ => None
                  | None => shard_payload shard
                  end)
               (zip (block_seqs start k) full)
      end.
