(* ===== verification/Datagram.v ===== *)
(** UDP over QUIC datagrams (core/protocol/quic/datagram.go): the address
    header of a datagram, the error-correcting sender and receiver, and the
    client and server ends.

    Time is nanoseconds; each call of [time.Now] is an argument.  A callback
    [deliver func([]byte)] is modelled by the list of payloads it is called
    with, in order.  A Go map is ranged over in an order the caller of the
    model gives. *)

From S2P Require Import Prelude GoIO GoStr NetIP Fec.

Definition fecK : Z := 10.
Definition fecM : Z := 4.
Definition datagramMaxProtected : Z := 1100.
Definition fecBlockWait : Z := 30000000.
Definition markerFEC : Z := 255.
Definition markerRaw : Z := 254.

(** ** The address header *)

Definition addrLen (host : string) : Z := 2 + Z.of_nat (String.length host) + 2.

(** [parseIPFast]: scans the characters before handing the name to
    [ParseIP]. *)
Fixpoint parseIPFast_scan (l : list Z) (digits colon : bool) : option (bool * bool) :=
  match l with
  | [] => Some (digits, colon)
  | c :: l' =>
      if c =? 58 then parseIPFast_scan l' digits true
      else if c =? 46 then parseIPFast_scan l' digits colon
      else if (48 <=? c) && (c <=? 57) then parseIPFast_scan l' true colon
      else if ((97 <=? c) && (c <=? 102)) || ((65 <=? c) && (c <=? 70)) then
        if negb colon then None else parseIPFast_scan l' digits colon
      else None
  end.

Definition parseIPFast (host : string) : option IP :=
  match parseIPFast_scan (bytes_of_string host) false false with
  | None => None
  | Some (digits, colon) => if negb digits && negb colon then None else ParseIP host
  end.

Definition appendAddr (b : list Z) (host : string) (port : Z) : list Z :=
  let b :=
    match parseIPFast host with
    | Some ip =>
        match To4 ip with
        | Some ip4 => b ++ [1] ++ ip4
        | None => b ++ [4] ++ default [] (To16 ip)
        end
    | None => b ++ [3; u8 (Z.of_nat (String.length host))] ++ bytes_of_string host
    end in
  b ++ put16 port.

Definition encodeAddr (host : string) (port : Z) : list Z := appendAddr [] host port.

Definition decodeAddr (b : list Z) : option (string * Z * list Z) :=
  match b with
  | [] => None
  | t :: _ =>
      if t =? 1 then
        if zlen b <? 7 then None
        else Some (IP_String (zslice 1 5 b), get16 (zslice 5 7 b), zdrop 7 b)
      else if t =? 4 then
        if zlen b <? 19 then None
        else Some (IP_String (zslice 1 17 b), get16 (zslice 17 19 b), zdrop 19 b)
      else if t =? 3 then
        if zlen b <? 2 then None
        else
          let l := nth 1 b 0 in
          if (l =? 0) || (zlen b <? 2 + l + 2) then None
          else Some (string_of_bytes (zslice 2 (2 + l) b), get16 (zslice (2 + l) (4 + l) b),
                     zdrop (4 + l) b)
      else None
  end.

Section WithRS.
Context `{RS : ReedSolomon}.

(** ** The sender *)

Record fecSender := mkSender {
  s_enc : option FECEncoder;
  s_blockStart : Z;
  s_cnt : Z;
  s_lastAt : Z
}.

Definition newRTFECSender : fecSender := mkSender (NewFECEncoder fecK fecM) 0 0 0.

(** The loop of [flushLocked]: empty shards up to the end of the block. *)
Fixpoint flush_fill (fuel : nat) (e : FECEncoder) (p : pool) (start cnt : Z)
  : option (FECEncoder * pool * Z * list (list Z)) :=
  if cnt <? fecK then
    match fuel with
    | O => None
    | S f =>
        '(e, p, pkt) ← EncodeFEC e p [] (u32 (start + cnt)) [];
        '(e, p, cnt, pkts) ← flush_fill f e p start (cnt + 1);
        Some (e, p, cnt, pkt :: pkts)
    end
  else Some (e, p, cnt, []).

(** Parity for a full block, and the move to the next one. *)
Definition close_block (s : fecSender) (e : FECEncoder) (p : pool)
  : option (fecSender * pool * list (list Z)) :=
  '(e, p, par) ← GetParityPackets e p (u32 (s_blockStart s + fecK)) [];
  Some (mkSender (Some e) (u32 (s_blockStart s + (fecK + fecM))) 0 (s_lastAt s), p, par).

Definition flushLocked (s : fecSender) (p : pool) : option (fecSender * pool * list (list Z)) :=
  if s_cnt s =? 0 then Some (s, p, [])
  else
    e ← s_enc s;
    '(e, p, _, pkts) ← flush_fill (Z.to_nat fecK) e p (s_blockStart s) (s_cnt s);
    '(s, p, par) ← close_block s e p;
    Some (s, p, pkts ++ par).

(** [encode] at the clock readings [t1] (in [time.Since]) and [t2]. *)
Definition encode (s : fecSender) (p : pool) (payload : list Z) (t1 t2 : Z)
  : option (fecSender * pool * list (list Z)) :=
  if (datagramMaxProtected <? zlen payload) || negb (bool_decide (is_Some (s_enc s))) then
    Some (s, p, [markerRaw :: payload])
  else
    '(s, p, pkts) ← (if (0 <? s_cnt s) && (fecBlockWait <=? t1 - s_lastAt s)
                     then flushLocked s p else Some (s, p, []));
    e ← s_enc s;
    let seq := u32 (s_blockStart s + s_cnt s) in
    '(e, p, pkt) ← EncodeFEC e p payload seq [];
    let s := mkSender (Some e) (s_blockStart s) (s_cnt s + 1) t2 in
    if s_cnt s =? fecK then
      '(s, p, par) ← close_block s e p;
      Some (s, p, pkts ++ [pkt] ++ par)
    else Some (s, p, pkts ++ [pkt]).

(** ** The receiver *)

Record fecReceiver := mkReceiver {
  r_dec : FECDecoder;
  r_received : gmap Z (list Z);
  r_firstAt : gmap Z Z;
  r_pending : bool
}.

Definition newRTFECReceiver : fecReceiver := mkReceiver (NewFECDecoder fecK fecM) ∅ ∅ false.

Definition ingest (r : fecReceiver) (packet : list Z) (now : Z) : fecReceiver :=
  if (zlen packet <? 9) || negb (hd 0 packet =? markerFEC) then r
  else
    let seq := get32 (zslice 1 5 packet) in
    let blockSize := fecK + fecM in
    let blockStart := (seq / blockSize) * blockSize in
    let posInBlock := seq - blockStart in
    let fresh := negb (bool_decide (is_Some (r_firstAt r !! blockStart))) in
    let firstAt := if fresh then <[blockStart := now]> (r_firstAt r) else r_firstAt r in
    let received :=
      if posInBlock <? fecK then
        let dataLen := get16 (zslice 7 9 packet) in
        if dataLen + 9 <=? zlen packet
        then <[seq := zslice 9 (9 + dataLen) packet]> (r_received r) else r_received r
      else r_received r in
    let '(dec, _, _) := DecodeFEC (r_dec r) packet in
    mkReceiver dec received firstAt (r_pending r || fresh).

(** The recovered payloads are put into the empty slots in order. *)
Fixpoint fill_missing (seqs : list Z) (rec : gmap Z (list Z)) (recovered : list (list Z))
  : gmap Z (list Z) :=
  match seqs with
  | [] => rec
  | s :: seqs' =>
      match rec !! s, recovered with
      | None, d :: ds => fill_missing seqs' (<[s := d]> rec) ds
      | _, _ => fill_missing seqs' rec recovered
      end
  end.

Definition deliverBlock (r : fecReceiver) (blockStart : Z) : fecReceiver * list (list Z) :=
  let data := block_seqs blockStart fecK in
  let missing := existsb (fun s => negb (bool_decide (is_Some (r_received r !! s)))) data in
  let received :=
    if missing then fill_missing data (r_received r) (Reconstruct (r_dec r) blockStart fecK fecM)
    else r_received r in
  let payloads :=
    omap (fun s => match received !! s with
                   | Some p => if 0 <? zlen p then Some p else None
                   | None => None
                   end) data in
  let received := foldr (fun s m => delete s m) received (block_seqs blockStart (fecK + fecM)) in
  (mkReceiver (Forget (r_dec r) blockStart fecK fecM) received (r_firstAt r) (r_pending r), payloads).

(** Whether a block is complete or has waited long enough. *)
Definition block_due (r : fecReceiver) (now : Z) (e : Z * Z) : bool :=
  let '(bs, t) := e in
  forallb (fun s => bool_decide (is_Some (r_received r !! s))) (block_seqs bs fecK)
  || (fecBlockWait <=? now - t).

Fixpoint deliver_blocks (r : fecReceiver) (due : list Z) : fecReceiver * list (list Z) :=
  match due with
  | [] => (r, [])
  | bs :: due' =>
      let '(r, ps) := deliverBlock r bs in
      let '(r, ps') := deliver_blocks r due' in
      (r, ps ++ ps')
  end.

(** [sweep], ranging over [firstAt] in the order [ord]; the boolean is the
    result (blocks are still waiting). *)
Definition sweep (r : fecReceiver) (ord : list (Z * Z)) (now : Z)
  : fecReceiver * list (list Z) * bool :=
  let due := map fst (List.filter (block_due r now) ord) in
  let firstAt := foldr (fun bs m => delete bs m) (r_firstAt r) due in
  let left := negb (bool_decide (firstAt = ∅)) in
  let '(r, ps) := deliver_blocks (mkReceiver (r_dec r) (r_received r) firstAt (r_pending r)) due in
  (r, ps, left).

Definition processIncoming (packet : list Z) (r : fecReceiver) (now : Z)
  : fecReceiver * list (list Z) :=
  match packet with
  | [] => (r, [])
  | t :: rest =>
      if t =? markerRaw then (r, [rest])
      else if t =? markerFEC then (ingest r packet now, [])
      else (r, [])
  end.

(** [SendUDP]: the datagrams handed to the QUIC connection, up to and with the
    first one it refuses ([accepts] are its answers). *)
Fixpoint send_all (pkts : list (list Z)) (accepts : list (option error))
  : list (list Z) * option error :=
  match pkts with
  | [] => ([], None)
  | pkt :: pkts' =>
      match accepts with
      | Some e :: _ => ([pkt], Some e)
      | _ => let '(sent, e) := send_all pkts' (tail accepts) in (pkt :: sent, e)
      end
  end.

Definition SendUDP (s : fecSender) (p : pool) (host : string) (port : Z) (payload : list Z)
  (t1 t2 : Z) (accepts : list (option error))
  : option (fecSender * pool * list (list Z) * option error) :=
  '(s, p, pkts) ← encode s p (appendAddr [] host port ++ payload) t1 t2;
  let '(sent, e) := send_all pkts accepts in
  Some (s, p, sent, e).

End WithRS.
