(* ===== verification/DatagramFacts.v ===== *)
(** What the datagram layer guarantees: the address header round trip, the
    sender's blocks, recovery of a block from any ten of its fourteen
    packets, and where the block numbering stops being aligned. *)

From S2P Require Import Prelude GoIO GoStr NetIP Fec Datagram.

(** ** The address header *)

Lemma app_nonempty_r {A} (a : list A) x b : a ++ x :: b <> [].
Proof. by destruct a. Qed.

Lemma IP_String_nonempty ip : zlen ip = 4 \/ zlen ip = 16 -> IP_String ip <> ""%string.
Proof.
  intros Hl. assert (Ht : IP_text ip <> []).
  { unfold IP_text. destruct (Z.eqb_spec (zlen ip) 0); [lia|].
    destruct (_ && _); [done|]. destruct (To4 ip) as [b|] eqn:E.
    - apply To4_len in E. unfold zlen in E. do 4 (destruct b as [|? b]; [simpl in E; lia|]).
      destruct b; [|simpl in E; lia]. unfold v4_text. apply app_nonempty_r.
    - assert (H16 : length ip = 16%nat).
      { unfold zlen in *. destruct Hl as [Hl|Hl]; [|lia]. unfold To4, zlen in E. by rewrite Hl in E. }
      unfold v6_text. do 16 (destruct ip as [|? ip]; [simpl in H16; lia|]).
      destruct (best_run _ _ _) as [? run]. destruct (_ =? 0)%nat; apply app_nonempty_r. }
  unfold IP_String. destruct (IP_text ip); [done|]. done.
Qed.

(** The host a receiver sees: an address in canonical text, or the name. *)
Definition canonical_host (host : string) : string :=
  match parseIPFast host with
  | Some ip => IP_String ip
  | None => host
  end.

Lemma IP_String_To4 ip b : zlen ip = 16 -> To4 ip = Some b -> IP_String b = IP_String ip.
Proof.
  intros Hl Hb. pose proof (To4_len _ _ Hb) as Hlb. unfold IP_String, IP_text.
  rewrite Hb, Hl, Hlb. simpl.
  assert (To4 b = Some b) as -> by (unfold To4; by rewrite Hlb). done.
Qed.

Lemma parseIPFast_len host ip : parseIPFast host = Some ip -> zlen ip = 16.
Proof.
  unfold parseIPFast. destruct (parseIPFast_scan _ _ _) as [[d c]|]; [|done].
  destruct (_ && _); [done|]. apply ParseIP_len.
Qed.

Lemma zslice_skip {A} (a b k : list A) i j :
  zlen a = i -> zlen b = j - i -> zslice i j (a ++ b ++ k) = b.
Proof.
  intros Ha Hb. unfold zslice. rewrite zdrop_app_exact by done. by apply ztake_app_exact.
Qed.

Lemma zslice_tail {A} (a b : list A) i j :
  zlen a = i -> zlen b = j - i -> zslice i j (a ++ b) = b.
Proof. intros. rewrite <- (app_nil_r b) at 1. by apply zslice_skip. Qed.

(** The fields of a header made of a tag part, an address part and a port. *)
Lemma header_fields (a b rest : list Z) port i j :
  zlen a = i -> zlen b = j - i -> 0 <= port < 65536 ->
  let l := (a ++ b ++ put16 port) ++ rest in
  zslice i j l = b /\ get16 (zslice j (j + 2) l) = port /\ zdrop (j + 2) l = rest /\
  zlen l = j + 2 + zlen rest.
Proof.
  intros Ha Hb Hp l. unfold l.
  assert (Hab : zlen (a ++ b) = j) by zlen_lia.
  split_and!.
  - rewrite <- !app_assoc. by apply zslice_skip.
  - rewrite <- !app_assoc, (app_assoc a b).
    rewrite (zslice_skip (a ++ b) (put16 port) rest) by (rewrite ?put16_len; lia).
    rewrite <- (app_nil_r (put16 port)). by apply get16_put16.
  - apply zdrop_app_exact. zlen_lia.
  - zlen_lia.
Qed.

(** The address header round trip.  For every port, every IP literal and
    every name of 1 to 255 bytes, decoding an encoded header followed by a
    payload gives back the host (an address in its canonical text), the port
    and the payload. *)
Theorem addr_roundtrip host port rest :
  0 <= port < 65536 ->
  (parseIPFast host = None -> 1 <= Z.of_nat (String.length host) <= 255) ->
  decodeAddr (encodeAddr host port ++ rest) = Some (canonical_host host, port, rest).
Proof.
  intros Hp Hn. unfold encodeAddr, appendAddr, canonical_host.
  destruct (parseIPFast host) as [ip|] eqn:Eip.
  - pose proof (parseIPFast_len _ _ Eip) as Hl.
    destruct (To4 ip) as [ip4|] eqn:E4.
    + pose proof (To4_len _ _ E4) as Hl4.
      destruct (header_fields [1] ip4 rest port 1 5) as (H1 & H2 & H3 & H4);
        [done|lia|done|]. unfold decodeAddr.
      rewrite <- (IP_String_To4 ip ip4) by done. simpl app in *.
      change (5 + 2) with 7 in *. rewrite H1, H2, H3, H4. simpl.
      destruct (Z.ltb_spec (7 + zlen rest) 7); [zlen_lia|done].
    + rewrite (To16_16 ip Hl). simpl default.
      destruct (header_fields [4] ip rest port 1 17) as (H1 & H2 & H3 & H4);
        [done|lia|done|]. unfold decodeAddr. simpl app in *.
      change (17 + 2) with 19 in *. rewrite H1, H2, H3, H4. simpl.
      destruct (Z.ltb_spec (19 + zlen rest) 19); [zlen_lia|done].
  - specialize (Hn eq_refl).
    rewrite u8_small by lia. set (n := Z.of_nat (String.length host)) in *.
    assert (Hb : zlen (bytes_of_string host) = n) by apply bytes_of_string_len.
    destruct (header_fields [3; n] (bytes_of_string host) rest port 2 (2 + n))
      as (H1 & H2 & H3 & H4); [done|lia|done|]. unfold decodeAddr.
    replace (2 + n + 2) with (4 + n) in H2, H3 by lia. simpl app in *. simpl nth.
    rewrite H1, H2, H3, H4, string_of_bytes_of_string. simpl.
    destruct (Z.ltb_spec (2 + n + 2 + zlen rest) 2); [zlen_lia|].
    destruct (Z.eqb_spec n 0); [lia|]. simpl.
    destruct (Z.ltb_spec (2 + n + 2 + zlen rest) (2 + n + 2)); [zlen_lia|done].
Qed.

Lemma addr_roundtrip_witness :
  decodeAddr (encodeAddr "example.org" 53 ++ [7; 8]) = Some ("example.org"%string, 53, [7; 8]) /\
  decodeAddr (encodeAddr "2001:DB8::1" 443 ++ []) = Some ("2001:db8::1"%string, 443, []).
Proof.
  split.
  - rewrite (addr_roundtrip "example.org" 53 [7; 8]); [reflexivity|lia|].
    intros _. vm_compute. split; congruence.
  - rewrite (addr_roundtrip "2001:DB8::1" 443 []); [vm_compute; reflexivity|lia|].
    intros H. vm_compute in H. discriminate.
Defined.

(** Decoding hostile bytes.  [decodeAddr] never reads past its input: the
    payload it returns is a proper suffix, the host is never empty, and on
    byte input the port is a 16-bit number. *)
Theorem decodeAddr_safe b host port rest :
  Forall is_byte b -> decodeAddr b = Some (host, port, rest) ->
  host <> ""%string /\ 0 <= port < 65536 /\
  exists hdr, b = hdr ++ rest /\ 5 <= zlen hdr <= 259.
Proof.
  intros Hb H. unfold decodeAddr in H. destruct b as [|t b0]; [done|].
  set (b := t :: b0) in *.
  assert (Hport : forall i j, 0 <= get16 (zslice i j b) < 65536).
  { intros i j. apply get16_range. apply Forall_take. by apply Forall_drop. }
  assert (Hsplit : forall n, 0 <= n <= zlen b -> exists hdr, b = hdr ++ zdrop n b /\ zlen hdr = n).
  { intros n Hn. exists (ztake n b). by rewrite ztake_zdrop, zlen_ztake. }
  assert (Hip : forall i j, zlen (zslice i j b) = 4 \/ zlen (zslice i j b) = 16 ->
            IP_String (zslice i j b) <> ""%string) by (intros; by apply IP_String_nonempty).
  assert (Hlen : forall i j, 0 <= i <= j -> j <= zlen b -> zlen (zslice i j b) = j - i).
  { intros i j ? ?. unfold zslice. rewrite zlen_ztake; [done|]. rewrite zlen_zdrop; lia. }
  destruct (t =? 1); [|destruct (t =? 4); [|destruct (t =? 3); [|done]]].
  - destruct (Z.ltb_spec (zlen b) 7); [done|]. simplify_eq.
    destruct (Hsplit 7) as (hdr & ? & ?); [lia|].
    split_and!; try apply Hport; [|exists hdr; split; [done|lia]]. apply Hip. left. apply Hlen; lia.
  - destruct (Z.ltb_spec (zlen b) 19); [done|]. simplify_eq.
    destruct (Hsplit 19) as (hdr & ? & ?); [lia|].
    split_and!; try apply Hport; [|exists hdr; split; [done|lia]]. apply Hip. right. apply Hlen; lia.
  - destruct (Z.ltb_spec (zlen b) 2); [done|].
    assert (Hl : is_byte (nth 1 b 0)).
    { destruct b0 as [|l b0]; [unfold b in *; zlen_lia|]. simpl. by inversion Hb as [|? ? ? [|? ? ?]]; subst. }
    unfold is_byte in Hl.
    destruct (_ || _) eqn:E; [done|]. bool_to_prop. simplify_eq.
    destruct (Hsplit (4 + nth 1 b 0)) as (hdr & ? & ?); [lia|].
    split_and!; try apply Hport; [|exists hdr; split; [done|lia]].
    specialize (Hlen 2 (2 + nth 1 b 0) ltac:(lia) ltac:(lia)).
    destruct (zslice 2 _ b); [rewrite zlen_nil in Hlen; lia|]. done.
Qed.

Lemma decodeAddr_safe_witness :
  exists hdr, [1; 10; 0; 0; 1; 0; 53; 9] = hdr ++ [9] /\ 5 <= zlen hdr <= 259.
Proof.
  destruct (decodeAddr_safe [1; 10; 0; 0; 1; 0; 53; 9] "10.0.0.1" 53 [9]) as (_ & _ & H).
  - repeat constructor; lia.
  - vm_compute. reflexivity.
  - exact H.
Defined.

(** ** Blocks

    The fourteen packets of a block, as a function of its first sequence
    number and its ten payloads. *)

Definition shard (d : list Z) : list Z := put16 (u16 (zlen d)) ++ d.
Definition shard_size (ps : list (list Z)) : Z := foldr (fun d acc => Z.max (2 + zlen d) acc) 0 ps.
Definition padded (ps : list (list Z)) : list (list Z) :=
  map (fun d => pad_to (shard_size ps) (shard d)) ps.
Definition data_packet (seq : Z) (d : list Z) : list Z := fec_header (u32 seq) fecK fecM ++ shard d.
Definition packet (seq : Z) (s : list Z) : list Z := fec_header (u32 seq) fecK fecM ++ s.

(** Packets with consecutive sequence numbers. *)
Fixpoint packets_from (seq : Z) (ss : list (list Z)) : list (list Z) :=
  match ss with
  | [] => []
  | s :: ss' => packet seq s :: packets_from (seq + 1) ss'
  end.

Lemma shard_len d : zlen (shard d) = 2 + zlen d.
Proof. unfold shard. zlen_lia. Qed.

Lemma shard_size_app ps qs : shard_size (ps ++ qs) = Z.max (shard_size ps) (shard_size qs).
Proof.
  induction ps as [|d ps IH]; simpl; [|rewrite IH; lia].
  assert (0 <= shard_size qs); [|lia]. clear. induction qs; simpl; [lia|]. zlen_lia.
Qed.

Lemma shard_size_ge ps d : d ∈ ps -> 2 + zlen d <= shard_size ps.
Proof. induction 1; simpl; zlen_lia. Qed.

Lemma shard_size_le ps n : 0 <= n -> Forall (fun d => zlen d <= n) ps -> 0 <= shard_size ps <= 2 + n.
Proof. induction 2; simpl; zlen_lia. Qed.

Lemma pad_to_len n d : zlen d <= n -> zlen (pad_to n d) = n.
Proof.
  intros. unfold pad_to. destruct (Z.ltb_spec (zlen d) n); [|lia].
  rewrite zlen_app, zlen_replicate; lia.
Qed.

Lemma padded_len ps : Forall (fun d => zlen d = shard_size ps) (padded ps).
Proof.
  apply Forall_forall. intros s Hs. apply list_elem_of_fmap in Hs as (d & -> & Hd).
  apply pad_to_len. rewrite shard_len. by apply shard_size_ge.
Qed.

Lemma packets_from_app seq ss ts :
  packets_from seq (ss ++ ts) = packets_from seq ss ++ packets_from (seq + zlen ss) ts.
Proof.
  revert seq. induction ss as [|s ss IH]; intros seq; simpl.
  - rewrite zlen_nil. f_equal. lia.
  - rewrite IH, zlen_cons. do 3 f_equal. lia.
Qed.

Lemma packets_from_len seq ss : length (packets_from seq ss) = length ss.
Proof. revert seq. induction ss; intros; simpl; auto. Qed.

Lemma packets_from_lookup seq ss i s :
  ss !! i = Some s -> packets_from seq ss !! i = Some (packet (seq + Z.of_nat i) s).
Proof.
  revert seq i. induction ss as [|x ss IH]; intros seq [|i] H; simplify_eq/=.
  - do 2 f_equal. lia.
  - rewrite (IH _ _ H). do 2 f_equal. lia.
Qed.

Lemma u32_add a b : u32 (u32 a + b) = u32 (a + b).
Proof. unfold u32. apply Z.add_mod_idemp_l. lia. Qed.

(** ** Pooled buffers keep a usable capacity *)

Definition pool_ok (p : pool) : Prop := Forall (Z.le packetPoolSize) p.

Lemma getPacketBuf_ok p size c p' :
  getPacketBuf p size = (c, p') -> pool_ok p ->
  pool_ok p' /\ (size <= packetPoolSize -> packetPoolSize <= c).
Proof.
  unfold getPacketBuf, pool_ok. intros H Hp. destruct p as [|c0 p0].
  - split_ifs_in H; simplify_eq; split; try done; try lia. constructor; [lia|done].
  - apply Forall_cons in Hp as [Hc Hp]. split_ifs_in H; simplify_eq; split; try done; try lia.
    by constructor.
Qed.

Lemma putPacketBuf_ok p c : pool_ok p -> pool_ok (putPacketBuf p c).
Proof. intros H. unfold putPacketBuf. split_ifs; [done|]. by constructor. Qed.

Lemma release_shards_ok ss p : pool_ok p -> pool_ok (release_shards ss p).
Proof.
  revert p. induction ss as [|s ss IH]; intros p Hp; [done|]. simpl. apply IH.
  destruct s; [by apply putPacketBuf_ok|done].
Qed.

(** ** The encoder *)

Definition shard_buf (s : option buffer) (d : list Z) : Prop :=
  exists c, packetPoolSize <= c /\ s = Some (mkBuf (shard d) c).

(** [enc_ok e ps]: the encoder holds the shards of [ps], with room to pad. *)
Definition enc_ok (e : FECEncoder) (ps : list (list Z)) : Prop :=
  e_k e = fecK /\ e_m e = fecM /\ e_shardSize e = shard_size ps /\ e_idx e = zlen ps /\
  zlen ps <= fecK /\ Forall (fun d => zlen d <= datagramMaxProtected) ps /\
  exists bs, e_shards e = bs ++ replicate (14 - length ps) None /\ Forall2 shard_buf bs ps.

Lemma shards_len e ps : enc_ok e ps -> zlen (e_shards e) = 14.
Proof.
  intros (_ & _ & _ & _ & Hl & _ & bs & -> & Hbs). apply Forall2_length in Hbs.
  unfold zlen, fecK in *. rewrite length_app, length_replicate. lia.
Qed.

Lemma EncodeFEC_ok e p ps d seq :
  enc_ok e ps -> pool_ok p -> zlen ps < fecK -> zlen d <= datagramMaxProtected ->
  exists e' p', EncodeFEC e p d (u32 seq) [] = Some (e', p', packet seq (shard d)) /\
    enc_ok e' (ps ++ [d]) /\ pool_ok p'.
Proof.
  intros He Hp Hn Hd. pose proof (shards_len e ps He) as Hl.
  destruct He as (Hk & Hm & Hss & Hi & Hle & Hps & bs & Hsh & Hbs).
  unfold EncodeFEC, packet. rewrite Hk, Hm.
  destruct (getPacketBuf p _) as [c1 p1] eqn:E1. apply getPacketBuf_ok in E1 as [Hp1 _]; [|done].
  destruct (getPacketBuf p1 _) as [c2 p2] eqn:E2. apply getPacketBuf_ok in E2 as [Hp2 Hc2]; [|done].
  specialize (Hc2 ltac:(unfold packetPoolSize, datagramMaxProtected in *; lia)).
  rewrite Hl, Hi. unfold fecK in Hn, Hle.
  assert (Hn' : (length ps < 10)%nat) by (unfold zlen in Hn; lia).
  destruct (_ || _) eqn:E; [apply orb_true_iff in E as [E|E]; bool_to_prop; zlen_lia|]. clear E.
  eexists _, p2. split; [done|]. split; [|done].
  pose proof (Forall2_length _ _ _ Hbs) as Hbl.
  split; [done|]. split; [done|]. split_and!.
  - simpl. rewrite Hss, shard_size_app. simpl. split_ifs; zlen_lia.
  - simpl. zlen_lia.
  - unfold fecK. zlen_lia.
  - apply Forall_app. auto.
  - exists (bs ++ [Some (mkBuf (shard d) c2)]). simpl. split.
    + rewrite Hsh. replace (Z.to_nat (zlen ps)) with (length bs + 0)%nat by (unfold zlen; lia).
      rewrite insert_app_r, length_app.
      replace (14 - length ps)%nat with (S (14 - (length ps + 1)))%nat by lia. simpl.
      by rewrite <- app_assoc.
    + apply Forall2_app; [done|]. constructor; [|done]. by exists c2.
Qed.

Lemma pad_shards_ok bs ps size :
  Forall2 shard_buf bs ps -> size <= packetPoolSize -> Forall (fun d => 2 + zlen d <= size) ps ->
  exists bs', pad_shards size bs = Some bs' /\
    map shard_bytes bs' = map (fun d => pad_to size (shard d)) ps.
Proof.
  intros Hbs Hs. induction Hbs as [|s d bs ps (c & Hc & ->) Hbs IH]; intros Hps; [by exists []|].
  apply Forall_cons in Hps as [Hd Hps]. destruct (IH Hps) as (bs' & Hm & Hb).
  simpl. unfold pad_shard at 1, pad_to at 1. simpl.
  destruct (Z.ltb_spec (zlen (shard d)) size).
  - destruct (Z.ltb_spec c size); [unfold packetPoolSize in *; lia|]. simpl. rewrite Hm. simpl.
    eexists. split; [done|]. simpl. by rewrite Hb.
  - simpl. rewrite Hm. simpl. eexists. split; [done|]. simpl. by rewrite Hb.
Qed.

Lemma get_bufs_ok n p size bs p' :
  get_bufs n p size = (bs, p') -> pool_ok p -> 0 <= size ->
  pool_ok p' /\ map bytes bs = replicate n (replicate (Z.to_nat size) 0).
Proof.
  revert p bs p'. induction n as [|n IH]; simpl; intros p bs p' H Hp Hs; [by simplify_eq|].
  destruct (getPacketBuf p size) as [c p1] eqn:E1. apply getPacketBuf_ok in E1 as [Hp1 _]; [|done].
  destruct (get_bufs n p1 size) as [bs1 p2] eqn:E2. simplify_eq.
  destruct (IH _ _ _ E2 Hp1 Hs) as [? Hb]. split; [done|]. simpl. by rewrite Hb.
Qed.

Lemma parity_packets_ok i par p base pk p' :
  parity_packets i par p base fecK fecM [] = (pk, p') -> pool_ok p ->
  pk = packets_from (base + i) par /\ pool_ok p'.
Proof.
  revert i p pk p'. induction par as [|d par IH]; simpl; intros i p pk p' H Hp; [by simplify_eq|].
  destruct (getPacketBuf p _) as [c p1] eqn:E1. apply getPacketBuf_ok in E1 as [Hp1 _]; [|done].
  destruct (parity_packets (i + 1) par p1 _ _ _ _) as [rest p2] eqn:E2. simplify_eq.
  destruct (IH _ _ _ _ E2 Hp1) as [-> ?]. split; [|done]. by rewrite Z.add_assoc.
Qed.

Section WithRS.
Context `{RS : ReedSolomon, !ReedSolomonLaws}.

Definition parity (ps : list (list Z)) : list (list Z) := rs_parity fecK fecM (padded ps).
Definition block_shards (ps : list (list Z)) : list (list Z) := map shard ps ++ parity ps.
Definition block_packets (start : Z) (ps : list (list Z)) : list (list Z) :=
  packets_from start (block_shards ps).

Lemma parity_shape ps :
  zlen ps = fecK ->
  zlen (parity ps) = fecM /\ Forall (fun d => zlen d = shard_size ps) (parity ps).
Proof.
  intros Hl. apply rs_parity_shape; [done|done| |apply padded_len].
  unfold padded, zlen in *. by rewrite length_map.
Qed.

Lemma GetParityPackets_ok e p ps base :
  enc_ok e ps -> pool_ok p -> zlen ps = fecK ->
  exists e' p', GetParityPackets e p (u32 base) [] =
      Some (e', p', packets_from (u32 base) (parity ps)) /\ enc_ok e' [] /\ pool_ok p'.
Proof.
  intros He Hp Hl. pose proof (shards_len e ps He) as Hsl.
  destruct He as (Hk & Hm & Hss & Hi & Hle & Hps & bs & Hsh & Hbs).
  unfold GetParityPackets. rewrite Hi, Hk, Hm, Hl, Hss.
  destruct (Z.ltb_spec fecK fecK); [lia|].
  pose proof (Forall2_length _ _ _ Hbs) as Hbl.
  assert (Htk : ztake fecK (e_shards e) = bs).
  { rewrite Hsh. apply ztake_app_exact. unfold zlen in *. lia. }
  destruct (shard_size_le ps datagramMaxProtected) as [Hs0 Hs1]; [done..|].
  destruct (pad_shards_ok bs ps (shard_size ps)) as (bs' & Hpad & Hbytes); [done| | |].
  { unfold packetPoolSize, datagramMaxProtected in *. lia. }
  { apply Forall_forall. intros d Hd. by apply shard_size_ge. }
  rewrite Htk, Hpad. cbn [mbind option_bind].
  destruct (get_bufs _ p _) as [par p1] eqn:Eg.
  apply get_bufs_ok in Eg as [Hp1 Hpar]; [|done..].
  cbn [e_k e_m].
  assert (Hmap : map shard_bytes (bs' ++ map Some par) =
                 padded ps ++ replicate 4 (replicate (Z.to_nat (shard_size ps)) 0)).
  { rewrite map_app, Hbytes, map_map. f_equal. simpl. etrans; [|exact Hpar].
    apply map_ext. by intros []. }
  assert (Hpl : zlen (padded ps) = fecK) by (unfold padded, zlen in *; by rewrite length_map).
  assert (Hpos : 0 < shard_size ps).
  { destruct ps as [|d ps]; [done|]. simpl. zlen_lia. }
  rewrite Hmap, (rs_encode_ok fecK fecM _ (shard_size ps)); try done.
  2: { unfold fecK in *. rewrite zlen_app, Hpl. reflexivity. }
  2: { apply Forall_app. split; [apply padded_len|]. apply Forall_replicate.
       rewrite zlen_replicate; lia. }
  rewrite ztake_app_exact by done. cbn [e_k e_m]. rewrite zdrop_app_exact by done.
  fold (parity ps).
  destruct (parity_packets 0 _ p1 _ _ _ _) as [pk p2] eqn:Epp.
  apply parity_packets_ok in Epp as [-> Hp2]; [|done]. rewrite Z.add_0_r.
  eexists _, _. split; [done|]. split; [|by apply release_shards_ok].
  split_and!; try done.
  exists []. split; [|done]. simpl. f_equal. rewrite length_app, length_map.
  apply (f_equal length) in Hpar. rewrite length_map, length_replicate in Hpar.
  apply (f_equal length) in Hbytes. rewrite !length_map in Hbytes.
  unfold zlen, fecK in Hl. rewrite Hpar, Hbytes. change (Z.to_nat fecM) with 4%nat.
  by replace (length ps) with 10%nat by lia.
Qed.

(** ** The sender *)

(** [sender_ok s start ps]: the sender is inside the block that starts at
    [start] and has sent the payloads [ps] of it. *)
Definition sender_ok (s : fecSender) (start : Z) (ps : list (list Z)) : Prop :=
  s_blockStart s = u32 start /\ s_cnt s = zlen ps /\ zlen ps < fecK /\
  exists e, s_enc s = Some e /\ enc_ok e ps.

Lemma packet_u32 a s : packet (u32 a) s = packet a s.
Proof. unfold packet. f_equal. f_equal. unfold u32. by rewrite Z.mod_mod. Qed.

Lemma packets_from_u32 a ss : packets_from (u32 a) ss = packets_from a ss.
Proof.
  revert a. induction ss as [|s ss IH]; intros a; simpl; [done|]. rewrite packet_u32. f_equal.
  rewrite <- IH, u32_add, IH. done.
Qed.

Lemma close_block_ok s e p start ps :
  s_blockStart s = u32 start -> enc_ok e ps -> pool_ok p -> zlen ps = fecK ->
  exists s' p', close_block s e p = Some (s', p', packets_from (start + fecK) (parity ps)) /\
    sender_ok s' (start + 14) [] /\ pool_ok p' /\ s_lastAt s' = s_lastAt s.
Proof.
  intros Hs He Hp Hl. unfold close_block. rewrite Hs, (u32_add start fecK).
  destruct (GetParityPackets_ok e p ps (start + fecK) He Hp Hl) as (e' & p' & -> & He' & Hp').
  cbn [mbind option_bind]. rewrite packets_from_u32.
  eexists _, _. split; [done|]. split; [|done]. split_and!; try done.
  - simpl. by rewrite u32_add.
  - by exists e'.
Qed.

Lemma flush_fill_ok fuel e p start ps :
  enc_ok e ps -> pool_ok p -> Z.of_nat fuel = fecK - zlen ps ->
  exists e' p', flush_fill fuel e p (u32 start) (zlen ps) =
      Some (e', p', fecK, packets_from (start + zlen ps) (replicate fuel (shard []))) /\
    enc_ok e' (ps ++ replicate fuel []) /\ pool_ok p'.
Proof.
  revert e p ps. induction fuel as [|f IH]; intros e p ps He Hp Hf; cbn [flush_fill].
  - destruct (Z.ltb_spec (zlen ps) fecK); [lia|]. exists e, p. rewrite app_nil_r.
    split_and!; try done. do 3 f_equal. lia.
  - destruct (Z.ltb_spec (zlen ps) fecK); [|lia]. rewrite u32_add.
    destruct (EncodeFEC_ok e p ps [] (start + zlen ps)) as (e1 & p1 & -> & He1 & Hp1);
      [done..|]. cbn [mbind option_bind].
    destruct (IH e1 p1 (ps ++ [[]]) He1 Hp1) as (e2 & p2 & Heq & He2 & Hp2); [zlen_lia|].
    replace (zlen (ps ++ [[]])) with (zlen ps + 1) in Heq by zlen_lia. rewrite Heq. simpl mbind.
    eexists _, _. split; [|split; [|done]].
    + cbn [replicate packets_from]. do 4 f_equal. lia.
    + by rewrite <- app_assoc in He2.
Qed.

(** The payloads of a block that is flushed early: empty ones fill it up. *)
Definition fill_block (ps : list (list Z)) : list (list Z) := ps ++ replicate (10 - length ps) [].

Lemma flushLocked_ok s p start ps :
  sender_ok s start ps -> pool_ok p -> ps <> [] ->
  exists s' p', flushLocked s p =
      Some (s', p', packets_from (start + zlen ps)
                      (drop (length ps) (block_shards (fill_block ps)))) /\
    sender_ok s' (start + 14) [] /\ pool_ok p' /\ s_lastAt s' = s_lastAt s.
Proof.
  intros (Hs & Hc & Hn & e & Henc & He) Hp Hne. unfold flushLocked. rewrite Hc, Henc, Hs.
  destruct (Z.eqb_spec (zlen ps) 0) as [Hz|_]; [by apply zlen_zero in Hz|].
  cbn [mbind option_bind].
  assert (Hfuel : exists n, (10 - length ps)%nat = n /\ Z.of_nat n = fecK - zlen ps).
  { eexists. split; [done|]. unfold zlen, fecK in *. lia. }
  destruct Hfuel as (n & Hn1 & Hn2).
  destruct (flush_fill_ok n e p start ps He Hp Hn2) as (e1 & p1 & Hff & He1 & Hp1).
  assert (Hmono : forall f e p a c res, flush_fill f e p a c = Some res ->
            forall f', (f <= f')%nat -> flush_fill f' e p a c = Some res).
  { clear. induction f as [|f IH]; intros e p a c res H f' Hf; cbn [flush_fill] in H.
    - destruct (c <? fecK) eqn:E; [done|]. destruct f'; cbn [flush_fill]; by rewrite E.
    - destruct f' as [|f']; [lia|]. cbn [flush_fill]. destruct (c <? fecK); [|done].
      destruct (EncodeFEC _ _ _ _ _) as [[[e1 p1] pk]|]; [|done]. cbn [mbind option_bind] in *.
      destruct (flush_fill f e1 p1 a (c + 1)) as [res1|] eqn:E1; [|done].
      by rewrite (IH _ _ _ _ _ E1 f') by lia. }
  rewrite (Hmono _ _ _ _ _ _ Hff (Z.to_nat fecK)) by (unfold fecK; lia).
  cbn [mbind option_bind].
  assert (Hfl : zlen (ps ++ replicate n []) = fecK).
  { rewrite zlen_app. unfold zlen at 2. rewrite length_replicate. lia. }
  destruct (close_block_ok s e1 p1 start _ Hs He1 Hp1 Hfl) as (s' & p' & -> & ? & ? & ?).
  cbn [mbind option_bind]. eexists _, _. split; [|done]. do 2 f_equal.
  unfold block_shards, fill_block. rewrite Hn1, map_app, <- app_assoc.
  replace (length ps) with (length (map shard ps)) by apply length_map.
  rewrite drop_app_length, packets_from_app. f_equal.
  - f_equal. clear. induction n; simpl; [done|]. by rewrite IHn.
  - f_equal. unfold zlen at 2. rewrite length_map, length_replicate. lia.
Qed.

Lemma encode_ok s p start ps d t1 t2 :
  sender_ok s start ps -> pool_ok p -> zlen d <= datagramMaxProtected ->
  (ps = [] \/ t1 - s_lastAt s < fecBlockWait) ->
  exists s' p', s_lastAt s' = t2 /\ pool_ok p' /\
    ((zlen ps + 1 < fecK /\ sender_ok s' start (ps ++ [d]) /\
      encode s p d t1 t2 = Some (s', p', [packet (start + zlen ps) (shard d)])) \/
     (zlen ps + 1 = fecK /\ sender_ok s' (start + 14) [] /\
      encode s p d t1 t2 = Some (s', p', packet (start + zlen ps) (shard d) ::
                                         packets_from (start + fecK) (parity (ps ++ [d]))))).
Proof.
  intros (Hs & Hc & Hn & e & Henc & He) Hp Hd Ht. unfold encode. rewrite Henc.
  destruct (Z.ltb_spec datagramMaxProtected (zlen d)); [lia|].
  rewrite bool_decide_eq_true_2 by eauto. cbn [negb orb].
  assert (Hnf : (0 <? s_cnt s) && (fecBlockWait <=? t1 - s_lastAt s) = false).
  { rewrite Hc. destruct Ht as [->|Ht]; [done|]. apply andb_false_iff. right. apply Z.leb_gt. lia. }
  rewrite Hnf. cbn [mbind option_bind]. rewrite Henc. cbn [mbind option_bind].
  rewrite Hs, Hc, u32_add.
  destruct (EncodeFEC_ok e p ps d (start + zlen ps) He Hp Hn Hd) as (e1 & p1 & -> & He1 & Hp1).
  cbn [mbind option_bind s_cnt].
  destruct (Z.eqb_spec (zlen ps + 1) fecK) as [Hl|Hl].
  - destruct (close_block_ok (mkSender (Some e1) (u32 start) (zlen ps + 1) t2) e1 p1 start
      (ps ++ [d]) eq_refl He1 Hp1) as (s' & p' & -> & ? & ? & Hla); [zlen_lia|].
    cbn [mbind option_bind]. exists s', p'. split; [done|]. split; [done|]. right. done.
  - eexists _, p1. split; [|split; [done|left; split; [lia|split; [|done]]]]; [done|].
    split_and!; simpl; try done; [zlen_lia..|]. by exists e1.
Qed.

(** ** The receiver *)

(** A block start that the sender uses before its numbering wraps. *)
Definition aligned (start : Z) : Prop := 0 <= start /\ start + 14 <= 4294967296 /\ start mod 14 = 0.

(** A block of ten payloads that fit a protected datagram. *)
Definition block_ok (ps : list (list Z)) : Prop :=
  zlen ps = fecK /\ Forall (fun d => zlen d <= datagramMaxProtected) ps.

Lemma block_shards_len ps : block_ok ps -> length (block_shards ps) = 14%nat.
Proof.
  intros [Hl _]. destruct (parity_shape ps Hl) as [Hp _]. unfold block_shards.
  rewrite length_app, length_map. unfold zlen, fecK, fecM in *. lia.
Qed.

Lemma block_shards_ge2 ps i s : block_ok ps -> block_shards ps !! i = Some s -> 2 <= zlen s.
Proof.
  intros [Hl _] Hs. destruct (parity_shape ps Hl) as [_ Hp]. unfold block_shards in Hs.
  assert (Hss : 2 <= shard_size ps).
  { destruct ps as [|d ps]; [done|]. simpl. zlen_lia. }
  apply lookup_app_Some in Hs as [Hs|[_ Hs]].
  - apply list_lookup_fmap_Some in Hs as (d & -> & _). rewrite shard_len. zlen_lia.
  - rewrite Forall_lookup in Hp. rewrite (Hp _ _ Hs). lia.
Qed.

Lemma block_of start i :
  aligned start -> (i < 14)%nat -> (start + Z.of_nat i) / 14 * 14 = start.
Proof.
  intros (_ & _ & Ha) Hi. apply Z.mod_divide in Ha as [q ->]; [|lia].
  rewrite Z.div_add_l by lia. rewrite Z.div_small by lia. lia.
Qed.

Lemma packet_fields seq s k :
  0 <= seq < 4294967296 ->
  hd 0 (packet seq s ++ k) = 255 /\ get32 (zslice 1 5 (packet seq s ++ k)) = seq /\
  zdrop 7 (packet seq s) = s /\ zlen (packet seq s) = 7 + zlen s.
Proof.
  intros Hs. unfold packet, fec_header. rewrite u32_small by done. split_and!.
  - done.
  - change ([255] ++ put32 seq ++ [u8 fecK; u8 fecM]) with ([255] ++ (put32 seq ++ [u8 fecK; u8 fecM])).
    rewrite <- !app_assoc. rewrite zslice_skip by done.
    rewrite <- (app_nil_r (put32 seq)). by apply get32_put32.
  - done.
  - zlen_lia.
Qed.

(** What the receiver holds of a block after the packets [got] (indexes, in
    any order, possibly repeated) arrived. *)
Definition holds (r : fecReceiver) (start : Z) (ps : list (list Z)) (got : list nat) : Prop :=
  (forall i, (i < 14)%nat -> d_packets (r_dec r) !! (start + Z.of_nat i) =
     if decide (i ∈ got) then block_shards ps !! i else None) /\
  (forall i, (i < 10)%nat -> r_received r !! (start + Z.of_nat i) =
     if decide (i ∈ got) then ps !! i else None).

Lemma ingest_packet r start ps i s now :
  aligned start -> block_ok ps -> block_shards ps !! i = Some s ->
  let r' := ingest r (packet (start + Z.of_nat i) s) now in
  d_packets (r_dec r') = <[start + Z.of_nat i := s]> (d_packets (r_dec r)) /\
  r_received r' = (if decide (i < 10)%nat
                   then <[start + Z.of_nat i := default [] (ps !! i)]> (r_received r)
                   else r_received r) /\
  r_firstAt r' = (match r_firstAt r !! start with
                  | Some _ => r_firstAt r | None => <[start := now]> (r_firstAt r) end).
Proof.
  intros Ha Hps Hs r'. pose proof (lookup_lt_Some _ _ _ Hs) as Hi.
  rewrite block_shards_len in Hi by done. pose proof (block_shards_ge2 _ _ _ Hps Hs) as Hs2.
  destruct (packet_fields (start + Z.of_nat i) s []) as (Hhd & Hseq & Hdrop & Hlen).
  { destruct Ha. lia. }
  rewrite app_nil_r in Hhd, Hseq.
  unfold r', ingest. rewrite Hhd, Hlen, Hseq.
  destruct (Z.ltb_spec (7 + zlen s) 9); [lia|]. change (255 =? markerFEC) with true.
  cbn [negb orb]. change (fecK + fecM) with 14. rewrite block_of by done.
  unfold DecodeFEC. rewrite Hlen, Hhd, Hseq, Hdrop.
  destruct (Z.ltb_spec (7 + zlen s) 7); [lia|]. change (255 =? 255) with true. cbn [negb r_dec d_packets r_received r_firstAt].
  split; [done|]. split.
  - replace (start + Z.of_nat i - start) with (Z.of_nat i) by lia. unfold fecK.
    destruct (decide (i < 10)%nat) as [Hi10|Hi10].
    + destruct (Z.ltb_spec (Z.of_nat i) 10); [|lia].
      destruct Hps as [Hl Hf]. unfold block_shards in Hs.
      rewrite lookup_app_l in Hs by (rewrite length_map; unfold zlen, fecK in Hl; lia).
      apply list_lookup_fmap_Some in Hs as (d & -> & Hd). rewrite Hd. simpl default.
      rewrite Forall_lookup in Hf. specialize (Hf _ _ Hd).
      assert (H16 : zlen d < 65536) by (unfold datagramMaxProtected in Hf; lia).
      unfold packet, shard. rewrite u16_small by zlen_lia.
      change (fec_header _ fecK fecM) with ([255] ++ put32 (u32 (start + Z.of_nat i)) ++ [u8 fecK; u8 fecM]).
      rewrite (zslice_skip _ (put16 (zlen d)) d 7 9) by done.
      assert (get16 (put16 (zlen d)) = zlen d) as ->
        by (rewrite <- (app_nil_r (put16 (zlen d))); apply get16_put16; zlen_lia).
      destruct (Z.leb_spec (zlen d + 9) (7 + zlen (put16 (zlen d) ++ d))); [|zlen_lia].
      f_equal. rewrite app_assoc. apply zslice_tail; zlen_lia.
    + destruct (Z.ltb_spec (Z.of_nat i) 10); [lia|done].
  - destruct (r_firstAt r !! start) eqn:E.
    + by rewrite bool_decide_eq_true_2.
    + by rewrite bool_decide_eq_false_2 by (intros [? ?]; done).
Qed.

Lemma decide_in_cons {A} (i j : nat) got (x y : A) :
  i <> j -> (if decide (j ∈ i :: got) then x else y) = if decide (j ∈ got) then x else y.
Proof.
  intros Hne. destruct (decide (j ∈ got)) as [Hin|Hin].
  - by rewrite decide_True by by right.
  - rewrite decide_False; [done|]. intros H0. inversion H0; subst; done.
Qed.

Lemma ingest_holds r start ps got i s now :
  aligned start -> block_ok ps -> block_shards ps !! i = Some s -> holds r start ps got ->
  holds (ingest r (packet (start + Z.of_nat i) s) now) start ps (i :: got).
Proof.
  intros Ha Hps Hs [Hd Hr]. pose proof (lookup_lt_Some _ _ _ Hs) as Hi.
  rewrite block_shards_len in Hi by done.
  destruct (ingest_packet r start ps i s now Ha Hps Hs) as (H1 & H2 & _).
  assert (Hps10 : length ps = 10%nat) by (destruct Hps as [Hl _]; unfold zlen, fecK in Hl; lia).
  split; intros j Hj; rewrite ?H1, ?H2.
  - destruct (decide (i = j)) as [->|Hne].
    + rewrite lookup_insert_eq, decide_True by left. done.
    + rewrite lookup_insert_ne, Hd, decide_in_cons by lia. done.
      - destruct (decide (i < 10)%nat).
    + destruct (decide (i = j)) as [->|Hne].
      * rewrite lookup_insert_eq, decide_True by left.
        destruct (lookup_lt_is_Some_2 ps j) as [d Hdj]; [lia|]. by rewrite Hdj.
      * rewrite lookup_insert_ne, Hr, decide_in_cons by lia. done.
          + rewrite Hr, decide_in_cons by lia. done.
Qed.

(** *** Recovering the missing payloads *)

Lemma block_seqs_aligned start n :
  0 <= start -> start + n <= 4294967296 ->
  block_seqs start n = map (fun i => start + Z.of_nat i) (seq 0 (Z.to_nat n)).
Proof.
  intros H0 Hn. unfold block_seqs. apply map_ext_in. intros i Hi%in_seq.
  apply u32_small. lia.
Qed.

Lemma map_seq_lookup {A} (F : nat -> option A) (l : list A) :
  (forall i, (i < length l)%nat -> F i = l !! i) -> map F (seq 0 (length l)) = map Some l.
Proof.
  revert F. induction l as [|x l IH]; intros F HF; simpl; [done|].
  rewrite (HF 0%nat) by (simpl; lia). simpl. f_equal.
  rewrite <- seq_shift, map_map. apply IH. intros i Hi. apply (HF (S i)). simpl. lia.
Qed.

Definition nonempty (d : list Z) : bool := 0 <? zlen d.

(** Picking the stored payloads of a complete block. *)
Lemma payloads_complete (m : gmap Z (list Z)) start ps :
  length ps = 10%nat -> aligned start ->
  (forall i, (i < 10)%nat -> m !! (start + Z.of_nat i) = ps !! i) ->
  omap (fun s => match m !! s with
                 | Some p => if 0 <? zlen p then Some p else None
                 | None => None end) (block_seqs start fecK) = List.filter nonempty ps.
Proof.
  intros Hl (H0 & H1 & _) Hm. rewrite block_seqs_aligned by (unfold fecK; lia).
  change (Z.to_nat fecK) with 10%nat. rewrite <- Hl.
  set (f := fun o : option (list Z) => match o with
              | Some p => if 0 <? zlen p then Some p else None | None => None end).
  assert (Hmap : map (fun s => m !! s) (map (fun i => start + Z.of_nat i) (seq 0 (length ps)))
                 = map Some ps).
  { rewrite map_map. apply map_seq_lookup. intros i Hi. apply Hm. lia. }
  assert (Hom : forall l, omap (fun s => f (m !! s)) l = omap f (map (fun s => m !! s) l)).
  { induction l as [|x l IH]; [done|]. csimpl. by rewrite IH. }
  etrans; [apply Hom|]. rewrite Hmap. clear. induction ps as [|d ps IH]; [done|]. csimpl.
  unfold nonempty at 1. destruct (0 <? zlen d); by rewrite IH.
Qed.

(** The slots the decoder sees, in order, given which packets arrived. *)
Definition slots (ps : list (list Z)) (got : list nat) : list (option (list Z)) :=
  imap (fun i s => if decide (i ∈ got) then Some s else None) (block_shards ps).

Lemma decoder_slots r start ps got :
  aligned start -> block_ok ps -> holds r start ps got ->
  map (fun s => d_packets (r_dec r) !! s) (block_seqs start (fecK + fecM)) = slots ps got.
Proof.
  intros Ha Hps [Hd _]. pose proof (block_shards_len ps Hps) as Hl.
  destruct Ha as (H0 & H1 & _). rewrite block_seqs_aligned by (unfold fecK, fecM; lia).
  change (Z.to_nat (fecK + fecM)) with 14%nat. rewrite map_map.
  apply list_eq. intros i. unfold slots. rewrite list_lookup_imap.
  destruct (decide (i < 14)%nat) as [Hi|Hi].
  - destruct (lookup_lt_is_Some_2 (block_shards ps) i) as [s Hs]; [lia|]. rewrite Hs.
    rewrite lookup_map, lookup_seq_lt by lia.
    simpl. rewrite Hd by done. rewrite Hs. by destruct (decide _).
  - rewrite (lookup_ge_None_2 (block_shards ps)) by lia. apply lookup_ge_None_2.
    rewrite length_map, length_seq. lia.
Qed.

Lemma count_present_imap (l : list (list Z)) (got : list nat) k :
  count_present (imap (fun i s => if decide ((i + k)%nat ∈ got) then Some s else None) l) =
  zlen (List.filter (fun i => bool_decide (i ∈ got)) (seq k (length l))).
Proof.
  revert k. induction l as [|x l IH]; intros k; simpl; [done|].
  unfold count_present in *. rewrite bool_decide_decide.
  specialize (IH (S k)). destruct (decide (k ∈ got)) as [Hp|Hp]; simpl.
  - rewrite !zlen_cons. f_equal. rewrite <- IH. do 2 f_equal. apply imap_ext. intros i s _.
    simpl. by rewrite Nat.add_succ_r.
  - rewrite <- IH. do 2 f_equal. apply imap_ext. intros i s _. simpl. by rewrite Nat.add_succ_r.
Qed.

Lemma count_slots ps got :
  block_ok ps -> Forall (fun i => (i < 14)%nat) got ->
  Z.of_nat (length (remove_dups got)) <= count_present (slots ps got).
Proof.
  intros Hps Hg. unfold slots.
  assert (Heq : imap (fun i s => if decide (i ∈ got) then Some s else None) (block_shards ps) =
                imap (fun i s => if decide ((i + 0)%nat ∈ got) then Some s else None) (block_shards ps)).
  { apply imap_ext. intros i s _. by rewrite Nat.add_0_r. }
  rewrite Heq, count_present_imap, block_shards_len by done.
  unfold zlen. apply inj_le. apply submseteq_length, NoDup_submseteq; [apply NoDup_remove_dups|].
  intros i Hi. rewrite elem_of_remove_dups in Hi. apply list_elem_of_In, filter_In. split.
  - rewrite Forall_forall in Hg. apply in_seq. specialize (Hg i Hi). lia.
  - by apply bool_decide_eq_true.
Qed.

Lemma max_len_spec ss L :
  (exists s, Some s ∈ ss /\ zlen s = L) ->
  (forall s, Some s ∈ ss -> zlen s <= L) -> max_len ss = L.
Proof.
  intros (s & Hin & Hs) Hle.
  assert (Hub : max_len ss <= L).
  { assert (0 <= L) by zlen_lia. clear Hin Hs s. induction ss as [|o ss IH]; simpl; [lia|].
    assert (max_len ss <= L) by (apply IH; intros s Hin; apply Hle; by right).
    destruct o as [s|]; simpl; [specialize (Hle s ltac:(left)); lia|rewrite zlen_nil; lia]. }
  assert (Hlb : L <= max_len ss); [|lia]. rewrite <- Hs. clear Hle Hub Hs.
  induction ss as [|o ss IH]; [inversion Hin|]. simpl.
  inversion Hin; subst; simpl; [lia|]. specialize (IH ltac:(done)). lia.
Qed.

Lemma shard_payload_padded n d :
  zlen d <= datagramMaxProtected -> 2 + zlen d <= n -> shard_payload (pad_to n (shard d)) = Some d.
Proof.
  intros Hd Hn. unfold shard_payload. rewrite pad_to_len by (rewrite shard_len; lia).
  assert (H16 : 0 <= zlen d < 65534) by (unfold datagramMaxProtected in Hd; zlen_lia).
  destruct (Z.ltb_spec n 2); [lia|].
  assert (exists z, pad_to n (shard d) = put16 (zlen d) ++ d ++ z) as [z ->].
  { unfold pad_to, shard. rewrite u16_small by lia. destruct (_ <? n).
    - eexists. by rewrite <- app_assoc.
    - exists []. by rewrite app_nil_r. }
  change (zslice 0 2 (put16 (zlen d) ++ d ++ z)) with (put16 (zlen d) ++ []).
  rewrite get16_put16 by lia. rewrite (u16_small (2 + zlen d)) by lia.
  destruct (Z.ltb_spec n (zlen d + 2)); [lia|].
  rewrite zslice_skip by (rewrite ?put16_len; lia). done.
Qed.

(** At least one parity packet is among the ten when a data packet is not. *)
Lemma parity_arrived got i :
  Forall (fun i => (i < 14)%nat) got -> (10 <= length (remove_dups got))%nat ->
  (i < 10)%nat -> i ∉ got -> exists j, (10 <= j < 14)%nat /\ j ∈ got.
Proof.
  intros Hg Hlen Hi Hni.
  destruct (decide (Exists (fun j => (10 <= j)%nat) got)) as [He|He].
  { apply Exists_exists in He as (j & Hj & Hge). rewrite Forall_forall in Hg. exists j.
    specialize (Hg j Hj). split; [lia|done]. }
  exfalso. assert (Hsub : remove_dups got ⊆+ List.filter (fun j => negb (j =? i)%nat) (seq 0 10)).
  { apply NoDup_submseteq; [apply NoDup_remove_dups|]. intros j Hj. rewrite elem_of_remove_dups in Hj.
    apply list_elem_of_In, filter_In. split.
    - apply in_seq. assert (~ (10 <= j)%nat); [|lia]. intros Hge. apply He.
      apply Exists_exists. eauto.
    - destruct (Nat.eqb_spec j i); [by subst|done]. }
  apply submseteq_length in Hsub.
  assert (Hc : (length (List.filter (fun j => negb (j =? i)%nat) (seq 0 10)) = 9)%nat).
  { do 10 (destruct i as [|i]; [done|]). lia. }
  lia.
Qed.

Lemma slots_max_len ps got i :
  block_ok ps -> Forall (fun i => (i < 14)%nat) got -> (10 <= length (remove_dups got))%nat ->
  (i < 10)%nat -> i ∉ got -> max_len (slots ps got) = shard_size ps.
Proof.
  intros Hps Hg Hlen Hi Hni. pose proof (block_shards_len ps Hps) as Hbl.
  destruct (parity_arrived got i Hg Hlen Hi Hni) as (j & Hj & Hjg).
  destruct Hps as [Hl Hf]. destruct (parity_shape ps Hl) as [_ Hpar].
  rewrite Forall_lookup in Hpar. apply max_len_spec.
  - destruct (lookup_lt_is_Some_2 (block_shards ps) j) as [s Hs]; [lia|]. exists s. split.
    + apply list_elem_of_lookup. exists j. unfold slots. rewrite list_lookup_imap, Hs. simpl.
      by rewrite decide_True.
    + unfold block_shards in Hs. rewrite lookup_app_r in Hs by
        (rewrite length_map; unfold zlen, fecK in Hl; lia). by apply (Hpar _ _ Hs).
  - intros s Hs. apply list_elem_of_lookup in Hs as [n Hs]. unfold slots in Hs.
    rewrite list_lookup_imap in Hs. apply fmap_Some in Hs as (s' & Hs' & Heq).
    destruct (decide (n ∈ got)); [|done]. injection Heq as <-. unfold block_shards in Hs'.
    apply lookup_app_Some in Hs' as [Hs'|[_ Hs']]; [|by rewrite (Hpar _ _ Hs')].
    apply list_lookup_fmap_Some in Hs' as (d & -> & Hd). rewrite shard_len.
    apply shard_size_ge. by eapply list_elem_of_lookup_2.
Qed.

(** Padding what arrived gives slots that agree with the coded block. *)
Lemma slots_agree ps got :
  block_ok ps ->
  Forall2 agrees (map (fmap (pad_to (shard_size ps))) (slots ps got)) (padded ps ++ parity ps).
Proof.
  intros [Hl Hf]. destruct (parity_shape ps Hl) as [_ Hpar]. rewrite Forall_lookup in Hpar.
  assert (Hpad : map (pad_to (shard_size ps)) (block_shards ps) = padded ps ++ parity ps).
  { unfold block_shards. rewrite map_app, map_map. f_equal.
    apply list_eq. intros i. rewrite lookup_map.
    destruct (parity ps !! i) as [s|] eqn:E; simpl; [|done]. f_equal.
    unfold pad_to. rewrite (Hpar _ _ E). by rewrite Z.ltb_irrefl. }
  rewrite <- Hpad. apply Forall2_same_length_lookup_2.
  { unfold slots. rewrite !length_map, length_imap. done. }
  intros i x y Hx Hy. rewrite lookup_map in Hx. rewrite lookup_map in Hy.
  unfold slots in Hx. rewrite list_lookup_imap in Hx.
  destruct (block_shards ps !! i) as [s|]; [|done]. simpl in *. simplify_eq.
  destruct (decide _); [by right|by left].
Qed.

(** The payloads of the positions for which nothing is stored. *)
Definition lost {A} (m : gmap Z A) (seqs : list Z) (vs : list (list Z)) : list (list Z) :=
  omap (fun '(s, v) => match m !! s with Some _ => None | None => Some v end) (zip seqs vs).

Lemma recovered_lost (m : gmap Z (list Z)) L seqs ps tl :
  length seqs = length ps ->
  Forall (fun d => zlen d <= datagramMaxProtected /\ 2 + zlen d <= L) ps ->
  omap (fun '(s, sh) => match m !! s with Some _ => None | None => shard_payload sh end)
       (zip seqs (map (fun d => pad_to L (shard d)) ps ++ tl)) = lost m seqs ps.
Proof.
  revert ps. induction seqs as [|s seqs IH]; intros [|d ps] Hl Hf; try done.
  apply Forall_cons in Hf as [[Hd HL] Hf]. unfold lost in *. csimpl.
  rewrite (shard_payload_padded L d) by done. rewrite IH by (simpl in Hl; auto; lia).
  by destruct (m !! s).
Qed.

Lemma fill_missing_other seqs rec ds s :
  s ∉ seqs -> fill_missing seqs rec ds !! s = rec !! s.
Proof.
  revert rec ds. induction seqs as [|t seqs IH]; intros rec ds Hs; [done|]. simpl.
  assert (Hst : s <> t /\ s ∉ seqs) by set_solver. destruct Hst as [Hne Hs'].
  destruct (rec !! t); [by apply IH|]. destruct ds; [by apply IH|].
  rewrite IH by done. by apply lookup_insert_ne.
Qed.

Lemma fill_missing_lost {A} (m : gmap Z A) seqs vs (rec : gmap Z (list Z)) :
  NoDup seqs -> length seqs = length vs ->
  (forall i s v, seqs !! i = Some s -> vs !! i = Some v ->
     (rec !! s = Some v /\ is_Some (m !! s)) \/ (rec !! s = None /\ m !! s = None)) ->
  forall i s v, seqs !! i = Some s -> vs !! i = Some v ->
    fill_missing seqs rec (lost m seqs vs) !! s = Some v.
Proof.
  revert vs rec. induction seqs as [|s0 seqs IH]; intros [|v0 vs] rec Hnd Hl Hrec i s v Hs Hv; try done.
  apply NoDup_cons in Hnd as [Hni Hnd]. unfold lost. csimpl. fold (lost m seqs vs).
  destruct (Hrec 0%nat s0 v0 eq_refl eq_refl) as [[Hr [a Ha]]|[Hr Ha]]; rewrite Hr, Ha.
  - destruct i as [|i]; simplify_eq/=.
    + by rewrite fill_missing_other.
    + eapply IH; [done|lia| |done|done]. intros j t w. apply (Hrec (S j)).
  - assert (Hne : forall j t, seqs !! j = Some t -> s0 <> t).
    { intros j t Ht ->. apply Hni. by eapply list_elem_of_lookup_2. }
    destruct i as [|i]; simplify_eq/=.
    + rewrite fill_missing_other by done. apply lookup_insert_eq.
    + eapply IH; [done|lia| |done|done]. intros j t w Ht Hw.
      rewrite lookup_insert_ne by eauto. apply (Hrec (S j)); done.
Qed.

Lemma Reconstruct_ok r start ps got i :
  aligned start -> block_ok ps -> holds r start ps got ->
  Forall (fun i => (i < 14)%nat) got -> (10 <= length (remove_dups got))%nat ->
  (i < 10)%nat -> i ∉ got ->
  Reconstruct (r_dec r) start fecK fecM = lost (d_packets (r_dec r)) (block_seqs start fecK) ps.
Proof.
  intros Ha Hps Hh Hg Hlen Hi Hni. unfold Reconstruct.
  rewrite (decoder_slots r start ps got) by done.
  pose proof (count_slots ps got Hps Hg) as Hcnt.
  destruct (Z.ltb_spec (count_present (slots ps got)) fecK); [unfold fecK in *; lia|].
  rewrite (slots_max_len ps got i) by done. rewrite rs_new_ok by done. cbn [negb].
  pose proof Hps as [Hl Hf].
  assert (Hpos : 0 < shard_size ps) by (destruct ps as [|d ps0]; [done|]; simpl; zlen_lia).
  rewrite (rs_reconstruct_ok fecK fecM (padded ps) (shard_size ps)); try done.
  - apply recovered_lost.
    + unfold block_seqs. rewrite length_map, length_seq. unfold zlen in Hl. lia.
    + rewrite Forall_forall in Hf |- *. intros d Hd. split; [by apply Hf|by apply shard_size_ge].
  - unfold padded, zlen in *. by rewrite length_map.
  - apply padded_len.
  - by apply slots_agree.
  - assert (Hcp : count_present (map (fmap (pad_to (shard_size ps))) (slots ps got)) =
                  count_present (slots ps got)); [|lia].
    generalize (slots ps got). clear. unfold count_present.
    induction l as [|[x|] l IH]; simpl; rewrite ?zlen_cons; congruence.
Qed.

(** Ten of the fourteen packets are enough: the block is delivered whole. *)
Lemma deliverBlock_ok r start ps got :
  aligned start -> block_ok ps -> holds r start ps got ->
  Forall (fun i => (i < 14)%nat) got -> (10 <= length (remove_dups got))%nat ->
  (deliverBlock r start).2 = List.filter nonempty ps.
Proof.
  intros Ha Hps Hh Hg Hlen. pose proof Hps as [Hl _]. pose proof Hh as [Hd Hr].
  assert (Hl10 : length ps = 10%nat) by (unfold zlen, fecK in Hl; lia).
  pose proof (block_shards_len ps Hps) as Hbl.
  unfold deliverBlock. cbn [snd]. apply payloads_complete; [done..|]. intros j Hj.
  assert (Hseqs : block_seqs start fecK = map (fun i => start + Z.of_nat i) (seq 0 10)).
  { destruct Ha as (H0 & H1 & _). rewrite block_seqs_aligned by (unfold fecK; lia). done. }
  destruct (existsb _ _) eqn:Em.
  - assert (Hmiss : exists i, (i < 10)%nat /\ i ∉ got).
    { apply existsb_exists in Em as (s & Hs & Hns). rewrite Hseqs in Hs.
      apply in_map_iff in Hs as (i & <- & Hi%in_seq). exists i. split; [lia|]. intros Hin.
      bool_to_prop. apply Hns. rewrite Hr, decide_True by (done || lia).
      apply lookup_lt_is_Some_2. lia. }
    destruct Hmiss as (i & Hi & Hni). rewrite (Reconstruct_ok r start ps got i) by done.
    destruct (lookup_lt_is_Some_2 ps j) as [d Hdj]; [lia|]. rewrite Hdj.
    apply fill_missing_lost with (i := j); [| | | |done].
    + rewrite Hseqs. apply NoDup_fmap_2; [|apply NoDup_seq]. intros x y. lia.
    + rewrite Hseqs, length_map, length_seq. done.
    + intros n s v Hs Hv. rewrite Hseqs, lookup_map in Hs.
      pose proof (lookup_lt_Some _ _ _ Hv) as Hn. rewrite lookup_seq_lt in Hs by lia.
      simplify_eq/=. rewrite Hr, Hd, Hv by lia. destruct (decide _); [left|by right].
      split; [done|]. apply lookup_lt_is_Some_2. lia.
    + rewrite Hseqs, lookup_map, lookup_seq_lt by lia. done.
  - rewrite Hr by done. rewrite decide_True; [done|].
    destruct (decide (j ∈ got)); [done|]. exfalso.
    assert (Hex : existsb (fun s => negb (bool_decide (is_Some (r_received r !! s)))) (block_seqs start fecK) = true).
    { apply existsb_exists. exists (start + Z.of_nat j). split.
      - rewrite Hseqs. apply in_map_iff. exists j. split; [done|]. apply in_seq. lia.
      - apply negb_true_iff, bool_decide_eq_false. rewrite Hr, decide_False by done. by intros [? ?]. }
    congruence.
Qed.

(** *** A block end to end *)

(** Encoding payloads one after the other, each with its two clock readings. *)
Fixpoint encode_all (s : fecSender) (p : pool) (xs : list (list Z * (Z * Z)))
  : option (fecSender * pool * list (list Z)) :=
  match xs with
  | [] => Some (s, p, [])
  | (d, (t1, t2)) :: xs' =>
      '(s, p, pk) ← encode s p d t1 t2;
      '(s, p, pks) ← encode_all s p xs';
      Some (s, p, pk ++ pks)
  end.

(** No pause of [fecBlockWait] between two payloads. *)
Fixpoint timely (last : Z) (xs : list (list Z * (Z * Z))) : Prop :=
  match xs with
  | [] => True
  | (_, (t1, t2)) :: xs' => t1 - last < fecBlockWait /\ timely t2 xs'
  end.

Lemma encode_all_ok xs s p start ps :
  sender_ok s start ps -> pool_ok p -> zlen ps + zlen xs = fecK -> xs <> [] ->
  Forall (fun x => zlen x.1 <= datagramMaxProtected) xs -> timely (s_lastAt s) xs ->
  exists s' p', encode_all s p xs =
      Some (s', p', packets_from (start + zlen ps)
                      (drop (length ps) (block_shards (ps ++ map fst xs)))) /\
    sender_ok s' (start + 14) [] /\ pool_ok p'.
Proof.
  revert s p ps. induction xs as [|[d [t1 t2]] xs IH]; intros s p ps Hs Hp Hl Hne Hf Ht; [done|].
  apply Forall_cons in Hf as [Hd Hf]. destruct Ht as [Ht1 Ht]. rewrite zlen_cons in Hl.
  cbn [encode_all map fst] in *.
  destruct (encode_ok s p start ps d t1 t2 Hs Hp Hd (or_intror Ht1))
    as (s1 & p1 & Hla & Hp1 & [(Hlt & Hs1 & ->)|(Heq & Hs1 & ->)]); cbn [mbind option_bind].
  - destruct xs as [|x xs0]; [rewrite zlen_nil in Hl; lia|].
    destruct (IH s1 p1 (ps ++ [d]) Hs1 Hp1) as (s2 & p2 & -> & Hs2 & Hp2);
      [zlen_lia|done|done|by rewrite Hla|].
    cbn [mbind option_bind]. exists s2, p2. split; [|done]. do 2 f_equal.
    rewrite <- (app_assoc ps [d]). cbn [app].
    assert (Hdrop : drop (length ps) (block_shards (ps ++ d :: map fst (x :: xs0))) =
      shard d :: drop (length (ps ++ [d])) (block_shards (ps ++ d :: map fst (x :: xs0)))).
    { unfold block_shards. rewrite map_app, <- app_assoc. cbn [map app].
      replace (length ps) with (length (map shard ps)) by apply length_map.
      rewrite drop_app_length. f_equal. rewrite length_app. cbn [length].
      replace (length ps) with (length (map shard ps)) by apply length_map.
      by rewrite drop_app_add. }
    rewrite Hdrop. cbn [packets_from]. f_equal. f_equal. zlen_lia.
  - assert (xs = []) as -> by (apply zlen_zero; lia). cbn [encode_all mbind option_bind].
    exists s1, p1. split; [|done]. do 2 f_equal. rewrite app_nil_r. cbn [map].
    unfold block_shards. rewrite map_app, <- app_assoc.
    replace (length ps) with (length (map shard ps)) by apply length_map.
    rewrite drop_app_length. cbn [app map packets_from]. f_equal. f_equal. lia.
Qed.

(** Packet number [a.1] of the block arrives at time [a.2]. *)
Definition arrive (pk : list (list Z)) (r : fecReceiver) (a : nat * Z) : fecReceiver :=
  (processIncoming (default [] (pk !! a.1)) r a.2).1.

Lemma arrive_ok r start ps got a :
  aligned start -> block_ok ps -> (a.1 < 14)%nat -> holds r start ps got ->
  let r' := arrive (block_packets start ps) r a in
  holds r' start ps (a.1 :: got) /\
  r_firstAt r' = (match r_firstAt r !! start with
                  | Some _ => r_firstAt r | None => <[start := a.2]> (r_firstAt r) end).
Proof.
  intros Ha Hps Hi Hh r'. destruct a as [i now]. simpl in *.
  destruct (lookup_lt_is_Some_2 (block_shards ps) i) as [s Hs];
    [rewrite block_shards_len by done; lia|].
  unfold r', arrive, block_packets. simpl. rewrite (packets_from_lookup _ _ _ _ Hs).
  cbn [default]. unfold processIncoming. cbn [packet fec_header app].
  change (255 =? markerRaw) with false. change (255 =? markerFEC) with true. cbn [fst].
  change (255 :: _) with (packet (start + Z.of_nat i) s).
  split; [by apply ingest_holds|]. by apply (ingest_packet r start ps i s now).
Qed.

Lemma arrivals_ok r start ps arr :
  aligned start -> block_ok ps -> Forall (fun a => (a.1 < 14)%nat) arr ->
  holds r start ps [] -> r_firstAt r = ∅ -> arr <> [] ->
  let r' := fold_left (arrive (block_packets start ps)) arr r in
  holds r' start ps (rev (map fst arr)) /\ exists t, r_firstAt r' = {[start := t]} /\
    head (map snd arr) = Some t.
Proof.
  intros Ha Hps Harr Hh Hf Hne r'. destruct arr as [|a arr]; [done|].
  apply Forall_cons in Harr as [Hi Harr].
  destruct (arrive_ok r start ps [] a Ha Hps Hi Hh) as [Hh1 Hf1].
  rewrite Hf, lookup_empty in Hf1. unfold r'. simpl.
  assert (Hgen : forall arr r got t, Forall (fun a => (a.1 < 14)%nat) arr -> holds r start ps got ->
    r_firstAt r = {[start := t]} ->
    holds (fold_left (arrive (block_packets start ps)) arr r) start ps (rev (map fst arr) ++ got) /\
    r_firstAt (fold_left (arrive (block_packets start ps)) arr r) = {[start := t]}).
  { clear -Ha Hps. induction arr as [|a arr IH]; intros r got t Harr Hh Hf; [done|].
    apply Forall_cons in Harr as [Hi Harr].
    destruct (arrive_ok r start ps got a Ha Hps Hi Hh) as [Hh1 Hf1].
    rewrite Hf, lookup_singleton_eq in Hf1. simpl. rewrite <- app_assoc. by apply IH. }
  destruct (Hgen arr _ _ a.2 Harr Hh1 Hf1) as [Hh2 Hf2]. split; [done|]. eauto.
Qed.

Lemma deliverBlock_clears r start s :
  s ∈ block_seqs start (fecK + fecM) ->
  r_received (deliverBlock r start).1 !! s = None /\
  d_packets (r_dec (deliverBlock r start).1) !! s = None.
Proof.
  intros Hs. unfold deliverBlock, Forget. cbn [fst r_received r_dec d_packets].
  assert (Hdel : forall A (m : gmap Z A) l, s ∈ l -> foldr (fun s m => delete s m) m l !! s = None).
  { clear. induction l as [|x l IH]; intros Hin; [inversion Hin|]. simpl.
    destruct (decide (x = s)) as [->|Hne]; [by rewrite lookup_delete_eq|].
    rewrite lookup_delete_ne by done. apply IH. inversion Hin; by subst. }
  split; by apply Hdel.
Qed.

End WithRS.

(** C3: a protected block end to end.  Ten non-empty payloads of at most 1100
    bytes sent in a row are turned into fourteen packets; if any ten of these
    (or more, in any order, with repetitions) reach a receiver that has seen
    nothing of the block, then the sweep that finds the block due delivers
    exactly the ten payloads in the order they were sent, and forgets
    everything stored for the block. *)
Theorem fec_end_to_end `{RS : ReedSolomon, !ReedSolomonLaws} s p start xs r arr t now :
  sender_ok s start [] -> pool_ok p -> aligned start ->
  zlen xs = fecK -> timely (s_lastAt s) xs ->
  Forall (fun x => 0 < zlen x.1 <= datagramMaxProtected) xs ->
  holds r start (map fst xs) [] -> r_firstAt r = ∅ ->
  Forall (fun a => (a.1 < 14)%nat) arr -> (10 <= length (remove_dups (rev (map fst arr))))%nat ->
  head (map snd arr) = Some t -> fecBlockWait <= now - t ->
  exists s' p' pk, encode_all s p xs = Some (s', p', pk) /\ length pk = 14%nat /\
    sender_ok s' (start + 14) [] /\
    let r1 := fold_left (arrive pk) arr r in
    exists r2, sweep r1 (map_to_list (r_firstAt r1)) now = (r2, map fst xs, false) /\
      forall i, (i < 14)%nat -> r_received r2 !! (start + Z.of_nat i) = None /\
                                d_packets (r_dec r2) !! (start + Z.of_nat i) = None.
Proof.
  intros Hs Hp Ha Hl Ht Hx Hh Hf Harr Hcov Hhd Hnow.
  assert (Hxs : xs <> []) by (intros ->; done).
  assert (Hps : block_ok (map fst xs)).
  { split; [unfold zlen in *; by rewrite length_map|]. apply Forall_forall. intros d Hd.
    apply list_elem_of_fmap in Hd as (x & -> & Hin). rewrite Forall_forall in Hx.
    specialize (Hx x Hin). lia. }
  destruct (encode_all_ok xs s p start []) as (s' & p' & Henc & Hs' & _); [done..| |done|].
  { eapply Forall_impl; [exact Hx|]. simpl. lia. }
  rewrite zlen_nil, Z.add_0_r in Henc. cbn [length drop app] in Henc.
  fold (block_packets start (map fst xs)) in Henc.
  assert (Hne : arr <> []) by (intros ->; simpl in Hcov; lia).
  destruct (arrivals_ok r start (map fst xs) arr Ha Hps Harr Hh Hf Hne) as (Hh1 & t' & Hf1 & Ht').
  assert (t' = t) as -> by congruence.
  exists s', p', (block_packets start (map fst xs)). split; [exact Henc|]. split.
  { unfold block_packets. rewrite packets_from_len. by apply block_shards_len. }
  split; [done|]. cbv zeta. rewrite Hf1, map_to_list_singleton.
  unfold sweep. cbn [List.filter].
  set (r1 := fold_left _ arr r) in *.
  assert (Hdue : block_due r1 now (start, t) = true).
  { simpl. apply orb_true_iff. right. by apply Z.leb_le. }
  rewrite Hdue. cbn [map fst foldr deliver_blocks]. rewrite Hf1, delete_singleton_eq.
  rewrite bool_decide_eq_true_2 by done. cbn [negb].
  set (r1' := mkReceiver _ _ _ _).
  destruct (deliverBlock r1' start) as [r2 out] eqn:Edb.
  assert (Hout : out = map fst xs).
  { pose proof (deliverBlock_ok r1' start (map fst xs) (rev (map fst arr)) Ha Hps Hh1) as Hdb.
    rewrite Edb in Hdb. cbn [snd] in Hdb. rewrite Hdb; [|by apply Forall_rev, Forall_fmap|done].
    clear -Hx. induction Hx as [|x xs Hx0 Hx IH]; [done|]. simpl. unfold nonempty at 1.
    destruct (Z.ltb_spec 0 (zlen x.1)); [by rewrite IH|lia]. }
  exists r2. rewrite app_nil_r, Hout. split; [done|]. intros i Hi.
  pose proof (deliverBlock_clears r1' start (start + Z.of_nat i)) as Hcl. rewrite Edb in Hcl.
  apply Hcl. destruct Ha as (H0 & H1 & _). rewrite block_seqs_aligned by (unfold fecK, fecM; lia).
  apply list_elem_of_fmap. exists i. split; [done|]. apply list_elem_of_In, in_seq.
  change (Z.to_nat (fecK + fecM)) with 14%nat. lia.
Qed.

(** *** A concrete code

    An erasure code on unbounded symbols: every parity symbol encodes its whole
    column, so one parity shard restores the block.  It satisfies the laws and
    makes the statement above concrete. *)

Module ColumnCode.

Definition column (data : list (list Z)) (j : nat) : list Z := map (fun d => nth j d 0) data.
Definition width (data : list (list Z)) : nat := length (hd [] data).
Definition parity_shard (data : list (list Z)) : list Z :=
  map (fun j => Z.pos (countable.encode (column data j))) (seq 0 (width data)).
Definition decode_column (z : Z) : list Z :=
  match z with Zpos q => default [] (countable.decode q) | _ => [] end.
Definition rebuild (k : nat) (par : list Z) : list (list Z) :=
  map (fun i => map (fun z => nth i (decode_column z) 0) par) (seq 0 k).

Definition parity (k m : Z) (data : list (list Z)) : list (list Z) :=
  replicate (Z.to_nat m) (parity_shard data).

(** The data shards if all are there, else rebuilt from a parity shard. *)
Definition restore (k : Z) (ss : list (option (list Z))) : list (list Z) :=
  if forallb present (ztake k ss) then map (default []) (ztake k ss)
  else rebuild (Z.to_nat k) (default [] (hd None (List.filter present (zdrop k ss)))).

End ColumnCode.

#[export] Instance column_code : ReedSolomon := {|
  rs_New := fun k m => (0 <? k) && (0 <? m) && (k + m <=? 256);
  rs_Encode := fun k m ss => Some (ztake k ss ++ ColumnCode.parity k m (ztake k ss));
  rs_Reconstruct := fun k m ss =>
    if count_present ss <? k then None
    else let data := ColumnCode.restore k ss in Some (data ++ ColumnCode.parity k m data)
|}.

Import ColumnCode.

Lemma rebuild_parity (data : list (list Z)) L :
  Forall (fun d => zlen d = L) data -> data <> [] -> rebuild (length data) (parity_shard data) = data.
Proof.
  intros Hf Hne. unfold rebuild, parity_shard.
  assert (Hw : forall d, d ∈ data -> length d = width data).
  { intros d Hd. destruct data as [|d0 data]; [done|]. rewrite Forall_forall in Hf.
    pose proof (Hf d Hd). pose proof (Hf d0 ltac:(left)). unfold width, zlen in *. simpl. lia. }
  apply list_eq. intros i. rewrite lookup_map.
  destruct (decide (i < length data)%nat) as [Hi|Hi].
  - rewrite lookup_seq_lt by done. simpl. destruct (lookup_lt_is_Some_2 data i Hi) as [d Hd].
    rewrite Hd. f_equal. rewrite map_map.
    specialize (Hw d (list_elem_of_lookup_2 _ _ _ Hd)). rewrite <- Hw.
    apply list_eq. intros j. rewrite lookup_map. destruct (decide (j < length d)%nat) as [Hj|Hj].
    + rewrite lookup_seq_lt by done. simpl. rewrite decode_encode. simpl. unfold column.
      destruct (lookup_lt_is_Some_2 d j Hj) as [x Hx]. rewrite Hx. f_equal.
      rewrite (nth_indep _ 0 ((fun d => nth j d 0) [])) by (by rewrite length_map).
      rewrite (map_nth (fun d => nth j d 0)). apply nth_lookup_Some with (d := []) in Hd. rewrite Hd.
      by apply nth_lookup_Some.
    + rewrite !lookup_ge_None_2 by (rewrite ?length_seq; lia). done.
  - rewrite !lookup_ge_None_2 by (rewrite ?length_seq; lia). done.
Qed.

Lemma restore_ok k m data L ss :
  0 < k -> zlen data = k -> Forall (fun d => zlen d = L) data ->
  Forall2 agrees ss (data ++ ColumnCode.parity k m data) -> k <= count_present ss ->
  restore k ss = data.
Proof.
  intros Hk Hl Hf Hag Hc. apply Forall2_app_inv_r in Hag as (s1 & s2 & H1 & H2 & ->).
  assert (Hl1 : zlen s1 = k) by (apply Forall2_length in H1; unfold zlen in *; lia).
  unfold restore. rewrite ztake_app_exact, zdrop_app_exact by done.
  destruct (forallb present s1) eqn:Ep.
  - clear -H1 Ep. induction H1 as [|o d s1 data Ho H1 IH]; [done|]. simpl in *.
    destruct o as [x|]; [|done]. rewrite IH by done. destruct Ho as [?|?]; simplify_eq. done.
  - assert (Hlt : (length (List.filter present s1) < length s1)%nat).
    { clear -Ep. induction s1 as [|o s1 IH]; [done|]. simpl in *. destruct o; simpl in *.
      - specialize (IH Ep). lia.
      - pose proof (List.filter_length_le present s1). lia. }
    unfold count_present in Hc. rewrite List.filter_app, zlen_app in Hc.
    assert (Hpar : exists x tl, List.filter present s2 = Some x :: tl /\ x = parity_shard data).
    { assert (Hne : List.filter present s2 <> []) by (intros E; rewrite E in Hc; unfold zlen in *; simpl in Hc; lia).
      destruct (List.filter present s2) as [|o tl] eqn:E; [done|].
      assert (Hin : In o s2 /\ present o = true) by (apply filter_In; rewrite E; by left).
      destruct Hin as [Hin Hpo]. destruct o as [x|]; [|done]. exists x, tl. split; [done|].
      apply list_elem_of_In, list_elem_of_lookup in Hin as [i Hi].
      eapply Forall2_lookup_l in H2 as (y & Hy & Hxy); [|exact Hi].
      unfold ColumnCode.parity in Hy. apply lookup_replicate in Hy as [-> _].
      by destruct Hxy as [?|?]; simplify_eq. }
    destruct Hpar as (x & tl & -> & ->). simpl.
    replace (Z.to_nat k) with (length data) by (unfold zlen in Hl; lia).
    apply rebuild_parity with (L := L); [done|]. intros ->. unfold zlen in Hl. simpl in Hl. lia.
Qed.

#[export] Instance column_code_laws : ReedSolomonLaws.
Proof.
  refine {| rs_parity := ColumnCode.parity |}.
  - intros k m Hk Hm Hkm. simpl. apply Z.ltb_lt in Hk as ->. apply Z.ltb_lt in Hm as ->.
    by apply Z.leb_le in Hkm as ->.
  - intros k m data L Hk Hm Hl Hf. unfold ColumnCode.parity. split.
    + rewrite zlen_replicate; lia.
    + apply Forall_replicate. unfold parity_shard, zlen. rewrite length_map, length_seq.
      unfold width. destruct data as [|d data]; [unfold zlen in Hl; simpl in Hl; lia|].
      by apply Forall_cons in Hf as [<- _].
  - intros. done.
  - intros k m data L ss Hk Hm Hkm HL Hl Hf Hag Hc. simpl.
    destruct (Z.ltb_spec (count_present ss) k); [lia|].
    by rewrite (restore_ok k m data L ss).
Qed.

Lemma newRTFECSender_ok `{RS : ReedSolomon, !ReedSolomonLaws} : sender_ok newRTFECSender 0 [].
Proof.
  unfold newRTFECSender, NewFECEncoder. rewrite rs_new_ok by done.
  split_and!; try done. eexists. split; [done|]. split_and!; try done. by exists [].
Qed.

Definition demo_payloads : list (list Z * (Z * Z)) :=
  map (fun i => ([Z.of_nat i + 65; Z.of_nat i], (Z.of_nat i, Z.of_nat i))) (seq 0 10).
Definition demo_arrivals : list (nat * Z) :=
  zip [12; 3; 0; 5; 9; 3; 13; 1; 2; 7; 8]%nat
      [100; 105; 110; 111; 112; 112; 113; 114; 115; 116; 117].

Lemma fec_end_to_end_witness :
  exists s' p' pk r2, encode_all newRTFECSender [] demo_payloads = Some (s', p', pk) /\
    sweep (fold_left (arrive pk) demo_arrivals newRTFECReceiver)
      (map_to_list (r_firstAt (fold_left (arrive pk) demo_arrivals newRTFECReceiver))) 30000100
    = (r2, map fst demo_payloads, false).
Proof.
  destruct (fec_end_to_end newRTFECSender [] 0 demo_payloads newRTFECReceiver demo_arrivals
              100 30000100) as (s' & p' & pk & H1 & _ & _ & r2 & H2 & _).
  - apply newRTFECSender_ok.
  - constructor.
  - vm_compute. split_and!; congruence.
  - reflexivity.
  - vm_compute. tauto.
  - repeat constructor; vm_compute; congruence.
  - split; intros i Hi; by rewrite decide_False by (by intros H; inversion H).
  - reflexivity.
  - repeat constructor; simpl; lia.
  - vm_compute. lia.
  - reflexivity.
  - vm_compute. congruence.
  - eauto 10.
Defined.

(** ** The numbering wraps out of step *)

Lemma ingest_firstAt r q s now :
  0 <= q < 4294967296 -> 2 <= zlen s ->
  r_firstAt (ingest r (packet q s) now) =
    match r_firstAt r !! (q / 14 * 14) with
    | Some _ => r_firstAt r
    | None => <[q / 14 * 14 := now]> (r_firstAt r)
    end.
Proof.
  intros Hq Hs. destruct (packet_fields q s [] Hq) as (Hhd & Hseq & _ & Hlen).
  rewrite app_nil_r in Hhd, Hseq. unfold ingest. rewrite Hhd, Hlen, Hseq.
  destruct (Z.ltb_spec (7 + zlen s) 9); [lia|]. change (255 =? markerFEC) with true.
  cbn [negb orb]. change (fecK + fecM) with 14.
  destruct (DecodeFEC _ _) as [[dec ?] ?]. cbn [r_firstAt].
  destruct (r_firstAt r !! _) eqn:E.
  - by rewrite bool_decide_eq_true_2.
  - by rewrite bool_decide_eq_false_2 by (intros [? ?]; done).
Qed.

(** Sequence numbers are uint32 and a block is fourteen of them, but 2^32
    is not a multiple of fourteen.  The block after the wrap starts at 10, and
    a receiver, which takes a packet's block from its sequence number alone,
    files its packets 3 and 4 under two different blocks, so the sender's
    blocks are no longer the receiver's. *)
Theorem fec_wrap_splits_blocks `{RS : ReedSolomon, !ReedSolomonLaws} s r s3 s4 now :
  sender_ok s (4294967292 + 14) [] -> 2 <= zlen s3 -> 2 <= zlen s4 ->
  aligned (4294967292 - 14) /\ s_blockStart s = 10 /\ s_blockStart s mod 14 <> 0 /\
  let r' := ingest (ingest r (packet (s_blockStart s + 3) s3) now)
                   (packet (s_blockStart s + 4) s4) now in
  is_Some (r_firstAt r' !! 0) /\ is_Some (r_firstAt r' !! 14).
Proof.
  intros (Hs & _) H3 H4. change (u32 (4294967292 + 14)) with 10 in Hs. rewrite Hs.
  split; [vm_compute; split_and!; congruence|]. split; [done|]. split; [done|]. cbv zeta.
  rewrite !ingest_firstAt by lia. change ((10 + 3) / 14 * 14) with 0.
  change ((10 + 4) / 14 * 14) with 14. destruct (r_firstAt r !! 0) eqn:E0.
  - destruct (r_firstAt r !! 14) eqn:E1; [eauto|]. rewrite lookup_insert_ne by lia.
    rewrite E0, lookup_insert_eq. eauto.
  - rewrite (lookup_insert_ne _ 0 14) by lia. destruct (r_firstAt r !! 14) eqn:E1.
    + rewrite lookup_insert_eq, lookup_insert_ne by lia. rewrite E1. eauto.
    + rewrite lookup_insert_ne, !lookup_insert_eq by lia. eauto.
Qed.

Lemma fec_wrap_splits_blocks_witness :
  exists s : fecSender, sender_ok s (4294967292 + 14) [] /\ s_blockStart s = 10.
Proof.
  destruct newRTFECSender_ok as (_ & Hc & Hl & e & He & Hok).
  exists (mkSender (s_enc newRTFECSender) 10 0 0).
  assert (Hs : sender_ok (mkSender (s_enc newRTFECSender) 10 0 0) (4294967292 + 14) []).
  { split_and!; try done. by exists e. }
  split; [exact Hs|].
  destruct (fec_wrap_splits_blocks _ newRTFECReceiver [0; 0] [0; 0] 0 Hs) as (_ & H & _);
    [vm_compute; congruence..|exact H].
Defined.
