(* ===== verification/KeyLimits.v ===== *)
(** The per-key admission control of core/keylimits/keylimits.go: the session
    table, the burst windows, the closers, and every operation of [Manager].

    Time is [Z] nanoseconds; each operation that calls [time.Now] takes the
    values it returned.  [Sub] saturates at the ends of [Duration], which no
    comparison below can see.  A [func()] registered as a closer is named by a
    [Z]; an operation that runs closers returns the list it runs, in order.
    The order in which [range] visits a map is an argument. *)

From S2P Require Import Prelude GoStr.

Module KeyLimits.

Inductive DenyReason :=
  | ReasonNone | ReasonActiveCap | ReasonGlobalCap | ReasonSoftIPCap | ReasonRateLimit.

#[global] Instance DenyReason_eq_dec : EqDecision DenyReason.
Proof. solve_decision. Defined.

Record Limits := mkLimits {
  MaxActiveSessions : Z;
  GlobalCap : Z;
  SoftIPCap : Z;
  BurstPerMinute : Z;
  SessionTTL : Z
}.

Record Session := mkSession {
  SessionID : string;
  RemoteIP : string;
  StartedAt : Z;
  LastSeen : Z;
  IsTorrent : bool
}.

Record burstWindow := mkBurst { since : Z; count : Z }.

Definition closer := Z.

Record Manager := mkManager {
  defaultLimits : Limits;
  keyLimits : gmap string Limits;
  sessions : gmap string (gmap string Session);
  burst : gmap string burstWindow;
  totalSessions : Z;
  closers : gmap string (gmap string closer)
}.

(** A two-level map read as one map from pairs. *)
Definition flatten {A} (t : gmap string (gmap string A)) : gmap (string * string) A :=
  map_uncurry (M1 := gmap string) (M2 := gmap string) t.

(** [if len(km) == 0 { delete(t, k) }], after the inner map became [km]. *)
Definition put_inner {A} (k : string) (km : gmap string A) (t : gmap string (gmap string A))
  : gmap string (gmap string A) :=
  if Nat.eqb (size km) 0 then delete k t else <[k := km]> t.

Definition Minute : Z := 60000000000.

Definition with_sessions (m : Manager) (s : gmap string (gmap string Session)) : Manager :=
  mkManager (defaultLimits m) (keyLimits m) s (burst m) (totalSessions m) (closers m).
Definition with_burst (m : Manager) (b : gmap string burstWindow) : Manager :=
  mkManager (defaultLimits m) (keyLimits m) (sessions m) b (totalSessions m) (closers m).
Definition with_closers (m : Manager) (c : gmap string (gmap string closer)) : Manager :=
  mkManager (defaultLimits m) (keyLimits m) (sessions m) (burst m) (totalSessions m) c.
(** [m.totalSessions.Add(d)] on an [atomic.Int64]. *)
Definition total_add (m : Manager) (d : Z) : Manager :=
  mkManager (defaultLimits m) (keyLimits m) (sessions m) (burst m)
            (i64 (totalSessions m + d)) (closers m).

Definition New (defaults : Limits) : Manager := mkManager defaults ∅ ∅ ∅ 0 ∅.

Definition SetLimits (keyID : string) (l : Limits) (m : Manager) : Manager :=
  mkManager (defaultLimits m) (<[keyID := l]> (keyLimits m)) (sessions m) (burst m)
            (totalSessions m) (closers m).
Definition ClearLimits (keyID : string) (m : Manager) : Manager :=
  mkManager (defaultLimits m) (delete keyID (keyLimits m)) (sessions m) (burst m)
            (totalSessions m) (closers m).
Definition SetDefault (l : Limits) (m : Manager) : Manager :=
  mkManager l (keyLimits m) (sessions m) (burst m) (totalSessions m) (closers m).

Definition limitsFor (m : Manager) (keyID : string) : Limits :=
  match keyLimits m !! keyID with
  | Some l => l
  | None => defaultLimits m
  end.

Definition deleteSession (m : Manager) (keyID sessionID : string) : Manager * bool :=
  match sessions m !! keyID with
  | None => (m, false)
  | Some km =>
      match km !! sessionID with
      | None => (m, false)
      | Some _ =>
          (with_sessions m (put_inner keyID (delete sessionID km) (sessions m)), true)
      end
  end.

Definition normalCount (km : gmap string Session) : Z :=
  map_fold (fun _ s n => if IsTorrent s then n else n + 1) 0 km.

Definition seen_ips (km : gmap string Session) : gset string :=
  map_fold (fun _ s seen => {[RemoteIP s]} ∪ seen) ∅ km.
Definition countUniqueIPs (km : gmap string Session) (adding : string) : Z :=
  Z.of_nat (size ({[adding]} ∪ seen_ips km)).

(** The burst window of [Admit]: [None] when the key is over its rate. *)
Definition admit_burst (m : Manager) (l : Limits) (keyID : string) (now : Z) : Manager * bool :=
  if 0 <? BurstPerMinute l then
    let '(m1, bw) :=
      match burst m !! keyID with
      | Some bw =>
          if now - since bw >? Minute
          then (with_burst m (<[keyID := mkBurst now 0]> (burst m)), mkBurst now 0)
          else (m, bw)
      | None => (with_burst m (<[keyID := mkBurst now 0]> (burst m)), mkBurst now 0)
      end in
    if BurstPerMinute l <=? count bw then (m1, false)
    else (with_burst m1 (<[keyID := mkBurst (since bw) (count bw + 1)]> (burst m1)), true)
  else (m, true).

(** [Admit]; [now1], [now2], [now3] are its three readings of the clock.  The
    second result is the message for the client. *)
Definition Admit (m : Manager) (keyID sessionID remoteIP : string) (now1 now2 now3 : Z)
  : Manager * (DenyReason * string) :=
  let l := limitsFor m keyID in
  let '(m1, ok) := admit_burst m l keyID now1 in
  if negb ok then
    (m1, (ReasonRateLimit, "too many reconnects in the last minute — wait and try again"%string))
  else
    let cap := GlobalCap (defaultLimits m1) in
    if (0 <? cap) && (cap <=? totalSessions m1) then
      (m1, (ReasonGlobalCap,
        String.append "Server connection limit reached ("
          (String.append (Itoa cap) "). Try again later.")))
    else
      let '(m2, km) :=
        match sessions m1 !! keyID with
        | Some km => (m1, km)
        | None => (with_sessions m1 (<[keyID := ∅]> (sessions m1)), ∅)
        end in
      if (0 <? MaxActiveSessions l) && (MaxActiveSessions l <=? normalCount km) then
        (m2, (ReasonActiveCap,
          String.append "Too many simultaneous connections from this key ("
            (String.append (Itoa (MaxActiveSessions l))
               "). Close some tabs or applications and retry.")))
      else
        let unique := countUniqueIPs km remoteIP in
        if (0 <? SoftIPCap l) && (SoftIPCap l <? unique) then
          (m2, (ReasonSoftIPCap,
            String.append "IP limit exceeded ("
              (String.append (Itoa unique)
                (String.append " > "
                  (String.append (Itoa (SoftIPCap l))
                     "); you will have to wait until someone disconnects.")))))
        else
          let s := mkSession sessionID remoteIP now2 now3 false in
          (total_add (with_sessions m2 (<[keyID := <[sessionID := s]> km]> (sessions m2))) 1,
           (ReasonNone, EmptyString)).

(** The in-place update of a session found in the table. *)
Definition update_session (m : Manager) (keyID sessionID : string) (f : Session -> Session)
  : Manager :=
  match sessions m !! keyID with
  | Some km =>
      match km !! sessionID with
      | Some s => with_sessions m (<[keyID := <[sessionID := f s]> km]> (sessions m))
      | None => m
      end
  | None => m
  end.

Definition MarkTorrent (m : Manager) (keyID sessionID : string) : Manager :=
  update_session m keyID sessionID
    (fun s => mkSession (SessionID s) (RemoteIP s) (StartedAt s) (LastSeen s) true).
Definition Touch (m : Manager) (keyID sessionID : string) (now : Z) : Manager :=
  update_session m keyID sessionID
    (fun s => mkSession (SessionID s) (RemoteIP s) (StartedAt s) now (IsTorrent s)).

(** Removing a closer, the inner map dropped when it is (or becomes) empty. *)
Definition drop_closer (c : gmap string (gmap string closer)) (keyID sessionID : string)
  : gmap string (gmap string closer) :=
  match c !! keyID with
  | Some km => put_inner keyID (delete sessionID km) c
  | None => c
  end.

(** [Release]: its three atomic parts and their sequence. *)
Definition release_closer (m : Manager) (keyID sessionID : string) : Manager :=
  with_closers m (drop_closer (closers m) keyID sessionID).
Definition Release (m : Manager) (keyID sessionID : string) : Manager :=
  let '(m1, deleted) := deleteSession m keyID sessionID in
  let m2 := if deleted then total_add m1 (-1) else m1 in
  release_closer m2 keyID sessionID.

Definition RegisterCloser (m : Manager) (keyID sessionID : string) (fn : closer) : Manager :=
  let km := default ∅ (closers m !! keyID) in
  with_closers m (<[keyID := <[sessionID := fn]> km]> (closers m)).

(** ** Eviction *)

Record entry := mkEntry { e_keyID : string; e_sessionID : string; e_startedAt : Z }.

Definition older (a b : entry) : Prop := e_startedAt a <= e_startedAt b.
#[global] Instance older_dec a b : Decision (older a b).
Proof. unfold older. apply _. Defined.

(** [sort.Slice] by [startedAt.Before]: it leaves some sorted permutation, and
    each of those is the stable sort of some order of visit [it]. *)
Definition sort_entries (it : list entry) : list entry := merge_sort older it.

(** The entries [range] visits, for one key and for the whole table. *)
Definition key_entries (keyID : string) (km : gmap string Session) : list entry :=
  (fun '(sid, s) => mkEntry keyID sid (StartedAt s)) <$> map_to_list km.
Definition EvictOldest_entries (m : Manager) (keyID : string) : list entry :=
  key_entries keyID (default ∅ (sessions m !! keyID)).
Definition EvictOldestGlobal_entries (m : Manager) : list entry :=
  map_to_list (sessions m) ≫= (fun '(kid, km) => key_entries kid km).

Fixpoint delete_entries (m : Manager) (es : list entry) (deleted : Z) : Manager * Z :=
  match es with
  | [] => (m, deleted)
  | e :: es' =>
      let '(m', ok) := deleteSession m (e_keyID e) (e_sessionID e) in
      delete_entries m' es' (if ok then deleted + 1 else deleted)
  end.

(** The loop of [takeClosers], [EvictOldest] and [EvictOldestGlobal] over the
    closers of a list of dead sessions. *)
Fixpoint takeClosers (m : Manager) (expired : list (string * string)) : Manager * list closer :=
  match expired with
  | [] => (m, [])
  | (kid, sid) :: expired' =>
      let fn := closers m !! kid ≫= (.!! sid) in
      let m1 := with_closers m (drop_closer (closers m) kid sid) in
      let '(m2, fns) := takeClosers m1 expired' in
      (m2, match fn with Some f => f :: fns | None => fns end)
  end.

Definition entry_id (e : entry) : string * string := (e_keyID e, e_sessionID e).

(** The part after the scan: [it] is what the scan saw, in the order of its
    visit.  [None] is the panic of [make] with a negative capacity. *)
Definition evict (m : Manager) (it : list entry) (n : Z) : option (Manager * list closer) :=
  let all := sort_entries it in
  let n := if len all <? n then len all else n in
  let victims := ztake n all in
  let '(m1, deleted) := delete_entries m victims 0 in
  let m2 := if 0 <? deleted then total_add m1 (- deleted) else m1 in
  if n <? 0 then None else Some (takeClosers m2 (entry_id <$> victims)).

Definition EvictOldest (visit : list entry -> list entry) (m : Manager) (keyID : string) (n : Z)
  : option (Manager * list closer) :=
  evict m (visit (EvictOldest_entries m keyID)) n.
Definition EvictOldestGlobal (visit : list entry -> list entry) (m : Manager) (n : Z)
  : option (Manager * list closer) :=
  evict m (visit (EvictOldestGlobal_entries m)) n.

Definition TotalSessions (m : Manager) : Z := totalSessions m.

(** ** Snapshots *)

Record Snapshot_t := mkSnapshot {
  sn_KeyID : string;
  sn_ActiveSessions : Z;
  sn_UniqueIPs : Z;
  sn_Limits : Limits;
  sn_Sessions : list Session;
  sn_BurstWindow : Z;
  sn_BurstSince : option Z
}.

Definition started_before (a b : Session) : Prop := StartedAt a <= StartedAt b.
#[global] Instance started_before_dec a b : Decision (started_before a b).
Proof. unfold started_before. apply _. Defined.

Definition Snapshot (visit : list Session -> list Session) (m : Manager) (keyID : string)
  : Snapshot_t :=
  let l := limitsFor m keyID in
  let bc := from_option count 0 (burst m !! keyID) in
  let bs := since <$> burst m !! keyID in
  match sessions m !! keyID with
  | None => mkSnapshot keyID 0 0 l [] bc bs
  | Some km =>
      mkSnapshot keyID (Z.of_nat (size km)) (Z.of_nat (size (seen_ips km))) l
        (merge_sort started_before (visit (snd <$> map_to_list km))) bc bs
  end.

Definition SnapshotAll (vkeys : list string -> list string) (visit : list Session -> list Session)
    (m : Manager) : list Snapshot_t :=
  Snapshot visit m <$> vkeys (fst <$> map_to_list (sessions m)).

(** ** Expiry *)

Definition sessionsWithClosers (m : Manager) : gset (string * string) :=
  dom (flatten (closers m)).

Definition gc_ttl (m : Manager) (keyID : string) : Z :=
  let ttl := SessionTTL (limitsFor m keyID) in
  if ttl <=? 0 then 30 * Minute else ttl.

(** The test of the inner loop of [gcExpired] on one session. *)
Definition gc_dead (m : Manager) (now : Z) (keyID : string) (x : string * Session) : bool :=
  negb (bool_decide ((keyID, x.1) ∈ sessionsWithClosers m))
  && (now - LastSeen x.2 >? gc_ttl m keyID).

(** One turn of the outer loop of [gcExpired]: the inner map without the dead
    sessions, [None] when nothing is left of it. *)
Definition gc_key (m : Manager) (now : Z) (keyID : string) (km : gmap string Session)
  : option (gmap string Session) :=
  let km' := filter (fun x => gc_dead m now keyID x = false) km in
  if Nat.eqb (size km') 0 then None else Some km'.

Definition gc_expired_of (m : Manager) (now : Z) (keyID : string) (km : gmap string Session)
  : list (string * string) :=
  (fun x : string * Session => (keyID, x.1)) <$>
    map_to_list (filter (fun x => gc_dead m now keyID x = true) km).

(** The locked part of [gcExpired]. *)
Definition gc_sweep (visit : list (string * string) -> list (string * string))
    (m : Manager) (now : Z) : Manager * list (string * string) :=
  let expired := visit (map_to_list (sessions m) ≫= fun '(kid, km) => gc_expired_of m now kid km) in
  let m1 := with_sessions m (map_imap (gc_key m now) (sessions m)) in
  (with_burst m1 (filter (fun x => now - since x.2 <= 5 * Minute) (burst m1)), expired).

Definition gcExpired (visit : list (string * string) -> list (string * string))
    (m : Manager) (now : Z) : Manager * list closer :=
  let '(m1, expired) := gc_sweep visit m now in
  if len expired =? 0 then (m1, [])
  else takeClosers (total_add m1 (- len expired)) expired.

End KeyLimits.
