(* ===== verification/KeyLimitsFacts.v ===== *)
(** Theorems on the key limits.  The two-level session table is read as one
    flat map from (key, session) to the session; the operations are the
    obvious ones on that map, the caps hold after every admission, and the
    atomic counter agrees with the table under every interleaving of the
    operations' critical sections, up to re-admissions, which the code counts
    twice. *)

From S2P Require Import Prelude GoStr KeyLimits.
Import KeyLimits.


Definition flat (m : Manager) : gmap (string * string) Session := flatten (sessions m).

Section Flatten.
Context {A : Type}.
Implicit Types t : gmap string (gmap string A).

Lemma lookup_flatten t k s : flatten t !! (k, s) = t !! k ≫= (.!! s).
Proof. apply lookup_map_uncurry. Qed.

Lemma flatten_insert t k km : forall s x,
  default ∅ (t !! k) = km ->
  flatten (<[k := <[s := x]> km]> t) = <[(k, s) := x]> (flatten t).
Proof.
  intros s x <-. apply map_eq. intros [k' s']. rewrite lookup_flatten.
  destruct (decide (k = k')) as [<-|Hk].
  - rewrite lookup_insert_eq. simpl. destruct (decide (s = s')) as [<-|Hs].
    + by rewrite !lookup_insert_eq.
    + rewrite !lookup_insert_ne by congruence. rewrite lookup_flatten.
      by destruct (t !! k).
  - rewrite !lookup_insert_ne by congruence. by rewrite lookup_flatten.
Qed.

Lemma flatten_delete t k km s :
  t !! k = Some km ->
  flatten (put_inner k (delete s km) t)
  = delete (k, s) (flatten t).
Proof.
  intros Hk. unfold put_inner. apply map_eq. intros [k' s']. rewrite lookup_flatten.
  destruct (decide (k = k')) as [<-|Hne].
  - transitivity (delete s km !! s').
    { destruct (Nat.eqb_spec (size (delete s km)) 0) as [E%map_size_empty_inv|];
        [by rewrite lookup_delete_eq, E|].
      by rewrite lookup_insert_eq. }
    destruct (decide (s = s')) as [<-|].
    + by rewrite !lookup_delete_eq.
    + rewrite !lookup_delete_ne by congruence. by rewrite lookup_flatten, Hk.
  - rewrite (lookup_delete_ne (flatten t)) by congruence. rewrite lookup_flatten.
    destruct (Nat.eqb _ _); [by rewrite lookup_delete_ne | by rewrite lookup_insert_ne].
Qed.

Lemma flatten_empty_key t k : t !! k = None -> flatten (<[k := ∅]> t) = flatten t.
Proof.
  intros Hk. apply map_eq. intros [k' s']. rewrite !lookup_flatten.
  destruct (decide (k = k')) as [<-|].
  - by rewrite lookup_insert_eq, Hk.
  - by rewrite lookup_insert_ne.
Qed.

Lemma flatten_elements t :
  map_to_list (flatten t) ≡ₚ
  map_to_list t ≫= (fun '(k, km) => (fun '(s, x) => ((k, s), x)) <$> map_to_list km).
Proof.
  apply NoDup_Permutation.
  - apply NoDup_map_to_list.
  - apply NoDup_bind.
    + intros [k1 m1] [k2 m2] [[k s] x] H1 H2 (? & ? & ?)%list_elem_of_fmap (? & ? & ?)%list_elem_of_fmap.
      repeat match goal with p : _ * _ |- _ => destruct p end. simplify_eq/=.
      apply elem_of_map_to_list in H1, H2. congruence.
    + intros [k km] _. apply NoDup_fmap_2; [|apply NoDup_map_to_list].
      intros [??] [??] ?. by simplify_eq/=.
    + apply NoDup_map_to_list.
  - intros [[k s] x]. rewrite elem_of_map_to_list, lookup_flatten, list_elem_of_bind. split.
    + destruct (t !! k) as [km|] eqn:Hk; [|done]. simpl. intros Hs.
      exists (k, km). split; [|by apply elem_of_map_to_list].
      apply list_elem_of_fmap. exists (s, x). split; [done|]. by apply elem_of_map_to_list.
    + intros ([k' km] & (? & Heq & Hin)%list_elem_of_fmap & Hk).
      destruct x0. simplify_eq/=. apply elem_of_map_to_list in Hk, Hin. by rewrite Hk.
Qed.

End Flatten.

Lemma drop_closer_flat c k s : flatten (drop_closer c k s) = delete (k, s) (flatten c).
Proof.
  unfold drop_closer. destruct (c !! k) as [km|] eqn:Hk.
  - by apply flatten_delete.
  - rewrite delete_id; [done|]. by rewrite lookup_flatten, Hk.
Qed.

Lemma deleteSession_flat m k s :
  exists m' b, deleteSession m k s = (m', b) /\
    flat m' = delete (k, s) (flat m) /\ b = bool_decide (is_Some (flat m !! (k, s))) /\
    m' = with_sessions m (sessions m').
Proof.
  unfold deleteSession, flat. rewrite lookup_flatten.
  destruct (sessions m !! k) as [km|] eqn:Hk; simpl.
  - destruct (km !! s) as [x|] eqn:Hs.
    + eexists _, _. split_and!; [done| |by rewrite bool_decide_true by eauto|done].
      by apply flatten_delete.
    + exists m, false. split_and!; [done| |done|by destruct m].
      rewrite delete_id; [done|]. by rewrite lookup_flatten, Hk.
  - exists m, false. split_and!; [done| |done|by destruct m].
    rewrite delete_id; [done|]. by rewrite lookup_flatten, Hk.
Qed.

(** ** Admission *)

(** The sessions of one key, as the caps count them. *)
Definition key_sessions (m : Manager) (keyID : string) : gmap string Session :=
  default ∅ (sessions m !! keyID).

Definition burst_allows (m : Manager) (keyID : string) (now : Z) : Prop :=
  let l := limitsFor m keyID in
  0 < BurstPerMinute l ->
  forall bw, burst m !! keyID = Some bw -> now - since bw <= Minute ->
  count bw < BurstPerMinute l.

Lemma admit_burst_frame m l k now :
  let m' := (admit_burst m l k now).1 in
  sessions m' = sessions m /\ totalSessions m' = totalSessions m /\ closers m' = closers m /\
  defaultLimits m' = defaultLimits m /\ keyLimits m' = keyLimits m.
Proof.
  unfold admit_burst. destruct (0 <? _); [|done]. cbv zeta.
  destruct (burst m !! k); [destruct (_ >? _)|]; cbn -[Z.leb];
    destruct (_ <=? _); done.
Qed.

Lemma admit_burst_ok m k now :
  (admit_burst m (limitsFor m k) k now).2 = true <-> burst_allows m k now.
Proof.
  unfold admit_burst, burst_allows.
  destruct (0 <? _) eqn:H0; bool_to_prop; [|by split; [lia|]].
  destruct (burst m !! k) as [bw|] eqn:Hb; cbv zeta.
  - destruct (_ >? _) eqn:Hn; rewrite Z.gtb_ltb in Hn; bool_to_prop; cbn -[Z.leb];
      (destruct (_ <=? _) eqn:Hc; bool_to_prop; cbn).
    + lia.
    + split; [|done]. intros _ _ bw' [= <-]. lia.
    + split; [done|]. intros H. specialize (H H0 bw eq_refl). lia.
    + split; [|done]. intros _ _ bw' [= <-]. lia.
  - cbn -[Z.leb]. destruct (_ <=? _) eqn:Hc; bool_to_prop; cbn; [lia|done].
Qed.

(** The decision [Admit] takes, guard by guard, in the order of the code. *)
Definition admit_reason (m : Manager) (keyID remoteIP : string) (now : Z) : DenyReason :=
  let l := limitsFor m keyID in
  let km := key_sessions m keyID in
  if negb (admit_burst m l keyID now).2 then ReasonRateLimit
  else if (0 <? GlobalCap (defaultLimits m)) && (GlobalCap (defaultLimits m) <=? totalSessions m)
  then ReasonGlobalCap
  else if (0 <? MaxActiveSessions l) && (MaxActiveSessions l <=? normalCount km)
  then ReasonActiveCap
  else if (0 <? SoftIPCap l) && (SoftIPCap l <? countUniqueIPs km remoteIP)
  then ReasonSoftIPCap
  else ReasonNone.

Lemma admit_flat m k s ip n1 n2 n3 :
  exists m' msg, Admit m k s ip n1 n2 n3 = (m', (admit_reason m k ip n1, msg)) /\
    closers m' = closers m /\ keyLimits m' = keyLimits m /\ defaultLimits m' = defaultLimits m /\
    if decide (admit_reason m k ip n1 = ReasonNone)
    then flat m' = <[(k, s) := mkSession s ip n2 n3 false]> (flat m)
         /\ key_sessions m' k = <[s := mkSession s ip n2 n3 false]> (key_sessions m k)
         /\ totalSessions m' = i64 (totalSessions m + 1)
    else flat m' = flat m /\ totalSessions m' = totalSessions m.
Proof.
  unfold Admit, admit_reason, key_sessions, flat.
  pose proof (admit_burst_frame m (limitsFor m k) k n1) as (E1 & E2 & E3 & E4 & E5).
  destruct (admit_burst m (limitsFor m k) k n1) as [m1 ok]. cbn [fst snd] in *.
  rewrite E1, E2, E4. destruct ok; cbn [negb]; [|eexists _, _; by rewrite E1].
  destruct ((0 <? GlobalCap _) && _); [eexists _, _; by rewrite E1|].
  destruct (sessions m !! k) as [km|] eqn:Hk; cbn [default];
    (destruct ((0 <? MaxActiveSessions _) && _);
     [eexists _, _; split; [done|]; cbn; rewrite ?flatten_empty_key, ?E1 by done; done|]);
    (destruct ((0 <? SoftIPCap _) && _);
     [eexists _, _; split; [done|]; cbn; rewrite ?flatten_empty_key, ?E1 by done; done|]);
    eexists _, _; (split; [done|]); cbn; rewrite ?E1, ?E2, ?lookup_insert_eq;
    (destruct (decide _); [|done]); split_and!; try done.
  - apply flatten_insert. by rewrite Hk.
  - rewrite insert_insert_eq. apply (flatten_insert _ k ∅). by rewrite Hk.
Qed.

Lemma i64_add a b : i64 (i64 a + b) = i64 (a + b).
Proof.
  unfold i64. f_equal. set (M := 18446744073709551616). set (H := 9223372036854775808).
  replace ((a + H) mod M - H + b + H) with ((a + H) mod M + b) by lia.
  rewrite Zplus_mod_idemp_l. f_equal. lia.
Qed.

Lemma normalCount_insert km s x :
  km !! s = None ->
  normalCount (<[s := x]> km) = (if IsTorrent x then 0 else 1) + normalCount km.
Proof.
  intros Hs. unfold normalCount. rewrite map_fold_insert_L; [|intros; split_ifs; lia|done].
  destruct (IsTorrent x); lia.
Qed.

Lemma normalCount_insert_le km s x : normalCount (<[s := x]> km) <= normalCount km + 1.
Proof.
  destruct (km !! s) as [y|] eqn:Hs.
  - rewrite <- (insert_delete_id km s y) at 2 by done.
    rewrite <- insert_delete_eq, !normalCount_insert by apply lookup_delete_eq.
    destruct (IsTorrent x), (IsTorrent y); lia.
  - rewrite normalCount_insert by done. destruct (IsTorrent x); lia.
Qed.

Lemma elem_of_seen_ips km ip :
  ip ∈ seen_ips km <-> exists s x, km !! s = Some x /\ RemoteIP x = ip.
Proof.
  unfold seen_ips. induction km as [|i x m Hi IH] using map_ind.
  - rewrite map_fold_empty. split; [set_solver|]. intros (? & ? & ? & ?). done.
  - rewrite map_fold_insert_L; [|intros ? ? y z acc _ _ _; set_solver|done].
    rewrite elem_of_union, elem_of_singleton, IH. split.
    + intros [->|(s & y & Hs & Hy)].
      * exists i, x. by rewrite lookup_insert_eq.
      * exists s, y. rewrite lookup_insert_ne by congruence. done.
    + intros (s & y & Hs & Hy). destruct (decide (i = s)) as [<-|].
      * rewrite lookup_insert_eq in Hs. simplify_eq. by left.
      * rewrite lookup_insert_ne in Hs by done. right. eauto.
Qed.

Lemma seen_ips_insert km s x : seen_ips (<[s := x]> km) ⊆ {[RemoteIP x]} ∪ seen_ips km.
Proof.
  intros ip. rewrite elem_of_union, elem_of_singleton, !elem_of_seen_ips.
  intros (s' & y & [[<- <-]|[? Hs]]%lookup_insert_Some & Hy); [by left|right; eauto].
Qed.

(** C4: [Admit] decides by its four guards in the order of the code, whatever
    the state.  A denied attempt leaves the sessions, the counter, the limits
    and the closers as they were; an admitted one adds exactly the new session,
    after which the key has at most [MaxActiveSessions] sessions that are not
    torrents, seen from at most [SoftIPCap] addresses, and the counter was
    below the global cap. *)
Theorem admit_respects_caps m k s ip n1 n2 n3 :
  let l := limitsFor m k in
  let x := mkSession s ip n2 n3 false in
  exists m' msg, Admit m k s ip n1 n2 n3 = (m', (admit_reason m k ip n1, msg)) /\
    closers m' = closers m /\ keyLimits m' = keyLimits m /\ defaultLimits m' = defaultLimits m /\
    (admit_reason m k ip n1 <> ReasonNone ->
       flat m' = flat m /\ totalSessions m' = totalSessions m) /\
    (admit_reason m k ip n1 = ReasonNone ->
       flat m' = <[(k, s) := x]> (flat m) /\
       totalSessions m' = i64 (totalSessions m + 1) /\
       burst_allows m k n1 /\
       (0 < GlobalCap (defaultLimits m) -> totalSessions m < GlobalCap (defaultLimits m)) /\
       (0 < MaxActiveSessions l -> normalCount (key_sessions m' k) <= MaxActiveSessions l) /\
       (0 < SoftIPCap l ->
        Z.of_nat (size (seen_ips (key_sessions m' k))) <= SoftIPCap l)).
Proof.
  cbv zeta. destruct (admit_flat m k s ip n1 n2 n3) as (m' & msg & E & H1 & H2 & H3 & H).
  exists m', msg. split_and!; [done..| |].
  - intros Hne. by rewrite decide_False in H by done.
  - intros He. rewrite decide_True in H by done. destruct H as (Hf & Hk & Ht).
    rewrite Hk. unfold admit_reason in He. revert He.
    destruct (admit_burst _ _ _ _).2 eqn:Hb; cbn [negb]; [|done].
    apply admit_burst_ok in Hb. split_ifs; [done..|]. intros _.
    split_and!; try done; intros Hpos.
    + destruct (Z.ltb_spec 0 (GlobalCap (defaultLimits m))); [cbn in *; bool_to_prop; lia|lia].
    + pose proof (normalCount_insert_le (key_sessions m k) s (mkSession s ip n2 n3 false)).
      destruct (Z.ltb_spec 0 (MaxActiveSessions (limitsFor m k))); [cbn in *; bool_to_prop; lia|lia].
    + pose proof (subseteq_size _ _ (seen_ips_insert (key_sessions m k) s (mkSession s ip n2 n3 false))).
      destruct (Z.ltb_spec 0 (SoftIPCap (limitsFor m k))); [|lia].
      unfold countUniqueIPs in *. cbn in *. bool_to_prop. lia.
Qed.

(** ** The counter under interleaving

    The mutex makes some parts of the operations atomic and leaves gaps
    between them: [Release], the evictions and [gcExpired] delete sessions
    under the lock and change the counter after it.  [pending] is what is
    still to be subtracted by the operations in flight, [readmitted] counts
    the admissions of a session that was already in the table. *)

Record sys := mkSys { mgr : Manager; pending : list Z; readmitted : Z }.

Inductive step : sys -> sys -> Prop :=
  | step_admit m p r k s ip n1 n2 n3 :
      step (mkSys m p r)
           (mkSys (Admit m k s ip n1 n2 n3).1 p
                  (r + if decide (admit_reason m k ip n1 = ReasonNone /\ is_Some (flat m !! (k, s)))
                       then 1 else 0))
  | step_setLimits m p r k l : step (mkSys m p r) (mkSys (SetLimits k l m) p r)
  | step_clearLimits m p r k : step (mkSys m p r) (mkSys (ClearLimits k m) p r)
  | step_setDefault m p r l : step (mkSys m p r) (mkSys (SetDefault l m) p r)
  | step_mark m p r k s : step (mkSys m p r) (mkSys (MarkTorrent m k s) p r)
  | step_touch m p r k s now : step (mkSys m p r) (mkSys (Touch m k s now) p r)
  | step_register m p r k s fn : step (mkSys m p r) (mkSys (RegisterCloser m k s fn) p r)
  | step_release m p r k s :
      step (mkSys m p r)
           (mkSys (deleteSession m k s).1
                  (if (deleteSession m k s).2 then 1 :: p else p) r)
  | step_release_closer m p r k s : step (mkSys m p r) (mkSys (release_closer m k s) p r)
  | step_evict m p r victims :
      step (mkSys m p r)
           (mkSys (delete_entries m victims 0).1 ((delete_entries m victims 0).2 :: p) r)
  | step_gc m p r visit now :
      (forall l, visit l ≡ₚ l) ->
      step (mkSys m p r)
           (mkSys (gc_sweep visit m now).1 (zlen (gc_sweep visit m now).2 :: p) r)
  | step_take m p r dead : step (mkSys m p r) (mkSys (takeClosers m dead).1 p r)
  | step_subtract m p1 d p2 r :
      step (mkSys m (p1 ++ d :: p2) r) (mkSys (total_add m (- d)) (p1 ++ p2) r).

Definition initial (l : Limits) : sys := mkSys (New l) [] 0.
Definition sumZ (l : list Z) : Z := foldr Z.add 0 l.
Definition live (m : Manager) : Z := Z.of_nat (size (flat m)).

Definition counter_inv (st : sys) : Prop :=
  totalSessions (mgr st) = i64 (live (mgr st) + sumZ (pending st) + readmitted st).

Lemma sumZ_app l k : sumZ (l ++ k) = sumZ l + sumZ k.
Proof. induction l; simpl; lia. Qed.

Lemma update_session_flat m k s f :
  flat (update_session m k s f) = alter f (k, s) (flat m) /\
  update_session m k s f = with_sessions m (sessions (update_session m k s f)).
Proof.
  unfold update_session, flat. destruct (sessions m !! k) as [km|] eqn:Hk.
  - destruct (km !! s) as [x|] eqn:Hs; (split; [|by destruct m]).
    + cbn. rewrite flatten_insert by (by rewrite Hk). apply map_eq. intros [k' s'].
      destruct (decide ((k, s) = (k', s'))) as [[= <- <-]|].
      * by rewrite lookup_insert_eq, lookup_alter_eq, lookup_flatten, Hk; cbn; rewrite Hs.
      * by rewrite lookup_insert_ne, lookup_alter_ne.
    + apply map_eq. intros [k' s']. destruct (decide ((k, s) = (k', s'))) as [[= <- <-]|].
      * rewrite lookup_alter_eq, lookup_flatten, Hk; cbn. by rewrite Hs.
      * by rewrite lookup_alter_ne.
  - split; [|by destruct m]. apply map_eq. intros [k' s'].
    destruct (decide ((k, s) = (k', s'))) as [[= <- <-]|].
    + by rewrite lookup_alter_eq, lookup_flatten, Hk.
    + by rewrite lookup_alter_ne.
Qed.

Lemma update_session_live m k s f : live (update_session m k s f) = live m.
Proof.
  unfold live. destruct (update_session_flat m k s f) as [-> _].
  f_equal. rewrite <- !size_dom. by rewrite dom_alter_L.
Qed.

Lemma update_session_total m k s f : totalSessions (update_session m k s f) = totalSessions m.
Proof. by destruct (update_session_flat m k s f) as [_ ->]. Qed.

Lemma deleteSession_live m k s :
  live m = live (deleteSession m k s).1 + (if (deleteSession m k s).2 then 1 else 0) /\
  totalSessions (deleteSession m k s).1 = totalSessions m.
Proof.
  destruct (deleteSession_flat m k s) as (m' & b & -> & Hf & -> & Hm). cbn [fst snd].
  split; [|by rewrite Hm]. unfold live. rewrite Hf. case_bool_decide as Hs.
  - destruct Hs as [x Hs]. rewrite map_size_delete_Some by eauto.
    pose proof (map_size_ne_0_lookup_2 (flat m) (k, s) (mk_is_Some _ _ Hs)). lia.
  - rewrite delete_id; [lia|]. by apply eq_None_not_Some.
Qed.

Lemma delete_entries_live es : forall m d,
  live m + d = live (delete_entries m es d).1 + (delete_entries m es d).2 /\
  totalSessions (delete_entries m es d).1 = totalSessions m.
Proof.
  induction es as [|e es IH]; intros m d; simpl; [lia|].
  pose proof (deleteSession_live m (e_keyID e) (e_sessionID e)) as [H1 H2].
  destruct (deleteSession m _ _) as [m' b]. cbn [fst snd] in *.
  destruct (IH m' (if b then d + 1 else d)) as [H3 H4]. rewrite H4. destruct b; lia.
Qed.

Lemma takeClosers_frame dead : forall m,
  exists c, (takeClosers m dead).1 = with_closers m c.
Proof.
  induction dead as [|[k s] dead IH]; intros m; simpl; [exists (closers m); by destruct m|].
  destruct (IH (with_closers m (drop_closer (closers m) k s))) as [c Hc].
  destruct (takeClosers _ dead). cbn in *. exists c. by subst.
Qed.

(** ** Expiry *)

Lemma map_to_list_filter {A} `{Countable K} (P : K * A -> Prop) `{!forall x, Decision (P x)}
    (t : gmap K A) :
  map_to_list (filter P t) ≡ₚ filter P (map_to_list t).
Proof.
  apply NoDup_Permutation; [apply NoDup_map_to_list|apply NoDup_filter, NoDup_map_to_list|].
  intros [k x]. rewrite list_elem_of_filter, !elem_of_map_to_list, map_lookup_filter_Some.
  naive_solver.
Qed.

Definition flat_dead (m : Manager) (now : Z) (e : (string * string) * Session) : bool :=
  gc_dead m now e.1.1 (e.1.2, e.2).

Lemma gc_sweep_flat visit m now :
  flat (gc_sweep visit m now).1 = filter (fun e => flat_dead m now e = false) (flat m).
Proof.
  unfold gc_sweep, flat. cbn. apply map_eq. intros [k s].
  rewrite lookup_flatten, map_lookup_imap, map_lookup_filter, lookup_flatten.
  destruct (sessions m !! k) as [km|]; [|done]. cbn. unfold gc_key.
  transitivity (filter (fun x => gc_dead m now k x = false) km !! s).
  - destruct (Nat.eqb_spec (size (filter (fun x => gc_dead m now k x = false) km)) 0)
      as [->%map_size_empty_inv|]; by rewrite ?lookup_empty.
  - rewrite map_lookup_filter. by destruct (km !! s).
Qed.

Lemma gc_expired_flat m now :
  (map_to_list (sessions m) ≫= fun '(kid, km) => gc_expired_of m now kid km) ≡ₚ
  fst <$> map_to_list (filter (fun e => flat_dead m now e = true) (flat m)).
Proof.
  rewrite map_to_list_filter. unfold flat. rewrite flatten_elements.
  induction (map_to_list (sessions m)) as [|[k km] l IH]; [done|]. cbn.
  rewrite filter_app, fmap_app, IH. apply Permutation_app_tail.
  unfold gc_expired_of. rewrite map_to_list_filter. clear.
  induction (map_to_list km) as [|[s x] l IH]; [done|].
  rewrite fmap_cons, !filter_cons. unfold flat_dead at 1. cbn.
  destruct (decide (gc_dead m now k (s, x) = true)); cbn; [by apply Permutation_skip|done].
Qed.

Lemma gc_sweep_live visit m now :
  (forall l, visit l ≡ₚ l) ->
  live m = live (gc_sweep visit m now).1 + zlen (gc_sweep visit m now).2.
Proof.
  intros Hv. unfold live. rewrite gc_sweep_flat. unfold gc_sweep. cbn.
  unfold zlen. rewrite Hv, gc_expired_flat, length_fmap.
  rewrite <- !length_map_to_list, !map_to_list_filter.
  rewrite <- Nat2Z.inj_add. f_equal.
  induction (map_to_list (flat m)) as [|e l IH]; [done|].
  rewrite !filter_cons. destruct (flat_dead m now e) eqn:He;
    repeat (destruct (decide _)); simplify_eq; cbn; lia.
Qed.

Lemma insert_live m m' k s x :
  flat m' = <[(k, s) := x]> (flat m) ->
  live m' = live m + (if decide (is_Some (flat m !! (k, s))) then 0 else 1).
Proof.
  intros Hf. unfold live. rewrite Hf. destruct (flat m !! (k, s)) eqn:E.
  - rewrite decide_True, map_size_insert_Some by eauto. lia.
  - rewrite decide_False, map_size_insert_None by (done || by intros [? [=]]). lia.
Qed.

Lemma counter_inv_step st st' : counter_inv st -> step st st' -> counter_inv st'.
Proof.
  unfold counter_inv. intros Hi Hs. destruct Hs; cbn [mgr pending readmitted] in *;
    try exact Hi.
  - destruct (admit_flat m k s ip n1 n2 n3) as (m' & msg & -> & _ & _ & _ & H). cbn [fst].
    destruct (decide (admit_reason m k ip n1 = ReasonNone)) as [Hr|Hr].
    + destruct H as (Hf & _ & Ht). rewrite Ht, Hi, i64_add. f_equal.
      rewrite (insert_live _ _ _ _ _ Hf).
      destruct (decide (is_Some _)), (decide (_ /\ _)); try naive_solver lia.
    + destruct H as (Hf & Ht). unfold live. rewrite Hf, Ht.
      rewrite decide_False by naive_solver. rewrite Z.add_0_r. exact Hi.
  - unfold MarkTorrent. by rewrite update_session_live, update_session_total.
  - unfold Touch. by rewrite update_session_live, update_session_total.
  - destruct (deleteSession_live m k s) as [H1 H2]. rewrite H2, Hi, H1. f_equal.
    destruct (deleteSession m k s).2; simpl; lia.
  - destruct (delete_entries_live victims m 0) as [H1 H2]. rewrite H2, Hi. f_equal. simpl. lia.
  - rewrite (gc_sweep_live visit m now) in Hi by done. cbn [sumZ foldr].
    fold (sumZ p). rewrite Z.add_assoc. exact Hi.
  - destruct (takeClosers_frame dead m) as [c ->]. exact Hi.
  - rewrite sumZ_app in *. cbn [sumZ foldr] in *. fold (sumZ p2) in *.
    unfold total_add at 1. cbn [totalSessions]. rewrite Hi, i64_add. f_equal.
    unfold live, flat. cbn. lia.
Qed.

(** C5: in every state reachable by any interleaving of the critical sections
    of all operations, the counter is the number of sessions in the table, plus
    what the operations in flight have still to subtract, plus the number of
    admissions that overwrote a session already there (as 64-bit integers). *)
Theorem counter_agrees l st :
  rtc step (initial l) st ->
  totalSessions (mgr st) = i64 (live (mgr st) + sumZ (pending st) + readmitted st).
Proof.
  intros Hr. change (counter_inv st).
  assert (H0 : counter_inv (initial l)) by done. revert H0.
  induction Hr; [done|]. eauto using counter_inv_step.
Qed.

Lemma takeClosers_flat dead : forall m,
  NoDup dead ->
  (takeClosers m dead).2 = omap (fun id => flatten (closers m) !! id) dead /\
  forall id, flatten (closers (takeClosers m dead).1) !! id =
    if decide (id ∈ dead) then None else flatten (closers m) !! id.
Proof.
  induction dead as [|[k s] dead IH]; intros m Hnd; cbn [takeClosers].
  { split; [done|]. intros id. rewrite decide_False by apply not_elem_of_nil. done. }
  apply NoDup_cons in Hnd as [Hnin Hnd].
  destruct (IH (with_closers m (drop_closer (closers m) k s)) Hnd) as [H1 H2].
  destruct (takeClosers _ dead) as [m2 fns]. cbn [fst snd closers with_closers] in *.
  rewrite drop_closer_flat in *. split.
  - cbn [omap list_omap]. rewrite lookup_flatten, H1.
    rewrite (list_omap_ext _ (fun id => flatten (closers m) !! id) dead dead); [done|].
    apply Forall_Forall2_diag, Forall_forall. intros id Hid.
    rewrite lookup_delete_ne; [done|]. by intros <-.
  - intros id. rewrite H2. destruct (decide (id ∈ dead)) as [Hin|Hni].
    + rewrite decide_True by by right. done.
    + destruct (decide (id = (k, s))) as [->|Hne].
      * by rewrite lookup_delete_eq, decide_True by left.
      * rewrite lookup_delete_ne by congruence.
        rewrite decide_False by (rewrite elem_of_cons; tauto). done.
Qed.

Lemma takeClosers_none dead m :
  NoDup dead -> (forall id, id ∈ dead -> flatten (closers m) !! id = None) ->
  (takeClosers m dead).2 = [] /\
  flatten (closers (takeClosers m dead).1) = flatten (closers m).
Proof.
  intros Hnd Hno. destruct (takeClosers_flat dead m Hnd) as [H1 H2]. split.
  - rewrite H1. clear -Hno. induction dead as [|d dead IH]; [done|]. cbn.
    rewrite Hno by left. apply IH. intros id Hid. apply Hno. by right.
  - apply map_eq. intros id. rewrite H2. destruct (decide _); [by rewrite Hno|done].
Qed.

Lemma flat_dead_spec m now k s x :
  flat_dead m now ((k, s), x) = false <->
  is_Some (flatten (closers m) !! (k, s)) \/ now - LastSeen x <= gc_ttl m k.
Proof.
  unfold flat_dead, gc_dead. cbn. rewrite andb_false_iff, negb_false_iff, bool_decide_eq_true.
  unfold sessionsWithClosers. rewrite elem_of_dom, Z.gtb_ltb, Z.ltb_ge. done.
Qed.

Lemma gc_expired_dead visit m now id :
  (forall l, visit l ≡ₚ l) -> id ∈ (gc_sweep visit m now).2 ->
  flatten (closers m) !! id = None.
Proof.
  intros Hv. unfold gc_sweep. cbn. rewrite Hv, gc_expired_flat.
  intros ([[k s] x] & -> & [_ Hx]%elem_of_map_to_list%map_lookup_filter_Some)%list_elem_of_fmap.
  apply eq_None_not_Some. intros Hs.
  assert (flat_dead m now ((k, s), x) = false) by (apply flat_dead_spec; by left).
  congruence.
Qed.

Lemma gc_expired_NoDup visit m now :
  (forall l, visit l ≡ₚ l) -> NoDup (gc_sweep visit m now).2.
Proof.
  intros Hv. unfold gc_sweep. cbn. rewrite Hv, gc_expired_flat. apply NoDup_fst_map_to_list.
Qed.

(** A run of [gcExpired] keeps exactly the sessions that have a closer
    registered or were seen within the key's time to live, runs no closer,
    leaves the closers as they are, and takes from the counter exactly the
    number of sessions it removed, in whatever order the maps are visited. *)
Theorem gc_expires_idle_only visit m now :
  (forall l, visit l ≡ₚ l) -> i64 (totalSessions m) = totalSessions m ->
  exists m', gcExpired visit m now = (m', []) /\
    (forall k s x, flat m' !! (k, s) = Some x <->
       flat m !! (k, s) = Some x /\
       (is_Some (flatten (closers m) !! (k, s)) \/ now - LastSeen x <= gc_ttl m k)) /\
    flatten (closers m') = flatten (closers m) /\
    totalSessions m' = i64 (totalSessions m - (live m - live m')).
Proof.
  intros Hv Ht. pose proof (gc_sweep_live visit m now Hv) as Hl.
  pose proof (gc_expired_NoDup visit m now Hv) as Hnd.
  pose proof (fun id => gc_expired_dead visit m now id Hv) as Hno.
  pose proof (gc_sweep_flat visit m now) as Hf.
  assert (Hc : closers (gc_sweep visit m now).1 = closers m) by done.
  assert (Htot : totalSessions (gc_sweep visit m now).1 = totalSessions m) by done.
  assert (Hspec : forall k s x, flat (gc_sweep visit m now).1 !! (k, s) = Some x <->
       flat m !! (k, s) = Some x /\
       (is_Some (flatten (closers m) !! (k, s)) \/ now - LastSeen x <= gc_ttl m k)).
  { intros k s x. rewrite Hf, map_lookup_filter_Some, flat_dead_spec. done. }
  unfold gcExpired. destruct (gc_sweep visit m now) as [m1 expired]. cbn [fst snd] in *.
  destruct (Z.eqb_spec (len expired) 0) as [He|He].
  - exists m1. split_and!; [done..|by rewrite Hc|]. rewrite Htot, <- Ht at 1. f_equal. lia.
  - set (m2 := total_add m1 (- len expired)).
    assert (Hc2 : closers m2 = closers m) by done.
    rewrite <- Hc2 in Hno. destruct (takeClosers_none expired m2 Hnd Hno) as [H1 H2].
    destruct (takeClosers_frame expired m2) as [c Hc3].
    destruct (takeClosers m2 expired) as [m3 fns]. cbn [fst snd] in *. subst fns m3.
    exists (with_closers m2 c). split_and!; [done|exact Hspec|by rewrite H2, Hc2|].
    change (totalSessions (with_closers m2 c)) with (i64 (totalSessions m1 + - len expired)).
    change (live (with_closers m2 c)) with (live m1). rewrite Htot. f_equal. lia.
Qed.

(** ** Eviction *)

Lemma delete_entries_flat es : forall m d,
  NoDup (entry_id <$> es) -> (forall e, e ∈ es -> is_Some (flat m !! entry_id e)) ->
  exists t, (delete_entries m es d) = (with_sessions m t, d + len es) /\
  forall id, flatten t !! id = if decide (id ∈ entry_id <$> es) then None else flat m !! id.
Proof.
  induction es as [|e es IH]; intros m d Hnd Hl; cbn [delete_entries fmap list_fmap] in *.
  { exists (sessions m). destruct m. rewrite zlen_nil, Z.add_0_r. split; [done|]. intros id.
    rewrite decide_False by apply not_elem_of_nil. done. }
  apply NoDup_cons in Hnd as [Hnin Hnd].
  destruct (deleteSession_flat m (e_keyID e) (e_sessionID e)) as (m1 & b & -> & Hf & Hb & Hm).
  rewrite bool_decide_true in Hb by (apply Hl; left). subst b.
  assert (Hne : forall e', e' ∈ es -> entry_id e <> entry_id e').
  { intros e' He' Heq. apply Hnin. rewrite Heq. by apply list_elem_of_fmap_2. }
  destruct (IH m1 (d + 1)) as (t & Ht & Hlk); [done| |].
  { intros e' He'. rewrite Hf. change (e_keyID e, e_sessionID e) with (entry_id e).
    rewrite lookup_delete_ne by auto. apply Hl. by right. }
  exists t. rewrite Ht, Hm, zlen_cons. split; [by rewrite Z.add_assoc|]. intros id. rewrite Hlk.
  destruct (decide (id ∈ entry_id <$> es)).
  - by rewrite decide_True by by right.
  - rewrite Hf. change (e_keyID e, e_sessionID e) with (entry_id e).
    destruct (decide (id = entry_id e)) as [->|Hne'].
    + by rewrite lookup_delete_eq, decide_True by left.
    + rewrite lookup_delete_ne by congruence.
      rewrite decide_False by (rewrite elem_of_cons; tauto). done.
Qed.

#[global] Instance older_total : Total older.
Proof. intros a b. unfold older. lia. Qed.
#[global] Instance older_trans : Transitive older.
Proof. intros a b c. unfold older. lia. Qed.

(** What an eviction of [n] of the entries [all] does: the victims are the
    oldest [n], they and their closers are gone and nothing else is, and
    their closers are the ones to run. *)
Definition evicted (m : Manager) (all : list entry) (n : Z) (m' : Manager) (fns : list closer)
  : Prop :=
  exists victims kept,
    victims ++ kept ≡ₚ all /\ zlen victims = Z.min n (zlen all) /\
    (forall v k, v ∈ victims -> k ∈ kept -> e_startedAt v <= e_startedAt k) /\
    (forall id, flat m' !! id =
       if decide (id ∈ entry_id <$> victims) then None else flat m !! id) /\
    (forall id, flatten (closers m') !! id =
       if decide (id ∈ entry_id <$> victims) then None else flatten (closers m) !! id) /\
    fns = omap (fun id => flatten (closers m) !! id) (entry_id <$> victims) /\
    totalSessions m' = i64 (totalSessions m - zlen victims).

Lemma evict_oldest m it n :
  NoDup (entry_id <$> it) -> (forall e, e ∈ it -> is_Some (flat m !! entry_id e)) ->
  i64 (totalSessions m) = totalSessions m -> 0 <= n ->
  exists m' fns, evict m it n = Some (m', fns) /\ evicted m it n m' fns.
Proof.
  intros Hnd Hl Ht Hn. unfold evict. set (all := sort_entries it).
  assert (Hp : all ≡ₚ it) by apply merge_sort_Permutation.
  assert (Hlen : zlen all = zlen it) by (unfold zlen; by rewrite Hp).
  set (k := if zlen all <? n then zlen all else n).
  assert (Hk : k = Z.min n (zlen all)) by (unfold k; split_ifs; lia).
  pose proof (zlen_nonneg all). pose proof (ztake_zdrop k all) as Hsplit.
  set (victims := ztake k all) in *. set (kept := zdrop k all) in *.
  assert (Hvl : zlen victims = k) by (apply zlen_ztake; lia).
  assert (Hnd' : NoDup (entry_id <$> victims)).
  { rewrite <- Hp, <- Hsplit, fmap_app in Hnd. by apply NoDup_app in Hnd as [? _]. }
  assert (Hl' : forall e, e ∈ victims -> is_Some (flat m !! entry_id e)).
  { intros e He. apply Hl. rewrite <- Hp, <- Hsplit. apply elem_of_app. by left. }
  destruct (delete_entries_flat victims m 0 Hnd' Hl') as (t & -> & Hf). cbv zeta iota beta.
  rewrite (proj2 (Z.ltb_ge k 0)) by lia. rewrite Hvl, Z.add_0_l in *.
  set (m2 := if 0 <? k then _ else _).
  assert (Hm2 : sessions m2 = t /\ closers m2 = closers m /\ totalSessions m2 = i64 (totalSessions m - k)).
  { unfold m2. split_ifs; [done|]. split_and!; [done..|]. cbn. rewrite <- Ht at 1. f_equal. lia. }
  destruct Hm2 as (Hm1 & Hm2 & Hm3).
  destruct (takeClosers_flat (entry_id <$> victims) m2 Hnd') as [Hfn Hcl].
  destruct (takeClosers_frame (entry_id <$> victims) m2) as [c Hc].
  destruct (takeClosers m2 _) as [m3 fns]. cbn [fst snd] in *. exists m3, fns.
  split; [done|]. exists victims, kept.
  rewrite Hm2 in Hfn, Hcl. split_and!; try done.
  - by rewrite Hsplit.
  - rewrite Hvl, <- Hlen. done.
  - intros v e Hv He. change (older v e).
    eapply StronglySorted_app_le; [|exact Hv|exact He]. rewrite Hsplit.
    apply StronglySorted_merge_sort; apply _.
  - intros id. rewrite <- Hf, Hc. unfold flat. cbn. by rewrite Hm1.
  - rewrite Hc. cbn. by rewrite Hm3, Hvl.
Qed.

Lemma key_entries_ids k km :
  entry_id <$> key_entries k km = (fun x : string * Session => (k, x.1)) <$> map_to_list km.
Proof.
  unfold key_entries. rewrite <- list_fmap_compose. apply list_fmap_ext. by intros ? [].
Qed.

Lemma global_entries_ids m :
  entry_id <$> EvictOldestGlobal_entries m ≡ₚ fst <$> map_to_list (flat m).
Proof.
  unfold EvictOldestGlobal_entries, flat. rewrite flatten_elements.
  induction (map_to_list (sessions m)) as [|[k km] l IH]; [done|]. cbn.
  rewrite !fmap_app, key_entries_ids, IH. apply Permutation_app_tail.
  rewrite <- list_fmap_compose. apply reflexive_eq, list_fmap_ext. by intros ? [].
Qed.

Lemma key_entries_live m k :
  NoDup (entry_id <$> EvictOldest_entries m k) /\
  forall e, e ∈ EvictOldest_entries m k -> is_Some (flat m !! entry_id e).
Proof.
  unfold EvictOldest_entries. split.
  - rewrite key_entries_ids.
    change (NoDup ((fun s : string => (k, s)) ∘ fst <$> map_to_list (default ∅ (sessions m !! k)))).
    rewrite list_fmap_compose. apply NoDup_fmap_2; [by intros ?? [=]|apply NoDup_fst_map_to_list].
  - intros e ([s x] & -> & Hin%elem_of_map_to_list)%list_elem_of_fmap.
    unfold flat, entry_id. cbn. rewrite lookup_flatten.
    destruct (sessions m !! k); [by exists x|done].
Qed.

Lemma global_entries_live m :
  NoDup (entry_id <$> EvictOldestGlobal_entries m) /\
  forall e, e ∈ EvictOldestGlobal_entries m -> is_Some (flat m !! entry_id e).
Proof.
  split.
  - rewrite global_entries_ids. apply NoDup_fst_map_to_list.
  - intros e He%(list_elem_of_fmap_2 entry_id). rewrite global_entries_ids in He.
    apply list_elem_of_fmap in He as ([id x] & -> & Hin%elem_of_map_to_list). by exists x.
Qed.

Lemma evicted_perm m it it' n m' fns : it ≡ₚ it' -> evicted m it n m' fns -> evicted m it' n m' fns.
Proof.
  intros Hp (v & k & H1 & H2 & H). exists v, k. rewrite <- Hp.
  split_and!; [done|done|apply H..].
Qed.

(** [EvictOldest] and [EvictOldestGlobal] remove exactly the [n] sessions
    that started first (all of them when there are fewer), of the key and of
    the whole table, with their closers, which are the ones run; every other
    session and closer stays, and the counter goes down by as many. *)
Theorem evict_removes_oldest visit m k n :
  (forall l, visit l ≡ₚ l) -> i64 (totalSessions m) = totalSessions m -> 0 <= n ->
  (exists m' fns, EvictOldest visit m k n = Some (m', fns) /\
     evicted m (EvictOldest_entries m k) n m' fns) /\
  (exists m' fns, EvictOldestGlobal visit m n = Some (m', fns) /\
     evicted m (EvictOldestGlobal_entries m) n m' fns).
Proof.
  intros Hv Ht Hn.
  assert (H : forall all, NoDup (entry_id <$> all) ->
    (forall e, e ∈ all -> is_Some (flat m !! entry_id e)) ->
    exists m' fns, evict m (visit all) n = Some (m', fns) /\ evicted m all n m' fns).
  { intros all Hnd Hl. destruct (evict_oldest m (visit all) n) as (m' & fns & E & Hev); try done.
    - by rewrite Hv.
    - intros e. rewrite Hv. auto.
    - exists m', fns. split; [done|]. exact (evicted_perm _ _ _ _ _ _ (Hv all) Hev). }
  destruct (key_entries_live m k) as [K1 K2], (global_entries_live m) as [G1 G2].
  split; [exact (H _ K1 K2) | exact (H _ G1 G2)].
Qed.

(** ** Re-admission *)

(** [n] flows of one session admitted one after the other at time [now]. *)
Fixpoint admit_flows (n : nat) (m : Manager) (k s ip : string) (now : Z) : Manager :=
  match n with
  | O => m
  | S n' => admit_flows n' (Admit m k s ip now now now).1 k s ip now
  end.

Definition capped (g : Z) : Limits := mkLimits 0 g 0 0 0.

Lemma admit_flows_readmit n : forall m k s ip now g x,
  defaultLimits m = capped g -> keyLimits m = ∅ -> 0 < g < 2 ^ 62 ->
  flat m = {[(k, s) := x]} -> 0 <= totalSessions m -> totalSessions m + Z.of_nat n <= g ->
  let m' := admit_flows n m k s ip now in
  (exists x, flat m' = {[(k, s) := x]}) /\ totalSessions m' = totalSessions m + Z.of_nat n /\
  defaultLimits m' = capped g /\ keyLimits m' = ∅.
Proof.
  induction n as [|n IH]; intros m k s ip now g x Hd Hkl Hg Hf H0 Hle; cbn [admit_flows].
  { split_and!; eauto. lia. }
  assert (Hr : admit_reason m k ip now = ReasonNone).
  { unfold admit_reason, limitsFor, admit_burst. rewrite Hkl, lookup_empty, Hd. cbn.
    rewrite (proj2 (Z.leb_gt g (totalSessions m))) by lia. by rewrite andb_false_r. }
  destruct (admit_flat m k s ip now now now) as (m1 & msg & -> & _ & H1 & H2 & H).
  rewrite Hr, decide_True in H by done. destruct H as (Hf1 & _ & Ht1). cbn [fst].
  assert (Ht : totalSessions m1 = totalSessions m + 1).
  { rewrite Ht1. unfold i64. rewrite Z.mod_small; lia. }
  rewrite Hf, insert_singleton_eq in Hf1.
  edestruct (IH m1 k s ip now g) as (H3 & H4 & H5 & H6);
    [congruence|congruence|lia|exact Hf1|lia|lia|]. split_and!; try done. lia.
Qed.

(** With a global cap of [g] and no other limit, [g] flows of one session
    (one key, one session id) are all admitted, take a single slot of the
    table, and exhaust the cap: every further client is refused with
    [ReasonGlobalCap], and releasing the session takes one off the counter and
    leaves the other [g - 1] admissions counted for ever. *)
Theorem readmission_exhausts_cap n k s ip k' s' ip' now :
  Z.of_nat (S n) < 2 ^ 62 ->
  let m := admit_flows (S n) (New (capped (Z.of_nat (S n)))) k s ip now in
  live m = 1 /\ admit_reason m k' ip' now = ReasonGlobalCap /\
  (Admit m k' s' ip' now now now).2.1 = ReasonGlobalCap /\
  live (Release m k s) = 0 /\ totalSessions (Release m k s) = Z.of_nat n.
Proof.
  intros Hn. cbn [admit_flows]. set (g := Z.of_nat (S n)).
  destruct (admit_flat (New (capped g)) k s ip now now now) as (m1 & msg & -> & _ & H1 & H2 & H).
  assert (Hr : admit_reason (New (capped g)) k ip now = ReasonNone).
  { unfold admit_reason. cbn. by rewrite (proj2 (Z.leb_gt g 0)), andb_false_r by lia. }
  rewrite Hr, decide_True in H by done. destruct H as (Hf & _ & Ht). cbn [fst].
  change (totalSessions m1 = 1) in Ht.
  change (flat (New (capped g))) with (∅ : gmap (string * string) Session) in Hf.
  rewrite insert_empty in Hf.
  destruct (admit_flows_readmit n m1 k s ip now g _ H2 H1 ltac:(lia) Hf ltac:(lia) ltac:(lia))
    as ((x & Hf2) & Ht2 & Hd2 & Hk2).
  set (m := admit_flows n m1 k s ip now) in *. clearbody m.
  assert (Hcap : admit_reason m k' ip' now = ReasonGlobalCap).
  { unfold admit_reason, limitsFor, admit_burst. rewrite Hk2, lookup_empty, Hd2. cbn.
    rewrite (proj2 (Z.ltb_lt 0 g)), (proj2 (Z.leb_le g _)) by lia. done. }
  split_and!; [unfold live; by rewrite Hf2, map_size_singleton|done| |..].
  - destruct (admit_flat m k' s' ip' now now now) as (m2 & msg2 & -> & _). done.
  - unfold Release. destruct (deleteSession_flat m k s) as (m2 & b & -> & Hf3 & -> & Hm2).
    rewrite Hf2, delete_singleton_eq in Hf3. unfold live, flat in *. case_bool_decide; cbn; by rewrite Hf3.
  - unfold Release. destruct (deleteSession_flat m k s) as (m2 & b & -> & Hf3 & -> & Hm2).
    rewrite bool_decide_true by (rewrite Hf2, lookup_singleton_eq; eauto). rewrite Hm2. cbn.
    rewrite Ht2, Ht. unfold i64. rewrite Z.mod_small; lia.
Qed.

(** ** Witnesses *)

Definition ex_limits : Limits := mkLimits 2 10 2 0 60.
Definition ex_mgr : Manager :=
  RegisterCloser
    (Admit (Admit (New ex_limits) "k" "a" "1.1.1.1" 5 5 5).1 "k" "b" "2.2.2.2" 9 9 9).1 "k" "a" 7.

Lemma counter_agrees_witness :
  let st := mkSys (deleteSession (Admit (New ex_limits) "k" "a" "1.1.1.1" 5 5 5).1 "k" "a").1 [1] 0 in
  totalSessions (mgr st) = 1 /\
  totalSessions (mgr st) = i64 (live (mgr st) + sumZ (pending st) + readmitted st).
Proof.
  cbv zeta. split; [vm_compute; reflexivity|].
  apply (counter_agrees ex_limits).
  eapply rtc_l; [exact (step_admit (New ex_limits) [] 0 "k" "a" "1.1.1.1" 5 5 5)|].
  eapply rtc_l; [|apply rtc_refl].
  exact (step_release (Admit (New ex_limits) "k" "a" "1.1.1.1" 5 5 5).1 [] 0 "k" "a").
Defined.

Lemma gc_expires_idle_only_witness :
  exists m', gcExpired (fun l => l) ex_mgr 1000 = (m', []) /\
    totalSessions m' = i64 (totalSessions ex_mgr - (live ex_mgr - live m')).
Proof.
  destruct (gc_expires_idle_only (fun l => l) ex_mgr 1000) as (m' & H1 & _ & _ & H2);
    [done|vm_compute; reflexivity|]. exists m'. split; [exact H1|exact H2].
Defined.

Lemma evict_removes_oldest_witness :
  exists m' fns, EvictOldestGlobal (fun l => reverse l) ex_mgr 1 = Some (m', fns) /\
    evicted ex_mgr (EvictOldestGlobal_entries ex_mgr) 1 m' fns.
Proof.
  apply (evict_removes_oldest (fun l => reverse l) ex_mgr "k" 1);
    [intros l; apply reverse_Permutation|vm_compute; reflexivity|lia].
Defined.

Lemma readmission_exhausts_cap_witness :
  let m := admit_flows 20 (New (capped 20)) "key" "one-session" "10.0.0.1" 0 in
  live m = 1 /\ (Admit m "other" "x" "10.0.0.2" 0 0 0).2.1 = ReasonGlobalCap.
Proof.
  destruct (readmission_exhausts_cap 19 "key" "one-session" "10.0.0.1" "other" "x" "10.0.0.2" 0)
    as (H1 & _ & H2 & _); [lia|]. split; [exact H1|exact H2].
Defined.

Example ex_evict :
  (fun r => (map_to_list (flat r.1), r.2, totalSessions r.1)) <$> EvictOldest (fun l => l) ex_mgr "k" 1
  = Some ([(("k", "b"), mkSession "b" "2.2.2.2" 9 9 false)], [7], 1)%string.
Proof. vm_compute. reflexivity. Qed.

