(* ===== verification/Registry.v ===== *)
(** The module registry of common/runtime/registry (registry.go and
    dependency_order.go) and the start and stop sequences of
    common/runtime/lifecycle/lifecycle.go built on it.

    A module is what the registry sees of it: its name, its dependencies, and
    the errors its [Init], [Start] and [Stop] return.  The registry calls each
    of them at most once per module in one [StartAll] or [StopAll], so the
    outcomes of one sweep are a function of the module's name.  The calls and
    the published events are recorded in a trace. *)

From S2P Require Import Prelude.

Module Registry.

Inductive ModuleState :=
  | ModuleStateUninitialized | ModuleStateInitialized | ModuleStateStarting
  | ModuleStateRunning | ModuleStateStopping | ModuleStateStopped | ModuleStateError.

#[global] Instance ModuleState_eq_dec : EqDecision ModuleState.
Proof. solve_decision. Defined.

Definition ModuleState_String (s : ModuleState) : string :=
  match s with
  | ModuleStateUninitialized => "uninitialized"
  | ModuleStateInitialized => "initialized"
  | ModuleStateStarting => "starting"
  | ModuleStateRunning => "running"
  | ModuleStateStopping => "stopping"
  | ModuleStateStopped => "stopped"
  | ModuleStateError => "error"
  end.

Record GoModule := mkModule { Name : string; Dependencies : list string }.

Record moduleEntry := mkEntry { module : GoModule; state : ModuleState; err : option string }.

Record registry := mkRegistry { modules : gmap string moduleEntry; order : list string }.

Definition NewRegistry : registry := mkRegistry ∅ [].

(** Errors of the registry, with the values they wrap. *)
Inductive rerror :=
  | ErrNilModule | ErrEmptyName | ErrAlreadyRegistered (name : string)
  | ErrUnregistered (name dep : string) | ErrCircular
  | ErrInit (name e : string) | ErrStart (name e : string) | ErrStopping (e : string).

Definition Register (m : option GoModule) (r : registry) : registry * option rerror :=
  match m with
  | None => (r, Some ErrNilModule)
  | Some m =>
      if decide (Name m = ""%string) then (r, Some ErrEmptyName)
      else match modules r !! Name m with
           | Some _ => (r, Some (ErrAlreadyRegistered (Name m)))
           | None =>
               (mkRegistry (<[Name m := mkEntry m ModuleStateUninitialized None]> (modules r))
                           (order r), None)
           end
  end.

Definition Get (r : registry) (name : string) : option GoModule :=
  module <$> modules r !! name.

Definition GetAll (visit : list (string * moduleEntry) -> list (string * moduleEntry))
    (r : registry) : list GoModule :=
  (fun x => module x.2) <$> visit (map_to_list (modules r)).

(** ** dependency_order.go *)

Abbreviation degrees := (gmap string Z).
Abbreviation depmap := (gmap string (list string)).

(** The inner loop over [entry.module.Dependencies()]. *)
Fixpoint add_deps (ms : gmap string moduleEntry) (name : string) (l : list string)
    (inDegree : degrees) (deps : depmap) : (string * string) + (degrees * depmap) :=
  match l with
  | [] => inr (inDegree, deps)
  | dep :: l' =>
      match ms !! dep with
      | None => inl (name, dep)
      | Some _ =>
          add_deps ms name l'
            (<[name := default 0 (inDegree !! name) + 1]> inDegree)
            (<[dep := default [] (deps !! dep) ++ [name]]> deps)
      end
  end.

(** The outer loop over [r.modules], in its order of visit. *)
Fixpoint build_graph (ms : gmap string moduleEntry) (it : list (string * moduleEntry))
    (inDegree : degrees) (deps : depmap) : (string * string) + (degrees * depmap) :=
  match it with
  | [] => inr (inDegree, deps)
  | (name, e) :: it' =>
      match add_deps ms name (Dependencies (module e)) inDegree deps with
      | inl e => inl e
      | inr (inDegree, deps) => build_graph ms it' inDegree deps
      end
  end.

Definition sort_strings (l : list string) : list string := merge_sort String.le l.

(** [for _, dependent := range dependents]. *)
Fixpoint relax (dependents : list string) (inDegree : degrees) (queue : list string)
  : degrees * list string :=
  match dependents with
  | [] => (inDegree, queue)
  | d :: dependents' =>
      let k := default 0 (inDegree !! d) - 1 in
      relax dependents' (<[d := k]> inDegree) (if k =? 0 then queue ++ [d] else queue)
  end.

(** [for len(queue) > 0]; [None] when the fuel runs out before the queue. *)
Fixpoint drain (fuel : nat) (deps : depmap) (queue : list string) (inDegree : degrees)
    (order : list string) : option (list string) :=
  match queue with
  | [] => Some order
  | name :: queue =>
      match fuel with
      | O => None
      | S fuel =>
          let '(inDegree, queue) :=
            relax (sort_strings (default [] (deps !! name))) inDegree queue in
          drain fuel deps queue inDegree (order ++ [name])
      end
  end.

Section Order.
Context (visit : list (string * moduleEntry) -> list (string * moduleEntry)).
Context (vdeg : list (string * Z) -> list (string * Z)).

(** [computeStartOrder]: [visit] and [vdeg] are the orders in which the two
    loops visit their maps.  [None] is a loop that has not ended. *)
Definition computeStartOrder (r : registry) : option (rerror + list string) :=
  let ms := modules r in
  match build_graph ms (visit (map_to_list ms)) ((fun _ => 0) <$> ms) ((fun _ => []) <$> ms) with
  | inl (name, dep) => Some (inl (ErrUnregistered name dep))
  | inr (inDegree, deps) =>
      let queue := sort_strings (omap (fun x : string * Z => if x.2 =? 0 then Some x.1 else None)
                                      (vdeg (map_to_list inDegree))) in
      match drain (size ms) deps queue inDegree [] with
      | None => None
      | Some order =>
          Some (if Nat.eqb (length order) (size ms) then inr order else inl ErrCircular)
      end
  end.

(** ** StartAll and StopAll *)

Inductive action :=
  | CallInit (name : string) | CallStart (name : string) | CallStop (name : string)
  | ModuleStarted (name : string) | ModuleErrored (name : string) (e : string)
  | ModuleStopped (name : string).

Definition set_entry (r : registry) (name : string) (f : moduleEntry -> moduleEntry) : registry :=
  mkRegistry (alter f name (modules r)) (order r).
Definition set_state (s : ModuleState) (e : moduleEntry) : moduleEntry :=
  mkEntry (module e) s (err e).
Definition set_failed (x : string) (e : moduleEntry) : moduleEntry :=
  mkEntry (module e) ModuleStateError (Some x).

Record outcomes := mkOutcomes {
  Init_err : string -> option string;
  Start_err : string -> option string;
  Stop_err : string -> option string
}.

(** The body of [StartAll]'s loop for one module of the order. *)
Definition start_one (o : outcomes) (r : registry) (name : string)
  : registry * list action * option rerror :=
  match modules r !! name with
  | None => (r, [], None)
  | Some e =>
      if decide (state e = ModuleStateRunning) then (r, [], None)
      else
        let '(r1, tr, ierr) :=
          if decide (state e = ModuleStateUninitialized) then
            match Init_err o name with
            | Some x => (r, [CallInit name], Some (ErrInit name x))
            | None => (set_entry r name (set_state ModuleStateInitialized), [CallInit name], None)
            end
          else (r, [], None) in
        match ierr with
        | Some x => (r1, tr, Some x)
        | None =>
            let r2 := set_entry r1 name (set_state ModuleStateStarting) in
            match Start_err o name with
            | Some x => (set_entry r2 name (set_failed x),
                         tr ++ [CallStart name; ModuleErrored name x], Some (ErrStart name x))
            | None => (set_entry r2 name (set_state ModuleStateRunning),
                       tr ++ [CallStart name; ModuleStarted name], None)
            end
        end
  end.

Fixpoint start_loop (o : outcomes) (l : list string) (r : registry)
  : registry * list action * option rerror :=
  match l with
  | [] => (r, [], None)
  | name :: l' =>
      let '(r1, tr, e) := start_one o r name in
      match e with
      | Some e => (r1, tr, Some e)
      | None => let '(r2, tr2, e2) := start_loop o l' r1 in (r2, tr ++ tr2, e2)
      end
  end.

Definition StartAll (o : outcomes) (r : registry)
  : option (registry * list action * option rerror) :=
  match computeStartOrder r with
  | None => None
  | Some (inl e) => Some (r, [], Some e)
  | Some (inr ord) => Some (start_loop o ord (mkRegistry (modules r) ord))
  end.

(** The body of [StopAll]'s loop; the error is the module's. *)
Definition stop_one (o : outcomes) (r : registry) (name : string)
  : registry * list action * option string :=
  match modules r !! name with
  | None => (r, [], None)
  | Some e =>
      if decide (state e = ModuleStateRunning) then
        let r1 := set_entry r name (set_state ModuleStateStopping) in
        match Stop_err o name with
        | Some x => (set_entry r1 name (set_failed x), [CallStop name], Some x)
        | None => (set_entry r1 name (set_state ModuleStateStopped),
                   [CallStop name; ModuleStopped name], None)
        end
      else (r, [], None)
  end.

Fixpoint stop_loop (o : outcomes) (l : list string) (r : registry) (lastErr : option string)
  : registry * list action * option string :=
  match l with
  | [] => (r, [], lastErr)
  | name :: l' =>
      let '(r1, tr, e) := stop_one o r name in
      let '(r2, tr2, e2) :=
        stop_loop o l' r1 (match e with Some x => Some x | None => lastErr end) in
      (r2, tr ++ tr2, e2)
  end.

Definition StopAll (o : outcomes) (r : registry) : registry * list action * option rerror :=
  let '(r', tr, e) := stop_loop o (reverse (order r)) r None in
  (r', tr, ErrStopping <$> e).

(** [HealthCheck]: [check] is each module's own health. *)
Definition HealthCheck {H} (check : string -> H) (down : string -> H) (r : registry)
  : gmap string H :=
  map_imap (fun name e =>
    Some (if decide (state e = ModuleStateRunning) then check name
          else down (String.append "module is in state: " (ModuleState_String (state e)))))
    (modules r).

(** ** lifecycle.Manager: Start and Stop *)

Record lifecycle := mkLifecycle {
  lc_registry : registry;
  lc_running : bool;
  lc_onStart : list (option string);   (** what each callback returns *)
  lc_cancelled : bool
}.

Inductive lerror := ErrAlreadyRunning | ErrPreStart (e : string) | ErrStartModules (e : rerror).

(** The first callback of [m.onStart] that fails. *)
Fixpoint run_onStart (l : list (option string)) : option string :=
  match l with
  | [] => None
  | Some e :: _ => Some e
  | None :: l' => run_onStart l'
  end.

Definition Start (o : outcomes) (m : lifecycle) : option (lifecycle * list action * option lerror) :=
  if lc_running m then Some (m, [], Some ErrAlreadyRunning)
  else match run_onStart (lc_onStart m) with
  | Some e => Some (m, [], Some (ErrPreStart e))
  | None =>
      match StartAll o (lc_registry m) with
      | None => None
      | Some (r, tr, e) =>
          match e with
          | Some e => Some (mkLifecycle r (lc_running m) (lc_onStart m) (lc_cancelled m), tr,
                            Some (ErrStartModules e))
          | None => Some (mkLifecycle r true (lc_onStart m) (lc_cancelled m), tr, None)
          end
      end
  end.

(** [Stop] reports no error: those of [StopAll] are logged. *)
Definition Stop (o : outcomes) (m : lifecycle) : lifecycle * list action :=
  if lc_running m then
    let '(r, tr, _) := StopAll o (lc_registry m) in
    (mkLifecycle r false (lc_onStart m) true, tr)
  else (m, []).

End Order.
End Registry.
