(* ===== verification/RegistryFacts.v ===== *)
(** Theorems on the module registry: the start order is a topological order
    whenever there is one, does not depend on the iteration order of Go's
    maps, and the start and stop sweeps follow it. *)

From Stdlib Require Import Permutation.
From S2P Require Import Prelude Registry.
Import Registry.


Abbreviation occ x l := (count_occ String.eq_dec l x).

Definition deps_of (ms : gmap string moduleEntry) (n : string) : list string :=
  from_option (fun e => Dependencies (module e)) [] (ms !! n).

Definition deg_of (d : degrees) (n : string) : Z := default 0 (d !! n).

Lemma occ_elem (x : string) l : x ∈ l <-> (0 < occ x l)%nat.
Proof. rewrite list_elem_of_In. rewrite (count_occ_In String.eq_dec). lia. Qed.

Lemma occ_cons (x y : string) l :
  occ x (y :: l) = ((if decide (y = x) then 1 else 0) + occ x l)%nat.
Proof.
  destruct (decide (y = x)) as [->|].
  - by rewrite count_occ_cons_eq.
  - by rewrite count_occ_cons_neq.
Qed.

Lemma sort_strings_perm l : sort_strings l ≡ₚ l.
Proof. apply merge_sort_Permutation. Qed.

Lemma sort_strings_ext l k : l ≡ₚ k -> sort_strings l = sort_strings k.
Proof.
  intros H. apply (StronglySorted_unique String.le).
  - apply StronglySorted_merge_sort; apply _.
  - apply StronglySorted_merge_sort; apply _.
  - by rewrite !sort_strings_perm.
Qed.

Lemma occ_sort x l : occ x (sort_strings l) = occ x l.
Proof. apply (Permutation_count_occ String.eq_dec), sort_strings_perm. Qed.

(** ** The dependency graph *)

Lemma add_deps_spec ms name l : forall deg deps,
  match add_deps ms name l deg deps with
  | inl (n, d) => n = name /\ d ∈ l /\ ms !! d = None
  | inr (deg', deps') =>
      Forall (fun d => is_Some (ms !! d)) l /\
      (forall n, deg_of deg' n = deg_of deg n + if decide (name = n) then len l else 0) /\
      (forall d n, occ n (default [] (deps' !! d)) =
         occ n (default [] (deps !! d)) + if decide (name = n) then occ d l else 0)%nat /\
      (forall n, is_Some (deg !! name) -> is_Some (deg' !! n) <-> is_Some (deg !! n))
  end.
Proof.
  induction l as [|d l IH]; intros deg deps; cbn [add_deps].
  { split_and!; [done|..]; intros; try (destruct (decide _); rewrite ?zlen_nil; simpl; lia). done. }
  destruct (ms !! d) as [e|] eqn:Hd; [|by split_and!; [|left|]].
  specialize (IH (<[name := default 0 (deg !! name) + 1]> deg)
                 (<[d := default [] (deps !! d) ++ [name]]> deps)).
  destruct (add_deps _ _ _ _ _) as [[n' d']|[deg' deps']].
  { destruct IH as (? & ? & ?). split_and!; [done|by right|done]. }
  destruct IH as (H1 & H2 & H3 & H4). split_and!.
  - constructor; [by rewrite Hd|done].
  - intros n. rewrite H2, zlen_cons. unfold deg_of. destruct (decide (name = n)) as [<-|].
    + rewrite lookup_insert_eq. simpl. lia.
    + rewrite lookup_insert_ne by done. lia.
  - intros d' n. rewrite H3, occ_cons. destruct (decide (d = d')) as [<-|].
    + rewrite lookup_insert_eq. simpl. rewrite count_occ_app, occ_cons. simpl.
      destruct (decide (name = n)); lia.
    + rewrite lookup_insert_ne by done. destruct (decide (name = n)); lia.
  - intros n Hn. rewrite H4 by (rewrite lookup_insert_eq; eauto).
    destruct (decide (n = name)) as [->|].
    + rewrite lookup_insert_eq. split; eauto.
    + by rewrite lookup_insert_ne.
Qed.

(** What the graph built from a list of modules contains. *)
Definition total_deps (it : list (string * moduleEntry)) (n : string) : list string :=
  it ≫= fun x => if decide (x.1 = n) then Dependencies (module x.2) else [].

Lemma total_deps_cons name e it n :
  total_deps ((name, e) :: it) n =
  (if decide (name = n) then Dependencies (module e) else []) ++ total_deps it n.
Proof. done. Qed.

Lemma build_graph_spec ms it : forall deg deps,
  (forall x, x ∈ it -> is_Some (deg !! x.1)) ->
  match build_graph ms it deg deps with
  | inl (n, d) => d ∈ total_deps it n /\ ms !! d = None
  | inr (deg', deps') =>
      (forall n, Forall (fun d => is_Some (ms !! d)) (total_deps it n)) /\
      (forall n, deg_of deg' n = deg_of deg n + len (total_deps it n)) /\
      (forall d n, occ n (default [] (deps' !! d)) =
         occ n (default [] (deps !! d)) + occ d (total_deps it n))%nat /\
      (forall n, is_Some (deg' !! n) <-> is_Some (deg !! n))
  end.
Proof.
  induction it as [|[name e] it IH]; intros deg deps Hdom; cbn [build_graph].
  { split_and!; intros; cbn; [constructor|rewrite zlen_nil; lia|lia|done]. }
  pose proof (add_deps_spec ms name (Dependencies (module e)) deg deps) as Ha.
  destruct (add_deps _ _ _ _ _) as [[n d]|[deg1 deps1]].
  { destruct Ha as (-> & Hd & Hm). split; [|done]. cbn. rewrite decide_True by done.
    apply elem_of_app. by left. }
  destruct Ha as (H1 & H2 & H3 & H4).
  assert (Hn : is_Some (deg !! name)) by (apply (Hdom (name, e)); left).
  specialize (IH deg1 deps1). destruct (build_graph _ _ _ _) as [[n d]|[deg' deps']].
  { destruct IH as (Hd & Hm); [intros x Hx; apply H4; [done|]; apply Hdom; by right|].
    split; [|done]. cbn. apply elem_of_app. by right. }
  destruct IH as (I1 & I2 & I3 & I4); [intros x Hx; apply H4; [done|]; apply Hdom; by right|].
  split_and!; intros; rewrite ?total_deps_cons.
  - apply Forall_app. split; [by destruct (decide _)|apply I1].
  - rewrite I2, H2, zlen_app.
    destruct (decide (name = n)); unfold zlen; simpl; lia.
  - rewrite I3, H3, count_occ_app.
    destruct (decide (name = n)); simpl; lia.
  - by rewrite I4, H4.
Qed.

Lemma total_deps_modules ms it n : it ≡ₚ map_to_list ms -> total_deps it n ≡ₚ deps_of ms n.
Proof.
  intros Hp. unfold total_deps. rewrite Hp. unfold deps_of.
  assert (Hnd := NoDup_fst_map_to_list ms).
  destruct (ms !! n) as [e|] eqn:Hn; cbn.
  - apply elem_of_map_to_list in Hn. apply list_elem_of_split in Hn as (l1 & l2 & Heq).
    rewrite Heq in Hnd |- *. rewrite fmap_app, fmap_cons in Hnd. cbn in Hnd.
    apply NoDup_app in Hnd as (_ & Hd & Hnd). apply NoDup_cons in Hnd as [Hn2 _].
    assert (Hnil : forall l, n ∉ l.*1 ->
      (l ≫= fun x : string * moduleEntry => if decide (x.1 = n) then Dependencies (module x.2) else []) = []).
    { clear. induction l as [|[m e] l IH]; [done|]. cbn. intros Hni.
      rewrite decide_False, IH; [done|set_solver..]. }
    rewrite bind_app, bind_cons. cbn. rewrite decide_True by done.
    rewrite !Hnil; [by rewrite app_nil_r|done|]. intros Hin. apply (Hd n Hin). left.
  - assert (Hnin : n ∉ (map_to_list ms).*1).
    { intros ([m e] & -> & Hin%elem_of_map_to_list)%list_elem_of_fmap. cbn in *. congruence. }
    clear -Hnin. induction (map_to_list ms) as [|[m e] l IH]; [done|]. cbn.
    rewrite decide_False by set_solver. apply IH. set_solver.
Qed.

(** ** The loop *)

(** The dependencies of [n] that are not in [l]. *)
Definition missing (ms : gmap string moduleEntry) (l : list string) (n : string) : list string :=
  filter (fun d => d ∉ l) (deps_of ms n).

Lemma missing_snoc ms l x n :
  x ∉ l -> len (missing ms (l ++ [x]) n) = len (missing ms l n) - Z.of_nat (occ x (deps_of ms n)).
Proof.
  intros Hx. unfold missing, zlen. induction (deps_of ms n) as [|d k IH]; [done|].
  rewrite !filter_cons, occ_cons. destruct (decide (d ∉ l)) as [Hd|Hd].
  - destruct (decide (d = x)) as [->|].
    + rewrite decide_False by (intros H; apply H, elem_of_app; right; left). simpl. lia.
    + rewrite decide_True by (rewrite elem_of_app, list_elem_of_singleton; tauto). simpl. lia.
  - rewrite decide_False by (rewrite elem_of_app; tauto).
    rewrite decide_False by (intros ->; done). lia.
Qed.

Lemma missing_nil ms l n : len (missing ms l n) = 0 <-> forall d, d ∈ deps_of ms n -> d ∈ l.
Proof.
  unfold missing. split.
  - intros H%zlen_zero d Hd. destruct (decide (d ∈ l)) as [|Hn]; [done|].
    assert (Hin : d ∈ filter (fun d => d ∉ l) (deps_of ms n)) by (by apply list_elem_of_filter).
    rewrite H in Hin. by apply not_elem_of_nil in Hin.
  - intros H. replace (filter _ _) with (@nil string); [done|]. symmetry.
    destruct (filter _ _) as [|d k] eqn:E; [done|].
    assert (Hin : d ∈ filter (fun d => d ∉ l) (deps_of ms n)) by (rewrite E; left).
    apply list_elem_of_filter in Hin as [? ?]. exfalso; auto.
Qed.

Lemma relax_spec l : forall deg q,
  exists deg' new, relax l deg q = (deg', q ++ new) /\ NoDup new /\
    (forall n, deg_of deg' n = deg_of deg n - Z.of_nat (occ n l)) /\
    (forall n, n ∈ new <-> 1 <= deg_of deg n <= Z.of_nat (occ n l)).
Proof.
  induction l as [|d l IH]; intros deg q; cbn [relax].
  { exists deg, []. rewrite app_nil_r. split_and!; [done|constructor|simpl; lia|].
    intros n. rewrite elem_of_nil. simpl. lia. }
  set (k := default 0 (deg !! d) - 1).
  set (q1 := if k =? 0 then q ++ [d] else q).
  destruct (IH (<[d := k]> deg) q1) as (deg' & new & E & Hnd & Hdeg & Hnew).
  assert (Hd : forall n, deg_of (<[d := k]> deg) n = deg_of deg n - if decide (d = n) then 1 else 0).
  { intros n. unfold deg_of. destruct (decide (d = n)) as [<-|].
    - by rewrite lookup_insert_eq.
    - rewrite lookup_insert_ne by done. lia. }
  assert (Hk : k = deg_of deg d - 1) by done.
  exists deg', (if k =? 0 then d :: new else new). rewrite E. split_and!.
  - unfold q1. destruct (k =? 0); [by rewrite <- app_assoc|done].
  - destruct (Z.eqb_spec k 0); [|done]. constructor; [|done].
    rewrite Hnew, Hd. rewrite decide_True by done. lia.
  - intros n. rewrite Hdeg, Hd, occ_cons. destruct (decide (d = n)); lia.
  - intros n. rewrite occ_cons. specialize (Hnew n). rewrite Hd in Hnew.
    destruct (Z.eqb_spec k 0).
    + rewrite elem_of_cons, Hnew. destruct (decide (d = n)) as [<-|].
      { split; [intros _; lia|by left]. }
      split; [intros [->|]; [done|lia]|intros; right; lia].
    + rewrite Hnew. destruct (decide (d = n)) as [<-|]; lia.
Qed.

Record loop_inv (ms : gmap string moduleEntry) (queue : list string) (deg : degrees)
    (order : list string) : Prop := {
  inv_nodup : NoDup (order ++ queue);
  inv_dom : forall n, n ∈ order ++ queue -> is_Some (ms !! n);
  inv_deg : forall n, deg_of deg n = len (missing ms order n);
  inv_ready : forall n, is_Some (ms !! n) -> n ∈ order ++ queue <-> len (missing ms order n) = 0;
  inv_prec : forall l1 n l2, order = l1 ++ n :: l2 -> forall d, d ∈ deps_of ms n -> d ∈ l1
}.

Section Loop.
Context (ms : gmap string moduleEntry) (deps : depmap).
Context (deps_ok : forall d n, occ n (default [] (deps !! d)) = occ d (deps_of ms n)).

Lemma loop_inv_step name queue deg order :
  loop_inv ms (name :: queue) deg order ->
  let '(deg', queue') := relax (sort_strings (default [] (deps !! name))) deg queue in
  loop_inv ms queue' deg' (order ++ [name]).
Proof.
  intros [Hnd Hdom Hdeg Hready Hprec].
  destruct (relax_spec (sort_strings (default [] (deps !! name))) deg queue)
    as (deg' & new & -> & Hnew & Hdeg' & Hin).
  apply NoDup_app in Hnd as (Ho & Hoq & Hq). apply NoDup_cons in Hq as [Hnq Hq].
  assert (Hno : name ∉ order) by (intros H; apply (Hoq name H); left).
  assert (Hmiss : forall n, deg_of deg' n = len (missing ms (order ++ [name]) n)).
  { intros n. by rewrite missing_snoc, Hdeg', Hdeg, occ_sort, deps_ok. }
  assert (Hin' : forall n, n ∈ new <-> 1 <= len (missing ms order n) /\
                                 len (missing ms (order ++ [name]) n) = 0).
  { intros n. pose proof (zlen_nonneg (missing ms (order ++ [name]) n)).
    rewrite Hin, Hdeg, <- Hmiss, Hdeg', Hdeg, occ_sort. rewrite <- Hmiss, Hdeg', Hdeg, occ_sort in *. lia. }
  assert (Hms : forall n, n ∈ new -> is_Some (ms !! n)).
  { intros n [H1 _]%Hin'. unfold missing, deps_of in H1. destruct (ms !! n); [done|].
    change (1 <= 0) in H1. lia. }
  assert (Hold : forall n, n ∈ order ++ name :: queue <-> n ∈ (order ++ [name]) ++ queue).
  { intros n. by rewrite <- app_assoc. }
  assert (Hzero : forall n, n ∈ order ++ name :: queue -> len (missing ms order n) = 0).
  { intros n Hn. apply Hready; auto. }
  split.
  - rewrite app_assoc. apply NoDup_app. split_and!; [|intros x Hx Hx'|done].
    + rewrite <- app_assoc. cbn. apply NoDup_app. split_and!; [done..|by constructor].
    + apply Hold, Hzero in Hx. apply Hin' in Hx'. lia.
  - intros n. rewrite app_assoc, elem_of_app, <- Hold. intros [|]; auto.
  - done.
  - intros n Hn. rewrite app_assoc, elem_of_app, <- Hold, Hready, Hin' by done.
    pose proof (zlen_nonneg (missing ms order n)).
    pose proof (zlen_nonneg (missing ms (order ++ [name]) n)).
    pose proof (missing_snoc ms order name n Hno). lia.
  - intros l1 n l2 Heq d Hd.
    destruct (decide (l2 = [])) as [->|Hl2].
    + apply app_inj_tail in Heq as [-> ->].
      apply (proj1 (missing_nil ms l1 n)); [|done]. apply Hzero, elem_of_app. right. left.
    + destruct (exists_last Hl2) as (l3 & y & ->).
      rewrite app_comm_cons, app_assoc in Heq. apply app_inj_tail in Heq as [-> _]. eauto.
Qed.

Lemma loop_inv_size queue deg order :
  loop_inv ms queue deg order -> (length order + length queue <= size ms)%nat.
Proof.
  intros [Hnd Hdom _ _ _]. rewrite <- length_app, <- size_dom.
  rewrite <- (size_list_to_set (C := gset string)) by done.
  apply subseteq_size. intros n Hn%elem_of_list_to_set. by apply elem_of_dom, Hdom.
Qed.

Lemma drain_inv fuel : forall queue deg order,
  loop_inv ms queue deg order -> (size ms <= fuel + length order)%nat ->
  exists deg' ord, drain fuel deps queue deg order = Some ord /\ loop_inv ms [] deg' ord.
Proof.
  induction fuel as [|fuel IH]; intros queue deg order Hinv Hf;
    destruct queue as [|name queue]; cbn [drain]; eauto.
  - apply loop_inv_size in Hinv. simpl in Hinv. lia.
  - pose proof (loop_inv_step _ _ _ _ Hinv) as Hs.
    destruct (relax _ _ _) as [deg' queue']. apply IH in Hs; [done|].
    rewrite length_app. simpl. lia.
Qed.

End Loop.

Definition graph_of (ms : gmap string moduleEntry) (it : list (string * moduleEntry)) :=
  build_graph ms it ((fun _ => 0) <$> ms) ((fun _ => []) <$> ms).

Lemma graph_of_spec ms it :
  it ≡ₚ map_to_list ms ->
  match graph_of ms it with
  | inl (n, d) => d ∈ deps_of ms n /\ ms !! d = None
  | inr (deg, deps) =>
      (forall n d, d ∈ deps_of ms n -> is_Some (ms !! d)) /\
      (forall n, deg_of deg n = len (deps_of ms n)) /\
      (forall d n, occ n (default [] (deps !! d)) = occ d (deps_of ms n)) /\
      (forall n, is_Some (deg !! n) <-> is_Some (ms !! n))
  end.
Proof.
  intros Hp. unfold graph_of.
  pose proof (build_graph_spec ms it ((fun _ => 0) <$> ms) ((fun _ => []) <$> ms)) as H.
  assert (Ht := fun n => total_deps_modules ms it n Hp).
  destruct (build_graph _ _ _ _) as [[n d]|[deg deps]].
  - destruct H as [Hd Hm]; [|by rewrite Ht in Hd].
    intros [n' e] Hx. rewrite Hp in Hx. apply elem_of_map_to_list in Hx.
    cbn. by rewrite lookup_fmap, Hx.
  - destruct H as (H1 & H2 & H3 & H4).
    { intros [n' e] Hx. rewrite Hp in Hx. apply elem_of_map_to_list in Hx.
      cbn. by rewrite lookup_fmap, Hx. }
    split_and!.
    + intros n d Hd. specialize (H1 n). rewrite Ht, Forall_forall in H1. auto.
    + intros n. rewrite H2, Ht. unfold deg_of. rewrite lookup_fmap. by destruct (ms !! n).
    + intros d n. rewrite H3, lookup_fmap.
      rewrite (proj1 (Permutation_count_occ String.eq_dec _ _) (Ht n) d). by destruct (ms !! d).
    + intros n. rewrite H4, lookup_fmap. by rewrite fmap_is_Some.
Qed.

Definition roots (it : list (string * Z)) : list string :=
  omap (fun x : string * Z => if x.2 =? 0 then Some x.1 else None) it.

Lemma elem_of_roots it n : n ∈ roots it <-> (n, 0) ∈ it.
Proof.
  unfold roots. rewrite list_elem_of_omap. split.
  - intros ([m z] & Hin & H). cbn in H. destruct (Z.eqb_spec z 0); naive_solver.
  - intros H. exists (n, 0). done.
Qed.

Lemma roots_NoDup (deg : degrees) it : it ≡ₚ map_to_list deg -> NoDup (roots it).
Proof.
  intros Hp. assert (Hnd : NoDup it.*1) by (rewrite Hp; apply NoDup_fst_map_to_list). clear Hp.
  induction it as [|[m z] it IH]; [constructor|]. cbn in *. apply NoDup_cons in Hnd as [H1 H2].
  destruct (z =? 0); [|auto]. constructor; [|auto].
  intros Hin%elem_of_roots%(list_elem_of_fmap_2 fst). done.
Qed.

Lemma loop_inv_init ms deg it :
  it ≡ₚ map_to_list deg -> (forall n, deg_of deg n = len (deps_of ms n)) ->
  (forall n, is_Some (deg !! n) <-> is_Some (ms !! n)) ->
  loop_inv ms (sort_strings (roots it)) deg [].
Proof.
  intros Hp Hdeg Hdom.
  assert (Hm : forall n, len (missing ms [] n) = len (deps_of ms n)).
  { intros n. unfold missing. f_equal. induction (deps_of ms n) as [|d l IH]; [done|].
    rewrite filter_cons, decide_True by apply not_elem_of_nil. by f_equal. }
  assert (Hin : forall n, n ∈ sort_strings (roots it) <-> deg !! n = Some 0).
  { intros n. rewrite sort_strings_perm, elem_of_roots, Hp. apply elem_of_map_to_list. }
  split; cbn [app].
  - rewrite sort_strings_perm. by eapply roots_NoDup.
  - intros n. rewrite Hin. intros H. apply Hdom. eauto.
  - intros n. by rewrite Hm.
  - intros n [e He]. rewrite Hin, Hm, <- Hdeg. unfold deg_of.
    destruct (proj2 (Hdom n)) as [z ->]; [eauto|]. cbn. split; [by intros [= ->]|by intros ->].
  - intros l1 n l2 H. by destruct l1.
Qed.

(** What each answer of [computeStartOrder] means. *)
Definition start_order_spec (ms : gmap string moduleEntry) (res : rerror + list string) : Prop :=
  match res with
  | inr ord =>
      ord ≡ₚ elements (dom ms) /\
      forall l1 n l2, ord = l1 ++ n :: l2 -> forall d, d ∈ deps_of ms n -> d ∈ l1
  | inl (ErrUnregistered n d) => d ∈ deps_of ms n /\ ms !! d = None
  | inl ErrCircular =>
      exists c : gset string, c <> ∅ /\ c ⊆ dom ms /\
        forall n, n ∈ c -> exists d, d ∈ deps_of ms n /\ d ∈ c
  | inl _ => False
  end.

Lemma start_order_holds visit vdeg r :
  (forall l, visit l ≡ₚ l) -> (forall l, vdeg l ≡ₚ l) ->
  exists res, computeStartOrder visit vdeg r = Some res /\ start_order_spec (modules r) res.
Proof.
  intros Hv Hd. unfold computeStartOrder. set (ms := modules r).
  pose proof (graph_of_spec ms (visit (map_to_list ms)) (Hv _)) as Hg. unfold graph_of in Hg.
  destruct (build_graph _ _ _ _) as [[n d]|[deg deps]]; [by eexists|].
  destruct Hg as (Hreg & Hdeg & Hocc & Hdom). fold (roots (vdeg (map_to_list deg))).
  pose proof (loop_inv_init ms deg (vdeg (map_to_list deg)) (Hd _) Hdeg Hdom) as Hinv.
  destruct (drain_inv ms deps Hocc (size ms) _ _ _ Hinv) as (deg' & ord & -> & Hend); [lia|].
  eexists. split; [done|]. pose proof Hend as [Hnd Hin _ Hready Hprec].
  rewrite app_nil_r in *.
  destruct (Nat.eqb_spec (length ord) (size ms)) as [Hlen|Hlen].
  - split; [|done]. apply Permutation_sym, submseteq_length_Permutation.
    + apply NoDup_submseteq; [apply NoDup_elements|]. intros n Hn%elem_of_elements.
      destruct (decide (n ∈ ord)) as [|Hno]; [done|]. exfalso.
      assert (Hs : (size (list_to_set ord ∪ {[n]} : gset string) <= size (dom ms))%nat).
      { apply subseteq_size. intros m [Hm%elem_of_list_to_set|Hm%elem_of_singleton]%elem_of_union.
        - by apply elem_of_dom, Hin.
        - by subst. }
      rewrite size_union, size_list_to_set, size_singleton, size_dom in Hs by set_solver. lia.
    + rewrite Hlen, <- size_dom. done.
  - exists (dom ms ∖ list_to_set ord). split_and!; [|set_solver|].
    + intros Hempty. apply Hlen. rewrite <- size_dom, <- (size_list_to_set (C := gset string)) by done.
      f_equal. apply leibniz_equiv. intros n. rewrite elem_of_list_to_set. split.
      * intros Hn. by apply elem_of_dom, Hin.
      * intros Hn. destruct (decide (n ∈ ord)); [done|]. set_solver.
    + intros n [Hn%elem_of_dom Hno]%elem_of_difference. rewrite elem_of_list_to_set in Hno.
      rewrite Hready, missing_nil in Hno by done.
      destruct (decide (Exists (fun d => d ∉ ord) (deps_of ms n))) as [He|Hne].
      * apply Exists_exists in He as (d & Hd1 & Hd2). exists d. split; [done|].
        apply elem_of_difference. split; [apply elem_of_dom; eauto|].
        by rewrite elem_of_list_to_set.
      * exfalso. apply Hno. intros d Hd'. rewrite <- Forall_Exists_neg, Forall_forall in Hne.
        apply dec_stable. by apply Hne.
Qed.

(** C6: [computeStartOrder] always ends, whatever the modules and the order in
    which Go visits its maps.  A list it returns has every module once and each
    one after all its dependencies; an "unregistered" error names a dependency
    that is not registered; a "circular" error means there is a non-empty set
    of modules in which each depends on another of the set. *)
Theorem start_order_correct visit vdeg r :
  (forall l, visit l ≡ₚ l) -> (forall l, vdeg l ≡ₚ l) ->
  exists res, computeStartOrder visit vdeg r = Some res /\ start_order_spec (modules r) res.
Proof. apply start_order_holds. Qed.

Lemma drain_ext fuel : forall deps1 deps2 queue deg order,
  (forall n, default [] (deps1 !! n) ≡ₚ default [] (deps2 !! n)) ->
  drain fuel deps1 queue deg order = drain fuel deps2 queue deg order.
Proof.
  induction fuel as [|fuel IH]; intros deps1 deps2 [|name queue] deg order Hd; cbn [drain];
    [done..|]. rewrite (sort_strings_ext _ _ (Hd name)). destruct (relax _ _ _). by apply IH.
Qed.

Definition unregistered (res : rerror + list string) : Prop :=
  exists n d, res = inl (ErrUnregistered n d).

(** The answer of [computeStartOrder] does not depend on the order in
    which Go visits its maps, which differs from run to run: two runs return
    the same order, or both the circularity error, or both an error about an
    unregistered dependency (perhaps not the same one). *)
Theorem start_order_stable visit1 vdeg1 visit2 vdeg2 r :
  (forall l, visit1 l ≡ₚ l) -> (forall l, vdeg1 l ≡ₚ l) ->
  (forall l, visit2 l ≡ₚ l) -> (forall l, vdeg2 l ≡ₚ l) ->
  computeStartOrder visit1 vdeg1 r = computeStartOrder visit2 vdeg2 r \/
  exists res1 res2, computeStartOrder visit1 vdeg1 r = Some res1 /\
    computeStartOrder visit2 vdeg2 r = Some res2 /\ unregistered res1 /\ unregistered res2.
Proof.
  intros Hv1 Hd1 Hv2 Hd2. unfold computeStartOrder. set (ms := modules r).
  pose proof (graph_of_spec ms (visit1 (map_to_list ms)) (Hv1 _)) as G1.
  pose proof (graph_of_spec ms (visit2 (map_to_list ms)) (Hv2 _)) as G2.
  unfold graph_of in *.
  destruct (build_graph ms (visit1 _) _ _) as [[n1 e1]|[deg1 deps1]],
           (build_graph ms (visit2 _) _ _) as [[n2 e2]|[deg2 deps2]].
  - right. eexists _, _. split_and!; [done|done|by eexists _, _..].
  - destruct G1 as [H1 H2], G2 as (H3 & _). apply H3 in H1 as [? ?]. congruence.
  - destruct G2 as [H1 H2], G1 as (H3 & _). apply H3 in H1 as [? ?]. congruence.
  - left. destruct G1 as (_ & D1 & O1 & S1), G2 as (_ & D2 & O2 & S2).
    assert (Hdeg : deg1 = deg2).
    { apply map_eq. intros n. specialize (D1 n). specialize (D2 n). specialize (S1 n).
      specialize (S2 n). unfold deg_of in *. rewrite <- D2 in D1. rewrite <- S2 in S1.
      destruct (deg1 !! n), (deg2 !! n); cbn in *; [by f_equal| | |done].
      - destruct (proj1 S1) as [? [=]]; eauto.
      - destruct (proj2 S1) as [? [=]]; eauto. }
    subst deg2. fold (roots (vdeg1 (map_to_list deg1))). fold (roots (vdeg2 (map_to_list deg1))).
    rewrite (sort_strings_ext (roots (vdeg1 _)) (roots (vdeg2 (map_to_list deg1)))).
    2: { unfold roots. by rewrite Hd1, Hd2. }
    rewrite (drain_ext _ deps1 deps2); [done|]. intros n.
    apply (Permutation_count_occ String.eq_dec). intros x. by rewrite O1, O2.
Qed.

(** ** The sweeps *)

Definition st (r : registry) (n : string) : option ModuleState := state <$> modules r !! n.

Lemma set_entry_st r n s m :
  st (set_entry r n (set_state s)) m =
  if decide (n = m) then (fun _ => s) <$> st r m else st r m.
Proof.
  unfold st, set_entry. cbn. destruct (decide (n = m)) as [<-|].
  - rewrite lookup_alter_eq. by destruct (modules r !! n).
  - by rewrite lookup_alter_ne.
Qed.

Lemma set_failed_st r n x m :
  st (set_entry r n (set_failed x)) m =
  if decide (n = m) then (fun _ => ModuleStateError) <$> st r m else st r m.
Proof.
  unfold st, set_entry. cbn. destruct (decide (n = m)) as [<-|].
  - rewrite lookup_alter_eq. by destruct (modules r !! n).
  - by rewrite lookup_alter_ne.
Qed.

Lemma set_entry_frame r n f :
  (forall e, module (f e) = module e) ->
  order (set_entry r n f) = order r /\ dom (modules (set_entry r n f)) = dom (modules r) /\
  forall m, deps_of (modules (set_entry r n f)) m = deps_of (modules r) m.
Proof.
  intros Hf. split_and!; [done|apply dom_alter_L|]. intros m. unfold deps_of. cbn.
  destruct (decide (n = m)) as [<-|].
  - rewrite lookup_alter_eq. destruct (modules r !! n); cbn; by rewrite ?Hf.
  - by rewrite lookup_alter_ne.
Qed.

(** The parts of the registry no sweep changes. *)
Definition same_shape (r r' : registry) : Prop :=
  order r' = order r /\ dom (modules r') = dom (modules r) /\
  forall m, deps_of (modules r') m = deps_of (modules r) m.

#[local] Instance same_shape_po : PreOrder same_shape.
Proof.
  split; [done|]. intros a b c (?&?&H1) (?&?&H2). split_and!; [congruence..|].
  intros m. by rewrite H2, H1.
Qed.

Lemma set_entry_shape r n f : (forall e, module (f e) = module e) -> same_shape r (set_entry r n f).
Proof. apply set_entry_frame. Qed.

Lemma start_one_spec o r n r' tr err :
  is_Some (modules r !! n) -> start_one o r n = (r', tr, err) ->
  same_shape r r' /\ (forall m, m <> n -> st r' m = st r m) /\
  (err = None -> st r' n = Some ModuleStateRunning /\
                 (st r n = Some ModuleStateRunning \/ ModuleStarted n ∈ tr)) /\
  (err <> None -> st r n <> Some ModuleStateRunning /\ st r' n <> Some ModuleStateRunning) /\
  (forall m, CallStart m ∈ tr -> m = n).
Proof.
  intros [e He] E. unfold start_one in E. rewrite He in E.
  assert (Hst : st r n = Some (state e)) by (unfold st; by rewrite He).
  destruct (decide (state e = ModuleStateRunning)) as [Hr|Hr].
  { simplify_eq. rewrite Hst, Hr. split_and!; try done; auto. intros m []%elem_of_nil. }
  destruct (decide (state e = ModuleStateUninitialized)) as [Hu|Hu];
    [destruct (Init_err o n) as [x|]|].
  { simplify_eq. rewrite Hst. split_and!; try done; [naive_solver|].
    intros m Hm%list_elem_of_singleton. done. }
  all: destruct (Start_err o n) as [x|]; simplify_eq.
  all: refine (conj _ (conj _ (conj _ (conj _ _)))); [repeat (etrans; [|by apply set_entry_shape]); done
    | intros m Hm; by rewrite ?set_failed_st, ?set_entry_st, !decide_False by done
    | intros ?; first [done | rewrite !set_entry_st, Hst, !decide_True by done; split; [done|right]]
    | intros ?; first [done | rewrite ?set_failed_st, !set_entry_st, Hst, !decide_True by done;
      split; naive_solver]
    | intros m; cbn; rewrite ?elem_of_cons, elem_of_nil; naive_solver].
  all: cbn; rewrite !elem_of_cons; naive_solver.
Qed.

Lemma start_loop_spec o l : forall r r' tr err,
  (forall n, n ∈ l -> is_Some (modules r !! n)) -> start_loop o l r = (r', tr, err) ->
  same_shape r r' /\ (forall m, m ∉ l -> st r' m = st r m) /\
  (forall m, st r m = Some ModuleStateRunning -> st r' m = Some ModuleStateRunning) /\
  (err = None -> forall n, n ∈ l -> st r' n = Some ModuleStateRunning) /\
  (forall tr1 n tr2, tr = tr1 ++ CallStart n :: tr2 ->
     exists l1 l2, l = l1 ++ n :: l2 /\
       forall d, d ∈ l1 -> st r d = Some ModuleStateRunning \/ ModuleStarted d ∈ tr1).
Proof.
  induction l as [|a l IH]; intros r r' tr err Hin E; cbn [start_loop] in E.
  { simplify_eq. split_and!; try done; [intros _ n []%elem_of_nil|]. intros [|] n tr2 [=]. }
  destruct (start_one o r a) as [[r1 tra] ea] eqn:Ea.
  apply start_one_spec in Ea as (Hs & Hoth & Hok & Hko & Hcall); [|apply Hin; left].
  assert (Ha : forall tr1 n tr2 k, tra = tr1 ++ CallStart n :: tr2 -> a :: k = [] ++ n :: k).
  { intros tr1 n tr2 k ->. rewrite (Hcall n); [done|]. apply elem_of_app. right. left. }
  destruct ea as [ea|].
  { simplify_eq. destruct Hko as [Hk1 Hk2]; [done|]. split_and!; try done.
    - intros m Hm. apply Hoth. set_solver.
    - intros m Hm. destruct (decide (m = a)) as [->|]; [done|]. by rewrite Hoth.
    - intros tr1 n tr2 E. exists [], l. split; [by eapply Ha|]. by intros d []%elem_of_nil. }
  destruct (start_loop o l r1) as [[r2 tr2'] e2] eqn:El. simplify_eq.
  destruct Hok as [Hrun Hstarted]; [done|].
  assert (Hdom : forall n, n ∈ l -> is_Some (modules r1 !! n)).
  { intros n Hn. apply elem_of_dom. destruct Hs as (_ & -> & _). apply elem_of_dom, Hin. by right. }
  destruct (IH _ _ _ _ Hdom El) as (I1 & I2 & I3 & I4 & I5). split_and!.
  - by etrans.
  - intros m Hm. rewrite I2, Hoth; set_solver.
  - intros m Hm. apply I3. destruct (decide (m = a)) as [->|]; [done|]. by rewrite Hoth.
  - intros He n [->|Hn]%elem_of_cons; [by apply I3|auto].
  - intros tr1 n tr2 E. apply app_eq_app in E as (k & [[-> E]|[-> E]]).
    + destruct k as [|x k]; cbn in E; simplify_eq.
      * destruct (I5 [] n tr2) as (l1 & l2 & -> & Hl); [done|].
        exists (a :: l1), l2. split; [done|]. rewrite app_nil_r in *.
        intros d [->|Hd]%elem_of_cons; [done|]. destruct (Hl d Hd) as [H|[]%elem_of_nil].
        destruct (decide (d = a)) as [->|]; [done|]. left. by rewrite <- Hoth.
      * exists [], l. split; [by eapply Ha|]. by intros d []%elem_of_nil.
    + destruct (I5 k n tr2) as (l1 & l2 & -> & Hl); [done|].
      exists (a :: l1), l2. split; [done|]. intros d [->|Hd]%elem_of_cons.
      * destruct Hstarted; [by left|]. right. apply elem_of_app. by left.
      * destruct (Hl d Hd) as [H|H]; [|right; apply elem_of_app; by right].
        destruct (decide (d = a)) as [->|]; [|left; by rewrite <- Hoth].
        destruct Hstarted; [by left|]. right. apply elem_of_app. by left.
Qed.

(** When the start order exists, [StartAll] calls [Start] on a module only
    after each of its dependencies was running already or has been started in
    the same sweep; without an error every registered module ends up running;
    with one (an [Init] or a [Start] that failed) the sweep has stopped, and no
    module that was running stopped running. *)
Theorem start_all_ordered visit vdeg o r r' tr e :
  (forall l, visit l ≡ₚ l) -> (forall l, vdeg l ≡ₚ l) ->
  StartAll visit vdeg o r = Some (r', tr, e) ->
  (forall tr1 n tr2, tr = tr1 ++ CallStart n :: tr2 ->
     forall d, d ∈ deps_of (modules r) n ->
     st r d = Some ModuleStateRunning \/ ModuleStarted d ∈ tr1) /\
  (e = None -> forall n, is_Some (modules r !! n) -> st r' n = Some ModuleStateRunning) /\
  (forall n, st r n = Some ModuleStateRunning -> st r' n = Some ModuleStateRunning).
Proof.
  intros Hv Hd E. unfold StartAll in E.
  destruct (start_order_holds visit vdeg r Hv Hd) as (res & Hres & Hspec).
  rewrite Hres in E. destruct res as [er|ord].
  { simplify_eq. split_and!; try done. intros [|] n tr2 [=]. }
  destruct Hspec as [Hperm Hprec]. injection E as E.
  assert (Hin : forall n, n ∈ ord <-> is_Some (modules r !! n)).
  { intros n. by rewrite Hperm, elem_of_elements, elem_of_dom. }
  apply start_loop_spec in E as (_ & _ & H3 & H4 & H5); [|intros n; apply Hin].
  split_and!.
  - intros tr1 n tr2 E d Hdep. destruct (H5 _ _ _ E) as (l1 & l2 & -> & Hl).
    apply Hl. by eapply Hprec.
  - intros He n Hn. by apply H4, Hin.
  - exact H3.
Qed.

Lemma stop_one_spec o r n r' tr e :
  stop_one o r n = (r', tr, e) ->
  same_shape r r' /\ (forall m, m <> n -> st r' m = st r m) /\
  st r' n <> Some ModuleStateRunning /\
  (st r n = Some ModuleStateRunning -> CallStop n ∈ tr /\
     st r' n = Some (if Stop_err o n is Some _ then ModuleStateError else ModuleStateStopped)) /\
  (e <> None <-> st r n = Some ModuleStateRunning /\ is_Some (Stop_err o n)) /\
  (forall m, CallStop m ∈ tr -> m = n).
Proof.
  unfold stop_one. intros E.
  destruct (modules r !! n) as [en|] eqn:He.
  2: { simplify_eq. assert (Hst : st r' n = None) by (unfold st; by rewrite He).
       rewrite Hst. split_and!; try done; [naive_solver|]. intros m []%elem_of_nil. }
  assert (Hst : st r n = Some (state en)) by (unfold st; by rewrite He).
  destruct (decide (state en = ModuleStateRunning)) as [Hr|Hr].
  2: { simplify_eq. rewrite Hst. split_and!; try done; [naive_solver..|]. intros m []%elem_of_nil. }
  destruct (Stop_err o n) as [x|] eqn:Hx; simplify_eq.
  all: refine (conj _ (conj _ (conj _ (conj _ (conj _ _)))));
    [repeat (etrans; [|by apply set_entry_shape]); done
    | intros m Hm; by rewrite ?set_failed_st, ?set_entry_st, !decide_False by done
    | by rewrite ?set_failed_st, !set_entry_st, Hst, !decide_True by done
    | intros _; rewrite ?set_failed_st, !set_entry_st, Hst, !decide_True by done; split; [left|done]
    | rewrite Hst, Hr; naive_solver
    | intros m; rewrite ?elem_of_cons, elem_of_nil; naive_solver].
Qed.

Lemma stop_loop_spec o l : forall r r' tr last e,
  NoDup l -> stop_loop o l r last = (r', tr, e) ->
  same_shape r r' /\ (forall m, m ∉ l -> st r' m = st r m) /\
  (forall n, n ∈ l -> st r' n <> Some ModuleStateRunning) /\
  (forall n, n ∈ l -> st r n = Some ModuleStateRunning -> CallStop n ∈ tr /\
     st r' n = Some (if Stop_err o n is Some _ then ModuleStateError else ModuleStateStopped)) /\
  (e <> None <-> last <> None \/
     exists n, n ∈ l /\ st r n = Some ModuleStateRunning /\ is_Some (Stop_err o n)) /\
  (forall tr1 n tr2, tr = tr1 ++ CallStop n :: tr2 ->
     exists l1 l2, l = l1 ++ n :: l2 /\
       forall m, m ∈ l1 -> st r m = Some ModuleStateRunning -> CallStop m ∈ tr1).
Proof.
  induction l as [|a l IH]; intros r r' tr last e Hnd E; cbn [stop_loop] in E.
  { simplify_eq. split_and!; try done; [intros n []%elem_of_nil..| |intros [|] n tr2 [=]].
    split; [by left|]. intros [|(n & []%elem_of_nil & _)]; done. }
  apply NoDup_cons in Hnd as [Hal Hnd].
  destruct (stop_one o r a) as [[r1 tra] ea] eqn:Ea.
  apply stop_one_spec in Ea as (Hs & Hoth & Hnr & Hcall & Herr & Hown).
  destruct (stop_loop o l r1 _) as [[r2 tr2'] e2] eqn:El. simplify_eq.
  destruct (IH _ _ _ _ _ Hnd El) as (I1 & I2 & I3 & I4 & I5 & I6).
  assert (Hl : forall n, n ∈ l -> st r1 n = st r n).
  { intros n Hn. apply Hoth. by intros ->. }
  split_and!.
  - by etrans.
  - intros m Hm. rewrite I2, Hoth; set_solver.
  - intros n [->|Hn]%elem_of_cons; [by rewrite I2|auto].
  - intros n [->|Hn]%elem_of_cons Hrun.
    + destruct (Hcall Hrun) as [? Hst]. split; [apply elem_of_app; by left|]. by rewrite I2.
    + rewrite <- Hl in Hrun by done. destruct (I4 n Hn Hrun). split; [|done].
      apply elem_of_app. by right.
  - rewrite I5. clear -Herr Hl. split.
    + intros [H|(n & Hn & Hrun & Hx)].
      * destruct ea as [x|]; [|by left]. right. exists a. split; [left|]. by apply Herr.
      * right. exists n. rewrite <- Hl by done. split; [by right|done].
    + intros [H|(n & [->|Hn]%elem_of_cons & Hrun & Hx)].
      * left. by destruct ea.
      * left. by destruct ea; [|destruct (proj2 Herr)].
      * right. exists n. by rewrite Hl.
  - intros tr1 n tr2 E. apply app_eq_app in E as (k & [[-> E]|[-> E]]).
    + destruct k as [|x k]; cbn in E; simplify_eq.
      * destruct (I6 [] n tr2) as (l1 & l2 & -> & Hl1); [done|]. rewrite app_nil_r in *.
        exists (a :: l1), l2. split; [done|]. intros m [->|Hm]%elem_of_cons Hrun; [by apply Hcall|].
        rewrite <- Hl in Hrun by (apply elem_of_app; by left).
        specialize (Hl1 m Hm Hrun). by apply elem_of_nil in Hl1.
      * exists [], l. split; [|intros m []%elem_of_nil].
        rewrite (Hown n); [done|]. apply elem_of_app. right. left.
    + destruct (I6 k n tr2) as (l1 & l2 & -> & Hl1); [done|].
      exists (a :: l1), l2. split; [done|]. intros m [->|Hm]%elem_of_cons Hrun; apply elem_of_app.
      * left. by apply Hcall.
      * right. apply Hl1; [done|]. rewrite Hl; [done|]. apply elem_of_app. by left.
Qed.

(** What every registry built by the operations satisfies: the recorded order
    lists modules once, after their dependencies, and every running module is
    in it. *)
Definition reg_inv (r : registry) : Prop :=
  NoDup (order r) /\ (forall n, n ∈ order r -> is_Some (modules r !! n)) /\
  (forall l1 n l2, order r = l1 ++ n :: l2 -> forall d, d ∈ deps_of (modules r) n -> d ∈ l1) /\
  (forall n, st r n = Some ModuleStateRunning -> n ∈ order r).

Inductive reachable : registry -> Prop :=
  | reach_new : reachable NewRegistry
  | reach_register m r : reachable r -> reachable (Register m r).1
  | reach_start visit vdeg o r r' tr e :
      (forall l, visit l ≡ₚ l) -> (forall l, vdeg l ≡ₚ l) -> reachable r ->
      StartAll visit vdeg o r = Some (r', tr, e) -> reachable r'
  | reach_stop o r : reachable r -> reachable (StopAll o r).1.1.

Lemma reg_inv_register m r : reg_inv r -> reg_inv (Register m r).1.
Proof.
  intros (H1 & H2 & H3 & H4). unfold Register. destruct m as [m|]; [|done].
  destruct (decide _) as [|_]; [done|]. destruct (modules r !! Name m) eqn:Hm; [done|].
  unfold reg_inv. cbn. split_and!; [done|..].
  - intros n Hn. apply lookup_insert_is_Some'. right. auto.
  - intros l1 n l2 Heq d. unfold deps_of. rewrite lookup_insert_ne; [by eapply H3|].
    intros <-. destruct (H2 (Name m)); [|congruence]. rewrite Heq. apply elem_of_app. right. left.
  - intros n. unfold st. cbn. destruct (decide (Name m = n)) as [<-|].
    + by rewrite lookup_insert_eq.
    + rewrite lookup_insert_ne by done. apply H4.
Qed.

Lemma reg_inv_start visit vdeg o r r' tr e :
  (forall l, visit l ≡ₚ l) -> (forall l, vdeg l ≡ₚ l) -> reg_inv r ->
  StartAll visit vdeg o r = Some (r', tr, e) -> reg_inv r'.
Proof.
  intros Hv Hd Hr E. unfold StartAll in E.
  destruct (start_order_holds visit vdeg r Hv Hd) as (res & Hres & Hspec). rewrite Hres in E.
  destruct res as [er|ord]; [by simplify_eq|]. destruct Hspec as [Hperm Hprec]. injection E as E.
  assert (Hin : forall n, n ∈ ord <-> is_Some (modules r !! n)).
  { intros n. by rewrite Hperm, elem_of_elements, elem_of_dom. }
  apply start_loop_spec in E as ((S1 & S2 & S3) & _); [|intros n; apply Hin]. cbn in *.
  split_and!.
  - rewrite S1, Hperm. apply NoDup_elements.
  - intros n. rewrite S1, Hin, <- !elem_of_dom, S2. done.
  - intros l1 n l2. rewrite S1, S3. eauto.
  - intros n Hn. rewrite S1, Hin, <- elem_of_dom, <- S2, elem_of_dom.
    unfold st in Hn. destruct (modules r' !! n); [eauto|done].
Qed.

Lemma reg_inv_stop o r : reg_inv r -> reg_inv (StopAll o r).1.1.
Proof.
  intros (H1 & H2 & H3 & H4). unfold StopAll.
  destruct (stop_loop o (reverse (order r)) r None) as [[r' tr] e] eqn:E. cbn.
  apply stop_loop_spec in E as ((S1 & S2 & S3) & I2 & I3 & _); [|by rewrite reverse_Permutation].
  split_and!.
  - by rewrite S1.
  - intros n. rewrite S1, <- elem_of_dom, S2, elem_of_dom. apply H2.
  - intros l1 n l2. rewrite S1, S3. eauto.
  - intros n Hn. rewrite S1. destruct (decide (n ∈ order r)) as [|Hno]; [done|].
    rewrite I2 in Hn; [auto|]. by rewrite elem_of_reverse.
Qed.

Lemma registry_reachable_inv r : reachable r -> reg_inv r.
Proof.
  induction 1; eauto using reg_inv_register, reg_inv_start, reg_inv_stop.
  split_and!; cbn; [constructor|intros n []%elem_of_nil|intros [|] n l2 [=]|done].
Qed.

(** In every registry the operations can build, [StopAll] calls [Stop] on
    a module only after every running module that depends on it; it reaches
    every running module even when some [Stop] fails, leaves none running, and
    reports an error exactly when the [Stop] of a running module did. *)
Theorem stop_all_reverse o r :
  reachable r ->
  let '(r', tr, e) := StopAll o r in
  (forall tr1 n tr2, tr = tr1 ++ CallStop n :: tr2 ->
     forall m, n ∈ deps_of (modules r) m -> st r m = Some ModuleStateRunning -> CallStop m ∈ tr1) /\
  (forall n, st r n = Some ModuleStateRunning -> CallStop n ∈ tr /\
     st r' n = Some (if Stop_err o n is Some _ then ModuleStateError else ModuleStateStopped)) /\
  (forall n, st r' n <> Some ModuleStateRunning) /\
  (e <> None <-> exists n, st r n = Some ModuleStateRunning /\ is_Some (Stop_err o n)).
Proof.
  intros (H1 & H2 & H3 & H4)%registry_reachable_inv. unfold StopAll.
  destruct (stop_loop o (reverse (order r)) r None) as [[r' tr] e] eqn:E.
  apply stop_loop_spec in E as (_ & I2 & I3 & I4 & I5 & I6); [|by rewrite reverse_Permutation].
  split_and!.
  - intros tr1 n tr2 Htr m Hdep Hrun. destruct (I6 _ _ _ Htr) as (l1 & l2 & Heq & Hl).
    apply Hl; [|done]. apply (f_equal reverse) in Heq.
    rewrite reverse_involutive, reverse_app, reverse_cons, <- app_assoc in Heq. cbn in Heq.
    pose proof (H4 m Hrun) as Hm. rewrite Heq in Hm, H1.
    apply NoDup_app in H1 as (Hnd1 & Hd & Hnd2). apply NoDup_cons in Hnd2 as [Hn _].
    apply elem_of_app in Hm as [Hm|[->|Hm]%elem_of_cons].
    + apply list_elem_of_split in Hm as (a & b & Hab). rewrite Hab, <- app_assoc in Heq.
      apply (H3 _ _ _ Heq) in Hdep. destruct (Hd n); [|left].
      rewrite Hab. apply elem_of_app. by left.
    + apply (H3 _ _ _ Heq) in Hdep. destruct (Hd n Hdep). left.
    + by rewrite elem_of_reverse in Hm.
  - intros n Hn. apply I4; [|done]. rewrite elem_of_reverse. auto.
  - intros n Hn. destruct (decide (n ∈ reverse (order r))) as [Hin|Hno]; [by apply (I3 n)|].
    apply Hno. rewrite elem_of_reverse. apply H4. by rewrite <- I2.
  - transitivity (e <> None); [by destruct e|]. rewrite I5. split.
    + intros [?|(n & _ & ?)]; [done|eauto].
    + intros (n & Hn & Hx). right. exists n. rewrite elem_of_reverse. auto.
Qed.

(** When [lifecycle.Manager.Start] fails in the middle, a later [Stop]
    makes no call and changes nothing: the modules that [Start] had already
    started go on running. *)
Theorem failed_start_never_stopped visit vdeg o o' m m' tr e :
  lc_running m = false ->
  Start visit vdeg o m = Some (m', tr, Some e) ->
  Stop o' m' = (m', []) /\
  forall n, st (lc_registry m') n = Some ModuleStateRunning ->
    st (lc_registry (Stop o' m').1) n = Some ModuleStateRunning.
Proof.
  intros Hr E. assert (Hm' : lc_running m' = false).
  { unfold Start in E. rewrite Hr in E. destruct (run_onStart _); [by simplify_eq|].
    destruct (StartAll _ _ _ _) as [[[r t] [x|]]|]; by simplify_eq. }
  unfold Stop. by rewrite Hm'.
Qed.

(** ** Witnesses *)

Definition no_err : outcomes := mkOutcomes (fun _ => None) (fun _ => None) (fun _ => None).
Definition fail_b : outcomes :=
  mkOutcomes (fun _ => None) (fun n => if decide (n = "b"%string) then Some "boom"%string else None)
             (fun _ => None).
Definition ex_reg : registry :=
  (Register (Some (mkModule "c" ["a"; "b"]))
    (Register (Some (mkModule "b" ["a"]))
      (Register (Some (mkModule "a" [])) NewRegistry).1).1).1.
Definition rev_visit {A} (l : list A) : list A := reverse l.
Lemma rev_visit_ok {A} (l : list A) : rev_visit l ≡ₚ l.
Proof. apply reverse_Permutation. Qed.

Example ex_order : computeStartOrder id id ex_reg = Some (inr ["a"; "b"; "c"]%string).
Proof. vm_compute. reflexivity. Qed.

Lemma start_order_correct_witness :
  exists res, computeStartOrder rev_visit rev_visit ex_reg = Some res /\
    start_order_spec (modules ex_reg) res.
Proof. apply (start_order_correct rev_visit rev_visit ex_reg); intros l; apply rev_visit_ok. Defined.

Lemma start_order_stable_witness :
  computeStartOrder rev_visit id ex_reg = computeStartOrder id rev_visit ex_reg.
Proof.
  destruct (start_order_stable rev_visit id id rev_visit ex_reg)
    as [H|(r1 & r2 & H & _ & (n & d & He) & _)];
    [intros l; apply rev_visit_ok|done|done|intros l; apply rev_visit_ok|exact H|].
  exfalso. rewrite He in H. vm_compute in H. discriminate.
Defined.

Lemma start_all_ordered_witness :
  exists r' tr, StartAll id id no_err ex_reg = Some (r', tr, None) /\
    st r' "c" = Some ModuleStateRunning.
Proof.
  destruct (StartAll id id no_err ex_reg) as [[[r' tr] e]|] eqn:E; [|by vm_compute in E].
  assert (He : e = None) by (vm_compute in E; congruence). subst e.
  exists r', tr. split; [done|].
  destruct (start_all_ordered id id no_err ex_reg r' tr None) as (_ & H & _);
    [done|done|exact E|].
  apply H; [done|]. vm_compute. eexists. reflexivity.
Defined.

Lemma stop_all_reverse_witness :
  exists r tr e, reachable r /\ StopAll no_err r = (tr, e) /\
    st r "c" = Some ModuleStateRunning /\ st tr.1 "c" = Some ModuleStateStopped.
Proof.
  destruct (StartAll id id no_err ex_reg) as [[[r' tr] e]|] eqn:E; [|by vm_compute in E].
  assert (Hr : reachable r').
  { eapply (reach_start id id no_err ex_reg); [done|done| |exact E].
    do 3 apply reach_register. apply reach_new. }
  assert (Hc : st r' "c" = Some ModuleStateRunning) by (vm_compute in E; by simplify_eq).
  exists r'. pose proof (stop_all_reverse no_err r' Hr) as H.
  destruct (StopAll no_err r') as [[r2 tr2] e2]. destruct H as (_ & H & _).
  exists (r2, tr2), e2. split_and!; try done. by apply (H "c"%string).
Defined.

Lemma failed_start_never_stopped_witness :
  exists m' tr e, Start id id fail_b (mkLifecycle ex_reg false [] false) = Some (m', tr, Some e) /\
    st (lc_registry m') "a" = Some ModuleStateRunning /\ Stop no_err m' = (m', []).
Proof.
  destruct (Start id id fail_b (mkLifecycle ex_reg false [] false)) as [[[m' tr] e]|] eqn:E;
    [|by vm_compute in E].
  assert (He : exists x, e = Some x) by (vm_compute in E; simplify_eq; eauto).
  destruct He as [x ->]. exists m', tr, x. split_and!; [done|by vm_compute in E; simplify_eq|].
  apply (failed_start_never_stopped id id fail_b no_err (mkLifecycle ex_reg false [] false) m' tr x); [|exact E]. reflexivity.
Defined.

