(* ===== verification/Cache.v ===== *)
(** The expiring cache of common/cache/cache.go over hashicorp's LRU cache.

    The LRU is third-party code: it is an interface ([LruOps]) with what its
    documentation promises ([LruLaws]), and an instance shows that the promises
    can be kept.  The LRU holds pointers to entries, which [Incr]
    updates in place, so entries live in a heap. *)

From S2P Require Import Prelude.

Module Cache.

(** ** The interface of github.com/hashicorp/golang-lru/v2 *)

Class LruOps := {
  lru : Type;
  lru_New : Z -> lru;
  lru_Get : string -> lru -> option nat * lru;
  lru_Add : string -> nat -> lru -> lru;
  lru_Remove : string -> lru -> lru;
  lru_Purge : lru -> lru;
  lru_Len : lru -> Z
}.

(** Reading moves an entry to the front and changes no binding; adding binds
    the key and may evict others, but none while there is room. *)
Class LruLaws (L : LruOps) := {
  lru_map : lru -> gmap string nat;
  lru_cap : lru -> Z;
  lru_New_map c : lru_map (lru_New c) = ∅;
  lru_New_cap c : lru_cap (lru_New c) = c;
  lru_Get_map k l : (lru_Get k l).1 = lru_map l !! k /\ lru_map (lru_Get k l).2 = lru_map l;
  lru_Get_cap k l : lru_cap (lru_Get k l).2 = lru_cap l;
  lru_Add_cap k p l : lru_cap (lru_Add k p l) = lru_cap l;
  lru_Add_key k p l : 0 < lru_cap l -> lru_map (lru_Add k p l) !! k = Some p;
  lru_Add_sub k p l : lru_map (lru_Add k p l) ⊆ <[k := p]> (lru_map l);
  lru_Add_room k p l : Z.of_nat (size (<[k := p]> (lru_map l))) <= lru_cap l ->
    lru_map (lru_Add k p l) = <[k := p]> (lru_map l);
  lru_Remove_map k l : lru_map (lru_Remove k l) = delete k (lru_map l);
  lru_Remove_cap k l : lru_cap (lru_Remove k l) = lru_cap l;
  lru_Purge_map l : lru_map (lru_Purge l) = ∅;
  lru_Purge_cap l : lru_cap (lru_Purge l) = lru_cap l;
  lru_Len_map l : lru_Len l = Z.of_nat (size (lru_map l))
}.

Definition defaultLRUCapacity : Z := 10000.

Record lruEntry (V : Type) := mkLruEntry { value : V; counter : Z; expiresAt : option Z }.
Arguments mkLruEntry {V}. Arguments value {V}. Arguments counter {V}. Arguments expiresAt {V}.

Section LRUCache.
Context {L : LruOps} {V : Type} (zero : V).

(** [c] holds pointers into [heap]. *)
Record LRUCache := mkLRUCache { c : lru; heap : list (lruEntry V) }.

Definition NewLRUCache (capacity : Z) : LRUCache :=
  mkLRUCache (lru_New (if capacity <=? 0 then defaultLRUCapacity else capacity)) [].

(** [!e.expiresAt.IsZero() && time.Now().After(e.expiresAt)]. *)
Definition expired (now : Z) (e : lruEntry V) : bool :=
  match expiresAt e with
  | None => false
  | Some t => t <? now
  end.

Definition deref (m : LRUCache) (p : option nat) : option (lruEntry V) := p ≫= fun p => heap m !! p.

Definition Get (now : Z) (key : string) (m : LRUCache) : V * LRUCache :=
  let '(p, c') := lru_Get key (c m) in
  let m' := mkLRUCache c' (heap m) in
  match deref m p with
  | None => (zero, m')
  | Some e =>
      if expired now e then (zero, mkLRUCache (lru_Remove key c') (heap m))
      else (value e, m')
  end.

(** Adding a fresh entry. *)
Definition add_entry (key : string) (e : lruEntry V) (m : LRUCache) : LRUCache :=
  mkLRUCache (lru_Add key (length (heap m)) (c m)) (heap m ++ [e]).

Definition Set_ (now : Z) (key : string) (v : V) (ttl : Z) (m : LRUCache) : LRUCache :=
  add_entry key (mkLruEntry v 0 (if 0 <? ttl then Some (now + ttl) else None)) m.

Definition Delete (key : string) (m : LRUCache) : LRUCache :=
  mkLRUCache (lru_Remove key (c m)) (heap m).

Definition Exists_ (now : Z) (key : string) (m : LRUCache) : bool * LRUCache :=
  let '(p, c') := lru_Get key (c m) in
  let m' := mkLRUCache c' (heap m) in
  match deref m p with
  | None => (false, m')
  | Some e =>
      if expired now e then (false, mkLRUCache (lru_Remove key c') (heap m)) else (true, m')
  end.

(** [e.counter++] through the pointer. *)
Definition bump (p : nat) (m : LRUCache) : Z * LRUCache :=
  match heap m !! p with
  | None => (0, m)
  | Some e =>
      let e' := mkLruEntry (value e) (i64 (counter e + 1)) (expiresAt e) in
      (counter e', mkLRUCache (c m) (<[p := e']> (heap m)))
  end.

(** [Incr] and [IncrWithTTL] differ in the expiry of a new entry only. *)
Definition incr_with (fresh : option Z) (now : Z) (key : string) (m : LRUCache) : Z * LRUCache :=
  let '(p, c') := lru_Get key (c m) in
  let m' := mkLRUCache c' (heap m) in
  match p, deref m p with
  | Some p, Some e =>
      if expired now e
      then bump (length (heap m)) (add_entry key (mkLruEntry zero 0 fresh) m')
      else bump p m'
  | _, _ => bump (length (heap m)) (add_entry key (mkLruEntry zero 0 fresh) m')
  end.

Definition Incr (now : Z) (key : string) (m : LRUCache) : Z * LRUCache :=
  incr_with None now key m.
Definition IncrWithTTL (now : Z) (key : string) (ttl : Z) (m : LRUCache) : Z * LRUCache :=
  incr_with (if 0 <? ttl then Some (now + ttl) else None) now key m.

Definition Clear (m : LRUCache) : LRUCache := mkLRUCache (lru_Purge (c m)) (heap m).
Definition Len (m : LRUCache) : Z := lru_Len (c m).

End LRUCache.
Arguments LRUCache {L} V. Arguments mkLRUCache {L V}. Arguments c {L V}. Arguments heap {L V}.

(** ** Facts *)

Section Facts.
Context {L : LruOps} {LL : LruLaws L} {V : Type} (zero : V).
Implicit Types m : LRUCache V.

(** The entry a key is bound to. *)
Definition entry_of m (k : string) : option (lruEntry V) := deref m (lru_map (c m) !! k).

(** Pointers are in the heap and no two keys share one. *)
Definition cache_ok m : Prop :=
  0 < lru_cap (c m) /\
  (forall k p, lru_map (c m) !! k = Some p -> (p < length (heap m))%nat) /\
  (forall k k' p, lru_map (c m) !! k = Some p -> lru_map (c m) !! k' = Some p -> k = k').

(** The value a reader at time [now] sees. *)
Definition view m (now : Z) (k : string) : V :=
  match entry_of m k with
  | Some e => if expired now e then zero else value e
  | None => zero
  end.

Lemma NewLRUCache_ok cap : cache_ok (NewLRUCache cap).
Proof.
  unfold cache_ok, NewLRUCache. cbn. rewrite lru_New_cap, lru_New_map.
  split_and!; [unfold defaultLRUCapacity; split_ifs; lia|done|done].
Qed.

Lemma add_entry_ok k e m : cache_ok m -> cache_ok (add_entry k e m).
Proof.
  intros (H0 & H1 & H2). unfold cache_ok, add_entry. cbn. rewrite lru_Add_cap.
  assert (Hlk : forall k' p, lru_map (lru_Add k (length (heap m)) (c m)) !! k' = Some p ->
    (k' = k /\ p = length (heap m)) \/ (k' <> k /\ lru_map (c m) !! k' = Some p)).
  { intros k' p Hk. pose proof (lookup_weaken _ _ _ _ Hk (lru_Add_sub k _ (c m))) as Hq.
    apply lookup_insert_Some in Hq. naive_solver. }
  split_and!; [done| |].
  - intros k' p [[-> ->]|[_ Hp]]%Hlk; rewrite length_app; simpl; [lia|].
    apply H1 in Hp. lia.
  - intros k1 k2 p [[-> ->]|[_ Hp1]]%Hlk [[-> Hp]|[_ Hp2]]%Hlk; [done|..].
    + apply H1 in Hp2. lia.
    + subst. apply H1 in Hp1. lia.
    + eauto.
Qed.

Lemma add_entry_entry k e m : cache_ok m -> entry_of (add_entry k e m) k = Some e.
Proof.
  intros (H0 & _). unfold entry_of, add_entry, deref. cbn. rewrite lru_Add_key by done. cbn.
  apply list_lookup_middle. done.
Qed.

Lemma add_entry_other k e m k' :
  cache_ok m -> k' <> k ->
  entry_of (add_entry k e m) k' = entry_of m k' \/ entry_of (add_entry k e m) k' = None.
Proof.
  intros (H0 & H1 & _) Hne. unfold entry_of, add_entry, deref. cbn.
  destruct (lru_map (lru_Add k _ (c m)) !! k') as [p|] eqn:Hp; [|by right]. left. cbn.
  pose proof (lookup_weaken _ _ _ _ Hp (lru_Add_sub k _ (c m))) as Hq.
  rewrite lookup_insert_ne in Hq by done. rewrite Hq. cbn. apply H1 in Hq.
  by rewrite lookup_app_l.
Qed.

Lemma Get_spec now k m :
  cache_ok m ->
  (Get zero now k m).1 = view m now k /\ cache_ok (Get zero now k m).2 /\
  forall now' k', now <= now' -> view (Get zero now k m).2 now' k' = view m now' k'.
Proof.
  intros (H0 & H1 & H2). unfold Get, view, entry_of.
  destruct (lru_Get_map k (c m)) as [E1 E2]. pose proof (lru_Get_cap k (c m)) as E3.
  destruct (lru_Get k (c m)) as [p c']. cbn [fst snd] in *. subst p.
  destruct (deref m (lru_map (c m) !! k)) as [e|] eqn:Hd; cbn.
  - destruct (expired now e) eqn:He; cbn.
    + split_and!; [done| |].
      * unfold cache_ok. cbn. rewrite lru_Remove_map, lru_Remove_cap, E2, E3.
        split_and!; [done| |]; intros *; rewrite !lookup_delete_Some; naive_solver.
      * intros now' k' Hn. rewrite lru_Remove_map, E2. destruct (decide (k = k')) as [<-|].
        -- rewrite lookup_delete_eq, Hd. cbn. unfold expired in *.
           destruct (expiresAt e); [|done]. split_ifs; bool_to_prop; lia || done.
        -- rewrite lookup_delete_ne by done. done.
    + split_and!; [done|unfold cache_ok; cbn; by rewrite E2, E3|]. intros. by rewrite E2.
  - split_and!; [done|unfold cache_ok; cbn; by rewrite E2, E3|]. intros. by rewrite E2.
Qed.

Lemma bump_spec p m e :
  heap m !! p = Some e ->
  bump p m = (i64 (counter e + 1),
              mkLRUCache (c m) (<[p := mkLruEntry (value e) (i64 (counter e + 1)) (expiresAt e)]> (heap m))).
Proof. intros H. unfold bump. by rewrite H. Qed.

Lemma bump_entry p m e k :
  cache_ok m -> lru_map (c m) !! k = Some p -> heap m !! p = Some e ->
  let m' := (bump p m).2 in
  cache_ok m' /\
  entry_of m' k = Some (mkLruEntry (value e) (i64 (counter e + 1)) (expiresAt e)) /\
  forall k', k' <> k -> entry_of m' k' = entry_of m k'.
Proof.
  intros (H0 & H1 & H2) Hk Hp. rewrite (bump_spec _ _ _ Hp). cbn. split_and!.
  - unfold cache_ok. cbn. rewrite length_insert. done.
  - unfold entry_of, deref. cbn. rewrite Hk. cbn. apply list_lookup_insert_eq. eauto.
  - intros k' Hne. unfold entry_of, deref. cbn.
    destruct (lru_map (c m) !! k') as [q|] eqn:Hq; [|done]. cbn.
    apply list_lookup_insert_ne. intros ->. eauto.
Qed.

(** The entry [Incr] counts on: the live one, or a fresh one. *)
Definition counted (fresh : option Z) (now : Z) m (k : string) : lruEntry V :=
  match entry_of m k with
  | Some e => if expired now e then mkLruEntry zero 0 fresh else e
  | None => mkLruEntry zero 0 fresh
  end.

Lemma incr_spec fresh now k m :
  cache_ok m ->
  let e := counted fresh now m k in
  (incr_with zero fresh now k m).1 = i64 (counter e + 1) /\
  cache_ok (incr_with zero fresh now k m).2 /\
  entry_of (incr_with zero fresh now k m).2 k =
    Some (mkLruEntry (value e) (i64 (counter e + 1)) (expiresAt e)) /\
  forall k', k' <> k ->
    entry_of (incr_with zero fresh now k m).2 k' = entry_of m k' \/
    entry_of (incr_with zero fresh now k m).2 k' = None.
Proof.
  intros Hok. unfold incr_with.
  destruct (lru_Get_map k (c m)) as [E1 E2]. pose proof (lru_Get_cap k (c m)) as E3.
  destruct (lru_Get k (c m)) as [p c']. cbn [fst snd] in *. subst p.
  set (m1 := mkLRUCache c' (heap m)).
  assert (Hok1 : cache_ok m1) by (unfold cache_ok, m1; cbn; by rewrite E2, E3).
  assert (Hent : forall k', entry_of m1 k' = entry_of m k') by (intros; unfold entry_of; cbn; by rewrite E2).
  assert (Hfresh : forall e0, counted fresh now m k = mkLruEntry zero 0 fresh -> e0 = mkLruEntry zero 0 fresh ->
    let r := bump (length (heap m)) (add_entry k e0 m1) in
    let e := counted fresh now m k in
    r.1 = i64 (counter e + 1) /\ cache_ok r.2 /\
    entry_of r.2 k = Some (mkLruEntry (value e) (i64 (counter e + 1)) (expiresAt e)) /\
    forall k', k' <> k -> entry_of r.2 k' = entry_of m k' \/ entry_of r.2 k' = None).
  { intros e0 Hc ->. cbv zeta. rewrite Hc.
    set (e0 := mkLruEntry zero 0 fresh). pose proof (add_entry_ok k e0 m1 Hok1) as Hok2.
    assert (Hh : heap (add_entry k e0 m1) !! length (heap m) = Some e0) by (by apply list_lookup_middle).
    assert (Hm : lru_map (c (add_entry k e0 m1)) !! k = Some (length (heap m))).
    { apply lru_Add_key. apply Hok1. }
    destruct (bump_entry _ _ _ _ Hok2 Hm Hh) as (B1 & B2 & B3).
    split_and!; [by rewrite (bump_spec _ _ _ Hh)|done|done|].
    intros k' Hne. rewrite B3 by done. destruct (add_entry_other k e0 m1 k' Hok1 Hne) as [->| ->];
      [rewrite Hent|]; auto. }
  cbv zeta. assert (Hce : forall e, entry_of m k = e -> counted fresh now m k =
    match e with
    | Some e => if expired now e then mkLruEntry zero 0 fresh else e
    | None => mkLruEntry zero 0 fresh
    end) by (by intros e <-).
  destruct (lru_map (c m) !! k) as [p|] eqn:Hk; cbn [deref mbind option_bind].
  2: { apply Hfresh; [|done]. apply (Hce None). unfold entry_of. by rewrite Hk. }
  assert (Hek : entry_of m k = heap m !! p) by (unfold entry_of; by rewrite Hk).
  destruct (heap m !! p) as [e|] eqn:Hp; [|apply Hfresh; [by apply (Hce None)|done]].
  specialize (Hce _ Hek). cbn in Hce.
  destruct (expired now e) eqn:He; [apply Hfresh; done|]. rewrite Hce.
  assert (Hm1 : lru_map (c m1) !! k = Some p) by (cbn; by rewrite E2).
  destruct (bump_entry p m1 e k Hok1 Hm1 Hp) as (B1 & B2 & B3).
  split_and!; [by rewrite (bump_spec p m1 e Hp)|done|done|].
  intros k' Hne. left. by rewrite B3, Hent.
Qed.

(** [n] calls of [IncrWithTTL] on one key, at the given times. *)
Fixpoint incr_many (k : string) (ttl : Z) (times : list Z) m : list Z * LRUCache V :=
  match times with
  | [] => ([], m)
  | t :: times' =>
      let '(n, m1) := IncrWithTTL zero t k ttl m in
      let '(ns, m2) := incr_many k ttl times' m1 in (n :: ns, m2)
  end.

Lemma incr_many_live k ttl times : forall m e n,
  cache_ok m -> entry_of m k = Some e -> counter e = n -> 0 <= n ->
  n + len times < 2 ^ 63 -> Forall (fun t => expired t e = false) times ->
  (incr_many k ttl times m).1 = (fun i => n + Z.of_nat i) <$> seq 1 (length times).
Proof.
  induction times as [|t times IH]; intros m e n Hok He Hn H0 Hb Hl; cbn [incr_many]; [done|].
  apply Forall_cons in Hl as [Ht Hl]. rewrite zlen_cons in Hb. pose proof (zlen_nonneg times).
  set (fresh := if 0 <? ttl then Some (t + ttl) else None).
  destruct (incr_spec fresh t k m Hok) as (I1 & I2 & I3 & _).
  unfold counted in *. rewrite He, Ht in *.
  assert (Hi : i64 (counter e + 1) = n + 1).
  { rewrite Hn. unfold i64. rewrite Z.mod_small; lia. }
  unfold IncrWithTTL. fold fresh. destruct (incr_with _ _ _ _ _) as [z m1]. cbn [fst snd] in *.
  assert (IH' := IH m1 _ (n + 1) I2 I3 Hi ltac:(lia) ltac:(lia) Hl).
  destruct (incr_many k ttl times m1) as [ns m2]. cbn [fst] in *. rewrite IH', I1, Hi.
  cbn [length seq fmap list_fmap]. f_equal.
  rewrite <- (fmap_S_seq 1), <- list_fmap_compose. apply list_fmap_ext. intros i x _. cbn. lia.
Qed.

(** After [Set], [Get] of that key returns the value until its time to
    live has passed and the zero value after it, and [Get] of another key
    returns what it would have before or, if it was evicted, the zero value,
    never something else; after [Delete] and [Clear] it is the zero value. *)
Theorem cache_reads_latest m k v ttl t0 t1 :
  cache_ok m -> t0 <= t1 ->
  let m' := Set_ t0 k v ttl m in
  (Get zero t1 k m').1 = (if (0 <? ttl) && (t0 + ttl <? t1) then zero else v) /\
  (forall k', k' <> k ->
     (Get zero t1 k' m').1 = (Get zero t1 k' m).1 \/ (Get zero t1 k' m').1 = zero) /\
  (Get zero t1 k (Delete k m')).1 = zero /\
  (forall k', (Get zero t1 k' (Clear m')).1 = zero).
Proof.
  intros Hok Ht. cbv zeta. set (m' := Set_ t0 k v ttl m).
  assert (Hok' : cache_ok m') by (by apply add_entry_ok).
  assert (Hnone : forall k' m2, lru_map (c m2) !! k' = None -> (Get zero t1 k' m2).1 = zero).
  { intros k' m2 Hk. unfold Get. destruct (lru_Get_map k' (c m2)) as [E _].
    destruct (lru_Get k' (c m2)) as [p c']. cbn in E. subst p. by rewrite Hk. }
  split_and!.
  - rewrite (proj1 (Get_spec t1 k m' Hok')). unfold view, m', Set_.
    rewrite add_entry_entry by done. unfold expired. cbn. by destruct (0 <? ttl).
  - intros k' Hne. rewrite (proj1 (Get_spec t1 k' m' Hok')), (proj1 (Get_spec t1 k' m Hok)).
    unfold view, m', Set_. match goal with |- context [add_entry k ?e m] =>
      destruct (add_entry_other k e m k' Hok Hne) as [->| ->] end; auto.
  - apply Hnone. cbn. rewrite lru_Remove_map. apply lookup_delete_eq.
  - intros k'. apply Hnone. cbn. by rewrite lru_Purge_map.
Qed.

(** [IncrWithTTL] is a window counter: called [n] times on a key that is
    not in the cache, all within [ttl] of the first call, it returns 1, 2, ...,
    [n], and one call after the window starts again at 1. *)
Theorem incr_counts_window m k ttl t0 times t1 :
  cache_ok m -> entry_of m k = None -> 0 < ttl -> 1 + len times < 2 ^ 63 ->
  Forall (fun t => t <= t0 + ttl) times -> t0 + ttl < t1 ->
  (incr_many k ttl (t0 :: times) m).1 = Z.of_nat <$> seq 1 (S (length times)) /\
  (incr_many k ttl [t0; t1] m).1 = [1; 1].
Proof.
  intros Hok He Httl Hb Htimes Ht1. cbn [incr_many]. unfold IncrWithTTL.
  rewrite (proj2 (Z.ltb_lt 0 ttl)) by done.
  destruct (incr_spec (Some (t0 + ttl)) t0 k m Hok) as (I1 & I2 & I3 & _).
  destruct (incr_with _ _ t0 _ m) as [z m1]. unfold counted in *. rewrite He in *. cbn [fst snd] in *.
  change (i64 (counter (mkLruEntry zero 0 (Some (t0 + ttl))) + 1)) with 1 in *. cbn in I3. split.
  - pose proof (incr_many_live k ttl times m1 _ 1 I2 I3 eq_refl ltac:(lia) ltac:(lia)) as Hm.
    destruct (incr_many k ttl times m1) as [ns m2]. cbn [fst] in *. rewrite Hm, I1.
    + cbn [seq fmap list_fmap]. f_equal. rewrite <- (fmap_S_seq 1), <- list_fmap_compose.
      apply list_fmap_ext. intros i x _. cbn. lia.
    + eapply Forall_impl; [exact Htimes|]. intros t Ht. unfold expired. cbn. by apply Z.ltb_ge.
  - destruct (incr_spec (Some (t1 + ttl)) t1 k m1 I2) as (J1 & _).
    destruct (incr_with _ _ t1 _ m1) as [z2 m2]. cbn [fst] in *. subst.
    unfold counted. rewrite I3. unfold expired. cbn. by rewrite (proj2 (Z.ltb_lt _ _)) by done.
Qed.

End Facts.

(** ** An implementation of the interface

    The simplest cache that keeps the promises: when an insertion does not fit
    it drops everything else. *)

Definition wipe_lru := (Z * gmap string nat)%type.

#[export] Instance WipeLru : LruOps := {|
  lru := wipe_lru;
  lru_New cap := (cap, ∅);
  lru_Get k l := (l.2 !! k, l);
  lru_Add k p l :=
    (l.1, if Z.of_nat (size (<[k := p]> l.2)) <=? l.1 then <[k := p]> l.2 else {[k := p]});
  lru_Remove k l := (l.1, delete k l.2);
  lru_Purge l := (l.1, ∅);
  lru_Len l := Z.of_nat (size l.2)
|}.

#[export, refine] Instance WipeLruLaws : LruLaws WipeLru := {|
  lru_map := snd;
  lru_cap := fst
|}.
Proof.
  all: try done.
  - intros k p [cap t] _. cbn. destruct (_ <=? _); [apply lookup_insert_eq|apply lookup_singleton_eq].
  - intros k p [cap t]. cbn. destruct (_ <=? _); [done|].
    apply map_singleton_subseteq_l, lookup_insert_eq.
  - intros k p [cap t] H. cbn in *. by rewrite (proj2 (Z.leb_le _ _)).
Defined.

Definition ex_cache : LRUCache Z := NewLRUCache 2.

Lemma cache_reads_latest_witness :
  (Get 0 5 "a" (Set_ 3 "a" 42 10 ex_cache)).1 = 42 /\
  (Get 0 14 "a" (Set_ 3 "a" 42 10 ex_cache)).1 = 0.
Proof.
  split.
  - destruct (cache_reads_latest 0 ex_cache "a" 42 10 3 5) as (H & _);
      [apply NewLRUCache_ok|lia|]. exact H.
  - destruct (cache_reads_latest 0 ex_cache "a" 42 10 3 14) as (H & _);
      [apply NewLRUCache_ok|lia|]. exact H.
Defined.

Lemma incr_counts_window_witness :
  (incr_many 0 "a" 10 [0; 4; 10] ex_cache).1 = [1; 2; 3] /\
  (incr_many 0 "a" 10 [0; 11] ex_cache).1 = [1; 1].
Proof.
  destruct (incr_counts_window 0 ex_cache "a" 10 0 [4; 10] 11) as [H1 H2];
    [apply NewLRUCache_ok|reflexivity|lia|vm_compute; reflexivity|repeat constructor; lia|lia|].
  split; [exact H1|exact H2].
Defined.

End Cache.
