(* ===== verification/Router.v ===== *)
(** The routing engine of core/router/router.go.

    The engine hands out pointers into the backing array of its rule slice
    ([&r.Destination], [&e.rules[i]]), and [AddRule] may sort that array in
    place, so the arrays live in a store and a pointer is an array and an
    index.  The cache is the one of [Cache], over any LRU that implements its
    interface.  [sort.Slice] is unstable: it leaves some sorted permutation,
    which is the stable sort of some order [shuffle] of the slice.  [grow] is
    the capacity [append] picks when the array is full.  Rule conditions and
    their slices are never written after the rule was made and are values. *)

From S2P Require Import Prelude GoStr NetIP Cache.
Import Cache.

Module Router.

(** ** interfaces.go *)

Inductive NetAddr :=
  | UDPAddr (ip : IP) (port : Z) (zone : string)
  | TCPAddr (ip : IP) (port : Z) (zone : string)
  | OtherAddr (text : string).

(** [UDPAddr.String] and [TCPAddr.String]. *)
Definition host_port_string (ip : IP) (port : Z) (zone : string) : string :=
  let host := if bool_decide (ip = []) then EmptyString else IP_String ip in
  let host := if bool_decide (zone = EmptyString) then host else (host +:+ "%" +:+ zone)%string in
  JoinHostPort host (Itoa port).
Definition NetAddr_String (a : NetAddr) : string :=
  match a with
  | UDPAddr ip port zone => host_port_string ip port zone
  | TCPAddr ip port zone => host_port_string ip port zone
  | OtherAddr text => text
  end.

Record Packet := mkPacket {
  SessionID : Z;
  SrcAddr : option NetAddr;
  DstAddr : option NetAddr
}.

Record Destination := mkDestination {
  d_Type : string;
  d_Address : string;
  d_Port : Z;
  d_Tag : string
}.

(** The dynamic types of [RuleCondition.Value] that the matchers look at. *)
Inductive RuleValue :=
  | VString (s : string) | VStrings (l : list string)
  | VInt (n : Z) | VInts (l : list Z)
  | VUint32 (n : Z) | VUint32s (l : list Z)
  | VOther.

Record RuleCondition := mkCond { Field : string; Operator : string; Value : RuleValue }.

Record RoutingRule := mkRule {
  ID : string;
  Priority : Z;
  Conditions : list RuleCondition;
  r_Destination : Destination
}.

(** ** router.go *)

Record Config := mkConfig {
  DefaultDestination : Destination;
  MaxRules : Z;
  EnableCache : bool;
  CacheSize : Z
}.

Definition DefaultConfig : Config :=
  mkConfig (mkDestination "direct" "" 0 "") 1000 true 10000.
Definition Validate (c : Config) : Config :=
  mkConfig (DefaultDestination c) (if MaxRules c <=? 0 then 1000 else MaxRules c) (EnableCache c)
           (if CacheSize c <=? 0 then 10000 else CacheSize c).

Record compiledCond := mkCC {
  field : string;
  cidr : option IPNet;
  cip : option IP;
  raw : RuleCondition
}.

(** A pointer to a [Destination]: into a rule array, the configuration, or the caller's. *)
Inductive dest_ptr :=
  | InRule (arr idx : nat)
  | InConfig
  | Foreign (d : Destination).

Record compiledRule := mkCR { conds : list compiledCond; dest : dest_ptr }.

Record rslice := mkSlice { s_arr : nat; s_len : nat; s_cap : nat }.

Section Engine.
Context {L : LruOps} `{UnicodeCase}.
Context (shuffle : list RoutingRule -> list RoutingRule) (grow : nat -> nat).

Record Engine := mkEngine {
  config : Config;
  store : list (list RoutingRule);
  rules : rslice;
  compiled : list compiledRule;
  byID : gmap string (nat * nat);
  cache : LRUCache (option dest_ptr);
  routeHits : Z; routeMisses : Z; cacheHits : Z; cacheMisses : Z
}.

Definition array (e : Engine) (a : nat) : list RoutingRule := default [] (store e !! a).
(** The contents of [e.rules]. *)
Definition cur_rules (e : Engine) : list RoutingRule :=
  take (s_len (rules e)) (array e (s_arr (rules e))).

Definition load (e : Engine) (p : dest_ptr) : option Destination :=
  match p with
  | InRule a i => r_Destination <$> array e a !! i
  | InConfig => Some (DefaultDestination (config e))
  | Foreign d => Some d
  end.

Definition is_ip_field (f : string) : bool :=
  bool_decide (f = "dst_ip"%string) || bool_decide (f = "src_ip"%string).

Definition compileCond (cond : RuleCondition) : compiledCond :=
  match Value cond with
  | VString s =>
      if is_ip_field (Field cond) then
        if bool_decide (Operator cond = "cidr"%string) then
          mkCC (Field cond) (ParseCIDR s) None cond
        else if bool_decide (Operator cond = "eq"%string) then
          mkCC (Field cond) None (ParseIP s) cond
        else mkCC (Field cond) None None cond
      else mkCC (Field cond) None None cond
  | _ => mkCC (Field cond) None None cond
  end.

Definition compile_rules (arr : nat) (l : list RoutingRule) : list compiledRule :=
  imap (fun i r => mkCR (compileCond <$> Conditions r) (InRule arr i)) l.

Definition with_compiled (e : Engine) (c : list compiledRule) : Engine :=
  mkEngine (config e) (store e) (rules e) c (byID e) (cache e)
           (routeHits e) (routeMisses e) (cacheHits e) (cacheMisses e).
Definition with_cache (e : Engine) (c : LRUCache (option dest_ptr)) : Engine :=
  mkEngine (config e) (store e) (rules e) (compiled e) (byID e) c
           (routeHits e) (routeMisses e) (cacheHits e) (cacheMisses e).
Definition with_rules (e : Engine) (st : list (list RoutingRule)) (r : rslice) : Engine :=
  mkEngine (config e) st r (compiled e) (byID e) (cache e)
           (routeHits e) (routeMisses e) (cacheHits e) (cacheMisses e).
Definition with_byID (e : Engine) (b : gmap string (nat * nat)) : Engine :=
  mkEngine (config e) (store e) (rules e) (compiled e) b (cache e)
           (routeHits e) (routeMisses e) (cacheHits e) (cacheMisses e).

Definition recompileLocked (e : Engine) : Engine :=
  with_compiled e (compile_rules (s_arr (rules e)) (cur_rules e)).

Definition addrIP (a : option NetAddr) : option IP :=
  match a with
  | Some (UDPAddr ip _ _) | Some (TCPAddr ip _ _) => Some ip
  | _ => None
  end.
Definition addrPort (a : option NetAddr) : option Z :=
  match a with
  | Some (UDPAddr _ port _) | Some (TCPAddr _ port _) => Some port
  | _ => None
  end.

Definition matchIP (a : option NetAddr) (cond : RuleCondition) : bool :=
  match addrIP a with
  | None => false
  | Some ip =>
      if bool_decide (Operator cond = "eq"%string) then
        match Value cond with VString s => bool_decide (IP_String ip = s) | _ => false end
      else if bool_decide (Operator cond = "cidr"%string) then
        match Value cond with
        | VString s => match ParseCIDR s with None => false | Some n => IPNet_Contains n ip end
        | _ => false
        end
      else if bool_decide (Operator cond = "in"%string) then
        match Value cond with VStrings l => bool_decide (IP_String ip ∈ l) | _ => false end
      else false
  end.

Definition matchPort (a : option NetAddr) (cond : RuleCondition) : bool :=
  match addrPort a with
  | None => false
  | Some port =>
      if bool_decide (Operator cond = "eq"%string) then
        match Value cond with VInt v => port =? v | _ => false end
      else if bool_decide (Operator cond = "in"%string) then
        match Value cond with VInts l => bool_decide (port ∈ l) | _ => false end
      else if bool_decide (Operator cond = "range"%string) then
        match Value cond with VInts [lo; hi] => (lo <=? port) && (port <=? hi) | _ => false end
      else false
  end.

Definition matchSessionID (p : Packet) (cond : RuleCondition) : bool :=
  if bool_decide (Operator cond = "eq"%string) then
    match Value cond with VUint32 v => SessionID p =? v | _ => false end
  else if bool_decide (Operator cond = "in"%string) then
    match Value cond with VUint32s l => bool_decide (SessionID p ∈ l) | _ => false end
  else false.

Definition matchCondition (cond : RuleCondition) (p : Packet) : bool :=
  let f := Field cond in
  if bool_decide (f = "dst_ip"%string) then matchIP (DstAddr p) cond
  else if bool_decide (f = "src_ip"%string) then matchIP (SrcAddr p) cond
  else if bool_decide (f = "dst_port"%string) then matchPort (DstAddr p) cond
  else if bool_decide (f = "src_port"%string) then matchPort (SrcAddr p) cond
  else if bool_decide (f = "session_id"%string) then matchSessionID p cond
  else false.

(** One turn of the loop of [matchCompiled]. *)
Definition match_cond (c : compiledCond) (p : Packet) : bool :=
  match cidr c, cip c with
  | None, None => matchCondition (raw c) p
  | _, _ =>
      let addr := if bool_decide (field c = "src_ip"%string) then SrcAddr p else DstAddr p in
      match addrIP addr with
      | None => false
      | Some ip =>
          match cidr c with Some n => IPNet_Contains n ip | None => true end
          && match cip c with Some i => IP_Equal i ip | None => true end
      end
  end.
Definition matchCompiled (cr : compiledRule) (p : Packet) : bool :=
  forallb (fun c => match_cond c p) (conds cr).

Definition New (cfg : option Config) : Engine :=
  let cfg := Validate (default DefaultConfig cfg) in
  mkEngine cfg [[]] (mkSlice 0 0 0) [] ∅ (NewLRUCache (CacheSize cfg)) 0 0 0 0.

Definition RoutesOnAddress (e : Engine) : bool :=
  existsb (fun r => existsb (fun c => is_ip_field (Field c)) (Conditions r)) (cur_rules e).

Definition checkCache (now : Z) (e : Engine) (p : Packet) : option dest_ptr * Engine :=
  match DstAddr p with
  | None => (None, e)
  | Some a => let '(d, c) := Get None now (NetAddr_String a) (cache e) in (d, with_cache e c)
  end.
Definition updateCache (now : Z) (e : Engine) (p : Packet) (d : dest_ptr) : Engine :=
  match DstAddr p with
  | None => e
  | Some a => with_cache e (Set_ now (NetAddr_String a) (Some d) 0 (cache e))
  end.

(** The four [atomic.AddUint64] counters. *)
Definition count_stats (e : Engine) (rh rm ch cm : Z) : Engine :=
  mkEngine (config e) (store e) (rules e) (compiled e) (byID e) (cache e)
           (u64 (routeHits e + rh)) (u64 (routeMisses e + rm))
           (u64 (cacheHits e + ch)) (u64 (cacheMisses e + cm)).

(** The scan of the compiled rules, in order. *)
Fixpoint scan (rs : list compiledRule) (p : Packet) : option dest_ptr :=
  match rs with
  | [] => None
  | cr :: rs' => if matchCompiled cr p then Some (dest cr) else scan rs' p
  end.

(** The three stretches of [Route], between which it holds no lock: the cache, the scan
    of the compiled rules as they are then, and the store of the verdict. *)
Definition route_look (now : Z) (e : Engine) (p : Packet) : option dest_ptr * Engine :=
  if EnableCache (config e) then
    let '(d, e1) := checkCache now e p in
    (d, match d with Some _ => count_stats e1 1 0 1 0 | None => count_stats e1 0 0 0 1 end)
  else (None, e).
Definition route_find (e : Engine) (p : Packet) : dest_ptr * Engine :=
  match scan (compiled e) p with
  | Some d => (d, count_stats e 1 0 0 0)
  | None => (InConfig, count_stats e 0 1 0 0)
  end.
Definition route_store (now : Z) (e : Engine) (p : Packet) (d : dest_ptr) : Engine :=
  if EnableCache (config e) then updateCache now e p d else e.

(** A call that nothing comes between. *)
Definition Route (now : Z) (e : Engine) (p : Packet) : dest_ptr * Engine :=
  match route_look now e p with
  | (Some d, e1) => (d, e1)
  | (None, e1) => let '(d, e2) := route_find e1 p in (d, route_store now e2 p d)
  end.

Definition clearCache (e : Engine) : Engine := with_cache e (Clear (cache e)).

Inductive route_error :=
  | ErrRuleIDRequired | ErrRuleExists (id : string) | ErrMaxRules (n : Z)
  | ErrRuleNotFound (id : string) | ErrDuplicateRule (id : string).

Definition higher (a b : RoutingRule) : Prop := Priority b <= Priority a.
#[global] Instance higher_dec a b : Decision (higher a b).
Proof. unfold higher. apply _. Defined.

(** [sort.Slice] by descending priority. *)
Definition sort_rules (l : list RoutingRule) : list RoutingRule := merge_sort higher (shuffle l).

(** The map from IDs to pointers, filled front to back. *)
Definition index_rules (arr : nat) (l : list RoutingRule) : gmap string (nat * nat) :=
  foldl (fun m x => <[x.2 := (arr, x.1)]> m) ∅ (imap (fun i r => (i, ID r)) l).

(** [append(e.rules, rule)] followed by the sort of the result in place. *)
Definition append_sort (e : Engine) (rule : RoutingRule) : Engine :=
  let s := rules e in
  let new := sort_rules (cur_rules e ++ [rule]) in
  if (s_len s <? s_cap s)%nat then
    with_rules e (<[s_arr s := new ++ drop (S (s_len s)) (array e (s_arr s))]> (store e))
                 (mkSlice (s_arr s) (S (s_len s)) (s_cap s))
  else
    with_rules e (store e ++ [new]) (mkSlice (length (store e)) (S (s_len s)) (grow (S (s_len s)))).

Definition AddRule (e : Engine) (rule : RoutingRule) : Engine * option route_error :=
  if bool_decide (ID rule = EmptyString) then (e, Some ErrRuleIDRequired)
  else match byID e !! ID rule with
  | Some _ => (e, Some (ErrRuleExists (ID rule)))
  | None =>
      if MaxRules (config e) <=? Z.of_nat (s_len (rules e))
      then (e, Some (ErrMaxRules (MaxRules (config e))))
      else
        let e := append_sort e rule in
        let e := with_byID e (index_rules (s_arr (rules e)) (cur_rules e)) in
        (clearCache (recompileLocked e), None)
  end.

Definition RemoveRule (e : Engine) (id : string) : Engine * option route_error :=
  match byID e !! id with
  | None => (e, Some (ErrRuleNotFound id))
  | Some _ =>
      let newRules := filter (fun r => ID r <> id) (cur_rules e) in
      let n := length newRules in
      let e := with_rules e (store e ++ [newRules])
                 (mkSlice (length (store e)) n (Nat.max n (s_len (rules e) - 1))) in
      let e := recompileLocked e in
      (clearCache (with_byID e (delete id (byID e))), None)
  end.

(** The validation loop of [UpdateRules]. *)
Fixpoint check_ids (seen : gset string) (l : list RoutingRule) : option route_error :=
  match l with
  | [] => None
  | r :: l' =>
      if bool_decide (ID r = EmptyString) then Some ErrRuleIDRequired
      else if bool_decide (ID r ∈ seen) then Some (ErrDuplicateRule (ID r))
      else check_ids ({[ID r]} ∪ seen) l'
  end.

(** [UpdateRules]: the caller's slice, of capacity [cap], becomes the engine's. *)
Definition UpdateRules (e : Engine) (l : list RoutingRule) (cap : nat) : Engine * option route_error :=
  match check_ids ∅ l with
  | Some err => (e, Some err)
  | None =>
      let e := with_rules e (store e ++ [sort_rules l]) (mkSlice (length (store e)) (length l) cap) in
      let e := recompileLocked e in
      let e := with_byID e (index_rules (s_arr (rules e)) (cur_rules e)) in
      (clearCache e, None)
  end.

Definition GetRules (e : Engine) : list RoutingRule := cur_rules e.

(** [GetRule] returns the pointer; [load_rule] is what it points to. *)
Definition GetRule (e : Engine) (id : string) : option (nat * nat) := byID e !! id.
Definition load_rule (e : Engine) (p : nat * nat) : option RoutingRule := array e p.1 !! p.2.

Definition CacheDomain (now : Z) (e : Engine) (domain : string) (d : option dest_ptr) : Engine :=
  with_cache e (Set_ now ("domain:" +:+ ToLower domain)%string d 0 (cache e)).
Definition LookupDomain (now : Z) (e : Engine) (domain : string) : option dest_ptr * Engine :=
  let '(d, c) := Get None now ("domain:" +:+ ToLower domain)%string (cache e) in (d, with_cache e c).

End Engine.
Arguments Engine {L}.
End Router.
