(* ===== verification/RouterFacts.v ===== *)
(** Theorems on the routing engine: the invariant of its tables, first match
    by priority, the agreement of compiled and uncompiled conditions, when the
    route cache is transparent and when it is not, and what happens to the
    destinations already handed out when a rule is added. *)

From S2P Require Import Prelude GoStr NetIP Cache Router.
Import Cache Router.


(** ** Compiled conditions *)

Definition is_ip_eq (c : RuleCondition) : bool :=
  is_ip_field (Field c) && bool_decide (Operator c = "eq"%string).

Definition cond_addr (c : RuleCondition) (p : Packet) : option NetAddr :=
  if bool_decide (Field c = "src_ip"%string) then SrcAddr p else DstAddr p.

(** A compiled condition decides like the condition it was compiled from,
    except [eq] on an address: when its value parses as an IP address the
    compiled form compares addresses, not their spelling. *)
Theorem compiled_agrees c p :
  match_cond (compileCond c) p =
  match Value c with
  | VString s =>
      if is_ip_eq c then
        match ParseIP s with
        | Some i => match addrIP (cond_addr c p) with Some ip => IP_Equal i ip | None => false end
        | None => matchCondition c p
        end
      else matchCondition c p
  | _ => matchCondition c p
  end.
Proof.
  unfold compileCond, is_ip_eq. destruct (Value c) as [s|?|?|?|?|?|] eqn:Hv; try done.
  destruct (is_ip_field (Field c)) eqn:Hf; cbn [andb]; [|done].
  destruct (bool_decide (Operator c = "cidr"%string)) eqn:Hc.
  - bool_to_prop. rewrite (bool_decide_false (Operator c = "eq"%string)) by (rewrite Hc; done).
    unfold match_cond. cbn. destruct (ParseCIDR s) as [n|] eqn:Hn; [|done].
    unfold matchCondition, matchIP. rewrite Hv, Hn, Hc. cbn.
    unfold is_ip_field in Hf. apply orb_true_iff in Hf as [Hf|Hf]; apply bool_decide_eq_true in Hf;
      rewrite Hf; cbn; destruct (addrIP _); by rewrite ?andb_true_r.
  - destruct (bool_decide (Operator c = "eq"%string)); [|done].
    unfold match_cond, cond_addr. cbn. by destruct (ParseIP s).
Qed.

(** ** Scanning *)

Definition rule_matches (p : Packet) (r : RoutingRule) : Prop :=
  forallb (fun c => match_cond (compileCond c) p) (Conditions r) = true.
#[global] Instance rule_matches_dec p r : Decision (rule_matches p r).
Proof. unfold rule_matches. apply _. Defined.

Lemma forallb_fmap {A B} (f : A -> B) (g : B -> bool) l : forallb g (f <$> l) = forallb (fun x => g (f x)) l.
Proof. induction l; cbn; [done|by f_equal]. Qed.

Lemma scan_compile p l : forall (g : nat -> dest_ptr),
  scan (imap (fun i r => mkCR (compileCond <$> Conditions r) (g i)) l) p =
  (fun x => g x.1) <$> list_find (rule_matches p) l.
Proof.
  induction l as [|r l IH]; intros g; [done|]. cbn [imap scan list_find].
  unfold matchCompiled at 1. cbn [conds dest]. rewrite forallb_fmap.
  destruct (decide (rule_matches p r)) as [Hm|Hm]; unfold rule_matches in Hm.
  - by rewrite Hm.
  - apply not_true_is_false in Hm. rewrite Hm.
    etrans; [exact (IH (g ∘ S))|]. by destruct (list_find (rule_matches p) l) as [[i x]|].
Qed.

(** The pointer a scan of the engine's rules yields. *)
Definition scan_dest {L : LruOps} (e : Engine) (p : Packet) : dest_ptr :=
  default InConfig (scan (compiled e) p).

(** ** The invariant *)

Section Inv.
Context {L : LruOps} {LL : LruLaws L}.
Implicit Types e : Engine.

Record engine_inv e : Prop := {
  inv_arr : (s_arr (rules e) < length (store e))%nat;
  inv_len : (s_len (rules e) <= length (array e (s_arr (rules e))))%nat;
  inv_sorted : StronglySorted higher (cur_rules e);
  inv_nodup : NoDup (ID <$> cur_rules e);
  inv_named : EmptyString ∉ ID <$> cur_rules e;
  inv_compiled : compiled e = compile_rules (s_arr (rules e)) (cur_rules e);
  inv_ids : forall id, is_Some (byID e !! id) <-> id ∈ ID <$> cur_rules e;
  inv_ptrs : forall id ptr, byID e !! id = Some ptr ->
    exists r, load_rule e ptr = Some r /\ ID r = id /\ r ∈ cur_rules e;
  inv_cache : cache_ok (cache e);
  inv_forever : forall k en, entry_of (cache e) k = Some en -> expiresAt en = None
}.

#[local] Instance higher_total : Total higher.
Proof. intros a b. unfold higher. lia. Qed.
#[local] Instance higher_trans : Transitive higher.
Proof. intros a b c. unfold higher. lia. Qed.

Lemma index_rules_snoc arr l r :
  index_rules arr (l ++ [r]) = <[ID r := (arr, length l)]> (index_rules arr l).
Proof. unfold index_rules. rewrite imap_app, foldl_app. cbn. by rewrite Nat.add_0_r. Qed.

Lemma index_rules_spec arr l id ptr :
  NoDup (ID <$> l) ->
  index_rules arr l !! id = Some ptr <->
  exists i r, ptr = (arr, i) /\ l !! i = Some r /\ ID r = id.
Proof.
  induction l as [|r l IH] using rev_ind; intros Hnd.
  { cbn. rewrite lookup_empty. split; [done|]. intros (i & r & _ & H & _). done. }
  rewrite fmap_app, NoDup_app in Hnd. destruct Hnd as (Hnd & Hd & _).
  rewrite index_rules_snoc. destruct (decide (ID r = id)) as [<-|Hne].
  - rewrite lookup_insert_eq. split.
    + intros [= <-]. exists (length l), r. split_and!; [done| |done]. by apply list_lookup_middle.
    + intros (i & r' & -> & Hi & Hid). apply lookup_app_Some in Hi as [Hi|[Hge Hi]].
      * destruct (Hd (ID r)); [|left]. rewrite <- Hid.
        apply list_elem_of_fmap_2, list_elem_of_lookup_2 with i. done.
      * apply list_lookup_singleton_Some in Hi as [Hi ->]. do 2 f_equal. lia.
  - rewrite lookup_insert_ne, IH by done. split; intros (i & r' & -> & Hi & Hid); exists i, r'.
    + split_and!; [done| |done]. by apply lookup_app_l_Some.
    + split_and!; [done| |done]. apply lookup_app_Some in Hi as [|[_ Hi]]; [done|].
      apply list_lookup_singleton_Some in Hi as [_ ->]. done.
Qed.

(** Tables rebuilt from an array whose front is a sorted, named, duplicate-free
    list satisfy the invariant. *)
Lemma engine_inv_rebuilt e :
  (s_arr (rules e) < length (store e))%nat ->
  (s_len (rules e) <= length (array e (s_arr (rules e))))%nat ->
  StronglySorted higher (cur_rules e) -> NoDup (ID <$> cur_rules e) ->
  EmptyString ∉ ID <$> cur_rules e -> cache_ok (cache e) ->
  engine_inv (clearCache (recompileLocked
    (with_byID e (index_rules (s_arr (rules e)) (cur_rules e))))).
Proof.
  intros H1 H2 H3 H4 H5 (C0 & C1 & C2). split; try done.
  - intros id. cbn. split.
    + intros [ptr (i & r & _ & Hi & <-)%index_rules_spec]; [|done].
      by apply list_elem_of_fmap_2, list_elem_of_lookup_2 with i.
    + intros (r & -> & [i Hi]%list_elem_of_lookup)%list_elem_of_fmap.
      exists (s_arr (rules e), i). apply index_rules_spec; eauto.
  - intros id ptr (i & r & -> & Hi & Hid)%index_rules_spec; [|done]. exists r.
    split_and!; [|done|by apply list_elem_of_lookup_2 with i].
    unfold load_rule. cbn. unfold cur_rules in Hi. by apply lookup_take_Some in Hi as [? _].
  - unfold cache_ok. cbn. rewrite lru_Purge_cap, lru_Purge_map. done.
  - intros k en. unfold entry_of. cbn. by rewrite lru_Purge_map.
Qed.

Lemma sort_rules_perm shuffle l : (forall l, shuffle l ≡ₚ l) -> sort_rules shuffle l ≡ₚ l.
Proof. intros Hs. unfold sort_rules. by rewrite merge_sort_Permutation, Hs. Qed.

Lemma sort_rules_sorted shuffle l : StronglySorted higher (sort_rules shuffle l).
Proof. apply StronglySorted_merge_sort; apply _. Qed.

Lemma append_sort_cur shuffle grow e r :
  (forall l, shuffle l ≡ₚ l) -> engine_inv e ->
  cur_rules (append_sort shuffle grow e r) = sort_rules shuffle (cur_rules e ++ [r]) /\
  (s_arr (rules (append_sort shuffle grow e r)) < length (store (append_sort shuffle grow e r)))%nat /\
  (s_len (rules (append_sort shuffle grow e r)) <=
   length (array (append_sort shuffle grow e r) (s_arr (rules (append_sort shuffle grow e r)))))%nat.
Proof.
  intros Hs Hi. pose proof (inv_arr _ Hi). pose proof (inv_len _ Hi).
  assert (Hl : length (sort_rules shuffle (cur_rules e ++ [r])) = S (s_len (rules e))).
  { rewrite (sort_rules_perm _ _ Hs), length_app. unfold cur_rules. rewrite length_take. simpl. lia. }
  unfold append_sort. destruct (_ <? _)%nat; unfold cur_rules at 1, array; cbn [rules store with_rules s_arr s_len].
  - rewrite !list_lookup_insert_eq by done. cbn [default from_option id].
    rewrite length_insert, length_app, Hl.
    split_and!; [by rewrite take_app_length'|done|lia].
  - rewrite list_lookup_middle by done. cbn [default from_option id].
    rewrite length_app, Hl. split_and!; [by rewrite take_ge by lia|simpl; lia|lia].
Qed.

Lemma engine_inv_new cfg : engine_inv (New cfg).
Proof.
  split; cbn; try done; try lia; try (by constructor).
  - apply not_elem_of_nil.
  - intros id. rewrite lookup_empty. split; [by intros [? [=]]|by intros ?%elem_of_nil].
  - apply NewLRUCache_ok.
  - intros k en. unfold entry_of. cbn. by rewrite lru_New_map.
Qed.

Lemma engine_inv_add shuffle grow e r :
  (forall l, shuffle l ≡ₚ l) -> engine_inv e -> engine_inv (AddRule shuffle grow e r).1.
Proof.
  intros Hs Hi. unfold AddRule. case_bool_decide as Hid; [done|].
  destruct (byID e !! ID r) eqn:Hb; [done|]. destruct (_ <=? _); [done|]. cbn [fst].
  destruct (append_sort_cur shuffle grow e r Hs Hi) as (Hcur & Ha & Hl).
  assert (Hnew : ID r ∉ ID <$> cur_rules e).
  { rewrite <- (inv_ids _ Hi), Hb. by intros [? [=]]. }
  apply engine_inv_rebuilt; try done; try rewrite Hcur.
  - apply sort_rules_sorted.
  - rewrite (sort_rules_perm _ _ Hs), fmap_app. apply NoDup_app.
    split_and!; [apply Hi|intros x Hx ->%list_elem_of_singleton; done|apply NoDup_singleton].
  - rewrite (sort_rules_perm _ _ Hs), fmap_app, elem_of_app.
    intros [H|H%list_elem_of_singleton]; [by apply (inv_named _ Hi)|done].
  - unfold append_sort. destruct (_ <? _)%nat; apply Hi.
Qed.

(** Moving to a freshly allocated array. *)
Definition moved e (new : list RoutingRule) (cap : nat) : Engine :=
  with_rules e (store e ++ [new]) (mkSlice (length (store e)) (length new) cap).

Lemma moved_rules e new cap :
  array (moved e new cap) (length (store e)) = new /\ cur_rules (moved e new cap) = new.
Proof.
  assert (Ha : array (moved e new cap) (length (store e)) = new).
  { unfold array, moved. cbn. by rewrite list_lookup_middle. }
  split; [done|]. unfold cur_rules. change (take (length new) (array (moved e new cap) (length (store e))) = new).
  rewrite Ha. by apply take_ge.
Qed.

Lemma moved_load e new cap ptr r : load_rule e ptr = Some r -> load_rule (moved e new cap) ptr = Some r.
Proof.
  unfold load_rule, array. cbn. destruct (store e !! ptr.1) as [l|] eqn:Hl; [|done].
  by rewrite (lookup_app_l_Some _ _ _ _ Hl).
Qed.

Lemma filter_ids (l : list RoutingRule) id x :
  x ∈ ID <$> filter (fun r => ID r <> id) l <-> x ∈ ID <$> l /\ x <> id.
Proof.
  rewrite !list_elem_of_fmap. split.
  - intros (r & -> & [Hne Hr]%list_elem_of_filter). eauto.
  - intros [(r & -> & Hr) Hne]. exists r. split; [done|]. by apply list_elem_of_filter.
Qed.

Lemma filter_ids_NoDup (l : list RoutingRule) id :
  NoDup (ID <$> l) -> NoDup (ID <$> filter (fun r => ID r <> id) l).
Proof.
  induction l as [|r l IH]; [done|]. rewrite filter_cons. cbn.
  intros [Hn Hnd]%NoDup_cons. destruct (decide _); [|auto]. constructor; [|auto].
  rewrite filter_ids. tauto.
Qed.

Lemma engine_inv_remove e id : engine_inv e -> engine_inv (RemoveRule e id).1.
Proof.
  intros Hi. unfold RemoveRule. destruct (byID e !! id) as [q|] eqn:Hb; [|done]. cbn [fst].
  set (new := filter (fun r => ID r <> id) (cur_rules e)).
  set (cap := Nat.max (length new) (s_len (rules e) - 1)). fold (moved e new cap).
  destruct (moved_rules e new cap) as [Harr Hcur].
  set (e' := clearCache _). assert (Hcur' : cur_rules e' = new) by exact Hcur.
  split; rewrite ?Hcur'.
  - cbn. rewrite length_app. simpl. lia.
  - change (length new <= length (array (moved e new cap) (length (store e))))%nat. by rewrite Harr.
  - eapply sublist_StronglySorted; [apply sublist_filter|apply Hi].
  - apply filter_ids_NoDup, Hi.
  - unfold new. rewrite filter_ids. intros [? _]. by apply (inv_named _ Hi).
  - change (compile_rules (length (store e)) (cur_rules (moved e new cap)) =
            compile_rules (length (store e)) new). by rewrite Hcur.
  - intros x. unfold new. rewrite filter_ids, <- (inv_ids _ Hi). cbn. rewrite lookup_delete_is_Some.
    naive_solver.
  - intros x ptr Hx. change (delete id (byID e) !! x = Some ptr) in Hx.
    apply lookup_delete_Some in Hx as [Hne Hx]. destruct (inv_ptrs _ Hi x ptr Hx) as (r & Hr & Hid & Hin).
    exists r. split_and!; [by apply moved_load|done|].
    apply list_elem_of_filter. split; [congruence|done].
  - destruct (inv_cache _ Hi) as (C0 & C1 & C2). unfold cache_ok. cbn.
    rewrite lru_Purge_cap, lru_Purge_map. done.
  - intros k en. unfold entry_of. cbn. by rewrite lru_Purge_map.
Qed.

Lemma check_ids_None l : forall seen,
  check_ids seen l = None ->
  NoDup (ID <$> l) /\ (EmptyString ∉ ID <$> l) /\ (forall x, x ∈ ID <$> l -> x ∉ seen).
Proof.
  induction l as [|r l IH]; intros seen; cbn [check_ids fmap list_fmap].
  { intros _. split_and!; [constructor|apply not_elem_of_nil|by intros x ?%elem_of_nil]. }
  case_bool_decide as He; [done|]. case_bool_decide as Hs; [done|].
  intros (H1 & H2 & H3)%IH. split_and!.
  - constructor; [|done]. intros Hin. apply (H3 _ Hin). set_solver.
  - intros [Heq|Hin]%elem_of_cons; [by rewrite Heq in He|done].
  - intros x [->|Hin]%elem_of_cons; [done|]. specialize (H3 x Hin). set_solver.
Qed.

Lemma engine_inv_update shuffle e l cap :
  (forall l, shuffle l ≡ₚ l) -> engine_inv e -> engine_inv (UpdateRules shuffle e l cap).1.
Proof.
  intros Hs Hi. unfold UpdateRules. destruct (check_ids ∅ l) eqn:Hc; [done|]. cbn [fst].
  apply check_ids_None in Hc as (H1 & H2 & _).
  set (new := sort_rules shuffle l). assert (Hp : new ≡ₚ l) by by apply sort_rules_perm.
  replace (length l) with (length new) by by rewrite Hp. fold (moved e new cap).
  destruct (moved_rules e new cap) as [Harr Hcur].
  change (engine_inv (clearCache (recompileLocked (with_byID (moved e new cap)
    (index_rules (s_arr (rules (moved e new cap))) (cur_rules (moved e new cap))))))).
  apply engine_inv_rebuilt; rewrite ?Hcur.
  - cbn. rewrite length_app. simpl. lia.
  - change (length new <= length (array (moved e new cap) (length (store e))))%nat. by rewrite Harr.
  - apply sort_rules_sorted.
  - by rewrite Hp.
  - by rewrite Hp.
  - apply Hi.
Qed.

(** ** The cache *)

(** Every entry lives for ever and relates its key and value by [Q]. *)
Definition cache_sat (Q : string -> option dest_ptr -> Prop) (c : LRUCache (option dest_ptr)) : Prop :=
  cache_ok c /\ forall k en, entry_of c k = Some en -> expiresAt en = None /\ Q k (value en).

Lemma cache_sat_get Q now k c :
  cache_sat Q c ->
  cache_sat Q (Get None now k c).2 /\
  forall d, (Get None now k c).1 = Some d -> Q k (Some d).
Proof.
  intros [Hok HQ]. destruct (Get_spec None now k c Hok) as (Hv & Hok' & _). split.
  - split; [done|]. intros k' en Hen. apply HQ. revert Hen. unfold Get, entry_of.
    destruct (lru_Get_map k (Cache.c c)) as [_ E2].
    destruct (lru_Get k (Cache.c c)) as [p c']. cbn [snd] in *.
    destruct (deref c p) as [e|]; [destruct (expired now e)|]; cbn; rewrite ?lru_Remove_map, ?E2; try done.
    destruct (decide (k = k')) as [<-|]; [by rewrite lookup_delete_eq|by rewrite lookup_delete_ne].
  - intros d Hd. rewrite Hv in Hd. unfold view in Hd.
    destruct (entry_of c k) as [en|] eqn:Hen; [|done]. destruct (expired now en); [done|].
    rewrite <- Hd. by apply HQ.
Qed.

Lemma cache_sat_set Q now k d c :
  cache_sat Q c -> Q k d -> cache_sat Q (Set_ now k d 0 c).
Proof.
  intros [Hok HQ] Hd. split; [by apply add_entry_ok|]. intros k' en. unfold Set_.
  destruct (decide (k' = k)) as [->|Hne].
  - rewrite add_entry_entry by done. by intros [= <-].
  - match goal with |- context [add_entry k ?e c] =>
      destruct (add_entry_other k e c k' Hok Hne) as [->| ->] end; [apply HQ|done].
Qed.

Lemma cache_sat_hit Q now now' k d c :
  cache_sat Q c -> (Get None now' k (Set_ now k (Some d) 0 c)).1 = Some d.
Proof.
  intros [Hok _]. pose proof (add_entry_ok k (mkLruEntry (Some d) 0 None) c Hok) as Hok'.
  change (Set_ now k (Some d) 0 c) with (add_entry k (mkLruEntry (Some d) 0 None) c).
  rewrite (proj1 (Get_spec None now' k _ Hok')). unfold view. by rewrite add_entry_entry.
Qed.

Lemma engine_inv_sat e : engine_inv e -> cache_sat (fun _ _ => True) (cache e).
Proof. intros Hi. split; [apply Hi|]. intros k en Hen. split; [by eapply (inv_forever _ Hi)|done]. Qed.

(** [e'] differs from [e] in the cache and the counters only. *)
Definition same_tables e e' : Prop :=
  config e' = config e /\ store e' = store e /\ rules e' = rules e /\
  compiled e' = compiled e /\ byID e' = byID e.

Lemma engine_inv_same e e' :
  engine_inv e -> same_tables e e' -> cache_sat (fun _ _ => True) (cache e') -> engine_inv e'.
Proof.
  intros Hi (E1 & E2 & E3 & E4 & E5) [Hok Hf].
  assert (Hc : cur_rules e' = cur_rules e) by (unfold cur_rules, array; by rewrite E2, E3).
  split; rewrite ?Hc, ?E2, ?E3, ?E4, ?E5; try apply Hi; try done.
  - unfold array. rewrite E2. apply Hi.
  - intros id ptr Hp. destruct (inv_ptrs _ Hi id ptr Hp) as (r & Hr & ?).
    exists r. split; [|done]. unfold load_rule, array in *. by rewrite E2.
  - intros k en Hen. by apply (Hf k en).
Qed.

(** What the stretches of [Route] do to the cache, when cached verdicts satisfy [Q]. *)
Lemma look_sat Q now e p : cache_sat Q (cache e) ->
  same_tables e (route_look now e p).2 /\ cache_sat Q (cache (route_look now e p).2) /\
  forall d, (route_look now e p).1 = Some d -> EnableCache (config e) = true /\ exists a, DstAddr p = Some a /\ Q (NetAddr_String a) (Some d).
Proof.
  intros Hsat. unfold route_look. destruct (EnableCache (config e)); [|done]. unfold checkCache. destruct (DstAddr p) as [a|]; [|done].
  destruct (cache_sat_get Q now (NetAddr_String a) (cache e) Hsat) as [Hg1 Hg2].
  destruct (Get None now (NetAddr_String a) (cache e)) as [[d|] c']; cbn [fst snd] in *; split_and!; try done. intros d' [= <-]. eauto.
Qed.

Lemma find_spec e p : (route_find e p).1 = scan_dest e p /\ same_tables e (route_find e p).2 /\ cache (route_find e p).2 = cache e.
Proof. unfold route_find, scan_dest. by destruct (scan (compiled e) p). Qed.

Lemma store_sat (Q : string -> option dest_ptr -> Prop) now e p d : cache_sat Q (cache e) -> (forall a, DstAddr p = Some a -> Q (NetAddr_String a) (Some d)) ->
  same_tables e (route_store now e p d) /\ cache_sat Q (cache (route_store now e p d)).
Proof.
  intros Hsat Hq. unfold route_store, updateCache. destruct (EnableCache (config e)); [|done]. destruct (DstAddr p) as [a|]; [|done].
  split; [done|]. apply cache_sat_set; auto.
Qed.

Lemma same_tables_trans e1 e2 e3 : same_tables e1 e2 -> same_tables e2 e3 -> same_tables e1 e3.
Proof. unfold same_tables. intros (?&?&?&?&?) (?&?&?&?&?). split_and!; congruence. Qed.

Lemma scan_dest_same e e' p : same_tables e e' -> scan_dest e' p = scan_dest e p.
Proof. intros (_ & _ & _ & E & _). unfold scan_dest. by rewrite E. Qed.

(** ** Calls that interleave *)

(** The engines that the operations build, with the calls of [Route] that have scanned
    the rules and not yet stored their verdict; [A] restricts the destinations routed.
    With [quiet], rules are changed only when there is no such call. *)
Inductive running (quiet : Prop) (A : NetAddr -> Prop) : Engine -> list (Packet * dest_ptr) -> Prop :=
  | run_new cfg : running quiet A (New cfg) []
  | run_add shuffle grow e r fl : (forall l, shuffle l ≡ₚ l) -> (quiet -> fl = []) -> running quiet A e fl -> running quiet A (AddRule shuffle grow e r).1 fl
  | run_remove e id fl : (quiet -> fl = []) -> running quiet A e fl -> running quiet A (RemoveRule e id).1 fl
  | run_update shuffle e l cap fl : (forall l, shuffle l ≡ₚ l) -> (quiet -> fl = []) -> running quiet A e fl -> running quiet A (UpdateRules shuffle e l cap).1 fl
  | run_look now e p fl : running quiet A e fl -> running quiet A (route_look now e p).2 fl
  | run_find e p fl : (forall a, DstAddr p = Some a -> A a) -> running quiet A e fl -> running quiet A (route_find e p).2 ((p, (route_find e p).1) :: fl)
  | run_store now e p d fl fl' : running quiet A e (fl ++ (p, d) :: fl') -> running quiet A (route_store now e p d) (fl ++ fl')
  | run_domain now e `{UnicodeCase} domain d fl : (forall a, A a -> NetAddr_String a <> ("domain:" +:+ ToLower domain)%string) ->
      running quiet A e fl -> running quiet A (CacheDomain now e domain d) fl
  | run_lookup now e `{UnicodeCase} domain fl : running quiet A e fl -> running quiet A (LookupDomain now e domain).2 fl.

(** A whole call is one way to go on. *)
Lemma run_route quiet A now e p fl : (forall a, DstAddr p = Some a -> A a) -> running quiet A e fl -> running quiet A (Route now e p).2 fl.
Proof.
  intros Ha Hr. unfold Route. pose proof (run_look quiet A now e p fl Hr) as H1. destruct (route_look now e p) as [[d|] e1]; [done|]. cbn in H1.
  pose proof (run_find quiet A e1 p fl Ha H1) as H2. destruct (route_find e1 p) as [d e2]. exact (run_store quiet A now e2 p d [] fl H2).
Qed.

Lemma running_inv quiet A e fl : running quiet A e fl -> engine_inv e.
Proof.
  induction 1 as [| | | |now e p fl Hr IH|e p fl _ Hr IH|now e p d fl fl' Hr IH|now e U domain d fl _ Hr IH|now e U domain fl Hr IH];
    auto using engine_inv_new, engine_inv_add, engine_inv_remove, engine_inv_update.
  - destruct (look_sat (fun _ _ => True) now e p (engine_inv_sat e IH)) as (H1 & H2 & _). by apply (engine_inv_same e).
  - destruct (find_spec e p) as (_ & H1 & H2). apply (engine_inv_same e); [done|done|]. rewrite H2. by apply engine_inv_sat.
  - destruct (store_sat (fun _ _ => True) now e p d (engine_inv_sat e IH)) as (H1 & H2); [done|]. by apply (engine_inv_same e).
  - apply (engine_inv_same e); [done|done|]. apply cache_sat_set; [by apply engine_inv_sat|done].
  - unfold LookupDomain. destruct (cache_sat_get (fun _ _ => True) now ("domain:" +:+ ToLower domain)%string (cache e) (engine_inv_sat e IH)) as [H1 _].
    destruct (Get None now _ (cache e)) as [d c]. by apply (engine_inv_same e).
Qed.

(** In every engine the operations build, the rules are in descending order
    of priority, their IDs are non-empty and distinct, the compiled rules are
    those of the current rules, and the ID index knows exactly the current
    rules and points at each of them. *)
Theorem router_tables_consistent quiet A e fl :
  running quiet A e fl ->
  StronglySorted higher (cur_rules e) /\ NoDup (ID <$> cur_rules e) /\
  (EmptyString ∉ ID <$> cur_rules e) /\
  compiled e = compile_rules (s_arr (rules e)) (cur_rules e) /\
  (forall id, is_Some (GetRule e id) <-> id ∈ ID <$> GetRules e) /\
  (forall id ptr, GetRule e id = Some ptr ->
     exists r, load_rule e ptr = Some r /\ ID r = id /\ r ∈ GetRules e).
Proof.
  intros Hi%running_inv. split_and!; apply Hi.
Qed.

(** The verdict by the rules alone: the destination of the first rule, in
    order of priority, whose conditions all hold. *)
Definition verdict e (p : Packet) : Destination :=
  match list_find (rule_matches p) (cur_rules e) with
  | Some (_, r) => r_Destination r
  | None => DefaultDestination (config e)
  end.

Lemma scan_dest_find e p :
  engine_inv e ->
  scan_dest e p = from_option (fun x => InRule (s_arr (rules e)) x.1) InConfig
                    (list_find (rule_matches p) (cur_rules e)).
Proof.
  intros Hi. unfold scan_dest. rewrite (inv_compiled _ Hi). unfold compile_rules.
  rewrite (scan_compile p _ (InRule (s_arr (rules e)))). by destruct (list_find _ _).
Qed.

Lemma load_scan_dest e p : engine_inv e -> load e (scan_dest e p) = Some (verdict e p).
Proof.
  intros Hi. rewrite (scan_dest_find e p Hi). unfold verdict.
  destruct (list_find (rule_matches p) (cur_rules e)) as [[i r]|] eqn:Hf; [|done]. cbn.
  apply list_find_Some in Hf as (Hr & _). unfold cur_rules in Hr.
  apply lookup_take_Some in Hr as [Hr _]. by rewrite Hr.
Qed.

Lemma load_same e e' d : same_tables e e' -> load e' d = load e d.
Proof. intros (E1 & E2 & _). unfold load, array. by rewrite E1, E2. Qed.

(** The verdict is that of the best rule. *)
Lemma verdict_best e p : engine_inv e ->
  (exists r, r ∈ cur_rules e /\ rule_matches p r /\ verdict e p = r_Destination r /\
     forall r', r' ∈ cur_rules e -> rule_matches p r' -> Priority r' <= Priority r) \/
  (verdict e p = DefaultDestination (config e) /\ forall r, r ∈ cur_rules e -> ~ rule_matches p r).
Proof.
  intros Hi. unfold verdict. destruct (list_find (rule_matches p) (cur_rules e)) as [[i r]|] eqn:Hf.
  - left. apply list_find_Some in Hf as (Hr & Hm & Hmin). exists r.
    split_and!; [by eapply list_elem_of_lookup_2|done|done|].
    intros r' [j Hj]%list_elem_of_lookup Hm'.
    destruct (decide (j < i)%nat) as [Hlt|Hge]; [by destruct (Hmin j r')|].
    destruct (decide (i = j)) as [<-|]; [by simplify_eq|].
    eapply (StronglySorted_lookup higher (cur_rules e) i j r r'); [apply Hi|done|done|lia].
  - right. split; [done|]. intros r Hr Hm.
    apply list_find_None in Hf. rewrite Forall_forall in Hf. by apply (Hf r).
Qed.

(** C7: a packet the cache does not answer (it is off, or holds nothing under the
    destination's string, or the packet has no destination address) goes to the
    destination of a rule all of whose conditions it meets and whose priority is the
    highest among those, or to the default destination when it meets no rule, however
    the calls before interleaved; and with the cache on, that verdict is what the cache
    answers the next packet to the destination with. *)
Theorem route_best_match quiet A now e p fl :
  running quiet A e fl -> (route_look now e p).1 = None ->
  let '(d, e') := Route now e p in
  exists dest, load e' d = Some dest /\
  ((exists r, r ∈ cur_rules e /\ rule_matches p r /\ dest = r_Destination r /\
      forall r', r' ∈ cur_rules e -> rule_matches p r' -> Priority r' <= Priority r) \/
   (dest = DefaultDestination (config e) /\ forall r, r ∈ cur_rules e -> ~ rule_matches p r)) /\
  (forall a q now', EnableCache (config e) = true -> DstAddr p = Some a -> DstAddr q = Some a -> (route_look now' e' q).1 = Some d).
Proof.
  intros Hi%running_inv Hmiss. unfold Route. destruct (look_sat (fun _ _ => True) now e p (engine_inv_sat e Hi)) as (Ht & Hc & _).
  destruct (route_look now e p) as [[d|] e1]; [done|]. cbn [fst snd] in *. destruct (find_spec e1 p) as (Hd & Ht1 & Hc1). destruct (route_find e1 p) as [d e2]. cbn [fst snd] in *.
  rewrite <- Hc1 in Hc. destruct (store_sat (fun _ _ => True) now e2 p d Hc ltac:(done)) as [Ht2 _].
  rewrite (scan_dest_same e) in Hd by done. pose proof (same_tables_trans _ _ _ Ht Ht1) as Ht'. exists (verdict e p). split_and!.
  - rewrite (load_same _ _ _ (same_tables_trans _ _ _ Ht' Ht2)), Hd. by apply load_scan_dest.
  - by apply verdict_best.
  - intros a q now' Hen Hp Hq. unfold route_look. destruct Ht2 as (-> & _). destruct Ht' as (E & _). rewrite E, Hen. unfold checkCache. rewrite Hq.
    unfold route_store, updateCache. rewrite E, Hen, Hp. cbn [cache with_cache].
    pose proof (cache_sat_hit _ now now' (NetAddr_String a) d (cache e2) Hc) as Hh. destruct (Get None now' _ _) as [v c]. done.
Qed.

(** ** When the cache is transparent *)

(** The rules only look at the destination. *)
Definition dst_only (l : list RoutingRule) : Prop :=
  forall r c, r ∈ l -> c ∈ Conditions r ->
    Field c <> "src_ip"%string /\ Field c <> "src_port"%string /\ Field c <> "session_id"%string.

Definition same_target (p q : Packet) : Prop :=
  addrIP (DstAddr p) = addrIP (DstAddr q) /\ addrPort (DstAddr p) = addrPort (DstAddr q).

Lemma match_cond_target c p q :
  Field c <> "src_ip"%string -> Field c <> "src_port"%string -> Field c <> "session_id"%string ->
  same_target p q -> match_cond (compileCond c) p = match_cond (compileCond c) q.
Proof.
  intros H1 H2 H3 [Hip Hport].
  assert (Hm : matchCondition c p = matchCondition c q).
  { unfold matchCondition, matchIP, matchPort. rewrite Hip, Hport.
    rewrite (bool_decide_false _ H1), (bool_decide_false _ H2), (bool_decide_false _ H3). done. }
  assert (Hf : forall x, field x = Field c -> raw x = c -> match_cond x p = match_cond x q).
  { intros x E1 E2. unfold match_cond. rewrite E1, E2, Hm, (bool_decide_false _ H1), Hip. done. }
  apply Hf; unfold compileCond; destruct (Value c); try done;
    repeat (destruct (is_ip_field _) || case_bool_decide); done.
Qed.

Lemma scan_dest_target e p q :
  engine_inv e -> dst_only (cur_rules e) -> same_target p q -> scan_dest e p = scan_dest e q.
Proof.
  intros Hi Hd Ht. rewrite !scan_dest_find by done. do 2 f_equal.
  unfold dst_only in Hd. induction (cur_rules e) as [|r l IH]; [done|]. cbn [list_find].
  assert (Hr : rule_matches p r <-> rule_matches q r).
  { unfold rule_matches. assert (Hr : forall c, c ∈ Conditions r ->
      match_cond (compileCond c) p = match_cond (compileCond c) q).
    { intros c Hc. destruct (Hd r c) as (? & ? & ?); [left|done|]. by apply match_cond_target. }
    clear -Hr. induction (Conditions r) as [|c l IH]; [done|]. cbn.
    rewrite (Hr c) by left. rewrite !andb_true_iff, IH; [done|]. intros c' Hc'. apply Hr. by right. }
  destruct (decide (rule_matches p r)), (decide (rule_matches q r)); try tauto.
  rewrite IH; [done|]. intros r' c Hr' Hc. apply (Hd r'); [by right|done].
Qed.

(** What is cached under the string of a destination is the verdict of a scan for some
    packet with that string. *)
Definition cached_for (A : NetAddr -> Prop) e (k : string) (v : option dest_ptr) : Prop :=
  forall d b, v = Some d -> A b -> NetAddr_String b = k -> exists p a, DstAddr p = Some a /\ A a /\ NetAddr_String a = k /\ d = scan_dest e p.

Lemma cleared_sat Q c : cache_ok c -> cache_sat Q (Clear c).
Proof.
  intros (C0 & _). split.
  - unfold cache_ok. cbn. by rewrite lru_Purge_cap, lru_Purge_map.
  - intros k en. unfold entry_of. cbn. by rewrite lru_Purge_map.
Qed.

Lemma cached_for_same A e e' : same_tables e e' -> forall k v, cached_for A e k v -> cached_for A e' k v.
Proof. intros Ht k v Hc d b Hd Hb Hk. destruct (Hc d b Hd Hb Hk) as (p & a & ? & ? & ? & ->). exists p, a. by rewrite (scan_dest_same e e'). Qed.

Lemma cache_sat_impl (Q Q' : string -> option dest_ptr -> Prop) c : (forall k v, Q k v -> Q' k v) -> cache_sat Q c -> cache_sat Q' c.
Proof. intros HQ [Hok Hs]. split; [done|]. intros k en He. destruct (Hs k en He). auto. Qed.

(** With no call between its scan and its store when the rules change, the cache and
    the calls under way hold the verdicts of the present rules. *)
Definition fresh A e (fl : list (Packet * dest_ptr)) : Prop :=
  cache_sat (cached_for A e) (cache e) /\ Forall (fun x => x.2 = scan_dest e x.1 /\ forall a, DstAddr x.1 = Some a -> A a) fl.

Lemma fresh_changed A e e' fl : fl = [] -> cache_ok (cache e) -> cache e' = Clear (cache e) -> fresh A e' fl.
Proof. intros -> Hok Hc. split; [|constructor]. rewrite Hc. by apply cleared_sat. Qed.

Lemma fresh_same A e e' fl : same_tables e e' -> cache_sat (cached_for A e) (cache e') -> fresh A e fl -> fresh A e' fl.
Proof.
  intros Ht Hc [_ Hf]. split.
  - eapply cache_sat_impl; [|exact Hc]. by apply cached_for_same.
  - eapply Forall_impl; [exact Hf|]. intros x [Hx Ha]. by rewrite (scan_dest_same e e').
Qed.

Lemma running_fresh A e fl : running True A e fl -> fresh A e fl.
Proof.
  induction 1 as [cfg|shuffle grow e r fl Hs Hq Hr IH|e id fl Hq Hr IH|shuffle e l cap fl Hs Hq Hr IH|now e p fl Hr IH|e p fl Ha Hr IH|now e p d fl fl' Hr IH|now e U domain d fl Ha Hr IH|now e U domain fl Hr IH].
  - split; [|constructor]. split; [apply NewLRUCache_ok|]. intros k en. unfold entry_of. cbn. by rewrite lru_New_map.
  - pose proof (inv_cache _ (running_inv _ _ _ _ Hr)) as Hok. unfold AddRule. case_bool_decide; [done|]. destruct (byID e !! ID r); [done|].
    destruct (_ <=? _); [done|]. apply (fresh_changed _ e); [auto|done|]. unfold append_sort. by destruct (_ <? _)%nat.
  - unfold RemoveRule. destruct (byID e !! id); [|done]. apply (fresh_changed _ e); [auto|apply (running_inv _ _ _ _ Hr)|done].
  - unfold UpdateRules. destruct (check_ids ∅ l); [done|]. apply (fresh_changed _ e); [auto|apply (running_inv _ _ _ _ Hr)|done].
  - destruct (look_sat _ now e p (proj1 IH)) as (H1 & H2 & _). by apply (fresh_same _ e).
  - destruct (find_spec e p) as (Hd & H1 & H2). destruct (fresh_same A e (route_find e p).2 fl H1) as [Hc Hf]; [rewrite H2; apply IH|done|].
    split; [done|]. constructor; [|done]. cbn. by rewrite (scan_dest_same e).
  - destruct IH as [Hc Hf]. apply Forall_app in Hf as [Hf1 [[Hd Ha] Hf2]%Forall_cons]. cbn in Hd, Ha.
    destruct (store_sat (cached_for A e) now e p d Hc) as [H1 H2].
    { intros a Hp d' b [= <-] _ _. exists p, a. auto. }
    apply (fresh_same _ e); [done|done|]. split; [done|]. by apply Forall_app.
  - destruct IH as [[Hok Hc] Hf]. split; [|done]. split; [by apply add_entry_ok|]. intros k en. unfold CacheDomain, Set_. cbn [cache with_cache].
    set (key := ("domain:" +:+ ToLower domain)%string). destruct (decide (k = key)) as [->|Hne].
    + rewrite add_entry_entry by done. intros [= <-]. split; [done|]. intros d' b _ Hb Hk. by destruct (Ha b Hb).
    + match goal with |- context [add_entry key ?x ?c] => destruct (add_entry_other key x c k Hok Hne) as [->| ->] end; [apply Hc|done].
  - unfold LookupDomain. destruct (cache_sat_get _ now ("domain:" +:+ ToLower domain)%string (cache e) (proj1 IH)) as [H1 _].
    destruct (Get None now _ (cache e)) as [d c]. by apply (fresh_same _ e).
Qed.

(** C8: when the rules look at nothing but the destination, and two destinations that
    are routed have the same string only if they have the same IP and port, the cache
    changes no verdict: however calls of [Route], lookups and changes of the rules
    interleave, as long as the rules change only while no call is between its scan and
    its store, what the cache answers and what a scan answers are both the verdict of
    the rules alone. *)
Theorem route_cache_transparent (A : NetAddr -> Prop) now e p fl :
  (forall a b, A a -> A b -> NetAddr_String a = NetAddr_String b ->
     addrIP (Some a) = addrIP (Some b) /\ addrPort (Some a) = addrPort (Some b)) ->
  running True A e fl -> dst_only (cur_rules e) -> (forall a, DstAddr p = Some a -> A a) ->
  (forall d, (route_look now e p).1 = Some d -> load (route_look now e p).2 d = Some (verdict e p)) /\
  load (route_find e p).2 (route_find e p).1 = Some (verdict e p).
Proof.
  intros Hinj Hr Hd Ha. pose proof (running_inv _ _ _ _ Hr) as Hi. split.
  - intros d Hl. destruct (look_sat _ now e p (proj1 (running_fresh _ _ _ Hr))) as (Ht & _ & Hq).
    destruct (Hq d Hl) as (_ & a & Hp & Hc). destruct (Hc d a eq_refl (Ha a Hp) eq_refl) as (q & b & Hqb & Hb & Hkey & ->).
    rewrite (load_same _ _ _ Ht), <- (load_scan_dest e p Hi). f_equal.
    apply scan_dest_target; [done|done|]. destruct (Hinj b a) as [E1 E2]; auto.
    unfold same_target. by rewrite Hp, Hqb.
  - destruct (find_spec e p) as (-> & Ht & _). rewrite (load_same _ _ _ Ht). by apply load_scan_dest.
Qed.

(** With the cache on, a packet to a destination that was just routed gets
    the same verdict whatever its own source address, source port and session:
    rules on [src_ip], [src_port] and [session_id] are not consulted. *)
Theorem route_cache_ignores_source quiet A now now' e p q a fl :
  running quiet A e fl -> EnableCache (config e) = true -> DstAddr p = Some a -> DstAddr q = Some a -> (route_look now e p).1 = None ->
  (Route now' (Route now e p).2 q).1 = (Route now e p).1.
Proof.
  intros Hr Hen Hp Hq Hl. assert (Hc : exists d, (Route now e p).1 = d /\ (route_look now' (Route now e p).2 q).1 = Some d).
  { pose proof (running_inv _ _ _ _ Hr) as Hi. unfold Route. destruct (look_sat (fun _ _ => True) now e p (engine_inv_sat e Hi)) as (Ht & Hc & _).
    destruct (route_look now e p) as [[d|] e1]; [done|]. cbn [fst snd] in *. destruct (find_spec e1 p) as (_ & Ht1 & Hc1). destruct (route_find e1 p) as [d e2]. cbn [fst snd] in *.
    exists d. split; [done|]. unfold route_look, route_store, updateCache. destruct (same_tables_trans _ _ _ Ht Ht1) as (E & _). rewrite E, Hen, Hp. cbn. rewrite E, Hen. unfold checkCache. rewrite Hq.
    rewrite <- Hc1 in Hc. pose proof (cache_sat_hit _ now now' (NetAddr_String a) d (cache e2) Hc) as Hh. cbn. destruct (Get None now' _ _) as [v c]. done. }
  destruct Hc as (d & -> & Hd). unfold Route at 1. destruct (route_look now' _ q) as [v e']. cbn in Hd. by subst v.
Qed.

(** ** Destinations already handed out *)

Lemma sort_rules_top shuffle l r :
  (forall l, shuffle l ≡ₚ l) -> (forall x, x ∈ l -> Priority x < Priority r) ->
  exists l', sort_rules shuffle (l ++ [r]) = r :: l'.
Proof.
  intros Hs Hlt. pose proof (sort_rules_perm shuffle (l ++ [r]) Hs) as Hp.
  pose proof (sort_rules_sorted shuffle (l ++ [r])) as Hsort.
  destruct (sort_rules shuffle (l ++ [r])) as [|h t].
  { apply Permutation_nil_l in Hp. by destruct l. }
  exists t. f_equal. assert (Hh : h ∈ l ++ [r]) by (rewrite <- Hp; left).
  apply elem_of_app in Hh as [Hh|Hh%list_elem_of_singleton]; [|done]. exfalso.
  assert (Hr : r ∈ h :: t) by (rewrite Hp; apply elem_of_app; right; left).
  apply elem_of_cons in Hr as [->|Hr]; [specialize (Hlt _ Hh); lia|].
  apply StronglySorted_inv in Hsort as [_ Hall]. rewrite Forall_forall in Hall.
  specialize (Hall _ Hr). specialize (Hlt _ Hh). unfold higher in Hall. lia.
Qed.

(** Adding a rule changes destinations already handed out: when the rule
    array has room, a caller that holds the destination of the engine's first
    rule finds in it the destination of a new rule of higher priority as soon
    as [AddRule] returns, although its packet never matched that rule. *)
Theorem add_rule_rewrites_destinations quiet A shuffle grow e r fl :
  (forall l, shuffle l ≡ₚ l) -> running quiet A e fl ->
  (s_len (rules e) < s_cap (rules e))%nat ->
  (forall x, x ∈ cur_rules e -> Priority x < Priority r) ->
  (AddRule shuffle grow e r).2 = None ->
  load (AddRule shuffle grow e r).1 (InRule (s_arr (rules e)) 0) = Some (r_Destination r).
Proof.
  intros Hs Hi%running_inv Hroom Htop Hok.
  destruct (sort_rules_top shuffle (cur_rules e) r Hs Htop) as [l' Hl'].
  revert Hok. unfold AddRule. case_bool_decide; [done|]. destruct (byID e !! ID r); [done|].
  destruct (_ <=? _); [done|]. intros _. unfold append_sort.
  rewrite (proj2 (Nat.ltb_lt _ _)) by done. rewrite Hl'. cbn. unfold array. cbn.
  rewrite list_lookup_insert_eq by apply Hi. done.
Qed.

End Inv.

(** ** Witnesses *)

Definition direct : Destination := mkDestination "direct" "" 0 "".
Definition proxy : Destination := mkDestination "proxy" "10.9.9.9" 443 "exit".
Definition block : Destination := mkDestination "block" "" 0 "".
Definition dst_rule : RoutingRule :=
  mkRule "lan" 10 [mkCond "dst_ip" "cidr" (VString "10.0.0.0/8")] proxy.
Definition src_rule : RoutingRule :=
  mkRule "guest" 20 [mkCond "src_ip" "eq" (VString "192.168.1.66")] block.
Definition addr (a b c d port : Z) : NetAddr := UDPAddr [a; b; c; d] port "".
Definition pkt (src dst : NetAddr) : Packet := mkPacket 1 (Some src) (Some dst).
Definition home : NetAddr := addr 192 168 1 2 5000.
Definition guest : NetAddr := addr 192 168 1 66 5000.
Definition site : NetAddr := addr 10 1 2 3 443.

Definition eng0 : @Engine WipeLru := New None.
Definition eng1 : @Engine WipeLru := (AddRule id (fun n => n * 4)%nat eng0 dst_rule).1.
Definition eng2 : @Engine WipeLru := (AddRule id (fun n => n * 4)%nat eng1 src_rule).1.

Lemma eng1_running quiet A : running quiet A eng1 [].
Proof. apply run_add; [done|done|]. apply run_new. Qed.
Lemma eng2_running quiet A : running quiet A eng2 [].
Proof. apply run_add; [done|done|]. apply eng1_running. Qed.

Lemma router_tables_consistent_witness :
  StronglySorted higher (cur_rules eng2) /\ ID <$> cur_rules eng2 = ["guest"; "lan"]%string.
Proof.
  split; [|vm_compute; reflexivity].
  destruct (router_tables_consistent True (fun _ => True) eng2 []) as (H & _); [apply eng2_running|exact H].
Defined.

(** The cache is on and empty. *)
Lemma route_best_match_witness :
  EnableCache (config eng1) = true /\ load (Route 0 eng1 (pkt home site)).2 (Route 0 eng1 (pkt home site)).1 = Some proxy /\
  (route_look 1 (Route 0 eng1 (pkt home site)).2 (pkt guest site)).1 = Some (Route 0 eng1 (pkt home site)).1.
Proof.
  split; [vm_compute; reflexivity|]. split; [vm_compute; reflexivity|].
  pose proof (route_best_match True (fun _ => True) 0 eng1 (pkt home site) [] (eng1_running _ _) ltac:(vm_compute; reflexivity)) as H.
  destruct (Route 0 eng1 (pkt home site)) as [d e'] eqn:E. destruct H as (dest & _ & _ & Hc).
  exact (Hc site (pkt guest site) 1 ltac:(vm_compute; reflexivity) eq_refl eq_refl).
Defined.

(** A call of [home] has scanned and not stored; then one of [home] stores, and
    [guest] is answered by the cache. *)
Definition eng3 : @Engine WipeLru := route_store 0 (route_find (route_find eng1 (pkt home site)).2 (pkt home site)).2 (pkt home site) (InRule 1 0).
Lemma eng3_running : running True (fun a => a = site) eng3 [(pkt home site, InRule 1 0)].
Proof.
  assert (Hs : forall a, DstAddr (pkt home site) = Some a -> a = site) by (intros a [= <-]; reflexivity).
  pose proof (run_find _ _ _ (pkt home site) _ Hs (run_find _ _ _ (pkt home site) _ Hs (eng1_running True (fun a => a = site)))) as H.
  apply (run_store _ _ 0 _ _ _ [] _) in H. exact H.
Qed.
Lemma route_cache_transparent_witness :
  (route_look 1 eng3 (pkt guest site)).1 = Some (InRule 1 0) /\ load (route_look 1 eng3 (pkt guest site)).2 (InRule 1 0) = Some (verdict eng3 (pkt guest site)).
Proof.
  assert (Hl : (route_look 1 eng3 (pkt guest site)).1 = Some (InRule 1 0)) by (vm_compute; reflexivity). split; [exact Hl|].
  destruct (route_cache_transparent (fun a => a = site) 1 eng3 (pkt guest site) [(pkt home site, InRule 1 0)]) as [H _].
  - intros a b Ha Hb _. rewrite Ha, Hb. split; reflexivity.
  - apply eng3_running.
  - assert (Hc : cur_rules eng3 = [dst_rule]) by (vm_compute; reflexivity).
    rewrite Hc. intros r c ->%list_elem_of_singleton ->%list_elem_of_singleton. split_and!; discriminate.
  - intros a [= <-]. reflexivity.
  - exact (H _ Hl).
Defined.

(** A call that scanned before the only rule was removed stores its verdict after
    the cache was cleared: from then on the cache answers with the removed rule. *)
Definition eng4 : @Engine WipeLru := route_store 0 (RemoveRule (route_find eng1 (pkt home site)).2 "lan").1 (pkt home site) (InRule 1 0).
Lemma stale_verdict_stays : running False (fun a => a = site) eng4 [] /\ cur_rules eng4 = [] /\
  (route_look 1 eng4 (pkt home site)).1 = Some (InRule 1 0) /\ load eng4 (InRule 1 0) = Some proxy /\ verdict eng4 (pkt home site) = direct.
Proof.
  split; [|vm_compute; auto]. assert (Hs : forall a, DstAddr (pkt home site) = Some a -> a = site) by (intros a [= <-]; reflexivity).
  pose proof (run_remove False _ _ "lan"%string _ (fun F : False => match F with end) (run_find _ _ _ (pkt home site) _ Hs (eng1_running False (fun a => a = site)))) as H.
  exact (run_store _ _ 0 _ _ _ [] [] H).
Qed.

(** The guest is blocked by a rule of higher priority, but not after somebody
    else went to the same place. *)
Lemma route_cache_ignores_source_witness :
  (Route 1 (Route 0 eng2 (pkt home site)).2 (pkt guest site)).1 = (Route 0 eng2 (pkt home site)).1 /\
  verdict eng2 (pkt guest site) = block /\
  load eng2 (Route 1 (Route 0 eng2 (pkt home site)).2 (pkt guest site)).1 = Some proxy.
Proof.
  split; [|split; vm_compute; reflexivity].
  apply (route_cache_ignores_source True (fun _ => True) 0 1 eng2 (pkt home site) (pkt guest site) site []);
    [apply eng2_running|vm_compute; reflexivity|reflexivity|reflexivity|vm_compute; reflexivity].
Defined.

Lemma add_rule_rewrites_destinations_witness :
  (Route 0 eng1 (pkt home site)).1 = InRule (s_arr (rules eng1)) 0 /\
  load eng1 (InRule (s_arr (rules eng1)) 0) = Some proxy /\
  load eng2 (InRule (s_arr (rules eng1)) 0) = Some block.
Proof.
  split; [vm_compute; reflexivity|]. split; [vm_compute; reflexivity|].
  apply (add_rule_rewrites_destinations True (fun _ => True) id (fun n => n * 4)%nat eng1 src_rule []);
    [done|apply eng1_running|vm_compute; lia| |vm_compute; reflexivity].
  assert (Hc : cur_rules eng1 = [dst_rule]) by (vm_compute; reflexivity).
  rewrite Hc. intros x ->%list_elem_of_singleton. vm_compute. reflexivity.
Defined.

