(* ===== verification/Routing.v ===== *)
(** The rule router of common/routing/routing.go: rules, the geo databases and
    their loaders, and [Match].

    Files are their bytes; [bufio.Scanner] gives the lines before the first one
    of 65536 bytes or more, which ends it with an error.  Regular expressions
    are values of the interface [Regexp].  [int] is 64 bits wide. *)

From S2P Require Import Prelude GoStr NetIP.

Module Routing.

Class Regexp := {
  regexp : Type;
  regexp_Compile : string -> option regexp;
  regexp_MatchString : regexp -> string -> bool
}.

Inductive RuleType :=
  | RuleTypeDomain | RuleTypeDomainSuffix | RuleTypeDomainKeyword | RuleTypeDomainRegex
  | RuleTypeIP | RuleTypeGeoIP | RuleTypeGeoSite | RuleTypePort | RuleTypeFinal
  | RuleTypeOther (name : string).

Inductive Action := ActionDirect | ActionProxy | ActionReject | ActionOther (name : string).

(** ** bufio.Scanner *)

Definition MaxScanTokenSize : Z := 65536.

(** [ScanLines]: a line without its newline and without a final carriage
    return; [cur] holds the bytes of the line so far, last first. *)
Definition drop_cr (rcur : list Z) : list Z :=
  match rcur with
  | 13 :: r => rev r
  | _ => rev rcur
  end.
Fixpoint scan_lines (cur : list Z) (n : Z) (data : list Z) : list (list Z) * bool :=
  if MaxScanTokenSize <=? n then ([], true)
  else match data with
  | [] => (if n =? 0 then [] else [drop_cr cur], false)
  | b :: data' =>
      if b =? 10 then let '(ls, e) := scan_lines [] 0 data' in (drop_cr cur :: ls, e)
      else scan_lines (b :: cur) (n + 1) data'
  end.

Definition file_lines (data : list Z) : list string * bool :=
  let '(ls, e) := scan_lines [] 0 data in (string_of_bytes <$> ls, e).

Section Router.
Context {RE : Regexp} {UC : UnicodeCase}.

Record Rule := mkRule {
  Type_ : RuleType;
  Value : string;
  Action_ : Action;
  Tag : string;
  regex : option regexp
}.

Record GeoSiteDatabase := mkGeoSite {
  domains : gmap string (list string);
  suffixes : gmap string (list string);
  keywords : gmap string (list string);
  regexps : gmap string (list regexp)
}.

Record Router := mkRouter {
  rules : list Rule;
  ipRanges : gmap string (list IPNet);
  geoSite : GeoSiteDatabase;
  matches : Z;
  misses : Z
}.

Definition NewRouter : Router := mkRouter [] ∅ (mkGeoSite ∅ ∅ ∅ ∅) 0 0.

(** [AddRule]; the result is true when the expression does not compile. *)
Definition AddRule (r : Router) (rule : Rule) : Router * bool :=
  let add rule :=
    mkRouter (rules r ++ [rule]) (ipRanges r) (geoSite r) (matches r) (misses r) in
  match Type_ rule with
  | RuleTypeDomainRegex =>
      match regexp_Compile (Value rule) with
      | None => (r, true)
      | Some re =>
          (add (mkRule (Type_ rule) (Value rule) (Action_ rule) (Tag rule) (Some re)), false)
      end
  | _ => (add rule, false)
  end.

(** ** Loaders *)

Definition map_append {A} (k : string) (x : A) (m : gmap string (list A)) : gmap string (list A) :=
  <[k := default [] (m !! k) ++ [x]]> m.

Definition skip_line (line : string) : bool :=
  bool_decide (line = EmptyString) || HasPrefix line "#".

(** The entry of one line of a geoip file. *)
Definition geoip_line (text : string) : option (string * IPNet) :=
  let line := TrimSpace text in
  if skip_line line then None
  else match SplitN line 44 2 with
  | [a; b] => n ← ParseCIDR (TrimSpace b); Some (ToUpper (TrimSpace a), n)
  | _ => None
  end.

Definition load_geoip_line (m : gmap string (list IPNet)) (text : string) : gmap string (list IPNet) :=
  match geoip_line text with
  | Some (code, n) => map_append code n m
  | None => m
  end.

(** [LoadGeoIPFile]: [None] is a file that cannot be opened; the result is true
    on an error. *)
Definition LoadGeoIPFile (r : Router) (file : option (list Z)) : Router * bool :=
  match file with
  | None => (r, true)
  | Some data =>
      let '(ls, err) := file_lines data in
      (mkRouter (rules r) (foldl load_geoip_line (ipRanges r) ls) (geoSite r) (matches r) (misses r),
       err)
  end.

Definition load_geosite_line (g : GeoSiteDatabase) (text : string) : GeoSiteDatabase :=
  let line := TrimSpace text in
  if skip_line line then g
  else
    let entry := match SplitN line 58 3 with
                 | [c; v] => Some (ToLower c, "domain"%string, v)
                 | [c; t; v] => Some (ToLower c, t, v)
                 | _ => None
                 end in
    match entry with
    | None => g
    | Some (category, ruleType, value) =>
        if bool_decide (ruleType = "domain"%string) then
          mkGeoSite (map_append category (ToLower value) (domains g)) (suffixes g) (keywords g) (regexps g)
        else if bool_decide (ruleType = "suffix"%string) then
          mkGeoSite (domains g) (map_append category (ToLower value) (suffixes g)) (keywords g) (regexps g)
        else if bool_decide (ruleType = "keyword"%string) then
          mkGeoSite (domains g) (suffixes g) (map_append category (ToLower value) (keywords g)) (regexps g)
        else if bool_decide (ruleType = "regexp"%string) then
          match regexp_Compile value with
          | Some re => mkGeoSite (domains g) (suffixes g) (keywords g) (map_append category re (regexps g))
          | None => g
          end
        else g
    end.

Definition LoadGeoSiteFile (r : Router) (file : option (list Z)) : Router * bool :=
  match file with
  | None => (r, true)
  | Some data =>
      let '(ls, err) := file_lines data in
      (mkRouter (rules r) (ipRanges r) (foldl load_geosite_line (geoSite r) ls) (matches r) (misses r),
       err)
  end.

(** [LoadGeoData]: the two files of the directory, a missing one skipped. *)
Definition LoadGeoData (r : Router) (geoip geosite : option (list Z)) : Router * bool :=
  let '(r1, e1) := match geoip with Some _ => LoadGeoIPFile r geoip | None => (r, false) end in
  if (e1 : bool) then (r1, true)
  else match geosite with Some _ => LoadGeoSiteFile r1 geosite | None => (r1, false) end.

(** ** Matching *)

Definition matchGeoIP (r : Router) (ip : IP) (code : string) : bool :=
  match ipRanges r !! ToUpper code with
  | None => false
  | Some ranges => existsb (fun n => IPNet_Contains n ip) ranges
  end.

(** [domain == s || strings.HasSuffix(domain, "."+s)]. *)
Definition in_suffix (domain s : string) : bool :=
  bool_decide (domain = s) || HasSuffix domain ("." +:+ s)%string.

Definition matchGeoSite (r : Router) (domain category : string) : bool :=
  let category := ToLower category in
  let g := geoSite r in
  existsb (fun d => bool_decide (domain = d)) (default [] (domains g !! category))
  || existsb (in_suffix domain) (default [] (suffixes g !! category))
  || existsb (fun k => Contains domain k) (default [] (keywords g !! category))
  || existsb (fun re => regexp_MatchString re domain) (default [] (regexps g !! category)).

(** The digit loop of [parseIntFromString] over the runes of the string: a byte
    above 127 starts a rune above '9'. *)
Fixpoint parse_digits (n : Z) (l : list Z) : option Z :=
  match l with
  | [] => Some n
  | c :: l' => if is_digit c then parse_digits (i64 (n * 10 + (c - 48))) l' else None
  end.
(** [parseIntFromString(s, &result)] with [result] at 0: the new value of
    [result] and the boolean; it has no error to return. *)
Definition parseIntFromString (s : string) : Z * bool :=
  match parse_digits 0 (bytes_of_string (TrimSpace s)) with
  | Some n => (n, true)
  | None => (0, false)
  end.

Definition matchPort (port : Z) (value : string) : bool :=
  let single := port =? (parseIntFromString value).1 in
  if Contains value "-" then
    match SplitN value 45 2 with
    | [a; b] => ((parseIntFromString a).1 <=? port) && (port <=? (parseIntFromString b).1)
    | _ => single
    end
  else single.

(** The switch of [Match] for one rule; [domain] is in lower case. *)
Definition rule_matched (r : Router) (destIP : option IP) (domain : string) (port : Z) (rule : Rule)
  : bool :=
  match Type_ rule with
  | RuleTypeDomain => bool_decide (domain = ToLower (Value rule))
  | RuleTypeDomainSuffix => in_suffix domain (ToLower (Value rule))
  | RuleTypeDomainKeyword => Contains domain (ToLower (Value rule))
  | RuleTypeDomainRegex =>
      match regex rule with Some re => regexp_MatchString re domain | None => false end
  | RuleTypeIP =>
      match destIP with
      | None => false
      | Some ip =>
          match ParseCIDR (Value rule) with
          | Some n => IPNet_Contains n ip
          | None => match ParseIP (Value rule) with Some i => IP_Equal i ip | None => false end
          end
      end
  | RuleTypeGeoIP => match destIP with Some ip => matchGeoIP r ip (Value rule) | None => false end
  | RuleTypeGeoSite => matchGeoSite r domain (Value rule)
  | RuleTypePort => matchPort port (Value rule)
  | RuleTypeFinal => true
  | RuleTypeOther _ => false
  end.

Fixpoint match_rules (r : Router) (destIP : option IP) (domain : string) (port : Z) (l : list Rule)
  : option Action :=
  match l with
  | [] => None
  | rule :: l' =>
      if rule_matched r destIP domain port rule then Some (Action_ rule)
      else match_rules r destIP domain port l'
  end.

Definition Match (r : Router) (destIP : option IP) (destDomain : string) (destPort : Z)
  : Action * Router :=
  match match_rules r destIP (ToLower destDomain) destPort (rules r) with
  | Some a => (a, mkRouter (rules r) (ipRanges r) (geoSite r) (u64 (matches r + 1)) (misses r))
  | None => (ActionProxy, mkRouter (rules r) (ipRanges r) (geoSite r) (matches r) (u64 (misses r + 1)))
  end.

Definition Stats (r : Router) : Z * Z := (matches r, misses r).
Definition GetCategories (visit : list string -> list string) (r : Router) : list string :=
  visit (elements (dom (domains (geoSite r)) ∪ dom (suffixes (geoSite r)))).
Definition GetCountries (visit : list string -> list string) (r : Router) : list string :=
  visit (elements (dom (ipRanges r))).

(** ** Facts *)

Lemma foldl_geoip_lookup ls : forall m code,
  default [] (foldl load_geoip_line m ls !! code) =
  default [] (m !! code) ++
  omap (fun t => geoip_line t ≫= fun x => if decide (x.1 = code) then Some x.2 else None) ls.
Proof.
  induction ls as [|t ls IH]; intros m code; [by rewrite app_nil_r|].
  cbn [foldl]. rewrite IH. unfold load_geoip_line at 1. cbn [omap list_omap].
  destruct (geoip_line t) as [[c n]|]; [|done]. cbn [mbind option_bind fst snd].
  unfold map_append. destruct (decide (c = code)) as [->|Hne].
  - rewrite lookup_insert_eq. cbn. by rewrite <- app_assoc.
  - by rewrite lookup_insert_ne.
Qed.

Lemma matchGeoIP_spec r ip code :
  matchGeoIP r ip code = true <->
  exists n, n ∈ default [] (ipRanges r !! ToUpper code) /\ IPNet_Contains n ip = true.
Proof.
  unfold matchGeoIP. destruct (ipRanges r !! ToUpper code) as [l|]; cbn [default from_option id].
  - rewrite existsb_exists. setoid_rewrite list_elem_of_In. done.
  - split; [done|]. intros (n & ?%elem_of_nil & _). done.
Qed.

(** After loading a geoip file an address is in a country exactly when it
    was before, or some line of the file has the form "code,network", with the
    code spelled in any case and spaces around both, and the network contains
    the address; loading says false only when it read every line. *)
Theorem geoip_load_match r data ip code :
  let '(r', err) := LoadGeoIPFile r (Some data) in
  (matchGeoIP r' ip code = true <->
   matchGeoIP r ip code = true \/
   exists line n, line ∈ (file_lines data).1 /\ geoip_line line = Some (ToUpper code, n) /\
     IPNet_Contains n ip = true) /\
  err = (file_lines data).2.
Proof.
  unfold LoadGeoIPFile. destruct (file_lines data) as [ls err]. split; [|done]. cbn [fst].
  rewrite !matchGeoIP_spec. cbn [ipRanges]. rewrite foldl_geoip_lookup.
  setoid_rewrite elem_of_app. setoid_rewrite list_elem_of_omap. split.
  - intros (n & [Hn|(line & Hl & Hx)] & Hc); [left; eauto|right].
    destruct (geoip_line line) as [[c n']|] eqn:E; [|done]. cbn in Hx.
    destruct (decide (c = ToUpper code)) as [->|]; [|done]. injection Hx as <-. eauto.
  - intros [(n & Hn & Hc)|(line & n & Hl & E & Hc)]; [eauto|].
    exists n. split; [|done]. right. exists line. rewrite E. cbn.
    by rewrite decide_True.
Qed.

(** A [domain-suffix] rule matches the domain itself and its subdomains,
    with the dot in between, and nothing else, in any letter case. *)
Theorem suffix_label_boundary r ip domain port rule :
  Type_ rule = RuleTypeDomainSuffix ->
  rule_matched r ip (ToLower domain) port rule = true <->
  ToLower domain = ToLower (Value rule) \/
  exists sub, ToLower domain = (sub +:+ "." +:+ ToLower (Value rule))%string.
Proof.
  intros Ht. unfold rule_matched. rewrite Ht. unfold in_suffix. rewrite orb_true_iff, bool_decide_eq_true.
  apply or_iff_compat_l. unfold HasSuffix. rewrite has_prefix_true. split.
  - intros [t Ht']. exists (string_of_bytes (rev t)).
    rewrite <- (string_of_bytes_of_string (ToLower domain)).
    apply (f_equal (@rev Z)) in Ht'. rewrite rev_involutive in Ht'. rewrite Ht', rev_app_distr, rev_involutive.
    rewrite string_of_bytes_app. f_equal. apply string_of_bytes_of_string.
  - intros [sub ->]. rewrite bytes_of_string_app, rev_app_distr. eauto.
Qed.

(** The number a port text stands for: 0 when it is not a number. *)
Definition port_value (s : string) : Z :=
  match digits_val 0 (bytes_of_string (TrimSpace s)) with
  | Some n => i64 n
  | None => 0
  end.

Lemma i64_mul_add a d : i64 (i64 a * 10 + d) = i64 (a * 10 + d).
Proof.
  unfold i64. f_equal. set (M := 18446744073709551616). set (H := 9223372036854775808).
  rewrite <- (Zplus_mod_idemp_l (a * 10 + d)).
  replace (((a + H) mod M - H) * 10 + d + H) with ((a + H) mod M * 10 + (d + H - H * 10)) by lia.
  rewrite <- Zplus_mod_idemp_l, Zmult_mod_idemp_l, Zplus_mod_idemp_l, Zplus_mod_idemp_l.
  f_equal. lia.
Qed.

Lemma parse_digits_val l : forall a, parse_digits (i64 a) l = i64 <$> digits_val a l.
Proof.
  induction l as [|c l IH]; intros a; cbn [parse_digits digits_val]; [done|].
  destruct (is_digit c); [|done]. by rewrite i64_mul_add, IH.
Qed.

Lemma parseInt_value s : (parseIntFromString s).1 = port_value s.
Proof.
  unfold parseIntFromString, port_value. change 0 with (i64 0) at 1. rewrite parse_digits_val.
  by destruct (digits_val 0 _).
Qed.

Lemma split_two sep a b : forall cur,
  ~ In sep a -> split_n 2 sep cur (a ++ sep :: b) = [rev cur ++ a; b].
Proof.
  induction a as [|x a IH]; intros cur Hn; cbn.
  - rewrite Z.eqb_refl, app_nil_r. by destruct b.
  - destruct (Z.eqb_spec x sep) as [->|]; [by destruct Hn; left|].
    rewrite IH; [|intros ?; apply Hn; by right]. cbn. by rewrite <- app_assoc.
Qed.

(** A port rule without a dash matches exactly the port it spells, and one
    of the form "lo-hi" the ports from lo to hi; text that is not a number
    stands for 0 (it is not rejected), and numbers wrap at 64 bits. *)
Theorem port_rule_spec port v :
  (Contains v "-" = false -> matchPort port v = (port =? port_value v)) /\
  (forall a b, v = (a +:+ "-" +:+ b)%string -> ~ In 45 (bytes_of_string a) ->
     matchPort port v = (port_value a <=? port) && (port <=? port_value b)).
Proof.
  split.
  - intros Hc. unfold matchPort. by rewrite Hc, parseInt_value.
  - intros a b -> Hn. unfold matchPort, Contains, SplitN.
    assert (Hb : bytes_of_string (a +:+ "-" +:+ b)%string = bytes_of_string a ++ 45 :: bytes_of_string b).
    { by rewrite !bytes_of_string_app. }
    rewrite Hb, split_two by done. cbn [rev app map].
    rewrite (proj2 (contains_true _ _)) by (exists (bytes_of_string a), (bytes_of_string b); done).
    by rewrite !string_of_bytes_of_string, !parseInt_value.
Qed.

End Router.

(** ** Witnesses *)

#[local] Instance NoRegexp : Regexp :=
  {| regexp := unit; regexp_Compile _ := None; regexp_MatchString _ _ := false |}.
#[local] Instance AsciiOnly : UnicodeCase := {| unicode_lower s := s; unicode_upper s := s |}.

Lemma suffix_label_boundary_witness :
  rule_matched NewRouter None (ToLower "WWW.Example.com") 443
    (mkRule RuleTypeDomainSuffix "example.COM" ActionDirect "" None) = true /\
  rule_matched NewRouter None (ToLower "evilexample.com") 443
    (mkRule RuleTypeDomainSuffix "example.com" ActionDirect "" None) = false.
Proof.
  split; [|vm_compute; reflexivity].
  apply (suffix_label_boundary NewRouter None "WWW.Example.com" 443
    (mkRule RuleTypeDomainSuffix "example.COM" ActionDirect "" None)); [reflexivity|].
  right. exists "www"%string. vm_compute. reflexivity.
Defined.

Lemma port_rule_spec_witness : matchPort 8080 "8000-9000" = true /\ matchPort 443 " 443 " = true.
Proof.
  split.
  - rewrite (proj2 (port_rule_spec 8080 "8000-9000") "8000"%string "9000"%string);
      [vm_compute; reflexivity|reflexivity|].
    cbn. intros H. repeat destruct H as [H|H]; done.
  - rewrite (proj1 (port_rule_spec 443 " 443 ")) by reflexivity. vm_compute. reflexivity.
Defined.

Example port_garbage : matchPort 0 "https" = true /\ matchPort 443 "https" = false.
Proof. vm_compute. done. Qed.
Example geoip_file :
  (fun r => (matchGeoIP r.1 [10; 1; 2; 3] "ru", matchGeoIP r.1 [11; 1; 2; 3] "RU", r.2))
    (LoadGeoIPFile NewRouter (Some (bytes_of_string " # ranges
RU , 10.0.0.0/8
bad line
")))
  = (true, false, false).
Proof. vm_compute. reflexivity. Qed.

End Routing.
