(* ===== verification/Auth.v ===== *)
(** Session authentication: the tokens of core/protocol/pathgen.go, the replay
    set of core/protocol/tokenset.go, and how the listener
    (core/protocol/listener.go, selector_index.go) resolves and consumes a
    token on the per-flow and datagram lanes.

    HMAC-SHA256 and the HKDF key derivation are the operations of the class
    [Crypto].  [now] is [time.Now().Unix()].  Base64 is Go's non-strict
    [RawURLEncoding]: its decoder skips carriage returns and newlines and
    ignores the unused bits of the last character.  The clock-drift probe only
    logs; the drift computation itself is modelled. *)

From S2P Require Import Prelude GoIO.

Module Auth.

(** ** base64.RawURLEncoding *)

Definition b64_val (c : Z) : option Z :=
  if (65 <=? c) && (c <=? 90) then Some (c - 65)
  else if (97 <=? c) && (c <=? 122) then Some (c - 71)
  else if (48 <=? c) && (c <=? 57) then Some (c + 4)
  else if c =? 45 then Some 62
  else if c =? 95 then Some 63
  else None.
Definition b64_char (v : Z) : Z :=
  if v <? 26 then v + 65
  else if v <? 52 then v + 71
  else if v <? 62 then v - 4
  else if v =? 62 then 45 else 95.

Fixpoint b64_encode (b : list Z) : list Z :=
  match b with
  | x :: y :: z :: b' =>
      b64_char (Z.shiftr x 2) :: b64_char (Z.lor (Z.shiftl (Z.land x 3) 4) (Z.shiftr y 4))
      :: b64_char (Z.lor (Z.shiftl (Z.land y 15) 2) (Z.shiftr z 6)) :: b64_char (Z.land z 63)
      :: b64_encode b'
  | [x; y] =>
      [b64_char (Z.shiftr x 2); b64_char (Z.lor (Z.shiftl (Z.land x 3) 4) (Z.shiftr y 4));
       b64_char (Z.shiftl (Z.land y 15) 2)]
  | [x] => [b64_char (Z.shiftr x 2); b64_char (Z.shiftl (Z.land x 3) 4)]
  | [] => []
  end.

(** The quanta of four characters; the last may have two or three. *)
Fixpoint b64_quanta (v : list Z) : option (list Z) :=
  match v with
  | a :: b :: c :: d :: v' =>
      r ← b64_quanta v';
      Some (u8 (Z.lor (Z.shiftl a 2) (Z.shiftr b 4)) :: u8 (Z.lor (Z.shiftl b 4) (Z.shiftr c 2))
            :: u8 (Z.lor (Z.shiftl c 6) d) :: r)
  | [a; b; c] =>
      Some [u8 (Z.lor (Z.shiftl a 2) (Z.shiftr b 4)); u8 (Z.lor (Z.shiftl b 4) (Z.shiftr c 2))]
  | [a; b] => Some [u8 (Z.lor (Z.shiftl a 2) (Z.shiftr b 4))]
  | [_] => None
  | [] => Some []
  end.

Definition not_newline (c : Z) : Prop := c <> 10 /\ c <> 13.
#[global] Instance not_newline_dec c : Decision (not_newline c).
Proof. unfold not_newline. apply _. Defined.

Definition b64_decode (l : list Z) : option (list Z) :=
  v ← mapM b64_val (filter not_newline l); b64_quanta v.

Definition EncodeToString (b : list Z) : string := string_of_bytes (b64_encode b).
Definition DecodeString (s : string) : option (list Z) := b64_decode (bytes_of_string s).

(** ** pathgen.go *)

Class Crypto := {
  hmac_sha256 : list Z -> list Z -> list Z;
  derive_auth : list Z -> list Z
}.

Definition authWindowSeconds : Z := 30.
Definition authWindowTolerance : Z := 1.
Definition clockDriftProbeWindows : Z := 10.
Definition replayWindowSeconds : Z := (2 * authWindowTolerance + 1) * authWindowSeconds.

Section Tokens.
Context `{Crypto}.

(** The message whose MAC is the token of a window. *)
Definition token_msg (window : Z) (sessionID : list Z) : list Z := put64 (u64 window) ++ sessionID.

Definition AuthToken (authKey : list Z) (window : Z) (sessionID : list Z) : string :=
  EncodeToString (hmac_sha256 authKey (token_msg window sessionID)).

Definition window_of (now : Z) : Z := Z.quot now authWindowSeconds.

Definition ClientAuthToken (now : Z) (authKey sessionID : list Z) : string :=
  AuthToken authKey (window_of now) sessionID.

Definition macMatches (authKey : list Z) (window : Z) (sessionID want : list Z) : bool :=
  bool_decide (hmac_sha256 authKey (token_msg window sessionID) = want).

(** [VerifyAuthTokenRaw]: the candidates from [w - 1] to [w + 1]. *)
Definition VerifyAuthTokenRaw (now : Z) (authKey raw sessionID : list Z) : bool :=
  if negb (len raw =? 32) then false
  else existsb (fun candidate => macMatches authKey candidate sessionID raw)
         (seqZ (window_of now - authWindowTolerance) (2 * authWindowTolerance + 1)).

Definition VerifyAuthToken (now : Z) (authKey : list Z) (token : string) (sessionID : list Z) : bool :=
  match DecodeString token with
  | None => false
  | Some raw => VerifyAuthTokenRaw now authKey raw sessionID
  end.

(** The loop of [ProbeClockDrift] over the offsets from [offset]. *)
Fixpoint probe_offsets (authKey : list Z) (w : Z) (raw sessionID : list Z) (offsets : list Z)
  : option Z :=
  match offsets with
  | [] => None
  | o :: offsets' =>
      if macMatches authKey (w + o) sessionID raw then Some o
      else if macMatches authKey (w - o) sessionID raw then Some (- o)
      else probe_offsets authKey w raw sessionID offsets'
  end.
Definition ProbeClockDrift (now : Z) (authKey : list Z) (token : string) (sessionID : list Z)
  : option Z :=
  match DecodeString token with
  | None => None
  | Some raw =>
      if negb (len raw =? 32) then None
      else probe_offsets authKey (window_of now) raw sessionID
             (seqZ (authWindowTolerance + 1) (clockDriftProbeWindows - authWindowTolerance))
  end.

(** ** tokenset.go *)

Definition tokenSeenShardCount : Z := 16.
Definition tokenSeenShardCleanupThreshold : Z := 1000 / tokenSeenShardCount.

Record tokenSeenSet := mkSeen { shards : list (gmap string Z) }.

(** FNV-1a, 32 bits. *)
Definition fnv32a (b : list Z) : Z :=
  foldl (fun h c => u32 (Z.lxor h c * 16777619)) 2166136261 b.
Definition tokenShardIndex (token : string) : Z :=
  fnv32a (bytes_of_string token) mod tokenSeenShardCount.

(** The set after [init]. *)
Definition newSeen : tokenSeenSet := mkSeen (replicate 16 ∅).

Definition shard (s : tokenSeenSet) (token : string) : gmap string Z :=
  default ∅ (shards s !! Z.to_nat (tokenShardIndex token)).

(** The deletion loop of [consume] and [sweep]. *)
Definition drop_old (now : Z) (m : gmap string Z) : gmap string Z :=
  filter (fun x => now - x.2 < replayWindowSeconds) m.

Definition consume (s : tokenSeenSet) (token : string) (now : Z) : tokenSeenSet * bool :=
  let m := shard s token in
  let fresh := match m !! token with
               | Some t => negb (now - t <? replayWindowSeconds)
               | None => true
               end in
  if fresh then
    let m := <[token := now]> m in
    let m := if tokenSeenShardCleanupThreshold <? Z.of_nat (size m) then drop_old now m else m in
    (mkSeen (<[Z.to_nat (tokenShardIndex token) := m]> (shards s)), true)
  else (s, false).

Definition sweep (s : tokenSeenSet) (now : Z) : tokenSeenSet :=
  mkSeen (drop_old now <$> shards s).

(** ** listener.go *)

Record UserEntry := mkUser { UserID : string; PSK : list Z }.

Record ServerConfig := mkServer {
  SharedSecret : list Z;
  GetUsers : option (list UserEntry);
  seenTokens : tokenSeenSet
}.

(** The readings of the clock that one goroutine makes one after the other. *)
Definition clock := nat -> Z.
Definition later (clk : clock) : clock := fun n => clk (S n).

(** The loop over the users; every check reads the clock. *)
Fixpoint resolve_user (clk : clock) (raw sessionID : list Z) (users : list UserEntry)
  : option (list Z * string) :=
  match users with
  | [] => None
  | u :: users' =>
      if (len (PSK u) =? 32) && VerifyAuthTokenRaw (clk 0%nat) (derive_auth (PSK u)) raw sessionID
      then Some (PSK u, UserID u)
      else resolve_user (later clk) raw sessionID users'
  end.

Definition resolveSecret (clk : clock) (cfg : ServerConfig) (token : string) (sessionID : list Z)
  : option (list Z * string) :=
  match DecodeString token with
  | None => None
  | Some raw =>
      if negb (len raw =? 32) then None
      else if (len (SharedSecret cfg) =? 32)
              && VerifyAuthTokenRaw (clk 0%nat) (derive_auth (SharedSecret cfg)) raw sessionID
      then Some (SharedSecret cfg, "default"%string)
      else match GetUsers cfg with
           | None => None
           | Some users => resolve_user (later clk) raw sessionID users
           end
  end.

(** [resolveSecretFor]: [known] is the user the connection is already bound to. *)
Definition resolveSecretFor (clk : clock) (cfg : ServerConfig) (known : UserEntry) (token : string)
    (sessionID : list Z) : option (list Z * string) :=
  if (len (PSK known) =? 32) && VerifyAuthToken (clk 0%nat) (derive_auth (PSK known)) token sessionID
  then Some (PSK known, UserID known)
  else resolveSecret (later clk) cfg token sessionID.

Definition consumeToken (now : Z) (cfg : ServerConfig) (token : string) : ServerConfig * bool :=
  let '(s, ok) := consume (seenTokens cfg) token now in
  (mkServer (SharedSecret cfg) (GetUsers cfg) s, ok).

Inductive reject_reason :=
  | RejSessionID (e : error) | RejTokenLength (e : error) | RejTokenLengthRange (n : Z)
  | RejToken (e : error) | RejUnknownToken | RejReplayed.

Record accepted := mkAccepted {
  acc_user : string; acc_session : list Z; acc_secret : list Z
}.

(** What both lanes do with a token: resolve it, then consume it, with the clock read
    again. *)
Definition finish_token (now : Z) (cfg : ServerConfig) (token : string) (sessionID : list Z)
    (found : list Z * string) : ServerConfig * (reject_reason + accepted) :=
  let '(cfg', ok) := consumeToken now cfg token in
  (cfg', if (ok : bool) then inr (mkAccepted found.2 sessionID found.1) else inl RejReplayed).
Definition admit_token (clk : clock) (now : Z) (cfg : ServerConfig) (known : UserEntry) (token : string)
    (sessionID : list Z) : ServerConfig * (reject_reason + accepted) :=
  match resolveSecretFor clk cfg known token sessionID with
  | None => (cfg, inl RejUnknownToken)
  | Some found => finish_token now cfg token sessionID found
  end.

(** [handlePerflowConn]: the preamble and the admission.  A rejected connection
    is closed.  [OnConn] is set. *)
Definition handlePerflowConn (clk : clock) (now : Z) (cfg : ServerConfig) (known : UserEntry) (c : Conn)
  : ServerConfig * Conn * (reject_reason + accepted) :=
  match ReadFull c 16 with
  | (c1, inr e) => (cfg, Conn_Close c1, inl (RejSessionID e))
  | (c1, inl sessionID) =>
      match ReadFull c1 2 with
      | (c2, inr e) => (cfg, Conn_Close c2, inl (RejTokenLength e))
      | (c2, inl tl) =>
          let tokLen := get16 tl in
          if (tokLen =? 0) || (512 <? tokLen) then
            (cfg, Conn_Close c2, inl (RejTokenLengthRange tokLen))
          else match ReadFull c2 tokLen with
          | (c3, inr e) => (cfg, Conn_Close c3, inl (RejToken e))
          | (c3, inl tok) =>
              let '(cfg', res) := admit_token clk now cfg known (string_of_bytes tok) sessionID in
              (cfg', match res with inl _ => Conn_Close c3 | inr _ => c3 end, res)
          end
      end
  end.

End Tokens.
End Auth.
