(* ===== verification/AuthFacts.v ===== *)
(** Theorems on session authentication: tokens survive the trip and a clock
    that is off by one window, the replay set admits a token string at most
    once over its whole validity, and the gap between the token compared (the
    decoded bytes) and the token remembered (the string). *)

From S2P Require Import Prelude GoIO Auth.
Import Auth.

(** What the code relies on of HMAC-SHA256: 32 bytes. *)
Class CryptoLaws (C : Crypto) := {
  hmac_len k m : zlen (hmac_sha256 k m) = 32;
  hmac_bytes k m : Forall is_byte (hmac_sha256 k m)
}.

(** ** Base64 *)

Lemma b64_val_char v : 0 <= v < 64 -> b64_val (b64_char v) = Some v /\ not_newline (b64_char v).
Proof.
  intros Hv. unfold b64_char, b64_val, not_newline.
  split_ifs; try lia; repeat (f_equal; try lia); try (split; lia).
  all: repeat match goal with H : (_ && _)%bool = false |- _ => apply andb_false_iff in H end.
  all: try (split; [f_equal; lia|lia]).
  all: repeat match goal with H : _ \/ _ |- _ => destruct H end; bool_to_prop; try lia; split; try lia; f_equal; lia.
Qed.

Lemma land3 x : Z.land x 3 = x mod 4.
Proof. exact (Z.land_ones x 2 ltac:(lia)). Qed.
Lemma land15 x : Z.land x 15 = x mod 16.
Proof. exact (Z.land_ones x 4 ltac:(lia)). Qed.
Lemma land63 x : Z.land x 63 = x mod 64.
Proof. exact (Z.land_ones x 6 ltac:(lia)). Qed.

(** The two characters in the middle of a quantum, as numbers. *)
Lemma b64_mid1 x y :
  is_byte x -> is_byte y ->
  Z.lor (Z.shiftl (Z.land x 3) 4) (Z.shiftr y 4) = (x mod 4) * 16 + y / 16.
Proof.
  intros Hx Hy. rewrite land3, Z.shiftr_div_pow2 by lia.
  change (2 ^ 4) with 16. apply (lor_shiftl_add (x mod 4) (y / 16) 4); [lia|].
  unfold is_byte in Hy. split; [apply Z.div_pos; lia|apply Z.div_lt_upper_bound; lia].
Qed.

Lemma b64_mid2 y z :
  is_byte y -> is_byte z ->
  Z.lor (Z.shiftl (Z.land y 15) 2) (Z.shiftr z 6) = (y mod 16) * 4 + z / 64.
Proof.
  intros Hy Hz. rewrite land15, Z.shiftr_div_pow2 by lia.
  change (2 ^ 6) with 64. apply (lor_shiftl_add (y mod 16) (z / 64) 2); [lia|].
  unfold is_byte in Hz. split; [apply Z.div_pos; lia|apply Z.div_lt_upper_bound; lia].
Qed.

Lemma u8_lor a b n r :
  0 <= n -> 0 <= b < 2 ^ n -> (a * 2 ^ n + b) mod 256 = r -> u8 (Z.lor (Z.shiftl a n) b) = r.
Proof. intros Hn Hb <-. unfold u8. by rewrite lor_shiftl_add. Qed.

(** Decoding the characters of three bytes. *)
Lemma b64_bytes x y z :
  is_byte x -> is_byte y -> is_byte z ->
  let a := Z.shiftr x 2 in
  let b := (x mod 4) * 16 + y / 16 in
  let c := (y mod 16) * 4 + z / 64 in
  0 <= a < 64 /\ 0 <= b < 64 /\ 0 <= c < 64 /\ 0 <= Z.land z 63 < 64 /\
  u8 (Z.lor (Z.shiftl a 2) (Z.shiftr b 4)) = x /\
  u8 (Z.lor (Z.shiftl b 4) (Z.shiftr c 2)) = y /\
  u8 (Z.lor (Z.shiftl c 6) (Z.land z 63)) = z.
Proof.
  intros Hx Hy Hz. unfold is_byte in *. cbv zeta.
  rewrite land63, !Z.shiftr_div_pow2 by lia.
  change (2 ^ 2) with 4. change (2 ^ 4) with 16. change (2 ^ 6) with 64.
  pose proof (Z.mod_pos_bound x 4). pose proof (Z.mod_pos_bound y 16). pose proof (Z.mod_pos_bound z 64).
  pose proof (Z.div_mod x 4). pose proof (Z.div_mod y 16). pose proof (Z.div_mod z 64).
  assert (0 <= y / 16 < 16) by (split; [apply Z.div_pos|apply Z.div_lt_upper_bound]; lia).
  assert (0 <= z / 64 < 4) by (split; [apply Z.div_pos|apply Z.div_lt_upper_bound]; lia).
  assert (0 <= x / 4 < 64) by (split; [apply Z.div_pos|apply Z.div_lt_upper_bound]; lia).
  assert (((x mod 4) * 16 + y / 16) / 16 = x mod 4) as ->.
  { rewrite Z.div_add_l, (Z.div_small (y / 16)) by lia. lia. }
  assert (((y mod 16) * 4 + z / 64) / 4 = y mod 16) as ->.
  { rewrite Z.div_add_l, (Z.div_small (z / 64)) by lia. lia. }
  split_and!; try lia; (apply u8_lor; [lia|change (2 ^ 2) with 4; change (2 ^ 4) with 16; change (2 ^ 6) with 64; lia|]).
  - change (2 ^ 2) with 4. rewrite Z.mod_small; lia.
  - change (2 ^ 4) with 16.
    assert (((x mod 4) * 16 + y / 16) * 16 + y mod 16 = y + (x mod 4) * 256) as -> by lia.
    rewrite Z_mod_plus_full, Z.mod_small; lia.
  - change (2 ^ 6) with 64.
    assert (((y mod 16) * 4 + z / 64) * 64 + z mod 64 = z + (y mod 16) * 256) as -> by lia.
    rewrite Z_mod_plus_full, Z.mod_small; lia.
Qed.

(** The numeric values of the characters of an encoding. *)
Fixpoint b64_vals (b : list Z) : list Z :=
  match b with
  | x :: y :: z :: b' =>
      Z.shiftr x 2 :: Z.lor (Z.shiftl (Z.land x 3) 4) (Z.shiftr y 4)
      :: Z.lor (Z.shiftl (Z.land y 15) 2) (Z.shiftr z 6) :: Z.land z 63 :: b64_vals b'
  | [x; y] =>
      [Z.shiftr x 2; Z.lor (Z.shiftl (Z.land x 3) 4) (Z.shiftr y 4); Z.shiftl (Z.land y 15) 2]
  | [x] => [Z.shiftr x 2; Z.shiftl (Z.land x 3) 4]
  | [] => []
  end.

Lemma list_ind3 {A} (P : list A -> Prop) :
  P [] -> (forall x, P [x]) -> (forall x y, P [x; y]) ->
  (forall x y z l, P l -> P (x :: y :: z :: l)) -> forall l, P l.
Proof.
  intros H0 H1 H2 H3 l. enough (P l /\ (forall x, P (x :: l)) /\ forall x y, P (x :: y :: l)) by tauto.
  induction l as [|a l (I1 & I2 & I3)]; [done|]. split_and!; [apply I2|intros x; apply I3|].
  intros x y. by apply H3.
Qed.

Lemma b64_encode_vals b : b64_encode b = b64_char <$> b64_vals b.
Proof. induction b as [|x|x y|x y z b IH] using list_ind3; [done..|]. cbn. by rewrite IH. Qed.

Lemma b64_vals_range b : Forall is_byte b -> Forall (fun v => 0 <= v < 64) (b64_vals b).
Proof.
  induction b as [|x|x y|x y z b IH] using list_ind3; intros Hb; cbn; [constructor|..].
  - inversion_clear Hb as [|? ? Hx _]. destruct (b64_bytes x 0 0) as (H1 & H2 & _); [done|split;lia..|].
    rewrite land3, (Z.shiftl_mul_pow2 (x mod 4) 4) by lia. change (2 ^ 4) with 16.
    change (0 / 16) with 0 in H2. rewrite Z.add_0_r in H2. by rewrite !Forall_cons, Forall_nil.
  - inversion_clear Hb as [|? ? Hx Hy']. inversion_clear Hy' as [|? ? Hy _].
    destruct (b64_bytes x y 0) as (H1 & H2 & H3 & _); [done|done|split;lia|].
    rewrite (b64_mid1 x y) by done. rewrite land15, (Z.shiftl_mul_pow2 (y mod 16) 2) by lia.
    change (2 ^ 2) with 4. change (0 / 64) with 0 in H3. rewrite Z.add_0_r in H3. by rewrite !Forall_cons, Forall_nil.
  - inversion_clear Hb as [|? ? Hx Hb']. inversion_clear Hb' as [|? ? Hy Hb].
    inversion_clear Hb as [|? ? Hz Hb'].
    destruct (b64_bytes x y z) as (H1 & H2 & H3 & H4 & _); [done..|].
    rewrite (b64_mid1 x y), (b64_mid2 y z) by done. rewrite !Forall_cons. split_and!; try lia. auto.
Qed.

Lemma b64_quanta_vals b : Forall is_byte b -> b64_quanta (b64_vals b) = Some b.
Proof.
  induction b as [|x|x y|x y z b IH] using list_ind3; intros Hb; cbn [b64_vals b64_quanta]; [done|..].
  - inversion_clear Hb as [|? ? Hx _].
    destruct (b64_bytes x 0 0) as (_ & _ & _ & _ & H5 & _); [done|split;lia..|].
    change (0 / 16) with 0 in H5. rewrite Z.add_0_r in H5.
    rewrite land3, (Z.shiftl_mul_pow2 (x mod 4) 4) by lia. change (2 ^ 4) with 16. by rewrite H5.
  - inversion_clear Hb as [|? ? Hx Hy']. inversion_clear Hy' as [|? ? Hy _].
    destruct (b64_bytes x y 0) as (_ & _ & _ & _ & H5 & H6 & _); [done|done|split;lia|].
    change (0 / 64) with 0 in H6. rewrite Z.add_0_r in H6.
    rewrite (b64_mid1 x y) by done. rewrite land15, (Z.shiftl_mul_pow2 (y mod 16) 2) by lia.
    change (2 ^ 2) with 4. by rewrite H5, H6.
  - inversion_clear Hb as [|? ? Hx Hb']. inversion_clear Hb' as [|? ? Hy Hb].
    inversion_clear Hb as [|? ? Hz Hb'].
    destruct (b64_bytes x y z) as (_ & _ & _ & _ & H5 & H6 & H7); [done..|].
    rewrite (b64_mid1 x y), (b64_mid2 y z) by done. cbn [b64_quanta].
    rewrite IH by done. cbn [mbind option_bind]. by rewrite H5, H6, H7.
Qed.

Lemma b64_decode_chars l :
  Forall (fun v => 0 <= v < 64) l ->
  filter not_newline (b64_char <$> l) = b64_char <$> l /\ mapM b64_val (b64_char <$> l) = Some l.
Proof.
  induction 1 as [|v l Hv _ [I1 I2]]; [done|]. destruct (b64_val_char v Hv) as [E1 E2].
  rewrite fmap_cons, filter_cons, decide_True, I1 by done. split; [done|].
  cbn. by rewrite E1; cbn; rewrite I2.
Qed.

Lemma b64_char_byte v : 0 <= v < 64 -> is_byte (b64_char v).
Proof. unfold b64_char, is_byte. intros. split_ifs; lia. Qed.

Lemma DecodeString_Encode b : Forall is_byte b -> DecodeString (EncodeToString b) = Some b.
Proof.
  intros Hb. pose proof (b64_vals_range b Hb) as Hr. unfold DecodeString, EncodeToString.
  rewrite bytes_of_string_of_bytes, b64_encode_vals.
  - unfold b64_decode. destruct (b64_decode_chars _ Hr) as [-> ->]. cbn. by apply b64_quanta_vals.
  - rewrite b64_encode_vals. apply Forall_fmap. eapply Forall_impl; [exact Hr|]. apply b64_char_byte.
Qed.

(** Newlines are invisible to the decoder. *)
Lemma DecodeString_newline s : DecodeString (s +:+ String (code_ascii 10) "")%string = DecodeString s.
Proof.
  unfold DecodeString, b64_decode. rewrite bytes_of_string_app, filter_app.
  change (filter not_newline (bytes_of_string (String (code_ascii 10) ""))) with (@nil Z).
  by rewrite app_nil_r.
Qed.

(** ** Verification *)

Section Facts.
Context {C : Crypto}.

Lemma VerifyRaw_spec now k raw sid :
  VerifyAuthTokenRaw now k raw sid = true <->
  len raw = 32 /\ exists w, Z.abs (window_of now - w) <= 1 /\ hmac_sha256 k (token_msg w sid) = raw.
Proof.
  unfold VerifyAuthTokenRaw. destruct (Z.eqb_spec (len raw) 32) as [Hl|Hl]; cbn [negb].
  2: { split; [done|]. by intros [? _]. }
  rewrite existsb_exists. split.
  - intros (w & Hw & Hm). split; [done|]. exists w. apply list_elem_of_In, elem_of_seqZ in Hw.
    unfold authWindowTolerance, macMatches in *. bool_to_prop. split; [lia|done].
  - intros (_ & w & Hw & Hm). exists w. split.
    + apply list_elem_of_In, elem_of_seqZ. unfold authWindowTolerance. lia.
    + unfold macMatches. by apply bool_decide_eq_true.
Qed.

(** The token a client makes is accepted by the server for the same key and
    session whenever the server's clock is at most one 30-second window away
    from the client's. *)
Theorem client_token_verifies {CL : CryptoLaws C} now now' key sid :
  Z.abs (window_of now' - window_of now) <= 1 ->
  VerifyAuthToken now' key (ClientAuthToken now key sid) sid = true.
Proof.
  intros Hw. unfold VerifyAuthToken, ClientAuthToken, AuthToken.
  rewrite DecodeString_Encode by apply hmac_bytes. apply VerifyRaw_spec.
  split; [apply hmac_len|]. exists (window_of now). done.
Qed.

(** A resolved token is the MAC of a window next to the one of a reading of the clock. *)
Lemma resolve_window clk cfg known token sid r :
  resolveSecretFor clk cfg known token sid = Some r ->
  exists n raw k w, DecodeString token = Some raw /\ Z.abs (window_of (clk n) - w) <= 1 /\
    hmac_sha256 k (token_msg w sid) = raw.
Proof.
  assert (Hraw : forall n k raw, DecodeString token = Some raw ->
    VerifyAuthTokenRaw (clk n) k raw sid = true ->
    exists n raw k w, DecodeString token = Some raw /\ Z.abs (window_of (clk n) - w) <= 1 /\
      hmac_sha256 k (token_msg w sid) = raw).
  { intros n k raw Hd (_ & w & Hw & Hm)%VerifyRaw_spec. eauto 10. }
  unfold resolveSecretFor. destruct ((len (PSK known) =? 32) && _) eqn:E1.
  - apply andb_true_iff in E1 as [_ Hv]. unfold VerifyAuthToken in Hv.
    destruct (DecodeString token) as [raw|] eqn:Hd; [|done]. eauto.
  - unfold resolveSecret. destruct (DecodeString token) as [raw|] eqn:Hd; [|done].
    destruct (negb _); [done|]. destruct ((len (SharedSecret cfg) =? 32) && _) eqn:E2.
    + apply andb_true_iff in E2 as [_ Hv]. exact (fun _ => Hraw 1%nat _ _ eq_refl Hv).
    + destruct (GetUsers cfg) as [users|]; [|done].
      assert (Hu : forall m, resolve_user (fun n => clk (m + n)%nat) raw sid users = Some r ->
        exists n raw k w, Some raw = Some raw /\ DecodeString token = Some raw /\ Z.abs (window_of (clk n) - w) <= 1 /\ hmac_sha256 k (token_msg w sid) = raw).
      { induction users as [|u users IH]; intros m; cbn [resolve_user]; [done|].
        destruct ((len (PSK u) =? 32) && _) eqn:E3.
        - apply andb_true_iff in E3 as [_ Hv]. intros _. destruct (Hraw _ _ _ eq_refl Hv) as (n & raw' & k & w & ? & ? & ?).
          exists n, raw', k, w. rewrite Hd. done.
        - intros Hr. apply (IH (S m)). rewrite <- Hr. assert (Hext : forall us c1 c2, (forall n, c1 n = c2 n) -> resolve_user c1 raw sid us = resolve_user c2 raw sid us).
          { clear. induction us as [|u us IH]; intros c1 c2 Hc; [done|]. cbn [resolve_user]. rewrite (Hc 0%nat). destruct (_ && _); [done|]. apply IH. intros n. unfold later. apply Hc. }
          apply Hext. intros n. unfold later. f_equal. lia. }
      intros Hr. destruct (Hu 2%nat Hr) as (n & raw' & k & w & _ & Hd' & ? & ?). exists n, raw', k, w. rewrite <- Hd. done.
Qed.

(** ** The replay set *)

Definition seen (s : tokenSeenSet) (token : string) : option Z := shard s token !! token.
Definition seen_ok (s : tokenSeenSet) : Prop := length (shards s) = 16%nat.

Lemma shard_index_lt token : (Z.to_nat (tokenShardIndex token) < 16)%nat.
Proof.
  unfold tokenShardIndex, tokenSeenShardCount.
  pose proof (Z.mod_pos_bound (fnv32a (bytes_of_string token)) 16). lia.
Qed.

Lemma drop_old_keeps now m (token : string) t :
  m !! token = Some t -> now < t + replayWindowSeconds -> drop_old now m !! token = Some t.
Proof. intros Hm Ht. apply map_lookup_filter_Some. split; [done|]. cbn. lia. Qed.

Lemma seen_insert s token' m token :
  seen_ok s ->
  seen (mkSeen (<[Z.to_nat (tokenShardIndex token') := m]> (shards s))) token =
  if decide (tokenShardIndex token' = tokenShardIndex token) then m !! token else seen s token.
Proof.
  intros Hok. unfold seen, shard. cbn. pose proof (shard_index_lt token').
  destruct (decide _) as [->|Hne].
  - rewrite list_lookup_insert_eq; [done|]. rewrite Hok. apply shard_index_lt.
  - rewrite list_lookup_insert_ne; [done|]. intros Heq. apply Hne.
    unfold tokenShardIndex, tokenSeenShardCount in *.
    pose proof (Z.mod_pos_bound (fnv32a (bytes_of_string token)) 16).
    pose proof (Z.mod_pos_bound (fnv32a (bytes_of_string token')) 16). lia.
Qed.

Lemma consume_ok s token now : seen_ok s -> seen_ok (consume s token now).1.
Proof.
  intros Hok. unfold consume. destruct (match shard s token !! token with Some _ => _ | None => _ end);
    [|done]. unfold seen_ok in *. cbn. by rewrite length_insert.
Qed.

(** The map [consume] stores: the token is in it with the current time. *)
Lemma consume_true s token now :
  seen_ok s -> (consume s token now).2 = true -> seen (consume s token now).1 token = Some now.
Proof.
  intros Hok. unfold consume. destruct (match shard s token !! token with Some _ => _ | None => _ end);
    [|done]. intros _. cbn [fst]. rewrite seen_insert, decide_True by done.
  assert (Hin : <[token := now]> (shard s token) !! token = Some now) by apply lookup_insert_eq.
  destruct (_ <? _); [|done]. apply drop_old_keeps; [done|]. change replayWindowSeconds with 90. lia.
Qed.

Lemma consume_false s token now t :
  seen s token = Some t -> now < t + replayWindowSeconds -> (consume s token now).2 = false.
Proof.
  intros Ht Hn. unfold consume. unfold seen in Ht. rewrite Ht.
  by rewrite (proj2 (Z.ltb_lt (now - t) replayWindowSeconds)) by lia.
Qed.

(** A token seen recently stays, whatever else is consumed or swept. *)
Lemma consume_keeps s token t token' now :
  seen_ok s -> seen s token = Some t -> now < t + replayWindowSeconds ->
  seen (consume s token' now).1 token = Some t.
Proof.
  intros Hok Ht Hn. destruct (decide (token' = token)) as [->|Hne].
  { unfold consume. unfold seen in Ht. rewrite Ht.
    by rewrite (proj2 (Z.ltb_lt (now - t) replayWindowSeconds)) by lia. }
  unfold consume. destruct (match shard s token' !! token' with Some _ => _ | None => _ end); [|done].
  cbn [fst]. rewrite seen_insert by done. destruct (decide _) as [Heq|]; [|done].
  assert (Hin : <[token' := now]> (shard s token') !! token = Some t).
  { rewrite lookup_insert_ne by done. unfold seen, shard in *. by rewrite Heq. }
  destruct (_ <? _); [|done]. by apply drop_old_keeps.
Qed.

Lemma sweep_keeps s token t now :
  seen s token = Some t -> now < t + replayWindowSeconds -> seen (sweep s now) token = Some t.
Proof.
  unfold seen, shard, sweep. cbn. rewrite list_lookup_fmap. intros Ht Hn.
  destruct (shards s !! _) as [m|]; [|done]. cbn in *. by apply drop_old_keeps.
Qed.

(** ** At most once *)

(** The ways the server's state moves: an attempt with some token that was resolved
    before, by readings [clk] of the clock and with the configuration [vcfg] of that
    time, and is now consumed; the periodic sweep; a change of the user list. *)
Inductive event :=
  | Attempt (vcfg : ServerConfig) (known : UserEntry) (token : string) (sid : list Z) (clk : clock) (now : Z)
  | Sweep (now : Z)
  | Users (users : option (list UserEntry)) (now : Z).

Definition time_of (e : event) : Z :=
  match e with Attempt _ _ _ _ _ now | Sweep now | Users _ now => now end.

Definition do_event (cfg : ServerConfig) (e : event) : ServerConfig * bool :=
  match e with
  | Attempt vcfg known token sid clk now =>
      match resolveSecretFor clk vcfg known token sid with
      | None => (cfg, false)
      | Some found => let '(cfg', r) := finish_token now cfg token sid found in (cfg', match r with inr _ => true | inl _ => false end)
      end
  | Sweep now => (mkServer (SharedSecret cfg) (GetUsers cfg) (sweep (seenTokens cfg) now), false)
  | Users users _ => (mkServer (SharedSecret cfg) users (seenTokens cfg), false)
  end.

(** An attempt that nothing comes between is such an event. *)
Lemma admit_is_event clk now cfg known token sid :
  do_event cfg (Attempt cfg known token sid clk now) = ((admit_token clk now cfg known token sid).1, match (admit_token clk now cfg known token sid).2 with inr _ => true | inl _ => false end).
Proof. unfold admit_token. cbn. destruct (resolveSecretFor _ _ _ _ _) as [found|]; [|done]. by destruct (finish_token _ _ _ _ _). Qed.

Definition is_token (token : string) (e : event) : bool :=
  match e with Attempt _ _ t _ _ _ => bool_decide (t = token) | _ => false end.

(** How many attempts with [token] are accepted along the events. *)
Fixpoint accepted_count (token : string) (cfg : ServerConfig) (es : list event) : Z :=
  match es with
  | [] => 0
  | e :: es' =>
      let '(cfg', ok) := do_event cfg e in
      (if is_token token e && ok then 1 else 0) + accepted_count token cfg' es'
  end.

(** The readings of an attempt fall into one window. *)
Definition same_window (token : string) (e : event) : Prop :=
  match e with Attempt _ _ t _ clk now => t = token -> forall n, window_of (clk n) = window_of now | _ => True end.

Lemma finish_seen now cfg token sid found :
  seen_ok (seenTokens cfg) ->
  let '(cfg', r) := finish_token now cfg token sid found in
  seen_ok (seenTokens cfg') /\
  (forall t t0, seen (seenTokens cfg) t = Some t0 -> now < t0 + replayWindowSeconds ->
     seen (seenTokens cfg') t = Some t0 /\ (t = token -> forall a, r <> inr a)) /\
  (forall a, r = inr a -> seen (seenTokens cfg') token = Some now).
Proof.
  intros Hok. unfold finish_token, consumeToken. pose proof (consume_ok (seenTokens cfg) token now Hok) as Hok'.
  pose proof (consume_true (seenTokens cfg) token now Hok) as Ht.
  pose proof (fun t t0 => consume_keeps (seenTokens cfg) t t0 token now Hok) as Hk.
  pose proof (consume_false (seenTokens cfg) token now) as Hf.
  destruct (consume (seenTokens cfg) token now) as [s' ok]. cbn [fst snd seenTokens] in *.
  split_and!; [done|..].
  - intros t t0 Hs Hn. split; [by apply Hk|]. intros -> a. by rewrite (Hf t0).
  - intros a Ha. destruct ok; [|done]. by apply Ht.
Qed.

Lemma attempt_seen vcfg known token sid clk now cfg :
  seen_ok (seenTokens cfg) ->
  let '(cfg', ok) := do_event cfg (Attempt vcfg known token sid clk now) in
  seen_ok (seenTokens cfg') /\
  (forall t t0, seen (seenTokens cfg) t = Some t0 -> now < t0 + replayWindowSeconds ->
     seen (seenTokens cfg') t = Some t0 /\ (t = token -> ok = false)) /\
  (ok = true -> seen (seenTokens cfg') token = Some now /\
     exists n raw k w, DecodeString token = Some raw /\ Z.abs (window_of (clk n) - w) <= 1 /\
       hmac_sha256 k (token_msg w sid) = raw).
Proof.
  intros Hok. cbn [do_event]. destruct (resolveSecretFor clk vcfg known token sid) as [found|] eqn:Hr; [|by split_and!].
  pose proof (finish_seen now cfg token sid found Hok) as Hf. destruct (finish_token now cfg token sid found) as [cfg' r]. destruct Hf as (F1 & F2 & F3).
  split_and!; [done| |].
  - intros t t0 Hs Hn. destruct (F2 t t0 Hs Hn) as [? Hno]. split; [done|]. intros ->. destruct r as [|a]; [done|]. by destruct (Hno eq_refl a).
  - destruct r as [|a]; [done|]. intros _. split; [by apply (F3 a)|]. by eapply resolve_window.
Qed.

(** What the at-most-once guarantee needs of the MAC: the token is one of no two
    windows, whatever the keys and the sessions. *)
Definition one_window (token : string) : Prop := forall raw k1 k2 w1 w2 s1 s2, DecodeString token = Some raw ->
  0 <= w1 < 2 ^ 62 -> 0 <= w2 < 2 ^ 62 ->
  hmac_sha256 k1 (token_msg w1 s1) = raw -> hmac_sha256 k2 (token_msg w2 s2) = raw -> w1 = w2.

Definition sane_time (t : Z) : Prop := 30 <= t < 2 ^ 62.

Lemma window_bounds t : sane_time t -> window_of t * 30 <= t < window_of t * 30 + 30 /\ 1 <= window_of t.
Proof.
  unfold sane_time, window_of, authWindowSeconds. intros Ht.
  rewrite Z.quot_div_nonneg by lia. pose proof (Z.div_mod t 30). pose proof (Z.mod_pos_bound t 30).
  assert (1 <= t / 30) by (apply Z.div_le_lower_bound; lia). lia.
Qed.

(** After an acceptance at [t0], no later attempt with the token succeeds. *)
Lemma accepted_never_again token raw w0 k0 s0 t0 es : forall cfg,
  one_window token -> DecodeString token = Some raw ->
  sane_time t0 -> Z.abs (window_of t0 - w0) <= 1 -> hmac_sha256 k0 (token_msg w0 s0) = raw ->
  seen_ok (seenTokens cfg) -> Sorted Z.le (time_of <$> es) -> Forall sane_time (time_of <$> es) -> Forall (same_window token) es ->
  seen (seenTokens cfg) token = Some t0 \/ Forall (fun t => t0 + 90 <= t) (time_of <$> es) ->
  accepted_count token cfg es = 0.
Proof.
  induction es as [|e es IH]; intros cfg Hmac Hd Ht0 Hw0 Hm0 Hok Hsort Hsane Hsw Hinv; [done|].
  cbn [accepted_count fmap list_fmap] in *. apply Forall_cons in Hsane as [Hte Hsane]. apply Forall_cons in Hsw as [Hwe Hsw].
  pose proof Hsort as Hsort'. apply Sorted_StronglySorted in Hsort'; [|exact Z.le_trans].
  apply StronglySorted_inv in Hsort' as [_ Hle]. apply Sorted_inv in Hsort as [Hsort _].
  assert (Hlate : t0 + 90 <= time_of e -> Forall (fun t => t0 + 90 <= t) (time_of <$> es)).
  { intros H. eapply Forall_impl; [exact Hle|]. cbn. lia. }
  assert (Hstep : seen_ok (seenTokens (do_event cfg e).1) /\ (is_token token e && (do_event cfg e).2) = false /\
    (seen (seenTokens (do_event cfg e).1) token = Some t0 \/
     Forall (fun t => t0 + 90 <= t) (time_of <$> es))).
  { destruct e as [vcfg known tok sid clk now|now|users now]; cbn [time_of is_token same_window] in *.
    - pose proof (attempt_seen vcfg known tok sid clk now cfg Hok) as Ha.
      destruct (do_event cfg (Attempt vcfg known tok sid clk now)) as [cfg' ok]. destruct Ha as (A1 & A2 & A3).
      cbn [fst snd]. split; [done|].
      assert (Hnever : tok = token -> t0 + 90 <= now -> ok = false).
      { intros -> Hn. destruct ok; [|done]. destruct (A3 eq_refl) as (_ & n & raw' & k & w & Hd' & Hw & Hm). rewrite (Hwe eq_refl n) in Hw.
        assert (w = w0).
        { pose proof (window_bounds now Hte). pose proof (window_bounds t0 Ht0).
          unfold sane_time in *. eapply (Hmac raw' k k0 w w0 sid s0); [done|lia|lia|done|congruence]. }
        subst w. pose proof (window_bounds now Hte). pose proof (window_bounds t0 Ht0). lia. }
      destruct Hinv as [Hs|Hf].
      + destruct (Z_lt_le_dec now (t0 + 90)) as [Hlt|Hge].
        * destruct (A2 token t0 Hs Hlt) as [Hs' Hno]. split; [|by left].
          case_bool_decide as Heq; [|done]. by rewrite (Hno (eq_sym Heq)).
        * split; [|right; by apply Hlate]. case_bool_decide as Heq; [|done]. by rewrite (Hnever Heq Hge).
      + apply Forall_cons in Hf as [Hge Hf]. split; [|by right]. case_bool_decide as Heq; [|done]. by rewrite (Hnever Heq Hge).
    - cbn. split; [unfold seen_ok, sweep in *; cbn; by rewrite length_fmap|]. split; [done|].
      destruct Hinv as [Hs|Hf]; [|apply Forall_cons in Hf as [_ Hf]; by right].
      destruct (Z_lt_le_dec now (t0 + 90)); [left; by apply sweep_keeps|right; by apply Hlate].
    - cbn. split; [done|]. split; [done|]. destruct Hinv as [Hs|Hf]; [by left|].
      apply Forall_cons in Hf as [_ Hf]. by right. }
  destruct (do_event cfg e) as [cfg' ok]. destruct Hstep as (S1 & S2 & S3). cbn [fst snd] in *.
  rewrite S2. rewrite IH; auto.
Qed.

(** C9: whatever attempts, sweeps and changes of users happen, with consumptions and
    sweeps in the order of a clock that does not run backwards, a token string is
    accepted at most once: the replay window outlives the token's validity.  It takes
    that the MAC in the token is one of no two windows, and that each attempt reads the
    clock for its checks and for its consumption within one window of 30 seconds; a
    replay whose checks and consumption straddle the end of the token's last window can
    be accepted again. *)
Theorem token_accepted_at_most_once token cfg es :
  one_window token -> seen_ok (seenTokens cfg) ->
  Sorted Z.le (time_of <$> es) -> Forall sane_time (time_of <$> es) -> Forall (same_window token) es ->
  0 <= accepted_count token cfg es <= 1.
Proof.
  intros Hmac. revert cfg. induction es as [|e es IH]; intros cfg Hok Hsort Hsane Hsw; [cbn; lia|].
  cbn [fmap list_fmap] in *. apply Forall_cons in Hsane as [Hte Hsane]. apply Forall_cons in Hsw as [Hwe Hsw]. apply Sorted_inv in Hsort as [Hsort _].
  cbn [accepted_count].
  destruct e as [vcfg known tok sid clk now|now|users now]; cbn [is_token time_of same_window] in *.
  - pose proof (attempt_seen vcfg known tok sid clk now cfg Hok) as Ha.
    destruct (do_event cfg (Attempt vcfg known tok sid clk now)) as [cfg' ok]. destruct Ha as (A1 & A2 & A3).
    case_bool_decide as Heq; [|by apply IH]. destruct ok; [|by apply IH]. subst tok. cbn [andb].
    destruct (A3 eq_refl) as (Hs & n & raw & k & w & Hd & Hw & Hm). rewrite (Hwe eq_refl n) in Hw.
    rewrite (accepted_never_again token raw w k sid now es cfg'); auto. lia.
  - cbn [do_event andb]. apply IH; [|done..]. unfold seen_ok, sweep in *. cbn. by rewrite length_fmap.
  - cbn [do_event andb]. by apply IH.
Qed.

Lemma resolve_ext clk cfg cfg' known t1 t2 sid :
  DecodeString t1 = DecodeString t2 -> SharedSecret cfg' = SharedSecret cfg -> GetUsers cfg' = GetUsers cfg ->
  resolveSecretFor clk cfg' known t1 sid = resolveSecretFor clk cfg known t2 sid.
Proof.
  intros Hd Hs Hu. unfold resolveSecretFor, resolveSecret, VerifyAuthToken. by rewrite Hd, Hs, Hu.
Qed.

Lemma consume_none s token token' now :
  seen_ok s -> token' <> token -> seen s token' = None -> seen (consume s token now).1 token' = None.
Proof.
  intros Hok Hne Hn. unfold consume.
  destruct (match shard s token !! token with Some _ => _ | None => _ end); [|done].
  cbn [fst]. rewrite seen_insert by done. destruct (decide _) as [Heq|]; [|done].
  assert (Hin : <[token := now]> (shard s token) !! token' = None).
  { rewrite lookup_insert_ne by done. unfold seen, shard in *. by rewrite Heq. }
  destruct (_ <? _); [|done]. apply map_lookup_filter_None. by left.
Qed.

Definition newline_token (token : string) : string := (token +:+ String (code_ascii 10) "")%string.

Lemma newline_token_ne token : newline_token token <> token.
Proof.
  intros H. apply (f_equal (fun s => zlen (bytes_of_string s))) in H.
  unfold newline_token in H. rewrite bytes_of_string_app, zlen_app in H. cbn in H.
  rewrite zlen_cons, zlen_nil in H. lia.
Qed.

(** The replay set remembers the token as it was spelled, the check decodes
    it: once a token was accepted, the same token with a newline appended is
    accepted again, for the same user, session and second. *)
Theorem newline_replays_token clk now cfg known token sid a :
  seen_ok (seenTokens cfg) -> seen (seenTokens cfg) (newline_token token) = None ->
  (admit_token clk now cfg known token sid).2 = inr a ->
  (admit_token clk now (admit_token clk now cfg known token sid).1 known (newline_token token) sid).2 = inr a.
Proof.
  intros Hok Hnone Ha. unfold admit_token in Ha |- * at 2.
  destruct (resolveSecretFor clk cfg known token sid) as [found|] eqn:Hr; [|done].
  unfold finish_token, consumeToken in *. pose proof (consume_none (seenTokens cfg) token (newline_token token) now Hok
    (newline_token_ne token) Hnone) as Hn.
  destruct (consume (seenTokens cfg) token now) as [s' ok]. cbn [fst snd] in *.
  destruct ok; [|done]. unfold admit_token.
  rewrite (resolve_ext clk cfg _ known (newline_token token) token sid (DecodeString_newline token))
    by done. rewrite Hr. unfold finish_token, consumeToken, consume. cbn [seenTokens].
  unfold seen in Hn. rewrite Hn. done.
Qed.

(** A connection that opens with a 16-byte session, the length of a token
    of 1 to 512 bytes and the token is admitted or rejected by the token alone,
    and the bytes behind the preamble are still there for the tunnel. *)
Theorem perflow_preamble clk now cfg known c sid tok rest :
  zlen sid = 16 -> 1 <= zlen tok <= 512 -> c_in c = sid ++ put16 (zlen tok) ++ tok ++ rest ->
  let '(cfg', c', res) := handlePerflowConn clk now cfg known c in
  (cfg', res) = admit_token clk now cfg known (string_of_bytes tok) sid /\
  c_in c' = rest /\ (c_closed c' = true <-> c_closed c = true \/ exists e, res = inl e).
Proof.
  intros Hs Ht Hc. unfold handlePerflowConn.
  rewrite (ReadFull_app c 16 sid (put16 (zlen tok) ++ tok ++ rest)) by done.
  rewrite (ReadFull_app (with_in c _) 2 (put16 (zlen tok)) (tok ++ rest)) by done.
  replace (get16 (put16 (zlen tok))) with (zlen tok)
    by (rewrite <- (app_nil_r (put16 _)); by rewrite get16_put16 by lia).
  rewrite (proj2 (Z.eqb_neq (zlen tok) 0)), (proj2 (Z.ltb_ge 512 (zlen tok))) by lia. cbn [orb].
  rewrite (ReadFull_app (with_in (with_in c _) _) (zlen tok) tok rest) by done.
  destruct (admit_token clk now cfg known (string_of_bytes tok) sid) as [cfg' [e|a]]; cbn.
  - split_and!; [done|done|]. split; [right; eauto|done].
  - split_and!; [done|done|]. split; [by left|]. intros [?|[? [=]]]. done.
Qed.

End Facts.

(** ** Witnesses *)

(** A MAC of the right shape that shows the window it was made for. *)
#[local] Instance ToyCrypto : Crypto :=
  {| hmac_sha256 k m := u8 <$> take 32 (take 8 m ++ replicate 32 0); derive_auth psk := psk |}.

#[local] Instance ToyLaws : CryptoLaws ToyCrypto.
Proof.
  split; intros k m; unfold hmac_sha256, ToyCrypto.
  - unfold zlen. rewrite length_fmap, length_take, length_app, length_replicate. lia.
  - apply Forall_fmap, Forall_true. intros z. apply u8_range.
Qed.

Lemma take8_msg w s : take 8 (token_msg w s) = put64 (u64 w).
Proof. reflexivity. Qed.

Lemma u8_shiftr_mod v n :
  0 <= n <= 24 -> u8 (Z.shiftr (v mod 2 ^ 32) n) = u8 (Z.shiftr v n).
Proof.
  intros Hn. unfold u8. change 256 with (2 ^ 8). apply Z.bits_inj'. intros i Hi.
  destruct (Z_lt_le_dec i 8).
  - rewrite !Z.mod_pow2_bits_low, !Z.shiftr_spec, Z.mod_pow2_bits_low by lia. done.
  - rewrite !Z.mod_pow2_bits_high by lia. done.
Qed.

Lemma put32_mod v : put32 (v mod 2 ^ 32) = put32 v.
Proof.
  unfold put32. pose proof (u8_shiftr_mod v 0). rewrite !Z.shiftr_0_r in *.
  rewrite !u8_shiftr_mod by lia. by rewrite H by lia.
Qed.

Lemma toy_binds token : one_window token.
Proof.
  intros raw k1 k2 w1 w2 s1 s2 _ H1 H2 E1' E2'. rewrite <- E2' in E1'. pose proof E1' as E. clear E1' E2'. unfold hmac_sha256, ToyCrypto in E. rewrite !take8_msg in E.
  apply (f_equal (take 8)) in E.
  assert (Hput : forall x, take 8 (u8 <$> take 32 (put64 x ++ replicate 32 0)) = put64 x).
  { intros x. unfold put64, put32. cbn. unfold u8. by rewrite !Zmod_mod. }
  rewrite !Hput in E.
  assert (Hu : forall w, 0 <= w < 2 ^ 62 -> u64 w = w) by (intros w Hw; unfold u64; apply Z.mod_small; lia).
  rewrite !Hu in E by done. unfold put64 in E.
  apply app_inj_1 in E as [E1 E2]; [|done].
  apply (f_equal get32) in E1, E2.
  assert (Hhi : forall w, 0 <= w < 2 ^ 62 -> get32 (put32 (Z.shiftr w 32)) = w / 2 ^ 32).
  { intros w Hw. rewrite Z.shiftr_div_pow2 by lia. rewrite <- (app_nil_r (put32 _)).
    apply get32_put32. split; [apply Z.div_pos; lia|apply Z.div_lt_upper_bound; lia]. }
  assert (Hlo : forall w, 0 <= w < 2 ^ 62 -> get32 (put32 w) = w mod 2 ^ 32).
  { intros w Hw. rewrite <- (put32_mod w), <- (app_nil_r (put32 _)). apply get32_put32.
    apply Z.mod_pos_bound. lia. }
  rewrite !Hhi in E1 by done. rewrite !Hlo in E2 by done.
  rewrite (Z.div_mod w1 (2 ^ 32)), (Z.div_mod w2 (2 ^ 32)) by lia. congruence.
Qed.

Definition toy_psk : list Z := replicate 32 9.
Definition toy_cfg : ServerConfig := mkServer [] (Some [mkUser "alice" toy_psk]) newSeen.
Definition nobody : UserEntry := mkUser "" [].
Definition toy_sid : list Z := replicate 16 1.
Definition toy_token : string := ClientAuthToken 3000 (derive_auth toy_psk) toy_sid.

Lemma client_token_verifies_witness :
  VerifyAuthToken 3029 toy_psk (ClientAuthToken 2970 toy_psk toy_sid) toy_sid = true.
Proof. apply (client_token_verifies 2970 3029 toy_psk toy_sid). vm_compute. discriminate. Defined.

Definition at_ (t : Z) : clock := fun _ => t.
Lemma token_accepted_at_most_once_witness :
  let es := [Attempt toy_cfg nobody toy_token toy_sid (at_ 2999) 2999; Sweep 3020; Attempt toy_cfg nobody toy_token toy_sid (at_ 3049) 3050] in
  accepted_count toy_token toy_cfg es = 1 /\ 0 <= accepted_count toy_token toy_cfg es <= 1.
Proof.
  split; [vm_compute; reflexivity|].
  apply (token_accepted_at_most_once toy_token toy_cfg);
    [exact (toy_binds toy_token)|reflexivity|repeat constructor; cbn; lia| |].
  - cbn [fmap list_fmap time_of]. unfold sane_time. repeat apply Forall_cons_2; try lia. constructor.
  - repeat constructor; intros _ n; reflexivity.
Defined.

(** Accepted at 2970, checked again at 3059 and consumed a second later: accepted
    twice. *)
Lemma token_replayed_late :
  accepted_count toy_token toy_cfg [Attempt toy_cfg nobody toy_token toy_sid (at_ 2970) 2970; Attempt toy_cfg nobody toy_token toy_sid (at_ 3059) 3060] = 2.
Proof. vm_compute. reflexivity. Qed.

Lemma newline_replays_token_witness :
  let r1 := admit_token (at_ 3000) 3000 toy_cfg nobody toy_token toy_sid in
  let r2 := admit_token (at_ 3000) 3000 r1.1 nobody (newline_token toy_token) toy_sid in
  r1.2 = inr (mkAccepted "alice" toy_sid toy_psk) /\ r2.2 = inr (mkAccepted "alice" toy_sid toy_psk).
Proof.
  assert (H : (admit_token (at_ 3000) 3000 toy_cfg nobody toy_token toy_sid).2 = inr (mkAccepted "alice" toy_sid toy_psk))
    by (vm_compute; reflexivity).
  split; [exact H|].
  apply (newline_replays_token (at_ 3000) 3000 toy_cfg nobody toy_token toy_sid);
    [reflexivity|vm_compute; reflexivity|exact H].
Defined.

Lemma perflow_preamble_witness :
  let c := mkConn (toy_sid ++ put16 43 ++ bytes_of_string toy_token ++ [1; 2; 3]) EOF [] [] false in
  let r := handlePerflowConn (at_ 3000) 3000 toy_cfg nobody c in
  r.2 = inr (mkAccepted "alice" toy_sid toy_psk) /\ c_in r.1.2 = [1; 2; 3].
Proof.
  split; [vm_compute; reflexivity|].
  pose proof (perflow_preamble (at_ 3000) 3000 toy_cfg nobody
    (mkConn (toy_sid ++ put16 43 ++ bytes_of_string toy_token ++ [1; 2; 3]) EOF [] [] false)
    toy_sid (bytes_of_string toy_token) [1; 2; 3]) as H.
  revert H. generalize (handlePerflowConn (at_ 3000) 3000 toy_cfg nobody
    (mkConn (toy_sid ++ put16 43 ++ bytes_of_string toy_token ++ [1; 2; 3]) EOF [] [] false)).
  intros [[cfg' c'] res] H. apply H; [reflexivity|vm_compute; split; discriminate|vm_compute; reflexivity].
Defined.
