(* ===== verification/TargetGuard.v ===== *)
(** The guard on relay targets, common/targetguard/targetguard.go, with the
    functions of [net/netip] it uses.

    An address is the record [Addr] of the address parser: 16 bytes (an IPv4
    address in its mapped form), the family, and the zone.  A prefix is its
    family, the address as a number, and the number of bits.  Messages of
    errors are left out, their kinds are not. *)

From S2P Require Import Prelude GoBytes GoStr NetIP.

Module TargetGuard.

(** ** netip *)

Definition family_bytes (a : Addr) : list Z := if a_is4 a then zdrop 12 (a_bytes a) else a_bytes a.
Definition addr_val (a : Addr) : Z := bytes_val (family_bytes a).
Definition width (is4 : bool) : Z := if is4 then 32 else 128.

Definition Is4In6 (a : Addr) : bool :=
  negb (a_is4 a) && bool_decide (ztake 12 (a_bytes a) = v4InV6Prefix).
Definition Unmap (a : Addr) : Addr := if Is4In6 a then mkAddr (a_bytes a) true [] else a.
Definition WithZone (a : Addr) (zone : list Z) : Addr :=
  if a_is4 a then a else mkAddr (a_bytes a) false zone.

Definition byte (i : nat) (a : Addr) : Z := nth i (family_bytes a) 0.

Definition IsLoopback (a : Addr) : bool :=
  let a := Unmap a in
  if a_is4 a then byte 0 a =? 127
  else bool_decide (a_bytes a = replicate 15 0 ++ [1]).
Definition IsUnspecified (a : Addr) : bool :=
  bool_decide (family_bytes a = replicate (if a_is4 a then 4 else 16) 0) && bool_decide (a_zone a = []).
Definition IsPrivate (a : Addr) : bool :=
  let a := Unmap a in
  if a_is4 a then
    (byte 0 a =? 10) || ((byte 0 a =? 172) && (Z.land (byte 1 a) 240 =? 16))
    || ((byte 0 a =? 192) && (byte 1 a =? 168))
  else Z.land (byte 0 a) 254 =? 252.
Definition IsLinkLocalUnicast (a : Addr) : bool :=
  let a := Unmap a in
  if a_is4 a then (byte 0 a =? 169) && (byte 1 a =? 254)
  else (byte 0 a =? 254) && (Z.land (byte 1 a) 192 =? 128).
Definition IsLinkLocalMulticast (a : Addr) : bool :=
  let a := Unmap a in
  if a_is4 a then (byte 0 a =? 224) && (byte 1 a =? 0) && (byte 2 a =? 0)
  else (byte 0 a =? 255) && (Z.land (byte 1 a) 15 =? 2).

Record Prefix := mkPrefix { p_is4 : bool; p_val : Z; p_bits : Z }.

Definition mask (is4 : bool) (bits : Z) : Z := Z.shiftl (Z.ones bits) (width is4 - bits).

Fixpoint last_index_byte (c : Z) (l : list Z) : Z :=
  match l with
  | [] => -1
  | x :: l' => let i := last_index_byte c l' in
               if i =? -1 then (if x =? c then 0 else -1) else i + 1
  end.

(** [ParsePrefix]: the bits are a number without a sign or leading zeros. *)
Definition ParsePrefix (l : list Z) : option Prefix :=
  let i := last_index_byte 47 l in
  if i <? 0 then None
  else
    a ← ParseAddr (ztake i l);
    if negb (bool_decide (a_zone a = [])) then None
    else
      let s := zdrop (i + 1) l in
      if (1 <? len s) && ((hd 0 s <? 49) || (57 <? hd 0 s)) then None
      else
        bits ← atoi s;
        if (bits <? 0) || (width (a_is4 a) <? bits) then None
        else Some (mkPrefix (a_is4 a) (addr_val a) bits).

Definition Masked (p : Prefix) : Prefix :=
  mkPrefix (p_is4 p) (Z.land (p_val p) (mask (p_is4 p) (p_bits p))) (p_bits p).

Definition Prefix_Contains (p : Prefix) (a : Addr) : bool :=
  if negb (bool_decide (a_zone a = [])) then false
  else if negb (Bool.eqb (p_is4 p) (a_is4 a)) then false
  else
    let x := Z.lxor (addr_val a) (p_val p) in
    if a_is4 a then Z.shiftr x (32 - p_bits p) =? 0
    else Z.land x (mask false (p_bits p)) =? 0.

(** [ParseAddrPort]; an IPv6 address is in brackets and an IPv4 address is not. *)
Definition ParseAddrPort (l : list Z) : option (Addr * Z) :=
  let i := last_index_byte 58 l in
  if i =? -1 then None
  else
    let ip := ztake i l in
    let port := zdrop (i + 1) l in
    if bool_decide (ip = []) || bool_decide (port = []) then None
    else
      let bracket := hd 0 ip =? 91 in
      if bracket && ((len ip <? 2) || negb (List.last ip 0 =? 93)) then None
      else
        let ip := if bracket then zslice 1 (len ip - 1) ip else ip in
        port ← digits_val 0 port;
        if 65535 <? port then None
        else
          a ← ParseAddr ip;
          if Bool.eqb bracket (a_is4 a) then None else Some (a, port).

(** ** The guard *)

Definition ClassLoopback : string := "loopback".
Definition ClassUnspecified : string := "unspecified".
Definition ClassPrivate : string := "private".
Definition ClassLinkLocal : string := "link-local".

Definition classes (entry : string) : option (Addr -> bool) :=
  if String.eqb entry ClassLoopback then Some IsLoopback
  else if String.eqb entry ClassUnspecified then Some IsUnspecified
  else if String.eqb entry ClassPrivate then Some IsPrivate
  else if String.eqb entry ClassLinkLocal then
    Some (fun addr => IsLinkLocalUnicast addr || IsLinkLocalMulticast addr)
  else None.

Record Guard := mkGuard { matchers : list (Addr -> bool) }.

(** The loop of [New] over the entries; the error carries the entry. *)
Fixpoint New_loop (entries : list string) (guard : Guard) : string + Guard :=
  match entries with
  | [] => inr guard
  | entry :: entries' =>
      let entry := TrimSpace entry in
      match classes entry with
      | Some match_ => New_loop entries' (mkGuard (matchers guard ++ [match_]))
      | None =>
          match ParsePrefix (bytes_of_string entry) with
          | None => inl entry
          | Some prefix =>
              New_loop entries' (mkGuard (matchers guard ++ [Prefix_Contains (Masked prefix)]))
          end
      end
  end.
Definition New (entries : list string) : string + Guard := New_loop entries (mkGuard []).

(** A guard that is not set is [None]. *)
Definition Blocks (g : option Guard) (addr : Addr) : bool :=
  match g with
  | None => false
  | Some g =>
      let addr := WithZone (Unmap addr) [] in
      existsb (fun match_ => match_ addr) (matchers g)
  end.

Inductive dial_error := ErrAddrPort | ErrBlocked (addr : Addr).

Definition Control (g : option Guard) (address : string) : option dial_error :=
  match ParseAddrPort (bytes_of_string address) with
  | None => Some ErrAddrPort
  | Some (target, _) => if Blocks g target then Some (ErrBlocked target) else None
  end.

(** The check the dialer makes on each address it is about to connect to. *)
Definition Dialer (g : option Guard) : option (string -> option dial_error) :=
  match g with
  | None => None
  | Some _ => Some (Control g)
  end.

(** ** Cases of the unit tests *)

Definition all_classes : list string := [ClassLoopback; ClassUnspecified; ClassPrivate; ClassLinkLocal].

Definition blocks_text (entries : list string) (text : string) : option bool :=
  match New entries, ParseAddr (bytes_of_string text) with
  | inr g, Some a => Some (Blocks (Some g) a)
  | _, _ => None
  end.

Example class_cases :
  map (blocks_text all_classes)
    ["127.0.0.1"; "::1"; "0.0.0.0"; "::"; "10.1.2.3"; "172.16.5.5"; "192.168.1.1"; "fd00::1";
     "169.254.169.254"; "fe80::1%eth0"; "::ffff:127.0.0.1"; "8.8.8.8"; "2a00:1450::1"; "100.64.1.1"]%string
  = repeat (Some true) 11 ++ repeat (Some false) 3.
Proof. vm_compute. reflexivity. Qed.

Example network_cases :
  map (blocks_text [" 100.64.0.0/10 "%string]) ["100.64.1.1"; "::ffff:100.127.0.1"; "10.0.0.1"]%string
  = [Some true; Some true; Some false].
Proof. vm_compute. reflexivity. Qed.

Example unknown_entry : New ["lan"%string] = inl "lan"%string.
Proof. vm_compute. reflexivity. Qed.

(** ** What an entry stands for *)

(** A network: its family, the number of its base address, its prefix length. *)
Definition net := (bool * Z * Z)%type.

Definition in_net (n : net) (a : Addr) : Prop :=
  let '(is4, base, bits) := n in
  a_is4 a = is4 /\ addr_val a / 2 ^ (width is4 - bits) = base / 2 ^ (width is4 - bits).

Definition v4net (a b c d bits : Z) : net := (true, bytes_val [a; b; c; d], bits).
Definition v6net (hi bits : Z) : net := (false, hi * 2 ^ 112, bits).

(** The networks of the classes, from the address registries: 127.0.0.0/8 and
    ::1; 0.0.0.0 and ::; the private networks of RFC 1918 and fc00::/7;
    169.254.0.0/16, 224.0.0.0/24, fe80::/10 and the multicast groups of
    link-local scope, ffx2::/16. *)
Definition class_nets (entry : string) : option (list net) :=
  if String.eqb entry ClassLoopback then Some [v4net 127 0 0 0 8; (false, 1, 128)]
  else if String.eqb entry ClassUnspecified then Some [v4net 0 0 0 0 32; (false, 0, 128)]
  else if String.eqb entry ClassPrivate then
    Some [v4net 10 0 0 0 8; v4net 172 16 0 0 12; v4net 192 168 0 0 16; v6net 64512 7]
  else if String.eqb entry ClassLinkLocal then
    Some ([v4net 169 254 0 0 16; v4net 224 0 0 0 24; v6net 65152 10] ++
          ((fun x => v6net (65282 + 16 * Z.of_nat x) 16) <$> seq 0 16))
  else None.

Definition entry_nets (entry : string) : list net :=
  match class_nets (TrimSpace entry) with
  | Some ns => ns
  | None => match ParsePrefix (bytes_of_string (TrimSpace entry)) with
            | Some p => [(p_is4 p, p_val p, p_bits p)]
            | None => []
            end
  end.

(** The address as the network stack sees it: no zone, and an IPv4 address for
    a mapped one. *)
Definition canonical (a : Addr) : Addr := WithZone (Unmap a) [].

Definition addr_ok (a : Addr) : Prop :=
  len (a_bytes a) = 16 /\ Forall is_byte (a_bytes a) /\
  (a_is4 a = true -> ztake 12 (a_bytes a) = v4InV6Prefix /\ a_zone a = []).

(** ** Parsed addresses *)

Lemma v4_addr_ok q : len q = 4 -> Forall is_byte q -> addr_ok (mkAddr (v4InV6Prefix ++ q) true []).
Proof.
  intros Hl Hq. unfold addr_ok. split_and!; cbn [a_bytes a_is4 a_zone].
  - rewrite zlen_app, Hl. done.
  - apply Forall_app. split; [repeat constructor; done|done].
  - intros _. split; [by apply ztake_app_exact|done].
Qed.

Lemma v6_addr_ok b zone : len b = 16 -> Forall is_byte b -> addr_ok (mkAddr b false zone).
Proof. intros. unfold addr_ok. by split_and!. Qed.

Lemma ParseAddr_ok l a : ParseAddr l = Some a -> addr_ok a.
Proof.
  unfold ParseAddr. intros H. destruct (_ =? 46).
  { apply bind_Some in H as (q & Hq & [= <-]).
    apply v4_addr_ok; [by eapply parse_v4_fields_len in Hq|by eapply parse_v4_fields_bytes in Hq]. }
  destruct (_ =? 58); [|done]. destruct (_ =? -1).
  - apply bind_Some in H as (q & Hq & [= <-]). apply v6_addr_ok; [by eapply parse_v6_body_len|by eapply parse_v6_body_bytes].
  - destruct (_ =? _); [done|]. apply bind_Some in H as (q & Hq & [= <-]).
    apply v6_addr_ok; [by eapply parse_v6_body_len|by eapply parse_v6_body_bytes].
Qed.

Lemma ParseAddrPort_ok l a port : ParseAddrPort l = Some (a, port) -> addr_ok a.
Proof.
  unfold ParseAddrPort. destruct (_ =? -1); [done|]. destruct (_ || _); [done|]. destruct (_ && _); [done|].
  intros (n & _ & H)%bind_Some. destruct (65535 <? n); [done|]. apply bind_Some in H as (a' & Ha & H).
  destruct (Bool.eqb _ _); [done|]. injection H as -> ->. by eapply ParseAddr_ok.
Qed.

Lemma family_bytes_ok a :
  addr_ok a -> len (family_bytes a) = width (a_is4 a) / 8 /\ Forall is_byte (family_bytes a).
Proof.
  intros (Hl & Hb & _). unfold family_bytes. destruct (a_is4 a); [|by rewrite Hl].
  split; [rewrite zlen_zdrop; rewrite Hl; done|by apply Forall_drop].
Qed.

Lemma addr_val_range a : addr_ok a -> 0 <= addr_val a < 2 ^ width (a_is4 a).
Proof.
  intros Ha. destruct (family_bytes_ok a Ha) as [Hl Hb]. pose proof (bytes_val_range _ Hb) as H.
  rewrite Hl in H. unfold addr_val. by destruct (a_is4 a).
Qed.

Lemma canonical_ok a : addr_ok a ->
  addr_ok (canonical a) /\ a_zone (canonical a) = [] /\ Is4In6 (canonical a) = false.
Proof.
  destruct a as [b is4 z]. intros (Hl & Hb & H4). cbn [a_bytes a_is4 a_zone] in *.
  unfold canonical, Unmap, Is4In6, WithZone. destruct is4; cbn [a_bytes a_is4 a_zone negb andb].
  - split; [done|]. split; [by apply H4|done].
  - destruct (bool_decide (ztake 12 b = v4InV6Prefix)) eqn:Em; cbn [a_bytes a_is4 a_zone negb andb].
    + apply bool_decide_eq_true in Em. split; [|done]. split; [done|]. split; [done|]. done.
    + split; [by apply v6_addr_ok|done].
Qed.

Lemma Unmap_id a : Is4In6 a = false -> Unmap a = a.
Proof. unfold Unmap. by intros ->. Qed.

(** ** Prefixes *)

Definition prefix_ok (p : Prefix) : Prop :=
  0 <= p_bits p <= width (p_is4 p) /\ 0 <= p_val p < 2 ^ width (p_is4 p).

Lemma ParsePrefix_ok l p : ParsePrefix l = Some p -> prefix_ok p.
Proof.
  unfold ParsePrefix. destruct (_ <? 0); [done|]. intros (a & Ha & H)%bind_Some.
  destruct (negb _); [done|]. destruct (_ && _); [done|]. apply bind_Some in H as (n & _ & H).
  split_ifs_in H; [done|]. injection H as <-. split; cbn; [lia|].
  apply addr_val_range. by eapply ParseAddr_ok.
Qed.

Lemma shiftr_masked w n x :
  0 <= n <= w -> 0 <= x < 2 ^ w ->
  Z.shiftr (Z.land x (Z.shiftl (Z.ones n) (w - n))) (w - n) = Z.shiftr x (w - n).
Proof.
  intros Hn Hx. rewrite Z.shiftr_land, Z.shiftr_shiftl_l, Z.sub_diag, Z.shiftl_0_r by lia.
  rewrite Z.land_ones, Z.shiftr_div_pow2 by lia. apply Z.mod_small.
  split; [apply Z.div_pos; lia|]. apply Z.div_lt_upper_bound; [lia|].
  rewrite <- Z.pow_add_r by lia. replace (w - n + n) with w by lia. lia.
Qed.

Lemma land_high_zero w n x :
  0 <= n <= w -> 0 <= x < 2 ^ w ->
  Z.land x (Z.shiftl (Z.ones n) (w - n)) = 0 <-> Z.shiftr x (w - n) = 0.
Proof.
  intros Hn Hx. rewrite <- (shiftr_masked w n x) by done. split; [intros ->; by rewrite Z.shiftr_0_l|].
  intros H. apply Z.bits_inj'. intros i Hi. rewrite Z.bits_0. destruct (Z_lt_le_dec i (w - n)).
  - rewrite Z.land_spec, Z.shiftl_spec_low by done. apply andb_false_r.
  - assert (E := f_equal (fun y => Z.testbit y (i - (w - n))) H).
    cbn beta in E. rewrite Z.shiftr_spec, Z.bits_0, Z.sub_add in E by lia. done.
Qed.

(** A masked prefix contains the addresses of its family with the same leading
    bits. *)
Lemma contains_masked p a :
  prefix_ok p -> addr_ok a -> a_zone a = [] ->
  Prefix_Contains (Masked p) a = true <-> in_net (p_is4 p, p_val p, p_bits p) a.
Proof.
  intros [Hn Hv] Ha Hz. pose proof (addr_val_range a Ha) as Hx.
  unfold Prefix_Contains, in_net. rewrite (bool_decide_eq_true_2 _ Hz). cbn [negb Masked p_is4 p_val p_bits].
  destruct (Bool.eqb (p_is4 p) (a_is4 a)) eqn:E; cbn [negb].
  2:{ apply Bool.eqb_false_iff in E. split; [done|]. intros [? _]. congruence. }
  apply Bool.eqb_prop in E. rewrite <- E in *.
  assert (Hm : Z.shiftr (Z.lxor (addr_val a) (Z.land (p_val p) (mask (p_is4 p) (p_bits p)))) (width (p_is4 p) - p_bits p) = 0
    <-> addr_val a / 2 ^ (width (p_is4 p) - p_bits p) = p_val p / 2 ^ (width (p_is4 p) - p_bits p)).
  { rewrite Z.shiftr_lxor, Z.lxor_eq_0_iff. unfold mask. rewrite shiftr_masked by done.
    by rewrite !Z.shiftr_div_pow2 by lia. }
  destruct (p_is4 p) eqn:E4; rewrite Z.eqb_eq.
  - change 32 with (width true). rewrite Hm. naive_solver.
  - unfold mask at 2. change 128 with (width false). rewrite land_high_zero.
    + rewrite Hm. naive_solver.
    + done.
    + apply lxor_range; [done|done|]. by apply land_range.
Qed.

(** ** Classes *)

Lemma land_240 b : is_byte b -> (Z.land b 240 =? 16) = (b / 16 =? 1).
Proof. intros H. apply Bool.eqb_prop, (byte_enum (fun b => Bool.eqb (Z.land b 240 =? 16) (b / 16 =? 1)) b); [by vm_compute|done]. Qed.
Lemma land_254 b : is_byte b -> (Z.land b 254 =? 252) = (b / 2 =? 126).
Proof. intros H. apply Bool.eqb_prop, (byte_enum (fun b => Bool.eqb (Z.land b 254 =? 252) (b / 2 =? 126)) b); [by vm_compute|done]. Qed.
Lemma land_192 b : is_byte b -> (Z.land b 192 =? 128) = (b / 64 =? 2).
Proof. intros H. apply Bool.eqb_prop, (byte_enum (fun b => Bool.eqb (Z.land b 192 =? 128) (b / 64 =? 2)) b); [by vm_compute|done]. Qed.

(** The bytes of an IPv4 address and its number. *)
Lemma v4_bytes a : addr_ok a -> a_is4 a = true ->
  exists x y z w, family_bytes a = [x; y; z; w] /\ is_byte x /\ is_byte y /\ is_byte z /\ is_byte w.
Proof.
  intros Ha H4. destruct (family_bytes_ok a Ha) as [Hl Hb]. rewrite H4 in Hl. change (width true / 8) with 4 in Hl.
  destruct (family_bytes a) as [|x [|y [|z [|w [|]]]]]; rewrite ?zlen_cons, ?zlen_nil in Hl; try zlen_lia.
  exists x, y, z, w. split; [done|]. by rewrite !Forall_cons in Hb; destruct_and!.
Qed.

Lemma v6_bytes a : addr_ok a -> a_is4 a = false ->
  exists x y b, family_bytes a = x :: y :: b /\ is_byte x /\ is_byte y /\ addr_val a / 2 ^ 112 = x * 256 + y.
Proof.
  intros Ha H4. destruct (family_bytes_ok a Ha) as [Hl Hb]. rewrite H4 in Hl. change (width false / 8) with 16 in Hl.
  unfold addr_val. destruct (family_bytes a) as [|x [|y b]]; [done|done|]. exists x, y, b.
  rewrite !Forall_cons in Hb. destruct Hb as (? & ? & Hb). split_and!; try done.
  assert (Hlb : len b = 14) by (rewrite !zlen_cons in Hl; lia).
  pose proof (bytes_val_head [x; y] b Hb) as E. rewrite Hlb in E. exact E.
Qed.

Lemma in_v6net hi bits a x y :
  a_is4 a = false -> addr_val a / 2 ^ 112 = x * 256 + y -> 0 <= bits <= 16 ->
  in_net (v6net hi bits) a <-> (x * 256 + y) / 2 ^ (16 - bits) = hi / 2 ^ (16 - bits).
Proof.
  intros H4 Hv Hb. unfold in_net, v6net. change (width false) with 128.
  replace (128 - bits) with (112 + (16 - bits)) by lia. rewrite Z.pow_add_r by lia.
  rewrite <- !Z.div_div, Hv, Z.div_mul by lia. naive_solver.
Qed.

Lemma in_v4net p q r s bits a x y z w :
  a_is4 a = true -> family_bytes a = [x; y; z; w] ->
  in_net (v4net p q r s bits) a <->
  (((x * 256 + y) * 256 + z) * 256 + w) / 2 ^ (32 - bits) =
  (((p * 256 + q) * 256 + r) * 256 + s) / 2 ^ (32 - bits).
Proof.
  intros H4 Hf. unfold in_net, v4net, addr_val. rewrite Hf. cbn. naive_solver.
Qed.

Lemma other_family n a : a_is4 a <> n.1.1 -> in_net n a <-> False.
Proof. destruct n as [[? ?] ?]. cbn. naive_solver. Qed.

(** A host network of IPv6 is the one address. *)
Lemma in_host6 v a : a_is4 a = false -> in_net (false, v, 128) a <-> addr_val a = v.
Proof. intros H4. unfold in_net. cbn. rewrite !Z.div_1_r. naive_solver. Qed.

Lemma bytes_val_eq a b :
  addr_ok a -> Forall is_byte b -> len b = width (a_is4 a) / 8 ->
  family_bytes a = b <-> addr_val a = bytes_val b.
Proof.
  intros Ha Hb Hl. destruct (family_bytes_ok a Ha) as [Hla Hba]. unfold addr_val.
  split; [by intros ->|]. apply bytes_val_inj; [done|done|]. by rewrite Hla, Hl.
Qed.

Section Classes.
Context (a : Addr) (Ha : addr_ok a) (Hz : a_zone a = []) (Hm : Is4In6 a = false).

Lemma loopback_nets :
  IsLoopback a = true <-> Exists (fun n => in_net n a) [v4net 127 0 0 0 8; (false, 1, 128)].
Proof using All.
  unfold IsLoopback. rewrite Unmap_id by done. rewrite !Exists_cons, Exists_nil.
  destruct (a_is4 a) eqn:H4.
  - destruct (v4_bytes a Ha H4) as (x & y & z & w & Hf & ? & ? & ? & ?).
    rewrite (in_v4net _ _ _ _ _ _ _ _ _ _ H4 Hf), (other_family (false, _, _)) by (by rewrite H4).
    unfold byte. rewrite Hf. change (2 ^ (32 - 8)) with 16777216. cbn [nth]. rewrite Z.eqb_eq.
    byte_lia.
  - rewrite (other_family (v4net _ _ _ _ _)), in_host6 by (done || by rewrite H4).
    rewrite bool_decide_eq_true. change (a_bytes a) with (if false then zdrop 12 (a_bytes a) else a_bytes a).
    rewrite <- H4. fold (family_bytes a). rewrite bytes_val_eq; [|done|repeat constructor; done|by rewrite H4].
    change (bytes_val _) with 1. naive_solver.
Qed.

Lemma unspecified_nets :
  IsUnspecified a = true <-> Exists (fun n => in_net n a) [v4net 0 0 0 0 32; (false, 0, 128)].
Proof using All.
  unfold IsUnspecified. rewrite (bool_decide_eq_true_2 _ Hz), andb_true_r, bool_decide_eq_true.
  rewrite !Exists_cons, Exists_nil.
  rewrite bytes_val_eq; [|done|by apply Forall_replicate|by destruct (a_is4 a)].
  destruct (a_is4 a) eqn:H4.
  - rewrite (other_family (false, _, _)) by (by rewrite H4). unfold in_net, v4net. cbn.
    rewrite !Z.div_1_r. naive_solver.
  - rewrite (other_family (v4net _ _ _ _ _)), in_host6 by (done || by rewrite H4). cbn. naive_solver.
Qed.

Lemma private_nets :
  IsPrivate a = true <->
  Exists (fun n => in_net n a) [v4net 10 0 0 0 8; v4net 172 16 0 0 12; v4net 192 168 0 0 16; v6net 64512 7].
Proof using All.
  unfold IsPrivate. rewrite Unmap_id by done. rewrite !Exists_cons, Exists_nil. destruct (a_is4 a) eqn:H4.
  - destruct (v4_bytes a Ha H4) as (x & y & z & w & Hf & ? & ? & ? & ?).
    rewrite !(in_v4net _ _ _ _ _ _ _ _ _ _ H4 Hf), (other_family (v6net _ _)) by (by rewrite H4).
    unfold byte. rewrite Hf. cbn [nth]. rewrite land_240 by done.
    change (2 ^ (32 - 8)) with 16777216. change (2 ^ (32 - 12)) with 1048576. change (2 ^ (32 - 16)) with 65536.
    rewrite !orb_true_iff, !andb_true_iff, !Z.eqb_eq. byte_lia.
  - destruct (v6_bytes a Ha H4) as (x & y & b & Hf & ? & ? & Hv).
    rewrite !(other_family (v4net _ _ _ _ _)), (in_v6net _ _ a x y) by (done || by rewrite H4).
    unfold byte. rewrite Hf. cbn [nth]. rewrite land_254 by done. rewrite Z.eqb_eq.
    change (2 ^ (16 - 7)) with 512. byte_lia.
Qed.

Lemma linklocal_nets :
  IsLinkLocalUnicast a || IsLinkLocalMulticast a = true <->
  Exists (fun n => in_net n a)
    ([v4net 169 254 0 0 16; v4net 224 0 0 0 24; v6net 65152 10] ++
     ((fun x => v6net (65282 + 16 * Z.of_nat x) 16) <$> seq 0 16)).
Proof using All.
  unfold IsLinkLocalUnicast, IsLinkLocalMulticast. rewrite Unmap_id by done. rewrite Exists_app, !Exists_cons, Exists_nil.
  rewrite Exists_exists. destruct (a_is4 a) eqn:H4.
  - destruct (v4_bytes a Ha H4) as (x & y & z & w & Hf & ? & ? & ? & ?).
    rewrite !(in_v4net _ _ _ _ _ _ _ _ _ _ H4 Hf), (other_family (v6net _ _)) by (by rewrite H4).
    assert (Hno : (exists n, n ∈ (fun x => v6net (65282 + 16 * Z.of_nat x) 16) <$> seq 0 16 /\ in_net n a) <-> False).
    { split; [|done]. intros (n & (k & -> & _)%list_elem_of_fmap & Hn). apply other_family in Hn; [done|by rewrite H4]. }
    rewrite Hno. unfold byte. rewrite Hf. cbn [nth].
    change (2 ^ (32 - 24)) with 256. change (2 ^ (32 - 16)) with 65536.
    rewrite !orb_true_iff, !andb_true_iff, !Z.eqb_eq. byte_lia.
  - destruct (v6_bytes a Ha H4) as (x & y & b & Hf & ? & ? & Hv).
    rewrite !(other_family (v4net _ _ _ _ _)), (in_v6net _ _ a x y) by (done || by rewrite H4).
    assert (Hmc : (exists n, n ∈ (fun x => v6net (65282 + 16 * Z.of_nat x) 16) <$> seq 0 16 /\ in_net n a) <->
                  x = 255 /\ y mod 16 = 2).
    { split.
      - intros (n & (k & -> & Hk%elem_of_seq)%list_elem_of_fmap & Hn).
        rewrite (in_v6net _ _ a x y) in Hn by done. rewrite Z.sub_diag, !Z.div_1_r in Hn. byte_lia.
      - intros [-> Hy]. eexists. split; [apply list_elem_of_fmap; exists (Z.to_nat (y / 16)); split; [done|]|].
        + apply elem_of_seq. byte_lia.
        + rewrite (in_v6net _ _ a 255 y) by done. rewrite Z.sub_diag, !Z.div_1_r. byte_lia. }
    rewrite Hmc. unfold byte. rewrite Hf. cbn [nth]. rewrite land_192 by done.
    change 15 with (Z.ones 4). rewrite Z.land_ones by lia. change (2 ^ 4) with 16. change (2 ^ (16 - 10)) with 64.
    rewrite !orb_true_iff, !andb_true_iff, !Z.eqb_eq. byte_lia.
Qed.

(** A class of the table matches the addresses of its networks. *)
Lemma classes_nets entry :
  match classes entry, class_nets entry with
  | Some match_, Some ns => match_ a = true <-> Exists (fun n => in_net n a) ns
  | None, None => True
  | _, _ => False
  end.
Proof using All.
  unfold classes, class_nets. split_ifs; try done; first [apply loopback_nets|apply unspecified_nets|apply private_nets|apply linklocal_nets].
Qed.

(** The matchers [New] collects, entry by entry. *)
Lemma New_loop_nets entries g0 g :
  New_loop entries g0 = inr g ->
  existsb (fun match_ => match_ a) (matchers g) = true <->
  existsb (fun match_ => match_ a) (matchers g0) = true \/
  Exists (fun e => Exists (fun n => in_net n a) (entry_nets e)) entries.
Proof using All.
  revert g0. induction entries as [|e entries IH]; intros g0; cbn [New_loop].
  - intros [= ->]. rewrite Exists_nil. naive_solver.
  - unfold entry_nets at 1. rewrite Exists_cons. pose proof (classes_nets (TrimSpace e)) as Hc.
    destruct (classes (TrimSpace e)) as [m|], (class_nets (TrimSpace e)) as [ns|]; try done.
    + intros ->%IH. cbn [matchers]. rewrite existsb_app. cbn. rewrite orb_false_r, orb_true_iff, Hc. naive_solver.
    + destruct (ParsePrefix _) as [p|] eqn:Hp; [|done]. intros ->%IH. cbn [matchers].
      rewrite existsb_app. cbn [existsb]. rewrite orb_false_r, orb_true_iff, contains_masked by (done || by eapply ParsePrefix_ok).
      rewrite Exists_cons, Exists_nil. naive_solver.
Qed.

End Classes.

(** A guard built from a list of entries refuses a dial exactly when the
    target it is about to connect to lies, as the network stack sees it (a
    mapped address as the IPv4 address it is, without its zone), in a network
    one of the entries stands for: the networks of a class, or the network of a
    prefix. *)
Theorem guard_refuses_iff entries g address target port :
  New entries = inr g ->
  ParseAddrPort (bytes_of_string address) = Some (target, port) ->
  let listed := Exists (fun e => Exists (fun n => in_net n (canonical target)) (entry_nets e)) entries in
  (Control (Some g) address = Some (ErrBlocked target) <-> listed) /\
  (Control (Some g) address = None <-> ~ listed).
Proof.
  intros HN Hp listed. unfold Control. rewrite Hp.
  assert (Hok : addr_ok target) by (by eapply ParseAddrPort_ok).
  destruct (canonical_ok target Hok) as (Hc & Hz & Hm).
  pose proof (New_loop_nets _ Hc Hz Hm entries _ _ HN) as Hb. cbn [Blocks]. fold (canonical target).
  fold listed in Hb. cbn [matchers existsb] in Hb.
  destruct (existsb _ (matchers g)); naive_solver.
Qed.

Example New_two_entries :
  New ["private"; "100.64.0.0/10"]%string =
  inr (mkGuard [IsPrivate; Prefix_Contains (Masked (mkPrefix true 1681915904 10))]).
Proof.
  assert (E1 : TrimSpace "private" = ClassPrivate) by (vm_compute; reflexivity).
  assert (E2 : TrimSpace "100.64.0.0/10" = "100.64.0.0/10"%string) by (vm_compute; reflexivity).
  assert (E3 : ParsePrefix (bytes_of_string "100.64.0.0/10") = Some (mkPrefix true 1681915904 10))
    by (vm_compute; reflexivity).
  unfold New. cbn [New_loop]. rewrite E1, E2, E3. reflexivity.
Qed.

Lemma guard_refuses_iff_witness :
  let a := mkAddr (v4InV6Prefix ++ [100; 100; 1; 1]) false [] in
  let g := mkGuard [IsPrivate; Prefix_Contains (Masked (mkPrefix true 1681915904 10))] in
  Control (Some g) "[::ffff:100.100.1.1]:53" = Some (ErrBlocked a) /\
  Exists (fun e => Exists (fun n => in_net n (canonical a)) (entry_nets e)) ["private"; "100.64.0.0/10"]%string.
Proof.
  intros a g. split; [vm_compute; reflexivity|].
  apply (guard_refuses_iff ["private"; "100.64.0.0/10"]%string g "[::ffff:100.100.1.1]:53" a 53);
    [exact New_two_entries|vm_compute; reflexivity|vm_compute; reflexivity].
Defined.

End TargetGuard.
