(* ===== verification/SplitTunnel.v ===== *)
(** Split tunnelling, common/split_tunnel: the rules and their published
    snapshot (split_tunnel.go) and the country's address list (geoip.go).

    A [16]byte array is the list of its bytes.  [GeoIPSet]s are shared by
    pointer and change under a snapshot that holds them, so a pointer is an
    index and [geos] gives the ranges each set holds at the time of a lookup.
    [container/heap] is the list of its elements in order: the code looks at its
    length and its least element only.  Decoding JSON and reading files are
    arguments: the decoded configuration, the lines of the list.  A resolution in
    the background is a goroutine in the list [learning] until it is done. *)

From S2P Require Import Prelude GoStr GoBytes GoSort NetIP.

Module SplitTunnel.

(** ** geoip.go *)

Definition geoIPMinNetworks : Z := 100.

Record ipRange := mkRange { lo : list Z; hi : list Z }.

(** [net.IPMask.Size]: the leading ones and the length in bits, zeros when ones
    follow a zero. *)
Fixpoint byte_ones (fuel : nat) (b : Z) : nat :=
  match fuel with
  | O => 0
  | S f => if Z.testbit b 7 then S (byte_ones f (u8 (Z.shiftl b 1))) else 0
  end.
Fixpoint mask_ones (m : list Z) : option nat :=
  match m with
  | [] => Some 0%nat
  | b :: m' =>
      if b =? 255 then n ← mask_ones m'; Some (8 + n)%nat
      else
        let n := byte_ones 8 b in
        if (u8 (Z.shiftl b (Z.of_nat n)) =? 0) && forallb (Z.eqb 0) m' then Some n else None
  end.
Definition Mask_Size (m : list Z) : nat * nat :=
  match mask_ones m with
  | Some n => (n, 8 * length m)%nat
  | None => (0, 0)%nat
  end.

(** [a[i/8] |= 1 << (7 - i%8)]. *)
Definition set_bit (a : list Z) (i : nat) : list Z :=
  alter (fun b => Z.lor b (Z.shiftl 1 (7 - Z.of_nat (Nat.modulo i 8)))) (Nat.div i 8) a.

Definition rangeOf (ipnet : IPNet) : option ipRange :=
  ip ← To16 (n_ip ipnet);
  let '(ones, bits) := Mask_Size (n_mask ipnet) in
  if (bits =? 0)%nat then None
  else
    let ones := if (bits =? 32)%nat then (ones + 96)%nat else ones in
    Some (mkRange ip (foldl set_bit ip (seq ones (128 - ones)))).

(** One line of the list. *)
Definition geoip_entry (line : string) : option ipRange :=
  let line := TrimSpace line in
  if String.eqb line "" || HasPrefix line "#" then None
  else ipnet ← ParseCIDR line; rangeOf ipnet.

(** [sort.Slice] by the upper end leaves some sorted permutation, the stable sort
    of some order [shuffle]. *)
Definition hi_before (a b : ipRange) : bool :=
  match bytes_compare (hi a) (hi b) with Lt => true | _ => false end.

(** [scan] is what the scanner yields: the lines, or its error. *)
Definition parseGeoIP (shuffle : list ipRange -> list ipRange) (scan : string + list string)
  : string + list ipRange :=
  match scan with
  | inl e => inl e
  | inr lines => inr (SliceStable hi_before (shuffle (omap geoip_entry lines)))
  end.

Definition not_above (addr : list Z) (r : list Z) : bool :=
  match bytes_compare r addr with Gt => false | _ => true end.

(** The first range whose upper end is not below the address. *)
Definition range_search {R} (upper : R -> list Z) (ranges : list R) (addr : list Z) : nat :=
  Search (length ranges)
    (fun i => match ranges !! i with
              | Some r => match bytes_compare (upper r) addr with Lt => false | _ => true end
              | None => true
              end).

(** A set is the pointer to its ranges, [None] before the first load. *)
Definition GeoIPSet := option (list ipRange).

Definition GeoIPSet_Len (g : GeoIPSet) : Z := len (default [] g).

Definition GeoIPSet_Contains (g : GeoIPSet) (ip : IP) : bool :=
  match To16 ip with
  | None => false
  | Some addr =>
      match g with
      | None => false
      | Some ranges =>
          match ranges !! range_search hi ranges addr with
          | Some r => not_above addr (lo r)
          | None => false
          end
      end
  end.

Inductive geo_error := ErrScan (e : string) | ErrTooFew (n : Z) | ErrHTTP (code : Z) | ErrIO (e : string).

Definition load (shuffle : list ipRange -> list ipRange) (scan : string + list string) (g : GeoIPSet)
  : GeoIPSet * (geo_error + Z) :=
  match parseGeoIP shuffle scan with
  | inl e => (g, inl (ErrScan e))
  | inr ranges =>
      if len ranges <? geoIPMinNetworks then (g, inl (ErrTooFew (len ranges)))
      else (Some ranges, inr (len ranges))
  end.

(** [LoadFile]: [file] is the error of opening it, or what the scanner reads. *)
Definition LoadFile shuffle (file : string + (string + list string)) (g : GeoIPSet)
  : GeoIPSet * (geo_error + Z) :=
  match file with
  | inl e => (g, inl (ErrIO e))
  | inr scan => load shuffle scan g
  end.

(** What the server answers to the request of [Refresh]: the status, the body as
    the scanner reads it or the error of reading it, and the new tag. *)
Record response := mkResponse { StatusCode : Z; Body : string + (string + list string); ETag : string }.

(** [Refresh] on a set and its tag: the number of networks and whether they
    changed. *)
Definition Refresh shuffle (resp : string + response) (g : GeoIPSet) (etag : string)
  : GeoIPSet * string * (geo_error + Z * bool) :=
  match resp with
  | inl e => (g, etag, inl (ErrIO e))
  | inr resp =>
      if StatusCode resp =? 304 then (g, etag, inr (GeoIPSet_Len g, false))
      else if negb (StatusCode resp =? 200) then (g, etag, inl (ErrHTTP (StatusCode resp)))
      else match Body resp with
           | inl e => (g, etag, inl (ErrIO e))
           | inr scan =>
               match load shuffle scan g with
               | (g', inl e) => (g', etag, inl e)
               | (g', inr n) => (g', ETag resp, inr (n, true))
               end
           end
  end.

(** The waits of [KeepFresh], in seconds: the next one and the next [retry]. *)
Definition geoIPRefresh : Z := 86400.
Definition geoIPRetryMin : Z := 15.
Definition geoIPRetryMax : Z := 300.
Definition geoIPRetryEmpty : Z := 30.
Definition next_wait (refreshed : bool) (g : GeoIPSet) (retry : Z) : Z * Z :=
  if refreshed then (geoIPRefresh, geoIPRetryMin)
  else
    let ceiling := if GeoIPSet_Len g =? 0 then geoIPRetryEmpty else geoIPRetryMax in
    let retry := if ceiling <? retry then ceiling else retry in
    (retry, if retry <? ceiling then retry * 2 else retry).

(** One turn of [KeepFresh]: the answers of the source and of its mirror. *)
Definition KeepFresh_turn shuffle (source mirror : string + response) (g : GeoIPSet) (etag : string) (retry : Z)
  : GeoIPSet * string * (Z * Z) :=
  match Refresh shuffle source g etag with
  | (g1, etag1, inr _) => (g1, etag1, next_wait true g1 retry)
  | (g1, etag1, inl _) =>
      match Refresh shuffle mirror g1 etag1 with
      | (g2, etag2, inr _) => (g2, etag2, next_wait true g2 retry)
      | (g2, etag2, inl _) => (g2, etag2, next_wait false g2 retry)
      end
  end.

(** ** Rules *)

Record SplitTunnelRule := mkRule {
  Type_ : string; Value : string; Action : string; Description : string;
  Enabled : bool; Priority : Z; Created : Z; Modified : Z
}.

Record SplitTunnelConfig := mkConfig {
  Mode : string; Rules : list SplitTunnelRule; DefaultAction : string;
  cfg_Enabled : bool; Version : string
}.

Record idxRange := mkIdx { r_lo : list Z; r_hi : list Z; r_idx : nat }.
Record kwRule := mkKw { kw_value : string; kw_idx : nat }.

Definition CachedFunc := string -> option (list IP).

Record ruleSnapshot := mkSnap {
  enabled : bool; s_byCountry : bool; s_geo : option nat;
  s_resolve : bool; s_cached : option CachedFunc;
  suffix : gmap string nat; exact : gmap string nat;
  keyword : list kwRule; ranges : list idxRange; direct : list bool
}.

Record verdict := mkVerdict { bypass : bool; expires : Z }.

(** [resolve] says whether a resolver is set; what it answers is an argument of
    the step in which it does. *)
Record SplitTunnelManager := mkManager {
  config : SplitTunnelConfig; rules : list SplitTunnelRule; snap : option ruleSnapshot;
  geo : option nat; resolve : bool; byCountry : bool; cached : option CachedFunc;
  verdicts : list (gmap string verdict);
  pending : gset string; learning : list (string * nat)
}.

Definition verdictShards : Z := 64.
Definition verdictTTL : Z := 60 * 1000000000.
Definition verdictMax : Z := 4096.
Definition appRulePriority : Z := 200.

(** *** The verdict cache *)

Definition newVerdictCache : list (gmap string verdict) := replicate (Z.to_nat verdictShards) ∅.

(** The hash loop of [shardFor]. *)
Definition shardFor (host : string) : nat :=
  Z.to_nat (foldl (fun h c => u32 (Z.lxor h c * 16777619)) 2166136261 (bytes_of_string host) mod verdictShards).

Definition verdict_get (c : list (gmap string verdict)) (host : string) : option verdict :=
  c !! shardFor host ≫= (.!! host).

Definition verdict_put (now : Z) (c : list (gmap string verdict)) (host : string) (v : verdict)
  : list (gmap string verdict) :=
  alter (fun m =>
    let m :=
      if verdictMax / verdictShards <=? Z.of_nat (size m) then
        let m := filter (fun x => ~ expires x.2 < now) m in
        if verdictMax / verdictShards <=? Z.of_nat (size m) then ∅ else m
      else m in
    <[host := v]> m) (shardFor host) c.

Definition verdict_len (c : list (gmap string verdict)) : Z :=
  foldl (fun total m => total + Z.of_nat (size m)) 0 c.
Definition verdict_reset (c : list (gmap string verdict)) : list (gmap string verdict) :=
  (fun _ => ∅) <$> c.

(** *** Ranges *)

(** The loops of [incAddr] and [decAddr], from the last byte on. *)
Fixpoint inc_loop (a : list Z) : list Z * bool :=
  match a with
  | [] => ([], false)
  | x :: a' =>
      let x := u8 (x + 1) in
      if negb (x =? 0) then (x :: a', true)
      else let '(a', ok) := inc_loop a' in (x :: a', ok)
  end.
Definition incAddr (a : list Z) : list Z * bool :=
  let '(r, ok) := inc_loop (rev a) in (rev r, ok).
Fixpoint dec_loop (a : list Z) : list Z :=
  match a with
  | [] => []
  | x :: a' => if negb (x =? 0) then (x - 1) :: a' else 255 :: dec_loop a'
  end.
Definition decAddr (a : list Z) : list Z := rev (dec_loop (rev a)).

Record rangeEvent := mkEvent { at_ : list Z; e_idx : nat; start : bool }.

Definition range_events (raw : list idxRange) : list rangeEvent :=
  raw ≫= fun r =>
    mkEvent (r_lo r) (r_idx r) true ::
    match incAddr (r_hi r) with
    | (next, true) => [mkEvent next (r_idx r) false]
    | _ => []
    end.

Definition event_before (a b : rangeEvent) : bool :=
  match bytes_compare (at_ a) (at_ b) with
  | Lt => true
  | Gt => false
  | Eq => start a && negb (start b)
  end.

(** [heap.Push] on the elements in order. *)
Fixpoint heap_Push (x : nat) (h : list nat) : list nat :=
  match h with
  | [] => [x]
  | y :: h' => if (x <? y)%nat then x :: h else y :: heap_Push x h'
  end.

(** The events at one address: those of a rule that starts go to the heap, those
    of a rule that ends are noted. *)
Definition take_event (s : list nat * list bool) (e : rangeEvent) : list nat * list bool :=
  let '(active, ended) := s in
  if start e then (heap_Push (e_idx e) active, ended)
  else (active, <[e_idx e := true]> ended).

Fixpoint drop_ended (active : list nat) (ended : list bool) : list nat :=
  match active with
  | i :: active' => if default false (ended !! i) then drop_ended active' ended else active
  | [] => []
  end.

(** The events at the first address, and the rest. *)
Fixpoint split_at (at0 : list Z) (events : list rangeEvent) : list rangeEvent * list rangeEvent :=
  match events with
  | e :: events' =>
      if decide (at_ e = at0) then let '(a, b) := split_at at0 events' in (e :: a, b) else ([], events)
  | [] => ([], [])
  end.

(** Appending a range, or making the last one longer when it is the same rule's
    and reaches up to it. *)
Definition append_range (out : list idxRange) (at0 end_ : list Z) (best : nat) : list idxRange :=
  match last out with
  | Some r =>
      if (r_idx r =? best)%nat && bool_decide (incAddr (r_hi r) = (at0, true))
      then removelast out ++ [mkIdx (r_lo r) end_ (r_idx r)]
      else out ++ [mkIdx at0 end_ best]
  | None => out ++ [mkIdx at0 end_ best]
  end.

(** The sweep over the sorted events, an address per turn. *)
Fixpoint sweep_ranges (fuel : nat) (events : list rangeEvent) (active : list nat) (ended : list bool)
    (out : list idxRange) : option (list idxRange) :=
  match events with
  | [] => Some out
  | e :: _ =>
      match fuel with
      | O => None
      | S fuel =>
          let at0 := at_ e in
          let '(now, later) := split_at at0 events in
          let '(active, ended) := foldl take_event (active, ended) now in
          let active := drop_ended active ended in
          match active with
          | [] => sweep_ranges fuel later active ended out
          | best :: _ =>
              let end_ := match later with
                          | e' :: _ => decAddr (at_ e')
                          | [] => replicate 16 255
                          end in
              sweep_ranges fuel later active ended (append_range out at0 end_ best)
          end
      end
  end.

(** [sort.Slice] may leave equal events in any order: [shuffle] again. *)
Definition flattenRanges (shuffle : list rangeEvent -> list rangeEvent) (raw : list idxRange)
    (ruleCount : nat) : list idxRange :=
  match raw with
  | [] => []
  | _ =>
      let events := SliceStable event_before (shuffle (range_events raw)) in
      default [] (sweep_ranges (length events) events [] (replicate ruleCount false) [])
  end.

(** *** Publishing *)

Section Manager.
Context `{UnicodeCase} (shuffle : list rangeEvent -> list rangeEvent).

Definition keyOf (r : SplitTunnelRule) : string * string :=
  let value := ToLower (Value r) in
  (Type_ r, if String.eqb (Type_ r) "domain" then TrimPrefix value "*." else value).

(** The range of an "ip" rule. *)
Definition rule_range (i : nat) (r : SplitTunnelRule) : option idxRange :=
  match ParseCIDR (Value r) with
  | Some network =>
      rg ← rangeOf network; Some (mkIdx (lo rg) (hi rg) i)
  | None =>
      ip ← ParseIP (Value r);
      a ← To16 ip; Some (mkIdx a a i)
  end.

Definition insert_new (k : string) (i : nat) (m : gmap string nat) : gmap string nat :=
  match m !! k with Some _ => m | None => <[k := i]> m end.

(** One turn of the loop of [publishLocked] over the rules. *)
Definition publish_rule (s : ruleSnapshot * list idxRange) (x : nat * SplitTunnelRule)
  : ruleSnapshot * list idxRange :=
  let '(sn, raw) := s in
  let '(i, r) := x in
  let sn := mkSnap (enabled sn) (s_byCountry sn) (s_geo sn) (s_resolve sn) (s_cached sn) (suffix sn)
              (exact sn) (keyword sn) (ranges sn) (direct sn ++ [String.eqb (Action r) "direct"]) in
  let set_maps su ex kw :=
    mkSnap (enabled sn) (s_byCountry sn) (s_geo sn) (s_resolve sn) (s_cached sn) su ex kw (ranges sn) (direct sn) in
  if negb (Enabled r) then (sn, raw)
  else if String.eqb (Type_ r) "domain" then
    (set_maps (insert_new (ToLower (TrimPrefix (Value r) "*.")) i (suffix sn)) (exact sn) (keyword sn), raw)
  else if String.eqb (Type_ r) "domain-exact" then
    (set_maps (suffix sn) (insert_new (ToLower (Value r)) i (exact sn)) (keyword sn), raw)
  else if String.eqb (Type_ r) "domain-keyword" then
    (set_maps (suffix sn) (exact sn) (keyword sn ++ [mkKw (ToLower (Value r)) i]), raw)
  else if String.eqb (Type_ r) "ip" then
    (sn, match rule_range i r with Some rg => raw ++ [rg] | None => raw end)
  else (sn, raw).

Definition snapshot_of (m : SplitTunnelManager) : ruleSnapshot :=
  let '(sn, raw) :=
    foldl publish_rule
      (mkSnap (cfg_Enabled (config m)) (byCountry m) (geo m) (resolve m) (cached m) ∅ ∅ [] [] [], [])
      (imap pair (rules m)) in
  mkSnap (enabled sn) (s_byCountry sn) (s_geo sn) (s_resolve sn) (s_cached sn) (suffix sn) (exact sn)
         (keyword sn) (flattenRanges shuffle raw (length (rules m))) (direct sn).

Definition with_snap (m : SplitTunnelManager) (s : option ruleSnapshot) : SplitTunnelManager :=
  mkManager (config m) (rules m) s (geo m) (resolve m) (byCountry m) (cached m) (verdicts m)
            (pending m) (learning m).
Definition publishLocked (m : SplitTunnelManager) : SplitTunnelManager := with_snap m (Some (snapshot_of m)).

Definition with_rules (m : SplitTunnelManager) (l : list SplitTunnelRule) : SplitTunnelManager :=
  mkManager (config m) l (snap m) (geo m) (resolve m) (byCountry m) (cached m) (verdicts m)
            (pending m) (learning m).
Definition with_config (m : SplitTunnelManager) (c : SplitTunnelConfig) : SplitTunnelManager :=
  mkManager c (rules m) (snap m) (geo m) (resolve m) (byCountry m) (cached m) (verdicts m)
            (pending m) (learning m).

(** The loop of [recompileLocked]: the first rule of each key. *)
Fixpoint unique_rules (seen : gset (string * string)) (l : list SplitTunnelRule) : list SplitTunnelRule :=
  match l with
  | [] => []
  | r :: l' =>
      if decide (keyOf r ∈ seen) then unique_rules seen l'
      else r :: unique_rules ({[keyOf r]} ∪ seen) l'
  end.
Definition recompileLocked (m : SplitTunnelManager) : SplitTunnelManager :=
  publishLocked (with_rules m (unique_rules ∅ (rules m))).

Definition sortRulesByPriority (l : list SplitTunnelRule) : list SplitTunnelRule :=
  SliceStable (fun a b => Priority b <? Priority a) l.

(** [append], sort, [recompileLocked]: what three of the operations do. *)
Definition append_rules (m : SplitTunnelManager) (l : list SplitTunnelRule) : SplitTunnelManager :=
  recompileLocked (with_rules m (sortRulesByPriority (rules m ++ l))).

(** *** The operations *)

Definition NewSplitTunnelManager : SplitTunnelManager :=
  mkManager (mkConfig "exclude" [] "tunnel" false "1.0") [] None None false true None newVerdictCache ∅ [].

Definition set_config (c : SplitTunnelConfig) (mode default_ : string) (en : bool) : SplitTunnelConfig :=
  mkConfig mode (Rules c) default_ en (Version c).

(** [LoadConfig]: [data] is the decoded file, or the error of reading or decoding
    it. *)
Definition LoadConfig (filename : string) (data : string + SplitTunnelConfig) (m : SplitTunnelManager)
  : SplitTunnelManager * option string :=
  if String.eqb filename "" then (m, None)
  else match data with
       | inl e => (m, Some e)
       | inr c =>
           let mode := if String.eqb (Mode c) "" then Mode (config m) else Mode c in
           let def := if String.eqb (DefaultAction c) "" then DefaultAction (config m) else DefaultAction c in
           (append_rules (with_config m (set_config (config m) mode def (cfg_Enabled (config m)))) (Rules c), None)
       end.

(** [AddRule]; [now1] and [now2] are its two readings of the clock. *)
Definition AddRule (rule : SplitTunnelRule) (now1 now2 : Z) (m : SplitTunnelManager) : SplitTunnelManager :=
  append_rules m [mkRule (Type_ rule) (Value rule) (Action rule) (Description rule) (Enabled rule)
                         (Priority rule) now1 now2].

Definition SetMode (mode : string) (m : SplitTunnelManager) : SplitTunnelManager :=
  with_config m (set_config (config m) mode (DefaultAction (config m)) (cfg_Enabled (config m))).
Definition SetEnabled (en : bool) (m : SplitTunnelManager) : SplitTunnelManager :=
  publishLocked (with_config m (set_config (config m) (Mode (config m)) (DefaultAction (config m)) en)).
Definition isEnabled (m : SplitTunnelManager) : bool := cfg_Enabled (config m).

Definition SetGeoIP (g : option nat) (m : SplitTunnelManager) : SplitTunnelManager :=
  publishLocked (mkManager (config m) (rules m) (snap m) g (resolve m) (byCountry m) (cached m) (verdicts m)
                           (pending m) (learning m)).
Definition SetCachedResolver (fn : option CachedFunc) (m : SplitTunnelManager) : SplitTunnelManager :=
  publishLocked (mkManager (config m) (rules m) (snap m) (geo m) (resolve m) (byCountry m) fn (verdicts m)
                           (pending m) (learning m)).
Definition with_verdicts (m : SplitTunnelManager) (v : list (gmap string verdict)) : SplitTunnelManager :=
  mkManager (config m) (rules m) (snap m) (geo m) (resolve m) (byCountry m) (cached m) v
            (pending m) (learning m).
Definition SetResolver (fn : bool) (m : SplitTunnelManager) : SplitTunnelManager :=
  let m := publishLocked (mkManager (config m) (rules m) (snap m) (geo m) fn (byCountry m) (cached m)
                                    (verdicts m) (pending m) (learning m)) in
  with_verdicts m (verdict_reset (verdicts m)).

(** *** Lookups *)

Context (geos : nat -> GeoIPSet).

Definition bypassIP (sn : ruleSnapshot) (ip : IP) : bool :=
  let addr := default (replicate 16 0) (To16 ip) in
  let country := match s_geo sn with
                 | Some g => s_byCountry sn && GeoIPSet_Contains (geos g) ip
                 | None => false
                 end in
  match ranges sn !! range_search r_hi (ranges sn) addr with
  | Some r => if not_above addr (r_lo r) then default false (direct sn !! r_idx r) else country
  | None => country
  end.

(** The loop of [looksLikeIP]. *)
Fixpoint ip_chars (l : list Z) : bool :=
  match l with
  | [] => true
  | c :: l' =>
      if c =? 58 then true
      else if negb (c =? 46) && ((c <? 48) || (57 <? c)) then false
      else ip_chars l'
  end.
Definition looksLikeIP (s : string) : bool :=
  if String.eqb s "" then false else ip_chars (bytes_of_string s).

(** The host name, then what is behind each of its dots in turn. *)
Fixpoint suffixes (fuel : nat) (h : list Z) : list (list Z) :=
  h :: match fuel with
       | O => []
       | S f => let dot := index_byte 46 h in
                if dot <? 0 then [] else suffixes f (zdrop (dot + 1) h)
       end.

Definition better (best : option nat) (i : nat) : option nat :=
  match best with
  | Some b => if (i <? b)%nat then Some i else best
  | None => Some i
  end.

(** The three lookups of [bypassHostReason]: the best rule so far. *)
Definition best_suffix (sn : ruleSnapshot) (hostname : string) (best : option nat) : option nat :=
  foldl (fun best h => match suffix sn !! string_of_bytes h with
                       | Some i => better best i
                       | None => best
                       end) best
        (suffixes (String.length hostname) (bytes_of_string hostname)).
Definition best_keyword (sn : ruleSnapshot) (hostname : string) (best : option nat) : option nat :=
  foldl (fun best k =>
           match best with
           | Some b => if (b <? kw_idx k)%nat then best
                       else if Contains hostname (kw_value k) then Some (kw_idx k) else best
           | None => if Contains hostname (kw_value k) then Some (kw_idx k) else best
           end) best (keyword sn).
Definition best_rule (sn : ruleSnapshot) (hostname : string) : option nat :=
  best_keyword sn hostname (best_suffix sn hostname (exact sn !! hostname)).

Definition recordCountry (now : Z) (hostname : string) (g : GeoIPSet) (ips : list IP) (m : SplitTunnelManager)
  : SplitTunnelManager * bool :=
  let b := existsb (GeoIPSet_Contains g) ips in
  (with_verdicts m (verdict_put now (verdicts m) hostname (mkVerdict b (now + verdictTTL))), b).

Definition with_learning (m : SplitTunnelManager) (p : gset string) (l : list (string * nat)) : SplitTunnelManager :=
  mkManager (config m) (rules m) (snap m) (geo m) (resolve m) (byCountry m) (cached m) (verdicts m) p l.

Definition learnInBackground (hostname : string) (g : nat) (m : SplitTunnelManager) : SplitTunnelManager :=
  if decide (hostname ∈ pending m) then m
  else with_learning m ({[hostname]} ∪ pending m) ((hostname, g) :: learning m).

(** The end of a background resolution: what the resolver answered, [None] for
    an error.  The goroutine is the [i]-th running one. *)
Definition learn_done (now : Z) (i : nat) (ips : option (list IP)) (m : SplitTunnelManager) : SplitTunnelManager :=
  match learning m !! i with
  | None => m
  | Some (hostname, g) =>
      let m := match ips with
               | Some ips => (recordCountry now hostname (geos g) ips m).1
               | None => m
               end in
      with_learning m (pending m ∖ {[hostname]}) (delete i (learning m))
  end.

(** [byCountryVerdict]; [now] is the clock at the test and [now2] when a verdict
    is recorded. *)
Definition byCountryVerdict (now now2 : Z) (sn : ruleSnapshot) (hostname : string) (m : SplitTunnelManager)
  : SplitTunnelManager * bool :=
  if negb (s_byCountry sn) then (m, false)
  else
    let fresh := match verdict_get (verdicts m) hostname with
                 | Some v => if now <? expires v then Some (bypass v) else None
                 | None => None
                 end in
    match fresh with
    | Some b => (m, b)
    | None =>
        match s_geo sn with
        | None => (m, false)
        | Some g =>
            if GeoIPSet_Len (geos g) =? 0 then (m, false)
            else match s_cached sn ≫= fun f => f hostname with
                 | Some ips => recordCountry now2 hostname (geos g) ips m
                 | None => (if s_resolve sn then learnInBackground hostname g m else m, false)
                 end
        end
    end.

Definition bypassHostReason (now now2 : Z) (sn : ruleSnapshot) (hostname : string) (m : SplitTunnelManager)
  : SplitTunnelManager * (bool * bool) :=
  let hostname := ToLower (TrimSuffix hostname ".") in
  match best_rule sn hostname with
  | Some b => (m, (default false (direct sn !! b), false))
  | None => let '(m, d) := byCountryVerdict now now2 sn hostname m in (m, (d, true))
  end.
Definition bypassHost now now2 sn hostname m : SplitTunnelManager * bool :=
  let '(m, (d, _)) := bypassHostReason now now2 sn hostname m in (m, d).

Definition BypassDecision (now now2 : Z) (addr : string) (m : SplitTunnelManager)
  : SplitTunnelManager * (bool * bool) :=
  match snap m with
  | None => (m, (false, false))
  | Some sn =>
      if negb (enabled sn) then (m, (false, false))
      else match (if looksLikeIP addr then ParseIP addr else None) with
           | Some ip => (m, (bypassIP sn ip, false))
           | None => bypassHostReason now now2 sn addr m
           end
  end.

Definition ShouldBypass (now now2 : Z) (addr : string) (m : SplitTunnelManager) : SplitTunnelManager * bool :=
  match snap m with
  | None => (m, false)
  | Some sn =>
      if negb (enabled sn) then (m, false)
      else match (if looksLikeIP addr then ParseIP addr else None) with
           | Some ip => (m, bypassIP sn ip)
           | None => bypassHost now now2 sn addr m
           end
  end.

Definition ShouldBypassByIP (ipStr : string) (m : SplitTunnelManager) : bool :=
  match ParseIP ipStr with
  | None => false
  | Some ip =>
      match snap m with
      | Some sn => enabled sn && bypassIP sn ip
      | None => false
      end
  end.

Definition ShouldBypassByHostname (now now2 : Z) (hostname : string) (m : SplitTunnelManager)
  : SplitTunnelManager * bool :=
  match snap m with
  | Some sn => if enabled sn then bypassHost now now2 sn hostname m else (m, false)
  | None => (m, false)
  end.

(** *** Rules of the application *)

Record appRule := mkApp {
  Kind : string; Suffix : string; Keyword : string; Domain : string; CIDR : string; a_Action : string
}.

(** [strings.EqualFold(s, "DIRECT")]: only the ASCII letters fold to those of the
    word. *)
Definition is_direct (s : string) : bool :=
  bool_decide (map upper_byte (bytes_of_string s) = bytes_of_string "DIRECT").

Definition convert_rule (r : appRule) : option SplitTunnelRule :=
  let action := ToUpper (a_Action r) in
  if String.eqb action "REJECT" || String.eqb action "BLOCK" then None
  else
    let action := if String.eqb action "DIRECT" then "direct"%string else "tunnel"%string in
    let '(kind, value) :=
      if String.eqb (Kind r) "domain-suffix" then ("domain"%string, Suffix r)
      else if String.eqb (Kind r) "domain-exact" then ("domain-exact"%string, Domain r)
      else if String.eqb (Kind r) "domain-keyword" then ("domain-keyword"%string, Keyword r)
      else if String.eqb (Kind r) "ip-cidr" then ("ip"%string, CIDR r)
      else (""%string, ""%string) in
    if String.eqb value "" then None
    else Some (mkRule kind value action "" true appRulePriority 0 0).

(** The loop of [LoadAppRules]. *)
Fixpoint convert_rules (l : list appRule) (byC : bool) : bool * list SplitTunnelRule :=
  match l with
  | [] => (byC, [])
  | r :: l' =>
      if String.eqb (Kind r) "geoip" then convert_rules l' (is_direct (a_Action r))
      else let '(b, rs) := convert_rules l' byC in
           (b, match convert_rule r with Some x => x :: rs | None => rs end)
  end.

Definition LoadAppRules (data : string) (parsed : string + list appRule) (m : SplitTunnelManager)
  : SplitTunnelManager * option string :=
  if String.eqb (TrimSpace data) "" then (m, None)
  else match parsed with
       | inl e => (m, Some e)
       | inr l =>
           let '(byC, rs) := convert_rules l false in
           let m := recompileLocked
                      (mkManager (config m) (sortRulesByPriority (rules m ++ rs)) (snap m) (geo m) (resolve m)
                                 byC (cached m) (verdicts m) (pending m) (learning m)) in
           (with_verdicts m (verdict_reset (verdicts m)), None)
       end.

Definition default_rule (value desc : string) : SplitTunnelRule :=
  mkRule "ip" value "direct" desc true 100 0 0.
(** [CreateDefaultRules]: [now] is the clock, read twice by each [AddRule]. *)
Definition CreateDefaultRules (now : Z) (m : SplitTunnelManager) : SplitTunnelManager :=
  let m := AddRule (default_rule "192.168.0.0/16" "Local network (192.168.x.x)") now now m in
  let m := AddRule (default_rule "10.0.0.0/8" "Local network (10.x.x.x)") now now m in
  let m := AddRule (default_rule "172.16.0.0/12" "Local network (172.16-31.x.x)") now now m in
  AddRule (default_rule "127.0.0.0/8" "Localhost") now now m.

End Manager.
End SplitTunnel.
