(* ===== verification/SplitTunnelRanges.v ===== *)
(** The range tables of split tunnelling: the arithmetic on 16-byte addresses,
    the lookup by binary search, and the sweep that makes disjoint ranges out of
    overlapping rules, which gives every address to the first rule that covers
    it. *)

From S2P Require Import Prelude GoStr GoBytes GoSort NetIP SplitTunnel.
Import SplitTunnel.

(** ** Addresses as numbers *)

Definition addr16 (a : list Z) : Prop := len a = 16 /\ Forall is_byte a.
Definition top : Z := 2 ^ 128.

Lemma addr16_range a : addr16 a -> 0 <= bytes_val a < top.
Proof. intros [Hl Hb]. pose proof (bytes_val_range a Hb) as H. by rewrite Hl in H. Qed.

Lemma addr16_inj a b : addr16 a -> addr16 b -> bytes_val a = bytes_val b -> a = b.
Proof. intros [Hla Ha] [Hlb Hb]. apply bytes_val_inj; [done|done|by rewrite Hla, Hlb]. Qed.

Lemma addr16_compare a b : addr16 a -> addr16 b -> bytes_compare a b = (bytes_val a ?= bytes_val b).
Proof. intros [Hla Ha] [Hlb Hb]. apply bytes_compare_val; [done|done|by rewrite Hla, Hlb]. Qed.

(** The loops run from the last byte on: the number of a reversed array. *)
Definition le_val (l : list Z) : Z := foldr (fun x v => x + 256 * v) 0 l.

Lemma le_val_rev l : bytes_val (rev l) = le_val l.
Proof.
  induction l as [|x l IH]; [done|]. cbn [rev le_val foldr].
  rewrite bytes_val_app, IH. change (len [x]) with 1. change (bytes_val [x]) with x.
  unfold le_val. lia.
Qed.

Lemma inc_loop_spec l : Forall is_byte l ->
  let '(l', ok) := inc_loop l in
  len l' = len l /\ Forall is_byte l' /\ le_val l' + (if ok then 0 else 256 ^ len l) = le_val l + 1.
Proof.
  induction 1 as [|x l Hx Hl IH]; cbn [inc_loop]; [done|].
  unfold is_byte in Hx. destruct (Z.eqb_spec (u8 (x + 1)) 0) as [E|E]; cbn [negb].
  - destruct (inc_loop l) as [l' ok]. destruct IH as (Hlen & Hb & Hv).
    assert (x = 255) as -> by (unfold u8 in E; destruct (decide (x = 255)); [done|rewrite Z.mod_small in E; lia]).
    rewrite !zlen_cons, Hlen. split_and!; [done|constructor; [apply u8_range|done]|].
    rewrite E. cbn [le_val foldr]. fold (le_val l') (le_val l).
    rewrite Z.pow_add_r by (pose proof (zlen_nonneg l); lia). destruct ok; lia.
  - assert (x < 255) by (destruct (decide (x = 255)) as [->|]; [done|lia]).
    rewrite !zlen_cons. split_and!; [done|constructor; [apply u8_range|done]|].
    cbn [le_val foldr]. rewrite u8_small by lia. lia.
Qed.

Lemma incAddr_spec a : addr16 a ->
  match incAddr a with
  | (b, true) => addr16 b /\ bytes_val b = bytes_val a + 1
  | (_, false) => bytes_val a = top - 1
  end.
Proof.
  intros Ha. pose proof (addr16_range a Ha) as Hr. destruct Ha as [Hl Hb].
  unfold incAddr. pose proof (inc_loop_spec (rev a)) as H.
  destruct (inc_loop (rev a)) as [r ok]. destruct H as (Hlen & Hbr & Hv); [by apply Forall_rev|].
  rewrite <- !le_val_rev, rev_involutive in Hv.
  assert (Hla : len (rev a) = 16) by (unfold zlen in *; by rewrite length_rev). rewrite Hla in *.
  assert (Hrr : addr16 (rev r)) by (split; [unfold zlen in *; by rewrite length_rev|by apply Forall_rev]).
  pose proof (addr16_range _ Hrr). destruct ok; [split; [done|lia]|]. unfold top in *.
  change (256 ^ 16) with (2 ^ 128) in Hv. lia.
Qed.

Lemma dec_loop_spec l : Forall is_byte l -> 0 < le_val l ->
  len (dec_loop l) = len l /\ Forall is_byte (dec_loop l) /\ le_val (dec_loop l) = le_val l - 1.
Proof.
  induction 1 as [|x l Hx Hl IH]; cbn [dec_loop le_val foldr]; [lia|]. fold (le_val l).
  unfold is_byte in Hx. intros Hp. destruct (Z.eqb_spec x 0) as [->|]; cbn [negb].
  - destruct IH as (H1 & H2 & H3); [lia|]. rewrite !zlen_cons, H1. cbn [le_val foldr]. fold (le_val (dec_loop l)).
    split_and!; [done|by constructor|lia].
  - rewrite !zlen_cons. split_and!; [done|constructor; [split; lia|done]|]. cbn [le_val foldr]. fold (le_val l). lia.
Qed.

Lemma decAddr_spec a : addr16 a -> 0 < bytes_val a ->
  addr16 (decAddr a) /\ bytes_val (decAddr a) = bytes_val a - 1.
Proof.
  intros [Hl Hb] Hp. unfold decAddr.
  destruct (dec_loop_spec (rev a)) as (H1 & H2 & H3); [by apply Forall_rev|by rewrite <- le_val_rev, rev_involutive|].
  rewrite le_val_rev, H3, <- le_val_rev, rev_involutive. split; [|done].
  split; [|by apply Forall_rev]. unfold zlen in *. by rewrite length_rev, H1, length_rev.
Qed.

(** ** Tables *)

Definition covers (r : idxRange) (x : Z) : Prop := bytes_val (r_lo r) <= x <= bytes_val (r_hi r).

Definition range_ok (r : idxRange) : Prop :=
  addr16 (r_lo r) /\ addr16 (r_hi r) /\ bytes_val (r_lo r) <= bytes_val (r_hi r).

(** The rule of least index among those that cover an address. *)
Definition is_best (raw : list idxRange) (x : Z) (i : nat) : Prop :=
  (exists r, r ∈ raw /\ r_idx r = i /\ covers r x) /\
  forall r, r ∈ raw -> covers r x -> (i <= r_idx r)%nat.

Definition below (r s : idxRange) : Prop := bytes_val (r_hi r) < bytes_val (r_lo s).

Definition table_ok (raw out : list idxRange) (p : Z) : Prop :=
  StronglySorted below out /\
  Forall (fun r => range_ok r /\ bytes_val (r_hi r) < p) out /\
  forall x i, 0 <= x < p -> is_best raw x i <-> exists r, r ∈ out /\ r_idx r = i /\ covers r x.

Lemma is_best_unique raw x i j : is_best raw x i -> is_best raw x j -> i = j.
Proof.
  intros [(r & Hr & <- & Hc) Hmin] [(r' & Hr' & <- & Hc') Hmin'].
  specialize (Hmin r' Hr' Hc'). specialize (Hmin' r Hr Hc). lia.
Qed.

(** The binary search splits a list in the order of the upper ends. *)
Lemma range_search_spec {R} (upper : R -> list Z) (rs : list R) a :
  Forall (fun r => addr16 (upper r)) rs -> addr16 a ->
  StronglySorted (fun r s => bytes_val (upper r) <= bytes_val (upper s)) rs ->
  let i := range_search upper rs a in
  (forall k r, rs !! k = Some r -> (k < i)%nat -> bytes_val (upper r) < bytes_val a) /\
  (forall k r, rs !! k = Some r -> (i <= k)%nat -> bytes_val a <= bytes_val (upper r)).
Proof.
  intros Hok Ha Hs i.
  set (f := fun k => match rs !! k with Some r => match bytes_compare (upper r) a with Lt => false | _ => true end | None => true end).
  assert (Hf : forall k r, rs !! k = Some r -> f k = (bytes_val a <=? bytes_val (upper r))).
  { intros k r Hk. unfold f. rewrite Hk. rewrite Forall_lookup in Hok. pose proof (Hok k r Hk) as Hh.
    rewrite addr16_compare by done. unfold Z.leb. rewrite (Z.compare_antisym (bytes_val a)). by destruct (_ ?= _). }
  destruct (Search_spec (length rs) f) as (H1 & H2 & H3).
  { intros k j Hkj Hk. destruct (rs !! j) as [s|] eqn:Ej; [|unfold f; by rewrite Ej].
    destruct (lookup_lt_is_Some_2 rs k) as [r Er]; [apply lookup_lt_Some in Ej; lia|].
    rewrite (Hf _ _ Ej). rewrite (Hf _ _ Er) in Hk. apply Z.leb_le in Hk. apply Z.leb_le.
    destruct (decide (k = j)) as [->|]; [by simplify_eq|].
    pose proof (StronglySorted_lookup _ _ k j r s Hs Er Ej ltac:(lia)). cbn in *. lia. }
  split; intros k r Hk Hi.
  - specialize (H2 k Hi). rewrite (Hf _ _ Hk) in H2. by apply Z.leb_gt in H2.
  - specialize (H3 k (conj Hi (lookup_lt_Some _ _ _ Hk))). rewrite (Hf _ _ Hk) in H3. by apply Z.leb_le in H3.
Qed.

Lemma not_above_le a b : addr16 a -> addr16 b -> not_above a b = true <-> bytes_val b <= bytes_val a.
Proof.
  intros. unfold not_above. rewrite addr16_compare by done. destruct (Z.compare_spec (bytes_val b) (bytes_val a)); split; done || lia.
Qed.

Lemma below_by_hi l : StronglySorted below l -> Forall range_ok l ->
  StronglySorted (fun r s => bytes_val (r_hi r) <= bytes_val (r_hi s)) l.
Proof.
  induction 1 as [|r l _ IH Hr]; intros Hok; constructor; apply Forall_cons in Hok as [_ Hok]; [by apply IH|].
  rewrite Forall_forall in *. intros s Hs. specialize (Hr s Hs). destruct (Hok s Hs) as (_ & _ & ?). unfold below in Hr. lia.
Qed.

(** The binary search finds the range of a table that covers an address. *)
Lemma table_lookup (ranges : list idxRange) a :
  StronglySorted below ranges -> Forall range_ok ranges -> addr16 a ->
  (forall r, r ∈ ranges -> covers r (bytes_val a) ->
     ranges !! range_search r_hi ranges a = Some r) /\
  (forall r, ranges !! range_search r_hi ranges a = Some r -> not_above a (r_lo r) = true ->
     r ∈ ranges /\ covers r (bytes_val a)).
Proof.
  intros Hs Hok Ha. rewrite Forall_forall in Hok.
  destruct (range_search_spec r_hi ranges a) as [Hlt Hge]; [|done|by apply below_by_hi, Forall_forall|].
  { apply Forall_forall. intros r Hr. by destruct (Hok r Hr) as (_ & ? & _). }
  set (k := range_search r_hi ranges a) in *. split.
  - intros r [j Hj]%list_elem_of_lookup_1 [Hc1 Hc2]. assert (j = k) as <-; [|done].
    destruct (decide (j < k)%nat) as [Hjk|]; [specialize (Hlt j r Hj Hjk); lia|].
    destruct (decide (k < j)%nat) as [Hkj|]; [|lia].
    destruct (lookup_lt_is_Some_2 ranges k) as [s Hsk]; [apply lookup_lt_Some in Hj; lia|].
    pose proof (StronglySorted_lookup _ _ k j s r Hs Hsk Hj Hkj) as Hb. unfold below in Hb.
    specialize (Hge k s Hsk ltac:(lia)). lia.
  - intros r Hk Hna. pose proof (list_elem_of_lookup_2 _ _ _ Hk) as Hin. split; [done|].
    destruct (Hok r Hin) as (? & ? & ?). apply not_above_le in Hna; [|done..]. split; [done|]. by eapply Hge.
Qed.

Lemma removelast_last {A} (l : list A) x : last l = Some x -> l = removelast l ++ [x].
Proof.
  destruct l as [|y l _] using rev_ind; [done|]. rewrite last_snoc. intros [= ->].
  by rewrite removelast_last.
Qed.

Lemma table_extend_none raw out p p' :
  table_ok raw out p -> p <= p' -> (forall x i, p <= x < p' -> ~ is_best raw x i) ->
  table_ok raw out p'.
Proof.
  intros (Hs & Hok & Hx) Hp Hno. split_and!; [done| |].
  - eapply Forall_impl; [exact Hok|]. cbn. intros r [? ?]. split; [done|lia].
  - intros x i Hr. destruct (decide (x < p)); [apply Hx; lia|]. split.
    + intros Hb. destruct (Hno x i); [lia|done].
    + intros (r & Hin & <- & Hc). rewrite Forall_forall in Hok. destruct (Hok r Hin). unfold covers in Hc. lia.
Qed.

(** Handing the addresses from [p] up to [p'] to their best rule. *)
Lemma append_range_ok raw out p p' at0 end_ best :
  table_ok raw out p -> addr16 at0 -> addr16 end_ -> bytes_val at0 = p -> bytes_val end_ = p' - 1 -> p < p' ->
  (forall x, p <= x < p' -> is_best raw x best) ->
  table_ok raw (append_range out at0 end_ best) p'.
Proof.
  intros (Hs & Hok & Hx) Ha He Hva Hve Hp Hbest.
  assert (Hnew : forall l' r0, r_idx r0 = best -> range_ok r0 -> bytes_val (r_hi r0) = p' - 1 ->
    bytes_val (r_lo r0) <= p -> StronglySorted below (l' ++ [r0]) ->
    Forall (fun r => range_ok r /\ bytes_val (r_hi r) < p) l' ->
    (forall x i, 0 <= x < p -> (exists r, r ∈ out /\ r_idx r = i /\ covers r x) <->
                              exists r, r ∈ l' ++ [r0] /\ r_idx r = i /\ covers r x) ->
    table_ok raw (l' ++ [r0]) p').
  { intros l' r0 Hi Hr0 Hhi Hlo Hsort Hl' Hsame. split_and!; [done| |].
    - apply Forall_app. split; [|constructor; [split; [done|lia]|constructor]].
      eapply Forall_impl; [exact Hl'|]. cbn. intros r [? ?]. split; [done|lia].
    - intros x i Hr. destruct (decide (x < p)); [rewrite Hx by lia; apply Hsame; lia|]. split.
      + intros Hb. exists r0. split_and!; [apply elem_of_app; right; by apply list_elem_of_singleton| |unfold covers; lia].
        rewrite Hi. apply (is_best_unique raw x); [apply Hbest; lia|done].
      + intros (r & Hin & <- & Hc). apply elem_of_app in Hin as [Hin| ->%list_elem_of_singleton].
        * rewrite Forall_forall in Hl'. destruct (Hl' r Hin). unfold covers in Hc. lia.
        * rewrite Hi. apply Hbest. lia. }
  assert (Hr0 : range_ok (mkIdx at0 end_ best)) by (split_and!; [done|done|cbn [r_lo r_hi]; lia]).
  assert (Happ : table_ok raw (out ++ [mkIdx at0 end_ best]) p').
  { apply Hnew; [done|done|done|cbn [r_lo r_hi]; lia| |done|].
    - apply StronglySorted_app. split_and!; [|done|repeat constructor].
      intros r s Hin ->%list_elem_of_singleton. rewrite Forall_forall in Hok. destruct (Hok r Hin).
      unfold below. cbn [r_lo r_hi]. lia.
    - intros x i Hr. setoid_rewrite elem_of_app. setoid_rewrite list_elem_of_singleton. split; [naive_solver|].
      intros (r & [Hin| ->] & Hi & Hc); [by exists r|]. unfold covers in Hc. cbn [r_lo r_hi] in Hc. lia. }
  unfold append_range. destruct (last out) as [r|] eqn:Hlast; [|done].
  destruct (_ && _) eqn:E; [|done]. apply andb_prop in E as [Ei Einc%bool_decide_eq_true].
  apply Nat.eqb_eq in Ei. apply removelast_last in Hlast. set (l' := removelast out) in *. rewrite Hlast in Hs, Hok.
  apply Forall_app in Hok as [Hl' [[(Hr1 & Hr2 & Hr3) Hr4] _]%Forall_cons].
  pose proof (incAddr_spec (r_hi r) Hr2) as Hinc. rewrite Einc in Hinc. destruct Hinc as [_ Hinc].
  apply Hnew; [done|split_and!; [done|done|cbn [r_lo r_hi]; lia]|done|cbn [r_lo r_hi]; lia| |done|].
  - apply StronglySorted_app in Hs as (Hcross & Hsl & _). apply StronglySorted_app. split_and!; [|done|repeat constructor].
    intros s r' Hin ->%list_elem_of_singleton. apply (Hcross s r Hin). by apply list_elem_of_singleton.
  - intros x i Hr. rewrite Hlast. setoid_rewrite elem_of_app. setoid_rewrite list_elem_of_singleton. split.
    + intros (s & [Hin| ->] & Hi & Hc); [exists s; naive_solver|]. eexists. split_and!; [by right|done|].
      unfold covers in *. cbn [r_lo r_hi]. lia.
    + intros (s & [Hin| ->] & Hi & Hc); [exists s; naive_solver|]. exists r. split_and!; [by right|done|].
      unfold covers in *. cbn [r_lo r_hi] in Hc. lia.
Qed.

(** ** The sweep *)

Lemma heap_Push_Permutation x h : heap_Push x h ≡ₚ x :: h.
Proof.
  induction h as [|y h IH]; cbn [heap_Push]; [done|]. destruct (x <? y)%nat; [done|]. rewrite IH. apply Permutation_swap.
Qed.

Lemma heap_Push_sorted x h : StronglySorted le h -> StronglySorted le (heap_Push x h).
Proof.
  induction 1 as [|y h Hs IH Hy]; cbn [heap_Push]; [repeat constructor|]. destruct (Nat.ltb_spec x y).
  - constructor; [by constructor|]. constructor; [lia|]. eapply Forall_impl; [exact Hy|]. cbn. lia.
  - constructor; [done|]. rewrite heap_Push_Permutation. constructor; [lia|done].
Qed.

(** What the events at one address do to the heap and to the ended rules. *)
Lemma take_events l active ended active' ended' :
  foldl take_event (active, ended) l = (active', ended') ->
  StronglySorted le active -> Forall (fun e => (e_idx e < length ended)%nat) l ->
  StronglySorted le active' /\ length ended' = length ended /\
  (forall i, i ∈ active' <-> i ∈ active \/ exists e, e ∈ l /\ e_idx e = i /\ start e = true) /\
  (forall i, ended' !! i = Some true <-> ended !! i = Some true \/ exists e, e ∈ l /\ e_idx e = i /\ start e = false).
Proof.
  revert active ended. induction l as [|e l IH]; intros active ended; cbn [foldl].
  - intros [= <- <-] Hs _. split_and!; [done|done| |]; intros i; split; [by left|..|by left|];
      intros [?|(e & ?%not_elem_of_nil & _)]; done.
  - intros Hf Hs [He Hl]%Forall_cons. unfold take_event in Hf at 2. destruct (start e) eqn:Es.
    + destruct (IH _ _ Hf) as (H1 & H2 & H3 & H4); [by apply heap_Push_sorted|done|].
      split_and!; [done|done| |]; intros i.
      * rewrite H3, heap_Push_Permutation, elem_of_cons. setoid_rewrite elem_of_cons. naive_solver.
      * rewrite H4. setoid_rewrite elem_of_cons. split; [naive_solver|].
        intros [?|(e' & [->|?] & ? & ?)]; [by left|congruence|naive_solver].
    + destruct (IH _ _ Hf) as (H1 & H2 & H3 & H4); [done|by rewrite length_insert|].
      rewrite length_insert in H2. split_and!; [done|done| |]; intros i.
      * rewrite H3. setoid_rewrite elem_of_cons. split; [naive_solver|].
        intros [?|(e' & [->|?] & ? & ?)]; [by left|congruence|naive_solver].
      * rewrite H4. setoid_rewrite elem_of_cons. destruct (decide (i = e_idx e)) as [->|Hne].
        -- rewrite list_lookup_insert_eq by done. naive_solver.
        -- rewrite list_lookup_insert_ne by done. naive_solver.
Qed.

Lemma drop_ended_spec active ended :
  StronglySorted le active ->
  StronglySorted le (drop_ended active ended) /\
  (forall i, i ∈ drop_ended active ended -> i ∈ active) /\
  (forall i, i ∈ active -> ended !! i <> Some true -> i ∈ drop_ended active ended) /\
  (forall i l, drop_ended active ended = i :: l -> ended !! i <> Some true).
Proof.
  induction 1 as [|x l Hs IH Hx]; cbn; [split_and!; done || constructor|].
  destruct (ended !! x) as [[|]|] eqn:E; cbn [default from_option id].
  - destruct IH as (H1 & H2 & H3 & H4). split_and!; [done| | |done].
    + intros i Hi. apply elem_of_cons. right. by apply H2.
    + intros i [->|Hi]%elem_of_cons; [congruence|by apply H3].
  - split_and!; [by constructor|done|done|]. intros i l' [= <- _]. by rewrite E.
  - split_and!; [by constructor|done|done|]. intros i l' [= <- _]. by rewrite E.
Qed.

(** The address of the first event left, or the end of the address space. *)
Definition next (events : list rangeEvent) : Z :=
  match events with e :: _ => bytes_val (at_ e) | [] => top end.

Definition event_ok (e : rangeEvent) : Prop := addr16 (at_ e).
Definition by_address (a b : rangeEvent) : Prop := bytes_val (at_ a) <= bytes_val (at_ b).

Lemma split_at_spec q events now later :
  split_at q events = (now, later) -> addr16 q -> Forall event_ok events -> StronglySorted by_address events ->
  bytes_val q <= next events ->
  events = now ++ later /\ Forall (fun e => at_ e = q) now /\
  Forall (fun e => bytes_val q < bytes_val (at_ e)) later.
Proof.
  intros E Hq Hok Hs Hn. revert now later E Hn. induction Hs as [|e events Hs IH Hle]; intros now later E Hn; cbn in E.
  - by simplify_eq.
  - apply Forall_cons in Hok as [He Hok]. cbn in Hn. destruct (decide (at_ e = q)) as [Heq|Hne].
    + destruct (split_at q events) as [a b] eqn:Es. injection E as <- <-.
      destruct (IH Hok a b eq_refl) as (-> & Ha & Hb).
      { destruct events as [|e' events]; cbn; [pose proof (addr16_range q Hq); lia|].
        apply Forall_cons in Hle as [Hle _]. unfold by_address in Hle. by rewrite Heq in Hle. }
      split_and!; [done|by constructor|done].
    + injection E as <- <-. split_and!; [done|constructor|].
      assert (bytes_val q < bytes_val (at_ e)).
      { destruct (decide (bytes_val q = bytes_val (at_ e))) as [Hv|]; [|lia].
        destruct Hne. symmetry. by apply addr16_inj. }
      constructor; [done|]. eapply Forall_impl; [exact Hle|]. unfold by_address. cbn. lia.
Qed.

Section Sweep.
Context (raw : list idxRange) (n : nat).
Context (Hraw : Forall range_ok raw) (Hidx : NoDup (r_idx <$> raw)).
Context (Hn : Forall (fun r => (r_idx r < n)%nat) raw).

Lemma raw_ok r : r ∈ raw -> range_ok r.
Proof using Hraw. rewrite Forall_forall in Hraw. apply Hraw. Qed.

Lemma raw_unique r s : r ∈ raw -> s ∈ raw -> r_idx r = r_idx s -> r = s.
Proof using Hidx.
  intros [i Hi]%list_elem_of_lookup_1 [j Hj]%list_elem_of_lookup_1 E.
  assert (i = j) as ->; [|by simplify_eq].
  eapply (NoDup_lookup _ _ _ (r_idx r) Hidx); rewrite list_lookup_fmap; [by rewrite Hi|by rewrite Hj; cbn; rewrite E].
Qed.

Lemma elem_of_range_events e :
  e ∈ range_events raw <-> exists r, r ∈ raw /\
    (e = mkEvent (r_lo r) (r_idx r) true \/
     exists b, incAddr (r_hi r) = (b, true) /\ e = mkEvent b (r_idx r) false).
Proof.
  unfold range_events. rewrite list_elem_of_bind. split.
  - intros (r & He & Hr). exists r. split; [done|]. apply elem_of_cons in He as [->|He]; [by left|]. right.
    destruct (incAddr (r_hi r)) as [b [|]]; [|by apply not_elem_of_nil in He].
    apply list_elem_of_singleton in He. by exists b.
  - intros (r & Hr & He). exists r. split; [|done]. apply elem_of_cons.
    destruct He as [->|(b & -> & ->)]; [by left|right]. by apply list_elem_of_singleton.
Qed.

(** An event is a rule starting at its lower end or ending behind its upper one. *)
Lemma event_of e : e ∈ range_events raw ->
  event_ok e /\ (e_idx e < n)%nat /\ exists r, r ∈ raw /\ r_idx r = e_idx e /\
  bytes_val (at_ e) = if start e then bytes_val (r_lo r) else bytes_val (r_hi r) + 1.
Proof using Hraw Hn.
  intros (r & Hr & He)%elem_of_range_events. destruct (raw_ok r Hr) as (H1 & H2 & H3).
  assert ((r_idx r < n)%nat) by (rewrite Forall_forall in Hn; by apply Hn).
  destruct He as [->|(b & Hb & ->)]; [split_and!; [done|done|by exists r]|].
  pose proof (incAddr_spec _ H2) as Hi. rewrite Hb in Hi. destruct Hi. split_and!; [done|done|by exists r].
Qed.

Lemma start_event r : r ∈ raw -> exists e, e ∈ range_events raw /\ e_idx e = r_idx r /\
  start e = true /\ bytes_val (at_ e) = bytes_val (r_lo r).
Proof. intros Hr. exists (mkEvent (r_lo r) (r_idx r) true). rewrite elem_of_range_events. naive_solver. Qed.

Lemma end_event r : r ∈ raw -> bytes_val (r_hi r) + 1 < top -> exists e, e ∈ range_events raw /\
  e_idx e = r_idx r /\ start e = false /\ bytes_val (at_ e) = bytes_val (r_hi r) + 1.
Proof using Hraw.
  intros Hr Ht. destruct (raw_ok r Hr) as (_ & H2 & _). pose proof (incAddr_spec _ H2) as Hi.
  destruct (incAddr (r_hi r)) as [b [|]] eqn:Hb; [|lia]. destruct Hi as [_ Hi].
  exists (mkEvent b (r_idx r) false). rewrite elem_of_range_events. naive_solver.
Qed.

(** The state of the sweep once every event before [p] is taken. *)
Definition sweep_inv (p : Z) (events : list rangeEvent) (active : list nat) (ended : list bool) : Prop :=
  StronglySorted by_address events /\
  (forall e, e ∈ events <-> e ∈ range_events raw /\ p <= bytes_val (at_ e)) /\
  StronglySorted le active /\ length ended = n /\
  (forall i, ended !! i = Some true <-> exists r, r ∈ raw /\ r_idx r = i /\ bytes_val (r_hi r) + 1 < p) /\
  (forall i, i ∈ active -> exists r, r ∈ raw /\ r_idx r = i /\ bytes_val (r_lo r) < p) /\
  (forall r, r ∈ raw -> bytes_val (r_lo r) < p -> p <= bytes_val (r_hi r) + 1 -> r_idx r ∈ active).

Lemma next_range events : Forall event_ok events -> 0 <= next events <= top.
Proof. destruct events as [|e events]; cbn; [done|]. intros [He _]%Forall_cons. apply addr16_range in He. lia. Qed.

Lemma next_least events e : StronglySorted by_address events -> e ∈ events -> next events <= bytes_val (at_ e).
Proof.
  destruct 1 as [|e0 events Hs He]; [by intros ?%not_elem_of_nil|].
  intros [->|Hin]%elem_of_cons; cbn; [lia|]. rewrite Forall_forall in He. by apply He.
Qed.

(** *** One turn: the events at the first address are taken *)

Section Turn.
Context (e0 : rangeEvent) (events0 : list rangeEvent) (active active1 : list nat) (ended ended1 : list bool).
Context (now later : list rangeEvent).
Let events := e0 :: events0.
Let p := next events.
Let p' := next later.
Context (Hinv : sweep_inv p events active ended).
Context (Hsp : split_at (at_ e0) events = (now, later)).
Context (Htake : foldl take_event (active, ended) now = (active1, ended1)).

Lemma events_ok : Forall event_ok events.
Proof using Hraw Hn Hinv.
  destruct Hinv as (_ & Hev & _). apply Forall_forall. intros e He. apply Hev in He as [? _]. by apply event_of.
Qed.

Lemma turn_split :
  events = now ++ later /\ (forall e, e ∈ now -> e ∈ range_events raw /\ bytes_val (at_ e) = p) /\
  p < p' <= top /\ Forall event_ok later /\ StronglySorted by_address later /\ now <> [].
Proof using Hraw Hn Hinv Hsp.
  pose proof events_ok as Hok. destruct Hinv as (Hs & Hev & _).
  assert (He0 : event_ok e0) by (by inversion Hok).
  destruct (split_at_spec _ _ _ _ Hsp He0 Hok Hs ltac:(done)) as (Happ & Hnow & Hlater).
  assert (Hokl : Forall event_ok later) by (rewrite Happ in Hok; by apply Forall_app in Hok as [_ ?]).
  split_and!; [done| | |by apply next_range|done| |].
  - intros e He. split; [apply Hev; rewrite Happ; apply elem_of_app; by left|].
    rewrite Forall_forall in Hnow. by rewrite (Hnow e He).
  - unfold p, p'. destruct later as [|e l]; cbn; [by apply addr16_range|]. by apply Forall_cons in Hlater as [? _].
  - rewrite Happ in Hs. by eapply StronglySorted_app_1_r.
  - intros E. rewrite E in Happ. cbn in Happ. rewrite <- Happ in Hlater. apply Forall_cons in Hlater as [? _]. lia.
Qed.

(** No event is strictly between the two addresses. *)
Lemma turn_gap e : e ∈ range_events raw -> p <= bytes_val (at_ e) ->
  (e ∈ now /\ bytes_val (at_ e) = p) \/ (e ∈ later /\ p' <= bytes_val (at_ e)).
Proof using Hraw Hn Hinv Hsp.
  destruct turn_split as (Happ & Hnow & _ & _ & Hsl & _). intros He Hge.
  assert (Hi : e ∈ events) by (destruct Hinv as (_ & Hev & _); by apply Hev). rewrite Happ in Hi.
  apply elem_of_app in Hi as [Hi|Hi]; [left; split; [done|by apply Hnow]|right; split; [done|by apply next_least]].
Qed.

Lemma turn_taken :
  StronglySorted le active1 /\ length ended1 = n /\
  (forall i, i ∈ active1 <-> i ∈ active \/ exists e, e ∈ now /\ e_idx e = i /\ start e = true) /\
  (forall i, ended1 !! i = Some true <-> ended !! i = Some true \/ exists e, e ∈ now /\ e_idx e = i /\ start e = false).
Proof using Hraw Hn Hinv Hsp Htake.
  destruct turn_split as (_ & Hnow & _). destruct Hinv as (_ & _ & Hsa & Hlen & _). rewrite <- Hlen.
  apply take_events; [done|done|]. apply Forall_forall. intros e He. rewrite Hlen. by apply event_of, Hnow.
Qed.

Lemma turn_ended i :
  ended1 !! i = Some true <-> exists r, r ∈ raw /\ r_idx r = i /\ bytes_val (r_hi r) + 1 < p'.
Proof using Hraw Hn Hinv Hsp Htake.
  destruct turn_taken as (_ & _ & _ & He1). destruct turn_split as (_ & Hnow & Hpp & _).
  destruct Hinv as (_ & _ & _ & _ & Hend & _). rewrite He1, Hend. split.
  - intros [(r & ? & ? & ?)|(e & He & <- & Hst)]; [exists r; split_and!; [done|done|lia]|].
    destruct (Hnow e He) as [Hr Hat]. destruct (event_of e Hr) as (_ & _ & r & ? & ? & Hv).
    rewrite Hst in Hv. exists r. split_and!; [done|done|lia].
  - intros (r & Hr & <- & Hlt'). destruct (decide (bytes_val (r_hi r) + 1 < p)); [left; by exists r|right].
    destruct (end_event r Hr ltac:(lia)) as (e & He & Hei & Hes & Hev').
    destruct (turn_gap e He ltac:(lia)) as [[Hi _]|[_ Hi]]; [by exists e|lia].
Qed.

Lemma turn_active i : i ∈ active1 -> exists r, r ∈ raw /\ r_idx r = i /\ bytes_val (r_lo r) <= p.
Proof using Hraw Hn Hinv Hsp Htake.
  destruct turn_taken as (_ & _ & Ha1 & _). destruct turn_split as (_ & Hnow & _).
  destruct Hinv as (_ & _ & _ & _ & _ & Hact & _). rewrite Ha1.
  intros [(r & ? & ? & ?)%Hact|(e & He & <- & Hst)]; [exists r; split_and!; [done|done|lia]|].
  destruct (Hnow e He) as [Hr Hat]. destruct (event_of e Hr) as (_ & _ & r & ? & ? & Hv).
  rewrite Hst in Hv. exists r. split_and!; [done|done|lia].
Qed.

(** A rule that reaches into the gap covers it, and is in the heap. *)
Lemma turn_covers r :
  r ∈ raw -> bytes_val (r_lo r) < p' -> p <= bytes_val (r_hi r) ->
  r_idx r ∈ drop_ended active1 ended1 /\ bytes_val (r_lo r) <= p /\ p' <= bytes_val (r_hi r) + 1.
Proof using Hraw Hidx Hn Hinv Hsp Htake.
  intros Hr Hlo Hhi. destruct (start_event r Hr) as (e & He & Hei & Hes & Hev').
  destruct turn_taken as (Hs1 & _ & Ha1 & _). destruct turn_split as (_ & _ & Hpp & _).
  assert (Hlo' : bytes_val (r_lo r) <= p).
  { destruct (decide (bytes_val (r_lo r) < p)); [lia|]. destruct (turn_gap e He ltac:(lia)) as [[_ ?]|[_ ?]]; lia. }
  assert (Hhi' : p' <= bytes_val (r_hi r) + 1).
  { destruct (decide (bytes_val (r_hi r) + 1 < top)) as [Ht|]; [|lia].
    destruct (end_event r Hr Ht) as (e' & He' & _ & _ & Hev'').
    destruct (turn_gap e' He' ltac:(lia)) as [[_ ?]|[_ ?]]; lia. }
  split_and!; [|done|done]. apply (drop_ended_spec active1 ended1 Hs1).
  - apply Ha1. destruct (decide (bytes_val (r_lo r) < p)); [left; apply Hinv; [done|done|lia]|right].
    exists e. split_and!; [|done|done]. destruct (turn_gap e He ltac:(lia)) as [[? _]|[_ ?]]; [done|lia].
  - rewrite turn_ended. intros (s & Hs' & E & Hlt'). apply (raw_unique s r Hs' Hr) in E as ->. lia.
Qed.

Lemma turn_inv : sweep_inv p' later (drop_ended active1 ended1) ended1.
Proof using Hraw Hidx Hn Hinv Hsp Htake.
  destruct turn_split as (Happ & Hnow & Hpp & Hokl & Hsl & _). destruct turn_taken as (Hs1 & Hl1 & _ & _).
  destruct (drop_ended_spec active1 ended1 Hs1) as (Hd1 & Hd2 & _ & _).
  unfold sweep_inv. split_and!; [done| |done|done|exact turn_ended| |].
  - intros e. split.
    + intros He. split; [|by apply next_least]. destruct Hinv as (_ & Hev & _). apply Hev. rewrite Happ.
      apply elem_of_app. by right.
    + intros [He Hge]. destruct (turn_gap e He ltac:(lia)) as [[_ ?]|[? _]]; [lia|done].
  - intros i Hi. destruct (turn_active i (Hd2 i Hi)) as (r & ? & ? & ?). exists r. split_and!; [done|done|lia].
  - intros r Hr Hlo Hhi. apply turn_covers; [done|done|lia].
Qed.

(** The gap belongs to the head of the heap, or to nobody. *)
Lemma turn_best x : p <= x < p' ->
  match drop_ended active1 ended1 with
  | [] => forall i, ~ is_best raw x i
  | best :: _ => is_best raw x best
  end.
Proof using Hraw Hidx Hn Hinv Hsp Htake.
  intros Hx. destruct turn_taken as (Hs1 & _). destruct (drop_ended_spec active1 ended1 Hs1) as (Hd1 & Hd2 & _ & Hd4).
  pose proof turn_covers as Hcov. destruct (drop_ended active1 ended1) as [|best l] eqn:Hd.
  - intros i [(r & Hr & <- & [Hc1 Hc2]) _]. destruct (Hcov r Hr ltac:(lia) ltac:(lia)) as [Hi _].
    by apply not_elem_of_nil in Hi.
  - split.
    + destruct (turn_active best) as (r & Hr & Hri & Hlo); [apply Hd2; by left|].
      exists r. split_and!; [done|done|]. split; [lia|].
      destruct (decide (bytes_val (r_hi r) + 1 < p')); [|lia]. destruct (Hd4 best l eq_refl). apply turn_ended. by exists r.
    + intros r Hr [Hc1 Hc2]. destruct (Hcov r Hr ltac:(lia) ltac:(lia)) as [Hi _].
      apply elem_of_cons in Hi as [->|Hi]; [done|]. apply StronglySorted_inv in Hd1 as [_ Hall].
      rewrite Forall_forall in Hall. by apply Hall.
Qed.

End Turn.

(** The address before the next event is the end of the gap. *)
Lemma gap_end later p : Forall event_ok later -> 0 <= p < next later ->
  let end_ := match later with e' :: _ => decAddr (at_ e') | [] => replicate 16 255 end in
  addr16 end_ /\ bytes_val end_ = next later - 1.
Proof.
  intros Hok Hp. destruct later as [|e l]; cbn in *; [by split; [split; [|repeat constructor]|]|].
  apply Forall_cons in Hok as [He _]. apply decAddr_spec; [done|lia].
Qed.

Lemma sweep_table fuel events active ended out :
  (length events <= fuel)%nat -> Forall event_ok events ->
  sweep_inv (next events) events active ended -> table_ok raw out (next events) ->
  exists out', sweep_ranges fuel events active ended out = Some out' /\ table_ok raw out' top.
Proof using Hraw Hidx Hn.
  revert events active ended out. induction fuel as [|fuel IH]; intros events active ended out Hf Hok Hinv Hout;
    (destruct events as [|e0 events0]; [by exists out|]); [cbn in Hf; lia|].
  cbn [sweep_ranges]. destruct (split_at (at_ e0) (e0 :: events0)) as [now later] eqn:Hsp.
  destruct (foldl take_event (active, ended) now) as [active1 ended1] eqn:Htake.
  destruct (turn_split e0 events0 active ended now later Hinv Hsp) as (Happ & _ & Hpp & Hokl & _ & Hne).
  pose proof (turn_inv _ _ _ _ _ _ _ _ Hinv Hsp Htake) as Hinv'.
  pose proof (turn_best _ _ _ _ _ _ _ _ Hinv Hsp Htake) as Hbest.
  assert (Hlen : (length later <= fuel)%nat).
  { rewrite Happ, length_app in Hf. destruct now; [done|]. cbn in Hf. lia. }
  pose proof (next_range _ Hok) as Hr.
  destruct (drop_ended active1 ended1) as [|best l].
  - apply IH; [done|done|done|]. eapply table_extend_none; [exact Hout|lia|]. intros x i Hx. by apply Hbest.
  - destruct (gap_end later (next (e0 :: events0)) Hokl ltac:(lia)) as [He1 He2].
    apply IH; [done|done|done|]. eapply append_range_ok; [exact Hout| |exact He1|done|exact He2|lia|exact Hbest].
    by apply Forall_cons in Hok as [? _].
Qed.

End Sweep.

(** ** The flattened table *)

Lemma StronglySorted_weaken {A} (R S : A -> A -> Prop) l :
  (forall a b, R a b -> S a b) -> StronglySorted R l -> StronglySorted S l.
Proof. intros HRS. induction 1; constructor; [done|]. eapply Forall_impl; [eassumption|]. intros b. apply HRS. Qed.

Lemma event_before_key a b : event_ok a -> event_ok b ->
  event_before a b = (2 * bytes_val (at_ a) + (if start a then 0 else 1) <?
                      2 * bytes_val (at_ b) + (if start b then 0 else 1)).
Proof.
  intros Ha Hb. unfold event_before. rewrite addr16_compare by done. symmetry.
  destruct (Z.compare_spec (bytes_val (at_ a)) (bytes_val (at_ b))), (start a), (start b); cbn;
    rewrite ?Z.ltb_lt, ?Z.ltb_ge; lia.
Qed.

(** Whatever order equal events are left in, the table gives an address to the
    rule of least index that covers it. *)
Lemma flatten_table shuffle raw n :
  (forall l, shuffle l ≡ₚ l) -> Forall range_ok raw -> NoDup (r_idx <$> raw) ->
  Forall (fun r => (r_idx r < n)%nat) raw -> table_ok raw (flattenRanges shuffle raw n) top.
Proof.
  intros Hsh Hraw Hidx Hn. unfold flattenRanges. destruct raw as [|r0 raw0] eqn:Er.
  { split_and!; [constructor|constructor|]. intros x i _. split.
    - intros [(r & ?%not_elem_of_nil & _) _]. done.
    - intros (r & ?%not_elem_of_nil & _). done. }
  rewrite <- Er in *. clear r0 raw0 Er. set (events := SliceStable _ _).
  assert (Hperm : events ≡ₚ range_events raw) by (unfold events; by rewrite SliceStable_Permutation).
  assert (Hok : Forall event_ok events).
  { rewrite Hperm. apply Forall_forall. intros e He. by eapply event_of. }
  assert (Hs : StronglySorted by_address events).
  { eapply StronglySorted_weaken; [|apply (SliceStable_sorted _ event_ok _ event_before_key);
      by rewrite <- (SliceStable_Permutation event_before)].
    intros a b. unfold by_address. cbn. destruct (start a), (start b); lia. }
  assert (Hmem : forall e, e ∈ events <-> e ∈ range_events raw) by (intros e; by rewrite Hperm).
  assert (Hfirst : forall r, r ∈ raw -> next events <= bytes_val (r_lo r)).
  { intros r Hr. destruct (start_event raw r Hr) as (e & He & _ & _ & <-). apply next_least; [done|by apply Hmem]. }
  destruct (sweep_table raw n Hraw Hidx Hn (length events) events [] (replicate n false) [])
    as (out' & -> & Hout); [done|done| | |done].
  - unfold sweep_inv. split_and!; [done| |constructor|by rewrite length_replicate| |by intros ? ?%not_elem_of_nil|].
    + intros e. rewrite <- Hmem. split; [intros He; split; [done|by apply next_least]|by intros []].
    + intros i. split; [by intros [? ?]%lookup_replicate|].
      intros (r & Hr & _ & Hlt). specialize (Hfirst r Hr). destruct (raw_ok raw Hraw r Hr) as (_ & _ & ?). lia.
    + intros r Hr Hlt _. specialize (Hfirst r Hr). lia.
  - split_and!; [constructor|constructor|]. intros x i Hx. split; [|by intros (r & ?%not_elem_of_nil & _)].
    intros [(r & Hr & _ & [Hc _]) _]. specialize (Hfirst r Hr). lia.
Qed.
