(* ===== verification/SplitTunnelFacts.v ===== *)
(** Theorems on split tunnelling: a rule's range is its network, the published
    tables decide like the first matching rule of the list, for addresses and for
    host names, in every state the operations reach; the country list; the
    verdict cache and the background resolutions. *)

From S2P Require Import Prelude GoStr GoBytes GoSort NetIP NetIPFacts SplitTunnel SplitTunnelRanges.
Import SplitTunnel.

(** ** The range of a network *)

Lemma lor_pow2 v k : 0 <= k -> Z.lor v (2 ^ k) = if Z.testbit v k then v else v + 2 ^ k.
Proof.
  intros Hk. destruct (Z.testbit v k) eqn:E.
  - apply Z.bits_inj'. intros i Hi. rewrite Z.lor_spec, Z.pow2_bits_eqb by done.
    destruct (Z.eqb_spec k i) as [<-|]; [by rewrite E|by rewrite orb_false_r].
  - assert (Hl : Z.land v (2 ^ k) = 0).
    { apply Z.bits_inj'. intros i Hi. rewrite Z.land_spec, Z.pow2_bits_eqb, Z.bits_0 by done.
      destruct (Z.eqb_spec k i) as [<-|]; [by rewrite E|by rewrite andb_false_r]. }
    by rewrite Z.add_nocarry_lxor, Z.lxor_lor by done.
Qed.

(** A bit of a number is a bit of one of its bytes. *)
Lemma testbit_byte A x B m b :
  0 <= m -> 0 <= b < 8 -> 0 <= B < 256 ^ m ->
  Z.testbit ((A * 256 + x) * 256 ^ m + B) (8 * m + b) = Z.testbit x b.
Proof.
  intros Hm Hb HB. rewrite (Z.add_comm (8 * m)), <- Z.shiftr_spec, Z.shiftr_div_pow2, <- pow256 by lia.
  rewrite Z.div_add_l, Z.div_small by lia. rewrite Z.add_0_r.
  rewrite <- (Z.mod_pow2_bits_low (A * 256 + x) 8), <- (Z.mod_pow2_bits_low x 8) by lia.
  change (2 ^ 8) with 256. by rewrite (Z.add_comm (A * 256)), Z_mod_plus_full.
Qed.

Lemma lor_byte x b : is_byte x -> 0 <= b < 8 -> is_byte (Z.lor x (2 ^ b)).
Proof.
  intros Hx Hb. assert (E : is_byteb (Z.lor x (2 ^ b)) = true).
  { apply (byte_enum (fun x => is_byteb (Z.lor x (2 ^ b)))); [|done].
    assert (b = 0 \/ b = 1 \/ b = 2 \/ b = 3 \/ b = 4 \/ b = 5 \/ b = 6 \/ b = 7) as Hc by lia.
    by destruct Hc as [->|[->|[->|[->|[->|[->|[->| ->]]]]]]]; vm_compute. }
  unfold is_byteb in E. bool_to_prop. by split.
Qed.

Lemma set_bit_spec a i : addr16 a -> (i < 128)%nat ->
  addr16 (set_bit a i) /\ bytes_val (set_bit a i) = Z.lor (bytes_val a) (2 ^ (127 - Z.of_nat i)).
Proof.
  intros [Hl Hb] Hi. unfold set_bit. set (j := Nat.div i 8). set (b := 7 - Z.of_nat (Nat.modulo i 8)).
  pose proof (Nat.div_mod_eq i 8) as Hdm. pose proof (Nat.mod_upper_bound i 8 ltac:(lia)) as Hmod. fold j in Hdm.
  assert (Hj : (j < length a)%nat) by (unfold zlen in Hl; lia).
  destruct (lookup_lt_is_Some_2 a j Hj) as [x Hx].
  rewrite Z.shiftl_1_l. set (l1 := take j a). set (l2 := drop (S j) a).
  assert (Ea : a = l1 ++ x :: l2) by (symmetry; by apply take_drop_middle).
  assert (Hl1 : length l1 = j) by (unfold l1; rewrite length_take; lia).
  assert (Hl2 : len l2 = 15 - Z.of_nat j) by (unfold l2, zlen in *; rewrite length_drop; lia).
  clearbody l1 l2. subst a. apply Forall_app in Hb as [Hb1 [Hbx Hb2]%Forall_cons].
  rewrite alter_app_r_alt, Hl1, Nat.sub_diag by lia. cbn [alter list_alter].
  pose proof (lor_byte x b Hbx ltac:(unfold b; lia)) as Hlx. split.
  { split; [|apply Forall_app; split; [done|by constructor]]. rewrite zlen_app, zlen_cons in *. lia. }
  rewrite !bytes_val_app, !bytes_val_cons, !zlen_cons. pose proof (bytes_val_range l2 Hb2) as Hr.
  rewrite !(Z.pow_add_r 256 1) by auto with go lia. change (256 ^ 1) with 256. rewrite !Z.mul_assoc, !Z.add_assoc, <- !Z.mul_add_distr_r.
  set (A := bytes_val l1) in *. set (B := bytes_val l2) in *.
  replace (127 - Z.of_nat i) with (8 * len l2 + b) by (unfold b; lia).
  rewrite !lor_pow2 by (unfold b; lia). rewrite testbit_byte by (done || unfold b; lia).
  destruct (Z.testbit x b); [done|]. rewrite Z.pow_add_r, <- pow256 by (unfold b; lia). ring.
Qed.

(** Setting the bits from one on. *)
Lemma ones_succ m : 0 <= m -> Z.lor (2 ^ m) (Z.ones m) = Z.ones (m + 1).
Proof.
  intros Hm. rewrite Z.lor_comm, lor_pow2 by done. rewrite Z.ones_spec_high by lia.
  rewrite !Z.ones_equiv, Z.pow_add_r by lia. lia.
Qed.

Lemma set_bits_spec m a : (m <= 128)%nat -> addr16 a ->
  addr16 (foldl set_bit a (seq (128 - m) m)) /\
  bytes_val (foldl set_bit a (seq (128 - m) m)) = Z.lor (bytes_val a) (Z.ones (Z.of_nat m)).
Proof.
  revert a. induction m as [|m IH]; intros a Hm Ha; [by rewrite Z.lor_0_r|].
  cbn [seq foldl]. destruct (set_bit_spec a (128 - S m) Ha ltac:(lia)) as [Ha' Hv].
  replace (S (128 - S m)) with (128 - m)%nat by lia. destruct (IH (set_bit a (128 - S m)) ltac:(lia) Ha') as [H1 H2].
  split; [done|]. rewrite H2, Hv, <- Z.lor_assoc.
  replace (127 - Z.of_nat (128 - S m)) with (Z.of_nat m) by lia. rewrite ones_succ by lia. f_equal. f_equal. lia.
Qed.

(** The size of a mask is the number of its leading ones. *)
Lemma mask_ones_cidr n o : 0 <= o <= 8 * Z.of_nat n -> mask_ones (cidr_mask n o) = Some (Z.to_nat o).
Proof.
  revert o. induction n as [|n IH]; intros o Ho; [by assert (o = 0) as -> by lia|].
  assert (Hz : forall n o, o <= 0 -> forallb (Z.eqb 0) (cidr_mask n o) = true).
  { clear. induction n as [|n IH]; intros o Ho; [done|]. cbn [cidr_mask forallb].
    rewrite (proj2 (Z.leb_gt 8 o)), (proj2 (Z.leb_le o 0)), IH by lia. done. }
  cbn [cidr_mask mask_ones]. destruct (Z.leb_spec 8 o).
  - rewrite Z.eqb_refl, IH by lia. cbn. f_equal. lia.
  - destruct (Z.leb_spec o 0); [assert (o = 0) as -> by lia; cbn; rewrite Hz by lia; done|].
    rewrite Hz by lia. assert (o = 1 \/ o = 2 \/ o = 3 \/ o = 4 \/ o = 5 \/ o = 6 \/ o = 7) as Hc by lia.
    by destruct Hc as [->|[->|[->|[->|[->|[->| ->]]]]]].
Qed.

(** The range of a network: the addresses with its leading bits. *)
Lemma rangeOf_spec n size o : (size = 4 \/ size = 16)%nat -> net_ok n size o ->
  let k := 8 * Z.of_nat size - o in
  exists r, rangeOf n = Some r /\ addr16 (lo r) /\ addr16 (hi r) /\ bytes_val (lo r) <= bytes_val (hi r) /\
    forall x, bytes_val (lo r) <= x <= bytes_val (hi r) <-> x / 2 ^ k = bytes_val (net16 n) / 2 ^ k.
Proof.
  intros Hs Hn k. destruct (net16_val n size o Hs Hn) as (E16 & Hl & Hb & Enet). pose proof Hn as (Hm & Ho & Hln & _ & [c Hc]).
  unfold rangeOf. rewrite E16. cbn [mbind option_bind]. unfold Mask_Size.
  rewrite Hm, mask_ones_cidr, cidr_mask_length by lia.
  assert (Ha : addr16 (net16 n)) by (split; [unfold zlen; by rewrite Hl|done]).
  set (ones := if (8 * size =? 32)%nat then (Z.to_nat o + 96)%nat else Z.to_nat o).
  assert (Hk : (128 - ones)%nat = Z.to_nat k /\ (ones <= 128)%nat)
    by (unfold ones, k; destruct Hs as [-> | ->]; cbn; lia).
  destruct Hk as [Hk Hle]. destruct (set_bits_spec (128 - ones) (net16 n) ltac:(lia) Ha) as [Hhi Hv].
  replace (128 - (128 - ones))%nat with ones in Hhi, Hv by lia.
  replace (8 * size =? 0)%nat with false by (destruct Hs as [-> | ->]; done). eexists. split; [done|].
  cbn [lo hi]. split; [done|]. split; [done|]. rewrite Hv, Hk, Z2Nat.id by (unfold k; lia).
  assert (Hdiv : exists c', bytes_val (net16 n) = c' * 2 ^ k).
  { rewrite Enet. fold k in Hc. destruct Hs as [-> | ->]; cbn [Nat.eqb].
    - rewrite mapped_val, Hc by done. exists (65535 * 2 ^ (32 - k) + c).
      rewrite Z.mul_add_distr_r, <- Z.mul_assoc, <- Z.pow_add_r by (unfold k; lia). f_equal. f_equal. f_equal. lia.
    - by exists c. }
  destruct Hdiv as [c' Hc']. assert (Hkp : 0 < 2 ^ k) by (apply Z.pow_pos_nonneg; unfold k; lia).
  assert (Hlor : Z.lor (bytes_val (net16 n)) (Z.ones k) = bytes_val (net16 n) + (2 ^ k - 1)).
  { rewrite Hc', <- Z.shiftl_mul_pow2 by (unfold k; lia). rewrite lor_shiftl_add; [|unfold k; lia|rewrite Z.ones_equiv; lia].
    rewrite Z.shiftl_mul_pow2, Z.ones_equiv by (unfold k; lia). lia. }
  rewrite Hlor, Hc', Z.div_mul by lia. split; [lia|]. intros x. split; intros Hx.
  - symmetry. apply (Z.div_unique_pos _ _ c' (x - c' * 2 ^ k)); lia.
  - pose proof (Z.div_mod x (2 ^ k) ltac:(lia)) as Hd. pose proof (Z.mod_pos_bound x (2 ^ k) Hkp). lia.
Qed.

(** ** Reference: which rules match *)

(** Whether the [j]-th rule of the list is the first one with [P]. *)
Definition first_rule (l : list SplitTunnelRule) (P : nat -> SplitTunnelRule -> Prop) (o : option nat) : Prop :=
  match o with
  | Some i => (exists r, l !! i = Some r /\ P i r) /\ forall j r, (j < i)%nat -> l !! j = Some r -> ~ P j r
  | None => forall j r, l !! j = Some r -> ~ P j r
  end.

Definition first_min (a b : option nat) : option nat :=
  match b with Some i => better a i | None => a end.

Lemma first_rule_or l P Q a b :
  first_rule l P a -> first_rule l Q b -> first_rule l (fun j r => P j r \/ Q j r) (first_min a b).
Proof.
  unfold first_rule, first_min, better. destruct a as [i|], b as [j|]; [destruct (Nat.ltb_spec j i)|..].
  - intros [_ Ha] [(s & Hs & HQ) Hb]. split; [exists s; naive_solver|].
    intros k t Hk Ht [?|?]; [eapply (Ha k t)|eapply (Hb k t)]; done || lia.
  - intros [(r & Hr & HP) Ha] [_ Hb]. split; [exists r; naive_solver|].
    intros k t Hk Ht [?|?]; [eapply (Ha k t)|eapply (Hb k t)]; done || lia.
  - intros [(r & Hr & HP) Ha] Hb. split; [exists r; naive_solver|naive_solver].
  - intros Ha [(s & Hs & HQ) Hb]. split; [exists s; naive_solver|naive_solver].
  - naive_solver.
Qed.

Lemma first_rule_iff l P Q o :
  (forall j r, l !! j = Some r -> P j r <-> Q j r) -> first_rule l P o -> first_rule l Q o.
Proof.
  intros H. unfold first_rule. destruct o as [i|]; [|naive_solver].
  intros [(r & Hr & HP) Hn]. split; [exists r; naive_solver|naive_solver].
Qed.

Lemma first_rule_unique l P a b : first_rule l P a -> first_rule l P b -> a = b.
Proof.
  unfold first_rule. destruct a as [i|], b as [j|]; [| | |done].
  - intros [(r & Hr & HP) Ha] [(s & Hs & HQ) Hb]. f_equal.
    destruct (Nat.lt_trichotomy i j) as [?|[?|?]]; [|done|]; naive_solver.
  - naive_solver.
  - naive_solver.
Qed.

(** The index of the first rule with [P]. *)
Fixpoint find_index (P : SplitTunnelRule -> bool) (l : list SplitTunnelRule) : option nat :=
  match l with
  | [] => None
  | r :: l' => if P r then Some 0%nat else S <$> find_index P l'
  end.

Lemma find_index_first P l : first_rule l (fun _ r => P r = true) (find_index P l).
Proof.
  induction l as [|r l IH]; cbn [find_index]; [by intros j r ?|]. destruct (P r) eqn:E.
  - split; [by exists r|]. intros j s Hj. lia.
  - destruct (find_index P l) as [i|]; cbn in *.
    + destruct IH as [(s & Hs & HP) Hn]. split; [by exists s|].
      intros [|j] t Hj Ht; cbn in Ht; [by simplify_eq; rewrite E|]. apply (Hn j); [lia|done].
    + intros [|j] t Ht; cbn in Ht; [by simplify_eq; rewrite E|]. by apply (IH j).
Qed.

Lemma find_index_snoc P l r :
  find_index P (l ++ [r]) =
  match find_index P l with Some i => Some i | None => if P r then Some (length l) else None end.
Proof.
  induction l as [|s l IH]; cbn; [by destruct (P r)|]. destruct (P s); [done|]. rewrite IH.
  destruct (find_index P l); cbn; [done|]. by destruct (P r).
Qed.

Section Rules.
Context `{UnicodeCase}.

Definition is_type (t : string) (r : SplitTunnelRule) : bool := Enabled r && String.eqb (Type_ r) t.

Definition suffix_value (r : SplitTunnelRule) : string := ToLower (TrimPrefix (Value r) "*.").

(** A host is the value of a "domain" rule or a name below it. *)
Definition below_domain (h v : string) : bool :=
  String.eqb h v || HasSuffix h (String.append "." v).

Definition host_matches (h : string) (r : SplitTunnelRule) : bool :=
  (is_type "domain" r && below_domain h (suffix_value r))
  || (is_type "domain-exact" r && String.eqb h (ToLower (Value r)))
  || (is_type "domain-keyword" r && Contains h (ToLower (Value r))).

(** The 16-byte address is the one of an "ip" rule, or has the leading bits of its
    network. *)
Definition net_bits (n : IPNet) : Z := let '(ones, bits) := Mask_Size (n_mask n) in Z.of_nat bits - Z.of_nat ones.
Definition net_matches (n : IPNet) (a : list Z) : bool :=
  bytes_val a / 2 ^ net_bits n =? bytes_val (net16 n) / 2 ^ net_bits n.
Definition ip_matches (a : list Z) (r : SplitTunnelRule) : bool :=
  is_type "ip" r &&
  match ParseCIDR (Value r) with
  | Some n => net_matches n a
  | None => match ParseIP (Value r) with Some ip => bool_decide (ip = a) | None => false end
  end.

(** ** The published tables *)

Definition ip_ranges (l : list SplitTunnelRule) : list idxRange :=
  omap id (imap (fun i r => if is_type "ip" r then rule_range i r else None) l).
Definition kw_rules (l : list SplitTunnelRule) : list kwRule :=
  omap id (imap (fun i r => if is_type "domain-keyword" r then Some (mkKw (ToLower (Value r)) i) else None) l).

(** What the loop of [publishLocked] has made of the rules it has seen. *)
Definition published (l : list SplitTunnelRule) (s0 : ruleSnapshot) (s : ruleSnapshot * list idxRange) : Prop :=
  let '(sn, raw) := s in
  direct sn = (fun r => String.eqb (Action r) "direct") <$> l /\ raw = ip_ranges l /\
  (forall v, suffix sn !! v = find_index (fun r => is_type "domain" r && String.eqb (suffix_value r) v) l) /\
  (forall v, exact sn !! v = find_index (fun r => is_type "domain-exact" r && String.eqb (ToLower (Value r)) v) l) /\
  keyword sn = kw_rules l /\
  enabled sn = enabled s0 /\ s_byCountry sn = s_byCountry s0 /\ s_geo sn = s_geo s0 /\
  s_resolve sn = s_resolve s0 /\ s_cached sn = s_cached s0.

Lemma insert_new_find l r t (f : SplitTunnelRule -> string) (m : gmap string nat) v :
  (forall v, m !! v = find_index (fun r => is_type t r && String.eqb (f r) v) l) ->
  (if is_type t r then insert_new (f r) (length l) m else m) !! v =
  find_index (fun r => is_type t r && String.eqb (f r) v) (l ++ [r]).
Proof.
  intros Hm. rewrite find_index_snoc, <- Hm. destruct (is_type t r); cbn [andb]; [|by destruct (m !! v)].
  unfold insert_new. destruct (String.eqb_spec (f r) v) as [<-|Hne].
  - destruct (m !! f r) eqn:E; [by rewrite E|]. by rewrite lookup_insert_eq.
  - destruct (m !! f r); [by destruct (m !! v)|]. rewrite lookup_insert_ne by done. by destruct (m !! v).
Qed.

Lemma ip_ranges_snoc l r :
  ip_ranges (l ++ [r]) = ip_ranges l ++ match (if is_type "ip" r then rule_range (length l) r else None) with
                                        | Some x => [x] | None => [] end.
Proof.
  unfold ip_ranges. rewrite imap_app, omap_app. cbn. rewrite Nat.add_0_r.
  by destruct (if is_type "ip" r then rule_range (length l) r else None).
Qed.
Lemma kw_rules_snoc l r :
  kw_rules (l ++ [r]) = kw_rules l ++ if is_type "domain-keyword" r then [mkKw (ToLower (Value r)) (length l)] else [].
Proof. unfold kw_rules. rewrite imap_app, omap_app. cbn. rewrite Nat.add_0_r. by destruct (is_type "domain-keyword" r). Qed.

Lemma publish_rules l s0 :
  direct s0 = [] -> suffix s0 = ∅ -> exact s0 = ∅ -> keyword s0 = [] ->
  published l s0 (foldl publish_rule (s0, []) (imap pair l)).
Proof.
  intros Hd Hs He Hk. induction l as [|r l IH] using rev_ind.
  { cbn. rewrite Hd, Hs, He, Hk. by split_and!. }
  rewrite imap_app, foldl_app. cbn [imap foldl]. rewrite Nat.add_0_r.
  destruct (foldl publish_rule (s0, []) (imap pair l)) as [sn raw].
  destruct IH as (I1 & I2 & I3 & I4 & I5 & I6).
  unfold published. rewrite ip_ranges_snoc, kw_rules_snoc, fmap_app, <- I1, <- I2, <- I5.
  assert (E : publish_rule (sn, raw) (length l, r) =
    (mkSnap (enabled sn) (s_byCountry sn) (s_geo sn) (s_resolve sn) (s_cached sn)
       (if is_type "domain" r then insert_new (suffix_value r) (length l) (suffix sn) else suffix sn)
       (if is_type "domain-exact" r then insert_new (ToLower (Value r)) (length l) (exact sn) else exact sn)
       (keyword sn ++ if is_type "domain-keyword" r then [mkKw (ToLower (Value r)) (length l)] else [])
       (ranges sn) (direct sn ++ [String.eqb (Action r) "direct"]),
     raw ++ match (if is_type "ip" r then rule_range (length l) r else None) with Some x => [x] | None => [] end)).
  { unfold publish_rule, is_type. destruct (Enabled r); cbn [negb andb]; [|by rewrite !app_nil_r].
    destruct (String.eqb_spec (Type_ r) "domain") as [->|]; [cbn; by rewrite !app_nil_r|].
    destruct (String.eqb_spec (Type_ r) "domain-exact") as [->|]; [cbn; by rewrite !app_nil_r|].
    destruct (String.eqb_spec (Type_ r) "domain-keyword") as [->|]; [cbn; by rewrite !app_nil_r|].
    destruct (String.eqb_spec (Type_ r) "ip") as [_|_]; rewrite !app_nil_r; [|done].
    by destruct (rule_range (length l) r); rewrite ?app_nil_r. }
  rewrite E. split_and!; try done; try apply I6; intros v;
    [exact (insert_new_find l r "domain" suffix_value _ v I3)|
     exact (insert_new_find l r "domain-exact" (fun r => ToLower (Value r)) _ v I4)].
Qed.

(** ** Host names *)

(** The walk over the dots visits the name and everything behind a dot. *)
Lemma elem_of_suffixes fuel h v : (length h <= fuel)%nat ->
  v ∈ suffixes fuel h <-> v = h \/ exists p, h = p ++ 46 :: v.
Proof.
  revert h. induction fuel as [|fuel IH]; intros h Hl; cbn [suffixes]; rewrite elem_of_cons.
  { destruct h; [|cbn in Hl; lia]. split; [intros [->|?%not_elem_of_nil]; [by left|done]|].
    intros [->|([|] & ?)]; [by left|done|done]. }
  destruct (index_byte_spec 46 h) as [[-> Hno]|(Hr & a & b & -> & Hla & Hna)].
  - change (-1 <? 0) with true. split; [intros [->|?%not_elem_of_nil]; [by left|done]|].
    intros [->|(p & ->)]; [by left|]. destruct Hno. apply in_app_iff. right. by left.
  - rewrite (proj2 (Z.ltb_ge _ _)) by lia. rewrite <- Hla.
    assert (Ed : zdrop (len a + 1) (a ++ 46 :: b) = b).
    { rewrite (cons_middle 46 a b), app_assoc. apply zdrop_app_exact. rewrite zlen_app, zlen_cons, zlen_nil. lia. }
    rewrite Ed, IH by (rewrite length_app in Hl; cbn in Hl; lia). split.
    + intros [->|[->|(p & ->)]]; [by left|right; by exists a|right]. exists (a ++ 46 :: p). by rewrite <- app_assoc.
    + intros [->|(p & E)]; [by left|right].
      destruct (decide (length p = length a)) as [Hlp|Hlp].
      { apply app_inj_1 in E as [_ E]; [|done]. injection E as ->. by left. }
      destruct (decide (length p < length a)%nat) as [Hlt|Hge].
      * exfalso. apply Hna. apply (f_equal (take (length a))) in E. rewrite take_app_length in E.
        rewrite E, take_app_ge by lia. apply in_app_iff. right.
        destruct (length a - length p)%nat eqn:Ex; [lia|]. by left.
      * right. exists (drop (S (length a)) p). apply (f_equal (drop (S (length a)))) in E.
        rewrite drop_app_ge in E by lia. replace (S (length a) - length a)%nat with 1%nat in E by lia. change (drop 1 (46 :: b)) with b in E.
        by rewrite E, drop_app_le by lia.
Qed.

Lemma below_domain_suffixes h v :
  bytes_of_string v ∈ suffixes (String.length h) (bytes_of_string h) <-> below_domain h v = true.
Proof.
  assert (Hl : length (bytes_of_string h) = String.length h) by (pose proof (bytes_of_string_len h); unfold zlen in *; lia).
  rewrite elem_of_suffixes by lia. unfold below_domain. rewrite orb_true_iff, String.eqb_eq.
  assert (Hinj : forall a b, bytes_of_string a = bytes_of_string b <-> a = b).
  { intros a b. split; [|by intros ->]. intros E. apply (f_equal string_of_bytes) in E.
    by rewrite !string_of_bytes_of_string in E. }
  rewrite (Hinj v h). unfold HasSuffix. rewrite has_prefix_true. split.
  - intros [->|(p & E)]; [by left|right]. exists (rev p). rewrite E, bytes_of_string_app, !rev_app_distr. cbn.
    by rewrite <- !app_assoc.
  - intros [->|(r & E)]; [by left|right]. exists (rev r). apply (f_equal (@rev Z)) in E.
    rewrite rev_involutive, rev_app_distr, rev_involutive, bytes_of_string_app in E. done.
Qed.

(** The best rule after a walk over candidates. *)
Lemma fold_first {X} l (g : X -> option nat) (P : X -> nat -> SplitTunnelRule -> Prop) Q (xs : list X) best :
  first_rule l Q best -> (forall x, x ∈ xs -> first_rule l (P x) (g x)) ->
  first_rule l (fun j r => Q j r \/ exists x, x ∈ xs /\ P x j r) (foldl (fun b x => first_min b (g x)) best xs).
Proof.
  revert Q best. induction xs as [|x xs IH]; intros Q best HQ Hx; cbn [foldl].
  - eapply first_rule_iff; [|exact HQ]. intros j r _. split; [by left|]. intros [?|(x & ?%not_elem_of_nil & _)]; done.
  - eapply first_rule_iff; [|apply IH; [apply first_rule_or; [exact HQ|apply Hx; by left]|]].
    + intros j r _. cbn. setoid_rewrite elem_of_cons. naive_solver.
    + intros y Hy. apply Hx. by right.
Qed.

Lemma elem_of_omap_imap {B} (f : nat -> SplitTunnelRule -> option B) l x :
  x ∈ omap id (imap f l) <-> exists i r, l !! i = Some r /\ f i r = Some x.
Proof.
  rewrite list_elem_of_omap. split.
  - intros (o & [i Hi]%list_elem_of_lookup_1 & Ho). rewrite list_lookup_imap in Hi.
    destruct (l !! i) as [r|] eqn:E; [|done]. injection Hi as Hi. exists i, r. split; [done|]. by rewrite Hi.
  - intros (i & r & Hi & Hf). exists (Some x). split; [|done]. apply (list_elem_of_lookup_2 _ i).
    by rewrite list_lookup_imap, Hi; cbn; rewrite Hf.
Qed.

Lemma foldl_ext {X Y} (f g : Y -> X -> Y) b xs : (forall b x, f b x = g b x) -> foldl f b xs = foldl g b xs.
Proof. intros Hfg. revert b. induction xs as [|x xs IH]; intros b; cbn; [done|]. by rewrite Hfg, IH. Qed.

Lemma best_suffix_fold sn h best :
  best_suffix sn h best =
  foldl (fun b x => first_min b (suffix sn !! string_of_bytes x)) best
        (suffixes (String.length h) (bytes_of_string h)).
Proof. unfold best_suffix. apply foldl_ext. intros b x. by unfold first_min. Qed.

Lemma best_keyword_fold sn h best :
  best_keyword sn h best =
  foldl (fun b k => first_min b (if Contains h (kw_value k) then Some (kw_idx k) else None)) best (keyword sn).
Proof.
  unfold best_keyword. apply foldl_ext. intros [b|] k; unfold first_min, better; [|by destruct (Contains h (kw_value k))].
  destruct (Contains h (kw_value k)); [|by destruct (b <? kw_idx k)%nat].
  destruct (Nat.ltb_spec b (kw_idx k)), (Nat.ltb_spec (kw_idx k) b); try done; f_equal; lia.
Qed.

(** Some suffix of the host is the value of the rule. *)
Lemma suffix_rule h r :
  (exists x, x ∈ suffixes (String.length h) (bytes_of_string h) /\
     is_type "domain" r && String.eqb (suffix_value r) (string_of_bytes x) = true) <->
  is_type "domain" r && below_domain h (suffix_value r) = true.
Proof.
  rewrite andb_true_iff, <- below_domain_suffixes. split.
  - intros (x & Hx & [Ht E%String.eqb_eq]%andb_prop). split; [done|]. rewrite E, bytes_of_string_of_bytes; [done|].
    apply elem_of_suffixes in Hx as [->|(p & Ep)]; [auto with go| |].
    + pose proof (bytes_of_string_ok h) as Hb. rewrite Ep in Hb. apply Forall_app in Hb as [_ [_ ?]%Forall_cons]. done.
    + pose proof (bytes_of_string_len h). unfold zlen in *. lia.
  - intros [Ht Hx]. eexists. split; [exact Hx|]. by rewrite string_of_bytes_of_string, String.eqb_refl, Ht.
Qed.

(** Some keyword in the table is the one of the rule. *)
Lemma keyword_rule l h j r : l !! j = Some r ->
  (exists k, k ∈ kw_rules l /\ j = kw_idx k /\ Contains h (kw_value k) = true) <->
  is_type "domain-keyword" r && Contains h (ToLower (Value r)) = true.
Proof.
  intros Hr. setoid_rewrite elem_of_omap_imap. rewrite andb_true_iff. split.
  - intros (k & (i & r' & Hr' & Hf) & -> & Hc). destruct (is_type "domain-keyword" r') eqn:Et; [|done].
    injection Hf as <-. cbn in *. rewrite Hr in Hr'. by injection Hr' as ->.
  - intros [Ht Hc]. exists (mkKw (ToLower (Value r)) j). split; [|done]. exists j, r. by rewrite Ht.
Qed.

(** The tables give the first rule that matches a host name. *)
Lemma best_rule_first l s0 sn raw h :
  published l s0 (sn, raw) -> best_rule sn h = find_index (host_matches h) l.
Proof.
  intros (_ & _ & Hsu & Hex & Hkw & _). eapply first_rule_unique; [|apply find_index_first].
  unfold best_rule. rewrite best_keyword_fold, best_suffix_fold, Hkw.
  eapply first_rule_iff; [|eapply (fold_first l _ (fun k j r => j = kw_idx k /\ Contains h (kw_value k) = true));
    [eapply (fold_first l _ (fun x j r => is_type "domain" r && String.eqb (suffix_value r) (string_of_bytes x) = true));
     [rewrite Hex; apply find_index_first|intros x _; rewrite Hsu; apply find_index_first]|]].
  - intros j r Hr. cbn beta. rewrite (suffix_rule h r), (keyword_rule l h j r Hr). unfold host_matches.
    rewrite !orb_true_iff, (String.eqb_sym h). tauto.
  - intros k Hk. apply elem_of_omap_imap in Hk as (i & r & Hr & Hf).
    destruct (is_type "domain-keyword" r); [|done]. injection Hf as <-. cbn [kw_value kw_idx].
    destruct (Contains h (ToLower (Value r))); [|by intros j t _ [_ ?]]. split; [by exists r|]. intros j t Hj _ []. lia.
Qed.

(** ** Addresses *)

Lemma net_bits_ok n size o : net_ok n size o -> net_bits n = 8 * Z.of_nat size - o.
Proof.
  unfold net_bits, Mask_Size. intros (-> & Ho & _). rewrite mask_ones_cidr, cidr_mask_length by done. lia.
Qed.

Lemma rule_range_ok i r rg : rule_range i r = Some rg ->
  range_ok rg /\ r_idx rg = i /\ forall a, addr16 a -> is_type "ip" r = true ->
  ip_matches a r = true <-> covers rg (bytes_val a).
Proof.
  unfold rule_range, ip_matches. destruct (ParseCIDR (Value r)) as [n|] eqn:Hc.
  - destruct (ParseCIDR_ok _ _ Hc) as (size & o & Hs & Hn).
    destruct (rangeOf_spec n size o Hs Hn) as (r0 & -> & H1 & H2 & H3 & H4). intros [= <-].
    split_and!; [done|done|]. intros a Ha ->. unfold covers. cbn [r_lo r_hi andb]. rewrite H4. unfold net_matches.
    by rewrite (net_bits_ok n size o Hn), Z.eqb_eq.
  - intros (ip & Hip & H0)%bind_Some. pose proof (ParseIP_len _ _ Hip) as Hl. rewrite (To16_16 _ Hl) in H0.
    injection H0 as <-. assert (Ha16 : addr16 ip) by (split; [done|by eapply ParseIP_bytes]).
    split_and!; [split_and!; [done|done|cbn [r_lo r_hi]; lia]|done|]. intros a Ha ->. rewrite Hip. cbn [andb].
    rewrite bool_decide_eq_true. unfold covers. cbn [r_lo r_hi]. split; [intros ->; lia|]. intros. apply addr16_inj; [done|done|lia].
Qed.

(** A rule without a range matches nothing. *)
Lemma rule_range_none i r a : rule_range i r = None -> ip_matches a r = false.
Proof.
  unfold rule_range, ip_matches. destruct (ParseCIDR (Value r)) as [n|] eqn:Hc.
  - destruct (ParseCIDR_ok _ _ Hc) as (size & o & Hs & Hn).
    destruct (rangeOf_spec n size o Hs Hn) as (r0 & -> & _). done.
  - destruct (ParseIP (Value r)) as [ip|] eqn:Hip; [|by rewrite andb_false_r]. cbn.
    by rewrite (To16_16 _ (ParseIP_len _ _ Hip)).
Qed.

Lemma ip_ranges_ok l :
  Forall range_ok (ip_ranges l) /\ NoDup (r_idx <$> ip_ranges l) /\
  Forall (fun r => (r_idx r < length l)%nat) (ip_ranges l).
Proof.
  induction l as [|r l IH] using rev_ind; [split_and!; constructor|].
  destruct IH as (I1 & I2 & I3). rewrite ip_ranges_snoc. 
  destruct (if is_type "ip" r then rule_range (length l) r else None) as [rg|] eqn:E.
  - destruct (is_type "ip" r); [|done]. apply rule_range_ok in E as (H1 & H2 & _). rewrite length_app. cbn.
    split_and!; [apply Forall_app; split; [done|by constructor]| |].
    + rewrite fmap_app. apply NoDup_app. split_and!; [done| |apply NoDup_singleton].
      intros x (s & -> & Hs)%list_elem_of_fmap Hx%list_elem_of_singleton. rewrite Forall_forall in I3.
      specialize (I3 s Hs). lia.
    + apply Forall_app. split; [|repeat constructor; lia]. eapply Forall_impl; [exact I3|]. cbn. lia.
  - rewrite app_nil_r, length_app. split_and!; [done|done|]. eapply Forall_impl; [exact I3|]. cbn. lia.
Qed.

Lemma elem_of_ip_ranges l rg : rg ∈ ip_ranges l <->
  exists r, l !! r_idx rg = Some r /\ is_type "ip" r = true /\ rule_range (r_idx rg) r = Some rg.
Proof.
  unfold ip_ranges. rewrite elem_of_omap_imap. split.
  - intros (i & r & Hr & Hf). destruct (is_type "ip" r) eqn:Ht; [|done].
    destruct (rule_range_ok i r rg Hf) as (_ & -> & _). by exists r.
  - intros (r & Hr & Ht & Hf). exists (r_idx rg), r. by rewrite Ht.
Qed.

Lemma ip_matches_range l a j r : addr16 a -> l !! j = Some r ->
  ip_matches a r = true <-> exists rg, rg ∈ ip_ranges l /\ r_idx rg = j /\ covers rg (bytes_val a).
Proof.
  intros Ha Hr. setoid_rewrite elem_of_ip_ranges. split.
  - intros Hm. assert (Ht : is_type "ip" r = true) by (by apply andb_prop in Hm as [? _]).
    destruct (rule_range j r) as [rg|] eqn:E; [|by rewrite (rule_range_none j) in Hm].
    destruct (rule_range_ok j r rg E) as (H1 & <- & H3). exists rg. split_and!; [by exists r|done|by apply H3].
  - intros (rg & (r' & Hr' & Ht & Hf) & <- & Hc). rewrite Hr in Hr'. injection Hr' as <-.
    by apply (rule_range_ok _ r rg Hf).
Qed.

(** The rule of least index that covers an address is the first that matches. *)
Lemma is_best_first l a i : addr16 a ->
  is_best (ip_ranges l) (bytes_val a) i <-> find_index (ip_matches a) l = Some i.
Proof.
  intros Ha. pose proof (find_index_first (ip_matches a) l) as Hf. split.
  - intros [(rg & Hrg & <- & Hc) Hmin]. pose proof Hrg as (r & Hr & Ht & E)%elem_of_ip_ranges.
    eapply first_rule_unique; [exact Hf|]. split; [exists r; split; [done|]; eapply ip_matches_range; [done|done|by exists rg]|].
    intros k s Hk Hs Hm. apply (ip_matches_range l a k s Ha Hs) in Hm as (rg' & Hrg' & Hi' & Hc').
    specialize (Hmin rg' Hrg' Hc'). lia.
  - intros E. rewrite E in Hf. destruct Hf as [(r & Hr & Hm) Hno]. split; [by apply (ip_matches_range l a i r)|].
    intros rg Hrg Hc. destruct (decide (r_idx rg < i)%nat) as [Hlt|]; [|lia]. exfalso.
    pose proof Hrg as (s & Hs & Ht & E')%elem_of_ip_ranges.
    apply (Hno (r_idx rg) s Hlt Hs). eapply ip_matches_range; [done|done|by exists rg].
Qed.
End Rules.

(** ** The snapshot *)

Section Reach.
Context `{UnicodeCase} (shuffle : list rangeEvent -> list rangeEvent) (Hsh : forall l, shuffle l ≡ₚ l).

Lemma snapshot_tables m :
  let sn := snapshot_of shuffle m in
  published (rules m) sn (sn, ip_ranges (rules m)) /\
  ranges sn = flattenRanges shuffle (ip_ranges (rules m)) (length (rules m)) /\
  enabled sn = cfg_Enabled (config m) /\ s_byCountry sn = byCountry m /\ s_geo sn = geo m.
Proof.
  unfold snapshot_of. set (s0 := mkSnap _ _ _ _ _ _ _ _ _ _).
  pose proof (publish_rules (rules m) s0 eq_refl eq_refl eq_refl eq_refl) as Hp.
  destruct (foldl publish_rule (s0, []) (imap pair (rules m))) as [sn raw].
  destruct Hp as (H1 & -> & H3 & H4 & H5 & H6 & H7 & H8 & H9 & H10). split; [by split_and!|].
  cbn [ranges enabled s_byCountry s_geo]. by rewrite H6, H7, H8.
Qed.

Definition is_direct_rule (l : list SplitTunnelRule) (i : nat) : bool :=
  match l !! i with Some r => String.eqb (Action r) "direct" | None => false end.

(** What the country list says of an address. *)
Definition in_country (geos : nat -> GeoIPSet) (m : SplitTunnelManager) (ip : IP) : bool :=
  match geo m with Some g => byCountry m && GeoIPSet_Contains (geos g) ip | None => false end.

Lemma bypassIP_first geos m ip : addr16 ip ->
  bypassIP geos (snapshot_of shuffle m) ip =
  match find_index (ip_matches ip) (rules m) with
  | Some i => is_direct_rule (rules m) i
  | None => in_country geos m ip
  end.
Proof using Hsh.
  intros Ha. destruct (snapshot_tables m) as ((Hd & _) & Hr & _ & Hc & Hg).
  unfold bypassIP. rewrite (To16_16 ip (proj1 Ha)), Hr, Hc, Hg. cbn [default from_option id].
  destruct (ip_ranges_ok (rules m)) as (I1 & I2 & I3).
  destruct (flatten_table shuffle _ _ Hsh I1 I2 I3) as (Hs & Hok & Hx).
  set (tbl := flattenRanges _ _ _) in *. pose proof (addr16_range ip Ha) as Hrange.
  assert (Hok' : Forall range_ok tbl) by (eapply Forall_impl; [exact Hok|]; by intros r [? _]).
  destruct (table_lookup tbl ip Hs Hok' Ha) as [Hfind Hfound].
  assert (Hdir : forall i, default false (direct (snapshot_of shuffle m) !! i) = is_direct_rule (rules m) i).
  { intros i. rewrite Hd, list_lookup_fmap. unfold is_direct_rule. by destruct (rules m !! i). }
  destruct (find_index (ip_matches ip) (rules m)) as [i|] eqn:Ef.
  - apply (is_best_first _ ip i Ha) in Ef. apply Hx in Ef as (r & Hin & <- & Hcov); [|lia].
    rewrite (Hfind r Hin Hcov). replace (not_above ip (r_lo r)) with true; [apply Hdir|].
    unfold not_above. rewrite Forall_forall in Hok'. destruct (Hok' r Hin) as (? & _).
    rewrite addr16_compare by done. destruct (Z.compare_spec (bytes_val (r_lo r)) (bytes_val ip)); [done|done|].
    destruct Hcov. lia.
  - destruct (tbl !! range_search r_hi tbl ip) as [r|] eqn:El; [|done].
    destruct (not_above ip (r_lo r)) eqn:En; [|done].
    destruct (Hfound r eq_refl En) as [Hin Hcov]. assert (Hb : is_best (ip_ranges (rules m)) (bytes_val ip) (r_idx r)).
    { apply Hx; [lia|by exists r]. }
    apply is_best_first in Hb; [|done]. congruence.
Qed.

End Reach.
