(* ===== verification/SplitTunnelReach.v ===== *)
(** Split tunnelling over time: every state that the operations, the lookups and
    the background resolutions reach satisfies the invariant, and in it a lookup
    decides like the first matching rule of the list; the country list. *)

From S2P Require Import Prelude GoStr GoBytes GoSort NetIP NetIPFacts SplitTunnel SplitTunnelRanges SplitTunnelFacts.
Import SplitTunnel.

Section Reach.
Context `{UnicodeCase} (shuffle : list rangeEvent -> list rangeEvent) (Hsh : forall l, shuffle l ≡ₚ l).

(** ** Every reachable state *)

(** What callers do, in any order; [geos] is what the address lists hold then. *)
Inductive stm_step : SplitTunnelManager -> SplitTunnelManager -> Prop :=
| st_load f d m : stm_step m (LoadConfig shuffle f d m).1
| st_add r t1 t2 m : stm_step m (AddRule shuffle r t1 t2 m)
| st_mode s m : stm_step m (SetMode s m)
| st_enable b m : stm_step m (SetEnabled shuffle b m)
| st_geo g m : stm_step m (SetGeoIP shuffle g m)
| st_cached f m : stm_step m (SetCachedResolver shuffle f m)
| st_resolver b m : stm_step m (SetResolver shuffle b m)
| st_app d p m : stm_step m (LoadAppRules shuffle d p m).1
| st_lookup geos t1 t2 a m : stm_step m (BypassDecision geos t1 t2 a m).1
| st_learned geos t i ips m : stm_step m (learn_done geos t i ips m).

Definition by_priority (a b : SplitTunnelRule) : Prop := Priority b <= Priority a.

Definition shards_ok (c : list (gmap string verdict)) : Prop :=
  length c = 64%nat /\ Forall (fun m => Z.of_nat (size m) <= 64) c.

Record stm_inv (m : SplitTunnelManager) : Prop := {
  inv_snap : snap m = None /\ cfg_Enabled (config m) = false \/ snap m = Some (snapshot_of shuffle m);
  inv_sorted : StronglySorted by_priority (rules m);
  inv_keys : NoDup (keyOf <$> rules m);
  inv_pending : pending m = list_to_set (fst <$> learning m) /\ NoDup (fst <$> learning m);
  inv_shards : shards_ok (verdicts m)
}.

Lemma unique_rules_spec seen l :
  NoDup (keyOf <$> unique_rules seen l) /\ (forall r, r ∈ unique_rules seen l -> keyOf r ∉ seen) /\
  sublist (unique_rules seen l) l.
Proof.
  revert seen. induction l as [|r l IH]; intros seen; cbn [unique_rules].
  { split_and!; [constructor|by intros ? ?%not_elem_of_nil|done]. }
  destruct (decide (keyOf r ∈ seen)) as [Hin|Hin].
  - destruct (IH seen) as (H1 & H2 & H3). split_and!; [done|done|by constructor].
  - destruct (IH ({[keyOf r]} ∪ seen)) as (H1 & H2 & H3). split_and!.
    + cbn. constructor; [|done]. intros (s & Es & Hs)%list_elem_of_fmap. apply (H2 s Hs).
      rewrite <- Es. by apply elem_of_union_l, elem_of_singleton.
    + intros s [->|Hs]%elem_of_cons; [done|]. intros Hs'. by apply (H2 s Hs), elem_of_union_r.
    + by constructor.
Qed.

Lemma sort_sorted l : StronglySorted by_priority (sortRulesByPriority l).
Proof.
  eapply StronglySorted_weaken; [|apply (SliceStable_sorted _ (fun _ => True) (fun r => - Priority r))].
  - intros a b. unfold by_priority. lia.
  - intros a b _ _. destruct (Z.ltb_spec (Priority b) (Priority a)), (Z.ltb_spec (- Priority a) (- Priority b)); done || lia.
  - by apply Forall_true.
Qed.

Lemma verdict_put_ok t c h v : shards_ok c -> shards_ok (verdict_put t c h v).
Proof.
  intros [Hl Hs]. split; [unfold verdict_put; by rewrite length_alter|].
  unfold verdict_put. apply Forall_alter; [done|]. intros m Hm Hsz. cbn in *.
  change (verdictMax / verdictShards) with 64.
  assert (Hins : forall m' : gmap string verdict, Z.of_nat (size m') < 64 -> Z.of_nat (size (<[h := v]> m')) <= 64).
  { intros m' Hm'. rewrite map_size_insert. destruct (m' !! h); unfold id; lia. }
  destruct (Z.leb_spec 64 (Z.of_nat (size m))); [|by apply Hins].
  destruct (Z.leb_spec 64 (Z.of_nat (size (filter (λ x, ~ expires x.2 < t) m)))); [|by apply Hins].
  apply Hins. rewrite map_size_empty. lia.
Qed.

Lemma verdict_reset_ok c : shards_ok c -> shards_ok (verdict_reset c).
Proof.
  intros [Hl Hs]. unfold verdict_reset. split; [by rewrite length_fmap|].
  apply Forall_fmap, Forall_true. intros m. cbn. rewrite map_size_empty. lia.
Qed.

(** *** The invariant is preserved *)

Lemma publish_inv m :
  StronglySorted by_priority (rules m) -> NoDup (keyOf <$> rules m) ->
  pending m = list_to_set (fst <$> learning m) /\ NoDup (fst <$> learning m) -> shards_ok (verdicts m) ->
  stm_inv (publishLocked shuffle m).
Proof. intros. split; [by right|done..]. Qed.

Lemma recompile_inv m :
  StronglySorted by_priority (rules m) ->
  pending m = list_to_set (fst <$> learning m) /\ NoDup (fst <$> learning m) -> shards_ok (verdicts m) ->
  stm_inv (recompileLocked shuffle m).
Proof.
  intros Hs Hp Hv. destruct (unique_rules_spec ∅ (rules m)) as (H1 & _ & H3).
  apply publish_inv; [by eapply sublist_StronglySorted|done..].
Qed.

Lemma append_rules_inv m l : stm_inv m -> stm_inv (append_rules shuffle m l).
Proof. intros [_ _ _ Hp Hv]. apply recompile_inv; [apply sort_sorted|done..]. Qed.

(** A change of the verdicts and of the background resolutions only. *)
Definition same_but_cache (m m' : SplitTunnelManager) : Prop :=
  m' = mkManager (config m) (rules m) (snap m) (geo m) (resolve m) (byCountry m) (cached m)
                 (verdicts m') (pending m') (learning m').

Lemma same_but_cache_inv m m' : stm_inv m -> same_but_cache m m' ->
  pending m' = list_to_set (fst <$> learning m') /\ NoDup (fst <$> learning m') -> shards_ok (verdicts m') ->
  stm_inv m'.
Proof. intros [Hs ? ? _ _] E Hp Hv. rewrite E. split; [exact Hs|done..]. Qed.

Lemma byCountryVerdict_inv geos t1 t2 sn h m : stm_inv m -> stm_inv (byCountryVerdict geos t1 t2 sn h m).1.
Proof.
  intros Hm. unfold byCountryVerdict. destruct (negb (s_byCountry sn)); [done|].
  destruct (match verdict_get _ _ with Some _ => _ | None => _ end) as [b|]; [done|].
  destruct (s_geo sn) as [g|]; [|done]. destruct (GeoIPSet_Len (geos g) =? 0); [done|].
  destruct (s_cached sn ≫= fun f => f h) as [ips|].
  - eapply same_but_cache_inv; [exact Hm|done|apply Hm|]. apply verdict_put_ok, Hm.
  - destruct (s_resolve sn); [|done]. cbn [fst]. unfold learnInBackground. destruct (decide (h ∈ pending m)) as [|Hn]; [done|].
    destruct (inv_pending m Hm) as [Hp Hnd].
    eapply same_but_cache_inv; [exact Hm|done| |apply Hm]. cbn [pending learning fmap list_fmap fst list_to_set].
    rewrite Hp. split; [done|]. constructor; [|done]. rewrite Hp, elem_of_list_to_set in Hn. exact Hn.
Qed.

(** The goroutine that ends was the only one of its name. *)
Lemma delete_learner (l : list (string * nat)) i h g :
  l !! i = Some (h, g) -> NoDup (fst <$> l) ->
  (list_to_set (fst <$> l) : gset string) ∖ {[h]} = list_to_set (fst <$> delete i l) /\ NoDup (fst <$> delete i l).
Proof.
  intros Hi Hnd. rewrite (delete_Permutation l i _ Hi) in Hnd. cbn in Hnd. apply NoDup_cons in Hnd as [Hn Hnd]. split; [|done].
  pose proof (delete_Permutation l i _ Hi) as Hp. apply leibniz_equiv. intros x.
  rewrite elem_of_difference, elem_of_singleton, !elem_of_list_to_set. rewrite Hp at 1. cbn. rewrite elem_of_cons.
  split; [by intros [[->|?] ?]|]. intros Hx. split; [by right|]. intros ->. done.
Qed.

Lemma learn_done_inv geos t i ips m : stm_inv m -> stm_inv (learn_done geos t i ips m).
Proof.
  intros Hm. unfold learn_done. destruct (learning m !! i) as [[h g]|] eqn:E; [|done].
  destruct (inv_pending m Hm) as [Hp Hnd]. destruct (delete_learner _ _ _ _ E Hnd) as [H1 H2].
  eapply same_but_cache_inv; [exact Hm|by destruct ips| |].
  - rewrite <- Hp in H1. by destruct ips.
  - destruct ips; [apply verdict_put_ok|]; apply Hm.
Qed.

Lemma stm_step_inv m m' : stm_inv m -> stm_step m m' -> stm_inv m'.
Proof.
  intros Hm Hstep. destruct Hstep.
  - unfold LoadConfig. destruct (String.eqb f ""); [done|]. destruct d as [e|c]; [done|]. cbn [fst].
    apply recompile_inv; [apply sort_sorted|apply Hm..].
  - by apply append_rules_inv.
  - destruct Hm as [Hs ? ? ? ?]. by split.
  - by apply publish_inv; apply Hm.
  - by apply publish_inv; apply Hm.
  - by apply publish_inv; apply Hm.
  - destruct Hm as [Hs ? ? ? ?]. split; [by right|done..|by apply verdict_reset_ok].
  - unfold LoadAppRules. destruct (String.eqb (TrimSpace d) ""); [done|]. destruct p as [e|l]; [done|].
    destruct (convert_rules l false) as [byC rs]. cbn [fst].
    destruct (unique_rules_spec ∅ (sortRulesByPriority (rules m ++ rs))) as (H1 & _ & H3).
    destruct Hm as [Hs ? ? ? ?]. split; [by right| |done..|by apply verdict_reset_ok].
    eapply sublist_StronglySorted; [exact H3|apply sort_sorted].
  - unfold BypassDecision. destruct (snap m) as [sn|]; [|done]. destruct (negb (enabled sn)); [done|].
    destruct (if looksLikeIP a then ParseIP a else None); [done|]. unfold bypassHostReason.
    destruct (best_rule sn _); [done|]. pose proof (byCountryVerdict_inv geos t1 t2 sn (ToLower (TrimSuffix a ".")) m Hm).
    by destruct (byCountryVerdict _ _ _ _ _ _).
  - by apply learn_done_inv.
Qed.

Lemma new_inv : stm_inv NewSplitTunnelManager.
Proof.
  split; [by left|constructor|constructor|split; [done|constructor]|].
  split; [done|]. apply Forall_forall. intros m Hm. apply elem_of_replicate in Hm as [-> _]. rewrite map_size_empty. lia.
Qed.

Definition reachable (m : SplitTunnelManager) : Prop := rtc stm_step NewSplitTunnelManager m.

Lemma reachable_stm_inv m : reachable m -> stm_inv m.
Proof.
  unfold reachable. generalize (new_inv). induction 2 as [|m1 m2 m3 Hs _ IH]; [done|]. eauto using stm_step_inv.
Qed.

(** ** What a lookup decides *)

(** In every state that loading and adding rules, switching, setting the
    resolvers and the country list, lookups and background resolutions reach: a
    published snapshot is the one of the current rules and settings (nothing is
    published only while split tunnelling is off), the rules are in order of
    priority with distinct keys, exactly one background resolution runs per
    pending name, and no shard of the verdict cache holds more than 64 names. *)
Theorem split_tunnel_invariant m : reachable m ->
  (snap m = None /\ isEnabled m = false \/ snap m = Some (snapshot_of shuffle m)) /\
  StronglySorted by_priority (rules m) /\ NoDup (keyOf <$> rules m) /\
  (pending m = list_to_set (fst <$> learning m) /\ NoDup (fst <$> learning m)) /\
  shards_ok (verdicts m).
Proof. intros [H1 H2 H3 H4 H5]%reachable_stm_inv. exact (conj H1 (conj H2 (conj H3 (conj H4 H5)))). Qed.

(** C10: the decision of a reachable manager is the one of the first enabled rule of
    its list that matches: an address literal by the "ip" rules (an address, or a
    network whose leading bits it has), any other target by the "domain",
    "domain-exact" and "domain-keyword" rules on the lower-case name without a
    trailing dot.  Without a rule the country decides, and only for names the
    second result says so; switched off, nothing bypasses the tunnel.  A rule's
    decision changes no state. *)
Theorem bypass_first_match geos now now2 addr m : reachable m ->
  BypassDecision geos now now2 addr m =
  if negb (isEnabled m) then (m, (false, false))
  else match (if looksLikeIP addr then ParseIP addr else None) with
       | Some ip =>
           (m, (match find_index (ip_matches ip) (rules m) with
                | Some i => is_direct_rule (rules m) i
                | None => in_country geos m ip
                end, false))
       | None =>
           let h := ToLower (TrimSuffix addr ".") in
           match find_index (host_matches h) (rules m) with
           | Some i => (m, (is_direct_rule (rules m) i, false))
           | None => let '(m', d) := byCountryVerdict geos now now2 (snapshot_of shuffle m) h m in (m', (d, true))
           end
       end.
Proof using Hsh.
  intros Hr%reachable_stm_inv. destruct (inv_snap m Hr) as [[E He]|E]; unfold BypassDecision, isEnabled; rewrite E.
  { by rewrite He. }
  destruct (snapshot_tables shuffle m) as (Hp & _ & -> & _). destruct (negb (cfg_Enabled (config m))); [done|].
  destruct (if looksLikeIP addr then ParseIP addr else None) as [ip|] eqn:Hip.
  - destruct (looksLikeIP addr); [|done]. rewrite (bypassIP_first shuffle Hsh); [done|].
    split; [by eapply ParseIP_len|by eapply ParseIP_bytes].
  - unfold bypassHostReason. rewrite (best_rule_first _ _ _ _ _ Hp). cbn zeta.
    destruct (find_index (host_matches _) (rules m)) as [i|]; [|done].
    destruct Hp as (Hd & _). rewrite Hd, list_lookup_fmap. unfold is_direct_rule. by destruct (rules m !! i).
Qed.

(** ** Adding a rule *)

(** A stable sort puts one more rule behind those of its priority. *)
Fixpoint insert_after (x : SplitTunnelRule) (l : list SplitTunnelRule) : list SplitTunnelRule :=
  match l with
  | [] => [x]
  | y :: l' => if Priority x <=? Priority y then y :: insert_after x l' else x :: l
  end.

Lemma insert_after_low x l : Forall (fun y => Priority y < Priority x) l -> insert_after x l = x :: l.
Proof. destruct 1 as [|y l Hy _]; cbn; [done|]. by rewrite (proj2 (Z.leb_gt _ _)). Qed.

Lemma sort_id l : StronglySorted by_priority l -> sortRulesByPriority l = l.
Proof.
  induction 1 as [|y l Hl IH Hy]; [done|]. unfold sortRulesByPriority in *. cbn [SliceStable foldr]. fold (SliceStable (fun a b => Priority b <? Priority a) l).
  rewrite IH. destruct Hy as [|z l Hz _]; cbn; [done|]. unfold by_priority in Hz. by rewrite (proj2 (Z.ltb_ge _ _)).
Qed.

Lemma sort_snoc x l : StronglySorted by_priority l -> sortRulesByPriority (l ++ [x]) = insert_after x l.
Proof.
  induction 1 as [|y l Hl IH Hy]; [done|]. unfold sortRulesByPriority in *. cbn [app SliceStable foldr].
  fold (SliceStable (fun a b => Priority b <? Priority a) (l ++ [x])). rewrite IH. cbn [insert_after].
  destruct (Z.leb_spec (Priority x) (Priority y)) as [Hxy|Hxy].
  - destruct Hy as [|z l Hz _]; cbn [insert_after stable_insert]; [by rewrite (proj2 (Z.ltb_ge _ _))|].
    unfold by_priority in Hz. destruct (Priority x <=? Priority z); cbn [stable_insert]; by rewrite (proj2 (Z.ltb_ge _ _)).
  - rewrite insert_after_low by (eapply Forall_impl; [exact Hy|]; unfold by_priority; intros; lia).
    cbn [stable_insert]. rewrite (proj2 (Z.ltb_lt _ _)) by lia. f_equal.
    pose proof (sort_id (y :: l)) as Hid. unfold sortRulesByPriority in Hid. cbn [SliceStable foldr] in Hid.
    fold (SliceStable (fun a b => Priority b <? Priority a) l) in Hid. rewrite sort_id in Hid by done. apply Hid. by constructor.
Qed.

(** A list with distinct keys loses nothing; one more rule with a key seen before is
    dropped. *)
Lemma unique_id seen l : NoDup (keyOf <$> l) -> (forall r, r ∈ l -> keyOf r ∉ seen) -> unique_rules seen l = l.
Proof.
  revert seen. induction l as [|r l IH]; intros seen Hnd Hs; [done|]. cbn in *. apply NoDup_cons in Hnd as [Hn Hnd].
  rewrite decide_False by (apply Hs; by left). f_equal. apply IH; [done|].
  intros s Hs' [E%elem_of_singleton|Hx]%elem_of_union.
  - apply Hn. rewrite <- E. by apply list_elem_of_fmap_2.
  - revert Hx. apply Hs. by right.
Qed.

Lemma unique_insert x l seen :
  NoDup (keyOf <$> l) -> (forall r, r ∈ l -> keyOf r ∉ seen) ->
  (keyOf x ∈ seen \/ exists r, r ∈ l /\ keyOf r = keyOf x /\ Priority x <= Priority r) ->
  StronglySorted by_priority l -> unique_rules seen (insert_after x l) = l.
Proof.
  revert seen. induction l as [|y l IH]; intros seen Hnd Hs Hx Hl.
  { cbn. destruct Hx as [Hx|(r & Hr%not_elem_of_nil & _)]; [|done]. by rewrite decide_True. }
  cbn [insert_after]. cbn in Hnd. apply StronglySorted_inv in Hl as [Hl Hy].
  assert (Hys : keyOf y ∉ seen) by (apply Hs; by left). destruct (Z.leb_spec (Priority x) (Priority y)) as [Hxy|Hxy].
  - cbn [unique_rules]. rewrite decide_False by done. apply NoDup_cons in Hnd as [Hn Hnd]. f_equal.
    apply IH; [done| | |done].
    + intros s Hs' [E%elem_of_singleton|Hin]%elem_of_union; [|revert Hin; apply Hs; by right].
      apply Hn. rewrite <- E. by apply list_elem_of_fmap_2.
    + destruct Hx as [Hx|(r & [->|Hr]%elem_of_cons & E & Hp)]; [left; by apply elem_of_union_r| |right; by exists r].
      left. rewrite <- E. by apply elem_of_union_l, elem_of_singleton.
  - destruct Hx as [Hx|(r & Hr & _ & Hp)].
    + cbn [unique_rules]. rewrite decide_True by done. rewrite decide_False by done. f_equal.
      apply NoDup_cons in Hnd as [Hn Hnd]. apply unique_id; [done|].
      intros s Hs' [E%elem_of_singleton|Hin]%elem_of_union; [|revert Hin; apply Hs; by right].
      apply Hn. rewrite <- E. by apply list_elem_of_fmap_2.
    + exfalso. apply elem_of_cons in Hr as [->|Hr]; [lia|]. rewrite Forall_forall in Hy. specialize (Hy r Hr).
      unfold by_priority in Hy. lia.
Qed.

(** A rule whose kind and lower-case value are those of a rule that is already
    there with at least its priority is thrown away, whatever the two rules do:
    an enabled rule added behind a disabled one has no effect. *)
Theorem add_rule_shadowed r0 r t1 t2 m : reachable m ->
  r0 ∈ rules m -> keyOf r0 = keyOf r -> Priority r <= Priority r0 ->
  rules (AddRule shuffle r t1 t2 m) = rules m.
Proof.
  intros Hm%reachable_stm_inv Hr0 Hk Hp. set (r' := mkRule (Type_ r) (Value r) (Action r) (Description r) (Enabled r) (Priority r) t1 t2).
  change (rules (AddRule shuffle r t1 t2 m)) with (unique_rules ∅ (sortRulesByPriority (rules m ++ [r']))).
  rewrite sort_snoc by apply Hm. apply unique_insert; [apply Hm|intros ? _; apply not_elem_of_empty| |apply Hm].
  right. by exists r0.
Qed.
End Reach.

(** ** The country list *)

Section Geo.
Context (shuffle : list ipRange -> list ipRange) (Hsh : forall l, shuffle l ≡ₚ l).

Definition geo_range_ok (r : ipRange) : Prop :=
  addr16 (lo r) /\ addr16 (hi r) /\ bytes_val (lo r) <= bytes_val (hi r).

(** The network of a line of the list. *)
Definition line_net (line : string) : option IPNet :=
  let line := TrimSpace line in
  if String.eqb line "" || HasPrefix line "#" then None else ParseCIDR line.

Lemma geoip_entry_spec line :
  match line_net line with
  | Some n => exists r, geoip_entry line = Some r /\ geo_range_ok r /\
                forall a, addr16 a -> net_matches n a = true <-> bytes_val (lo r) <= bytes_val a <= bytes_val (hi r)
  | None => geoip_entry line = None
  end.
Proof.
  unfold line_net, geoip_entry. destruct (_ || _); [done|]. destruct (ParseCIDR (TrimSpace line)) as [n|] eqn:Hc; [|done].
  destruct (ParseCIDR_ok _ _ Hc) as (size & o & Hs & Hn).
  destruct (rangeOf_spec n size o Hs Hn) as (r & E & H1 & H2 & H3 & H4). exists r. cbn. split; [done|]. split; [done|].
  intros a Ha. rewrite H4. unfold net_matches. rewrite (net_bits_ok n size o Hn). by rewrite Z.eqb_eq.
Qed.

Lemma geo_entries_ok lines : Forall geo_range_ok (omap geoip_entry lines).
Proof.
  apply Forall_forall. intros r (line & Hl & E)%list_elem_of_omap. pose proof (geoip_entry_spec line) as H.
  destruct (line_net line); [|congruence]. destruct H as (r' & E' & Hok & _). congruence.
Qed.

Lemma parse_sorted lines rs : parseGeoIP shuffle (inr lines) = inr rs ->
  rs ≡ₚ omap geoip_entry lines /\ Forall geo_range_ok rs /\
  StronglySorted (fun r s => bytes_val (hi r) <= bytes_val (hi s)) rs.
Proof using Hsh.
  intros [= <-]. set (l := shuffle (omap geoip_entry lines)).
  assert (Hl : l ≡ₚ omap geoip_entry lines) by apply Hsh.
  assert (Hok : Forall geo_range_ok l) by (rewrite Hl; apply geo_entries_ok).
  split; [by rewrite SliceStable_Permutation|]. split; [by rewrite SliceStable_Permutation|].
  apply (SliceStable_sorted _ geo_range_ok (fun r => bytes_val (hi r))); [|done].
  intros r s (_ & Hr & _) (_ & Hs' & _). unfold hi_before. rewrite addr16_compare by done. unfold Z.ltb. by destruct (_ ?= _).
Qed.

(** Networks of the list are the same or have no address in common. *)
Definition no_nesting (lines : list string) : Prop :=
  forall r s, r ∈ omap geoip_entry lines -> s ∈ omap geoip_entry lines ->
  r = s \/ bytes_val (hi r) < bytes_val (lo s) \/ bytes_val (hi s) < bytes_val (lo r).

(** An address is in the country only if it is in a network of the list; and
    when no two different networks of the list overlap, every address of a network
    of the list is in the country. *)
Theorem country_contains lines rs a :
  addr16 a -> parseGeoIP shuffle (inr lines) = inr rs ->
  (GeoIPSet_Contains (Some rs) a = true -> exists line n, line ∈ lines /\ line_net line = Some n /\ net_matches n a = true) /\
  (no_nesting lines -> forall line n, line ∈ lines -> line_net line = Some n -> net_matches n a = true ->
   GeoIPSet_Contains (Some rs) a = true).
Proof using Hsh.
  intros Ha Hp. destruct (parse_sorted lines rs Hp) as (Hperm & Hok & Hs). rewrite Forall_forall in Hok.
  destruct (range_search_spec hi rs a) as [Hlt Hge]; [|done|done|].
  { apply Forall_forall. intros r Hr. by destruct (Hok r Hr) as (_ & ? & _). }
  unfold GeoIPSet_Contains. rewrite (To16_16 a (proj1 Ha)). set (k := range_search hi rs a) in *. split.
  - destruct (rs !! k) as [r|] eqn:Hk; [|done]. intros Hna. pose proof (list_elem_of_lookup_2 _ _ _ Hk) as Hin.
    destruct (Hok r Hin) as (Hlo & _ & _). apply not_above_le in Hna; [|done..]. specialize (Hge k r Hk ltac:(lia)).
    rewrite Hperm in Hin. apply list_elem_of_omap in Hin as (line & Hl & E). pose proof (geoip_entry_spec line) as H.
    destruct (line_net line) as [n|] eqn:En; [|congruence]. destruct H as (r' & E' & _ & Hm). simplify_eq.
    exists line, n. split_and!; [done|done|by apply Hm].
  - intros Hno line n Hl En Hm. pose proof (geoip_entry_spec line) as H. rewrite En in H. destruct H as (r & E & Hr & Hm').
    apply (Hm' a Ha) in Hm. destruct Hm as [Hm1 Hm2]. assert (Hin : r ∈ omap geoip_entry lines) by (apply list_elem_of_omap; by exists line).
    pose proof Hin as Hin'. rewrite <- Hperm in Hin'. apply list_elem_of_lookup_1 in Hin' as [j Hj].
    destruct (decide (j < k)%nat) as [Hjk|]; [specialize (Hlt j r Hj Hjk); lia|].
    destruct (lookup_lt_is_Some_2 rs k) as [s Hk]; [apply lookup_lt_Some in Hj; lia|]. rewrite Hk.
    pose proof (list_elem_of_lookup_2 _ _ _ Hk) as Hs'. destruct (Hok s Hs') as (Hlo & _ & Hsok).
    apply not_above_le; [done..|]. specialize (Hge k s Hk ltac:(lia)). rewrite Hperm in Hs'.
    assert (Hle : bytes_val (hi s) <= bytes_val (hi r)).
    { destruct (decide (k = j)) as [e|]; [rewrite e in Hk; assert (r = s) as -> by congruence; lia|]. apply (StronglySorted_lookup _ rs k j s r Hs Hk Hj). lia. }
    destruct (Hno r s Hin Hs') as [->|[?|?]]; [done|lia|lia].
Qed.
End Geo.

(** With a network inside another one the list misses addresses: of the lines
    "10.0.0.0/8" and "10.1.0.0/16", 10.0.0.5 is in the first and yet not in the
    country, because only the first range that ends behind it is looked at. *)
Theorem country_misses_nested :
  exists rs a n, parseGeoIP id (inr ["10.0.0.0/8"; "10.1.0.0/16"]%string) = inr rs /\
    ParseIP "10.0.0.5" = Some a /\ line_net "10.0.0.0/8" = Some n /\ net_matches n a = true /\
    GeoIPSet_Contains (Some rs) a = false.
Proof. do 3 eexists. do 4 (split; [vm_compute; reflexivity|]). vm_compute. reflexivity. Qed.

(** ** Witnesses *)

Module Witnesses.
#[local] Instance AsciiOnly : UnicodeCase := {| unicode_lower s := s; unicode_upper s := s |}.

Definition ads : SplitTunnelRule := mkRule "domain" "*.Example.com" "tunnel" "" true 10 0 0.
Definition lan : SplitTunnelRule := mkRule "ip" "10.0.0.0/8" "direct" "" true 5 0 0.
Definition off : SplitTunnelRule := mkRule "ip" "10.0.0.0/8" "tunnel" "" false 7 0 0.

Definition m1 : SplitTunnelManager := SetEnabled id true (AddRule id lan 0 0 (AddRule id ads 0 0 NewSplitTunnelManager)).

Lemma m1_reachable : reachable id m1.
Proof. unfold reachable, m1. repeat (eapply rtc_r; [|constructor]). constructor. Defined.

Lemma split_tunnel_invariant_witness : shards_ok (verdicts m1) /\ NoDup (keyOf <$> rules m1).
Proof. pose proof (split_tunnel_invariant id m1 m1_reachable) as (_ & _ & ? & _ & ?). by split. Defined.

(** A rule decides for the network and for the names below the domain. *)
Lemma bypass_first_match_witness :
  (BypassDecision (fun _ => None) 0 0 "10.2.3.4" m1).2 = (true, false) /\
  (BypassDecision (fun _ => None) 0 0 "Www.example.COM." m1).2 = (false, false) /\
  (BypassDecision (fun _ => None) 0 0 "example.org" m1).2 = (false, true).
Proof.
  split_and!.
  - rewrite (bypass_first_match id (fun l => reflexivity l) (fun _ => None) 0 0 "10.2.3.4" m1 m1_reachable). vm_compute. reflexivity.
  - rewrite (bypass_first_match id (fun l => reflexivity l) (fun _ => None) 0 0 "Www.example.COM." m1 m1_reachable). vm_compute. reflexivity.
  - rewrite (bypass_first_match id (fun l => reflexivity l) (fun _ => None) 0 0 "example.org" m1 m1_reachable). vm_compute. reflexivity.
Defined.

Definition m2 : SplitTunnelManager := AddRule id off 0 0 NewSplitTunnelManager.

Lemma add_rule_shadowed_witness : rules (AddRule id lan 1 1 m2) = [off].
Proof.
  rewrite (add_rule_shadowed id off lan 1 1 m2); [vm_compute; reflexivity| | |vm_compute; reflexivity|vm_compute; discriminate].
  - unfold reachable, m2. repeat (eapply rtc_r; [|constructor]). constructor.
  - vm_compute. by left.
Defined.

Lemma country_contains_witness :
  exists rs, parseGeoIP id (inr ["# list"; "10.0.0.0/8"; "192.168.0.0/16"]%string) = inr rs /\
    GeoIPSet_Contains (Some rs) [0;0;0;0;0;0;0;0;0;0;255;255;10;1;2;3] = true.
Proof.
  eexists. split; [reflexivity|].
  eapply (country_contains id (fun l => reflexivity l) ["# list"; "10.0.0.0/8"; "192.168.0.0/16"]%string); [split; [reflexivity|repeat (apply List.Forall_cons; [by unfold is_byte|]); apply List.Forall_nil]|reflexivity| |by apply list_elem_of_further, list_elem_of_here|vm_compute; reflexivity|vm_compute; reflexivity].
  assert (E : omap geoip_entry ["# list"; "10.0.0.0/8"; "192.168.0.0/16"]%string =
      [mkRange [0;0;0;0;0;0;0;0;0;0;255;255;10;0;0;0] [0;0;0;0;0;0;0;0;0;0;255;255;10;255;255;255];
       mkRange [0;0;0;0;0;0;0;0;0;0;255;255;192;168;0;0] [0;0;0;0;0;0;0;0;0;0;255;255;192;168;255;255]]) by (vm_compute; reflexivity).
  intros r s. rewrite E, !elem_of_cons, !elem_of_nil.
  intros [->|[->|[]]] [->|[->|[]]]; [left; reflexivity|right; left; vm_compute; reflexivity|right; right; vm_compute; reflexivity|left; reflexivity].
Defined.
End Witnesses.
