(* ===== verification/Tunnel.v ===== *)
(** Small state machines around the tunnel: the tunnel state and its ready
    channel (core/tunnel/state_machine.go), the circuit breaker
    (core/tunnel/circuit_breaker.go) and the per-address connection slots of
    the server (app/server/conn_limiter.go).

    A channel that is only ever closed is a flag in the list of channels made
    so far.  Each method runs under its lock and is one step; it returns the
    calls of [onChange] it makes.  Times are nanoseconds, except in the
    limiter's log, which counts seconds. *)

From S2P Require Import Prelude.

(** ** state_machine.go *)

Module StateMachine.

Inductive TunnelState :=
  | StateDisconnected | StateConnecting | StateConnected
  | StateReconnecting | StateRotating | StateError.

#[global] Instance TunnelState_eq_dec : EqDecision TunnelState.
Proof. solve_decision. Defined.

Definition TunnelState_String (s : TunnelState) : string :=
  match s with
  | StateDisconnected => "disconnected"
  | StateConnecting => "connecting"
  | StateConnected => "connected"
  | StateReconnecting => "reconnecting"
  | StateRotating => "rotating"
  | StateError => "error"
  end.

(** [chans]: the channels made so far, true when closed; [ready] is one. *)
Record tunnelStateMachine := mkSM {
  state : TunnelState;
  lastError : option string;
  ready : nat;
  chans : list bool
}.

Definition newTunnelStateMachine : tunnelStateMachine := mkSM StateDisconnected None 0 [false].

Definition is_connected (s : TunnelState) : bool :=
  bool_decide (s = StateConnected) || bool_decide (s = StateRotating).
Definition IsConnected (sm : tunnelStateMachine) : bool := is_connected (state sm).

(** [<-sm.ready] would not block. *)
Definition is_closed (sm : tunnelStateMachine) (ch : nat) : bool := default false (chans sm !! ch).

Definition syncReady (sm : tunnelStateMachine) : tunnelStateMachine :=
  if is_closed sm (ready sm) then
    if negb (IsConnected sm)
    then mkSM (state sm) (lastError sm) (length (chans sm)) (chans sm ++ [false])
    else sm
  else
    if IsConnected sm
    then mkSM (state sm) (lastError sm) (ready sm) (<[ready sm := true]> (chans sm))
    else sm.

(** The assignment shared by [Set] and [CompareAndSet]. *)
Definition assign (sm : tunnelStateMachine) (s : TunnelState) : tunnelStateMachine :=
  syncReady (mkSM s (if decide (s = StateError) then lastError sm else None) (ready sm) (chans sm)).

Definition changed (old new : TunnelState) : list (TunnelState * TunnelState) :=
  if decide (old = new) then [] else [(old, new)].

Definition Set_ (sm : tunnelStateMachine) (s : TunnelState)
  : tunnelStateMachine * list (TunnelState * TunnelState) :=
  (assign sm s, changed (state sm) s).

Definition CompareAndSet (sm : tunnelStateMachine) (newState : TunnelState) (blocked : list TunnelState)
  : tunnelStateMachine * list (TunnelState * TunnelState) * (TunnelState * bool) :=
  if decide (state sm ∈ blocked) then (sm, [], (state sm, true))
  else (assign sm newState, changed (state sm) newState, (state sm, false)).

(** [SetError] does not call [onChange]. *)
Definition SetError (sm : tunnelStateMachine) (e : string) : tunnelStateMachine :=
  syncReady (mkSM StateError (Some e) (ready sm) (chans sm)).

Definition Get (sm : tunnelStateMachine) : TunnelState := state sm.
Definition LastError (sm : tunnelStateMachine) : option string := lastError sm.
Definition Ready (sm : tunnelStateMachine) : nat := ready sm.

(** *** Facts *)

Inductive op := OpSet (s : TunnelState) | OpCAS (s : TunnelState) (blocked : list TunnelState)
              | OpError (e : string).

(** A machine and the state its listener was last told. *)
Definition apply_op (x : tunnelStateMachine * TunnelState) (o : op) : tunnelStateMachine * TunnelState :=
  let '(sm, seen) := x in
  let '(sm', ev) := match o with
                    | OpSet s => Set_ sm s
                    | OpCAS s b => let '(sm', ev, _) := CompareAndSet sm s b in (sm', ev)
                    | OpError e => (SetError sm e, [])
                    end in
  (sm', foldl (fun _ e => e.2) seen ev).

Definition run (ops : list op) : tunnelStateMachine * TunnelState :=
  foldl apply_op (newTunnelStateMachine, StateDisconnected) ops.

Definition sm_inv (sm : tunnelStateMachine) : Prop :=
  (ready sm < length (chans sm))%nat /\ is_closed sm (ready sm) = IsConnected sm /\
  (forall ch, (ch < length (chans sm))%nat -> ch <> ready sm -> is_closed sm ch = true) /\
  (lastError sm <> None -> state sm = StateError).

(** A machine whose channels are in order but whose flag may lag one state. *)
Lemma syncReady_inv sm :
  (ready sm < length (chans sm))%nat ->
  (forall ch, (ch < length (chans sm))%nat -> ch <> ready sm -> is_closed sm ch = true) ->
  (lastError sm <> None -> state sm = StateError) ->
  sm_inv (syncReady sm) /\ state (syncReady sm) = state sm.
Proof.
  intros Hr Hc He. unfold syncReady.
  destruct (is_closed sm (ready sm)) eqn:Hcl, (IsConnected sm) eqn:Hcon; cbn [negb];
    (split; [|done]); unfold sm_inv; cbn.
  - split_and!; [done|congruence|done|done].
  - rewrite length_app. cbn. split_and!; [lia| | |done].
    + unfold is_closed. cbn. rewrite list_lookup_middle by done. done.
    + intros ch Hch Hne. unfold is_closed in *. cbn. rewrite lookup_app_l by lia.
      destruct (decide (ch = ready sm)) as [->|]; [done|]. apply Hc; [lia|done].
  - rewrite length_insert. split_and!; [done| | |done].
    + unfold is_closed. cbn. rewrite list_lookup_insert_eq by done. done.
    + intros ch Hch Hne. unfold is_closed in *. cbn. rewrite list_lookup_insert_ne by done. by apply Hc.
  - split_and!; [done|congruence|done|done].
Qed.

Lemma assign_inv sm s : sm_inv sm -> sm_inv (assign sm s) /\ state (assign sm s) = s.
Proof.
  intros (H1 & _ & H3 & H4). unfold assign. apply syncReady_inv; [done|done|]. cbn.
  by destruct (decide (s = StateError)).
Qed.

Lemma changed_seen old new : foldl (fun _ e => e.2) old (changed old new) = new.
Proof. unfold changed. by destruct (decide (old = new)). Qed.

(** Whether the listener knows the current state. *)
Definition told (x : tunnelStateMachine * TunnelState) : Prop := x.2 = state x.1.

Lemma apply_op_inv x o :
  sm_inv x.1 ->
  sm_inv (apply_op x o).1 /\
  (told x -> (forall e, o <> OpError e) -> told (apply_op x o)).
Proof.
  destruct x as [sm seen]. unfold told. cbn [fst snd]. intros Hi.
  destruct o as [s|s b|e]; cbn.
  - destruct (assign_inv sm s Hi) as [H1 H2]. split; [done|]. intros -> _. by rewrite changed_seen, H2.
  - unfold CompareAndSet. destruct (decide _); cbn; [by split|].
    destruct (assign_inv sm s Hi) as [H1 H2]. split; [done|]. intros -> _. by rewrite changed_seen, H2.
  - destruct Hi as (H1 & _ & H3 & _). split; [by apply syncReady_inv|]. intros _ H. by destruct (H e).
Qed.

(** After any sequence of operations the ready channel is closed exactly
    when the tunnel is connected or rotating, every ready channel handed out
    before it is closed, so that nobody waits on one for ever, and an error is
    kept only in the error state; and as long as no operation is [SetError] the
    listener was last told the current state. *)
Theorem ready_iff_connected ops :
  let '(sm, seen) := run ops in
  is_closed sm (Ready sm) = IsConnected sm /\
  (forall ch, (ch < length (chans sm))%nat -> ch <> Ready sm -> is_closed sm ch = true) /\
  (LastError sm <> None -> Get sm = StateError) /\
  (Forall (fun o => forall e, o <> OpError e) ops -> seen = Get sm).
Proof.
  assert (H : sm_inv (run ops).1 /\ (Forall (fun o => forall e, o <> OpError e) ops -> told (run ops))).
  { unfold run. induction ops as [|o ops IH] using rev_ind.
    - split; [|done]. unfold sm_inv. cbn. split_and!; [lia|done| |done]. intros [|ch]; [done|lia].
    - rewrite foldl_app. cbn [foldl]. destruct IH as [I1 I2]. destruct (apply_op_inv _ o I1) as [J1 J2].
      split; [done|]. rewrite Forall_app, Forall_singleton. intros [H1 H2]. auto. }
  destruct (run ops) as [sm seen]. destruct H as [(H1 & H2 & H3 & H4) H5]. by split_and!.
Qed.

(** Once an error is set the listener is not told. *)
Example error_not_told :
  run [OpSet StateConnecting; OpSet StateConnected; OpError "reset"] =
  (mkSM StateError (Some "reset"%string) 1 [true; false], StateConnected).
Proof. reflexivity. Qed.

Lemma ready_iff_connected_witness :
  let sm := (run [OpSet StateConnected; OpError "reset"; OpSet StateConnected]).1 in
  is_closed sm (Ready sm) = true /\ is_closed sm 0 = true.
Proof.
  pose proof (ready_iff_connected [OpSet StateConnected; OpError "reset"; OpSet StateConnected]) as H.
  cbv zeta. split; [|vm_compute; reflexivity].
  destruct (run _) as [sm seen] eqn:E. destruct H as (H & _). cbn [fst]. rewrite H.
  vm_compute in E. injection E as <- <-. reflexivity.
Defined.

End StateMachine.

(** ** circuit_breaker.go *)

Module Breaker.

Definition cbThreshold : Z := 5.
Definition cbResetTime : Z := 30000000000.

Inductive cbState := cbClosed | cbOpen | cbHalfOpen.

Record circuitBreaker := mkCB { failures : Z; lastFailure : Z; state : cbState }.

Definition newCircuitBreaker : circuitBreaker := mkCB 0 0 cbClosed.

Definition Allow (now : Z) (cb : circuitBreaker) : circuitBreaker * bool :=
  match state cb with
  | cbOpen =>
      if cbResetTime <? now - lastFailure cb
      then (mkCB (failures cb) (lastFailure cb) cbHalfOpen, true)
      else (cb, false)
  | _ => (cb, true)
  end.

Definition Fail (now : Z) (cb : circuitBreaker) : circuitBreaker :=
  let n := failures cb + 1 in
  mkCB n now (match state cb with
              | cbHalfOpen => cbOpen
              | s => if cbThreshold <=? n then cbOpen else s
              end).

Definition Success (cb : circuitBreaker) : circuitBreaker := mkCB 0 (lastFailure cb) cbClosed.
Definition Failures (cb : circuitBreaker) : Z := failures cb.

(** *** Facts *)

Inductive op := OpAllow (now : Z) | OpFail (now : Z) | OpSuccess.

Definition apply_op (cb : circuitBreaker) (o : op) : circuitBreaker :=
  match o with
  | OpAllow now => (Allow now cb).1
  | OpFail now => Fail now cb
  | OpSuccess => Success cb
  end.
Definition run (ops : list op) : circuitBreaker := foldl apply_op newCircuitBreaker ops.

(** What the history says: the failures since the last success, latest first. *)
Definition recent_failures (ops : list op) : list Z :=
  foldl (fun fs o => match o with OpFail now => now :: fs | OpSuccess => [] | _ => fs end) [] ops.

(** The abstract state: recent failures and the probe. *)
Definition absf (x : list Z * bool) (o : op) : list Z * bool :=
  let '(fs, p) := x in
  match o with
  | OpFail now => (now :: fs, false)
  | OpSuccess => ([], false)
  | OpAllow now =>
      (fs, p || match fs with
                | t :: _ => (cbThreshold <=? len fs) && (cbResetTime <? now - t)
                | [] => false
                end)
  end.

(** Whether a call was let through after the pause since the last failure. *)
Definition probed (ops : list op) : bool := (foldl absf ([], false) ops).2.

Definition simulates (cb : circuitBreaker) (x : list Z * bool) : Prop :=
  failures cb = zlen x.1 /\ (forall t fs, x.1 = t :: fs -> lastFailure cb = t) /\
  state cb = (if zlen x.1 <? cbThreshold then cbClosed else if x.2 then cbHalfOpen else cbOpen) /\
  (x.2 = true -> cbThreshold <= zlen x.1).

Lemma simulates_step cb x o : simulates cb x -> simulates (apply_op cb o) (absf x o).
Proof.
  destruct x as [fs p]. intros (H1 & H2 & H3 & H4). unfold simulates in *. cbn [fst snd] in *.
  pose proof (zlen_nonneg fs).
  destruct o as [now|now|]; cbn [apply_op absf fst snd]; unfold cbThreshold in *.
  - unfold Allow. rewrite H3. destruct (Z.ltb_spec (len fs) 5) as [Hlt|Hge].
    + assert (Hp : p = false) by (destruct p; [specialize (H4 eq_refl); lia|done]). subst p.
      assert (Hn : match fs with
                   | t :: _ => (5 <=? len fs) && (cbResetTime <? now - t) | [] => false end = false).
      { destruct fs; [done|]. by rewrite (proj2 (Z.leb_gt _ _)) by lia. }
      cbn [orb]. rewrite Hn. done.
    + destruct fs as [|t fs]; [rewrite zlen_nil in Hge; lia|]. rewrite (H2 t fs eq_refl).
      rewrite (proj2 (Z.leb_le 5 (len (t :: fs)))) by lia. cbn [andb].
      destruct p; cbn [orb fst snd]; [done|].
      destruct (cbResetTime <? now - t); cbn [fst snd failures lastFailure state];
        split_and!; try done; intros t' fs' [= <- <-]; by rewrite ?(H2 t fs).
  - rewrite zlen_cons. cbn. split_and!; [lia|by intros t fs' [= <- _]| |done].
    rewrite H3, H1. unfold cbThreshold. destruct (Z.ltb_spec (len fs) 5) as [Hlt|Hge].
    + destruct (Z.leb_spec 5 (len fs + 1)), (Z.ltb_spec (1 + len fs) 5); try lia; done.
    + rewrite (proj2 (Z.ltb_ge (1 + len fs) 5)) by lia.
      destruct p; [done|]. by rewrite (proj2 (Z.leb_le 5 (len fs + 1))) by lia.
  - cbn. split_and!; done.
Qed.

Lemma simulates_run ops : simulates (run ops) (foldl absf ([], false) ops).
Proof.
  unfold run. induction ops as [|o ops IH] using rev_ind; [by split_and!|].
  rewrite !foldl_app. cbn [foldl]. by apply simulates_step.
Qed.

Lemma recent_failures_abs ops : (foldl absf ([], false) ops).1 = recent_failures ops.
Proof.
  unfold recent_failures. induction ops as [|o ops IH] using rev_ind; [done|].
  rewrite !foldl_app. cbn [foldl]. rewrite <- IH. destruct (foldl absf _ ops). by destruct o.
Qed.

(** After any history of the breaker, [Allow] refuses exactly when there
    were at least five failures since the last success, the last of them at
    most thirty seconds ago, and no call has been let through as a probe since
    it: four failures never block, and a blocked breaker always opens again. *)
Theorem breaker_blocks_iff ops now :
  (Allow now (run ops)).2 = false <->
  probed ops = false /\ cbThreshold <= len (recent_failures ops) /\
  exists t fs, recent_failures ops = t :: fs /\ now - t <= cbResetTime.
Proof.
  pose proof (simulates_run ops) as (H1 & H2 & H3 & H4). rewrite recent_failures_abs in *.
  change (foldl absf ([], false) ops).2 with (probed ops) in *. unfold Allow. rewrite H3.
  unfold cbThreshold in *. destruct (Z.ltb_spec (len (recent_failures ops)) 5) as [Hlt|Hge].
  { split; [done|]. intros (_ & Hge & _). lia. }
  destruct (probed ops); [by split; [|intros [? _]]|].
  destruct (recent_failures ops) as [|t fs] eqn:E; [rewrite zlen_nil in Hge; lia|].
  rewrite (H2 t fs eq_refl). destruct (Z.ltb_spec cbResetTime (now - t)) as [Hl|Hl]; cbn.
  - split; [done|]. intros (_ & _ & t' & fs' & [= <- <-] & Hn). lia.
  - split; [|done]. intros _. split_and!; [done|lia|]. exists t, fs. split; [done|lia].
Qed.

End Breaker.

(** ** conn_limiter.go *)

Module ConnLimiter.

Definition maxTCPConnsPerIP : Z := 200.
Definition refusalLogInterval : Z := 60.

(** [slots]: the [release] functions handed out, with the address and whether
    their [sync.Once] has fired. *)
Record limiter := mkLimiter {
  perIP : gmap string Z;
  slots : list (string * bool);
  lastRefusalLog : Z
}.

Definition newLimiter : limiter := mkLimiter ∅ [] 0.

(** [logRefusal] at second [now], alone or losing the swap: the new time of the
    last log line and whether one is written. *)
Definition logRefusal (now : Z) (lost : bool) (prev : Z) : Z * bool :=
  if (now - prev <? refusalLogInterval) || lost then (prev, false) else (now, true).

(** [acquireConnSlot] for the host [ip] of the address: the index of the slot
    when it is granted. *)
Definition acquireConnSlot (now : Z) (ip : string) (l : limiter) : limiter * option nat :=
  let n := default 0 (perIP l !! ip) in
  if maxTCPConnsPerIP <=? n then
    (mkLimiter (perIP l) (slots l) (logRefusal now false (lastRefusalLog l)).1, None)
  else
    (mkLimiter (<[ip := n + 1]> (perIP l)) (slots l ++ [(ip, false)]) (lastRefusalLog l),
     Some (length (slots l))).

(** Calling the [release] function of slot [i]. *)
Definition release (i : nat) (l : limiter) : limiter :=
  match slots l !! i with
  | Some (ip, false) =>
      let n := default 0 (perIP l !! ip) - 1 in
      mkLimiter (if n <=? 0 then delete ip (perIP l) else <[ip := n]> (perIP l))
                (<[i := (ip, true)]> (slots l)) (lastRefusalLog l)
  | _ => l
  end.

(** *** Facts *)

Inductive op := Acquire (now : Z) (ip : string) | Release (i : nat).
Definition apply_op (l : limiter) (o : op) : limiter :=
  match o with
  | Acquire now ip => (acquireConnSlot now ip l).1
  | Release i => release i l
  end.
Definition run (ops : list op) : limiter := foldl apply_op newLimiter ops.

(** The slots of an address that are held. *)
Definition held (l : limiter) (ip : string) : Z := len (filter (fun s => s = (ip, false)) (slots l)).

Definition limiter_inv (l : limiter) : Prop :=
  forall ip, default 0 (perIP l !! ip) = held l ip /\ held l ip <= maxTCPConnsPerIP.

Lemma held_release l i ip :
  slots l !! i = Some (ip, false) ->
  forall ip', len (filter (fun s => s = (ip', false)) (<[i := (ip, true)]> (slots l))) =
    held l ip' - if decide (ip = ip') then 1 else 0.
Proof.
  intros Hi ip'. unfold held, zlen. rewrite insert_take_drop by by eapply lookup_lt_Some.
  rewrite <- (take_drop_middle (slots l) i _ Hi) at 3.
  rewrite !filter_app, !filter_cons, !length_app.
  rewrite (decide_False (P := (ip, true) = (ip', false))) by congruence.
  destruct (decide (ip = ip')) as [->|Hne].
  - rewrite (decide_True (P := (ip', false) = (ip', false))) by done. simpl. lia.
  - rewrite (decide_False (P := (ip, false) = (ip', false))) by congruence. simpl. lia.
Qed.

Lemma limiter_inv_step l o : limiter_inv l -> limiter_inv (apply_op l o).
Proof.
  intros Hi. destruct o as [now ip|i]; cbn.
  - unfold acquireConnSlot. destruct (Z.leb_spec maxTCPConnsPerIP (default 0 (perIP l !! ip))) as [|Hlt];
      [exact Hi|]. intros ip'. destruct (Hi ip') as [H1 H2]. cbn [fst].
    unfold held in *. cbn [slots perIP]. rewrite filter_app, zlen_app.
    destruct (decide (ip = ip')) as [<-|Hne].
    + rewrite lookup_insert_eq, filter_cons, decide_True by done. cbn.
      change (zlen [(ip, false)]) with 1. rewrite H1 in *. lia.
    + rewrite lookup_insert_ne, filter_cons, decide_False by congruence. cbn. change (zlen (@nil (string * bool))) with 0. lia.
  - unfold release. destruct (slots l !! i) as [[ip [|]]|] eqn:Hs; [exact Hi| |exact Hi].
    intros ip'. destruct (Hi ip') as [H1 H2]. destruct (Hi ip) as [H3 _].
    pose proof (held_release l i ip Hs ip') as Hh. unfold held at 1 2. cbn [slots perIP]. rewrite Hh.
    pose proof (zlen_nonneg (filter (fun s => s = (ip', false)) (<[i := (ip, true)]> (slots l)))) as Hnn.
    rewrite Hh in Hnn. rewrite H3. split; [|destruct (decide _); lia].
    destruct (decide (ip = ip')) as [<-|Hne].
    + destruct (Z.leb_spec (held l ip - 1) 0).
      * rewrite lookup_delete_eq. cbn. lia.
      * by rewrite lookup_insert_eq.
    + destruct (_ <=? _); [rewrite lookup_delete_ne by done|rewrite lookup_insert_ne by done]; lia.
Qed.

(** After any sequence of acquisitions and releases, also releases called
    twice, the counter of an address is the number of its slots that are held,
    which is at most 200; a new slot is granted exactly when fewer are held,
    and an address without slots takes no room in the table. *)
Theorem slots_counted ops now ip :
  let l := run ops in
  default 0 (perIP l !! ip) = held l ip /\ held l ip <= maxTCPConnsPerIP /\
  (is_Some (acquireConnSlot now ip l).2 <-> held l ip < maxTCPConnsPerIP).
Proof.
  cbv zeta. assert (Hi : limiter_inv (run ops)).
  { unfold run. induction ops as [|o ops IH] using rev_ind.
    - intros ip'. cbn. by rewrite lookup_empty.
    - rewrite foldl_app. by apply limiter_inv_step. }
  destruct (Hi ip) as [H1 H2]. split_and!; [done|done|]. unfold acquireConnSlot. rewrite H1.
  destruct (Z.leb_spec maxTCPConnsPerIP (held (run ops) ip)); cbn.
  - split; [by intros [? [=]]|lia].
  - split; [lia|eauto].
Qed.

End ConnLimiter.
