(* ===== verification/Dns.v ===== *)
(** The DNS wire format of common/dns/dns_wire.go: building a query and parsing
    a response.

    An index out of range is a panic in Go: reads of the response go through
    [at_], and a computation is a value, a panic, or a loop that has not ended
    within its fuel. *)

From S2P Require Import Prelude GoStr NetIP.

Module Dns.

Inductive run (A : Type) := Ret (a : A) | Panic | Hang.
Arguments Ret {A}. Arguments Panic {A}. Arguments Hang {A}.

Definition run_bind {A B} (x : run A) (f : A -> run B) : run B :=
  match x with
  | Ret a => f a
  | Panic => Panic
  | Hang => Hang
  end.
Notation "'let*' x := e 'in' k" := (run_bind e (fun x => k))
  (at level 10, x name, e at level 100, k at level 200) : go_scope.

(** [b[i]]. *)
Definition at_ (b : list Z) (i : Z) : run Z :=
  if 0 <=? i then match b !! Z.to_nat i with Some v => Ret v | None => Panic end else Panic.
(** [b[i:j]]. *)
Definition slice_ (b : list Z) (i j : Z) : run (list Z) :=
  if (0 <=? i) && (i <=? j) && (j <=? len b) then Ret (zslice i j b) else Panic.

Definition dnsTypeA : Z := 1.
Definition dnsTypeAAAA : Z := 28.

(** [mergeDualStack]: [query] gives the addresses or an error. *)
Definition mergeDualStack {E} (query : Z -> E + list IP) : E + list IP :=
  match query dnsTypeA, query dnsTypeAAAA with
  | inl e4, inl _ => inl e4
  | r4, r6 =>
      inr (match r4 with inr v => v | inl _ => [] end ++ match r6 with inr v => v | inl _ => [] end)
  end.

(** [buildDNSMsg]: [rand] is what the random source gave, [None] when it
    failed. *)
Definition dns_id (rand : option (Z * Z)) : Z * Z := default (18, 52) rand.
Definition label_bytes (label : list Z) : list Z := u8 (len label) :: label.
Definition buildDNSMsg (rand : option (Z * Z)) (domain : string) (qtype : Z) : list Z * (Z * Z) :=
  let id := dns_id rand in
  let labels := split_all 46 (bytes_of_string (TrimSuffix domain ".")) in
  ([id.1; id.2; 1; 0; 0; 1; 0; 0; 0; 0; 0; 0] ++ concat (label_bytes <$> labels) ++ [0]
   ++ [u8 (Z.shiftr qtype 8); u8 qtype] ++ [0; 1], id).

(** ** parseDNSResponse *)

Inductive dns_error :=
  | ErrTooShort (n : Z) | ErrIDMismatch | ErrRcode (n : Z) | ErrNoAnswers | ErrNoRecords.

(** The loop over the labels of the question. *)
Fixpoint skip_question (fuel : nat) (r : list Z) (offset : Z) : run Z :=
  if offset <? len r then
    match fuel with
    | O => Hang
    | S fuel =>
        let* b := at_ r offset in
        if b =? 0 then Ret (offset + 1)
        else if Z.land b 192 =? 192 then Ret (offset + 2)
        else skip_question fuel r (offset + b + 1)
    end
  else Ret offset.

(** [for offset < len(response) && response[offset] != 0]. *)
Fixpoint skip_labels (fuel : nat) (r : list Z) (offset : Z) : run Z :=
  if offset <? len r then
    match fuel with
    | O => Hang
    | S fuel =>
        let* b := at_ r offset in
        if b =? 0 then Ret offset else skip_labels fuel r (offset + b + 1)
    end
  else Ret offset.

Definition read16 (r : list Z) (offset : Z) : run Z :=
  let* hi := at_ r offset in
  let* lo := at_ r (offset + 1) in
  Ret (Z.lor (Z.shiftl hi 8) lo).

(** The owner name of an answer. *)
Definition skip_name (r : list Z) (offset : Z) : run Z :=
  let* b := at_ r offset in
  if Z.land b 192 =? 192 then Ret (offset + 2)
  else
    let* o := skip_labels (length r) r offset in
    Ret (o + 1).

(** The loop over the answers; [n] is how many are left to look for. *)
Fixpoint answers (n : nat) (r : list Z) (offset : Z) (ips : list IP) : run (list IP) :=
  match n with
  | O => Ret ips
  | S n =>
      if negb (offset <? len r) then Ret ips
      else
        let* o1 := skip_name r offset in
        if len r <? o1 + 10 then Ret ips
        else
          let* rtype := read16 r o1 in
          let* rdlen := read16 r (o1 + 8) in
          let o2 := o1 + 10 in
          if len r <? o2 + rdlen then Ret ips
          else if (rtype =? 1) && (rdlen =? 4) then
            let* ip := slice_ r o2 (o2 + 4) in
            answers n r (o2 + rdlen) (ips ++ [ip])
          else if (rtype =? 28) && (rdlen =? 16) then
            let* ip := slice_ r o2 (o2 + 16) in
            answers n r (o2 + rdlen) (ips ++ [ip])
          else answers n r (o2 + rdlen) ips
  end.

Definition parseDNSResponse (r : list Z) (wantID : Z * Z) : run (dns_error + list IP) :=
  if len r <? 12 then Ret (inl (ErrTooShort (len r)))
  else
    let* i0 := at_ r 0 in
    let* i1 := at_ r 1 in
    if negb (i0 =? wantID.1) || negb (i1 =? wantID.2) then Ret (inl ErrIDMismatch)
    else
      let* b3 := at_ r 3 in
      let rcode := Z.land b3 15 in
      if negb (rcode =? 0) then Ret (inl (ErrRcode rcode))
      else
        let* ancount := read16 r 6 in
        if ancount =? 0 then Ret (inl ErrNoAnswers)
        else
          let* off := skip_question (length r) r 12 in
          let* ips := answers (Z.to_nat ancount) r (off + 4) [] in
          if len ips =? 0 then Ret (inl ErrNoRecords) else Ret (inr ips).

(** ** Facts *)

Section Safe.
Context (r : list Z) (r_bytes : Forall is_byte r).

Lemma at_safe i : 0 <= i < len r -> exists v, at_ r i = Ret v /\ 0 <= v < 256.
Proof.
  intros Hi. unfold at_. rewrite (proj2 (Z.leb_le 0 i)) by lia.
  destruct (r !! Z.to_nat i) as [v|] eqn:E.
  - exists v. split; [done|]. rewrite Forall_forall in r_bytes.
    apply r_bytes, list_elem_of_lookup_2 with (Z.to_nat i). done.
  - apply lookup_ge_None in E. unfold zlen in Hi. lia.
Qed.

Lemma read16_safe i : 0 <= i -> i + 1 < len r -> exists v, read16 r i = Ret v /\ 0 <= v < 65536.
Proof.
  intros H0 H1. unfold read16. destruct (at_safe i) as (a & -> & Ha); [lia|].
  destruct (at_safe (i + 1)) as (b & -> & Hb); [lia|]. cbn [run_bind]. eexists. split; [done|].
  rewrite lor_shiftl_add by (change (2 ^ 8) with 256; lia). change (2 ^ 8) with 256. lia.
Qed.

Lemma slice_safe i n : 0 <= i -> 0 <= n -> i + n <= len r ->
  exists ip, slice_ r i (i + n) = Ret ip /\ zlen ip = n /\ zslice i (i + n) r = ip.
Proof.
  intros H0 H1 H2. unfold slice_.
  rewrite (proj2 (Z.leb_le 0 i)), (proj2 (Z.leb_le i (i + n))), (proj2 (Z.leb_le (i + n) (len r))) by lia.
  eexists. split; [done|]. split; [|done]. unfold zslice. replace (i + n - i) with n by lia.
  apply zlen_ztake. rewrite zlen_zdrop by lia. lia.
Qed.

(** A loop that moves forward by at least one byte ends within the length. *)
Lemma skip_question_ends fuel : forall off,
  0 <= off -> len r - off <= Z.of_nat fuel -> exists o, skip_question fuel r off = Ret o /\ off <= o.
Proof.
  induction fuel as [|fuel IH]; intros off H0 Hf; cbn [skip_question];
    destruct (Z.ltb_spec off (len r)) as [Hlt|Hge]; try lia; eauto with lia.
  destruct (at_safe off) as (b & -> & Hb); [lia|]. cbn [run_bind].
  destruct (Z.eqb_spec b 0); [eexists; split; [done|lia]|].
  destruct (Z.land b 192 =? 192); [eexists; split; [done|lia]|].
  destruct (IH (off + b + 1)) as (o & E & Ho); [lia..|]. exists o. split; [done|lia].
Qed.

Lemma skip_labels_ends fuel : forall off,
  0 <= off -> len r - off <= Z.of_nat fuel -> exists o, skip_labels fuel r off = Ret o /\ off <= o.
Proof.
  induction fuel as [|fuel IH]; intros off H0 Hf; cbn [skip_labels];
    destruct (Z.ltb_spec off (len r)) as [Hlt|Hge]; try lia; eauto with lia.
  destruct (at_safe off) as (b & -> & Hb); [lia|]. cbn [run_bind].
  destruct (Z.eqb_spec b 0); [eexists; split; [done|lia]|].
  destruct (IH (off + b + 1)) as (o & E & Ho); [lia..|]. exists o. split; [done|lia].
Qed.

Lemma skip_name_ends off : 0 <= off < len r -> exists o, skip_name r off = Ret o /\ off < o.
Proof.
  intros Ho. unfold skip_name. destruct (at_safe off) as (b & -> & Hb); [done|]. cbn [run_bind].
  destruct (Z.land b 192 =? 192); [eexists; split; [done|lia]|].
  destruct (skip_labels_ends (length r) off) as (o & -> & Hle); [lia|unfold zlen; lia|].
  cbn [run_bind]. eexists. split; [done|lia].
Qed.

(** An address of the right length that is part of the response. *)
Definition from_response (ip : IP) : Prop :=
  (zlen ip = 4 \/ zlen ip = 16) /\
  exists o, 0 <= o /\ o + zlen ip <= len r /\ ip = zslice o (o + zlen ip) r.

Lemma answers_safe n : forall off ips,
  0 <= off -> Forall from_response ips ->
  exists out, answers n r off ips = Ret out /\ Forall from_response out /\
    zlen ips <= zlen out <= zlen ips + Z.of_nat n.
Proof.
  induction n as [|n IH]; intros off ips H0 Hips; cbn [answers].
  { eexists. split_and!; [done|done|lia..]. }
  destruct (Z.ltb_spec off (len r)) as [Hlt|Hge]; cbn [negb].
  2: { eexists. split_and!; [done|done|lia..]. }
  destruct (skip_name_ends off) as (o1 & -> & Ho1); [lia|]. cbn [run_bind].
  destruct (Z.ltb_spec (len r) (o1 + 10)) as [|Hroom]; [eexists; split_and!; [done|done|lia..]|].
  destruct (read16_safe o1) as (rtype & -> & Ht); [lia..|]. cbn [run_bind].
  destruct (read16_safe (o1 + 8)) as (rdlen & -> & Hl); [lia..|]. cbn [run_bind].
  destruct (Z.ltb_spec (len r) (o1 + 10 + rdlen)) as [|Hfit]; [eexists; split_and!; [done|done|lia..]|].
  assert (Hrec : forall k, (k = 4 \/ k = 16) -> k = rdlen ->
    exists out, (let* ip := slice_ r (o1 + 10) (o1 + 10 + k) in
                 answers n r (o1 + 10 + rdlen) (ips ++ [ip])) = Ret out /\
      Forall from_response out /\ zlen ips <= zlen out <= zlen ips + Z.of_nat (S n)).
  { intros k Hk ->. destruct (slice_safe (o1 + 10) rdlen) as (ip & -> & Hip & Hs); [lia..|].
    cbn [run_bind]. destruct (IH (o1 + 10 + rdlen) (ips ++ [ip])) as (out & E & Hout & Hlen); [lia| |].
    - apply Forall_app. split; [done|]. apply Forall_singleton. split; [by rewrite Hip|].
      exists (o1 + 10). rewrite Hip. split_and!; [lia|lia|done].
    - exists out. rewrite zlen_app, zlen_cons, zlen_nil in Hlen. split_and!; [done|done|lia..]. }
  destruct ((rtype =? 1) && (rdlen =? 4)) eqn:E4; bool_to_prop; [apply Hrec; auto|].
  destruct ((rtype =? 28) && (rdlen =? 16)) eqn:E16; bool_to_prop; [apply Hrec; auto|].
  destruct (IH (o1 + 10 + rdlen) ips) as (out & E & Hout & Hlen); [lia|done|].
  exists out. split_and!; [done|done|lia..].
Qed.

End Safe.

(** On any bytes from the network [parseDNSResponse] returns, without an
    index out of range and without looping for ever; the addresses it returns
    are one or more four- or sixteen-byte pieces of the response, no more of
    them than the response announces. *)
Theorem parse_response_safe r wantID :
  Forall is_byte r ->
  exists res, parseDNSResponse r wantID = Ret res /\
    forall ips, res = inr ips ->
      1 <= zlen ips <= get16 (zdrop 6 r) /\ Forall (from_response r) ips.
Proof.
  intros Hb. unfold parseDNSResponse. destruct (Z.ltb_spec (len r) 12) as [|H12]; [by eexists|].
  destruct (at_safe r Hb 0) as (i0 & -> & _); [lia|]. destruct (at_safe r Hb 1) as (i1 & -> & _); [lia|].
  cbn [run_bind]. destruct (negb _ || negb _); [by eexists|].
  destruct (at_safe r Hb 3) as (b3 & -> & _); [lia|]. cbn [run_bind].
  destruct (negb _); [by eexists|].
  assert (Hc : exists c, read16 r 6 = Ret c /\ 0 <= c < 65536 /\ c = get16 (zdrop 6 r)).
  { destruct (read16_safe r Hb 6) as (c & E & Hc); [lia..|]. exists c. split_and!; [done|lia..|].
    do 8 (destruct r as [|? r]; [by rewrite ?zlen_cons, ?zlen_nil in H12|]). cbn in E. by injection E as <-. }
  destruct Hc as (c & -> & Hc & Hget). cbn [run_bind].
  destruct (Z.eqb_spec c 0); [by eexists|].
  destruct (skip_question_ends r Hb (length r) 12) as (o & -> & Ho); [lia|unfold zlen; lia|].
  cbn [run_bind]. destruct (answers_safe r Hb (Z.to_nat c) (o + 4) []) as (ips & -> & Hips & Hlen);
    [lia|constructor|]. cbn [run_bind]. rewrite zlen_nil in Hlen.
  destruct (Z.eqb_spec (len ips) 0); [by eexists|]. eexists. split; [done|].
  intros ips' [= <-]. split; [lia|done].
Qed.

Definition ex_response : list Z :=
  [18; 52; 129; 128; 0; 1; 0; 2; 0; 0; 0; 0] ++ [1; 97; 2; 105; 111; 0; 0; 1; 0; 1]
  ++ [192; 12; 0; 1; 0; 1; 0; 0; 0; 60; 0; 4; 10; 1; 2; 3]
  ++ [192; 12; 0; 5; 0; 1; 0; 0; 0; 60; 0; 2; 192; 12].

Lemma parse_response_safe_witness :
  parseDNSResponse ex_response (18, 52) = Ret (inr [[10; 1; 2; 3]]) /\
  exists res, parseDNSResponse ex_response (18, 52) = Ret res.
Proof.
  split; [vm_compute; reflexivity|].
  destruct (parse_response_safe ex_response (18, 52)) as (res & H & _); [|by exists res].
  apply Forall_forall. intros z Hz. apply list_elem_of_In in Hz.
  assert (Hf : forallb is_byteb ex_response = true) by (vm_compute; reflexivity).
  rewrite forallb_forall in Hf. specialize (Hf z Hz). unfold is_byteb in Hf. bool_to_prop. by split.
Defined.

(** In an owner name of labels that ends in a compression pointer the first
    byte of the pointer is taken for the length of a label, and the record
    behind it is not found. *)
Example mixed_name_lost :
  parseDNSResponse
    ([18; 52; 129; 128; 0; 1; 0; 1; 0; 0; 0; 0] ++ [2; 105; 111; 0; 0; 1; 0; 1]
     ++ [1; 97; 192; 12; 0; 1; 0; 1; 0; 0; 0; 60; 0; 4; 10; 1; 2; 3]) (18, 52)
  = Ret (inl ErrNoRecords).
Proof. vm_compute. reflexivity. Qed.

Example query_bytes :
  (buildDNSMsg None "a.io." 1).1 =
  [18; 52; 1; 0; 0; 1; 0; 0; 0; 0; 0; 0; 1; 97; 2; 105; 111; 0; 0; 1; 0; 1].
Proof. vm_compute. reflexivity. Qed.

End Dns.
