(* ===== verification/Buf.v ===== *)
(** The pooled buffers of common/buf/buf.go, the buffer as a byte queue, and
    [Copy] between a reader and a writer.

    A [Buffer] is its backing array and two positions; a slice expression out
    of range is a panic, [None] here.  Buffers are shared by pointer with the
    pool, so they live in a heap; [sync.Pool] may hand out any pooled buffer or
    make a new one, which [pick] decides.  A reader is the list of its future
    answers: the bytes it has ready and the error it then reports. *)

From S2P Require Import Prelude GoIO.

Module Buf.

Definition Size : Z := 66048.

(** [PerConnBudget]: [lim] is the memory limit, [procs] is [GOMAXPROCS]. *)
Definition PerConnBudget (lim procs : Z) : Z :=
  if (lim <=? 0) || (9223372036854775807 / 2 <=? lim) then 16777216
  else
    let b := lim / 2 / procs in
    let b := if b <? 1048576 then 1048576 else b in
    if 67108864 <? b then 67108864 else b.

Record Buffer := mkBuffer { v : list Z; start : Z; end_ : Z; released : bool }.

Definition cap (b : Buffer) : Z := len (v b).

(** [b.v[i:j]]. *)
Definition slice (b : Buffer) (i j : Z) : option (list Z) :=
  if (0 <=? i) && (i <=? j) && (j <=? cap b) then Some (zslice i j (v b)) else None.

Definition Bytes (b : Buffer) : option (list Z) := slice b (start b) (end_ b).
Definition Len (b : Buffer) : Z := end_ b - start b.
Definition Cap (b : Buffer) : Z := cap b - end_ b.
Definition IsEmpty (b : Buffer) : bool := end_ b - start b =? 0.
Definition IsFull (b : Buffer) : bool := end_ b =? cap b.
Definition Reset (b : Buffer) : Buffer := mkBuffer (v b) 0 0 (released b).
Definition Advance (n : Z) (b : Buffer) : Buffer := mkBuffer (v b) (start b + n) (end_ b) (released b).

(** [copy(b.v[i:], p)], with [i] within the array. *)
Definition overwrite (i : Z) (p : list Z) (l : list Z) : list Z :=
  ztake i l ++ p ++ zdrop (i + len p) l.

(** [Extend]: the slice it returns is the one between the two ends. *)
Definition Extend (n : Z) (b : Buffer) : option (Buffer * list Z) :=
  let n := if cap b <? end_ b + n then cap b - end_ b else n in
  out ← slice b (end_ b) (end_ b + n);
  Some (mkBuffer (v b) (start b) (end_ b + n) (released b), out).

(** Storing bytes behind the end; both [Write] and [WriteString]. *)
Definition Write (p : list Z) (b : Buffer) : option (Buffer * Z * option error) :=
  let free := cap b - end_ b in
  if free =? 0 then Some (b, 0, Some ErrShortBuffer)
  else
    _ ← slice b (end_ b) (cap b);
    let n := Z.min free (len p) in
    Some (mkBuffer (overwrite (end_ b) (ztake n p) (v b)) (start b) (end_ b + n) (released b), n,
          if n <? len p then Some ErrShortBuffer else None).
Definition WriteString (s : string) (b : Buffer) : option (Buffer * Z * option error) :=
  Write (bytes_of_string s) b.

Definition WriteByte (c : Z) (b : Buffer) : option (Buffer * option error) :=
  if IsFull b then Some (b, Some ErrShortBuffer)
  else
    _ ← slice b (end_ b) (end_ b + 1);
    Some (mkBuffer (overwrite (end_ b) [c] (v b)) (start b) (end_ b + 1) (released b), None).

(** [Read] into a slice of [n] bytes: the bytes copied. *)
Definition Read (n : Z) (b : Buffer) : option (Buffer * list Z * option error) :=
  if IsEmpty b then Some (b, [], Some EOF)
  else
    s ← Bytes b;
    let k := Z.min n (len s) in
    Some (mkBuffer (v b) (start b + k) (end_ b) (released b), ztake k s, None).

Definition Byte_ (i : Z) (b : Buffer) : option Z :=
  if 0 <=? start b + i then v b !! Z.to_nat (start b + i) else None.
Definition SetByte (i c : Z) (b : Buffer) : option Buffer :=
  _ ← Byte_ i b;
  Some (mkBuffer (<[Z.to_nat (start b + i) := c]> (v b)) (start b) (end_ b) (released b)).

(** One answer of an [io.Reader]: what it has, then the error with it. *)
Definition answer := (list Z * option error)%type.

(** [r.Read] into [n] bytes of room: what does not fit stays for the next call,
    and the error comes with the last of it. *)
Definition reader_Read (n : Z) (r : list answer) : list answer * list Z * option error :=
  match r with
  | [] => ([], [], Some EOF)
  | (p, e) :: r' =>
      if len p <=? n then (r', p, e) else ((zdrop n p, e) :: r', ztake n p, None)
  end.

Definition ReadFrom (r : list answer) (b : Buffer)
  : option (list answer * Buffer * Z * option error) :=
  _ ← slice b (end_ b) (cap b);
  let '(r', p, e) := reader_Read (cap b - end_ b) r in
  Some (r', mkBuffer (overwrite (end_ b) p (v b)) (start b) (end_ b + len p) (released b), len p, e).

(** ** The pool *)

Record world := mkWorld { heap : list Buffer; pool : list nat }.

(** [New]: [pick] is the position in the pool of the buffer [Get] hands out, or
    [None] when it makes one. *)
Definition New (pick : option nat) (w : world) : world * nat :=
  match pick ≫= fun i => pair i <$> pool w !! i with
  | Some (i, p) =>
      (mkWorld (alter (fun b => mkBuffer (v b) 0 0 false) p (heap w)) (delete i (pool w)), p)
  | None => (mkWorld (heap w ++ [mkBuffer (replicate (Z.to_nat Size) 0) 0 0 false]) (pool w),
             length (heap w))
  end.

Definition Release (p : nat) (w : world) : world :=
  match heap w !! p with
  | None => w
  | Some b =>
      if released b then w
      else
        let h := <[p := mkBuffer (v b) (start b) (end_ b) true]> (heap w) in
        mkWorld h (if cap b =? Size then p :: pool w else pool w)
  end.

(** [ReleaseMulti]: the result is the emptied slice. *)
Definition ReleaseMulti (mb : list nat) (w : world) : world := foldl (fun w p => Release p w) w mb.

Definition buffer_at (w : world) (p : nat) : Buffer := default (mkBuffer [] 0 0 true) (heap w !! p).
Definition set_buffer (w : world) (p : nat) (b : Buffer) : world := mkWorld (<[p := b]> (heap w)) (pool w).

Definition MultiBuffer_Len (w : world) (mb : list nat) : Z :=
  foldl (fun n p => n + Len (buffer_at w p)) 0 mb.
Definition MultiBuffer_IsEmpty (w : world) (mb : list nat) : bool :=
  forallb (fun p => IsEmpty (buffer_at w p)) mb.

(** ** Reader and writer *)

(** [singleReader.ReadMultiBuffer]. *)
Definition ReadMultiBuffer (pick : option nat) (r : list answer) (w : world)
  : option (list answer * world * list nat * option error) :=
  let '(w1, p) := New pick w in
  x ← ReadFrom r (buffer_at w1 p);
  let '(r', b, n, e) := x in
  let w2 := set_buffer w1 p b in
  if 0 <? n then Some (r', w2, [p], e) else Some (r', Release p w2, [], e).

(** The loop that writes one buffer out; [fuel] bounds its turns. *)
Fixpoint write_out (fuel : nat) (c : Conn) (b : Buffer) : option (Conn * Buffer * option error) :=
  if IsEmpty b then Some (c, b, None)
  else match fuel with
  | O => None
  | S fuel =>
      s ← Bytes b;
      match Conn_Write c s with
      | (c', Some e) => Some (c', b, Some e)
      | (c', None) => write_out fuel c' (Advance (len s) b)
      end
  end.

(** Buffer by buffer, until a write fails. *)
Fixpoint write_buffers (c : Conn) (w : world) (mb : list nat) : option (Conn * world * option error) :=
  match mb with
  | [] => Some (c, w, None)
  | p :: mb' =>
      x ← write_out 1 c (buffer_at w p);
      let '(c', b, e) := x in
      let w' := set_buffer w p b in
      match e with
      | Some _ => Some (c', w', e)
      | None => write_buffers c' w' mb'
      end
  end.

(** One vectored write, [net.Buffers.WriteTo] on a TCP connection: the slices
    of the buffers that are not empty, back to back; nothing when there are
    none. *)
Definition write_vectored (c : Conn) (w : world) (mb : list nat) : option (Conn * world * option error) :=
  bufs ← mapM (fun p => Bytes (buffer_at w p)) (filter (fun p => IsEmpty (buffer_at w p) = false) mb);
  let '(c', e) := match bufs with [] => (c, None) | _ => Conn_Write c (concat bufs) end in
  match e with
  | Some _ => Some (c', w, e)
  | None =>
      Some (c', foldl (fun w p => let b := buffer_at w p in
                                  set_buffer w p (mkBuffer (v b) (end_ b) (end_ b) (released b))) w mb,
            None)
  end.

(** [singleWriter.WriteMultiBuffer]; [tcp] says whether the writer is a
    [net.TCPConn].  The release of the buffers is deferred. *)
Definition WriteMultiBuffer (tcp : bool) (c : Conn) (w : world) (mb : list nat)
  : option (Conn * world * option error) :=
  x ← match mb with
      | [] => Some (c, w, None)
      | [p] => write_buffers c w [p]
      | _ => if tcp then write_vectored c w mb else write_buffers c w mb
      end;
  let '(c', w', e) := x in Some (c', ReleaseMulti mb w', e).

(** [Copy], one turn per unit of fuel; [picks] are the pool's choices. *)
Fixpoint Copy_loop (tcp : bool) (fuel : nat) (picks : list (option nat)) (r : list answer) (c : Conn) (w : world)
    (total : Z) : option (Z * option error * Conn * world) :=
  match fuel with
  | O => None
  | S fuel =>
      x ← ReadMultiBuffer (default None (head picks)) r w;
      let '(r', w1, mb, e) := x in
      y ← (if MultiBuffer_IsEmpty w1 mb then Some (c, w1, None, total)
           else
             z ← WriteMultiBuffer tcp c w1 mb;
             let '(c', w2, we) := z in Some (c', w2, we, total + MultiBuffer_Len w1 mb));
      let '(c', w2, we, total') := y in
      match we with
      | Some we => Some (total', Some we, c', w2)
      | None =>
          match e with
          | Some EOF => Some (total', None, c', w2)
          | Some e => Some (total', Some e, c', w2)
          | None => Copy_loop tcp fuel (tail picks) r' c' w2 total'
          end
      end
  end.

(** ** The buffer as a byte queue *)

Definition buffer_ok (b : Buffer) : Prop := 0 <= start b <= end_ b /\ end_ b <= cap b.

Definition content (b : Buffer) : list Z := zslice (start b) (end_ b) (v b).

Lemma slice_ok b i j : 0 <= i <= j -> j <= cap b -> slice b i j = Some (zslice i j (v b)).
Proof.
  intros. unfold slice.
  rewrite (proj2 (Z.leb_le 0 i)), (proj2 (Z.leb_le i j)), (proj2 (Z.leb_le j (cap b))) by lia. done.
Qed.

Lemma Bytes_content b : buffer_ok b -> Bytes b = Some (content b).
Proof. intros []. by apply slice_ok. Qed.

Lemma len_content b : buffer_ok b -> len (content b) = Len b.
Proof.
  unfold buffer_ok, content, Len, zslice, cap. intros [? ?].
  rewrite zlen_ztake; [done|]. rewrite zlen_zdrop; lia.
Qed.

Lemma overwrite_len i p l : 0 <= i -> i + len p <= len l -> len (overwrite i p l) = len l.
Proof.
  intros. pose proof (zlen_nonneg p). unfold overwrite.
  rewrite !zlen_app, zlen_ztake, zlen_zdrop by lia. lia.
Qed.

(** What was in [s, i) stays, and the new bytes follow. *)
Lemma overwrite_slice s i p l :
  0 <= s <= i -> i + len p <= len l ->
  zslice s (i + len p) (overwrite i p l) = zslice s i l ++ p.
Proof.
  intros Hs Hi. pose proof (zlen_nonneg p). unfold zslice, overwrite, ztake, zdrop, zlen in *.
  rewrite drop_app_le by (rewrite length_take; lia).
  rewrite skipn_firstn_comm, take_app_ge by (rewrite length_take, length_drop; lia).
  f_equal; [f_equal; lia|]. rewrite length_take, length_drop, Nat.min_l by lia.
  rewrite take_app_ge by lia.
  match goal with |- context [take ?n (drop _ _)] => replace n with 0%nat by lia end.
  by rewrite take_0, app_nil_r.
Qed.

(** Adding [p] at the end of a buffer with room for it. *)
Lemma append_ok b p :
  buffer_ok b -> len p <= Cap b ->
  let b' := mkBuffer (overwrite (end_ b) p (v b)) (start b) (end_ b + len p) (released b) in
  buffer_ok b' /\ content b' = content b ++ p /\ cap b' = cap b.
Proof.
  intros [Hs He] Hp b'. subst b'. pose proof (zlen_nonneg p).
  unfold buffer_ok, content, Cap, cap in *. cbn in *.
  rewrite overwrite_len, overwrite_slice by lia. split_and!; [lia..|done|done].
Qed.

Lemma ztake_min {A} n (l : list A) : ztake (Z.min n (len l)) l = ztake n l.
Proof.
  destruct (Z.min_spec n (len l)) as [[? ->]|[? ->]]; [done|]. by rewrite !ztake_ge by lia.
Qed.

(** Moving the start forward drops that many bytes, and no more than there are. *)
Lemma advance_content b n :
  buffer_ok b -> 0 <= n ->
  content (mkBuffer (v b) (start b + Z.min n (len (content b))) (end_ b) (released b)) = zdrop n (content b).
Proof.
  intros Hok Hn. rewrite len_content by done. destruct Hok as [? ?].
  unfold content, zslice, ztake, zdrop, Len, cap, zlen in *. cbn.
  rewrite skipn_firstn_comm, drop_drop. destruct (Z.le_gt_cases n (end_ b - start b)).
  - rewrite Z.min_l by lia. f_equal; [lia|]. f_equal. lia.
  - rewrite Z.min_r by lia. replace (Z.to_nat (end_ b - start b) - Z.to_nat n)%nat with 0%nat by lia.
    replace (Z.to_nat (end_ b - (start b + (end_ b - start b)))) with 0%nat by lia. by rewrite !take_0.
Qed.

(** The operations are the ones of a bounded queue of bytes: writes append as
    much as there is room for, reads take from the front, and the two ends stay
    in order, so that no slice expression is out of range. *)
Theorem buffer_queue b : buffer_ok b ->
  (forall p, exists b', Write p b = Some (b', Z.min (Cap b) (len p),
                          if Cap b =? 0 then Some ErrShortBuffer
                          else if Cap b <? len p then Some ErrShortBuffer else None) /\
     buffer_ok b' /\ content b' = content b ++ ztake (Cap b) p) /\
  (forall c, exists b' e, WriteByte c b = Some (b', e) /\ buffer_ok b' /\
     content b' = content b ++ ztake (Cap b) [c] /\ (e = None <-> 0 < Cap b)) /\
  (forall n, 0 <= n -> exists b', Read n b = Some (b', ztake n (content b), if IsEmpty b then Some EOF else None) /\
     buffer_ok b' /\ content b' = zdrop n (content b)).
Proof.
  intros Hok. pose proof Hok as [Hs He]. pose proof (len_content b Hok) as Hl.
  split_and!.
  - intros p. unfold Write. fold (Cap b). pose proof (zlen_nonneg p).
    destruct (Z.eqb_spec (Cap b) 0) as [H0|H0].
    + exists b. rewrite H0, Z.min_l, ztake_le0, app_nil_r by lia. done.
    + rewrite slice_ok by (unfold Cap in *; lia). cbn.
      assert (Ht : len (ztake (Z.min (Cap b) (len p)) p) = Z.min (Cap b) (len p))
        by (apply zlen_ztake; unfold Cap in *; lia).
      destruct (append_ok b (ztake (Z.min (Cap b) (len p)) p) Hok ltac:(lia)) as (Hb & Hc & _).
      rewrite Ht in Hb, Hc. eexists. split; [|split; [exact Hb|]].
      * repeat f_equal. destruct (Z.ltb_spec (Cap b) (len p)), (Z.ltb_spec (Z.min (Cap b) (len p)) (len p)); done || lia.
      * rewrite Hc. by rewrite ztake_min.
  - intros c. unfold WriteByte, IsFull. destruct (Z.eqb_spec (end_ b) (cap b)) as [H0|H0].
    + exists b, (Some ErrShortBuffer). unfold Cap. rewrite ztake_le0, app_nil_r by lia.
      split_and!; try done. split; [done|lia].
    + rewrite slice_ok by lia. cbn.
      destruct (append_ok b [c] Hok ltac:(unfold Cap; rewrite zlen_cons, zlen_nil; lia)) as (Hb & Hc & _).
      do 2 eexists. split_and!; [done|exact Hb| |unfold Cap; split; [lia|done]].
      rewrite ztake_ge; [exact Hc|]. unfold Cap. rewrite zlen_cons, zlen_nil. lia.
  - intros n Hn. unfold Read, IsEmpty. fold (Len b). destruct (Z.eqb_spec (Len b) 0) as [H0|H0].
    + assert (content b = []) as -> by (apply zlen_zero; lia). unfold ztake, zdrop.
      exists b. rewrite take_nil, drop_nil. split_and!; try done. apply zlen_zero. lia.
    + rewrite Bytes_content by done. cbn. eexists. split_and!.
      * by rewrite ztake_min.
      * unfold buffer_ok, cap, Len in *. cbn. lia.
      * apply advance_content; [done|lia].
Qed.

(** ** The pool *)

(** A buffer some caller holds. *)
Definition live (w : world) (p : nat) : bool :=
  match heap w !! p with Some b => negb (released b) | None => false end.

(** No buffer is pooled twice, and pooled buffers are released and full size. *)
Definition pool_ok (w : world) : Prop :=
  NoDup (pool w) /\
  (forall p, p ∈ pool w -> exists b, heap w !! p = Some b /\ released b = true) /\
  Forall (fun b => cap b = Size) (heap w).

Lemma New_spec pick w w' p :
  pool_ok w -> New pick w = (w', p) ->
  pool_ok w' /\ live w p = false /\
  (exists l, heap w' !! p = Some (mkBuffer l 0 0 false) /\ len l = Size) /\
  (forall q, q <> p -> heap w' !! q = heap w !! q).
Proof.
  intros (Hnd & Hrel & Hcap) HN. unfold New, pool_ok in *.
  destruct (pick ≫= _) as [[i q]|] eqn:Hp; apply pair_equal_spec in HN as [<- <-].
  - destruct pick as [j|]; [|done]. cbn in Hp.
    destruct (pool w !! j) as [q'|] eqn:Hj; [|done]. injection Hp as -> ->.
    destruct (Hrel q) as (b & Hb & Hr); [by eapply list_elem_of_lookup_2|].
    pose proof (Forall_lookup_1 _ _ _ _ Hcap Hb) as Hc. cbn in Hc.
    rewrite (delete_Permutation _ _ _ Hj) in Hnd. apply NoDup_cons in Hnd as [Hnot Hnd].
    split_and!; [done| | |by unfold live; rewrite Hb, Hr| |].
    + intros r Hin. cbn. assert (r <> q) by (by intros ->). rewrite list_lookup_alter_ne by done.
      apply Hrel. by eapply list_elem_of_delete_inv.
    + cbn. apply Forall_alter; [done|]. by intros b' ? ?.
    + exists (v b). cbn. by rewrite list_lookup_alter_eq, Hb.
    + intros r Hne. cbn. by rewrite list_lookup_alter_ne.
  - assert (Hout : heap w !! length (heap w) = None) by (apply lookup_ge_None_2; lia).
    split_and!; [done| | |by unfold live; rewrite Hout| |].
    + intros r Hin. cbn. destruct (Hrel r Hin) as (b & Hb & Hr).
      exists b. rewrite lookup_app_l; [done|]. by eapply lookup_lt_Some.
    + cbn. apply Forall_app. split; [done|]. constructor; [|done].
      unfold cap. cbn [v]. by apply zlen_replicate.
    + eexists. cbn [heap]. rewrite list_lookup_middle by done. split; [done|]. by apply zlen_replicate.
    + intros r Hne. cbn [heap]. destruct (decide (r < length (heap w))%nat); [by rewrite lookup_app_l|].
      rewrite (lookup_ge_None_2 (heap w)) by lia. apply lookup_ge_None_2. rewrite length_app. cbn [length]. lia.
Qed.

(** Releasing: the caller's buffer is no longer live, nobody else's changes. *)
Lemma Release_spec p w :
  pool_ok w ->
  pool_ok (Release p w) /\ live (Release p w) p = false /\
  (forall q, q <> p -> heap (Release p w) !! q = heap w !! q).
Proof.
  intros Hok. pose proof Hok as (Hnd & Hrel & Hcap). unfold Release, live.
  destruct (heap w !! p) as [b|] eqn:Hb; [|by rewrite Hb].
  destruct (released b) eqn:Hr; [by rewrite Hb, Hr|].
  pose proof (Forall_lookup_1 _ _ _ _ Hcap Hb) as Hc. cbn in Hc.
  assert (Hlt := lookup_lt_Some _ _ _ Hb).
  rewrite Hc, Z.eqb_refl. cbn. rewrite list_lookup_insert_eq by done. split_and!; [|done|].
  - unfold pool_ok. split_and!; cbn.
    + apply NoDup_cons. split; [|done]. intros (b' & Hb' & ?)%Hrel. congruence.
    + intros q [->|Hin]%elem_of_cons; [rewrite list_lookup_insert_eq by done; by eexists|].
      destruct (Hrel q Hin) as (b' & Hb' & Hr').
      destruct (decide (q = p)) as [->|]; [congruence|]. rewrite list_lookup_insert_ne by done. by eexists.
    + by apply Forall_insert.
  - intros q Hne. by rewrite list_lookup_insert_ne.
Qed.

(** What a holder does with its buffer leaves the pool alone. *)
Lemma set_buffer_spec p b w :
  pool_ok w -> live w p = true -> cap b = Size -> released b = false ->
  pool_ok (set_buffer w p b) /\ heap (set_buffer w p b) !! p = Some b /\
  (forall q, q <> p -> heap (set_buffer w p b) !! q = heap w !! q).
Proof.
  intros (Hnd & Hrel & Hcap) Hl Hc Hr. unfold live in Hl.
  destruct (heap w !! p) as [b0|] eqn:Hb0; [|done]. apply negb_true_iff in Hl.
  assert (Hlt := lookup_lt_Some _ _ _ Hb0). unfold pool_ok. cbn. split_and!.
  - done.
  - intros q Hin. destruct (Hrel q Hin) as (b' & Hb' & Hr').
    destruct (decide (q = p)) as [->|]; [congruence|]. cbn. rewrite list_lookup_insert_ne by done. by eexists.
  - by apply Forall_insert.
  - by rewrite list_lookup_insert_eq.
  - intros q Hne. by rewrite list_lookup_insert_ne.
Qed.

(** What clients do to the pool: take a buffer, release one (any, any number
    of times), or change one they hold. *)
Inductive pool_step : world -> world -> Prop :=
| step_new pick w : pool_step w (New pick w).1
| step_release p w : pool_step w (Release p w)
| step_use p b w : live w p = true -> cap b = Size -> released b = false ->
    pool_step w (set_buffer w p b).

(** In every state the clients can bring the pool to, [New] hands out an empty
    full-size buffer that nobody holds, and every other buffer is left as it
    is: however often buffers were released, no two holders share one. *)
Theorem pool_exclusive w pick :
  rtc pool_step (mkWorld [] []) w ->
  exists l, let '(w', p) := New pick w in
    live w p = false /\ heap w' !! p = Some (mkBuffer l 0 0 false) /\ len l = Size /\
    (forall q, q <> p -> heap w' !! q = heap w !! q) /\ NoDup (pool w').
Proof.
  intros Hr. assert (Hok : pool_ok w).
  { revert w Hr. apply (rtc_ind_r pool_ok (mkWorld [] [])).
    - unfold pool_ok. split_and!; [apply NoDup_nil_2|by intros ? ?%not_elem_of_nil|done].
    - intros w1 w2 _ Hs Hok. destruct Hs as [pk w0|p w0|p b w0 Hl Hc Hrl].
      + destruct (New pk w0) eqn:Hn. by eapply New_spec.
      + by apply Release_spec.
      + by apply set_buffer_spec. }
  destruct (New pick w) as [w' p] eqn:Hn.
  destruct (New_spec _ _ _ _ Hok Hn) as ((?&?&?) & ? & (l & ? & ?) & ?). by exists l.
Qed.

(** ** Copying *)

(** What a reader gives until its first error, and how [Copy] reports it. *)
Fixpoint stream (r : list answer) : list Z * option error :=
  match r with
  | [] => ([], None)
  | (p, Some e) :: _ => (p, if decide (e = EOF) then None else Some e)
  | (p, None) :: r' => let '(q, e) := stream r' in (p ++ q, e)
  end.

(** Each turn uses up an answer or at least a byte of one. *)
Definition copy_turns (r : list answer) : nat :=
  S (sum_list_with (fun a => S (length a.1)) r).

Lemma live_lookup w w' q : heap w' !! q = heap w !! q -> live w' q = live w q.
Proof. unfold live. by intros ->. Qed.

(** One read of the stream: what comes, what is left, and that the turns
    shrink. *)
Lemma reader_Read_spec n r r' p e :
  0 < n -> reader_Read n r = (r', p, e) ->
  len p <= n /\
  match e with
  | Some e => stream r = (p, if decide (e = EOF) then None else Some e)
  | None => stream r = (p ++ (stream r').1, (stream r').2) /\ (copy_turns r' < copy_turns r)%nat
  end.
Proof.
  intros Hn HR. destruct r as [|[l o] r]; cbn in HR.
  - injection HR as <- <- <-. split; [rewrite zlen_nil; lia|done].
  - destruct (Z.leb_spec (len l) n); injection HR as <- <- <-.
    + split; [done|]. destruct o; [done|]. cbn. destruct (stream r). split; [done|]. unfold copy_turns. cbn. lia.
    + rewrite zlen_ztake by lia. split; [lia|]. split.
      * cbn. destruct o; cbn; [by rewrite ztake_zdrop|].
        destruct (stream r). cbn. by rewrite app_assoc, ztake_zdrop.
      * unfold copy_turns. cbn. unfold zdrop, zlen in *. rewrite length_drop. lia.
Qed.

(** [ReadMultiBuffer] takes one read from the stream: without bytes it keeps no
    buffer, with bytes it hands on one nobody else holds. *)
Lemma ReadMultiBuffer_spec pick r w r' p e :
  pool_ok w -> reader_Read Size r = (r', p, e) ->
  exists w' mb, ReadMultiBuffer pick r w = Some (r', w', mb, e) /\ pool_ok w' /\
    ((p = [] /\ mb = [] /\ forall q, live w' q = live w q) \/
     (p <> [] /\ exists q b, mb = [q] /\ live w q = false /\ heap w' !! q = Some b /\
        released b = false /\ buffer_ok b /\ content b = p /\ cap b = Size /\
        forall q', q' <> q -> live w' q' = live w q')).
Proof.
  intros Hok HR. destruct (New pick w) as [w1 q] eqn:HN.
  destruct (New_spec _ _ _ _ Hok HN) as (Hok1 & Hdead & (l & Hq & Hl) & Hoth).
  destruct (reader_Read_spec Size _ _ _ _ eq_refl HR) as [Hp _].
  unfold ReadMultiBuffer, ReadFrom, buffer_at. rewrite HN, Hq. cbn [default from_option id].
  set (b0 := mkBuffer l 0 0 false).
  assert (Hb0 : buffer_ok b0 /\ cap b0 = Size) by (unfold buffer_ok, cap; cbn; rewrite Hl; done).
  destruct Hb0 as [Hb0 Hc0].
  rewrite slice_ok by (rewrite ?Hc0; unfold Size; cbn; lia). cbn [mbind option_bind].
  rewrite Hc0. change (end_ b0) with 0. rewrite Z.sub_0_r, HR.
  destruct (append_ok b0 p Hb0) as (Hb & Hct & Hc); [unfold Cap; rewrite Hc0; cbn; lia|].
  set (b := mkBuffer _ _ _ _) in Hb, Hct, Hc. cbn [mbind option_bind].
  change (mkBuffer _ _ _ _) with b.
  assert (Hlive : live w1 q = true) by (unfold live; by rewrite Hq).
  destruct (set_buffer_spec q b w1 Hok1 Hlive) as (Hok2 & Hq2 & Hoth2); [by rewrite Hc|done|].
  destruct (Z.ltb_spec 0 (len p)).
  - do 2 eexists. split_and!; [done|done|]. right. split; [by intros ->|].
    exists q, b. split_and!; try done; [by rewrite Hc|].
    intros q' Hne. apply live_lookup. by rewrite Hoth2, Hoth.
  - destruct (Release_spec q _ Hok2) as (Hok3 & Hd & Hoth3).
    do 2 eexists. split_and!; [done|done|]. left.
    split_and!; [apply zlen_zero; pose proof (zlen_nonneg p); lia|done|].
    intros q'. destruct (decide (q' = q)) as [->|]; [by rewrite Hd|].
    apply live_lookup. by rewrite Hoth3, Hoth2, Hoth.
Qed.

Lemma IsEmpty_false b : buffer_ok b -> content b <> [] -> IsEmpty b = false.
Proof.
  intros Hb Hne. apply Z.eqb_neq. intros E. apply Hne, zlen_zero.
  pose proof (len_content b Hb). unfold Len in *. lia.
Qed.

(** Writing one held buffer out puts its bytes on the wire and releases it. *)
Lemma WriteMultiBuffer_one tcp c w q b :
  pool_ok w -> writable c -> heap w !! q = Some b -> released b = false -> buffer_ok b ->
  content b <> [] -> cap b = Size ->
  exists c' w', WriteMultiBuffer tcp c w [q] = Some (c', w', None) /\ writable c' /\
    c_out c' = c_out c ++ content b /\ pool_ok w' /\ live w' q = false /\
    forall q', q' <> q -> live w' q' = live w q'.
Proof.
  intros Hok Hw Hq Hr Hb Hne Hc. pose proof (len_content b Hb) as Hl.
  assert (Hlive : live w q = true) by (unfold live; by rewrite Hq, Hr).
  destruct (set_buffer_spec q (Advance (len (content b)) b) w Hok Hlive Hc Hr) as (Hok2 & _ & Hoth2).
  destruct (Release_spec q _ Hok2) as (Hok3 & Hd & Hoth3).
  unfold WriteMultiBuffer. cbn [write_buffers]. unfold buffer_at. rewrite Hq. cbn [default from_option id].
  cbn [write_out]. rewrite (IsEmpty_false b), Bytes_content by done.
  cbn [mbind option_bind]. rewrite Conn_Write_ok by done.
  assert (IsEmpty (Advance (len (content b)) b) = true) as ->
    by (unfold IsEmpty, Advance; cbn; rewrite Hl; unfold Len; apply Z.eqb_eq; lia).
  cbn [mbind option_bind]. do 2 eexists. split_and!; try done; auto with go.
  intros q' Hne'. apply live_lookup. cbn. by rewrite Hoth3, Hoth2.
Qed.

(** With a writer that accepts everything, [Copy] ends, having put on the wire
    exactly the bytes the reader gave before its first error, in order; it
    returns their number and that error, except that end of file is none; and
    it holds no buffer afterwards. *)
Theorem copy_transfers tcp r picks c w :
  pool_ok w -> writable c ->
  exists c' w', Copy_loop tcp (copy_turns r) picks r c w 0 =
      Some (len ((stream r).1), (stream r).2, c', w') /\
    c_out c' = c_out c ++ (stream r).1 /\ pool_ok w' /\ forall q, live w' q = live w q.
Proof.
  intros Hok Hw. change (len ((stream r).1)) with (0 + len ((stream r).1)).
  generalize 0 as total. generalize (le_n (copy_turns r)). generalize (copy_turns r) at 2 3 as fuel.
  intros fuel. revert r picks c w Hok Hw.
  induction fuel as [|fuel IH]; intros r picks c w Hok Hw Hf total; [unfold copy_turns in Hf; lia|].
  destruct (reader_Read Size r) as [[r' p] e] eqn:HR.
  destruct (reader_Read_spec Size _ _ _ _ eq_refl HR) as [_ Hs].
  destruct (ReadMultiBuffer_spec (default None (head picks)) r w r' p e Hok HR)
    as (w1 & mb & HM & Hok1 & Hmb).
  cbn [Copy_loop]. rewrite HM. cbn [mbind option_bind].
  assert (Hturn : exists c' w2,
    (if MultiBuffer_IsEmpty w1 mb then Some (c, w1, None, total)
     else z ← WriteMultiBuffer tcp c w1 mb;
          let '(c', w2, we) := z in Some (c', w2, we, total + MultiBuffer_Len w1 mb)) =
    Some (c', w2, None, total + len p) /\ writable c' /\ c_out c' = c_out c ++ p /\
    pool_ok w2 /\ forall q, live w2 q = live w q).
  { destruct Hmb as [(-> & -> & Hsame)|(Hne & q & b & -> & Hdead & Hq & Hr & Hb & <- & Hc & Hoth)].
    - cbn. exists c, w1. rewrite zlen_nil, Z.add_0_r, app_nil_r. done.
    - destruct (WriteMultiBuffer_one tcp c w1 q b) as (c' & w2 & -> & Hw' & Hout & Hok2 & Hd & Hoth2); try done.
      pose proof (len_content b Hb) as Hl.
      exists c', w2. unfold MultiBuffer_IsEmpty, MultiBuffer_Len, buffer_at. cbn. rewrite Hq. cbn.
      rewrite IsEmpty_false by done. cbn. rewrite Hl. split_and!; try done.
      intros q'. destruct (decide (q' = q)) as [->|]; [by rewrite Hd|]. by rewrite Hoth2, Hoth. }
  destruct Hturn as (c' & w2 & -> & Hw' & Hout & Hok2 & Hl2). cbn [mbind option_bind].
  destruct e as [e|].
  - rewrite Hs. cbn [fst snd]. exists c', w2. destruct e; by cbn.
  - destruct Hs as [Hs Hlt]. rewrite Hs. cbn [fst snd].
    destruct (IH r' (tail picks) c' w2 Hok2 Hw' ltac:(lia) (total + len p)) as (c3 & w3 & -> & Hout3 & Hok3 & Hl3).
    exists c3, w3. rewrite zlen_app, Z.add_assoc, Hout3, Hout, app_assoc. split_and!; try done.
    intros q. by rewrite Hl3.
Qed.

Lemma copy_transfers_witness :
  exists c' w', Copy_loop false 6 [Some 0%nat] [([1; 2], None); ([3], Some EOF)]
      (mkConn [] EOF [9] [None] false) (mkWorld [] []) 0 = Some (3, None, c', w') /\
    c_out c' = [9; 1; 2; 3] /\ pool_ok w' /\ forall q, live w' q = false.
Proof.
  apply (copy_transfers false [([1; 2], None); ([3], Some EOF)] [Some 0%nat]
           (mkConn [] EOF [9] [None] false) (mkWorld [] [])).
  - split; [apply NoDup_nil_2|]. split; [by intros ? ?%not_elem_of_nil|apply Forall_nil_2].
  - repeat constructor.
Defined.

End Buf.
