(* ===== verification/Socks5.v ===== *)
(** The SOCKS5 server, core/socks5/server.go, and the address header of the UDP
    association in core/socks5/module.go.

    A handler runs on a [Conn]: what it reads is taken from the client's bytes and
    what it writes goes to the output, in a state and error monad [IO].  The kind
    and the text of a network error are operations of the class [NetErrors].  A
    UDP relay the server starts is the port of its socket in the result. *)

From S2P Require Import Prelude GoIO GoStr NetIP.

(** [errors.As] to [net.Error] with [Timeout()], and [Error()]. *)
Class NetErrors := { err_timeout : error -> bool; err_text : error -> string }.

Module Socks5.

Definition socks5Version : Z := 5.
Definition socks5MethodNoAuth : Z := 0.
Definition socks5MethodUsernamePass : Z := 2.
Definition socks5MethodNotAcceptable : Z := 255.
Definition socks5CmdConnect : Z := 1.
Definition socks5CmdBind : Z := 2.
Definition socks5CmdUDP : Z := 3.
Definition socks5ATYPIPv4 : Z := 1.
Definition socks5ATYPIPv6 : Z := 4.
Definition socks5ATYPDomain : Z := 3.
Definition socks5ReplySuccess : Z := 0.
Definition socks5ReplyGeneralFailure : Z := 1.
Definition socks5ReplyConnectionNotAllowed : Z := 2.
Definition socks5ReplyNetworkUnreachable : Z := 3.
Definition socks5ReplyHostUnreachable : Z := 4.
Definition socks5ReplyConnectionRefused : Z := 5.
Definition socks5ReplyTTLExpired : Z := 6.
Definition socks5ReplyCommandNotSupported : Z := 7.
Definition socks5ReplyAddressTypeNotSupported : Z := 8.

(** ** Errors and the monad *)

Inductive serr :=
| SNet (e : error)
| SVersion (v : Z)
| SNoMethods
| SNotAcceptable
| SAuthVersion (v : Z)
| SAuthFailed
| SBind
| SCommand (c : Z)
| SAtyp (a : Z).

Definition IO (A : Type) : Type := Conn -> Conn * (serr + A).

#[export] Instance IO_ret : MRet IO := fun A x c => (c, inr x).
#[export] Instance IO_bind : MBind IO := fun A B k m c =>
  match m c with
  | (c', inr x) => k x c'
  | (c', inl e) => (c', inl e)
  end.

Definition throw {A} (e : serr) : IO A := fun c => (c, inl e).
Definition readFull (n : Z) : IO (list Z) := fun c =>
  match ReadFull c n with
  | (c', inl b) => (c', inr b)
  | (c', inr e) => (c', inl (SNet e))
  end.
Definition write (b : list Z) : IO unit := fun c =>
  match Conn_Write c b with
  | (c', None) => (c', inr ())
  | (c', Some e) => (c', inl (SNet e))
  end.
(** Running an action for its effect, its error dropped. *)
Definition ignore {A} (m : IO A) : IO unit := fun c => ((m c).1, inr ()).
Definition catch {A} (m : IO A) (h : serr -> IO A) : IO A := fun c =>
  match m c with
  | (c', inr x) => (c', inr x)
  | (c', inl e) => h e c'
  end.
(** [io.CopyN(io.Discard, conn, n)], whatever it returns. *)
Definition discard (n : Z) : IO unit := fun c => (with_in c (zdrop n (c_in c)), inr ()).

Section Server.
Context `{NetErrors}.

Definition errMsgReplyCodes (text : string) : option Z :=
  if String.eqb text "connection refused" then Some socks5ReplyConnectionRefused
  else if String.eqb text "network unreachable" then Some socks5ReplyNetworkUnreachable
  else if String.eqb text "host unreachable" then Some socks5ReplyHostUnreachable
  else if String.eqb text "permission denied" then Some socks5ReplyConnectionNotAllowed
  else None.

Definition mapErrorToReplyCode (err : option error) : Z :=
  match err with
  | None => socks5ReplySuccess
  | Some e =>
      if err_timeout e then socks5ReplyTTLExpired
      else default socks5ReplyGeneralFailure (errMsgReplyCodes (err_text e))
  end.

(** The fields a connection reads.  [udpHandler] is set in no place of the
    program; [listenUDP] is what opening the local socket gives, [localAddr] the
    local address of the connection when it is one of TCP. *)
Record SOCKS5Server := mkServer {
  authHandler : option (string -> string -> bool);
  udpHandler : option (Conn -> Conn * option error)
}.

Definition sendReply (reply : Z) (addr : list Z) (port : Z) : IO unit :=
  write ([socks5Version; reply; 0] ++
         (if 0 <? len addr then addr ++ put16 port
          else [socks5ATYPIPv4; 0; 0; 0; 0] ++ put16 port)).

Definition handleUsernamePasswordAuth (s : SOCKS5Server) : IO unit :=
  version ← readFull 1;
  if negb (nth 0 version 0 =? 1) then throw (SAuthVersion (nth 0 version 0))
  else
    usernameLen ← readFull 1;
    username ← readFull (nth 0 usernameLen 0);
    passwordLen ← readFull 1;
    password ← readFull (nth 0 passwordLen 0);
    if match authHandler s with
       | None => true
       | Some f => negb (f (string_of_bytes username) (string_of_bytes password))
       end
    then write [1; 255] ≫= fun _ => throw SAuthFailed
    else write [1; 0].

(** The two flags of the loop over the methods and the choice. *)
Definition selectMethod (s : SOCKS5Server) (methods : list Z) : Z :=
  let hasNoAuth := existsb (Z.eqb socks5MethodNoAuth) methods in
  let hasUsernamePass := existsb (Z.eqb socks5MethodUsernamePass) methods in
  if bool_decide (is_Some (authHandler s)) && hasUsernamePass then socks5MethodUsernamePass
  else if hasNoAuth then socks5MethodNoAuth
  else socks5MethodNotAcceptable.

Definition handleHandshake (s : SOCKS5Server) : IO unit :=
  buf ← readFull 2;
  if negb (nth 0 buf 0 =? socks5Version) then throw (SVersion (nth 0 buf 0))
  else if nth 1 buf 0 =? 0 then throw SNoMethods
  else
    methods ← readFull (nth 1 buf 0);
    let selectedMethod := selectMethod s methods in
    _ ← write [socks5Version; selectedMethod];
    if selectedMethod =? socks5MethodNotAcceptable then throw SNotAcceptable
    else if selectedMethod =? socks5MethodUsernamePass then handleUsernamePasswordAuth s
    else mret ().

Definition readRequestAddr (atyp : Z) : IO string :=
  if atyp =? socks5ATYPIPv4 then ip ← readFull 4; mret (IP_String ip)
  else if atyp =? socks5ATYPIPv6 then ip ← readFull 16; mret (IP_String ip)
  else if atyp =? socks5ATYPDomain then
    lenBuf ← readFull 1;
    domain ← readFull (nth 0 lenBuf 0);
    mret (string_of_bytes domain)
  else _ ← ignore (sendReply socks5ReplyAddressTypeNotSupported [] 0); throw (SAtyp atyp).

Definition sendConnectReply (localAddr : option IP) : IO unit :=
  let replyAddr :=
    match localAddr with
    | None => []
    | Some ip =>
        match To4 ip with
        | Some ip4 => socks5ATYPIPv4 :: ip4
        | None => match To16 ip with
                  | Some ip6 => socks5ATYPIPv6 :: ip6
                  | None => []
                  end
        end
    end in
  sendReply socks5ReplySuccess (if len replyAddr =? 0 then [socks5ATYPIPv4; 0; 0; 0; 0] else replyAddr) 0.

(** [udpAssociateAddrReaders]. *)
Definition udpAssociateAddrReader (atyp : Z) : option (IO unit) :=
  if atyp =? socks5ATYPIPv4 then Some (_ ← readFull 4; mret ())
  else if atyp =? socks5ATYPIPv6 then Some (_ ← readFull 16; mret ())
  else if atyp =? socks5ATYPDomain then
    Some (lenBuf ← readFull 1; _ ← readFull (nth 0 lenBuf 0); mret ())
  else None.

Definition reply_error (code : serr -> Z) {A} (e : serr) : IO A :=
  _ ← ignore (sendReply (code e) [] 0); throw e.

(** Address, port, and the port of the UDP relay that was started. *)
Definition request : Type := string * Z * option Z.

Definition net_reply (e : serr) : Z :=
  match e with SNet e => mapErrorToReplyCode (Some e) | _ => socks5ReplyGeneralFailure end.

Definition handleUDPAssociate (listenUDP : error + Z) (atyp : Z) : IO request :=
  match udpAssociateAddrReader atyp with
  | None => reply_error (fun _ => socks5ReplyAddressTypeNotSupported) (SAtyp atyp)
  | Some reader =>
      _ ← catch reader (reply_error net_reply);
      _ ← catch (readFull 2) (reply_error (fun _ => socks5ReplyGeneralFailure));
      match listenUDP with
      | inl e => reply_error (fun _ => socks5ReplyGeneralFailure) (SNet e)
      | inr port =>
          _ ← sendReply socks5ReplySuccess [socks5ATYPIPv4; 127; 0; 0; 1] port;
          mret (""%string, 0, Some port)
      end
  end.

(** The address of a UDP request that is skipped before [udpHandler] runs. *)
Definition skip_udp_addr (atyp : Z) : IO unit :=
  _ ← (if atyp =? socks5ATYPIPv4 then discard 4
       else if atyp =? socks5ATYPIPv6 then discard 16
       else if atyp =? socks5ATYPDomain then
         lenBuf ← catch (readFull 1) (fun _ => mret [0]);
         discard (nth 0 lenBuf 0)
       else mret ());
  discard 2.

Definition run_udpHandler (h : Conn -> Conn * option error) : IO unit := fun c =>
  match h c with
  | (c', None) => (c', inr ())
  | (c', Some e) => reply_error net_reply (SNet e) c'
  end.

Definition handleRequest (s : SOCKS5Server) (localAddr : option IP) (listenUDP : error + Z) : IO request :=
  header ← readFull 4;
  if negb (nth 0 header 0 =? socks5Version) then throw (SVersion (nth 0 header 0))
  else
    let cmd := nth 1 header 0 in
    if cmd =? socks5CmdUDP then
      match udpHandler s with
      | Some h =>
          _ ← skip_udp_addr (nth 3 header 0);
          _ ← run_udpHandler h;
          mret (""%string, 0, None)
      | None => handleUDPAssociate listenUDP (nth 3 header 0)
      end
    else if cmd =? socks5CmdConnect then
      addr ← readRequestAddr (nth 3 header 0);
      portBuf ← readFull 2;
      _ ← sendConnectReply localAddr;
      mret (addr, get16 portBuf, None)
    else reply_error (fun _ => socks5ReplyCommandNotSupported) (if cmd =? socks5CmdBind then SBind else SCommand cmd).

(** What [handleConnection] does with a client: closes it, waits for it next to a
    UDP relay, or hands it to the handler. *)
Inductive outcome :=
| Refused (e : serr)
| Waiting (relay : option Z)
| Handler (addr : string) (port : Z).

Definition handleConnection (s : SOCKS5Server) (localAddr : option IP) (listenUDP : error + Z) (c : Conn)
  : Conn * outcome :=
  match handleHandshake s c with
  | (c, inl e) => (c, Refused e)
  | (c, inr _) =>
      match handleRequest s localAddr listenUDP c with
      | (c, inl e) => (c, Refused e)
      | (c, inr (addr, port, relay)) =>
          if String.eqb addr "" then ((ReadFull c 1).1, Waiting relay)
          else (c, Handler addr port)
      end
  end.
End Server.

(** ** The listener *)

(** [listener] is the open socket, [closed] whether [Close] was called. *)
Record listenState := mkListen { listener : option nat; closed : bool }.

(** The start of [ListenAndServe] with a new socket: whether it goes on to accept. *)
Definition listen_start (l : nat) (s : listenState) : listenState * bool :=
  if closed s then (s, false) else (mkListen (Some l) (closed s), true).
(** Its deferred end. *)
Definition listen_end (l : nat) (s : listenState) : listenState :=
  mkListen (if decide (listener s = Some l) then None else listener s) (closed s).
(** After a failed [Accept]: whether the loop goes on. *)
Definition accept_failed (s : listenState) : bool := negb (closed s).
(** [Close]: the socket it closes. *)
Definition Close (s : listenState) : listenState * option nat := (mkListen None true, listener s).

(** ** The header of a UDP packet (module.go) *)

Definition parseUDPHeader (data : list Z) : option (string * Z * list Z) :=
  if len data <? 4 then None
  else
    let atyp := nth 3 data 0 in
    if atyp =? 1 then
      if len data <? 10 then None
      else Some (IP_String (zslice 4 8 data), get16 (zslice 8 10 data), zdrop 10 data)
    else if atyp =? 4 then
      if len data <? 22 then None
      else Some (IP_String (zslice 4 20 data), get16 (zslice 20 22 data), zdrop 22 data)
    else if atyp =? 3 then
      if len data <? 5 then None
      else
        let dl := nth 4 data 0 in
        if len data <? 5 + dl + 2 then None
        else Some (string_of_bytes (zslice 5 (5 + dl) data), get16 (zslice (5 + dl) (5 + dl + 2) data),
                   zdrop (5 + dl + 2) data)
    else None.

Definition replyHeader (host : string) (port : Z) : list Z :=
  match ParseIP host with
  | Some ip =>
      match To4 ip with
      | Some ip4 => [0; 0; 0; 1] ++ ip4 ++ put16 port
      | None => [0; 0; 0; 4] ++ default [] (To16 ip) ++ put16 port
      end
  | None => [0; 0; 0; 3; u8 (Z.of_nat (String.length host))] ++ bytes_of_string host ++ put16 port
  end.
Definition buildUDPReply (host : string) (port : Z) (payload : list Z) : list Z :=
  replyHeader host port ++ payload.

End Socks5.
