(* ===== verification/Socks5Facts.v ===== *)
(** Theorems on the SOCKS5 server: which client bytes reach the handler, and what
    is answered; what the credentials protect; the UDP header round trip. *)

From S2P Require Import Prelude GoIO GoStr GoBytes NetIP NetIPFacts Datagram DatagramFacts Socks5.
Import Socks5.

(** ** Client messages *)

Inductive target := TV4 (ip : list Z) | TV6 (ip : list Z) | TName (name : list Z).

Definition target_ok (t : target) : Prop :=
  match t with
  | TV4 ip => len ip = 4
  | TV6 ip => len ip = 16
  | TName name => len name < 256
  end.
Definition target_host (t : target) : string :=
  match t with TV4 ip | TV6 ip => IP_String ip | TName name => string_of_bytes name end.
Definition target_bytes (t : target) : list Z :=
  match t with
  | TV4 ip => 1 :: ip
  | TV6 ip => 4 :: ip
  | TName name => 3 :: len name :: name
  end.

Definition client_hello (methods : list Z) : list Z := [5; len methods] ++ methods.
Definition client_auth (user pass : list Z) : list Z := [1; len user] ++ user ++ [len pass] ++ pass.
Definition client_connect (rsv : Z) (t : target) (port : Z) : list Z := [5; 1; rsv] ++ target_bytes t ++ put16 port.

(** The bytes of the reply to a served request. *)
Definition connect_reply (localAddr : option IP) : list Z :=
  [5; 0; 0] ++ match localAddr with
               | Some ip => match To4 ip, To16 ip with
                            | Some ip4, _ => 1 :: ip4
                            | None, Some ip6 => 4 :: ip6
                            | None, None => [1; 0; 0; 0; 0]
                            end
               | None => [1; 0; 0; 0; 0]
               end ++ [0; 0].

(** What the handshake wants after the methods: nothing, or a login the handler
    accepts. *)
Definition login (s : SOCKS5Server) (methods bytes reply : list Z) : Prop :=
  match authHandler s with
  | Some f =>
      if existsb (Z.eqb 2) methods then
        exists user pass, len user < 256 /\ len pass < 256 /\ bytes = client_auth user pass /\
          f (string_of_bytes user) (string_of_bytes pass) = true /\ reply = [5; 2; 1; 0]
      else 0 ∈ methods /\ bytes = [] /\ reply = [5; 0]
  | None => 0 ∈ methods /\ bytes = [] /\ reply = [5; 0]
  end.

Section Session.
Context `{NetErrors} (e : error) (cl : bool).

(** A connection whose writes succeed. *)
Definition st (i o : list Z) : Conn := mkConn i e o [] cl.

Lemma bind_iff {A B} (m : IO A) (k : A -> IO B) c c' x :
  (m ≫= k) c = (c', inr x) <-> exists c1 y, m c = (c1, inr y) /\ k y c1 = (c', inr x).
Proof.
  unfold mbind, IO_bind. destruct (m c) as [c1 [er|y]]; split.
  - done.
  - intros (? & ? & ? & ?). simplify_eq.
  - intros Hk. by exists c1, y.
  - intros (? & ? & ? & ?). by simplify_eq.
Qed.

Lemma readFull_iff n i o c' b : 0 <= n ->
  readFull n (st i o) = (c', inr b) <-> exists i', i = b ++ i' /\ len b = n /\ c' = st i' o.
Proof.
  intros Hn. unfold readFull. destruct (ReadFull (st i o) n) as [c1 [b1|er]] eqn:E; split.
  - intros [= -> ->]. unfold ReadFull in E. cbn in E. destruct (Z.leb_spec n (len i)); [|done]. injection E as <- <-.
    exists (zdrop n i). split_and!; [by rewrite ztake_zdrop|rewrite zlen_ztake; lia|done].
  - intros (i' & -> & Hl & ->). rewrite (ReadFull_app _ n b i') in E by done. by injection E as <- <-.
  - done.
  - intros (i' & -> & Hl & ->). by rewrite (ReadFull_app _ n b i') in E.
Qed.

Lemma write_iff b i o c' x : write b (st i o) = (c', inr x) <-> c' = st i (o ++ b).
Proof. unfold write, st. cbn. destruct x. split; [by intros [= ->]|by intros ->]. Qed.

Lemma throw_iff {A} er c c' (x : A) : throw er c = (c', inr x) <-> False.
Proof. done. Qed.

Lemma ret_iff {A} (y : A) c c' x : (mret y : IO A) c = (c', inr x) <-> c' = c /\ x = y.
Proof. unfold mret, IO_ret. split; [by intros [= -> ->]|by intros [-> ->]]. Qed.

Lemma read1 i o c' b : readFull 1 (st i o) = (c', inr b) <-> exists x i', i = x :: i' /\ b = [x] /\ c' = st i' o.
Proof.
  rewrite readFull_iff by lia. split.
  - intros (i' & -> & Hl & ->). destruct b as [|x [|]]; try (unfold zlen in Hl; cbn in Hl; lia). by exists x, i'.
  - intros (x & i' & -> & -> & ->). by exists i'.
Qed.
Lemma read2 i o c' b :
  readFull 2 (st i o) = (c', inr b) <-> exists x y i', i = x :: y :: i' /\ b = [x; y] /\ c' = st i' o.
Proof.
  rewrite readFull_iff by lia. split.
  - intros (i' & -> & Hl & ->). destruct b as [|x [|y [|]]]; try (unfold zlen in Hl; cbn in Hl; lia). by exists x, y, i'.
  - intros (x & y & i' & -> & -> & ->). by exists i'.
Qed.
Lemma read4 i o c' b :
  readFull 4 (st i o) = (c', inr b) <-> exists x y z t i', i = x :: y :: z :: t :: i' /\ b = [x; y; z; t] /\ c' = st i' o.
Proof.
  rewrite readFull_iff by lia. split.
  - intros (i' & -> & Hl & ->). destruct b as [|x [|y [|z [|t [|]]]]]; try (unfold zlen in Hl; cbn in Hl; lia). by exists x, y, z, t, i'.
  - intros (x & y & z & t & i' & -> & -> & ->). by exists i'.
Qed.
(** A length byte and that many bytes. *)
Lemma read_var n i o c' b : is_byte n ->
  readFull n (st i o) = (c', inr b) <-> exists i', i = b ++ i' /\ len b = n /\ c' = st i' o.
Proof. intros Hn. apply readFull_iff, Hn. Qed.

(** ** The steps of a session *)

Lemma auth_iff s i o c' x : Forall is_byte i ->
  handleUsernamePasswordAuth s (st i o) = (c', inr x) <->
  exists user pass i' f, authHandler s = Some f /\ len user < 256 /\ len pass < 256 /\
    f (string_of_bytes user) (string_of_bytes pass) = true /\
    i = client_auth user pass ++ i' /\ c' = st i' (o ++ [1; 0]).
Proof.
  intros Hb. unfold handleUsernamePasswordAuth. split.
  - intros (c1 & b1 & (v & i1 & -> & -> & ->)%read1 & Hk)%bind_iff. cbn [nth] in Hk.
    destruct (Z.eqb_spec v 1) as [->|]; [|done]. cbn [negb] in Hk. apply Forall_cons in Hb as [_ Hb].
    apply bind_iff in Hk as (c2 & b2 & (n & i2 & -> & -> & ->)%read1 & Hk). cbn [nth] in Hk. apply Forall_cons in Hb as [Hn Hb].
    apply bind_iff in Hk as (c3 & user & Hr & Hk). apply read_var in Hr as (i3 & -> & Hu & ->); [|done].
    apply Forall_app in Hb as [_ Hb].
    apply bind_iff in Hk as (c4 & b4 & (m & i4 & -> & -> & ->)%read1 & Hk). cbn [nth] in Hk. apply Forall_cons in Hb as [Hm Hb].
    apply bind_iff in Hk as (c5 & pass & Hr & Hk). apply read_var in Hr as (i5 & -> & Hp & ->); [|done].
    destruct (authHandler s) as [f|]; [|by apply bind_iff in Hk as (? & ? & _ & ?)].
    destruct (f (string_of_bytes user) (string_of_bytes pass)) eqn:Ef; cbn [negb] in Hk; [|by apply bind_iff in Hk as (? & ? & _ & ?)].
    apply write_iff in Hk as ->. exists user, pass, i5, f. unfold is_byte in *. rewrite <- Hu, <- Hp in *.
    split_and!; try done; [lia|lia|]. unfold client_auth. by rewrite <- !app_assoc.
  - intros (user & pass & i' & f & Ea & Hu & Hp & Ef & -> & ->). pose proof (zlen_nonneg user). pose proof (zlen_nonneg pass).
    unfold client_auth. cbn [app]. apply bind_iff. eexists _, _. split; [apply read1; eauto|]. cbn [nth Z.eqb Pos.eqb negb].
    apply bind_iff. eexists _, _. split; [apply read1; eauto|]. cbn [nth]. rewrite <- !app_assoc.
    apply bind_iff. eexists _, _. split; [apply read_var; [done|eauto]|]. cbn [app].
    apply bind_iff. eexists _, _. split; [apply read1; eauto|]. cbn [nth].
    apply bind_iff. eexists _, _. split; [apply read_var; [done|eauto]|]. rewrite Ea, Ef. by apply write_iff.
Qed.

Lemma existsb_in x l : existsb (Z.eqb x) l = true <-> x ∈ l.
Proof.
  rewrite existsb_exists. setoid_rewrite Z.eqb_eq. setoid_rewrite <- list_elem_of_In.
  split; [by intros (y & ? & <-)|eauto].
Qed.

Lemma handshake_iff s i o c' x : Forall is_byte i ->
  handleHandshake s (st i o) = (c', inr x) <->
  exists methods auth reply i', 0 < len methods < 256 /\ login s methods auth reply /\
    i = client_hello methods ++ auth ++ i' /\ c' = st i' (o ++ reply).
Proof.
  intros Hb. unfold handleHandshake. split.
  - intros (c1 & b1 & (v & n & i1 & -> & -> & ->)%read2 & Hk)%bind_iff. cbn [nth] in Hk.
    destruct (Z.eqb_spec v socks5Version) as [->|]; [|done]. cbn [negb] in Hk. destruct (Z.eqb_spec n 0); [done|].
    apply Forall_cons in Hb as [_ [Hn Hb]%Forall_cons].
    apply bind_iff in Hk as (c2 & methods & Hr & Hk). apply read_var in Hr as (i2 & -> & Hm & ->); [|done].
    apply Forall_app in Hb as [_ Hb]. apply bind_iff in Hk as (c3 & y & ->%write_iff & Hk).
    exists methods. unfold selectMethod, login, socks5MethodNoAuth, socks5MethodUsernamePass in *.
    assert (Hlen : 0 < len methods < 256) by (unfold is_byte in *; lia).
    destruct (authHandler s) as [f|] eqn:Ea; [destruct (existsb (Z.eqb 2) methods) eqn:Eu|]; cbn in Hk.
    + apply auth_iff in Hk as (user & pass & i' & f' & Ef & H1 & H2 & H3 & -> & ->); [|done].
      exists (client_auth user pass), [5; 2; 1; 0], i'. rewrite Ea in Ef. injection Ef as <-.
      split_and!; [lia|lia|by exists user, pass|by rewrite <- Hm|by rewrite <- app_assoc].
    + destruct (existsb (Z.eqb 0) methods) eqn:En; [|done]. apply ret_iff in Hk as [-> _].
      exists [], [5; 0], i2. split_and!; [lia|lia|by apply existsb_in|done|done|by rewrite <- Hm|done].
    + destruct (existsb (Z.eqb 0) methods) eqn:En; [|done]. apply ret_iff in Hk as [-> _].
      exists [], [5; 0], i2. split_and!; [lia|lia|by apply existsb_in|done|done|by rewrite <- Hm|done].
  - intros (methods & auth & reply & i' & Hm & Hl & -> & ->). unfold client_hello. cbn [app].
    apply bind_iff. eexists _, _. split; [apply read2; eauto 6|]. cbn [nth]. rewrite Z.eqb_refl. cbn [negb].
    destruct (Z.eqb_spec (len methods) 0); [lia|].
    apply bind_iff. eexists _, _. split; [apply read_var; [unfold is_byte; lia|eauto]|].
    apply bind_iff. eexists _, (). split; [by apply write_iff|]. unfold selectMethod, login in *.
    assert (Hsub : Forall is_byte (auth ++ i')) by (apply Forall_app in Hb as [_ Hb]; exact Hb).
    destruct (authHandler s) as [f|] eqn:Ea; [destruct (existsb (Z.eqb 2) methods) eqn:Eu|].
    + destruct Hl as (user & pass & Hu & Hp & -> & Hf & ->). unfold socks5MethodUsernamePass. rewrite Eu. cbn. destruct x.
      apply auth_iff; [done|]. exists user, pass, i', f. split_and!; try done. by rewrite <- app_assoc.
    + destruct Hl as (H0 & -> & ->). unfold socks5MethodUsernamePass. rewrite Eu.
      apply existsb_in in H0. unfold socks5MethodNoAuth. rewrite H0. by destruct x.
    + destruct Hl as (H0 & -> & ->). apply existsb_in in H0. unfold socks5MethodNoAuth. rewrite H0. by destruct x.
Qed.

Lemma connect_reply_eq la : sendConnectReply la = write (connect_reply la).
Proof.
  assert (Hp : forall a (l : list Z), (len (a :: l) =? 0) = false /\ (0 <? len (a :: l)) = true).
  { intros a l. rewrite zlen_cons. pose proof (zlen_nonneg l). split; [apply Z.eqb_neq|apply Z.ltb_lt]; lia. }
  unfold sendConnectReply, sendReply, connect_reply, socks5ATYPIPv4, socks5ATYPIPv6. f_equal. destruct la as [ip|]; [|done].
  destruct (To4 ip) as [ip4|]; [by destruct (Hp 1 ip4) as [-> ->]|].
  destruct (To16 ip) as [ip6|]; [by destruct (Hp 4 ip6) as [-> ->]|done].
Qed.

Lemma put16_get16 p q : is_byte p -> is_byte q -> put16 (get16 [p; q]) = [p; q].
Proof.
  intros Hp Hq. rewrite get16_val by done. unfold put16, u8, is_byte in *. rewrite Z.shiftr_div_pow2 by lia.
  change (2 ^ 8) with 256. rewrite Z.div_add_l, (Z.div_small q) by lia. f_equal; [|f_equal].
  - rewrite Z.add_0_r. apply Z.mod_small. lia.
  - rewrite Z.add_comm, Z_mod_plus_full. apply Z.mod_small. lia.
Qed.

(** Only a CONNECT has an address. *)
Lemma no_reply_error {A} code er c c' (x : A) : reply_error code er c <> (c', inr x).
Proof. unfold reply_error, mbind, IO_bind, ignore. cbn. by destruct (sendReply _ _ _ c). Qed.

Lemma udp_no_addr lu a c c' addr port r : handleUDPAssociate lu a c = (c', inr (addr, port, r)) -> addr = ""%string.
Proof.
  unfold handleUDPAssociate. destruct (udpAssociateAddrReader a); [|by intros ?%no_reply_error].
  intros (c1 & ? & _ & (c2 & ? & _ & Hk)%bind_iff)%bind_iff.
  destruct lu as [er|p]; [by apply no_reply_error in Hk|].
  apply bind_iff in Hk as (c3 & ? & _ & Hk). apply ret_iff in Hk as [_ Hk]. congruence.
Qed.

Lemma readAddr_iff a i o c' addr : Forall is_byte i ->
  readRequestAddr a (st i o) = (c', inr addr) <->
  exists t i', target_ok t /\ target_host t = addr /\ a :: i = target_bytes t ++ i' /\ c' = st i' o.
Proof.
  intros Hb. unfold readRequestAddr, socks5ATYPIPv4, socks5ATYPIPv6, socks5ATYPDomain. split.
  - destruct (Z.eqb_spec a 1) as [->|]; [|destruct (Z.eqb_spec a 4) as [->|]; [|destruct (Z.eqb_spec a 3) as [->|]]].
    + intros (c1 & ip & (i' & -> & Hl & ->)%readFull_iff & (-> & ->)%ret_iff)%bind_iff; [|lia]. by exists (TV4 ip), i'.
    + intros (c1 & ip & (i' & -> & Hl & ->)%readFull_iff & (-> & ->)%ret_iff)%bind_iff; [|lia]. by exists (TV6 ip), i'.
    + intros (c1 & b1 & (k & i1 & -> & -> & ->)%read1 & Hk)%bind_iff. cbn [nth] in Hk. apply Forall_cons in Hb as [Hn Hb].
      apply bind_iff in Hk as (c2 & name & Hr & (-> & ->)%ret_iff). apply read_var in Hr as (i2 & -> & Hl & ->); [|done].
      exists (TName name), i2. cbn. unfold is_byte in Hn. rewrite Hl. split_and!; [lia|done..].
    + by intros (? & ? & _ & ?)%bind_iff.
  - intros (t & i' & Ht & <- & E & ->). destruct t as [ip|ip|name]; cbn in E, Ht; injection E as -> ->; cbn [Z.eqb Pos.eqb].
    + apply bind_iff. eexists _, ip. split; [apply readFull_iff; [lia|eauto]|done].
    + apply bind_iff. eexists _, ip. split; [apply readFull_iff; [lia|eauto]|done].
    + apply bind_iff. eexists _, _. split; [apply read1; eauto|]. cbn [nth]. apply bind_iff. eexists _, name.
      split; [apply read_var; [pose proof (zlen_nonneg name); unfold is_byte; lia|eauto]|done].
Qed.

Lemma request_iff s la lu i o c' addr port r : Forall is_byte i -> addr <> ""%string ->
  handleRequest s la lu (st i o) = (c', inr (addr, port, r)) <->
  exists rsv t i', target_ok t /\ 0 <= port < 65536 /\ addr = target_host t /\ r = None /\
    i = client_connect rsv t port ++ i' /\ c' = st i' (o ++ connect_reply la).
Proof.
  intros Hb Hne. unfold handleRequest. split.
  - intros (c1 & b1 & (v & cmd & rsv & a & i1 & -> & -> & ->)%read4 & Hk)%bind_iff. cbn [nth] in Hk.
    destruct (Z.eqb_spec v socks5Version) as [->|]; [|done]. cbn [negb] in Hk.
    destruct (cmd =? socks5CmdUDP).
    { destruct (udpHandler s); [|by apply udp_no_addr in Hk].
      apply bind_iff in Hk as (? & ? & _ & (? & ? & _ & [_ [=]]%ret_iff)%bind_iff). by simplify_eq. }
    destruct (Z.eqb_spec cmd socks5CmdConnect) as [->|]; [|by apply no_reply_error in Hk].
    do 3 apply Forall_cons in Hb as [_ Hb].
    apply bind_iff in Hk as (c2 & addr' & Ha & Hk).
    apply readAddr_iff in Ha as (t & i2 & Ht & <- & E & ->); [|by apply Forall_cons in Hb as [_ ?]].
    rewrite E in Hb. apply Forall_app in Hb as [_ Hb2].
    apply bind_iff in Hk as (c3 & b3 & (p & q & i3 & -> & -> & ->)%read2 & Hk). rewrite connect_reply_eq in Hk.
    apply bind_iff in Hk as (c4 & ? & ->%write_iff & [-> [= -> -> ->]]%ret_iff).
    apply Forall_cons in Hb2 as [Hp [Hq _]%Forall_cons]. exists rsv, t, i3.
    change (Z.lor (Z.shiftl p 8) q) with (get16 [p; q]). do 4 (split; [done || (apply get16_range; constructor; [done|by constructor])|]). split; [|done].
    unfold client_connect. rewrite put16_get16 by done. rewrite <- !app_assoc. cbn [app]. rewrite E. done.
  - intros (rsv & t & i' & Ht & Hp & -> & -> & -> & ->). unfold client_connect. cbn [app]. rewrite <- app_assoc.
    apply Forall_app in Hb as [Hb Hb']. unfold client_connect in Hb. do 3 apply Forall_cons in Hb as [_ Hb].
    destruct (target_bytes t) as [|a l] eqn:Et; [by destruct t|]. apply Forall_app in Hb as [Hb Hbp].
    apply bind_iff. eexists _, _. split; [apply read4; cbn [app]; eauto 8|]. cbn [nth Z.eqb Pos.eqb negb].
    unfold socks5Version, socks5CmdUDP, socks5CmdConnect. cbn [Z.eqb Pos.eqb negb].
    apply bind_iff. eexists _, (target_host t). split.
    { apply readAddr_iff; [|exists t, (put16 port ++ i'); by rewrite Et].
      apply Forall_cons in Hb as [_ Hb]. by repeat apply Forall_app_2. }
    apply bind_iff. eexists _, (put16 port). split; [apply read2; unfold put16; cbn [app]; by eauto 6|].
    rewrite connect_reply_eq. apply bind_iff. eexists _, (). split; [by apply write_iff|]. apply ret_iff. split; [done|].
    by rewrite <- (app_nil_r (put16 port)), get16_put16.
Qed.

(** The bytes of a client that asks for a connection, and the answer to them. *)
Definition connect_session (s : SOCKS5Server) (la : option IP) (i : list Z) (addr : string) (port : Z)
    (rest reply : list Z) : Prop :=
  exists methods auth hello_reply rsv t,
    0 < len methods < 256 /\ login s methods auth hello_reply /\ target_ok t /\ 0 <= port < 65536 /\
    addr = target_host t /\ i = client_hello methods ++ auth ++ client_connect rsv t port ++ rest /\
    reply = hello_reply ++ connect_reply la.

Lemma session_serves s la lu i o addr port rest reply : Forall is_byte i ->
  addr <> ""%string -> connect_session s la i addr port rest reply ->
  handleConnection s la lu (st i o) = (st rest (o ++ reply), Handler addr port).
Proof.
  intros Hb Hne (methods & auth & hr & rsv & t & Hm & Hl & Ht & Hp & -> & -> & ->). unfold handleConnection.
  assert (Hh : handleHandshake s (st (client_hello methods ++ auth ++ client_connect rsv t port ++ rest) o)
               = (st (client_connect rsv t port ++ rest) (o ++ hr), inr ())).
  { apply handshake_iff; [done|]. by exists methods, auth, hr, (client_connect rsv t port ++ rest). }
  rewrite Hh. do 2 apply Forall_app in Hb as [_ Hb].
  assert (Hr : handleRequest s la lu (st (client_connect rsv t port ++ rest) (o ++ hr))
               = (st rest ((o ++ hr) ++ connect_reply la), inr (target_host t, port, None))).
  { apply request_iff; [done|done|]. by exists rsv, t, rest. }
  rewrite Hr. apply String.eqb_neq in Hne. rewrite Hne. by rewrite <- app_assoc.
Qed.

(** C11: the handler gets a connection exactly when the client's bytes are a
    greeting, the login the server asks for with credentials its handler accepts,
    and a CONNECT request; it gets the host and port of the request, nothing
    behind the request is read, and the answers are the chosen method, the
    login's success and one reply.  (On a connection whose writes succeed; an
    empty name is not handed on.) *)
Theorem socks_served_iff s la lu i o addr port rest reply : Forall is_byte i ->
  (addr <> ""%string /\ connect_session s la i addr port rest reply) <->
  handleConnection s la lu (st i o) = (st rest (o ++ reply), Handler addr port).
Proof.
  intros Hb. split; [intros [Hne Hs]; by apply session_serves|]. unfold handleConnection.
  destruct (handleHandshake s (st i o)) as [c1 [er|[]]] eqn:Eh; [done|].
  apply handshake_iff in Eh as (methods & auth & hr & i' & Hm & Hl & -> & ->); [|done].
  destruct (handleRequest s la lu (st i' (o ++ hr))) as [c2 [er|[[addr' port'] r]]] eqn:Er; [done|].
  destruct (String.eqb_spec addr' ""); [done|]. intros [= -> -> ->].
  do 2 apply Forall_app in Hb as [_ Hb].
  apply request_iff in Er as (rsv & t & i3 & Ht & Hp & -> & -> & -> & Ec); [|done..].
  injection Ec as <- Eo. rewrite <- app_assoc in Eo. apply app_inv_head in Eo. split; [done|].
  exists methods, auth, hr, rsv, t. split_and!; done || lia.
Qed.

(** Credentials do not protect the server: whatever the handler accepts, a
    client that offers only "no authentication" is served. *)
Theorem noauth_client_served s la lu o t port rest : target_ok t -> target_host t <> ""%string ->
  Forall is_byte (target_bytes t ++ rest) -> 0 <= port < 65536 ->
  handleConnection s la lu (st (client_hello [0] ++ client_connect 0 t port ++ rest) o) =
  (st rest (o ++ [5; 0] ++ connect_reply la), Handler (target_host t) port).
Proof.
  intros Ht Hne [Hb1 Hb2]%Forall_app Hp. apply session_serves; [|done|].
  - unfold client_connect. cbn [client_hello app]. change (len [0]) with 1. do 6 (constructor; [by unfold is_byte|]).
    rewrite <- app_assoc. apply Forall_app; split; [done|]. apply Forall_app. split; [apply put16_bytes|done].
  - exists [0], [], [5; 0], 0, t. split; [done|]. split; [|split_and!; done || lia].
    unfold login. cbn [existsb Z.eqb]. destruct (authHandler s); (split; [by left|done]).
Qed.
End Session.

(** ** The UDP header *)

(** The host an encoded name is read as: an address in its canonical text. *)
Definition canonical_name (host : string) : string :=
  match ParseIP host with Some ip => IP_String ip | None => host end.

(** Reading a built UDP packet gives back the host (an address in its canonical
    text), the port and the payload, for every address and every name of up to
    255 bytes. *)
Theorem udp_header_roundtrip host port payload :
  0 <= port < 65536 -> Z.of_nat (String.length host) < 256 ->
  parseUDPHeader (buildUDPReply host port payload) = Some (canonical_name host, port, payload).
Proof.
  intros Hp Hn. unfold buildUDPReply, replyHeader, canonical_name. destruct (ParseIP host) as [ip|] eqn:Eip.
  - pose proof (ParseIP_len _ _ Eip) as Hl. destruct (To4 ip) as [ip4|] eqn:E4.
    + pose proof (To4_len _ _ E4) as Hl4. rewrite <- !app_assoc.
      destruct (header_fields [0; 0; 0; 1] ip4 payload port 4 8) as (H1 & H2 & H3 & H4); [done|lia|done|].
      rewrite <- !app_assoc in H1, H2, H3, H4. unfold parseUDPHeader. rewrite H4.
      destruct (Z.ltb_spec (8 + 2 + len payload) 4); [zlen_lia|]. cbn [app nth Z.eqb Pos.eqb].
      destruct (Z.ltb_spec (8 + 2 + len payload) 10); [zlen_lia|]. cbn [app] in *. change (8 + 2) with 10 in *.
      rewrite H1, H2, H3. by rewrite (IP_String_To4 ip ip4).
    + rewrite (To16_16 ip Hl). cbn [default from_option id]. rewrite <- !app_assoc.
      destruct (header_fields [0; 0; 0; 4] ip payload port 4 20) as (H1 & H2 & H3 & H4); [done|lia|done|].
      rewrite <- !app_assoc in H1, H2, H3, H4. unfold parseUDPHeader. rewrite H4.
      destruct (Z.ltb_spec (20 + 2 + len payload) 4); [zlen_lia|]. cbn [app nth Z.eqb Pos.eqb].
      destruct (Z.ltb_spec (20 + 2 + len payload) 22); [zlen_lia|]. cbn [app] in *. change (20 + 2) with 22 in *.
      by rewrite H1, H2, H3.
  - rewrite u8_small by lia. set (n := Z.of_nat (String.length host)) in *.
    assert (Hb : len (bytes_of_string host) = n) by apply bytes_of_string_len. rewrite <- !app_assoc.
    destruct (header_fields [0; 0; 0; 3; n] (bytes_of_string host) payload port 5 (5 + n)) as (H1 & H2 & H3 & H4);
      [done|lia|done|]. rewrite <- !app_assoc in H1, H2, H3, H4. unfold parseUDPHeader. rewrite H4.
    pose proof (zlen_nonneg payload). destruct (Z.ltb_spec (5 + n + 2 + len payload) 4); [lia|]. cbn [app nth Z.eqb Pos.eqb] in *.
    destruct (Z.ltb_spec (5 + n + 2 + len payload) 5); [lia|]. destruct (Z.ltb_spec (5 + n + 2 + len payload) (5 + n + 2)); [lia|].
    by rewrite H1, H2, H3, string_of_bytes_of_string.
Qed.

(** ** Witnesses *)

Module SocksWitnesses.
#[local] Instance plain : NetErrors := {| err_timeout _ := false; err_text _ := "EOF" |}.

Definition strict : SOCKS5Server :=
  mkServer (Some (fun u p => String.eqb u "u" && String.eqb p "pw")) None.

(** A login with the credentials "u" and "pw" and a request for 10.0.0.1:443. *)
Definition good_client : list Z := [5; 2; 0; 2; 1; 1; 117; 2; 112; 119; 5; 1; 0; 1; 10; 0; 0; 1; 1; 187; 22].

Lemma socks_served_iff_witness :
  handleConnection strict None (inr 0) (st EOF false good_client []) =
  (st EOF false [22] [5; 2; 1; 0; 5; 0; 0; 1; 0; 0; 0; 0; 0; 0], Handler "10.0.0.1" 443).
Proof.
  apply (socks_served_iff EOF false strict None (inr 0) good_client [] "10.0.0.1" 443 [22] [5; 2; 1; 0; 5; 0; 0; 1; 0; 0; 0; 0; 0; 0]).
  - repeat (apply List.Forall_cons; [by unfold is_byte|]). apply List.Forall_nil.
  - split; [done|]. exists [0; 2], (client_auth [117] [112; 119]), [5; 2; 1; 0], 0, (TV4 [10; 0; 0; 1]).
    split_and!; try done. exists [117], [112; 119]. by split_and!.
Defined.

Lemma noauth_client_served_witness :
  handleConnection strict None (inr 0) (st EOF false [5; 1; 0; 5; 1; 0; 3; 1; 120; 0; 80] []) =
  (st EOF false [] [5; 0; 5; 0; 0; 1; 0; 0; 0; 0; 0; 0], Handler "x" 80).
Proof.
  apply (noauth_client_served EOF false strict None (inr 0) [] (TName [120]) 80 []); [done|done| |lia].
  repeat (apply List.Forall_cons; [by unfold is_byte|]). apply List.Forall_nil.
Defined.
End SocksWitnesses.
