(* ===== verification/ProxyStream.v ===== *)
(** A proxied stream between the client and the relay: the header the client sends
    (core/tunnel/datapath.go) and the relay reads (core/relay/relay.go), the
    opening of a stream on a pooled or a new connection, and the frames of a UDP
    stream at both ends (core/socks5/module.go, core/relay/relay.go).

    A connection the client uses is a [Conn] with whether [protocol.NetConnOf]
    finds the socket under it.  The dialer is the list of what its next calls
    give, [None] when there is none; the pool is what [idle.take] gives. *)

From S2P Require Import Prelude GoIO GoStr NetIP Framed Socks5.

Definition SpliceProtoBit : Z := 128.
Definition TorrentProtoBit : Z := 64.
Definition KeepAliveProtoBit : Z := 32.
Definition protoTCP : Z := 6.
Definition protoUDP : Z := 17.

(** ** Opening a stream: the client *)

Record flowConn := mkFlow { f_conn : Conn; f_raw : bool }.

(** [KeepAliveEnabled], [SpliceEnabled], [FullFrameEnabled] and whether the context
    has ended. *)
Record openEnv := mkEnv { keepAliveOn : bool; spliceOn : bool; fullFrame : bool; ctxDone : bool }.

Inductive open_err := ErrNoDialer | ErrDial (e : error) | ErrHeader (e : error).

(** An open stream: its connection, the header that was sent, whether it is framed,
    whether the answer is read from the socket below, and whether the opening
    writes are shaped. *)
Record opened := mkOpened {
  o_conn : flowConn; o_header : list Z; o_framed : bool; o_splice : bool; o_shaped : bool
}.

Definition stream_header (hdrProto : Z) (addr : string) (port : Z) : list Z :=
  let addrBytes := bytes_of_string addr in
  [hdrProto] ++ put16 (u16 (len addrBytes)) ++ addrBytes ++ put16 port.

Definition splice_of (env : openEnv) (wantSplice : bool) (c : flowConn) : bool :=
  wantSplice && spliceOn env && f_raw c && negb (fullFrame env).

Definition write_header (c : flowConn) (header : list Z) : flowConn * option error :=
  let '(cn, e) := Conn_Write (f_conn c) header in (mkFlow cn (f_raw c), e).

(** The result, the errors given to [setError] and the connections closed. *)
Record open_log := mkLog { l_errors : list error; l_closed : list flowConn }.
Definition no_log : open_log := mkLog [] [].

Definition dial_failed (env : openEnv) (e : error) (closed : list flowConn) : open_log * (open_err + opened) :=
  (mkLog (if ctxDone env then [] else [e]) closed, inl (ErrDial e)).

(** The second part of [openStreamPerFlow], with a connection. *)
Definition open_on (env : openEnv) (wantSplice : bool) (proto : Z) (addr : string) (port : Z)
    (conn : flowConn) (reused : bool) (dials : list (error + flowConn)) : open_log * (open_err + opened) :=
  let splice := splice_of env wantSplice conn in
  let hdrProto := proto in
  let hdrProto := if keepAliveOn env then Z.lor hdrProto KeepAliveProtoBit else hdrProto in
  let hdrProto := if splice then Z.lor hdrProto SpliceProtoBit else hdrProto in
  let header := stream_header hdrProto addr port in
  let finish conn reused splice log :=
    if negb (keepAliveOn env) then (log, inr (mkOpened conn header false false true))
    else (log, inr (mkOpened conn header true splice (negb reused))) in
  match write_header conn header with
  | (conn, None) => finish conn reused splice no_log
  | (conn, Some e) =>
      if negb reused then (mkLog [] [conn], inl (ErrHeader e))
      else match dials with
           | inr fresh :: _ =>
               let splice := splice_of env wantSplice fresh in
               match write_header fresh header with
               | (fresh, None) => finish fresh false splice (mkLog [] [conn])
               | (fresh, Some e) => (mkLog [] [conn; fresh], inl (ErrHeader e))
               end
           | inl derr :: _ => dial_failed env derr [conn]
           | [] => dial_failed env EOF [conn]
           end
  end.

Definition openStreamPerFlow (env : openEnv) (pooled : option flowConn)
    (dial : option (list (error + flowConn))) (proto : Z) (addr : string) (port : Z)
  : open_log * (open_err + opened) :=
  match dial with
  | None => (no_log, inl ErrNoDialer)
  | Some dials =>
      let wantSplice := negb (Z.land proto SpliceProtoBit =? 0) in
      let proto := Z.ldiff proto SpliceProtoBit in
      match (if keepAliveOn env then pooled else None) with
      | Some c => open_on env wantSplice proto addr port c true dials
      | None =>
          match dials with
          | inr c :: dials => open_on env wantSplice proto addr port c false dials
          | inl e :: _ => dial_failed env e []
          | [] => dial_failed env EOF []
          end
      end
  end.

(** ** The first writes of a connection *)

Definition upstreamMaxPayload : Z := 480.
Definition upstreamShapedWrites : Z := 3.

(** [writeShaped]: the connection, what is left of the budget, the count and the
    error. *)
Fixpoint writeShaped (fuel : nat) (c : Conn) (upLeft : Z) (b : list Z) (written : Z)
  : option (Conn * Z * Z * option error) :=
  if negb (0 <? len b) then Some (c, upLeft, written, None)
  else
    match fuel with
    | O => None
    | S fuel =>
        let cut := (0 <? upLeft) && (upstreamMaxPayload <? len b) in
        let n := if cut then upstreamMaxPayload else len b in
        match Conn_Write c (ztake n b) with
        | (c', Some e) => Some (c', upLeft, written + (len (c_out c') - len (c_out c)), Some e)
        | (c', None) =>
            writeShaped fuel c' (if cut then upLeft - 1 else upLeft) (zdrop n b)
                        (written + (len (c_out c') - len (c_out c)))
        end
    end.

(** ** Reading the header: the relay *)

Record proxyStreamHeader := mkHeader {
  proto : Z; splice : bool; keepAlive : bool; torrent : bool; addr : string; port : Z
}.

Definition is_udp (h : proxyStreamHeader) : bool := proto h =? protoUDP.

(** The loop that skips filler records; [None] when the fuel ran out. *)
Fixpoint header_start (fuel : nat) (c : Conn) : option (Conn * option (list Z)) :=
  match fuel with
  | O => None
  | S fuel =>
      match ReadFull c 3 with
      | (c, inr _) => Some (c, None)
      | (c, inl hdr) =>
          if negb (nth 0 hdr 0 =? 23) || negb (nth 1 hdr 0 =? 3) || negb (nth 2 hdr 0 =? 3) then Some (c, Some hdr)
          else match SkipFillerRecord c with
               | (c, false) => Some (c, None)
               | (c, true) => header_start fuel c
               end
      end
  end.

Definition readProxyStreamHeader (spliceEnabled : bool) (c : Conn) : option (Conn * option proxyStreamHeader) :=
  '(c, start) ← header_start (S (length (c_in c))) c;
  match start with
  | None => Some (c, None)
  | Some hdr =>
      let addrLen := get16 (zslice 1 3 hdr) in
      if (addrLen =? 0) || (255 <? addrLen) then Some (c, None)
      else match ReadFull c (addrLen + 2) with
           | (c, inr _) => Some (c, None)
           | (c, inl rest) =>
               let p := nth 0 hdr 0 in
               Some (c, Some (mkHeader
                 (Z.ldiff p (Z.lor (Z.lor SpliceProtoBit KeepAliveProtoBit) TorrentProtoBit))
                 (negb (Z.land p SpliceProtoBit =? 0) && spliceEnabled)
                 (negb (Z.land p KeepAliveProtoBit =? 0)) (negb (Z.land p TorrentProtoBit =? 0))
                 (string_of_bytes (ztake addrLen rest)) (get16 (zdrop addrLen rest))))
           end
  end.

(** ** UDP streams *)

(** The frame [sendStream] writes. *)
Definition udp_frame (payload : list Z) : list Z :=
  [u8 (Z.shiftr (len payload) 8); u8 (len payload)] ++ payload.

Inductive udp_end := UdpErr (e : error) | UdpBadSize (n : Z).

(** The upward loop of [relayUDP]: the packets it writes to the target, which may
    fail at a write as the script says. *)
Fixpoint udp_up (fuel : nat) (c : Conn) (wfail : list (option error)) (n : Z)
  : option (Conn * list (list Z) * Z * udp_end) :=
  match fuel with
  | O => None
  | S fuel =>
      match ReadFull c 2 with
      | (c, inr e) => Some (c, [], n, UdpErr e)
      | (c, inl hdr) =>
          let sz := get16 hdr in
          if (sz =? 0) || (65535 <? sz) then Some (c, [], n, UdpBadSize sz)
          else match ReadFull c sz with
               | (c, inr e) => Some (c, [], n, UdpErr e)
               | (c, inl data) =>
                   match wfail with
                   | Some e :: _ => Some (c, [data], n, UdpErr e)
                   | _ =>
                       '(c, sent, n, e) ← udp_up fuel c (tail wfail) (n + sz);
                       Some (c, data :: sent, n, e)
                   end
               end
      end
  end.

(** The downward loop: what each [target.Read] gives, packets and then an error;
    the bytes count and the error. *)
Fixpoint udp_down (stream : Conn) (reads : list (list Z)) (last : error) (n : Z) : Conn * Z * error :=
  match reads with
  | [] => (stream, n, last)
  | p :: reads =>
      if 0 <? len p then
        match Conn_Write stream (put16 (u16 (len p)) ++ p) with
        | (stream, Some e) => (stream, n, e)
        | (stream, None) => udp_down stream reads last (n + len p)
        end
      else udp_down stream reads last n
  end.

(** The loop of [pumpUDPStreamReplies]: the packets sent to the client, none while
    its address is not known. *)
Fixpoint pump_loop (fuel : nat) (c : Conn) (known : bool) (hdr : list Z) : option (Conn * list (list Z)) :=
  match fuel with
  | O => None
  | S fuel =>
      match ReadFull c 2 with
      | (c, inr _) => Some (c, [])
      | (c, inl size) =>
          let sz := get16 size in
          if sz =? 0 then Some (c, [])
          else match ReadFull c sz with
               | (c, inr _) => Some (c, [])
               | (c, inl data) =>
                   '(c, sent) ← pump_loop fuel c known hdr;
                   Some (c, if known then (hdr ++ data) :: sent else sent)
               end
      end
  end.
Definition pumpUDPStreamReplies (stream : Conn) (known : bool) (dstHost : string) (dstPort : Z)
  : option (Conn * list (list Z)) :=
  pump_loop (S (length (c_in stream))) stream known (Socks5.replyHeader dstHost dstPort).
