(* ===== verification/ProxyStreamFacts.v ===== *)
(** Theorems on a proxied stream: the relay reads the header the client sent, also
    behind filler records; a stream that is retried on a new connection; UDP
    packets come out of both ends as they went in; shaped writes lose nothing. *)

From S2P Require Import Prelude GoIO GoStr GoBytes NetIP NetIPFacts Framed FramedFacts Datagram DatagramFacts Socks5 Socks5Facts ProxyStream.

(** ** The header *)

(** A filler record in front is skipped. *)
Lemma skip_filler c p k : c_in c = put16 (2 + len p) ++ put16 framedFillerMarker ++ p ++ k -> len p <= framedMaxData ->
  SkipFillerRecord c = (with_in c k, true).
Proof.
  intros Hin Hp. rewrite framedMaxData_val in Hp. pose proof (zlen_nonneg p). unfold SkipFillerRecord.
  rewrite (ReadFull_app c 2 (put16 (2 + len p)) (put16 framedFillerMarker ++ p ++ k)) by (done || zlen_lia).
  rewrite <- (app_nil_r (put16 (2 + len p))), get16_put16 by lia.
  replace ((2 + len p <? 2) || (framedWireTarget <? 2 + len p)) with false
    by (symmetry; apply orb_false_iff; rewrite !Z.ltb_ge; unfold framedWireTarget; lia).
  rewrite (ReadFull_app (with_in c _) (2 + len p) (put16 framedFillerMarker ++ p) k); [|cbn [with_in c_in]; by rewrite <- app_assoc|zlen_lia].
  by change (zslice 0 2 (put16 framedFillerMarker ++ p)) with (put16 framedFillerMarker ++ []).
Qed.

Lemma header_start_skips w fuel c k : carries w [] -> c_in c = w ++ k -> (length w < fuel)%nat ->
  exists fuel', (fuel - length w <= fuel' <= fuel)%nat /\ header_start fuel c = header_start fuel' (with_in c k).
Proof.
  intros Hw. remember [] as b eqn:Hb. revert fuel c Hb. induction Hw as [|d p w b Hd Hdp Hw IH|p w b Hp Hw IH]; intros fuel c Hb Hin Hf.
  - exists fuel. split; [cbn; lia|]. cbn in Hin. f_equal. destruct c. cbn in *. by rewrite Hin.
  - destruct d; [rewrite zlen_nil in Hd; lia|done].
  - destruct fuel as [|fuel]; [lia|]. cbn [header_start]. rewrite length_app in *.
    rewrite (ReadFull_app c 3 [23; 3; 3] (put16 (2 + len p) ++ put16 framedFillerMarker ++ p ++ w ++ k)); [|by rewrite Hin; unfold record_bytes; rewrite zlen_nil, Z.add_0_r; by rewrite <- !app_assoc|done].
    cbn [nth Z.eqb Pos.eqb negb orb]. rewrite (skip_filler _ p (w ++ k)) by done.
    assert (Hl : (3 <= length (record_bytes framedFillerMarker [] p))%nat).
    { pose proof (record_bytes_len framedFillerMarker [] p) as Hr. unfold zlen in Hr. cbn in Hr. lia. }
    destruct (IH fuel (with_in (with_in c (put16 (2 + len p) ++ put16 framedFillerMarker ++ p ++ w ++ k)) (w ++ k)) Hb) as (f' & Hf' & E); [done|lia|].
    exists f'. split; [lia|]. by rewrite E.
Qed.

Definition header_of (se : bool) (p : Z) (a : string) (prt : Z) : proxyStreamHeader :=
  mkHeader (Z.ldiff p 224) (negb (Z.land p SpliceProtoBit =? 0) && se)
    (negb (Z.land p KeepAliveProtoBit =? 0)) (negb (Z.land p TorrentProtoBit =? 0)) a prt.

(** The relay reads a header, whatever filler records came before it. *)
Lemma read_header se w p a prt rest c :
  c_in c = w ++ stream_header p a prt ++ rest -> carries w [] -> p <> 23 ->
  1 <= Z.of_nat (String.length a) <= 255 -> 0 <= prt < 65536 ->
  readProxyStreamHeader se c = Some (with_in c rest, Some (header_of se p a prt)).
Proof.
  intros Hin Hw Hp Ha Hprt. unfold readProxyStreamHeader.
  destruct (header_start_skips w (S (length (c_in c))) c _ Hw Hin) as (f' & Hf' & ->); [rewrite Hin, length_app; lia|].
  rewrite Hin, length_app in Hf'. destruct f' as [|f']; [lia|]. cbn [header_start].
  pose proof (bytes_of_string_len a) as Hl. set (n := Z.of_nat (String.length a)) in *.
  rewrite (ReadFull_app _ 3 (p :: put16 n) (bytes_of_string a ++ put16 prt ++ rest)); [| |done].
  2: { cbn [with_in c_in]. unfold stream_header. rewrite Hl. unfold u16. rewrite Z.mod_small by lia. by rewrite <- !app_assoc. }
  cbn [nth]. apply Z.eqb_neq in Hp. rewrite Hp. cbn [negb orb].
  cbn [mbind option_bind]. change (zslice 1 3 (p :: put16 n)) with (put16 n ++ []). rewrite get16_put16 by lia.
  destruct (Z.eqb_spec n 0); [lia|]. destruct (Z.ltb_spec 255 n); [lia|]. cbn [orb].
  rewrite (ReadFull_app _ (n + 2) (bytes_of_string a ++ put16 prt) rest); [|cbn [with_in c_in]; by rewrite <- app_assoc|zlen_lia].
  rewrite ztake_app_exact, zdrop_app_exact by done. rewrite <- (app_nil_r (put16 prt)), get16_put16 by lia.
  by rewrite string_of_bytes_of_string.
Qed.

(** ** Opening a stream *)

Lemma write_header_out c header c' : write_header c header = (c', None) ->
  c_out (f_conn c') = c_out (f_conn c) ++ header.
Proof.
  unfold write_header, Conn_Write. destruct (c_wscript (f_conn c)) as [|[[n e]|] ws]; intros [= <-]; done.
Qed.

(** The first byte of the header. *)
Definition header_proto (env : openEnv) (want : bool) (pr : Z) (conn : flowConn) : Z :=
  let p := if keepAliveOn env then Z.lor pr KeepAliveProtoBit else pr in
  if splice_of env want conn then Z.lor p SpliceProtoBit else p.

Lemma open_on_header env want pr a prt conn reused dials log o :
  open_on env want pr a prt conn reused dials = (log, inr o) ->
  o_header o = stream_header (header_proto env want pr conn) a prt /\
  (exists c0, (c0 = conn \/ inr c0 ∈ dials) /\ c_out (f_conn (o_conn o)) = c_out (f_conn c0) ++ o_header o) /\
  (l_closed log = [] -> keepAliveOn env = true -> o_splice o = splice_of env want conn).
Proof.
  unfold open_on. fold (header_proto env want pr conn). set (header := stream_header _ _ _).
  destruct (write_header conn header) as [c1 [e|]] eqn:Ew.
  - destruct reused; cbn [negb]; [|done]. destruct dials as [|[de|fresh] ds]; [done|done|].
    destruct (write_header fresh header) as [c2 [e2|]] eqn:Ew2; [done|].
    destruct (keepAliveOn env); cbn [negb]; intros [= <- <-]; cbn [o_header o_conn l_closed]; split_and!; try done;
      exists fresh; (split; [right; by left|by apply write_header_out]).
  - destruct (keepAliveOn env); cbn [negb]; intros [= <- <-]; cbn [o_header o_conn o_splice]; split_and!; try done;
      exists conn; (split; [by left|by apply write_header_out]).
Qed.

(** The protocol byte of a stream: TCP or UDP, with the torrent mark and the wish to
    splice. *)
Definition flow_proto (udp torrent want : bool) : Z :=
  Z.lor (Z.lor (if udp then protoUDP else protoTCP) (if torrent then TorrentProtoBit else 0))
        (if want then SpliceProtoBit else 0).

Lemma open_flow env pooled dials pr a prt log o :
  openStreamPerFlow env pooled (Some dials) pr a prt = (log, inr o) ->
  exists conn, (pooled = Some conn \/ inr conn ∈ dials) /\
  o_header o = stream_header (header_proto env (negb (Z.land pr SpliceProtoBit =? 0)) (Z.ldiff pr SpliceProtoBit) conn) a prt /\
  (exists c0, (pooled = Some c0 \/ inr c0 ∈ dials) /\ c_out (f_conn (o_conn o)) = c_out (f_conn c0) ++ o_header o) /\
  (l_closed log = [] -> keepAliveOn env = true -> o_splice o = splice_of env (negb (Z.land pr SpliceProtoBit =? 0)) conn).
Proof.
  unfold openStreamPerFlow. destruct (if keepAliveOn env then pooled else None) as [c|] eqn:Ep.
  - assert (Hc : pooled = Some c) by (by destruct (keepAliveOn env)).
    intros (H1 & (c0 & H2 & H3) & H4)%open_on_header. exists c. split_and!; [by left|done| |done].
    exists c0. split; [destruct H2 as [->|?]; [by left|by right]|done].
  - destruct dials as [|[e|c] ds]; [done|done|].
    intros (H1 & (c0 & H2 & H3) & H4)%open_on_header. exists c. split_and!; [right; by left|done| |done].
    exists c0. split; [right; destruct H2 as [->|?]; [by left|by right]|done].
Qed.

(** The header's byte says what the stream is. *)
Lemma header_proto_flags env udp t want conn se a prt :
  let p := header_proto env (negb (Z.land (flow_proto udp t want) SpliceProtoBit =? 0))
                        (Z.ldiff (flow_proto udp t want) SpliceProtoBit) conn in
  p <> 23 /\ header_of se p a prt =
  mkHeader (if udp then protoUDP else protoTCP) (splice_of env want conn && se) (keepAliveOn env) t a prt.
Proof.
  cbn zeta. unfold header_proto, splice_of, header_of.
  by destruct udp, t, want, (keepAliveOn env), (spliceOn env), (f_raw conn), (fullFrame env), se.
Qed.

(** C12: a stream opened for a host of 1 to 255 bytes puts one header behind what the
    connection had sent, and a relay that reads it, behind any number of filler
    records of an idle connection, gets the same host and port, the transport,
    the torrent mark and whether the stream is framed, and leaves everything
    behind the header unread; unless the stream was moved to a second
    connection, both ends also agree on where the answer is framed. *)
Theorem stream_open_read env pooled dials udp t want a prt log o :
  openStreamPerFlow env pooled (Some dials) (flow_proto udp t want) a prt = (log, inr o) ->
  1 <= Z.of_nat (String.length a) <= 255 -> 0 <= prt < 65536 ->
  (exists c0, (pooled = Some c0 \/ inr c0 ∈ dials) /\ c_out (f_conn (o_conn o)) = c_out (f_conn c0) ++ o_header o) /\
  forall se fillers rest c, carries fillers [] -> c_in c = fillers ++ o_header o ++ rest ->
  exists h, readProxyStreamHeader se c = Some (with_in c rest, Some h) /\
    is_udp h = udp /\ torrent h = t /\ keepAlive h = keepAliveOn env /\ addr h = a /\ port h = prt /\
    (l_closed log = [] -> keepAliveOn env = true -> splice h = o_splice o && se).
Proof.
  intros Ho Ha Hp. apply open_flow in Ho as (conn & _ & Hh & Hc & Hs). split; [exact Hc|].
  intros se w rest c Hw Hin. rewrite Hh in Hin. destruct (header_proto_flags env udp t want conn se a prt) as [H23 Hf].
  rewrite (read_header se w _ a prt rest c Hin Hw H23 Ha Hp), Hf.
  eexists. split; [done|]. split_and!; try done; [by destruct udp|].
  intros H1 H2. rewrite (Hs H1 H2). by destruct udp, t, want, se, (spliceOn env), (f_raw conn), (fullFrame env).
Qed.

(** When a pooled connection turns out dead and the stream moves to a new one,
    the header made for the first is sent on the second: the relay is told to
    splice although the client reads the framed connection. *)
Theorem retry_keeps_old_header env p dead e a prt fresh :
  keepAliveOn env = true -> spliceOn env = true -> fullFrame env = false ->
  c_wscript p = Some (0, e) :: [] -> c_wscript fresh = [] -> dead = mkFlow p true ->
  1 <= Z.of_nat (String.length a) <= 255 -> 0 <= prt < 65536 ->
  exists log o, openStreamPerFlow env (Some dead) (Some [inr (mkFlow fresh false)]) (flow_proto false false true) a prt = (log, inr o) /\
    o_splice o = false /\
    forall c rest, c_in c = o_header o ++ rest ->
    exists h, readProxyStreamHeader true c = Some (with_in c rest, Some h) /\ splice h = true /\ keepAlive h = true.
Proof.
  intros Hk Hs Hff Hw1 Hw2 -> Ha Hp. unfold openStreamPerFlow. rewrite Hk. unfold open_on, write_header, Conn_Write, splice_of.
  rewrite Hk, Hs, Hff. cbn [f_raw f_conn]. rewrite Hw1, Hw2. cbn [negb andb]. eexists _, _. split; [reflexivity|].
  split; [reflexivity|]. intros c rest Hin. cbn [o_header] in Hin.
  erewrite (read_header true []); [|exact Hin|constructor|done|done|done]. eexists. split; [done|]. by split.
Qed.

(** ** UDP packets *)

Definition frames (ps : list (list Z)) : list Z := mjoin (udp_frame <$> ps).
Definition non_empty (p : list Z) : bool := 0 <? len p.
Definition packet_ok (p : list Z) : Prop := len p <= 65535.
Definition total_len (ps : list (list Z)) : Z := foldr (fun p n => len p + n) 0 ps.

(** The packets in front of the first empty one. *)
Fixpoint before_empty (ps : list (list Z)) : list (list Z) :=
  match ps with
  | p :: ps' => if non_empty p then p :: before_empty ps' else []
  | [] => []
  end.

Lemma udp_frame_put p : packet_ok p -> udp_frame p = put16 (len p) ++ p.
Proof. done. Qed.

(** Reading one frame: the size, then the packet. *)
Lemma read_frame c p k : packet_ok p -> c_in c = udp_frame p ++ k ->
  exists c1, ReadFull c 2 = (c1, inl (put16 (len p))) /\ get16 (put16 (len p)) = len p /\
  ReadFull c1 (len p) = (with_in c k, inl p).
Proof.
  intros Hp Hin. pose proof (zlen_nonneg p). unfold packet_ok in Hp.
  exists (with_in c (p ++ k)). split_and!.
  - apply ReadFull_app; [by rewrite Hin, udp_frame_put, <- app_assoc|done].
  - rewrite <- (app_nil_r (put16 _)). apply get16_put16. lia.
  - by rewrite (ReadFull_app _ (len p) p k).
Qed.

Lemma non_empty_spec p : non_empty p = true -> (len p =? 0) = false.
Proof. unfold non_empty. intros ?%Z.ltb_lt. apply Z.eqb_neq. lia. Qed.

Lemma frames_cons p ps : frames (p :: ps) = udp_frame p ++ frames ps.
Proof. done. Qed.

Lemma udp_up_loop ps : forall fuel c n, Forall packet_ok ps -> c_in c = frames ps -> c_inerr c = EOF -> (length ps < fuel)%nat ->
  exists c', udp_up fuel c [] n =
    Some (c', before_empty ps, n + total_len (before_empty ps),
          if forallb non_empty ps then UdpErr EOF else UdpBadSize 0).
Proof.
  induction ps as [|p ps IH]; intros fuel c n Hok Hin He Hf; (destruct fuel as [|fuel]; [cbn in Hf; lia|]); cbn [udp_up].
  - unfold ReadFull. rewrite Hin, He. cbn. rewrite Z.add_0_r. eauto.
  - apply Forall_cons in Hok as [Hp Hok]. rewrite frames_cons in Hin.
    destruct (read_frame c p (frames ps) Hp Hin) as (c1 & -> & -> & Hr2). cbn [before_empty forallb].
    destruct (non_empty p) eqn:Ep.
    + rewrite (non_empty_spec _ Ep). unfold packet_ok in Hp. rewrite (proj2 (Z.ltb_ge 65535 (len p))) by lia. cbn [orb andb].
      rewrite Hr2. cbn [tail].
      destruct (IH fuel (with_in c (frames ps)) (n + len p) Hok) as (c' & ->); [done|done|cbn in Hf; lia|].
      cbn. rewrite Z.add_assoc. eauto.
    + unfold non_empty in Ep. apply Z.ltb_ge in Ep. pose proof (zlen_nonneg p). assert (len p = 0) as -> by lia.
      cbn. rewrite Z.add_0_r. eauto.
Qed.

Lemma frames_length ps : (2 * length ps <= length (frames ps))%nat.
Proof. induction ps as [|p ps IH]; [cbn; lia|]. rewrite frames_cons, length_app. unfold udp_frame. rewrite length_app. cbn [length]. lia. Qed.

(** The relay writes to the target exactly the packets the client framed, in
    order, up to the first empty one; an empty packet, which UDP allows, ends the
    stream as a bad frame and what follows is lost. *)
Theorem udp_up_delivers ps c : Forall packet_ok ps -> c_in c = frames ps -> c_inerr c = EOF ->
  exists c', udp_up (S (length (c_in c))) c [] 0 =
    Some (c', before_empty ps, total_len (before_empty ps),
          if forallb non_empty ps then UdpErr EOF else UdpBadSize 0).
Proof.
  intros Hok Hin He. pose proof (frames_length ps).
  destruct (udp_up_loop ps (S (length (c_in c))) c 0 Hok Hin He) as (c' & E); [rewrite Hin; lia|]. eauto.
Qed.

Lemma udp_down_frames ps : forall stream last n, writable stream -> Forall packet_ok ps ->
  exists stream', udp_down stream ps last n = (stream', n + total_len ps, last) /\
    c_out stream' = c_out stream ++ frames (filter (fun p => non_empty p = true) ps).
Proof.
  induction ps as [|p ps IH]; intros stream last n Hw Hok; cbn [udp_down].
  { exists stream. cbn. by rewrite Z.add_0_r, app_nil_r. }
  apply Forall_cons in Hok as [Hp Hok]. rewrite filter_cons. fold (non_empty p). destruct (non_empty p) eqn:Ep.
  - rewrite decide_True by done. rewrite Conn_Write_ok by done.
    destruct (IH (with_out stream (c_out stream ++ put16 (u16 (len p)) ++ p)) last (n + len p)) as (s' & -> & Hs'); [auto with go|done|].
    exists s'. cbn [total_len foldr]. fold (total_len ps). split; [do 2 f_equal; lia|].
    rewrite Hs'. cbn [with_out c_out]. rewrite frames_cons, <- !app_assoc. unfold packet_ok in Hp. pose proof (zlen_nonneg p).
    unfold u16. rewrite Z.mod_small by lia. by rewrite udp_frame_put, <- app_assoc.
  - rewrite decide_False by done. destruct (IH stream last n Hw Hok) as (s' & -> & Hs'). exists s'.
    unfold non_empty in Ep. apply Z.ltb_ge in Ep. pose proof (zlen_nonneg p). cbn [total_len foldr]. fold (total_len ps).
    split; [do 2 f_equal; lia|done].
Qed.

Lemma pump_frames ps hdr : forall fuel c, Forall packet_ok ps -> Forall (fun p => non_empty p = true) ps ->
  c_in c = frames ps -> (length ps < fuel)%nat ->
  exists c', pump_loop fuel c true hdr = Some (c', (fun p => hdr ++ p) <$> ps).
Proof.
  induction ps as [|p ps IH]; intros fuel c Hok Hne Hin Hf; (destruct fuel as [|fuel]; [cbn in Hf; lia|]); cbn [pump_loop].
  - unfold ReadFull. rewrite Hin. cbn. eauto.
  - apply Forall_cons in Hok as [Hp Hok]. apply Forall_cons in Hne as [Ep Hne]. rewrite frames_cons in Hin.
    destruct (read_frame c p (frames ps) Hp Hin) as (c1 & -> & -> & Hr2). rewrite (non_empty_spec _ Ep), Hr2.
    destruct (IH fuel (with_in c (frames ps)) Hok Hne) as (c' & ->); [done|cbn in Hf; lia|]. cbn. eauto.
Qed.

(** What the target answers comes out at the SOCKS client: the relay frames
    every non-empty packet, the client's end takes the frames apart, and each
    packet it sends is read as the target's host (an address in its canonical
    text), its port and the answer, in order. *)
Theorem udp_answers_delivered ps stream last host prt client :
  writable stream -> c_out stream = [] -> Forall packet_ok ps ->
  0 <= prt < 65536 -> Z.of_nat (String.length host) < 256 ->
  c_in client = c_out (udp_down stream ps last 0).1.1 ->
  exists client' out, pumpUDPStreamReplies client true host prt = Some (client', out) /\
    Socks5.parseUDPHeader <$> out =
    (fun p => Some (canonical_name host, prt, p)) <$> filter (fun p => non_empty p = true) ps.
Proof.
  intros Hw H0 Hok Hp Hh Hin. destruct (udp_down_frames ps stream last 0 Hw Hok) as (s' & E & Hs').
  rewrite E in Hin. cbn in Hin. rewrite Hs', H0 in Hin. cbn [app] in Hin. set (qs := filter _ ps) in *.
  assert (Hqn : Forall packet_ok qs /\ Forall (fun p => non_empty p = true) qs).
  { rewrite !Forall_forall. rewrite Forall_forall in Hok. split; intros p [Hp1 Hp2]%list_elem_of_filter; auto. }
  destruct Hqn as [Hq Hn].
  unfold pumpUDPStreamReplies. pose proof (frames_length qs).
  destruct (pump_frames qs (Socks5.replyHeader host prt) (S (length (c_in client))) client Hq Hn Hin) as (c' & ->); [rewrite Hin; lia|].
  exists c', ((fun p => Socks5.replyHeader host prt ++ p) <$> qs). split; [done|]. rewrite <- list_fmap_compose.
  apply list_fmap_ext. intros i p _. by apply udp_header_roundtrip.
Qed.

(** ** Shaped writes *)

(** All of the buffer goes out, in one piece once the budget of three cuts is
    used. *)
Theorem writeShaped_complete b : forall fuel c upLeft written, writable c -> (length b <= fuel)%nat ->
  exists c' left, writeShaped fuel c upLeft b written = Some (c', left, written + len b, None) /\
    c_out c' = c_out c ++ b /\ left <= upLeft.
Proof.
  intros fuel. revert b. induction fuel as [|fuel IH]; intros b c upLeft written Hw Hf; cbn [writeShaped].
  - destruct b; [|cbn in Hf; lia]. cbn. rewrite Z.add_0_r, app_nil_r. eexists _, _. split_and!; [done|done|lia].
  - destruct (Z.ltb_spec 0 (len b)) as [Hpos|Hpos]; cbn [negb].
    2: { destruct b; [|rewrite zlen_cons in Hpos; pose proof (zlen_nonneg b); lia].
         rewrite zlen_nil, Z.add_0_r, app_nil_r. eexists _, _. split_and!; [done|done|lia]. }
    set (cut := (0 <? upLeft) && (upstreamMaxPayload <? len b)). set (n := if cut then upstreamMaxPayload else len b).
    assert (Hn : 0 < n <= len b).
    { unfold n, cut. destruct (Z.ltb_spec upstreamMaxPayload (len b)); destruct (0 <? upLeft); unfold upstreamMaxPayload in *; cbn [andb]; lia. }
    rewrite Conn_Write_ok by done.
    destruct (IH (zdrop n b) (with_out c (c_out c ++ ztake n b)) (if cut then upLeft - 1 else upLeft)
                 (written + (len (c_out (with_out c (c_out c ++ ztake n b))) - len (c_out c)))) as (c' & left & E & Ho & Hl).
    { auto with go. } { unfold zdrop, zlen in *. rewrite length_drop. lia. }
    exists c', left. rewrite E, Ho. cbn [with_out c_out]. rewrite zlen_app, zlen_ztake by lia. split_and!.
    + unfold zdrop, zlen in *. rewrite length_drop. do 3 f_equal. lia.
    + by rewrite <- app_assoc, ztake_zdrop.
    + destruct cut; lia.
Qed.

(** ** Witnesses *)

Module StreamWitnesses.
Definition wire (b : list Z) : Conn := mkConn b EOF [] [] false.
Definition on : openEnv := mkEnv true true false false.
Definition dead : Conn := mkConn [] EOF [] [Some (0, ErrClosedPipe)] false.

Lemma stream_open_read_witness :
  exists o h, openStreamPerFlow on None (Some [inr (mkFlow (wire []) true)]) (flow_proto false true true) "example.org" 443 = (no_log, inr o) /\
    readProxyStreamHeader true (wire (record_bytes framedFillerMarker [] [9] ++ o_header o ++ [22])) = Some (wire [22], Some h) /\
    addr h = "example.org"%string /\ port h = 443 /\ torrent h = true /\ splice h = true.
Proof.
  eexists _. destruct (stream_open_read on None [inr (mkFlow (wire []) true)] false true true "example.org" 443 no_log _ eq_refl)
    as [_ Hr]; [cbn; lia|lia|].
  destruct (Hr true (record_bytes framedFillerMarker [] [9]) [22] (wire (record_bytes framedFillerMarker [] [9] ++ stream_header 230 "example.org" 443 ++ [22])))
    as (h & H1 & _ & H3 & _ & H5 & H6 & H7).
  - rewrite <- (app_nil_r (record_bytes _ _ _)). apply carries_filler; [vm_compute; discriminate|constructor].
  - reflexivity.
  - exists h. split; [reflexivity|]. split; [exact H1|]. split_and!; [done|done|done|by apply H7].
Defined.

Lemma retry_keeps_old_header_witness :
  exists log o, openStreamPerFlow on (Some (mkFlow dead true)) (Some [inr (mkFlow (wire []) false)]) (flow_proto false false true) "x" 443 = (log, inr o) /\
    o_splice o = false.
Proof.
  destruct (retry_keeps_old_header on dead (mkFlow dead true) ErrClosedPipe "x" 443 (wire []) eq_refl eq_refl eq_refl eq_refl eq_refl eq_refl)
    as (log & o & H1 & H2 & _); [cbn; lia|lia|]. exists log, o. by split.
Defined.

Lemma udp_up_delivers_witness :
  exists c', udp_up (S (length (frames [[1; 2]; []; [3]]))) (wire (frames [[1; 2]; []; [3]])) [] 0 = Some (c', [[1; 2]], 2, UdpBadSize 0).
Proof.
  destruct (udp_up_delivers [[1; 2]; []; [3]] (wire (frames [[1; 2]; []; [3]]))) as (c' & E); [|done|done|by exists c'].
  repeat constructor; vm_compute; discriminate.
Defined.

Lemma udp_answers_delivered_witness :
  exists c' out, pumpUDPStreamReplies (wire [0; 1; 7]) true "192.0.2.1" 53 = Some (c', out) /\
    Socks5.parseUDPHeader <$> out = [Some ("192.0.2.1"%string, 53, [7])].
Proof.
  destruct (udp_answers_delivered [[7]; []] (wire []) EOF "192.0.2.1" 53 (wire [0; 1; 7])) as (c' & out & H1 & H2);
    [constructor|done| |lia|cbn; lia|done|].
  - repeat constructor; vm_compute; discriminate.
  - exists c', out. split; [exact H1|]. rewrite H2. vm_compute. reflexivity.
Defined.
End StreamWitnesses.
