(* ===== verification/Relay.v ===== *)
(** The relay server's handling of a stream, core/relay/relay.go: where a stream
    goes (router, target addresses, dialers), how it is copied, and whether its
    connection can carry another one.

    A dialer is a number, [direct] is 0; what a dial gives is an argument, and the
    dials a call makes are part of its result.  The router is an interface, the
    class [AddrRouter], which the engine of core/router implements; the DNS
    lookup of the system is an argument. *)

From S2P Require Import Prelude GoIO GoStr NetIP Cache Router ProxyStream.
Import Cache.

(** ** The router, as the relay uses it *)

Inductive DestinationType := DestinationDirect | DestinationBlock | DestinationOther.

Class AddrRouter (R : Type) := {
  (** [Route] on a packet to the address, if one is known: its type and tag. *)
  rt_Route : R -> option (IP * Z) -> R * (error + DestinationType * string);
  rt_RoutesOnAddress : R -> bool
}.

Definition dest_type (s : string) : DestinationType :=
  if String.eqb s "direct" then DestinationDirect
  else if String.eqb s "block" then DestinationBlock
  else DestinationOther.

(** The engine of core/router at a time. *)
Section EngineRouter.
Context {L : LruOps} `{UnicodeCase} (now : Z).

Definition packet_to (a : option (IP * Z)) : Router.Packet :=
  Router.mkPacket 0 None (match a with Some (ip, port) => Some (Router.TCPAddr ip port "") | None => None end).

#[export] Instance engine_router : AddrRouter Router.Engine := {|
  rt_Route e a :=
    let '(d, e') := Router.Route now e (packet_to a) in
    (e', match Router.load e' d with
         | Some dest => inr (dest_type (Router.d_Type dest), Router.d_Tag dest)
         | None => inl (OtherErr 0)
         end);
  rt_RoutesOnAddress e := Router.RoutesOnAddress e
|}.
End EngineRouter.

Module Relay.

Definition routeCacheTTL : Z := 60000000000.
Definition routeCacheSize : Z := 4096.
Definition direct : nat := 0.

(** [preferIPv6]: the two loops. *)
Definition preferIPv6 (ips : list IP) : list IP :=
  filter (fun ip => To4 ip = None) ips ++ filter (fun ip => To4 ip <> None) ips.

Definition firstTCPAddr (ips : list IP) (port : Z) : option (IP * Z) :=
  match ips with [] => None | ip :: _ => Some (ip, port) end.

Section Server.
Context {L : LruOps} {R : Type} `{AddrRouter R}.
(** The system resolver, and what a dial of a dialer gives: a connection. *)
Context (LookupIPAddr : string -> error + list IP).
Context (dial : nat -> string -> string -> error + nat).

Record Server := mkServer {
  proxyDialer : nat;
  router : option R;
  outboundDial : option (string -> string -> string -> error + nat)
}.

Definition lookupIPCached (now1 now2 : Z) (host : string) (m : LRUCache (list IP))
  : LRUCache (list IP) * (error + list IP) :=
  let '(ips, m) := Get [] now1 host m in
  if negb (len ips =? 0) then (m, inr ips)
  else match LookupIPAddr host with
       | inl e => (m, inl e)
       | inr ips => (Set_ now2 host ips routeCacheTTL m, inr ips)
       end.

Definition targetIPs (now1 now2 : Z) (host : string) (m : LRUCache (list IP)) : LRUCache (list IP) * list IP :=
  match ParseIP host with
  | Some ip => (m, [ip])
  | None =>
      match lookupIPCached now1 now2 host m with
      | (m, inr ips) => (m, ips)
      | (m, inl _) => (m, [])
      end
  end.

Definition routeIPs (now1 now2 : Z) (s : Server) (host : string) (m : LRUCache (list IP))
  : LRUCache (list IP) * list IP :=
  match router s with
  | None => (m, [])
  | Some rtr => if negb (rt_RoutesOnAddress rtr) then (m, []) else targetIPs now1 now2 host m
  end.

Definition with_router (s : Server) (r : R) : Server := mkServer (proxyDialer s) (Some r) (outboundDial s).

(** The dialer, the tag, and whether the stream is blocked ([None]). *)
Definition resolveProxyDialer (s : Server) (udp : bool) (port : Z) (ips : list IP)
  : Server * option (nat * string) :=
  if udp then (s, Some (direct, ""%string))
  else match router s with
       | None => (s, Some (proxyDialer s, ""%string))
       | Some rtr =>
           let '(rtr, dest) := rt_Route rtr (firstTCPAddr ips port) in
           let s := with_router s rtr in
           match dest with
           | inl _ => (s, Some (proxyDialer s, ""%string))
           | inr (DestinationDirect, _) => (s, Some (direct, ""%string))
           | inr (DestinationBlock, _) => (s, None)
           | inr (DestinationOther, tag) => (s, Some (proxyDialer s, tag))
           end
       end.

(** What is dialled: a dialer or an outbound with its tag, and the address. *)
Inductive attempt := Dial (d : nat) (addr : string) | Outbound (tag addr : string).

(** The loop of [dialTarget] over the addresses. *)
Fixpoint dial_loop (network : string) (port : Z) (ips : list IP) (lastErr : error)
  : list attempt * (error + nat) :=
  match ips with
  | [] => ([], inl lastErr)
  | ip :: ips =>
      let a := JoinHostPort (IP_String ip) (Itoa port) in
      match dial direct network a with
      | inr conn => ([Dial direct a], inr conn)
      | inl e => let '(l, res) := dial_loop network port ips e in (Dial direct a :: l, res)
      end
  end.

Definition dialTarget (d : nat) (network host : string) (port : Z) (ips : list IP)
  : list attempt * (error + nat) :=
  let addr := JoinHostPort host (Itoa port) in
  if negb (d =? direct)%nat || bool_decide (is_Some (ParseIP host)) || (len ips =? 0) then
    ([Dial d addr], dial d network addr)
  else dial_loop network port (preferIPv6 ips) EOF.

Definition dialProxyTarget (s : Server) (outboundTag network targetAddr host : string) (port : Z)
    (d : nat) (ips : list IP) : list attempt * (error + nat) :=
  if String.eqb outboundTag "" then dialTarget d network host port ips
  else match outboundDial s with
       | None => dialTarget d network host port ips
       | Some dialFn => ([Outbound outboundTag targetAddr], dialFn outboundTag network targetAddr)
       end.

Definition target (h : proxyStreamHeader) : string := JoinHostPort (addr h) (Itoa (port h)).
Definition network (h : proxyStreamHeader) : string := if is_udp h then "udp"%string else "tcp"%string.

(** How a stream is copied: framed or not, and after how many bytes the answer
    leaves the framing. *)
Inductive copy_mode := UdpFramed | UdpPlain | TcpFramed | TcpSpliced (left : Z) | TcpPlain.

Definition spliceAfterBytes : Z := Z.shiftl 4 20.
Definition MaxInt64 : Z := 9223372036854775807.
(** [spliceWrap]: [raw] whether there is a socket below, [busy] [cpuBusy]. *)
Definition spliceWrap (h : proxyStreamHeader) (raw busy : bool) : copy_mode :=
  if negb (splice h) then TcpFramed
  else if negb raw then TcpFramed
  else TcpSpliced (if busy then spliceAfterBytes else MaxInt64).

Definition stream_mode (h : proxyStreamHeader) (raw busy : bool) : copy_mode :=
  if is_udp h then if keepAlive h then UdpFramed else UdpPlain
  else if keepAlive h then spliceWrap h raw busy else TcpPlain.

(** *** The end of a stream *)

Inductive copy_dir := Up | Down.
Record copyResult := mkCopy { cr_n : Z; cr_err : option error; cr_dir : copy_dir }.

Definition collect_one (s : Z * Z * option (error * copy_dir)) (r : copyResult) : Z * Z * option (error * copy_dir) :=
  let '(up, down, first) := s in
  let '(up, down) := match cr_dir r with Up => (cr_n r, down) | Down => (up, cr_n r) end in
  (up, down, match first, cr_err r with
             | None, Some e => if bool_decide (e = EOF) then None else Some (e, cr_dir r)
             | _, _ => first
             end).
Definition collectCopyResults (r1 r2 : copyResult) : Z * Z * option (error * copy_dir) :=
  collect_one (collect_one (0, 0, None) r1) r2.

(** Whether the connection can carry another stream: the reader saw the end of the
    stream, the answer did not leave the framing and its end was written. *)
Definition reusable (mode : copy_mode) (streamDone switchedRaw : bool) (endErr : option error) : bool :=
  match mode with
  | UdpPlain | TcpPlain => false
  | _ => streamDone && negb switchedRaw && bool_decide (endErr = None)
  end.

(** *** A stream *)

Inductive stream_end :=
| NoHeader
| Blocked
| DialFailed (e : error)
| Relayed (h : proxyStreamHeader) (conn : nat) (mode : copy_mode).

Record stream_run := mkRun {
  run_server : Server; run_cache : LRUCache (list IP); run_in : Conn;
  run_torrent : bool; run_dials : list attempt; run_end : stream_end
}.

(** [handleProxyStream] up to the copying: [raw] and [busy] as in [spliceWrap]. *)
Definition handleProxyStream (now1 now2 : Z) (spliceEnabled raw busy : bool) (s : Server)
    (m : LRUCache (list IP)) (stream : Conn) : option stream_run :=
  '(stream, hdr) ← readProxyStreamHeader spliceEnabled stream;
  match hdr with
  | None => Some (mkRun s m stream false [] NoHeader)
  | Some h =>
      let '(m, ips) := routeIPs now1 now2 s (addr h) m in
      match resolveProxyDialer s (is_udp h) (port h) ips with
      | (s, None) => Some (mkRun s m stream (torrent h) [] Blocked)
      | (s, Some (d, tag)) =>
          let '(dials, res) := dialProxyTarget s tag (network h) (target h) (addr h) (port h) d ips in
          match res with
          | inl e => Some (mkRun s m stream (torrent h) dials (DialFailed e))
          | inr conn => Some (mkRun s m stream (torrent h) dials (Relayed h conn (stream_mode h raw busy)))
          end
      end
  end.
End Server.

(** [isNormalConnClose] on the text of an error. *)
Definition isNormalConnClose (msg : string) : bool :=
  Contains msg "broken pipe" || Contains msg "connection reset"
  || Contains msg "use of closed network connection" || Contains msg "read/write on closed pipe"
  || Contains msg "closed pipe" || Contains msg "forcibly closed".

End Relay.
