(* ===== verification/RelayFacts.v ===== *)
(** Theorems on the relay: every stream is decided, dials are tried in order until
    one succeeds, what the router blocks is not dialled; and what the router is
    not asked about. *)

From S2P Require Import Prelude GoIO GoStr NetIP NetIPFacts Cache Router Framed FramedFacts Socks5Facts ProxyStream ProxyStreamFacts Relay.
Import Cache Relay.

(** ** Reading the header ends *)

Lemma ReadFull_in c n c' r : ReadFull c n = (c', r) -> (length (c_in c') <= length (c_in c))%nat.
Proof.
  unfold ReadFull. destruct (n <=? zlen (c_in c)); intros [= <- _]; cbn; [|lia].
  unfold zdrop. rewrite length_drop. lia.
Qed.

Lemma ReadFull_takes c n c' b : 0 < n -> ReadFull c n = (c', inl b) -> (length (c_in c') < length (c_in c))%nat.
Proof.
  intros Hn E. destruct (ReadFull_shrinks c n c' b) as (Hc & Hl & _); [lia|done|].
  rewrite Hc, length_app. unfold zlen in Hl. lia.
Qed.

Lemma SkipFiller_in c : (length (c_in (SkipFillerRecord c).1) <= length (c_in c))%nat.
Proof.
  unfold SkipFillerRecord. destruct (ReadFull c 2) as [c1 [size|e]] eqn:E1; apply ReadFull_in in E1; [|done].
  destruct (_ || _); [done|]. destruct (ReadFull c1 (get16 size)) as [c2 [rec|e]] eqn:E2; apply ReadFull_in in E2; cbn; lia.
Qed.

Lemma header_start_total fuel c : (length (c_in c) < fuel)%nat -> is_Some (header_start fuel c).
Proof.
  revert c. induction fuel as [|fuel IH]; intros c Hf; [lia|]. cbn [header_start].
  destruct (ReadFull c 3) as [c1 [hdr|e]] eqn:E1; [|eauto]. destruct (_ || _ || _); [eauto|].
  pose proof (SkipFiller_in c1) as Hs. destruct (SkipFillerRecord c1) as [c2 []] eqn:E2; [|eauto]. cbn in Hs.
  apply IH. apply ReadFull_takes in E1; lia.
Qed.

Lemma read_header_total se c : is_Some (readProxyStreamHeader se c).
Proof.
  unfold readProxyStreamHeader. destruct (header_start_total (S (length (c_in c))) c) as [[c1 start] ->]; [lia|]. cbn.
  destruct start as [hdr|]; [|eauto]. destruct (_ || _); [eauto|]. destruct (ReadFull c1 _) as [c2 [rest|e]]; eauto.
Qed.

(** ** Addresses *)

Lemma preferIPv6_Permutation ips : preferIPv6 ips ≡ₚ ips.
Proof.
  unfold preferIPv6. induction ips as [|ip ips IH]; [done|]. rewrite !filter_cons.
  destruct (decide (To4 ip = None)); destruct (decide (To4 ip <> None)); try done.
  - cbn. by rewrite IH.
  - rewrite <- Permutation_middle. by rewrite IH.
Qed.

Section Relay.
Context {L : LruOps} {R : Type} `{AddrRouter R}.
Context (Lookup : string -> error + list IP) (dial : nat -> string -> string -> error + nat).

(** What an attempt gave. *)
Definition outcome_of (s : Server (R:=R)) (network : string) (a : attempt) : error + nat :=
  match a with
  | Dial d addr => dial d network addr
  | Outbound tag addr =>
      match outboundDial s with Some f => f tag network addr | None => inl EOF end
  end.

(** Attempts made one after the other until one succeeds. *)
Definition tried (s : Server (R:=R)) (network : string) (l : list attempt) (res : error + nat) : Prop :=
  exists l' a, l = l' ++ [a] /\ outcome_of s network a = res /\ Forall (fun x => exists e, outcome_of s network x = inl e) l'.

Lemma dial_loop_tried s network port ips e : ips <> [] ->
  let '(l, res) := dial_loop dial network port ips e in
  tried s network l res /\
  exists k, l = (fun ip => Dial direct (JoinHostPort (IP_String ip) (Itoa port))) <$> take k ips.
Proof.
  revert e. induction ips as [|ip ips IH]; intros e Hne; [done|]. cbn [dial_loop].
  destruct (dial direct network (JoinHostPort (IP_String ip) (Itoa port))) as [er|conn] eqn:Ed.
  - destruct ips as [|ip' ips].
    + cbn [dial_loop]. split; [by exists [], (Dial direct (JoinHostPort (IP_String ip) (Itoa port)))|by exists 1%nat].
    + specialize (IH er ltac:(done)). destruct (dial_loop dial network port (ip' :: ips) er) as [l res] eqn:El.
      destruct IH as [(l' & a & -> & Ha & Hl') [k Hk]]. split.
      * exists (Dial direct (JoinHostPort (IP_String ip) (Itoa port)) :: l'), a. split_and!; [done|done|].
        constructor; [by exists er|done].
      * exists (S k). cbn [take fmap list_fmap]. by rewrite Hk.
  - split; [by exists [], (Dial direct (JoinHostPort (IP_String ip) (Itoa port)))|by exists 1%nat].
Qed.

(** *** What a stream asks for *)

(** The addresses that the relay knows of a host: none unless the router looks at
    addresses, the host itself if it is an address, else the remembered ones or those
    that the resolver gives now. *)
Definition known_ips (now1 : Z) (s : Server (R:=R)) (host : string) (m : LRUCache (list IP)) (ips : list IP) : Prop :=
  match router s with
  | Some rtr =>
      if rt_RoutesOnAddress rtr then
        match ParseIP host with
        | Some ip => ips = [ip]
        | None => (ips <> [] /\ (Get [] now1 host m).1 = ips) \/ ((Get [] now1 host m).1 = [] /\ match Lookup host with inr l => ips = l | inl _ => ips = [] end)
        end
      else ips = []
  | None => ips = []
  end.

(** The addresses to dial directly, IPv6 first, and through a dialer. *)
Definition direct_to (h : proxyStreamHeader) (ips : list IP) : list attempt :=
  if bool_decide (is_Some (ParseIP (addr h))) || bool_decide (ips = []) then [Dial direct (JoinHostPort (addr h) (Itoa (port h)))]
  else (fun ip => Dial direct (JoinHostPort (IP_String ip) (Itoa (port h)))) <$> filter (fun ip => To4 ip = None) ips ++ filter (fun ip => To4 ip <> None) ips.
Definition through (d : nat) (h : proxyStreamHeader) (ips : list IP) : list attempt :=
  if decide (d = direct) then direct_to h ips else [Dial d (JoinHostPort (addr h) (Itoa (port h)))].

(** What is to be dialled for a stream, in order; [None] if it is blocked. *)
Inductive plan (s : Server (R:=R)) (h : proxyStreamHeader) (ips : list IP) : option (list attempt) -> Prop :=
  | plan_udp : is_udp h = true -> plan s h ips (Some (direct_to h ips))
  | plan_unrouted : is_udp h = false -> router s = None -> plan s h ips (Some (through (proxyDialer s) h ips))
  | plan_error rtr rtr' e : is_udp h = false -> router s = Some rtr -> rt_Route rtr (firstTCPAddr ips (port h)) = (rtr', inl e) ->
      plan s h ips (Some (through (proxyDialer s) h ips))
  | plan_direct rtr rtr' tag : is_udp h = false -> router s = Some rtr -> rt_Route rtr (firstTCPAddr ips (port h)) = (rtr', inr (DestinationDirect, tag)) ->
      plan s h ips (Some (direct_to h ips))
  | plan_block rtr rtr' tag : is_udp h = false -> router s = Some rtr -> rt_Route rtr (firstTCPAddr ips (port h)) = (rtr', inr (DestinationBlock, tag)) ->
      plan s h ips None
  | plan_proxy rtr rtr' tag : is_udp h = false -> router s = Some rtr -> rt_Route rtr (firstTCPAddr ips (port h)) = (rtr', inr (DestinationOther, tag)) ->
      tag = ""%string \/ outboundDial s = None -> plan s h ips (Some (through (proxyDialer s) h ips))
  | plan_outbound rtr rtr' tag : is_udp h = false -> router s = Some rtr -> rt_Route rtr (firstTCPAddr ips (port h)) = (rtr', inr (DestinationOther, tag)) ->
      tag <> ""%string -> outboundDial s <> None -> plan s h ips (Some [Outbound tag (JoinHostPort (addr h) (Itoa (port h)))]).

(** The attempts of a plan are made one after the other: up to the first that
    succeeds, or all of them, with the error of the last. *)
Definition followed (s : Server (R:=R)) (network : string) (cands l : list attempt) (res : error + nat) : Prop :=
  (exists rest, cands = l ++ rest /\ (rest = [] \/ exists conn, res = inr conn)) /\ tried s network l res.

Lemma dial_loop_followed s network port ips e : ips <> [] ->
  let '(l, res) := dial_loop dial network port ips e in followed s network ((fun ip => Dial direct (JoinHostPort (IP_String ip) (Itoa port))) <$> ips) l res.
Proof.
  revert e. induction ips as [|ip ips IH]; intros e Hne; [done|]. cbn [dial_loop fmap list_fmap]. set (a := Dial direct _).
  destruct (dial direct network (JoinHostPort (IP_String ip) (Itoa port))) as [er|conn] eqn:Ed.
  - destruct ips as [|ip' ips].
    + cbn [dial_loop]. split; [exists []; auto|]. exists [], a. done.
    + specialize (IH er ltac:(done)). destruct (dial_loop dial network port (ip' :: ips) er) as [l res].
      destruct IH as [(rest & Hc & Hr) (l' & b & -> & Hb & Hl')]. split.
      * exists rest. split; [|done]. cbn [fmap list_fmap] in Hc |- *. rewrite Hc. done.
      * exists (a :: l'), b. split_and!; [done|done|]. constructor; [by exists er|done].
  - split; [eexists; split; [reflexivity|]; eauto|]. exists [], a. done.
Qed.

Lemma dialTarget_followed s d h ips : let '(l, res) := dialTarget dial d (network h) (addr h) (port h) ips in followed s (network h) (through d h ips) l res.
Proof.
  unfold dialTarget, through, direct_to. destruct (decide (d = direct)) as [->|Hd].
  - rewrite Nat.eqb_refl. cbn [negb orb]. assert (Hz : (len ips =? 0) = bool_decide (ips = [])) by (destruct ips; [done|rewrite bool_decide_eq_false_2 by done; apply Z.eqb_neq; unfold zlen; cbn; lia]).
    rewrite Hz. destruct (_ || _) eqn:E; [split; [exists []; auto|by exists [], (Dial direct (JoinHostPort (addr h) (Itoa (port h))))]|].
    apply orb_false_iff in E as [_ E]. apply bool_decide_eq_false_1 in E. apply dial_loop_followed.
    intros E0. apply E. pose proof (preferIPv6_Permutation ips) as Hp. unfold preferIPv6 in Hp. rewrite E0 in Hp. apply Permutation_nil_l in Hp. done.
  - rewrite (proj2 (Nat.eqb_neq _ _)) by done. cbn [negb orb]. split; [exists []; auto|]. by exists [], (Dial d (JoinHostPort (addr h) (Itoa (port h)))).
Qed.

Lemma routeIPs_known now1 now2 s host m : known_ips now1 s host m (routeIPs Lookup now1 now2 s host m).2.
Proof.
  unfold known_ips, routeIPs, targetIPs, lookupIPCached. destruct (router s) as [r|]; [|done]. destruct (rt_RoutesOnAddress r); [|done]. cbn [negb].
  destruct (ParseIP host); [done|]. destruct (Get [] now1 host m) as [ips c]. cbn. destruct (len ips =? 0) eqn:E; cbn [negb].
  - right. assert (ips = []) as -> by (destruct ips; [done|apply Z.eqb_eq in E; unfold zlen in E; cbn in E; lia]). split; [done|]. by destruct (Lookup host).
  - left. split; [|done]. cbn [snd]. intros E0. rewrite E0 in E. done.
Qed.

(** C13: whatever bytes a stream starts with, the relay decides, and as planned:
    without a header it dials nothing; with one, it knows the addresses of the host only
    as far as the router looks at addresses, a UDP stream goes direct, a TCP stream
    where the router says, by the proxy or an outbound with its tag, and what the router
    blocks is not dialled; a name that goes direct is tried at its known addresses,
    IPv6 first, until one answers.  The stream is relayed to the first connection, in
    the mode its header asks for, and fails only after the last address, with the last
    error. *)
Theorem relay_decides now1 now2 se raw busy s m stream :
  exists run c hdr, handleProxyStream Lookup dial now1 now2 se raw busy s m stream = Some run /\ readProxyStreamHeader se stream = Some (c, hdr) /\ run_in run = c /\
  match hdr with
  | None => run_end run = NoHeader /\ run_dials run = [] /\ run_server run = s /\ run_cache run = m
  | Some h => exists ips cands, known_ips now1 s (addr h) m ips /\ plan s h ips cands /\
      match cands with
      | None => run_end run = Blocked /\ run_dials run = []
      | Some cands => exists res, followed s (network h) cands (run_dials run) res /\
          run_end run = match res with inl e => DialFailed e | inr conn => Relayed h conn (stream_mode h raw busy) end
      end
  end.
Proof.
  unfold handleProxyStream. destruct (read_header_total se stream) as [[c hdr] Eh]. rewrite Eh. cbn [mbind option_bind].
  destruct hdr as [h|]; [|by eexists _, c, None]. pose proof (routeIPs_known now1 now2 s (addr h) m) as Hk.
  destruct (routeIPs Lookup now1 now2 s (addr h) m) as [m' ips]. cbn in Hk. set (res0 := resolveProxyDialer s (is_udp h) (port h) ips).
  assert (Hp : match res0 with
    | (_, None) => plan s h ips None
    | (s', Some (d, tag)) => outboundDial s' = outboundDial s /\ (tag <> ""%string -> outboundDial s <> None -> plan s h ips (Some [Outbound tag (JoinHostPort (addr h) (Itoa (port h)))]))
        /\ (tag = ""%string \/ outboundDial s = None -> plan s h ips (Some (through d h ips)))
    end).
  { assert (Hd : through direct h ips = direct_to h ips) by (unfold through; by rewrite decide_True).
    subst res0. unfold resolveProxyDialer. destruct (is_udp h) eqn:Eu; [split_and!; [done|done|]; intros _; rewrite Hd; by constructor|].
    destruct (router s) as [r|] eqn:Er; [|split_and!; [done|done|]; intros _; by constructor].
    destruct (rt_Route r (firstTCPAddr ips (port h))) as [r' [e|[[] tag]]] eqn:Ert.
    - split_and!; [done|done|]. intros _. change (plan s h ips (Some (through (proxyDialer s) h ips))). by eapply plan_error.
    - split_and!; [done|done|]. intros _. rewrite Hd. by eapply plan_direct.
    - by eapply plan_block.
    - split_and!; [done| |]; intros; [by eapply plan_outbound|]. change (plan s h ips (Some (through (proxyDialer s) h ips))). by eapply plan_proxy. }
  destruct res0 as [s' [[d tag]|]]; [|eexists _, c, (Some h); split_and!; [reflexivity..|]; exists ips, None; by split_and!].
  destruct Hp as (Ho & Hout & Hthr). assert (Hf : let '(l, res) := dialProxyTarget dial s' tag (network h) (target h) (addr h) (port h) d ips in
    exists cands, plan s h ips (Some cands) /\ followed s (network h) cands l res).
  { unfold dialProxyTarget. destruct (String.eqb_spec tag "") as [->|Ht].
    - pose proof (dialTarget_followed s d h ips) as Hf. destruct (dialTarget _ _ _ _ _ _) as [l res]. eauto.
    - rewrite Ho. destruct (outboundDial s) as [f|] eqn:Ef.
      + exists [Outbound tag (target h)]. split; [by apply Hout|]. split; [exists []; auto|]. exists [], (Outbound tag (target h)). split_and!; [done| |done]. cbn. by rewrite Ef.
      + pose proof (dialTarget_followed s d h ips) as Hf. destruct (dialTarget _ _ _ _ _ _) as [l res]. eauto. }
  destruct (dialProxyTarget _ _ _ _ _ _ _ _ _) as [l res]. destruct Hf as (cands & Hpl & Hf).
  destruct res as [e|conn]; eexists _, c, (Some h); (split_and!; [reflexivity..|]); exists ips, (Some cands); (split_and!; [done|done|]); [by exists (inl e)|by exists (inr conn)].
Qed.

(** The router never sees a UDP stream: whatever its rules, the stream is not
    blocked and the target is dialled directly. *)
Theorem udp_not_routed now1 now2 se raw busy s m stream c h :
  readProxyStreamHeader se stream = Some (c, Some h) -> is_udp h = true ->
  exists run, handleProxyStream Lookup dial now1 now2 se raw busy s m stream = Some run /\
    run_server run = s /\ run_end run <> Blocked /\
    Forall (fun a => exists addr, a = Dial direct addr) (run_dials run) /\ run_dials run <> [].
Proof.
  intros Eh Hu. unfold handleProxyStream. rewrite Eh. cbn [mbind option_bind].
  destruct (routeIPs Lookup now1 now2 s (addr h) m) as [m' ips]. rewrite Hu. cbn [resolveProxyDialer].
  assert (Hd : let '(l, _) := dialProxyTarget dial s "" (network h) (target h) (addr h) (port h) direct ips in
               Forall (fun a => exists addr, a = Dial direct addr) l /\ l <> []).
  { unfold dialProxyTarget, dialTarget. cbn [String.eqb Nat.eqb negb direct orb]. destruct (_ || _) eqn:E.
    - split; [repeat constructor; eauto|done].
    - pose proof (dial_loop_tried s (network h) (port h) (preferIPv6 ips) EOF) as Hl.
      destruct (dial_loop _ _ _ _ _) as [l res]. destruct Hl as [(l' & a & Ea & _) [k Hk]].
      { intros E0. apply orb_false_iff in E as [_ E]. apply Z.eqb_neq in E. apply E.
        pose proof (preferIPv6_Permutation ips) as Hp. rewrite E0 in Hp. apply Permutation_nil_l in Hp. by subst. }
      split; [rewrite Hk; apply Forall_fmap, Forall_true; intros ip; cbn; eauto|]. rewrite Ea. by destruct l'. }
  destruct (dialProxyTarget _ _ _ _ _ _ _ _ _) as [dials [e|conn]]; destruct Hd as [H1 H2]; eexists; (split; [done|]); by split_and!.
Qed.

(** The router decides on the first address of a name and the relay dials another:
    of an IPv4 and an IPv6 address only the IPv4 one is routed, and the stream
    goes to the IPv6 one, whatever the rules say about it. *)
Theorem routes_one_dials_other now1 now2 se raw busy s m stream c h rtr rtr' tag v4 v6 conn :
  readProxyStreamHeader se stream = Some (c, Some h) -> is_udp h = false ->
  router s = Some rtr -> rt_RoutesOnAddress rtr = true -> ParseIP (addr h) = None ->
  (targetIPs Lookup now1 now2 (addr h) m).2 = [v4; v6] -> To4 v4 <> None -> To4 v6 = None ->
  rt_Route rtr (Some (v4, port h)) = (rtr', inr (DestinationDirect, tag)) ->
  dial direct "tcp" (JoinHostPort (IP_String v6) (Itoa (port h))) = inr conn ->
  exists run, handleProxyStream Lookup dial now1 now2 se raw busy s m stream = Some run /\
    run_dials run = [Dial direct (JoinHostPort (IP_String v6) (Itoa (port h)))] /\
    run_end run = Relayed h conn (stream_mode h raw busy).
Proof.
  intros Eh Hu Hr Hon Hn Hips H4 H6 Hrt Hd. unfold handleProxyStream. rewrite Eh. cbn [mbind option_bind].
  unfold routeIPs. rewrite Hr, Hon. cbn [negb]. destruct (targetIPs _ _ _ _ _) as [m' ips]. cbn in Hips. subst ips.
  unfold resolveProxyDialer. rewrite Hu, Hr. cbn [firstTCPAddr]. rewrite Hrt.
  unfold dialProxyTarget, dialTarget. cbn [String.eqb Nat.eqb negb direct orb]. rewrite Hn. cbn [orb].
  rewrite bool_decide_false by (by intros [? ?]). cbn [orb]. change (len [v4; v6] =? 0) with false. cbn iota.
  assert (Ep : preferIPv6 [v4; v6] = [v6; v4]).
  { unfold preferIPv6. rewrite !filter_cons, !filter_nil. rewrite H6. destruct (To4 v4); [|done]. done. }
  unfold network. rewrite Ep, Hu. cbn [dial_loop]. rewrite Hd. eexists. by split_and!.
Qed.
End Relay.

(** ** Witnesses *)

Module RelayWitnesses.
(** A router that lets only IPv4 addresses out, and one that blocks everything. *)
Inductive policy := OnlyV4 | Nothing.
#[local] Instance policy_router : AddrRouter policy := {|
  rt_Route p a :=
    (p, inr (match p, a with
             | OnlyV4, Some (ip, _) => if bool_decide (is_Some (To4 ip)) then DestinationDirect else DestinationBlock
             | _, _ => DestinationBlock
             end, ""%string));
  rt_RoutesOnAddress _ := true
|}.

Definition v4 : IP := [0; 0; 0; 0; 0; 0; 0; 0; 0; 0; 255; 255; 192; 0; 2; 1].
Definition v6 : IP := [32; 1; 13; 184; 0; 0; 0; 0; 0; 0; 0; 0; 0; 0; 0; 1].
Definition lookup (host : string) : error + list IP := inr [v4; v6].
Definition dial (d : nat) (network addr : string) : error + nat := inr 7%nat.
Definition server (p : policy) : Server := mkServer 0 (Some p) None.
Definition cache : LRUCache (list IP) := NewLRUCache routeCacheSize.
Definition wire (proto : Z) : Conn := mkConn (stream_header proto "example.org" 443) EOF [] [] false.

Lemma udp_not_routed_witness :
  exists run, handleProxyStream lookup dial 0 0 false false false (server Nothing) cache (wire 17) = Some run /\ run_end run <> Blocked.
Proof.
  destruct (udp_not_routed lookup dial 0 0 false false false (server Nothing) cache (wire 17) (with_in (wire 17) [])
    (header_of false 17 "example.org" 443)) as (run & H1 & _ & H3 & _); [vm_compute; reflexivity|reflexivity|]. by exists run.
Defined.

(** The rules let no IPv6 address out, and the stream goes to one. *)
Lemma routes_one_dials_other_witness :
  exists run, handleProxyStream lookup dial 0 0 false false false (server OnlyV4) cache (wire 6) = Some run /\
    run_dials run = [Dial direct "[2001:db8::1]:443"] /\
    rt_Route OnlyV4 (Some (v6, 443)) = (OnlyV4, inr (DestinationBlock, ""%string)).
Proof.
  destruct (routes_one_dials_other lookup dial 0 0 false false false (server OnlyV4) cache (wire 6) (with_in (wire 6) [])
    (header_of false 6 "example.org" 443) OnlyV4 OnlyV4 "" v4 v6 7%nat) as (run & H1 & H2 & _);
    try (vm_compute; reflexivity); [vm_compute; discriminate|].
  exists run. split; [exact H1|]. split; [rewrite H2|]; vm_compute; reflexivity.
Defined.
End RelayWitnesses.
