(* ===== verification/IdleSet.v ===== *)
(** The pool of idle connections, core/tunnel/keepalive.go: parking, taking, the
    watcher of a parked connection, and the loop that keeps parked connections
    busy with filler records.

    A connection is a number.  [pool] holds the set together with who owns the
    connections outside it, so that steps of the callers and of the goroutines
    can be interleaved: a connection popped by [take] is being reclaimed until
    its watcher has answered. *)

From S2P Require Import Prelude.

Module IdleSet.

Definition idleMax : nat := 8.

(** The goroutine of [fillLoop]: it has seen the set closed and returned from its
    loop, but not yet cleared [filling]. *)
Inductive loop_state := NoLoop | Running | Exiting.

Record idleSet := mkIdle { conns : list nat; closed : bool; filling : bool; loop : loop_state }.

Definition with_conns (s : idleSet) (l : list nat) : idleSet := mkIdle l (closed s) (filling s) (loop s).

(** [remove]: the first occurrence, and whether there was one. *)
Fixpoint delete_first (c : nat) (l : list nat) : option (list nat) :=
  match l with
  | [] => None
  | x :: l' => if (x =? c)%nat then Some l' else cons x <$> delete_first c l'
  end.
Definition remove (c : nat) (s : idleSet) : idleSet * bool :=
  match delete_first c (conns s) with
  | Some l => (with_conns s l, true)
  | None => (s, false)
  end.

(** The critical section of [take]: the last connection. *)
Definition take_pop (s : idleSet) : idleSet * option nat :=
  match last (conns s) with
  | None => (s, None)
  | Some c => (with_conns s (removelast (conns s)), Some c)
  end.

(** [take] without interference: [alive] is what [reclaim] says.  The connection
    and those it closed. *)
Fixpoint take_loop (alive : nat -> bool) (fuel : nat) (s : idleSet) : option (idleSet * option nat * list nat) :=
  match take_pop s with
  | (s, None) => Some (s, None, [])
  | (s, Some c) =>
      match fuel with
      | O => None
      | S fuel =>
          if alive c then Some (s, Some c, [])
          else '(s, r, cl) ← take_loop alive fuel s; Some (s, r, c :: cl)
      end
  end.
Definition take_conn (alive : nat -> bool) (s : idleSet) : option (idleSet * option nat * list nat) :=
  take_loop alive (length (conns s)) s.

(** [put]: the connections it closes. *)
Definition put (c : nat) (s : idleSet) : idleSet * list nat :=
  let s := if filling s then s else mkIdle (conns s) (closed s) true Running in
  if closed s then (s, [c])
  else
    let l := conns s ++ [c] in
    let over := (length l - idleMax)%nat in
    (with_conns s (drop over l), take over l).

Definition reopen (s : idleSet) : idleSet := mkIdle (conns s) false (filling s) (loop s).
Definition closeAll (s : idleSet) : idleSet * list nat := (mkIdle [] true (filling s) (loop s), conns s).

(** [watch] when the read has returned: what it closes. *)
Definition watch (c : nat) (alive : bool) (s : idleSet) : idleSet * list nat :=
  if alive then (s, [])
  else match remove c s with
       | (s, true) => (s, [c])
       | (s, false) => (s, [])
       end.

(** A turn of [fillLoop], and its deferred end; the connections that get a record
    while [pad] says that the filler is on. *)
Definition fill_turn (pad : bool) (s : idleSet) : idleSet * list nat :=
  match loop s with
  | Running => if closed s then (mkIdle (conns s) (closed s) (filling s) Exiting, [])
               else (s, if pad then conns s else [])
  | _ => (s, [])
  end.
Definition fill_exit (s : idleSet) : idleSet :=
  match loop s with
  | Exiting => mkIdle (conns s) (closed s) false NoLoop
  | _ => s
  end.

Definition new_set : idleSet := mkIdle [] false false NoLoop.

(** ** The owners of connections *)

Record pool := mkPool {
  set_ : idleSet; held : list nat; reclaiming : list nat; shut : list nat; dialled : list nat
}.

Definition new_pool : pool := mkPool new_set [] [] [] [].

Inductive pool_step : pool -> pool -> Prop :=
| p_dial c p : c ∉ dialled p ->
    pool_step p (mkPool (set_ p) (c :: held p) (reclaiming p) (shut p) (c :: dialled p))
| p_put c p held' : delete_first c (held p) = Some held' ->
    pool_step p (mkPool (put c (set_ p)).1 held' (reclaiming p) ((put c (set_ p)).2 ++ shut p) (dialled p))
| p_pop c p : (take_pop (set_ p)).2 = Some c ->
    pool_step p (mkPool (take_pop (set_ p)).1 (held p) (c :: reclaiming p) (shut p) (dialled p))
| p_reclaimed c p l : delete_first c (reclaiming p) = Some l ->
    pool_step p (mkPool (set_ p) (c :: held p) l (shut p) (dialled p))
| p_dead c p l : delete_first c (reclaiming p) = Some l ->
    pool_step p (mkPool (set_ p) (held p) l (c :: shut p) (dialled p))
| p_watch c alive p :
    pool_step p (mkPool (watch c alive (set_ p)).1 (held p) (reclaiming p) ((watch c alive (set_ p)).2 ++ shut p) (dialled p))
| p_close c p l : delete_first c (held p) = Some l ->
    pool_step p (mkPool (set_ p) l (reclaiming p) (c :: shut p) (dialled p))
| p_reopen p : pool_step p (mkPool (reopen (set_ p)) (held p) (reclaiming p) (shut p) (dialled p))
| p_closeAll p :
    pool_step p (mkPool (closeAll (set_ p)).1 (held p) (reclaiming p) ((closeAll (set_ p)).2 ++ shut p) (dialled p))
| p_fill pad p : pool_step p (mkPool (fill_turn pad (set_ p)).1 (held p) (reclaiming p) (shut p) (dialled p))
| p_fill_exit p : pool_step p (mkPool (fill_exit (set_ p)) (held p) (reclaiming p) (shut p) (dialled p)).

(** ** Facts *)

Lemma delete_first_Permutation c l l' : delete_first c l = Some l' -> l ≡ₚ c :: l'.
Proof.
  revert l'. induction l as [|x l IH]; intros l'; [done|]. cbn. destruct (Nat.eqb_spec x c) as [->|]; [by intros [= ->]|].
  destruct (delete_first c l) as [k|]; [|done]. intros [= <-]. rewrite (IH k eq_refl). apply Permutation_swap.
Qed.

Lemma take_pop_spec s s' o : take_pop s = (s', o) ->
  match o with
  | Some c => conns s = conns s' ++ [c]
  | None => s' = s /\ conns s = []
  end /\ closed s' = closed s /\ filling s' = filling s /\ loop s' = loop s.
Proof.
  unfold take_pop. destruct (last (conns s)) as [c|] eqn:E; intros [= <- <-]; [|by rewrite last_None in E].
  split; [|done]. cbn. destruct (conns s) as [|x l _] using rev_ind; [done|]. rewrite last_snoc in E. injection E as ->.
  by rewrite removelast_last.
Qed.

Lemma put_spec c s s' cl : put c s = (s', cl) ->
  conns s' ++ cl ≡ₚ conns s ++ [c] /\ closed s' = closed s /\ filling s' = true /\
  loop s' = (if filling s then loop s else Running) /\ (closed s = true -> conns s' = conns s) /\
  (length (conns s) <= idleMax -> length (conns s') <= idleMax)%nat.
Proof.
  unfold put. set (s1 := if filling s then s else _). assert (E1 : conns s1 = conns s /\ closed s1 = closed s /\ filling s1 = true /\
    loop s1 = (if filling s then loop s else Running)) by (unfold s1; destruct (filling s) eqn:Ef; split_and!; done).
  clearbody s1. destruct E1 as (Ec & Ecl & Ef & El). rewrite Ecl.
  destruct (closed s) eqn:Ecs; intros [= <- <-]; cbn [conns closed filling loop with_conns]; rewrite ?Ec, ?Ecl; split_and!; try done.
  - rewrite Permutation_app_comm, take_drop. done.
  - rewrite length_drop, length_app. cbn [length]. unfold idleMax. lia.
Qed.

Definition all_of (p : pool) : list nat := conns (set_ p) ++ held p ++ reclaiming p ++ shut p.

Record pool_inv (p : pool) : Prop := {
  pi_all : all_of p ≡ₚ dialled p;
  pi_nodup : NoDup (dialled p);
  pi_max : (length (conns (set_ p)) <= idleMax)%nat;
  pi_closed : closed (set_ p) = true -> conns (set_ p) = [];
  pi_loop : filling (set_ p) = match loop (set_ p) with NoLoop => false | _ => true end
}.

(** Equal up to the order of the pieces: every connection occurs as often. *)
Ltac perm :=
  apply (Permutation_count_occ Nat.eq_dec); intros ?; cbn [app]; rewrite ?count_occ_app; cbn [count_occ];
  rewrite ?count_occ_app; cbn [count_occ]; rewrite ?count_occ_app;
  repeat match goal with |- context [Nat.eq_dec ?a ?b] => destruct (Nat.eq_dec a b) end; lia.

Lemma put_all c p held' : all_of p ≡ₚ dialled p -> held p ≡ₚ c :: held' ->
  all_of (mkPool (put c (set_ p)).1 held' (reclaiming p) ((put c (set_ p)).2 ++ shut p) (dialled p)) ≡ₚ dialled p.
Proof.
  unfold all_of. intros Ha Hd. destruct (put c (set_ p)) as [s' cl] eqn:Ep. apply put_spec in Ep as (E1 & _).
  cbn [set_ held reclaiming shut fst snd]. rewrite <- Ha, Hd.
  transitivity ((conns s' ++ cl) ++ held' ++ reclaiming p ++ shut p); [perm|]. rewrite E1. perm.
Qed.

Lemma watch_spec c al s s' cl : watch c al s = (s', cl) ->
  conns s' ++ cl ≡ₚ conns s /\ closed s' = closed s /\ filling s' = filling s /\ loop s' = loop s /\
  (length (conns s') <= length (conns s))%nat.
Proof.
  unfold watch, remove. destruct al; [intros [= <- <-]; by rewrite app_nil_r|].
  destruct (delete_first c (conns s)) as [l|] eqn:E; intros [= <- <-]; [|by rewrite app_nil_r].
  apply delete_first_Permutation in E. cbn. split_and!; try done; [rewrite E; perm|rewrite E; cbn; lia].
Qed.

Lemma pool_step_inv p p' : pool_inv p -> pool_step p p' -> pool_inv p'.
Proof.
  intros [Ha Hn Hm Hc Hl] Hs. destruct Hs as [c p Hf|c p h' Hd|c p Ht|c p l Hd|c p l Hd|c al p|c p l Hd|p|p|pad p|p].
  - split; [|by constructor|done..]. unfold all_of in *. cbn. rewrite <- Ha. perm.
  - apply delete_first_Permutation in Hd. pose proof (put_all c p h' Ha Hd) as Hall.
    destruct (put c (set_ p)) as [s' cl] eqn:Ep. apply put_spec in Ep as (_ & E2 & E3 & E4 & E5 & E6).
    split; cbn [set_ dialled fst snd]; [exact Hall|done|by apply E6| |].
    + rewrite E2. intros Hcl. by rewrite (E5 Hcl), Hc.
    + rewrite E3, E4, Hl. by destruct (loop (set_ p)).
  - destruct (take_pop (set_ p)) as [s' o] eqn:Ep. apply take_pop_spec in Ep as (E1 & E2 & E3 & E4). cbn in Ht. subst o.
    split; cbn [set_ dialled fst snd]; [|done| | |by rewrite E3, E4].
    + unfold all_of in *. cbn [set_ held reclaiming shut]. rewrite <- Ha, E1. perm.
    + rewrite E1, length_app in Hm. lia.
    + rewrite E2. intros Hcl. rewrite (Hc Hcl) in E1. by destruct (conns s').
  - split; [|done..]. unfold all_of in *. cbn. rewrite <- Ha, (delete_first_Permutation _ _ _ Hd). perm.
  - split; [|done..]. unfold all_of in *. cbn. rewrite <- Ha, (delete_first_Permutation _ _ _ Hd). perm.
  - destruct (watch c al (set_ p)) as [s' cl] eqn:Ep. apply watch_spec in Ep as (E1 & E2 & E3 & E4 & E5).
    split; cbn [set_ dialled fst snd]; [|done|lia| |by rewrite E3, E4].
    + unfold all_of in *. cbn [set_ held reclaiming shut]. rewrite <- Ha, <- E1. perm.
    + rewrite E2. intros Hcl. rewrite (Hc Hcl) in E5. destruct (conns s'); [done|cbn in E5; lia].
  - split; [|done..]. unfold all_of in *. cbn. rewrite <- Ha, (delete_first_Permutation _ _ _ Hd). perm.
  - by split.
  - split; cbn; [|done|lia|done|done]. unfold all_of in *. cbn. rewrite <- Ha. perm.
  - unfold fill_turn. destruct (loop (set_ p)) eqn:El; [by split; cbn; rewrite ?El|destruct (closed (set_ p)) eqn:Ec|by split; cbn; rewrite ?El].
    + split; cbn; [exact Ha|done|done|auto|by rewrite Hl].
    + split; cbn; [exact Ha|done|done|by rewrite Ec|by rewrite El].
  - unfold fill_exit. destruct (loop (set_ p)) eqn:El; by split; cbn; rewrite ?El.
Qed.

(** Under any interleaving of the callers, the watchers, the filler loop and
    shutdown, every connection that was ever dialled is in exactly one place: with
    a caller, parked, being reclaimed, or closed; so none is handed out twice and
    none is lost.  At most eight are parked, none while the pool is closed, and
    [filling] says whether a filler loop exists. *)
Theorem pool_conserves p : rtc pool_step new_pool p ->
  conns (set_ p) ++ held p ++ reclaiming p ++ shut p ≡ₚ dialled p /\
  NoDup (conns (set_ p) ++ held p ++ reclaiming p ++ shut p) /\
  (length (conns (set_ p)) <= idleMax)%nat /\ (closed (set_ p) = true -> conns (set_ p) = []) /\
  filling (set_ p) = match loop (set_ p) with NoLoop => false | _ => true end.
Proof.
  intros Hr. assert (Hi : pool_inv p).
  { assert (H0 : pool_inv new_pool) by (split; try done; [constructor|cbn; lia]). revert H0.
    induction Hr as [|p1 p2 p3 Hs _ IH]; [done|]. eauto using pool_step_inv. }
  destruct Hi as [Ha Hn Hm Hc Hl]. unfold all_of in Ha. rewrite Ha. by split_and!.
Qed.

(** The newest parked connection that still lives is taken, those behind it that
    do not are closed, and the search ends. *)
Theorem take_newest_alive alive s :
  exists s' r cl, take_conn alive s = Some (s', r, cl) /\ Forall (fun c => alive c = false) cl /\
  match r with
  | Some c => alive c = true /\ conns s = conns s' ++ c :: rev cl
  | None => conns s' = [] /\ conns s = rev cl
  end.
Proof.
  unfold take_conn. remember (length (conns s)) as n eqn:Hn. revert s Hn.
  induction n as [|n IH]; intros s Hn; cbn [take_loop]; destruct (take_pop s) as [s1 [c|]] eqn:Ep;
    apply take_pop_spec in Ep as (E1 & _).
  - rewrite E1, length_app in Hn. cbn in Hn. lia.
  - destruct E1 as [-> E1]. exists s, None, []. by split_and!.
  - destruct (alive c) eqn:Ea; [exists s1, (Some c), []; by split_and!|].
    destruct (IH s1) as (s' & r & cl & -> & Hcl & Hr); [rewrite E1, length_app in Hn; cbn in Hn; lia|].
    exists s', r, (c :: cl). split; [done|]. split; [by constructor|]. cbn [rev]. destruct r as [d|].
    + destruct Hr as [Hd Hr]. split; [done|]. by rewrite E1, Hr, <- app_assoc.
    + destruct Hr as [Hd Hr]. split; [done|]. by rewrite E1, Hr.
  - destruct E1 as [-> E1]. by rewrite E1 in Hn.
Qed.

(** The filler can get lost: a pool closed and opened again while the loop is
    about to end parks a connection for which no loop runs. *)
Theorem filler_lost :
  exists p, rtc pool_step new_pool p /\ closed (set_ p) = false /\ conns (set_ p) = [1%nat] /\ loop (set_ p) = NoLoop.
Proof.
  exists (mkPool (mkIdle [1%nat] false false NoLoop) [] [] [0%nat] [1%nat; 0%nat]). split; [|done].
  do 2 (eapply rtc_l; [first [eapply (p_dial 0); cbn; apply not_elem_of_nil | by eapply (p_put 0)]|]).
  eapply rtc_l; [apply p_closeAll|]. eapply rtc_l; [apply (p_fill true)|]. eapply rtc_l; [apply p_reopen|].
  eapply rtc_l; [eapply (p_dial 1); cbn; by intros [?|?%not_elem_of_nil]%elem_of_cons|].
  eapply rtc_l; [by eapply (p_put 1)|]. eapply rtc_l; [apply p_fill_exit|]. constructor.
Qed.

Lemma pool_conserves_witness :
  (length (conns (set_ (mkPool (mkIdle [0%nat] false true Running) [] [] [] [0%nat]))) <= idleMax)%nat.
Proof.
  apply (pool_conserves (mkPool (mkIdle [0%nat] false true Running) [] [] [] [0%nat])).
  eapply rtc_l; [eapply (p_dial 0); cbn; apply not_elem_of_nil|]. eapply rtc_l; [by eapply (p_put 0)|]. constructor.
Defined.
End IdleSet.
