(* ===== verification/Socks5Module.v ===== *)
(** The SOCKS5 module, core/socks5/module.go: where a connection goes (blocked,
    direct, through the tunnel), the cache of direct addresses, and the UDP relay
    of one association.

    Functions of the configuration are optional functions; a resolver gives the
    addresses or nothing.  A tunnel is what the module asks of it: whether it is
    connected, the datagram lane for a host and what opening a stream gives.
    Streams and lanes are numbers.  A stored function [unregister] is the lane it
    was registered with. *)

From S2P Require Import Prelude GoIO GoStr NetIP Socks5 ProxyStream.

Module Socks5Module.

(** ** Where a connection goes *)

Record Config := mkConfig {
  BypassFunc : option (string -> Z -> bool);
  BypassDecision : option (string -> Z -> bool * bool);
  BypassAddrDirect : option (IP -> bool);
  BypassResolver : option (string -> option (list IP));
  RealResolver : option (string -> option (list IP));
  BlockFunc : option (string -> Z -> bool);
  BlockTorrents : bool
}.

Definition isTorrentPort (port : Z) : bool :=
  (port =? 6969) || (port =? 51413) || ((6881 <=? port) && (port <=? 6889)).

Definition btHandshakeLen : Z := 20.
Definition isBitTorrent (prefix : list Z) : bool :=
  (btHandshakeLen <=? len prefix) && (nth 0 prefix 0 =? 19)
  && String.eqb (string_of_bytes (zslice 1 btHandshakeLen prefix)) "BitTorrent protocol".

(** [sniffPrefix]: [arrived] bytes come in before the deadline. *)
Definition sniffPrefix (c : Conn) (n arrived : Z) : Conn * list Z :=
  let k := Z.min n (Z.max 0 (Z.min arrived (len (c_in c)))) in
  (with_in c (zdrop k (c_in c)), ztake k (c_in c)).

(** [sniffTLSHello]: the prefix and whether it starts a TLS record; [None] on an
    error. *)
Definition sniffTLSHello (c : Conn) : Conn * option (list Z * bool) :=
  match ReadFull c 3 with
  | (c, inr _) => (c, None)
  | (c, inl hdr) => (c, Some (hdr, (nth 0 hdr 0 =? 22) && (nth 1 hdr 0 =? 3)))
  end.

Definition fakeIP (ip : IP) : bool :=
  match To4 ip with
  | Some v4 => (nth 0 v4 0 =? 198) && ((nth 1 v4 0 =? 18) || (nth 1 v4 0 =? 19))
  | None => false
  end.

(** *** The cache of direct addresses *)

Definition directResolveTTL : Z := 60000000000.
Definition maxResolveEntries : Z := 4096.
Record resolveEntry := mkEntry { e_ip : IP; e_exp : Z }.
Definition resolveCache := gmap string resolveEntry.

Definition cache_get (now : Z) (c : resolveCache) (host : string) : option IP :=
  match c !! host with
  | Some e => if e_exp e <? now then None else Some (e_ip e)
  | None => None
  end.
Definition cache_put (now : Z) (c : resolveCache) (host : string) (ip : IP) : resolveCache :=
  let c := if maxResolveEntries <=? Z.of_nat (size c) then ∅ else c in
  <[host := mkEntry ip (now + directResolveTTL)]> c.

Definition resolveDirect (cfg : Config) (host : string) : option IP :=
  match BypassResolver cfg with
  | Some f => match f host with Some (ip :: _) => Some ip | _ => None end
  | None => None
  end.

(** The address that replaces a made-up one. *)
Definition real_ip (cfg : Config) (host : string) (ip : IP) : IP :=
  if fakeIP ip then
    match RealResolver cfg with
    | Some f => match f host with Some (real :: _) => real | _ => ip end
    | None => ip
    end
  else ip.

(** [directIP]; [now] and [now2] are the clock at the lookup and at the store. *)
Definition directIP (cfg : Config) (now now2 : Z) (c : resolveCache) (host : string) : resolveCache * option IP :=
  match ParseIP host with
  | Some lit => (c, Some lit)
  | None =>
      match cache_get now c host with
      | Some ip => (c, Some ip)
      | None =>
          match resolveDirect cfg host with
          | Some ip => let ip := real_ip cfg host ip in (cache_put now2 c host ip, Some ip)
          | None => (c, None)
          end
      end
  end.

(** [bypassRoute]: whether to go direct, and the address to dial. *)
Definition bypassRoute (cfg : Config) (now now2 : Z) (c : resolveCache) (host : string) (port : Z)
  : resolveCache * (bool * option IP) :=
  match BypassDecision cfg with
  | Some f =>
      let '(bypass, byCountry) := f host port in
      if negb bypass then (c, (false, None))
      else match (if byCountry then BypassAddrDirect cfg else None) with
           | None => (c, (true, None))
           | Some ok =>
               match directIP cfg now now2 c host with
               | (c, Some ip) => if ok ip then (c, (true, Some ip)) else (c, (false, None))
               | (c, None) => (c, (false, None))
               end
           end
  | None =>
      match BypassFunc cfg with
      | Some f => (c, (f host port, None))
      | None => (c, (false, None))
      end
  end.

(** The address [dialDirect] dials. *)
Definition direct_target (cfg : Config) (now now2 : Z) (c : resolveCache) (ip : option IP) (host : string) (port : Z)
  : resolveCache * string :=
  let '(c, ip) := match ip with Some _ => (c, ip) | None => directIP cfg now now2 c host end in
  (c, JoinHostPort (match ip with Some ip => IP_String ip | None => host end) (Itoa port)).

(** The wait for the tunnel: whether it is ready at first, and after each wake-up;
    [None] is the deadline. *)
Fixpoint wait_tunnel (ready : bool) (wakes : list (option bool)) : option bool :=
  if ready then Some true
  else match wakes with
       | [] => None
       | None :: _ => Some false
       | Some r :: wakes => wait_tunnel r wakes
       end.

Inductive route_end :=
| RBlocked
| RDirect (addr : string)
| RNotReady
| RWaiting
| RNoHello
| RTunnel (proto : Z) (replay : list Z).

(** [SpliceEnabled], [torrentTagEnabled]. *)
Record routeEnv := mkRouteEnv { re_splice : bool; re_torrentTag : bool }.

(** The protocol byte and the bytes taken from the client to choose it. *)
Definition choose_proto (env : routeEnv) (port : Z) (arrived : Z) (c : Conn) : Conn * option (Z * list Z) :=
  if (port =? 443) && re_splice env then
    match sniffTLSHello c with
    | (c, None) => (c, None)
    | (c, Some (hello, isTLS)) => (c, Some (if isTLS then Z.lor protoTCP SpliceProtoBit else protoTCP, hello))
    end
  else if re_torrentTag env && negb (port =? 80) && negb (port =? 443) then
    let '(c, replay) := sniffPrefix c btHandshakeLen arrived in
    (c, Some (if isBitTorrent replay then Z.lor protoTCP TorrentProtoBit else protoTCP, replay))
  else (c, Some (protoTCP, [])).

(** [route] up to the dial: the client connection as it is then. *)
Definition route (cfg : Config) (env : routeEnv) (now now2 : Z) (ready : bool) (wakes : list (option bool)) (arrived : Z)
    (cache : resolveCache) (c : Conn) (host : string) (port : Z) : resolveCache * Conn * route_end :=
  if BlockTorrents cfg && isTorrentPort port then (cache, c, RBlocked)
  else if match BlockFunc cfg with Some f => f host port | None => false end then (cache, c, RBlocked)
  else
    let '(cache, (direct, dialIP)) := bypassRoute cfg now now2 cache host port in
    if direct then
      let '(cache, addr) := direct_target cfg now now2 cache dialIP host port in (cache, c, RDirect addr)
    else
      match wait_tunnel ready wakes with
      | None => (cache, c, RWaiting)
      | Some false => (cache, c, RNotReady)
      | Some true =>
          match choose_proto env port arrived c with
          | (c, None) => (cache, c, RNoHello)
          | (c, Some (proto, replay)) => (cache, c, RTunnel proto replay)
          end
      end.

(** ** The UDP relay *)

Definition targetKey : Type := string * Z.

(** The tunnel of the module. *)
Record Tunnel := mkTunnel {
  IsConnected : bool;
  DatagramClient : string -> option nat;
  OpenStream : string -> Z -> option nat
}.

Record udpRelay := mkRelay {
  clientAddr : option nat;
  streams : gmap targetKey nat;
  rtTargets : gmap targetKey nat;
  lane : option nat
}.

Inductive action :=
| WriteStream (stream : nat) (frame : list Z)
| CloseStream (stream : nat)
| SendUDP (lane : nat) (host : string) (port : Z) (payload : list Z)
| Register (lane : nat) (key : targetKey)
| Unregister (lane : nat) (key : targetKey).

Definition new_relay : udpRelay := mkRelay None ∅ ∅ None.

Definition with_streams (r : udpRelay) (m : gmap targetKey nat) : udpRelay :=
  mkRelay (clientAddr r) m (rtTargets r) (lane r).
Definition with_targets (r : udpRelay) (m : gmap targetKey nat) (l : option nat) : udpRelay :=
  mkRelay (clientAddr r) (streams r) m l.

Definition unregister_all (m : gmap targetKey nat) : list action :=
  (fun x : targetKey * nat => Unregister x.2 x.1) <$> map_to_list m.

Definition closeAll (r : udpRelay) : list action :=
  ((fun x : targetKey * nat => CloseStream x.2) <$> map_to_list (streams r)) ++ unregister_all (rtTargets r).

Definition switchLane (t : option Tunnel) (host : string) (r : udpRelay) : udpRelay * list action :=
  match t with
  | None => (r, [])
  | Some t =>
      let l := DatagramClient t host in
      if decide (l = lane r) then (r, [])
      else (with_targets r ∅ l, unregister_all (rtTargets r))
  end.

(** [openTarget]: the stream, or the datagram lane; [None] when there is neither. *)
Inductive via := ViaStream (s : nat) | ViaDatagram.

Definition openTarget (t : option Tunnel) (key : targetKey) (r : udpRelay) : udpRelay * list action * option via :=
  match streams r !! key with
  | Some s => (r, [], Some (ViaStream s))
  | None =>
      match rtTargets r !! key with
      | Some _ => (r, [], Some ViaDatagram)
      | None =>
          match t with
          | None => (r, [], None)
          | Some t =>
              if negb (IsConnected t) then (r, [], None)
              else match lane r with
                   | Some l => (with_targets r (<[key := l]> (rtTargets r)) (lane r), [Register l key], Some ViaDatagram)
                   | None =>
                       match OpenStream t key.1 key.2 with
                       | None => (r, [], None)
                       | Some s => (with_streams r (<[key := s]> (streams r)), [], Some (ViaStream s))
                       end
                   end
          end
      end
  end.

Definition dropStream (key : targetKey) (stream : nat) (r : udpRelay) : udpRelay * list action :=
  (with_streams r (delete key (streams r)), [CloseStream stream]).

Definition sendDatagram (l : option nat) (key : targetKey) (payload : list Z) : list action :=
  match l with Some l => [SendUDP l key.1 key.2 payload] | None => [] end.

(** [sendStream]; [ok] says whether the write succeeds. *)
Definition sendStream (ok : bool) (key : targetKey) (stream : nat) (payload : list Z) (r : udpRelay)
  : udpRelay * list action :=
  if ok then (r, [WriteStream stream (udp_frame payload)])
  else let '(r, l) := dropStream key stream r in (r, WriteStream stream (udp_frame payload) :: l).

Definition same_lane (t : option Tunnel) (host : string) (r : udpRelay) : bool :=
  match t with Some t => bool_decide (DatagramClient t host = lane r) | None => true end.

Definition forward (t : option Tunnel) (ok : bool) (key : targetKey) (payload : list Z) (r : udpRelay)
  : udpRelay * list action :=
  let known :=
    if same_lane t key.1 r then
      match streams r !! key, rtTargets r !! key with
      | Some s, _ => Some (ViaStream s)
      | None, Some _ => Some ViaDatagram
      | None, None => None
      end
    else None in
  match known with
  | Some (ViaStream s) => sendStream ok key s payload r
  | Some ViaDatagram => (r, sendDatagram (lane r) key payload)
  | None =>
      let '(r, a1) := switchLane t key.1 r in
      let '(r, a2, v) := openTarget t key r in
      match v with
      | None => (r, a1 ++ a2)
      | Some ViaDatagram => (r, a1 ++ a2 ++ sendDatagram (lane r) key payload)
      | Some (ViaStream s) => let '(r, a3) := sendStream ok key s payload r in (r, a1 ++ a2 ++ a3)
      end
  end.

(** A packet of the loop of [handleUDPRelay], from an address. *)
Definition relay_packet (t : option Tunnel) (ok : bool) (from : nat) (data : list Z) (r : udpRelay)
  : udpRelay * list action :=
  let r := mkRelay (match clientAddr r with Some a => Some a | None => Some from end) (streams r) (rtTargets r) (lane r) in
  if (len data <? 4) || negb (nth 2 data 0 =? 0) then (r, [])
  else match Socks5.parseUDPHeader data with
       | None => (r, [])
       | Some (host, port, payload) => forward t ok (host, port) payload r
       end.

(** The end of [pumpUDPStreamReplies], and what it sends for a packet. *)
Definition pump_ended (key : targetKey) (stream : nat) (r : udpRelay) : udpRelay * list action := dropStream key stream r.

End Socks5Module.
