(* ===== verification/Socks5ModuleFacts.v ===== *)
(** Theorems on the SOCKS5 module: choosing the protocol takes no byte from the
    client, a bypass by country goes only to an address of the country, the
    registrations of a UDP relay are undone, and two ways in which it loses track
    of streams and targets. *)

From S2P Require Import Prelude GoIO GoStr NetIP Socks5 ProxyStream Socks5Module.
Import Socks5Module.

(** ** Routes *)

Lemma choose_proto_replays env port arrived c c' proto replay :
  choose_proto env port arrived c = (c', Some (proto, replay)) ->
  replay ++ c_in c' = c_in c /\ c_out c' = c_out c /\
  proto = Z.lor protoTCP (if (port =? 443) && re_splice env then
                            if (nth 0 replay 0 =? 22) && (nth 1 replay 0 =? 3) then SpliceProtoBit else 0
                          else if isBitTorrent replay then TorrentProtoBit else 0).
Proof.
  unfold choose_proto. destruct ((port =? 443) && re_splice env).
  - unfold sniffTLSHello. destruct (ReadFull c 3) as [c1 [hdr|e]] eqn:E; [|done]. intros [= <- <- <-].
    destruct (ReadFull_shrinks c 3 c1 hdr) as (H1 & _ & H3 & _); [lia|done|]. split_and!; [done|done|].
    by destruct (_ && _).
  - destruct (re_torrentTag env && negb (port =? 80) && negb (port =? 443)).
    + unfold sniffPrefix. intros [= <- <- <-]. cbn [with_in c_in c_out]. split_and!; [by rewrite ztake_zdrop|done|].
      by destruct (isBitTorrent _).
    + intros [= <- <- <-]. by split_and!.
Qed.

(** A connection that goes through the tunnel was not blocked, and what it has
    read to choose the protocol is replayed: the bytes for the stream are exactly
    the client's, and the marks say that they start a TLS record (port 443) or
    the BitTorrent handshake. *)
Theorem route_tunnel_transparent cfg env now now2 ready wakes arrived cache c host port cache' c' proto replay :
  route cfg env now now2 ready wakes arrived cache c host port = (cache', c', RTunnel proto replay) ->
  replay ++ c_in c' = c_in c /\ c_out c' = c_out c /\
  (BlockTorrents cfg = true -> isTorrentPort port = false) /\
  (forall f, BlockFunc cfg = Some f -> f host port = false) /\
  proto = Z.lor protoTCP (if (port =? 443) && re_splice env then
                            if (nth 0 replay 0 =? 22) && (nth 1 replay 0 =? 3) then SpliceProtoBit else 0
                          else if isBitTorrent replay then TorrentProtoBit else 0).
Proof.
  unfold route. destruct (BlockTorrents cfg && isTorrentPort port) eqn:Eb; [done|].
  destruct (match BlockFunc cfg with Some f => f host port | None => false end) eqn:Ef; [done|].
  destruct (bypassRoute cfg now now2 cache host port) as [cache1 [[] dialIP]]; [by destruct (direct_target _ _ _ _ _ _ _)|].
  destruct (wait_tunnel ready wakes) as [[]|]; [|done|done].
  destruct (choose_proto env port arrived c) as [c1 [[p r]|]] eqn:Ec; [|done]. intros [= <- <- <- <-].
  apply choose_proto_replays in Ec as (H1 & H2 & H3). split; [done|]. split; [done|]. split; [|split; [|done]].
  - intros Hb. by rewrite Hb in Eb.
  - intros f Hf. by rewrite Hf in Ef.
Qed.

(** When the decision to go direct rests on the country and the addresses can be
    checked, the connection is dialled at an address that passed the check, and
    not resolved again. *)
Theorem country_bypass_checked cfg env now now2 ready wakes arrived cache c host port cache' c' addr f ok :
  BypassDecision cfg = Some f -> f host port = (true, true) -> BypassAddrDirect cfg = Some ok ->
  route cfg env now now2 ready wakes arrived cache c host port = (cache', c', RDirect addr) ->
  exists ip, ok ip = true /\ addr = JoinHostPort (IP_String ip) (Itoa port) /\ c' = c /\
    (directIP cfg now now2 cache host) = (cache', Some ip).
Proof.
  intros Hd Hf Ha. unfold route. destruct (_ && _); [done|]. destruct (match BlockFunc cfg with Some _ => _ | None => _ end); [done|].
  unfold bypassRoute. rewrite Hd, Hf, Ha. cbn [negb].
  destruct (directIP cfg now now2 cache host) as [cache1 [ip|]]; [destruct (ok ip) eqn:Eok|].
  - cbn [direct_target]. intros [= <- <- <-]. by exists ip.
  - destruct (wait_tunnel ready wakes) as [[]|]; [destruct (choose_proto _ _ _ _) as [? [[]|]]|..]; done.
  - destruct (wait_tunnel ready wakes) as [[]|]; [destruct (choose_proto _ _ _ _) as [? [[]|]]|..]; done.
Qed.

(** ** The UDP relay *)

(** A relay and what it has done so far; the tunnel may change between steps. *)
Inductive relay_step : udpRelay * list action -> udpRelay * list action -> Prop :=
| r_packet t ok from data r tr :
    relay_step (r, tr) ((relay_packet t ok from data r).1, tr ++ (relay_packet t ok from data r).2)
| r_ended key s r tr :
    relay_step (r, tr) ((pump_ended key s r).1, tr ++ (pump_ended key s r).2).

(** Registrations of a target at a lane that were not undone. *)
Definition reg_of (l : nat) (k : targetKey) (a : action) : Z :=
  match a with
  | Register l' k' => if decide ((l', k') = (l, k)) then 1 else 0
  | Unregister l' k' => if decide ((l', k') = (l, k)) then -1 else 0
  | _ => 0
  end.
Definition registered (l : nat) (k : targetKey) (tr : list action) : Z := foldr (fun a n => reg_of l k a + n) 0 tr.

Definition holds (r : udpRelay) (l : nat) (k : targetKey) : Z := if decide (rtTargets r !! k = Some l) then 1 else 0.

Record relay_inv (x : udpRelay * list action) : Prop := {
  ri_lane : forall k l, rtTargets x.1 !! k = Some l -> lane x.1 = Some l;
  ri_reg : forall l k, registered l k x.2 = holds x.1 l k
}.

Lemma registered_app l k a b : registered l k (a ++ b) = registered l k a + registered l k b.
Proof. unfold registered. induction a as [|x a IH]; [done|]. cbn [app foldr]. rewrite IH. lia. Qed.

Lemma unregister_all_reg l k m : registered l k (unregister_all m) = - (if decide (m !! k = Some l) then 1 else 0).
Proof.
  unfold unregister_all. induction m as [|k' l' m Hm Hf IH] using map_first_key_ind; [done|].
  rewrite map_to_list_insert_first_key by done. cbn [fmap list_fmap registered foldr]. fold (registered l k (unregister_all m)).
  change (foldr _ 0 _) with (registered l k ((fun x : targetKey * nat => Unregister x.2 x.1) <$> map_to_list m)). rewrite IH. cbn.
  destruct (decide (k' = k)) as [->|Hne].
  - rewrite Hm, lookup_insert_eq. rewrite (decide_False (P := None = Some l)) by done.
    destruct (decide ((l', k) = (l, k))), (decide (Some l' = Some l)); simplify_eq; done || congruence.
  - rewrite lookup_insert_ne by done. rewrite decide_False by congruence. done.
Qed.

(** No other action counts. *)
Lemma send_no_reg l k lane' key payload : registered l k (sendDatagram lane' key payload) = 0.
Proof. by destruct lane'. Qed.

Lemma sendStream_spec ok key s payload r r' a : sendStream ok key s payload r = (r', a) ->
  rtTargets r' = rtTargets r /\ lane r' = lane r /\ forall l k, registered l k a = 0.
Proof. unfold sendStream, dropStream. destruct ok; by intros [= <- <-]. Qed.

Lemma switchLane_spec t host r r' a : switchLane t host r = (r', a) ->
  (forall k l, rtTargets r !! k = Some l -> lane r = Some l) ->
  (forall k l, rtTargets r' !! k = Some l -> lane r' = Some l) /\
  forall l k, registered l k a + holds r l k = holds r' l k.
Proof.
  unfold switchLane. destruct t as [t|]; [destruct (decide _)|]; intros [= <- <-] Hl; [by split| |by split].
  cbn. split; [intros k l; by rewrite lookup_empty|]. intros l k. rewrite unregister_all_reg. unfold holds. cbn.
  rewrite lookup_empty. rewrite (decide_False (P := None = Some l)) by done. lia.
Qed.

Lemma openTarget_spec t key r r' a v : openTarget t key r = (r', a, v) ->
  (forall k l, rtTargets r !! k = Some l -> lane r = Some l) ->
  (forall k l, rtTargets r' !! k = Some l -> lane r' = Some l) /\
  forall l k, registered l k a + holds r l k = holds r' l k.
Proof.
  unfold openTarget. intros E Hl. destruct (streams r !! key); [by simplify_eq|].
  destruct (rtTargets r !! key) eqn:Er; [by simplify_eq|]. destruct t as [t|]; [|by simplify_eq].
  destruct (negb (IsConnected t)); [by simplify_eq|]. destruct (lane r) as [l0|] eqn:El.
  - simplify_eq. cbn. split.
    + intros k l. destruct (decide (k = key)) as [->|]; [rewrite lookup_insert_eq; congruence|rewrite lookup_insert_ne by done].
      intros Hk. by rewrite <- (Hl k l Hk).
    + intros l k. unfold holds. cbn. destruct (decide (k = key)) as [->|].
      * rewrite lookup_insert_eq, Er. rewrite (decide_False (P := None = Some l)) by done.
        destruct (decide ((l0, key) = (l, key))), (decide (Some l0 = Some l)); simplify_eq; done || congruence.
      * rewrite lookup_insert_ne by done. rewrite decide_False by congruence. lia.
  - destruct (OpenStream t key.1 key.2); simplify_eq; (split; [intros k l Hk; by apply Hl in Hk|done]).
Qed.

Lemma forward_inv t ok key payload r tr : relay_inv (r, tr) ->
  relay_inv ((forward t ok key payload r).1, tr ++ (forward t ok key payload r).2).
Proof.
  intros [Hl Hr]. cbn [fst snd] in Hl, Hr. unfold forward. set (known := if same_lane t key.1 r then _ else None). destruct known as [[s|]|].
  - destruct (sendStream ok key s payload r) as [r' a] eqn:Es. apply sendStream_spec in Es as (E1 & E2 & E3).
    split; cbn [fst snd]; [by rewrite E1, E2|]. intros l k. rewrite registered_app, E3, Hr. unfold holds. by rewrite E1, Z.add_0_r.
  - split; cbn [fst snd]; [done|]. intros l k. by rewrite registered_app, send_no_reg, Hr, Z.add_0_r.
  - destruct (switchLane t key.1 r) as [r1 a1] eqn:E1. destruct (switchLane_spec _ _ _ _ _ E1 Hl) as [Hl1 Hr1].
    destruct (openTarget t key r1) as [[r2 a2] v] eqn:E2. destruct (openTarget_spec _ _ _ _ _ _ E2 Hl1) as [Hl2 Hr2].
    assert (Hsum : forall l k, registered l k tr + (registered l k a1 + registered l k a2) = holds r2 l k)
      by (intros l k; rewrite Hr, <- Hr2, <- Hr1; lia).
    destruct v as [[s|]|].
    + destruct (sendStream ok key s payload r2) as [r3 a3] eqn:Es. apply sendStream_spec in Es as (F1 & F2 & F3).
      split; cbn [fst snd]; [by rewrite F1, F2|]. intros l k. rewrite !registered_app, F3. unfold holds. rewrite F1. fold (holds r2 l k). rewrite <- Hsum. lia.
    + split; cbn [fst snd]; [done|]. intros l k. rewrite !registered_app, send_no_reg, <- Hsum. lia.
    + split; cbn [fst snd]; [done|]. intros l k. by rewrite !registered_app, <- Hsum.
Qed.

Lemma relay_step_inv x y : relay_inv x -> relay_step x y -> relay_inv y.
Proof.
  intros Hx Hs. destruct Hs as [t ok from data r tr|key s r tr].
  - unfold relay_packet. set (r1 := mkRelay _ _ _ _). assert (Hx1 : relay_inv (r1, tr)) by (destruct Hx as [Hl Hr]; by split).
    destruct (_ || _); [by rewrite app_nil_r|]. destruct (Socks5.parseUDPHeader data) as [[[host port] payload]|]; [|by rewrite app_nil_r].
    by apply forward_inv.
  - destruct Hx as [Hl Hr]. split; cbn [fst snd] in *; [exact Hl|]. intros l k. rewrite registered_app, Hr. cbn. unfold holds. cbn. lia.
Qed.

(** Whatever packets, failing writes, ending streams and changes of the tunnel a
    UDP relay sees, its targets are registered with the lane in use only, each
    exactly once, and closing the relay undoes every registration that is left. *)
Theorem registrations_undone r tr : rtc relay_step (new_relay, []) (r, tr) ->
  (forall k l, rtTargets r !! k = Some l -> lane r = Some l) /\
  (forall l k, registered l k tr = holds r l k) /\
  forall l k, registered l k (tr ++ closeAll r) = 0.
Proof.
  intros Hr. assert (Hi : relay_inv (r, tr)).
  { assert (H0 : relay_inv (new_relay, [])) by (split; [intros k l; cbn; by rewrite lookup_empty|intros l k; unfold holds; cbn; by rewrite lookup_empty]).
    revert H0. remember (new_relay, @nil action) as x0. remember (r, tr) as x1. clear Heqx0 Heqx1.
    induction Hr as [|x y z Hs _ IH]; [done|]. eauto using relay_step_inv. }
  destruct Hi as [Hl Hreg]. split; [done|]. split; [done|]. intros l k. unfold closeAll. rewrite !registered_app, unregister_all_reg, Hreg.
  assert (Hc : registered l k ((fun x : targetKey * nat => CloseStream x.2) <$> map_to_list (streams r)) = 0).
  { induction (map_to_list (streams r)) as [|x m IH]; [done|]. cbn in *. exact IH. }
  rewrite Hc. unfold holds. cbn. lia.
Qed.

(** One packet to a target the relay does not know, by a tunnel without datagrams. *)
Lemma first_packet t ok s from data host port payload tr a :
  Socks5.parseUDPHeader data = Some (host, port, payload) -> 4 <= len data -> nth 2 data 0 = 0 ->
  IsConnected t = true -> DatagramClient t host = None -> OpenStream t host port = Some s ->
  relay_step (mkRelay a ∅ ∅ None, tr)
    (mkRelay (match a with Some x => Some x | None => Some from end) (if ok : bool then {[(host, port) := s]} else ∅) ∅ None,
     tr ++ WriteStream s (udp_frame payload) :: (if ok then [] else [CloseStream s])).
Proof.
  intros Hp Hlen Hfrag C D O. pose proof (r_packet (Some t) ok from data (mkRelay a ∅ ∅ None) tr) as Hs.
  unfold relay_packet in Hs. rewrite Hp, Hfrag, (proj2 (Z.ltb_ge _ _) Hlen) in Hs. cbn [Z.eqb negb orb] in Hs.
  unfold forward, same_lane, openTarget, sendStream, dropStream, switchLane in Hs.
  cbn [fst snd streams rtTargets lane clientAddr] in Hs. rewrite D, !lookup_empty in Hs.
  rewrite bool_decide_true in Hs by done. rewrite decide_True in Hs by done.
  cbn [streams rtTargets lane clientAddr] in Hs. rewrite !lookup_empty, C, O in Hs. cbn [negb fst snd lane with_streams streams rtTargets clientAddr] in Hs.
  destruct ok; cbn [with_streams streams rtTargets clientAddr lane fst snd app] in Hs; [exact Hs|].
  by rewrite delete_insert_eq, delete_empty in Hs.
Qed.

(** A stream that is dropped late takes the one that replaced it out of the
    table: it is neither used again nor closed, not even when the relay ends. *)
Theorem late_drop_leaks t1 t2 data host port payload s1 s2 :
  Socks5.parseUDPHeader data = Some (host, port, payload) -> 4 <= len data -> nth 2 data 0 = 0 ->
  IsConnected t1 = true -> DatagramClient t1 host = None -> OpenStream t1 host port = Some s1 ->
  IsConnected t2 = true -> DatagramClient t2 host = None -> OpenStream t2 host port = Some s2 -> s1 <> s2 ->
  exists r tr, rtc relay_step (new_relay, []) (r, tr) /\ WriteStream s2 (udp_frame payload) ∈ tr /\
    ~ (CloseStream s2 ∈ tr ++ closeAll r) /\ streams r = ∅.
Proof.
  intros Hp Hlen Hfrag C1 D1 O1 C2 D2 O2 Hne. set (W := fun s => WriteStream s (udp_frame payload)).
  exists (mkRelay (Some 0%nat) ∅ ∅ None), [W s1; CloseStream s1; W s2; CloseStream s1]. split_and!.
  - eapply rtc_l; [eapply (first_packet t1 false s1 0 data host port payload [] None); done|].
    eapply rtc_l; [eapply (first_packet t2 true s2 0 data host port payload _ (Some 0%nat)); done|].
    eapply rtc_l; [apply (r_ended (host, port) s1)|]. unfold pump_ended, dropStream, with_streams. cbn [fst snd streams clientAddr rtTargets lane app].
    rewrite delete_singleton_eq. constructor.
  - right. right. by left.
  - unfold closeAll, unregister_all. cbn [streams rtTargets]. rewrite !map_to_list_empty. cbn.
    rewrite !elem_of_cons, elem_of_nil. unfold W. naive_solver.
  - done.
Qed.

(** Targets of different lanes drive each other out: a packet to a host whose
    lane is another than the one in use unregisters every target of the
    association, so that their answers are lost. *)
Theorem lane_change_drops_targets t ok (key : targetKey) payload r l (k : targetKey) :
  (forall k l, rtTargets r !! k = Some l -> lane r = Some l) -> lane r = Some l ->
  DatagramClient t key.1 <> Some l -> rtTargets r !! k = Some l -> k <> key ->
  rtTargets (forward (Some t) ok key payload r).1 !! k = None /\
  Unregister l k ∈ (forward (Some t) ok key payload r).2.
Proof.
  intros Hl Hlane Hd Hk Hne. unfold forward, same_lane. rewrite Hlane, bool_decide_false by done.
  unfold switchLane. rewrite Hlane, decide_False by done.
  assert (Hu : Unregister l k ∈ unregister_all (rtTargets r)).
  { unfold unregister_all. apply list_elem_of_fmap. exists (k, l). split; [done|]. by apply elem_of_map_to_list. }
  destruct (openTarget (Some t) key (with_targets r ∅ (DatagramClient t key.1))) as [[r2 a2] v] eqn:Eo.
  assert (H2 : rtTargets r2 !! k = None).
  { unfold openTarget in Eo. cbn [streams with_targets rtTargets lane] in Eo. rewrite lookup_empty in Eo.
    destruct (streams r !! key); [simplify_eq; apply lookup_empty|]. destruct (negb (IsConnected t)); [simplify_eq; apply lookup_empty|].
    destruct (DatagramClient t key.1); [simplify_eq; cbn; rewrite lookup_insert_ne by done; apply lookup_empty|].
    destruct (OpenStream t key.1 key.2); simplify_eq; apply lookup_empty. }
  destruct v as [[s|]|]; [|split; [done|apply elem_of_app; by left]..].
  destruct (sendStream ok key s payload r2) as [r3 a3] eqn:Es. apply sendStream_spec in Es as (E1 & _). cbn. rewrite E1.
  split; [done|]. apply elem_of_app. by left.
Qed.

(** ** Witnesses *)

Module ModuleWitnesses.
Definition cfg : Config :=
  mkConfig None (Some (fun _ _ => (true, true))) (Some (fun ip => negb (fakeIP ip)))
           (Some (fun _ => Some [[0; 0; 0; 0; 0; 0; 0; 0; 0; 0; 255; 255; 198; 18; 0; 1]]))
           (Some (fun _ => Some [[0; 0; 0; 0; 0; 0; 0; 0; 0; 0; 255; 255; 192; 0; 2; 1]])) None true.
Definition plain : Config := mkConfig None None None None None None true.
Definition env : routeEnv := mkRouteEnv true true.
Definition hello : Conn := mkConn [22; 3; 1; 0; 5] EOF [] [] false.

Lemma route_tunnel_transparent_witness :
  route plain env 0 0 true [] 0 ∅ hello "example.org" 443 = (∅, with_in hello [0; 5], RTunnel 134 [22; 3; 1]) /\
  [22; 3; 1] ++ c_in (with_in hello [0; 5]) = c_in hello.
Proof.
  assert (E : route plain env 0 0 true [] 0 ∅ hello "example.org" 443 = (∅, with_in hello [0; 5], RTunnel 134 [22; 3; 1])) by reflexivity.
  split; [exact E|]. apply (route_tunnel_transparent plain env 0 0 true [] 0 ∅ hello "example.org" 443 ∅ (with_in hello [0; 5]) 134 [22; 3; 1] E).
Defined.

Lemma country_bypass_checked_witness :
  exists ip, JoinHostPort (IP_String ip) "80" = "192.0.2.1:80"%string /\ negb (fakeIP ip) = true.
Proof.
  destruct (country_bypass_checked cfg env 0 0 true [] 0 ∅ hello "example.org" 80
              (route cfg env 0 0 true [] 0 ∅ hello "example.org" 80).1.1 hello "192.0.2.1:80"
              (fun _ _ => (true, true)) (fun ip => negb (fakeIP ip))) as (ip & H1 & H2 & _); [reflexivity|reflexivity|reflexivity|vm_compute; reflexivity|].
  exists ip. by split.
Defined.

Lemma registrations_undone_witness : registered 0 ("x"%string, 1) ([] ++ closeAll new_relay) = 0.
Proof. apply (registrations_undone new_relay []). constructor. Defined.

Definition packet : list Z := [0; 0; 0; 3; 1; 120; 0; 53; 7].
Definition tun (s : nat) : Tunnel := mkTunnel true (fun _ => None) (fun _ _ => Some s).

Lemma late_drop_leaks_witness :
  exists r tr, rtc relay_step (new_relay, []) (r, tr) /\ WriteStream 2 (udp_frame [7]) ∈ tr /\ ~ (CloseStream 2 ∈ tr ++ closeAll r).
Proof.
  destruct (late_drop_leaks (tun 1) (tun 2) packet "x" 53 [7] 1 2) as (r & tr & H1 & H2 & H3 & _); try reflexivity; try done.
  by exists r, tr.
Defined.

Definition two_lanes : Tunnel := mkTunnel true (fun h => Some (if String.eqb h "a" then 1%nat else 2%nat)) (fun _ _ => None).

Lemma lane_change_drops_targets_witness :
  Unregister 1 ("a"%string, 1) ∈ (forward (Some two_lanes) true ("b"%string, 1) [] (mkRelay None ∅ {[("a"%string, 1) := 1%nat]} (Some 1%nat))).2.
Proof.
  apply (lane_change_drops_targets two_lanes true ("b"%string, 1) [] (mkRelay None ∅ {[("a"%string, 1) := 1%nat]} (Some 1%nat)) 1 ("a"%string, 1)).
  - intros k l Hk. cbn [rtTargets] in Hk. apply lookup_singleton_Some in Hk as [_ <-]. done.
  - done.
  - done.
  - apply lookup_singleton_eq.
  - done.
Defined.
End ModuleWitnesses.
