(* ===== verification/Events.v ===== *)
(** The event bus, src/common/runtime/events/events.go: publishing, channel and
    handler subscriptions, and the shutdown that waits for asynchronous
    publications.

    A channel is an index into the channels ever made; a handler is a number whose
    calls are recorded.  A method that holds the mutex is one step; a method that
    panics (a send on a closed channel, a second [close], a [close] of nil) gives
    [None].  [world] adds to the bus its goroutines and the progress of [Close], so
    that callers, receivers and goroutines interleave as a step relation. *)

From S2P Require Import Prelude.

Module Events.

Section Bus.
Context {any : Type}.

(** [Timestamp] is [None] for the zero time; [Metadata] refers to a map of the heap. *)
Record Event := mkEvent {
  Type_ : string; Source : string; Timestamp : option Z; Data : any; Metadata : option nat
}.

Record subscription := mkSub { sid : Z; sch : option nat; handler : option nat }.

Record eventBus := mkBus {
  subscribers : gmap string (list subscription); allSubs : list subscription;
  bufferSize : Z; closed : bool; wg : nat; subIDSeq : Z
}.

Record chan := mkChan { buf : list Event; copen : bool }.

(** [pending] holds the goroutines of [PublishAsync] that have not published,
    [finishing] counts those that have but are not [Done]; [closing] is a [Close]
    that waits for them, [done] one that has closed the channels. *)
Record world := mkWorld {
  bus : eventBus; chans : list chan; calls : list (nat * Event);
  pending : list Event; finishing : nat; closing : bool; done_ : bool
}.

(** ** The methods *)

Definition NewEventBus (size : Z) : eventBus :=
  mkBus ∅ [] (if size <? 1 then 100 else size) false 0 0.

Definition new_world (size : Z) : world := mkWorld (NewEventBus size) [] [] [] 0 false false.

Definition with_bus (w : world) (b : eventBus) : world :=
  mkWorld b (chans w) (calls w) (pending w) (finishing w) (closing w) (done_ w).
Definition with_chans (w : world) (cs : list chan) : world :=
  mkWorld (bus w) cs (calls w) (pending w) (finishing w) (closing w) (done_ w).

Definition with_subscribers (b : eventBus) (m : gmap string (list subscription)) : eventBus :=
  mkBus m (allSubs b) (bufferSize b) (closed b) (wg b) (subIDSeq b).
Definition with_allSubs (b : eventBus) (l : list subscription) : eventBus :=
  mkBus (subscribers b) l (bufferSize b) (closed b) (wg b) (subIDSeq b).
Definition with_wg (b : eventBus) (n : nat) : eventBus :=
  mkBus (subscribers b) (allSubs b) (bufferSize b) (closed b) n (subIDSeq b).

(** The subscriptions of an event type; an absent key is the nil slice. *)
Definition subs_of (b : eventBus) (t : string) : list subscription := default [] (subscribers b !! t).

(** [select { case ch <- e: default: }]. *)
Definition try_send (cap : Z) (cs : list chan) (c : nat) (e : Event) : option (list chan) :=
  ch ← cs !! c;
  if copen ch then
    Some (if zlen (buf ch) <? cap then <[c := mkChan (buf ch ++ [e]) true]> cs else cs)
  else None.

(** The loop of [Publish] over one list of subscriptions. *)
Fixpoint deliver (cap : Z) (e : Event) (subs : list subscription) (cs : list chan) (hs : list (nat * Event))
    : option (list chan * list (nat * Event)) :=
  match subs with
  | [] => Some (cs, hs)
  | s :: subs =>
      match handler s, sch s with
      | Some h, _ => deliver cap e subs cs (hs ++ [(h, e)])
      | None, Some c => cs ← try_send cap cs c e; deliver cap e subs cs hs
      | None, None => deliver cap e subs cs hs
      end
  end.

Definition stamp (now : Z) (e : Event) : Event :=
  match Timestamp e with
  | None => mkEvent (Type_ e) (Source e) (Some now) (Data e) (Metadata e)
  | Some _ => e
  end.

(** The flag is whether [Publish] returned [ErrEventBusClosed]. *)
Definition Publish (now : Z) (e : Event) (w : world) : option (world * bool) :=
  if closed (bus w) then Some (w, true)
  else
    let e := stamp now e in
    '(cs, hs) ← deliver (bufferSize (bus w)) e (subs_of (bus w) (Type_ e)) (chans w) (calls w);
    '(cs, hs) ← deliver (bufferSize (bus w)) e (allSubs (bus w)) cs hs;
    Some (mkWorld (bus w) cs hs (pending w) (finishing w) (closing w) (done_ w), false).

(** [PublishAsync]: the call, then the goroutine's [Publish], then its [Done]. *)
Definition PublishAsync (e : Event) (w : world) : world :=
  mkWorld (with_wg (bus w) (S (wg (bus w)))) (chans w) (calls w) (pending w ++ [e]) (finishing w) (closing w) (done_ w).
Definition async_publish (now : Z) (i : nat) (w : world) : option (world * bool) :=
  e ← pending w !! i;
  '(w, r) ← Publish now e w;
  Some (mkWorld (bus w) (chans w) (calls w) (delete i (pending w)) (S (finishing w)) (closing w) (done_ w), r).
Definition async_done (w : world) : option world :=
  match finishing w with
  | O => None
  | S n => Some (mkWorld (with_wg (bus w) (pred (wg (bus w)))) (chans w) (calls w) (pending w) n (closing w) (done_ w))
  end.

Definition Subscribe (t : string) (w : world) : world * nat :=
  let b := bus w in
  let c := length (chans w) in
  (with_bus (with_chans w (chans w ++ [mkChan [] true]))
     (with_subscribers b (<[t := subs_of b t ++ [mkSub 0 (Some c) None]]> (subscribers b))), c).

Definition SubscribeAll (w : world) : world * nat :=
  let c := length (chans w) in
  (with_bus (with_chans w (chans w ++ [mkChan [] true]))
     (with_allSubs (bus w) (allSubs (bus w) ++ [mkSub 0 (Some c) None])), c).

(** [SubscribeFunc] gives the id its unsubscribe function closes over. *)
Definition SubscribeFunc (t : string) (h : option nat) (w : world) : world * Z :=
  let b := bus w in
  let id := subIDSeq b + 1 in
  (with_bus w (mkBus (<[t := subs_of b t ++ [mkSub id None h]]> (subscribers b)) (allSubs b) (bufferSize b) (closed b) (wg b) id), id).

(** The first subscription that satisfies [p], and the slice without it. *)
Fixpoint cut (p : subscription -> bool) (l : list subscription) : option (subscription * list subscription) :=
  match l with
  | [] => None
  | s :: l => if p s then Some (s, l) else '(x, r) ← cut p l; Some (x, s :: r)
  end.

(** The function [SubscribeFunc] returned. *)
Definition unsubscribe_func (t : string) (id : Z) (w : world) : world :=
  match cut (fun s => sid s =? id) (subs_of (bus w) t) with
  | Some (_, l) => with_bus w (with_subscribers (bus w) (<[t := l]> (subscribers (bus w))))
  | None => w
  end.

(** The built-in [close]. *)
Definition close_chan (cs : list chan) (c : option nat) : option (list chan) :=
  c ← c; ch ← cs !! c;
  if copen ch then Some (<[c := mkChan (buf ch) false]> cs) else None.

Definition Unsubscribe (t : string) (c : option nat) (w : world) : option world :=
  match cut (fun s => bool_decide (sch s = c)) (subs_of (bus w) t) with
  | Some (s, l) =>
      cs ← close_chan (chans w) (sch s);
      Some (with_bus (with_chans w cs) (with_subscribers (bus w) (<[t := l]> (subscribers (bus w)))))
  | None =>
      match cut (fun s => bool_decide (sch s = c)) (allSubs (bus w)) with
      | Some (s, l) =>
          cs ← close_chan (chans w) (sch s);
          Some (with_bus (with_chans w cs) (with_allSubs (bus w) l))
      | None => Some w
      end
  end.

(** [Close] up to [wg.Wait]; the flag is whether it goes on. *)
Definition Close_begin (w : world) : world * bool :=
  let b := bus w in
  if closed b then (w, false)
  else (mkWorld (mkBus (subscribers b) (allSubs b) (bufferSize b) true (wg b) (subIDSeq b))
          (chans w) (calls w) (pending w) (finishing w) true (done_ w), true).

Fixpoint close_subs (subs : list subscription) (cs : list chan) : option (list chan) :=
  match subs with
  | [] => Some cs
  | s :: subs =>
      match sch s with
      | Some c => cs ← close_chan cs (Some c); close_subs subs cs
      | None => close_subs subs cs
      end
  end.

(** The rest of [Close] when the wait is over; [visit] is the order in which the
    keys of the map come up. *)
Definition Close_end (visit : list string) (w : world) : option world :=
  cs ← close_subs ((visit ≫= subs_of (bus w)) ++ allSubs (bus w)) (chans w);
  Some (mkWorld (bus w) cs (calls w) (pending w) (finishing w) false true).

(** A receiver takes the oldest buffered event. *)
Definition receive (c : nat) (w : world) : option (world * Event) :=
  ch ← chans w !! c;
  match buf ch with
  | [] => None
  | e :: l => Some (with_chans w (<[c := mkChan l (copen ch)]> (chans w)), e)
  end.

(** ** Interleavings *)

Inductive label :=
| LPublished (e : Event) | LReceived (c : nat) (e : Event) | LUnsubscribed (c : option nat) | LInternal | LCall.

Definition published_label (now : Z) (e : Event) (refused : bool) (other : label) : label :=
  if refused then other else LPublished (stamp now e).

Inductive bus_step : world -> label -> world -> Prop :=
| s_publish now e w w' r : Publish now e w = Some (w', r) -> bus_step w (published_label now e r LCall) w'
| s_async e w : bus_step w LCall (PublishAsync e w)
| s_async_publish now i e w w' r : pending w !! i = Some e -> async_publish now i w = Some (w', r) ->
    bus_step w (published_label now e r LInternal) w'
| s_async_done w w' : async_done w = Some w' -> bus_step w LInternal w'
| s_subscribe t w : bus_step w LCall (Subscribe t w).1
| s_subscribe_all w : bus_step w LCall (SubscribeAll w).1
| s_subscribe_func t h w : bus_step w LCall (SubscribeFunc t h w).1
| s_unsubscribe_func t id w : 1 <= id -> bus_step w LCall (unsubscribe_func t id w)
| s_unsubscribe t c w w' : Unsubscribe t c w = Some w' -> bus_step w (LUnsubscribed c) w'
| s_close_begin w : bus_step w LCall (Close_begin w).1
| s_close_end visit w w' : closing w = true -> wg (bus w) = 0%nat ->
    visit ≡ₚ elements (dom (subscribers (bus w))) -> Close_end visit w = Some w' -> bus_step w LInternal w'
| s_receive c w w' e : receive c w = Some (w', e) -> bus_step w (LReceived c e) w'.

Inductive bus_run : world -> list label -> world -> Prop :=
| run_nil w : bus_run w [] w
| run_cons w l w' ls w'' : bus_step w l w' -> bus_run w' ls w'' -> bus_run w (l :: ls) w''.

(** The events of type [t] among those published, and those received from [c]. *)
Definition published (t : string) (ls : list label) : list Event :=
  omap (fun l => match l with LPublished e => if bool_decide (Type_ e = t) then Some e else None | _ => None end) ls.
Definition received (c : nat) (ls : list label) : list Event :=
  omap (fun l => match l with LReceived d e => if (d =? c)%nat then Some e else None | _ => None end) ls.

End Bus.
Arguments Event : clear implicits.
Arguments world : clear implicits.
Arguments chan : clear implicits.
Arguments label : clear implicits.

(** ** Events and their metadata

    [Metadata] is a Go map, so copies of an event share it. *)
Section Metadata.
Context {any : Type}.

Definition NewEvent (now : Z) (t source : string) (data : any) (heap : list (gmap string any))
    : Event any * list (gmap string any) :=
  (mkEvent t source (Some now) data (Some (length heap)), heap ++ [∅]).

Definition WithMetadata (e : Event any) (key : string) (value : any) (heap : list (gmap string any))
    : Event any * list (gmap string any) :=
  match Metadata e with
  | None => (mkEvent (Type_ e) (Source e) (Timestamp e) (Data e) (Some (length heap)), heap ++ [<[key := value]> ∅])
  | Some m => (e, alter (insert key value) m heap)
  end.

End Metadata.
End Events.
