(* ===== verification/EventsFacts.v ===== *)
(** What the event bus of [Events] guarantees: which channels and handlers an event
    reaches, in which order a receiver sees events, that [Close] comes to an end,
    and which calls make it panic. *)

From S2P Require Import Prelude Events.
Import Events.

Section Facts.
Context {any : Type}.
Implicit Types (w : world any) (e : Event any) (b : eventBus) (cs : list (chan any)).

(** ** Subscriptions by key, the channels among them *)

Definition subs_at b (k : option string) : list subscription :=
  match k with Some t => subs_of b t | None => allSubs b end.
Definition chs b k : list nat := omap sch (subs_at b k).

Lemma subs_at_insert b t l k :
  subs_at (with_subscribers b (<[t := l]> (subscribers b))) k = if bool_decide (k = Some t) then l else subs_at b k.
Proof.
  destruct k as [u|]; cbn; [|done]. unfold subs_of. cbn. destruct (decide (u = t)) as [->|Hne].
  - by rewrite lookup_insert_eq, bool_decide_eq_true_2.
  - rewrite lookup_insert_ne by done. rewrite bool_decide_eq_false_2; [done|congruence].
Qed.

Lemma cut_spec p l s r : cut p l = Some (s, r) -> p s = true /\ exists l1 l2, l = l1 ++ s :: l2 /\ r = l1 ++ l2.
Proof.
  revert r. induction l as [|x l IH]; intros r; cbn; [done|]. destruct (p x) eqn:Ep.
  - intros [= <- <-]. split; [done|]. by exists [], l.
  - destruct (cut p l) as [[y r']|]; cbn; [|done]. intros [= -> <-]. destruct (IH r' eq_refl) as (Hp & l1 & l2 & -> & ->).
    split; [done|]. by exists (x :: l1), l2.
Qed.

Lemma cut_none p l : cut p l = None -> Forall (fun s => p s = false) l.
Proof.
  induction l as [|x l IH]; cbn; [constructor|]. destruct (p x) eqn:Ep; [done|].
  destruct (cut p l) as [[]|]; [done|]. intros _. constructor; auto.
Qed.

(** Each channel stands in one place; [n] channels exist. *)
Record placed (f : option string -> list nat) (n : nat) : Prop := {
  pl_nodup : forall k, NoDup (f k);
  pl_once : forall k k' c, c ∈ f k -> c ∈ f k' -> k = k';
  pl_bound : forall k c, c ∈ f k -> (c < n)%nat
}.

Lemma placed_sub f g n : placed f n -> (forall k, sublist (g k) (f k)) -> placed g n.
Proof.
  intros [H1 H2 H3] Hs. assert (Hin : forall k c, c ∈ g k -> c ∈ f k).
  { intros k c Hc. eapply elem_of_submseteq; [exact Hc|apply sublist_submseteq, Hs]. }
  split; [intros k; eapply sublist_NoDup; [apply H1|apply Hs]|eauto..].
Qed.

Lemma placed_new f g n k0 : placed f n -> g k0 = f k0 ++ [n] -> (forall k, k <> k0 -> g k = f k) -> placed g (S n).
Proof.
  intros [H1 H2 H3] E0 E.
  assert (Hc : forall k c, c ∈ g k -> c ∈ f k \/ (k = k0 /\ c = n)).
  { intros k c Hin. destruct (decide (k = k0)) as [->|Hne]; [|rewrite E in Hin by done; by left].
    rewrite E0, elem_of_app, list_elem_of_singleton in Hin. naive_solver. }
  split.
  - intros k. destruct (decide (k = k0)) as [->|Hne]; [|by rewrite E]. rewrite E0. apply NoDup_app.
    split; [done|]. split; [|apply NoDup_singleton]. intros x Hx ->%list_elem_of_singleton. specialize (H3 _ _ Hx). lia.
  - intros k k' c [Hk|[-> ->]]%Hc [Hk'|[-> Hn]]%Hc; [by eapply H2| | |done].
    + subst c. specialize (H3 _ _ Hk). lia.
    + specialize (H3 _ _ Hk'). lia.
  - intros k c [Hk|[-> ->]]%Hc; [specialize (H3 _ _ Hk)|]; lia.
Qed.

Lemma placed_visit f n visit : placed f n -> NoDup visit -> NoDup ((visit ≫= fun t => f (Some t)) ++ f None).
Proof.
  intros [H1 H2 H3] Hv. induction Hv as [|t visit Hn Hv IH]; cbn; [apply H1|]. rewrite <- app_assoc. apply NoDup_app.
  split; [apply H1|]. split; [|done]. intros c Hc [(u & Hcu & Hu)%list_elem_of_bind|Hc']%elem_of_app.
  - assert (Some t = Some u) by (eapply H2; eauto). congruence.
  - by specialize (H2 _ _ _ Hc Hc').
Qed.

Definition is_open cs (c : nat) : Prop := exists ch, cs !! c = Some ch /\ copen ch = true.

Record bus_inv w : Prop := {
  bi_placed : placed (chs (bus w)) (length (chans w));
  bi_handler : forall k s c, s ∈ subs_at (bus w) k -> sch s = Some c -> handler s = None /\ sid s = 0;
  bi_open : done_ w = false -> forall k c, c ∈ chs (bus w) k -> is_open (chans w) c;
  bi_seq : 0 <= subIDSeq (bus w);
  bi_wg : wg (bus w) = (length (pending w) + finishing w)%nat;
  bi_cap : 1 <= bufferSize (bus w);
  bi_closing : closing w = true -> closed (bus w) = true /\ done_ w = false;
  bi_done : done_ w = true -> closed (bus w) = true
}.

(** ** Delivery *)

Definition push (cap : Z) e (ch : chan any) : chan any :=
  if zlen (buf ch) <? cap then mkChan (buf ch ++ [e]) (copen ch) else ch.

Definition handlers (subs : list subscription) : list nat := omap handler subs.

Lemma push_open cap e ch : copen (push cap e ch) = copen ch.
Proof. unfold push. by destruct (_ <? _). Qed.

Lemma try_send_spec cap cs c e : is_open cs c ->
  try_send cap cs c e = Some (alter (push cap e) c cs).
Proof.
  intros (ch & Hc & Ho). unfold try_send. rewrite Hc. cbn. rewrite Ho. f_equal. unfold push.
  assert (E : alter (fun ch => if zlen (buf ch) <? cap then mkChan (buf ch ++ [e]) (copen ch) else ch) c cs =
    <[c := if zlen (buf ch) <? cap then mkChan (buf ch ++ [e]) (copen ch) else ch]> cs).
  { apply list_eq. intros i. destruct (decide (c = i)) as [<-|Hne].
    - rewrite list_lookup_alter_eq, list_lookup_insert_eq by (by eapply lookup_lt_Some). by rewrite Hc.
    - by rewrite list_lookup_alter_ne, list_lookup_insert_ne by done. }
  rewrite E. destruct (_ <? _); [by rewrite Ho|]. by rewrite list_insert_id.
Qed.

Lemma alter_push_lookup cap e c cs i :
  (alter (push cap e) c cs) !! i = (if (c =? i)%nat then push cap e else id) <$> cs !! i.
Proof.
  destruct (Nat.eqb_spec c i) as [->|Hne]; [apply list_lookup_alter_eq|].
  rewrite list_lookup_alter_ne by done. by destruct (cs !! i).
Qed.

Lemma is_open_alter cap e c cs d : is_open cs d -> is_open (alter (push cap e) c cs) d.
Proof.
  intros (ch & Hd & Ho). exists ((if (c =? d)%nat then push cap e else id) ch).
  rewrite alter_push_lookup, Hd. split; [done|]. destruct (_ =? _)%nat; [by rewrite push_open|done].
Qed.

(** Channels receive the event once if they have room, handlers are called in order. *)
Lemma deliver_spec cap e subs cs hs :
  (forall s c, s ∈ subs -> sch s = Some c -> handler s = None) ->
  (forall c, c ∈ omap sch subs -> is_open cs c) -> NoDup (omap sch subs) ->
  exists cs', deliver cap e subs cs hs = Some (cs', hs ++ map (fun h => (h, e)) (handlers subs)) /\
  length cs' = length cs /\
  forall i, cs' !! i = (if bool_decide (i ∈ omap sch subs) then push cap e else id) <$> cs !! i.
Proof.
  revert cs hs. induction subs as [|s subs IH]; intros cs hs Hh Ho Hn; cbn.
  { exists cs. rewrite app_nil_r. split; [done|]. split; [done|]. intros i. by destruct (cs !! i). }
  assert (Hh' : forall s' c, s' ∈ subs -> sch s' = Some c -> handler s' = None).
  { intros s' c Hs. apply Hh. by apply elem_of_cons; right. }
  cbn in Ho, Hn. destruct (sch s) as [c|] eqn:Es.
  - rewrite (Hh s c) by (done || apply elem_of_cons; by left). cbn in Ho, Hn |- *. apply NoDup_cons in Hn as [Hc Hn].
    rewrite try_send_spec by (apply Ho, elem_of_cons; by left). cbn.
    destruct (IH (alter (push cap e) c cs) hs Hh') as (cs' & -> & Hl & Hcs'); [|done|].
    { intros d Hd. apply is_open_alter, Ho, elem_of_cons. by right. }
    exists cs'. rewrite Hl, length_alter. split; [done|]. split; [done|]. intros i. rewrite Hcs', alter_push_lookup.
    destruct (Nat.eqb_spec c i) as [->|Hne].
    + rewrite bool_decide_eq_false_2 by done. rewrite bool_decide_eq_true_2 by (apply elem_of_cons; by left).
      by destruct (cs !! i).
    + rewrite (bool_decide_ext (i ∈ omap sch subs) (i ∈ c :: omap sch subs)) by (rewrite elem_of_cons; naive_solver).
      by destruct (cs !! i).
  - cbn in Ho, Hn |- *. destruct (handler s) as [h|].
    + destruct (IH cs (hs ++ [(h, e)]) Hh' Ho Hn) as (cs' & -> & Hcs'). exists cs'. by rewrite <- app_assoc.
    + destruct (IH cs hs Hh' Ho Hn) as (cs' & -> & Hcs'). by exists cs'.
Qed.

(** A channel [Publish] offers the event of type [t] to. *)
Definition listens b (t : string) (c : nat) : bool :=
  bool_decide (c ∈ chs b (Some t)) || bool_decide (c ∈ chs b None).

Lemma Type_stamp now e : Type_ (stamp now e) = Type_ e.
Proof. unfold stamp. by destruct (Timestamp e). Qed.

Lemma done_open w : bus_inv w -> closed (bus w) = false -> done_ w = false.
Proof. intros Hi Hc. destruct (done_ w) eqn:Ed; [|done]. by rewrite (bi_done w Hi Ed) in Hc. Qed.

Lemma Publish_spec now e w : bus_inv w -> closed (bus w) = false ->
  exists cs, Publish now e w = Some (mkWorld (bus w) cs
      (calls w ++ map (fun h => (h, stamp now e)) (handlers (subs_of (bus w) (Type_ e)) ++ handlers (allSubs (bus w))))
      (pending w) (finishing w) (closing w) (done_ w), false) /\
    length cs = length (chans w) /\
    forall i, cs !! i = (if listens (bus w) (Type_ e) i then push (bufferSize (bus w)) (stamp now e) else id) <$> chans w !! i.
Proof.
  intros Hi Hc. pose proof (done_open w Hi Hc) as Hd. destruct Hi as [[Hnd Honce Hb] Hh Ho _ _ _ _ _]. specialize (Ho Hd).
  unfold Publish. rewrite Hc, Type_stamp.
  destruct (deliver_spec (bufferSize (bus w)) (stamp now e) (subs_of (bus w) (Type_ e)) (chans w) (calls w))
    as (cs1 & -> & Hl1 & Hcs1); [..|cbn].
  { intros s c Hs Hc'. by destruct (Hh (Some (Type_ e)) s c Hs Hc'). }
  { intros c Hc'. by apply (Ho (Some (Type_ e))). } { apply (Hnd (Some (Type_ e))). }
  destruct (deliver_spec (bufferSize (bus w)) (stamp now e) (allSubs (bus w)) cs1
    (calls w ++ map (fun h => (h, stamp now e)) (handlers (subs_of (bus w) (Type_ e))))) as (cs2 & -> & Hl2 & Hcs2); [..|cbn].
  { intros s c Hs Hc'. by destruct (Hh None s c Hs Hc'). }
  { intros c Hc'. destruct (Ho None c Hc') as (ch & Hch & Hop). eexists. rewrite Hcs1, Hch. split; [done|].
    destruct (bool_decide _); [by rewrite push_open|done]. }
  { apply (Hnd None). }
  exists cs2. rewrite map_app, app_assoc. split; [done|]. split; [lia|]. intros i. rewrite Hcs2, Hcs1. unfold listens.
  assert (E : ~ (i ∈ chs (bus w) (Some (Type_ e)) /\ i ∈ chs (bus w) None)) by (intros [H1 H2]; by specialize (Honce _ _ _ H1 H2)).
  unfold chs in *. cbn [subs_at] in *. repeat case_bool_decide; cbn; destruct (chans w !! i); cbn; try done; tauto.
Qed.

(** ** The invariant *)

Lemma bus_inv_init size : bus_inv (new_world (any:=any) size).
Proof.
  split; cbn; try done.
  - split; [intros [t|]; cbn; constructor|..].
    + intros [t|] k c H; by apply not_elem_of_nil in H.
    + intros [t|] c H; by apply not_elem_of_nil in H.
  - intros [t|] s c H; by apply not_elem_of_nil in H.
  - intros _ [t|] c H; by apply not_elem_of_nil in H.
  - destruct (size <? 1) eqn:E; bool_to_prop; lia.
Qed.

(** Steps that change neither the subscriptions nor which channels are open. *)
Lemma bus_inv_frame w w' : bus_inv w ->
  (forall k, subs_at (bus w') k = subs_at (bus w) k) -> subIDSeq (bus w') = subIDSeq (bus w) ->
  bufferSize (bus w') = bufferSize (bus w) -> length (chans w') = length (chans w) ->
  (forall c, is_open (chans w) c -> is_open (chans w') c) ->
  wg (bus w') = (length (pending w') + finishing w')%nat ->
  (done_ w' = false -> done_ w = false) ->
  (closing w' = true -> closed (bus w') = true /\ done_ w' = false) ->
  (done_ w' = true -> closed (bus w') = true) -> bus_inv w'.
Proof.
  intros [H1 H2 H3 H4 H5 H6 H7 H8] Es Eq Eb El Eo Ew Hd Hc Hdc.
  split; [| | |by rewrite Eq|done|by rewrite Eb|done|done].
  - eapply placed_sub; [rewrite El; exact H1|]. intros k. unfold chs. by rewrite Es.
  - intros k s c. rewrite Es. apply H2.
  - intros Hf k c. unfold chs. rewrite Es. intros Hin. by eapply Eo, H3; [apply Hd|].
Qed.

Lemma is_open_lookup cs cs' :
  (forall i ch, cs !! i = Some ch -> copen ch = true -> exists ch', cs' !! i = Some ch' /\ copen ch' = true) ->
  forall c, is_open cs c -> is_open cs' c.
Proof. intros H c (ch & Hc & Ho). by apply (H c ch). Qed.

Lemma Publish_inv now e w w' r : bus_inv w -> Publish now e w = Some (w', r) ->
  bus_inv w' /\ bus w' = bus w /\ pending w' = pending w /\ finishing w' = finishing w /\ closing w' = closing w /\
  done_ w' = done_ w /\ r = closed (bus w) /\ length (chans w') = length (chans w).
Proof.
  intros Hi Hp. destruct (closed (bus w)) eqn:Ec.
  - unfold Publish in Hp. rewrite Ec in Hp. injection Hp as <- <-. split_and!; done.
  - destruct (Publish_spec now e w Hi Ec) as (cs & E & Hl & Hcs). rewrite E in Hp. injection Hp as <- <-. cbn.
    split; [|split_and!; done]. destruct Hi as [H1 H2 H3 H4 H5 H6 H7 H8].
    eapply (bus_inv_frame w); cbn; try done. apply is_open_lookup.
    intros i ch Hch Ho. rewrite Hcs, Hch. eexists. split; [done|]. destruct (listens _ _ _); [by rewrite push_open|done].
Qed.

(** A subscription is dropped from one of the lists, and channels that are no
    longer subscribed may be closed. *)
Lemma bus_inv_shrink w w' : bus_inv w ->
  (forall k, sublist (subs_at (bus w') k) (subs_at (bus w) k)) ->
  subIDSeq (bus w') = subIDSeq (bus w) -> bufferSize (bus w') = bufferSize (bus w) -> wg (bus w') = wg (bus w) ->
  closed (bus w') = closed (bus w) -> pending w' = pending w -> finishing w' = finishing w -> closing w' = closing w ->
  done_ w' = done_ w -> length (chans w') = length (chans w) ->
  (forall k c, c ∈ chs (bus w') k -> is_open (chans w) c -> is_open (chans w') c) -> bus_inv w'.
Proof.
  intros [H1 H2 H3 H4 H5 H6 H7 H8] Es Eq Eb Ew Ec Ep Ef Ecl Ed El Eo.
  assert (Hs : forall k, sublist (chs (bus w') k) (chs (bus w) k)) by (intros k; by apply sublist_omap).
  split; rewrite ?Eq, ?Eb, ?Ew, ?Ec, ?Ep, ?Ef, ?Ecl, ?Ed, ?El; try done.
  - by eapply placed_sub.
  - intros k s c Hin. apply (H2 k). eapply elem_of_submseteq; [exact Hin|by apply sublist_submseteq].
  - intros Hf k c Hin. apply (Eo k c Hin), (H3 Hf k). eapply elem_of_submseteq; [exact Hin|by apply sublist_submseteq].
Qed.

Lemma cut_sublist p l s r : cut p l = Some (s, r) -> sublist r l.
Proof. intros (_ & l1 & l2 & -> & ->)%cut_spec. apply sublist_app; [done|]. by constructor. Qed.

Lemma subs_at_shrink b t p s l : cut p (subs_of b t) = Some (s, l) ->
  forall k, sublist (subs_at (with_subscribers b (<[t := l]> (subscribers b))) k) (subs_at b k).
Proof.
  intros Hc k. rewrite subs_at_insert. case_bool_decide as E; [|done]. subst k. by eapply cut_sublist.
Qed.

Lemma close_chan_spec cs c cs' : close_chan cs (Some c) = Some cs' ->
  length cs' = length cs /\ (forall d, d <> c -> cs' !! d = cs !! d) /\
  exists ch, cs !! c = Some ch /\ copen ch = true /\ cs' !! c = Some (mkChan (buf ch) false).
Proof.
  unfold close_chan. cbn. destruct (cs !! c) as [ch|] eqn:Hc; cbn; [|done]. destruct (copen ch) eqn:Eo; [|done].
  intros [= <-]. rewrite length_insert. split; [done|]. split; [intros d Hd; by apply list_lookup_insert_ne|].
  exists ch. split_and!; [done..|]. apply list_lookup_insert_eq. by eapply lookup_lt_Some.
Qed.

(** A channel cut out of its list is in no list any more. *)
Lemma cut_chs_gone f n k0 l1 l2 s c : placed f n -> f k0 = omap sch (l1 ++ s :: l2) -> sch s = Some c ->
  forall k d, d ∈ (if bool_decide (k = k0) then omap sch (l1 ++ l2) else f k) -> d <> c.
Proof.
  intros [H1 H2 H3] E Es k d Hd ->.
  assert (Hc : c ∈ f k0) by (rewrite E, omap_app; cbn; rewrite Es; apply elem_of_app; right; apply elem_of_cons; by left).
  case_bool_decide as Ek.
  - subst k. specialize (H1 k0). rewrite E, omap_app in H1. cbn in H1. rewrite Es in H1.
    apply NoDup_app in H1 as (_ & Hx & Hy). apply NoDup_cons in Hy as [Hy _]. rewrite omap_app in Hd.
    apply elem_of_app in Hd as [Hd|Hd]; [|done]. apply (Hx _ Hd), elem_of_cons. by left.
  - by specialize (H2 _ _ _ Hd Hc).
Qed.

Lemma Unsubscribe_inv t c w w' : bus_inv w -> Unsubscribe t c w = Some w' -> bus_inv w'.
Proof.
  intros Hi Hu. pose proof (bi_placed w Hi) as Hp. unfold Unsubscribe in Hu.
  destruct (cut _ (subs_of (bus w) t)) as [[s l]|] eqn:Ec1; [|destruct (cut _ (allSubs (bus w))) as [[s l]|] eqn:Ec2; [|by injection Hu as <-]].
  - destruct (sch s) as [d|] eqn:Es; [|done]. destruct (close_chan _ _) as [cs|] eqn:Ecl; [|done]. injection Hu as <-.
    apply close_chan_spec in Ecl as (Hl & Hne & _).
    apply (bus_inv_shrink w); try done; [by eapply subs_at_shrink|]. intros k i Hin. cbn.
    apply cut_spec in Ec1 as (_ & l1 & l2 & E1 & ->). unfold is_open. rewrite Hne; [done|].
    apply (cut_chs_gone _ _ (Some t) l1 l2 s d Hp) with (k := k); [by rewrite <- E1|done|].
    revert Hin. unfold chs. cbn. rewrite subs_at_insert. by case_bool_decide.
  - destruct (sch s) as [d|] eqn:Es; [|done]. destruct (close_chan _ _) as [cs|] eqn:Ecl; [|done]. injection Hu as <-.
    apply close_chan_spec in Ecl as (Hl & Hne & _).
    apply (bus_inv_shrink w); try done; [intros [u|]; cbn; [done|by eapply cut_sublist]|]. intros k i Hin. cbn.
    apply cut_spec in Ec2 as (_ & l1 & l2 & E1 & ->). unfold is_open. rewrite Hne; [done|].
    apply (cut_chs_gone _ _ None l1 l2 s d Hp) with (k := k); [unfold chs; cbn; by rewrite <- E1|done|].
    revert Hin. unfold chs. destruct k as [u|]; by case_bool_decide.
Qed.

(** A new channel, subscribed under [k0]. *)
Lemma bus_inv_subscribe w w' k0 c : bus_inv w -> c = length (chans w) ->
  chans w' = chans w ++ [mkChan [] true] ->
  (forall k, subs_at (bus w') k = if bool_decide (k = k0) then subs_at (bus w) k ++ [mkSub 0 (Some c) None] else subs_at (bus w) k) ->
  subIDSeq (bus w') = subIDSeq (bus w) -> bufferSize (bus w') = bufferSize (bus w) -> wg (bus w') = wg (bus w) ->
  closed (bus w') = closed (bus w) -> pending w' = pending w -> finishing w' = finishing w -> closing w' = closing w ->
  done_ w' = done_ w -> bus_inv w'.
Proof.
  intros [H1 H2 H3 H4 H5 H6 H7 H8] -> Ecs Es Eq Eb Ew Ec Ep Ef Ecl Ed.
  assert (Hch : forall k, chs (bus w') k = if bool_decide (k = k0) then chs (bus w) k ++ [length (chans w)] else chs (bus w) k).
  { intros k. unfold chs. rewrite Es. case_bool_decide; [|done]. by rewrite omap_app. }
  split; rewrite ?Eq, ?Eb, ?Ew, ?Ec, ?Ep, ?Ef, ?Ecl, ?Ed; try done.
  - rewrite Ecs, length_app. cbn. rewrite Nat.add_1_r. apply (placed_new (chs (bus w)) _ _ k0); [done|..].
    + by rewrite Hch, bool_decide_eq_true_2.
    + intros k Hk. by rewrite Hch, bool_decide_eq_false_2.
  - intros k s c. rewrite Es. case_bool_decide; [|apply H2].
    intros [Hs| ->%list_elem_of_singleton]%elem_of_app Hc; [by eapply H2|done].
  - intros Hf k c. assert (Hold : c ∈ chs (bus w) k -> is_open (chans w') c).
    { intros Hin. destruct (H3 Hf k c Hin) as (ch & Hc & Ho). exists ch. rewrite Ecs. split; [by apply lookup_app_l_Some|done]. }
    rewrite Hch. case_bool_decide; [|done]. intros [Hin| ->%list_elem_of_singleton]%elem_of_app; [by apply Hold|].
    exists (mkChan [] true). by rewrite Ecs, lookup_app_r, Nat.sub_diag by lia.
Qed.

Lemma Subscribe_inv t w : bus_inv w -> bus_inv (Subscribe t w).1.
Proof.
  intros Hi. eapply (bus_inv_subscribe w _ (Some t)); try done. intros k. cbn. rewrite subs_at_insert.
  case_bool_decide; [by subst|done].
Qed.

Lemma SubscribeAll_inv w : bus_inv w -> bus_inv (SubscribeAll w).1.
Proof. intros Hi. eapply (bus_inv_subscribe w _ None); try done. by intros [t|]. Qed.

Lemma close_subs_length subs cs cs' : close_subs subs cs = Some cs' -> length cs' = length cs.
Proof.
  revert cs. induction subs as [|s subs IH]; intros cs; cbn; [by intros [= ->]|]. destruct (sch s) as [c|]; [|apply IH].
  cbn. destruct (cs !! c) as [ch|]; cbn; [|done]. destruct (copen ch); [|done]. cbn. intros ->%IH. apply length_insert.
Qed.

Lemma close_subs_keeps subs cs cs' i : close_subs subs cs = Some cs' -> buf <$> cs' !! i = buf <$> cs !! i.
Proof.
  revert cs. induction subs as [|s subs IH]; intros cs; cbn; [by intros [= ->]|]. destruct (sch s) as [c|]; [|apply IH].
  cbn. destruct (cs !! c) as [ch|] eqn:Ec; cbn; [|done]. destruct (copen ch); [|done]. cbn. intros ->%IH.
  destruct (decide (i = c)) as [->|Hne]; [|by rewrite list_lookup_insert_ne].
  by rewrite list_lookup_insert_eq, Ec by (by eapply lookup_lt_Some).
Qed.

(** Distinct open channels can all be closed. *)
Lemma close_subs_total subs cs : NoDup (omap sch subs) -> (forall c, c ∈ omap sch subs -> is_open cs c) ->
  exists cs', close_subs subs cs = Some cs' /\ forall c, c ∈ omap sch subs -> copen <$> cs' !! c = Some false.
Proof.
  revert cs. induction subs as [|s subs IH]; intros cs Hn Ho; cbn; [exists cs; split; [done|by intros c ?%not_elem_of_nil]|].
  cbn in Hn, Ho. destruct (sch s) as [c|]; [|by apply IH]. cbn in Hn, Ho |- *. apply NoDup_cons in Hn as [Hc Hn].
  destruct (Ho c) as (ch & Hch & Hop); [apply elem_of_cons; by left|]. rewrite Hch. cbn. rewrite Hop. cbn.
  set (cs1 := <[c := mkChan (buf ch) false]> cs).
  assert (Hne : forall d, d <> c -> cs1 !! d = cs !! d) by (intros d Hd; by apply list_lookup_insert_ne).
  destruct (IH cs1 Hn) as (cs' & Hcs & Hcl).
  { intros d Hd. unfold is_open. rewrite Hne by congruence. apply Ho, elem_of_cons. by right. }
  exists cs'. split; [done|]. intros d [->|Hd]%elem_of_cons; [|by apply Hcl].
  assert (Hkeep : forall subs cs cs', c ∉ omap sch subs -> close_subs subs cs = Some cs' -> cs' !! c = cs !! c).
  { clear. induction subs as [|s subs IH]; intros cs cs'; cbn; [by intros _ [= ->]|]. destruct (sch s) as [d|]; [|apply IH].
    intros [Hcd Hni]%not_elem_of_cons. cbn. destruct (cs !! d) as [ch|]; cbn; [|done]. destruct (copen ch); [|done]. cbn.
    intros ->%IH; [|done]. by apply list_lookup_insert_ne. }
  rewrite (Hkeep _ _ _ Hc Hcs). unfold cs1. by rewrite list_lookup_insert_eq by (by eapply lookup_lt_Some).
Qed.

Lemma SubscribeFunc_inv t h w : bus_inv w -> bus_inv (SubscribeFunc t h w).1.
Proof.
  intros [H1 H2 H3 H4 H5 H6 H7 H8].
  assert (Es : forall k, subs_at (bus (SubscribeFunc t h w).1) k =
    if bool_decide (k = Some t) then subs_at (bus w) k ++ [mkSub (subIDSeq (bus w) + 1) None h] else subs_at (bus w) k).
  { intros k. pose proof (subs_at_insert (bus w) t (subs_of (bus w) t ++ [mkSub (subIDSeq (bus w) + 1) None h]) k) as E.
    destruct k as [u|]; cbn in *; [|done]. unfold subs_of in *. cbn in *. rewrite E. case_bool_decide as Eu; [by injection Eu as ->|done]. }
  assert (Hch : forall k, chs (bus (SubscribeFunc t h w).1) k = chs (bus w) k).
  { intros k. unfold chs. rewrite Es. case_bool_decide; [|done]. by rewrite omap_app, app_nil_r. }
  split; try done.
  - eapply placed_sub; [exact H1|]. intros k. by rewrite Hch.
  - intros k s c. rewrite Es. case_bool_decide; [|apply H2].
    intros [Hs| ->%list_elem_of_singleton]%elem_of_app Hc; [by eapply H2|done].
  - intros Hf k c. rewrite Hch. by apply H3.
  - cbn. lia.
Qed.

Lemma async_publish_inv now i w w' r : bus_inv w -> async_publish now i w = Some (w', r) ->
  bus_inv w' /\ exists e, pending w !! i = Some e /\ exists w1, Publish now e w = Some (w1, r) /\
    w' = mkWorld (bus w1) (chans w1) (calls w1) (delete i (pending w1)) (S (finishing w1)) (closing w1) (done_ w1).
Proof.
  unfold async_publish. intros Hi. destruct (pending w !! i) as [e|] eqn:Ei; cbn; [|done].
  destruct (Publish now e w) as [[w1 r1]|] eqn:Ep; cbn; [|done]. intros [= <- <-].
  pose proof (Publish_inv _ _ _ _ _ Hi Ep) as (Hi1 & Eb & Epd & Ef & Ecl & Ed & Er & El).
  split; [|exists e; split; [done|by exists w1]]. pose proof (bi_wg w1 Hi1) as Hwg. apply (bus_inv_frame w1); try done; cbn.
  - rewrite Hwg, Epd. pose proof (lookup_lt_Some _ _ _ Ei). rewrite length_delete by (by rewrite Ei). lia.
  - apply (bi_closing w1 Hi1).
  - apply (bi_done w1 Hi1).
Qed.

Lemma unsubscribe_func_inv t id w : bus_inv w -> bus_inv (unsubscribe_func t id w).
Proof.
  unfold unsubscribe_func. intros Hi. destruct (cut _ _) as [[s l]|] eqn:Ec; [|done].
  apply (bus_inv_shrink w); try done. by eapply subs_at_shrink.
Qed.

Lemma Close_end_inv visit w w' : bus_inv w -> closing w = true -> Close_end visit w = Some w' -> bus_inv w'.
Proof.
  intros Hi Hcl. unfold Close_end. destruct (close_subs _ _) as [cs|] eqn:Ec; [|done]. intros [= <-].
  pose proof (close_subs_length _ _ _ Ec) as El. destruct (bi_closing w Hi Hcl) as [Hc Hd].
  destruct Hi as [H1 H2 H3 H4 H5 H6 H7 H8]. split; cbn; try done. by rewrite El.
Qed.

Lemma receive_inv c w w' e : bus_inv w -> receive c w = Some (w', e) -> bus_inv w' /\ bus w' = bus w /\
  exists ch, chans w !! c = Some ch /\ exists l, buf ch = e :: l /\ chans w' = <[c := mkChan l (copen ch)]> (chans w).
Proof.
  unfold receive. intros Hi. destruct (chans w !! c) as [ch|] eqn:Ec; cbn; [|done]. destruct (buf ch) as [|x l] eqn:Eb; [done|].
  intros [= <- <-]. split; [|split; [done|]; exists ch; split; [done|]; by exists l].
  apply (bus_inv_frame w); cbn; try done; [by rewrite length_insert|..|apply (bi_wg w Hi)|apply (bi_closing w Hi)|apply (bi_done w Hi)].
  apply is_open_lookup. intros i ch' Hi' Ho. destruct (decide (i = c)) as [->|Hne].
  - rewrite list_lookup_insert_eq by (by eapply lookup_lt_Some). eexists. split; [done|]. cbn. congruence.
  - rewrite list_lookup_insert_ne by done. eauto.
Qed.

Lemma async_done_inv w w' : bus_inv w -> async_done w = Some w' -> bus_inv w'.
Proof.
  unfold async_done. intros Hi. destruct (finishing w) as [|n] eqn:Ef; [done|]. intros [= <-].
  apply (bus_inv_frame w); cbn; try done; [rewrite (bi_wg w Hi), Ef; lia|apply (bi_closing w Hi)|apply (bi_done w Hi)].
Qed.

Lemma bus_step_inv w l w' : bus_inv w -> bus_step w l w' -> bus_inv w'.
Proof.
  intros Hi Hs. destruct Hs as [now e w w' r Hp|e w|now i e w w' r He Hp|w w' Hd|t w|w|t h w|t id w Hid|t c w w' Hu|w|visit w w' Hcl Hwg Hv Hc|c w w' e Hr].
  - by apply (Publish_inv _ _ _ _ _ Hi) in Hp as [? _].
  - apply (bus_inv_frame w); cbn; try done; [rewrite (bi_wg w Hi), length_app; cbn; lia|apply (bi_closing w Hi)|apply (bi_done w Hi)].
  - by apply (async_publish_inv _ _ _ _ _ Hi) in Hp as [? _].
  - by eapply async_done_inv.
  - by apply Subscribe_inv.
  - by apply SubscribeAll_inv.
  - by apply SubscribeFunc_inv.
  - by apply unsubscribe_func_inv.
  - by eapply Unsubscribe_inv.
  - unfold Close_begin. destruct (closed (bus w)) eqn:Ec; [done|]. pose proof (done_open w Hi Ec).
    apply (bus_inv_frame w); cbn; try done; [apply (bi_wg w Hi)].
  - by eapply Close_end_inv.
  - by apply (receive_inv _ _ _ _ Hi) in Hr as [? _].
Qed.

Lemma bus_run_inv w ls w' : bus_inv w -> bus_run w ls w' -> bus_inv w'.
Proof. intros Hi Hr. induction Hr; eauto using bus_step_inv. Qed.

Lemma reach_inv size ls w : bus_run (new_world size) ls w -> bus_inv w.
Proof. apply bus_run_inv, bus_inv_init. Qed.

(** ** What a receiver sees *)

(** Channel [c] subscribes to [t] and to nothing else. *)
Definition only_at b (t : string) (c : nat) : Prop := forall k, c ∈ chs b k -> k = Some t.

(** One step, seen from the channel [c] of a subscription to [t]. *)
Record advances (t : string) (c : nat) (l : label any) w w' (ch ch' : chan any) : Prop := {
  ad_lookup : chans w' !! c = Some ch';
  ad_only : only_at (bus w') t c;
  ad_cap : bufferSize (bus w') = bufferSize (bus w);
  ad_sub : sublist (received c [l] ++ buf ch') (buf ch ++ published t [l]);
  ad_stays : c ∈ chs (bus w) (Some t) -> l <> LUnsubscribed (Some c) -> c ∈ chs (bus w') (Some t);
  ad_all : c ∈ chs (bus w) (Some t) -> zlen (buf ch) + zlen (published t [l]) <= bufferSize (bus w) ->
    received c [l] ++ buf ch' = buf ch ++ published t [l]
}.

(** Steps that leave the buffer alone, and neither publish nor receive. *)
Lemma quiet t c l w w' ch ch' : chans w' !! c = Some ch' -> buf ch' = buf ch -> received c [l] = [] -> published t [l] = [] ->
  bufferSize (bus w') = bufferSize (bus w) -> only_at (bus w) t c ->
  (forall k, c ∈ chs (bus w') k -> c ∈ chs (bus w) k) ->
  (c ∈ chs (bus w) (Some t) -> l <> LUnsubscribed (Some c) -> c ∈ chs (bus w') (Some t)) -> advances t c l w w' ch ch'.
Proof.
  intros Hl Hb Hr Hp Hcap Ho Hin Hst. split; try done.
  - intros k Hk. by apply Ho, Hin.
  - by rewrite Hr, Hp, Hb, app_nil_r.
  - by rewrite Hr, Hp, Hb, app_nil_r.
Qed.

Lemma chs_frame b b' : (forall k, subs_at b' k = subs_at b k) -> forall k, chs b' k = chs b k.
Proof. intros E k. unfold chs. by rewrite E. Qed.

Lemma published_advances now e w w' r t c ch other : bus_inv w -> Publish now e w = Some (w', r) ->
  received c [other] = [] -> published t [other] = [] -> other <> LUnsubscribed (Some c) ->
  chans w !! c = Some ch -> only_at (bus w) t c -> exists ch', advances t c (published_label now e r other) w w' ch ch'.
Proof.
  intros Hi Hp Hr0 Hp0 Hne Hc Ho. destruct (closed (bus w)) eqn:Ec.
  - unfold Publish in Hp. rewrite Ec in Hp. injection Hp as <- <-. exists ch. by apply quiet.
  - destruct (Publish_spec now e w Hi Ec) as (cs & E & Hl & Hcs). rewrite E in Hp. injection Hp as <- <-. cbn [published_label].
    set (f := if listens (bus w) (Type_ e) c then push (bufferSize (bus w)) (stamp now e) else id). exists (f ch).
    assert (Hln : listens (bus w) (Type_ e) c = bool_decide (Type_ e = t) && bool_decide (c ∈ chs (bus w) (Some t))).
    { unfold listens. rewrite (bool_decide_eq_false_2 (c ∈ chs (bus w) None)) by (by intros H%Ho).
      rewrite orb_false_r. repeat case_bool_decide; try done; subst; try done; cbn.
      - exfalso. apply Ho in H. congruence.
      - exfalso. apply Ho in H. congruence. }
    assert (Epub : published t [LPublished (stamp now e)] = if bool_decide (Type_ e = t) then [stamp now e] else []).
    { cbn. rewrite Type_stamp. by case_bool_decide. }
    split; cbn [bus chans]; [by rewrite Hcs, Hc|done|done|..|by intros ? _|]; rewrite Epub; cbn [received omap list_omap app]; unfold f; rewrite Hln.
    + do 2 case_bool_decide; cbn; rewrite ?app_nil_r; try done; [|by apply sublist_inserts_r].
      unfold push. destruct (_ <? _); [done|by apply sublist_inserts_r].
    + intros Hin Hroom. rewrite (bool_decide_eq_true_2 _ Hin), andb_true_r. case_bool_decide; cbn; [|by rewrite app_nil_r].
      unfold push. rewrite zlen_cons, zlen_nil in Hroom. destruct (_ <? _) eqn:El; [done|]. bool_to_prop. lia.
Qed.

(** Cutting out another subscription keeps the channel where it is. *)
Lemma cut_keeps p l s r c : cut p l = Some (s, r) -> sch s <> Some c -> c ∈ omap sch l -> c ∈ omap sch r.
Proof.
  intros (_ & l1 & l2 & -> & ->)%cut_spec Hs. rewrite !omap_app, !elem_of_app. cbn.
  destruct (sch s) as [d|]; [|done]. rewrite elem_of_cons. intros [?|[->|?]]; naive_solver.
Qed.

Lemma shrink_keeps b t0 p s l c k : cut p (subs_of b t0) = Some (s, l) -> sch s <> Some c ->
  c ∈ chs b k -> c ∈ chs (with_subscribers b (<[t0 := l]> (subscribers b))) k.
Proof.
  intros Hcut Hs. unfold chs. rewrite subs_at_insert. case_bool_decide as E; [|done]. subst k. by eapply cut_keeps.
Qed.

Lemma shrink_sub b t0 p s l c k : cut p (subs_of b t0) = Some (s, l) ->
  c ∈ chs (with_subscribers b (<[t0 := l]> (subscribers b))) k -> c ∈ chs b k.
Proof.
  intros Hcut Hin. eapply elem_of_submseteq; [exact Hin|]. apply sublist_submseteq, sublist_omap. by eapply subs_at_shrink.
Qed.

Lemma close_chan_buf cs d cs' c ch : close_chan cs d = Some cs' -> cs !! c = Some ch ->
  exists ch', cs' !! c = Some ch' /\ buf ch' = buf ch.
Proof.
  intros H Hc. destruct d as [d|]; [|done]. apply close_chan_spec in H as (_ & Hne & ch0 & H0 & _ & H1).
  destruct (decide (c = d)) as [->|Hd]; [|rewrite Hne by done; eauto].
  exists (mkChan (buf ch0) false). split; [done|]. cbn. congruence.
Qed.

Lemma Unsubscribe_advances t0 d w w' t c ch : Unsubscribe t0 d w = Some w' -> chans w !! c = Some ch -> only_at (bus w) t c ->
  exists ch', advances t c (LUnsubscribed d) w w' ch ch'.
Proof.
  unfold Unsubscribe. intros Hu Hc Ho.
  destruct (cut _ (subs_of (bus w) t0)) as [[s l]|] eqn:E1; [|destruct (cut _ (allSubs (bus w))) as [[s l]|] eqn:E2].
  - destruct (close_chan _ _) as [cs|] eqn:Ec; [|done]. injection Hu as <-.
    destruct (close_chan_buf _ _ _ _ _ Ec Hc) as (ch' & Hc' & Hb). exists ch'. apply quiet; try done; cbn [bus with_bus].
    + intros k. by eapply shrink_sub.
    + intros Hin Hne. eapply shrink_keeps; [exact E1| |done]. apply cut_spec in E1 as [Hp _]. bool_to_prop. congruence.
  - destruct (close_chan _ _) as [cs|] eqn:Ec; [|done]. injection Hu as <-.
    destruct (close_chan_buf _ _ _ _ _ Ec Hc) as (ch' & Hc' & Hb). exists ch'. apply quiet; try done; cbn [bus with_bus].
    intros [u|]; [done|]. cbn. intros Hin. eapply elem_of_submseteq; [exact Hin|].
    apply sublist_submseteq, sublist_omap. by eapply cut_sublist.
  - injection Hu as <-. exists ch. by apply quiet.
Qed.

Lemma subscribe_advances w w' k0 t c ch : bus_inv w -> chans w' = chans w ++ [mkChan [] true] ->
  (forall k, chs (bus w') k = if bool_decide (k = k0) then chs (bus w) k ++ [length (chans w)] else chs (bus w) k) ->
  bufferSize (bus w') = bufferSize (bus w) -> chans w !! c = Some ch -> only_at (bus w) t c ->
  advances t c LCall w w' ch ch.
Proof.
  intros Hi Ec Hch Eb Hc Ho. pose proof (lookup_lt_Some _ _ _ Hc) as Hlt. apply quiet; try done.
  - rewrite Ec. by apply lookup_app_l_Some.
  - intros k. rewrite Hch. case_bool_decide; [|done]. intros [?|He%list_elem_of_singleton]%elem_of_app; [done|lia].
  - intros Hin _. rewrite Hch. case_bool_decide; [|done]. apply elem_of_app. by left.
Qed.

Lemma receive_advances d w w' e t c ch : bus_inv w -> receive d w = Some (w', e) -> chans w !! c = Some ch -> only_at (bus w) t c ->
  exists ch', advances t c (LReceived d e) w w' ch ch'.
Proof.
  intros Hi Hr Hc Ho. destruct (receive_inv _ _ _ _ Hi Hr) as (_ & Eb & ch0 & H0 & l & Hl & Hcs).
  destruct (Nat.eqb_spec d c) as [->|Hne].
  - assert (ch0 = ch) as -> by congruence. exists (mkChan l (copen ch)).
    assert (Hrc : received c [LReceived c e] = [e]) by (cbn; by rewrite Nat.eqb_refl).
    split; rewrite ?Eb, ?Hrc; try done; [|cbn; by rewrite Hl, app_nil_r|intros _ _; cbn; by rewrite Hl, app_nil_r].
    rewrite Hcs. apply list_lookup_insert_eq. by eapply lookup_lt_Some.
  - exists ch. apply quiet; rewrite ?Eb; try done; [by rewrite Hcs, list_lookup_insert_ne|].
    cbn. apply Nat.eqb_neq in Hne. by rewrite Hne.
Qed.

Lemma step_advances w l w' t c ch : bus_inv w -> bus_step w l w' -> chans w !! c = Some ch -> only_at (bus w) t c ->
  exists ch', advances t c l w w' ch ch'.
Proof.
  intros Hi Hs Hc Ho.
  destruct Hs as [now e w w' r Hp|e w|now i e w w' r He Hp|w w' Hd|t0 w|w|t0 h w|t0 id w Hid|t0 d w w' Hu|w|visit w w' Hcl Hwg Hv Hce|d w w' e Hr].
  - by eapply published_advances.
  - exists ch. apply quiet; try done.
  - destruct (async_publish_inv _ _ _ _ _ Hi Hp) as (_ & e' & He' & w1 & Hp1 & ->). assert (e' = e) as -> by congruence.
    destruct (published_advances now e w w1 r t c ch LInternal) as (ch' & [A1 A2 A3 A4 A5 A6]); try done.
    exists ch'. by split.
  - unfold async_done in Hd. destruct (finishing w); [done|]. injection Hd as <-. exists ch. apply quiet; try done.
  - exists ch. apply (subscribe_advances w _ (Some t0)); try done. intros k. unfold chs. cbn. rewrite subs_at_insert.
    case_bool_decide as Ek; [subst k; by rewrite omap_app|done].
  - exists ch. apply (subscribe_advances w _ None); try done. intros [u|]; [done|]. unfold chs. cbn. by rewrite omap_app.
  - exists ch. assert (E : forall k, chs (bus (SubscribeFunc t0 h w).1) k = chs (bus w) k).
    { intros k. pose proof (subs_at_insert (bus w) t0 (subs_of (bus w) t0 ++ [mkSub (subIDSeq (bus w) + 1) None h]) k) as E.
      unfold chs. destruct k as [u|]; cbn in *; [|done]. unfold subs_of in *. cbn in *. rewrite E.
      case_bool_decide as Eu; [injection Eu as ->; by rewrite omap_app, app_nil_r|done]. }
    apply quiet; try done; [intros k; by rewrite E|intros ? _; by rewrite E].
  - exists ch. unfold unsubscribe_func. destruct (cut _ _) as [[s l]|] eqn:Ec; [|by apply quiet]. apply quiet; try done; cbn [bus with_bus].
    + intros k. by eapply shrink_sub.
    + intros Hin _. eapply shrink_keeps; [exact Ec| |done]. intros Hsc. apply cut_spec in Ec as (Hp & l1 & l2 & E1 & _).
      destruct (bi_handler w Hi (Some t0) s c) as [_ H0]; [cbn; rewrite E1; apply elem_of_app; right; apply elem_of_cons; by left|done|].
      bool_to_prop. lia.
  - by eapply Unsubscribe_advances.
  - exists ch. unfold Close_begin. destruct (closed (bus w)); apply quiet; try done.
  - unfold Close_end in Hce. destruct (close_subs _ _) as [cs|] eqn:Ecs; [|done]. injection Hce as <-.
    pose proof (close_subs_keeps _ _ _ c Ecs) as Hk. rewrite Hc in Hk. destruct (cs !! c) as [ch'|] eqn:Ec; [|done].
    injection Hk as Hk. exists ch'. by apply quiet.
  - by eapply receive_advances.
Qed.

Lemma received_cons c l ls : received (any:=any) c (l :: ls) = received c [l] ++ received c ls.
Proof. unfold received. cbn. by destruct l; try done; destruct (_ =? _)%nat. Qed.
Lemma published_cons t l ls : published (any:=any) t (l :: ls) = published t [l] ++ published t ls.
Proof. unfold published. cbn. by destruct l; try done; case_bool_decide. Qed.

Lemma run_advances w ls w' t c ch : bus_inv w -> bus_run w ls w' -> chans w !! c = Some ch -> only_at (bus w) t c ->
  exists ch', chans w' !! c = Some ch' /\
    sublist (received c ls ++ buf ch') (buf ch ++ published t ls) /\
    (c ∈ chs (bus w) (Some t) -> LUnsubscribed (Some c) ∉ ls ->
     zlen (buf ch) + zlen (published t ls) <= bufferSize (bus w) -> received c ls ++ buf ch' = buf ch ++ published t ls).
Proof.
  intros Hi Hr. revert ch Hi. induction Hr as [w|w l w1 ls w2 Hs Hr IH]; intros ch Hi Hc Ho.
  { exists ch. cbn. by rewrite app_nil_r. }
  destruct (step_advances _ _ _ _ _ _ Hi Hs Hc Ho) as (ch1 & [A1 A2 A3 A4 A5 A6]).
  destruct (IH ch1 (bus_step_inv _ _ _ Hi Hs) A1 A2) as (ch2 & Hc2 & Hsub & Hall). exists ch2. split; [done|].
  rewrite received_cons, published_cons. split.
  - rewrite <- app_assoc. etrans; [apply sublist_app; [reflexivity|exact Hsub]|]. rewrite !app_assoc. by apply sublist_app.
  - intros Hin Hnu Hroom. apply not_elem_of_cons in Hnu as [Hne Hnu]. rewrite zlen_app in Hroom.
    pose proof (zlen_nonneg (published t ls)) as Hpos. specialize (A6 Hin ltac:(lia)).
    assert (Hlen : zlen (buf ch1) <= zlen (buf ch) + zlen (published t [l])).
    { rewrite <- zlen_app, <- A6, zlen_app. pose proof (zlen_nonneg (received c [l])). lia. }
    rewrite <- app_assoc, Hall, app_assoc, A6, <- app_assoc; [done|by apply A5|done|rewrite A3; lia].
Qed.

(** ** Shutdown *)

Definition subscribed b (c : nat) : Prop := exists k, c ∈ chs b k.

Lemma omap_bind (visit : list string) b : omap sch (visit ≫= subs_of b) = visit ≫= fun t => chs b (Some t).
Proof. induction visit as [|t visit IH]; [done|]. cbn. by rewrite omap_app, IH. Qed.

Lemma visited visit b c : visit ≡ₚ elements (dom (subscribers b)) ->
  c ∈ omap sch ((visit ≫= subs_of b) ++ allSubs b) <-> subscribed b c.
Proof.
  intros Hv. rewrite omap_app, omap_bind, elem_of_app, list_elem_of_bind. split.
  - intros [(t & Hc & _)|Hc]; [by exists (Some t)|by exists None].
  - intros [[t|] Hc]; [|by right]. left. exists t. split; [done|]. rewrite Hv, elem_of_elements, elem_of_dom.
    unfold chs in Hc. cbn in Hc. unfold subs_of in Hc. destruct (subscribers b !! t); [done|]. by apply not_elem_of_nil in Hc.
Qed.

Lemma Close_end_total visit w : bus_inv w -> done_ w = false -> visit ≡ₚ elements (dom (subscribers (bus w))) ->
  exists w', Close_end visit w = Some w' /\ forall c, subscribed (bus w) c -> copen <$> chans w' !! c = Some false.
Proof.
  intros Hi Hd Hv. unfold Close_end.
  destruct (close_subs_total ((visit ≫= subs_of (bus w)) ++ allSubs (bus w)) (chans w)) as (cs & -> & Hcl).
  - rewrite omap_app, omap_bind. eapply placed_visit; [apply (bi_placed w Hi)|]. rewrite Hv. apply NoDup_elements.
  - intros c [k Hk]%(visited _ _ _ Hv). by apply (bi_open w Hi Hd k).
  - eexists. split; [done|]. intros c Hc. by apply Hcl, (visited _ _ _ Hv).
Qed.

Lemma cut_chan_some c l s r : cut (fun s => bool_decide (sch s = c)) l = Some (s, r) -> sch s = c /\ s ∈ l.
Proof.
  intros (Hp & l1 & l2 & -> & _)%cut_spec. bool_to_prop. split; [done|]. apply elem_of_app. right. apply elem_of_cons. by left.
Qed.

Lemma cut_chan_none c l : cut (fun s => bool_decide (sch s = Some c)) l = None -> c ∉ omap sch l.
Proof.
  intros H%cut_none (s & Hs & Hc)%list_elem_of_omap. rewrite Forall_forall in H. specialize (H s Hs). by bool_to_prop.
Qed.

Lemma close_chan_none cs c : (c < length cs)%nat -> close_chan cs (Some c) = None <-> copen <$> cs !! c = Some false.
Proof.
  intros [ch Hc]%lookup_lt_is_Some. unfold close_chan. cbn. rewrite Hc. cbn. destruct (copen ch) eqn:E; split; congruence.
Qed.

Lemma Unsubscribe_panics w t c : bus_inv w -> Unsubscribe t (Some c) w = None <->
  (c ∈ chs (bus w) (Some t) \/ c ∈ chs (bus w) None) /\ copen <$> chans w !! c = Some false.
Proof.
  intros Hi. pose proof (pl_bound _ _ (bi_placed w Hi)) as Hb.
  assert (Hin : forall k s, s ∈ subs_at (bus w) k -> sch s = Some c -> c ∈ chs (bus w) k).
  { intros k s Hs Hc. apply list_elem_of_omap. eauto. }
  unfold Unsubscribe. destruct (cut _ (subs_of _ t)) as [[s l]|] eqn:E1; [|destruct (cut _ (allSubs _)) as [[s l]|] eqn:E2].
  - apply cut_chan_some in E1 as [Hs Hl]. pose proof (Hin (Some t) s Hl Hs) as Hc. rewrite Hs, <- close_chan_none by (by eapply Hb).
    destruct (close_chan _ _); cbn; naive_solver.
  - apply cut_chan_some in E2 as [Hs Hl]. pose proof (Hin None s Hl Hs) as Hc. rewrite Hs, <- close_chan_none by (by eapply Hb).
    destruct (close_chan _ _); cbn; naive_solver.
  - apply cut_chan_none in E1, E2. unfold chs. cbn. naive_solver.
Qed.

(** The waiting [Close]: what stays as it was, and how much is left to do. *)
Record waits w0 w : Prop := {
  wt_inv : bus_inv w; wt_closing : closing w = true;
  wt_subs : forall k, subs_at (bus w) k = subs_at (bus w0) k; wt_chans : chans w = chans w0; wt_calls : calls w = calls w0
}.
Definition remaining w : nat := 2 * length (pending w) + finishing w.

Definition shut_down w0 w : Prop :=
  done_ w = true /\ pending w = [] /\ (forall c, subscribed (bus w0) c -> copen <$> chans w !! c = Some false) /\
  (forall i, buf <$> chans w !! i = buf <$> chans w0 !! i) /\ calls w = calls w0.

Lemma waits_progress w0 w : waits w0 w -> exists w', bus_step w LInternal w'.
Proof.
  intros [Hi Hcl Hs Hc Hca]. destruct (bi_closing w Hi Hcl) as [Hclosed Hd].
  destruct (pending w) as [|e l] eqn:Ep; [destruct (finishing w) as [|n] eqn:Ef|].
  - destruct (Close_end_total (elements (dom (subscribers (bus w)))) w Hi Hd) as (w' & Hw & _); [done|].
    exists w'. eapply s_close_end; [done| |reflexivity|done]. by rewrite (bi_wg w Hi), Ep, Ef.
  - eexists. eapply s_async_done. unfold async_done. by rewrite Ef.
  - eexists. apply (s_async_publish 0 0 e w _ true); [by rewrite Ep|]. unfold async_publish. rewrite Ep. cbn.
    unfold Publish. by rewrite Hclosed.
Qed.

Lemma waits_step w0 w w' : waits w0 w -> bus_step w LInternal w' -> shut_down w0 w' \/ (waits w0 w' /\ (remaining w' < remaining w)%nat).
Proof.
  intros [Hi Hcl Hs Hc Hca] Hst. pose proof (bus_step_inv _ _ _ Hi Hst) as Hi'. destruct (bi_closing w Hi Hcl) as [Hclosed Hd].
  remember LInternal as l eqn:El.
  destruct Hst as [now e w w' r Hp|e w|now i e w w' r He Hp|w w' Hdn|t0 w|w|t0 h w|t0 id w Hid|t0 d w w' Hu|w|visit w w' Hcl' Hwg Hv Hce|d w w' e Hr];
    try done.
  - by destruct r.
  - right. destruct (async_publish_inv _ _ _ _ _ Hi Hp) as (_ & e' & He' & w1 & Hp1 & ->). unfold Publish in Hp1.
    rewrite Hclosed in Hp1. injection Hp1 as <- <-. split; [by split|]. unfold remaining. cbn.
    pose proof (lookup_lt_Some _ _ _ He). rewrite length_delete by (by rewrite He). lia.
  - right. unfold async_done in Hdn. destruct (finishing w) as [|n] eqn:Ef; [done|]. injection Hdn as <-.
    split; [by split|]. unfold remaining. cbn. lia.
  - left. destruct (Close_end_total visit w Hi Hd Hv) as (w1 & Hw1 & Hcl1). assert (w1 = w') as -> by congruence.
    unfold Close_end in Hce. destruct (close_subs _ _) as [cs|] eqn:Ec; [|done]. injection Hce as <-.
    split; [done|]. split; [|split_and!; [| |done]].
    + pose proof (bi_wg w Hi) as Hw. rewrite Hwg in Hw. cbn. destruct (pending w); [done|cbn in Hw; lia].
    + intros c [k Hk]. apply Hcl1. exists k. unfold chs in *. by rewrite Hs.
    + intros i. cbn. rewrite (close_subs_keeps _ _ _ i Ec). by rewrite Hc.
Qed.

End Facts.

(** C14: what a receiver of a channel subscribed to a type gets, in whatever way
    publishers, receivers, other subscribers and shutdown interleave: the events
    received so far followed by those in the buffer are published events of that
    type, in the order of publication, none of them twice; and all of them, as long
    as the channel is not unsubscribed and they are not more than the buffer holds. *)
Theorem event_delivery {any} size ls0 (w : world any) t ls w' :
  bus_run (new_world size) ls0 w -> bus_run (Subscribe t w).1 ls w' ->
  exists ch, chans w' !! (Subscribe t w).2 = Some ch /\
    sublist (received (Subscribe t w).2 ls ++ buf ch) (published t ls) /\
    (LUnsubscribed (Some (Subscribe t w).2) ∉ ls -> zlen (published t ls) <= bufferSize (bus w) ->
     received (Subscribe t w).2 ls ++ buf ch = published t ls).
Proof.
  intros H0 Hr. pose proof (reach_inv _ _ _ H0) as Hi. pose proof (Subscribe_inv t w Hi) as Hi1.
  assert (Hin : (Subscribe t w).2 ∈ chs (bus (Subscribe t w).1) (Some t)).
  { unfold chs. cbn. unfold subs_of. cbn. rewrite lookup_insert_eq. cbn. rewrite omap_app. apply elem_of_app. right.
    by apply list_elem_of_singleton. }
  destruct (run_advances _ _ _ t (Subscribe t w).2 (mkChan [] true) Hi1 Hr) as (ch & Hc & Hsub & Hall).
  - cbn. by rewrite lookup_app_r, Nat.sub_diag by done.
  - intros k Hk. by apply (pl_once _ _ (bi_placed _ Hi1) k (Some t) _ Hk).
  - exists ch. split; [done|]. split; [done|]. by apply Hall.
Qed.

(** A [Close] that has begun comes to its end: whatever the order in which the
    goroutines of [PublishAsync] run, while nobody starts new ones, the wait is
    over after finitely many of their steps and every subscribed channel is
    closed, without a panic.  Their events, accepted before [Close], reach nobody:
    buffers and handler calls are as they were when it began to wait. *)
Theorem close_completes {any} size ls (w : world any) :
  bus_run (new_world size) ls w -> closing w = true ->
  eventually (fun a b => bus_step a LInternal b)
    (fun w' => done_ w' = true /\ pending w' = [] /\
       (forall c, subscribed (bus w) c -> copen <$> chans w' !! c = Some false) /\
       (forall i, buf <$> chans w' !! i = buf <$> chans w !! i) /\ calls w' = calls w) w.
Proof.
  intros Hr Hcl. apply (eventually_measure _ _ (waits w) remaining).
  - intros s Hs. right. by eapply waits_progress.
  - intros s s' Hs Hst. by eapply waits_step.
  - split; try done. by eapply reach_inv.
Qed.

(** In every reachable state neither [Publish] nor the last part of [Close]
    panics; [Unsubscribe] of a channel panics exactly when that channel is still
    in a list [Close] has gone through and is closed already, so a subscriber that
    unsubscribes after [Close], as it should before, takes the process down. *)
Theorem bus_panics {any} size ls (w : world any) : bus_run (new_world size) ls w ->
  (forall now e, is_Some (Publish now e w)) /\
  (forall visit, closing w = true -> visit ≡ₚ elements (dom (subscribers (bus w))) -> is_Some (Close_end visit w)) /\
  (forall t c, Unsubscribe t (Some c) w = None <->
     (c ∈ chs (bus w) (Some t) \/ c ∈ chs (bus w) None) /\ copen <$> chans w !! c = Some false) /\
  (done_ w = false -> forall t c, is_Some (Unsubscribe t (Some c) w)).
Proof.
  intros Hr. pose proof (reach_inv _ _ _ Hr) as Hi.
  assert (Hu : forall t c, Unsubscribe t (Some c) w = None <->
     (c ∈ chs (bus w) (Some t) \/ c ∈ chs (bus w) None) /\ copen <$> chans w !! c = Some false) by (intros; by apply Unsubscribe_panics).
  split_and!; [..|done|].
  - intros now e. destruct (closed (bus w)) eqn:Ec; [unfold Publish; rewrite Ec; eauto|].
    destruct (Publish_spec now e w Hi Ec) as (cs & -> & _). eauto.
  - intros visit Hcl Hv. destruct (Close_end_total visit w Hi) as (w' & -> & _); [apply (bi_closing w Hi Hcl)|done|eauto].
  - intros Hd t c. destruct (Unsubscribe t (Some c) w) eqn:E; [eauto|]. apply Hu in E as [Hin Hf].
    assert (is_open (chans w) c) as (ch & Hch & Ho) by (destruct Hin; by eapply (bi_open w Hi Hd)).
    rewrite Hch in Hf. cbn in Hf. congruence.
Qed.

(** An accepted event reaches the handlers of its type and then those of all types,
    each in the order of subscription, and exactly the channels that listen and
    have room. *)
Theorem publish_reaches {any} size ls (w : world any) now e w' :
  bus_run (new_world size) ls w -> Publish now e w = Some (w', false) ->
  calls w' = calls w ++ map (fun h => (h, stamp now e)) (handlers (subs_of (bus w) (Type_ e)) ++ handlers (allSubs (bus w))) /\
  (forall i, chans w' !! i =
     (if listens (bus w) (Type_ e) i then push (bufferSize (bus w)) (stamp now e) else id) <$> chans w !! i).
Proof.
  intros Hi%reach_inv Hp. destruct (Publish_inv _ _ _ _ _ Hi Hp) as (_ & _ & _ & _ & _ & _ & Hc & _).
  destruct (Publish_spec now e w Hi (eq_sym Hc)) as (cs & E & _ & Hcs). rewrite E in Hp. by injection Hp as <-.
Qed.

(** A nil channel matches a handler's subscription, and closing it panics. *)
Theorem unsubscribe_nil_panics {any} t h (w : world any) :
  subs_of (bus w) t = [] -> Unsubscribe t None (SubscribeFunc t h w).1 = None.
Proof.
  intros Hn. unfold Unsubscribe, SubscribeFunc, subs_of in *. cbn. rewrite lookup_insert_eq. cbn. by rewrite Hn.
Qed.

(** Copies of an event share their metadata: adding to one changes the other. *)
Theorem metadata_shared {any} now t src (d : any) k v heap :
  let '(e, heap) := NewEvent now t src d heap in
  let '(e', heap') := WithMetadata e k v heap in
  e' = e /\ exists m, Metadata e = Some m /\ heap !! m = Some ∅ /\ heap' !! m = Some {[k := v]}.
Proof.
  cbn. split; [done|]. exists (length heap). rewrite list_lookup_alter_eq, lookup_app_r, Nat.sub_diag by lia. done.
Qed.

(** ** Witnesses *)
Module EventWitnesses.

Definition ev (t : string) (n : nat) : Event nat := mkEvent t "w" (Some 5) n None.
Definition after {A B} (o : option (world nat * A)) (f : world nat -> B) (d : B) : B :=
  match o with Some (w, _) => f w | None => d end.
Definition pub (t : string) (n : nat) (w : world nat) : world nat := after (Publish 9 (ev t n) w) id w.

Definition w0 : world nat := new_world 2.
Definition w1 : world nat := (Subscribe "a" w0).1.
Definition w4 : world nat := pub "a" 3 (after (receive 0 (pub "b" 2 (pub "a" 1 w1))) id w1).
Definition trace : list (label nat) :=
  [LPublished (ev "a" 1); LPublished (ev "b" 2); LReceived 0 (ev "a" 1); LPublished (ev "a" 3)].

Lemma trace_run : bus_run w1 trace w4.
Proof.
  eapply run_cons; [apply (s_publish 9 (ev "a" 1) w1 (pub "a" 1 w1) false); vm_compute; reflexivity|].
  eapply run_cons; [apply (s_publish 9 (ev "b" 2) _ (pub "b" 2 (pub "a" 1 w1)) false); vm_compute; reflexivity|].
  eapply run_cons; [apply (s_receive 0 _ (after (receive 0 (pub "b" 2 (pub "a" 1 w1))) id w1) (ev "a" 1)); vm_compute; reflexivity|].
  eapply run_cons; [apply (s_publish 9 (ev "a" 3) _ w4 false); vm_compute; reflexivity|]. apply run_nil.
Defined.

Lemma event_delivery_witness :
  exists ch, chans w4 !! 0%nat = Some ch /\ received 0 trace ++ buf ch = [ev "a" 1; ev "a" 3].
Proof.
  destruct (event_delivery 2 [] w0 "a" trace w4 (run_nil _) trace_run) as (ch & Hc & _ & Hall).
  exists ch. split; [exact Hc|]. apply Hall.
  - unfold trace. rewrite !not_elem_of_cons. split_and!; [congruence..|apply not_elem_of_nil].
  - vm_compute. congruence.
Defined.

(** One subscriber, one asynchronous event, and [Close] behind it. *)
Definition w5 : world nat := (Close_begin (PublishAsync (ev "a" 7) w1)).1.

Lemma w5_reached : bus_run w0 [LCall; LCall; LCall] w5.
Proof.
  eapply run_cons; [apply (s_subscribe "a")|]. eapply run_cons; [apply (s_async (ev "a" 7))|].
  eapply run_cons; [apply s_close_begin|]. apply run_nil.
Defined.

Lemma close_completes_witness :
  pending w5 = [ev "a" 7] /\
  eventually (fun a b => bus_step a LInternal b)
    (fun w' => done_ w' = true /\ pending w' = [] /\
       (forall c, subscribed (bus w5) c -> copen <$> chans w' !! c = Some false) /\
       (forall i, buf <$> chans w' !! i = buf <$> chans w5 !! i) /\ calls w' = calls w5) w5.
Proof. split; [reflexivity|]. apply (close_completes 2 _ w5 w5_reached). reflexivity. Defined.

(** The subscriber of [w1] unsubscribes after [Close]. *)
Definition w6 : world nat := default w1 (Close_end ["a"] (Close_begin w1).1).

Lemma w6_reached : bus_run w0 [LCall; LCall; LInternal] w6.
Proof.
  eapply run_cons; [apply (s_subscribe "a")|]. eapply run_cons; [apply s_close_begin|].
  eapply run_cons; [apply (s_close_end ["a"]); vm_compute; reflexivity|apply run_nil].
Defined.

Lemma bus_panics_witness : Unsubscribe "a" (Some 0%nat) w6 = None /\ is_Some (Unsubscribe "a" (Some 0%nat) w1).
Proof.
  split.
  - apply (bus_panics 2 _ w6 w6_reached). vm_compute. split; [left; constructor|reflexivity].
  - eapply (bus_panics 2 [LCall] w1); [|reflexivity]. eapply run_cons; [apply (s_subscribe "a")|apply run_nil].
Defined.

End EventWitnesses.
