(* ===== verification/MultiRouter.v ===== *)
(** The bridges of the SOCKS5 module, src/core/socks5/multirouter.go: the router
    that picks a tunnel by the rules of each bridge.

    [bridges] is a slice of pointers, deleted from in place and read by [resolve]
    after it has let go of the mutex, so the backing arrays and the entries live in
    a heap: a slice is an array and a length, a bridge is a reference.  The methods
    under the mutex are functions on [world]; a [resolve] in flight is a
    [resolver] that takes one step per bridge. *)

From S2P Require Import Prelude GoStr NetIP.

Module MultiRouter.

Record RouteRule := mkRule { r_ID : string; Pattern : string; BridgeID : string }.
Record BridgeEntry := mkBridge {
  b_ID : string; b_Address : string; Rules : list RouteRule; b_tunnel : option nat
}.

(** A slice that starts where its array does. *)
Record slice := mkSlice { s_arr : nat; s_len : nat }.

Record MultiRouter := mkRouter { primary : option nat; bridges : slice; processOverride : string }.

(** An array slot that was never written is [None]. *)
Record world := mkWorld {
  router : MultiRouter; arrays : list (list (option nat)); entries : list BridgeEntry
}.

Definition NewMultiRouter (t : option nat) : world := mkWorld (mkRouter t (mkSlice 0 0) "") [[]] [].

(** ** Slices *)

Definition array (w : world) (s : slice) : list (option nat) := arrays w !!! s_arr s.
Definition refs_of (w : world) (s : slice) : list nat := omap id (take (s_len s) (array w s)).
Definition deref (w : world) (l : list nat) : list BridgeEntry := omap (fun p => entries w !! p) l.
Definition bridge_list (w : world) : list BridgeEntry := deref w (refs_of w (bridges (router w))).

Definition with_bridges (w : world) (s : slice) (a : list (list (option nat))) : world :=
  mkWorld (mkRouter (primary (router w)) s (processOverride (router w))) a (entries w).

(** [append(s[:i], s[i+1:]...)]: the tail moves down, the last slot keeps its old
    content. *)
Definition delete_at (i : nat) (w : world) : world :=
  let s := bridges (router w) in
  let a := array w s in
  with_bridges w (mkSlice (s_arr s) (pred (s_len s)))
    (<[s_arr s := take i a ++ take (s_len s - S i) (drop (S i) a) ++ drop (pred (s_len s)) a]> (arrays w)).

(** [append(s, x)]: in place while there is room, else in a new array with [spare]
    slots to grow. *)
Definition append_ref (spare x : nat) (w : world) : world :=
  let s := bridges (router w) in
  let a := array w s in
  if (s_len s <? length a)%nat then
    with_bridges w (mkSlice (s_arr s) (S (s_len s))) (<[s_arr s := <[s_len s := Some x]> a]> (arrays w))
  else
    with_bridges w (mkSlice (length (arrays w)) (S (s_len s)))
      (arrays w ++ [take (s_len s) a ++ [Some x] ++ replicate spare None]).

Definition alloc (b : BridgeEntry) (w : world) : world := mkWorld (router w) (arrays w) (entries w ++ [b]).

(** ** The methods *)

Definition SetPrimary (t : option nat) (w : world) : world :=
  mkWorld (mkRouter t (bridges (router w)) (processOverride (router w))) (arrays w) (entries w).
Definition SetProcessContext (p : string) (w : world) : world :=
  mkWorld (mkRouter (primary (router w)) (bridges (router w)) p) (arrays w) (entries w).

Definition buildRouteRules (id : string) (patterns : list string) : list RouteRule :=
  map (fun pat => mkRule (id +:+ ":" +:+ pat)%string pat id) patterns.

(** The index of the first bridge with the id. *)
Fixpoint find_id (id : string) (l : list BridgeEntry) : option nat :=
  match l with
  | [] => None
  | b :: l => if bool_decide (b_ID b = id) then Some 0%nat else S <$> find_id id l
  end.

Definition RemoveBridge (id : string) (w : world) : world :=
  match find_id id (bridge_list w) with
  | Some i => delete_at i w
  | None => w
  end.

Definition AddBridge (spare : nat) (id address : string) (rules : list string) (tunnel : option nat) (w : world) : world :=
  let w := match find_id id (bridge_list w) with Some i => delete_at i w | None => w end in
  let p := length (entries w) in
  append_ref spare p (alloc (mkBridge id address (buildRouteRules id rules) tunnel) w).

(** A write through the pointer of the [i]-th bridge. *)
Definition update_entry (i : nat) (f : BridgeEntry -> BridgeEntry) (w : world) : world :=
  match refs_of w (bridges (router w)) !! i with
  | Some p => mkWorld (router w) (arrays w) (alter f p (entries w))
  | None => w
  end.

Definition AttachBridgeTunnel (id : string) (t : option nat) (w : world) : world * bool :=
  match find_id id (bridge_list w) with
  | Some i => (update_entry i (fun b => mkBridge (b_ID b) (b_Address b) (Rules b) t) w, true)
  | None => (w, false)
  end.

Inductive reply := BadRequest | MethodNotAllowed | Ok.

(** [handleUpsertBridge]; the body is what the JSON decoder made of the request. *)
Definition handleUpsertBridge (spare : nat) (body : option (string * string * list string)) (w : world) : world * reply :=
  match body with
  | None => (w, BadRequest)
  | Some (id, address, rules) =>
      if bool_decide (id = "") || bool_decide (address = "") then (w, BadRequest)
      else
        match find_id id (bridge_list w) with
        | Some i => (update_entry i (fun b => mkBridge (b_ID b) address (buildRouteRules id rules) (b_tunnel b)) w, Ok)
        | None =>
            let p := length (entries w) in
            (append_ref spare p (alloc (mkBridge id address (buildRouteRules id rules) None) w), Ok)
        end
  end.

Definition handleDeleteBridge (is_delete : bool) (path : string) (w : world) : world * reply :=
  if negb is_delete then (w, MethodNotAllowed)
  else
    let id := TrimPrefix path "/multi-bridges/" in
    if bool_decide (id = "") then (w, BadRequest) else (RemoveBridge id w, Ok).

Record BridgeStatusEntry := mkStatus { st_ID : string; st_Address : string; Connected : bool; st_Rules : list string }.

(** ** Choosing a tunnel *)

Section Resolve.
Context `{UnicodeCase} `{UnicodeFold}.

Definition matchPattern (pattern host processName : string) : bool :=
  if bool_decide (pattern = "*") then true
  else if HasPrefix pattern "process:" then
    let procPat := ToLower (TrimPrefix pattern "process:") in
    EqualFold processName procPat
    || HasSuffix (ToLower processName) ("/" +:+ procPat)%string
    || HasSuffix (ToLower processName) ("\" +:+ procPat)%string
  else if Contains pattern "/" then
    match ParseIP host with
    | None => false
    | Some ip => match ParseCIDR pattern with
                 | None => false
                 | Some cidr => IPNet_Contains cidr ip
                 end
    end
  else if HasPrefix pattern "*." then
    let suffix := string_of_bytes (zdrop 2 (bytes_of_string pattern)) in
    EqualFold host suffix || HasSuffix (ToLower host) ("." +:+ ToLower suffix)%string
  else EqualFold host pattern.

(** [connected] is what the tunnels' [IsConnected] answers. *)
Definition serves (connected : nat -> bool) (proc host : string) (b : BridgeEntry) : option nat :=
  match b_tunnel b with
  | Some t => if connected t && existsb (fun r => matchPattern (Pattern r) host proc) (Rules b) then Some t else None
  | None => None
  end.

(** [resolve] in flight: what it read under the lock, and the next index. *)
Record resolver := mkResolver { rs_slice : slice; rs_proc : string; rs_primary : option nat; rs_next : nat }.

Definition resolve_begin (w : world) : resolver :=
  mkResolver (bridges (router w)) (processOverride (router w)) (primary (router w)) 0.

(** One turn of the loop, on the array as it is now; the result, or to go on. *)
Definition resolve_turn (connected : nat -> bool) (host : string) (w : world) (r : resolver) : option nat + resolver :=
  if (rs_next r <? s_len (rs_slice r))%nat then
    match p ← mjoin (array w (rs_slice r) !! rs_next r); b ← entries w !! p; serves connected (rs_proc r) host b with
    | Some t => inl (Some t)
    | None => inr (mkResolver (rs_slice r) (rs_proc r) (rs_primary r) (S (rs_next r)))
    end
  else inl (rs_primary r).

Fixpoint resolve_loop (fuel : nat) (connected : nat -> bool) (host : string) (w : world) (r : resolver) : option (option nat) :=
  match resolve_turn connected host w r with
  | inl t => Some t
  | inr r => match fuel with O => None | S fuel => resolve_loop fuel connected host w r end
  end.

(** [resolve] without interference. *)
Definition resolve (connected : nat -> bool) (host : string) (w : world) : option (option nat) :=
  resolve_loop (s_len (bridges (router w))) connected host w (resolve_begin w).

(** [OpenStream] and [DialStream] choose the tunnel by these hosts. *)
Definition dial_host (addr : string) : string :=
  let host := match SplitHostPort addr with Some (h, _) => h | None => "" end in
  if bool_decide (host = "") then addr else host.
Definition OpenStream_tunnel (connected : nat -> bool) (addr : string) (w : world) : option (option nat) :=
  resolve connected addr w.
Definition DialStream_tunnel (connected : nat -> bool) (addr : string) (w : world) : option (option nat) :=
  resolve connected (dial_host addr) w.

Definition IsConnected (connected : nat -> bool) (w : world) : bool :=
  match primary (router w) with Some t => connected t | None => false end.

Definition handleListBridges (connected : nat -> bool) (w : world) : list BridgeStatusEntry :=
  map (fun b => mkStatus (b_ID b) (b_Address b)
                  (match b_tunnel b with Some t => connected t | None => false end) (map Pattern (Rules b))) (bridge_list w).

End Resolve.

(** ** Calls *)

Inductive call :=
| CSetPrimary (t : option nat) | CSetProcess (p : string)
| CAdd (spare : nat) (id address : string) (rules : list string) (t : option nat)
| CRemove (id : string) | CAttach (id : string) (t : option nat)
| CUpsert (spare : nat) (body : option (string * string * list string))
| CDelete (is_delete : bool) (path : string).

Definition exec (w : world) (c : call) : world :=
  match c with
  | CSetPrimary t => SetPrimary t w
  | CSetProcess p => SetProcessContext p w
  | CAdd spare id address rules t => AddBridge spare id address rules t w
  | CRemove id => RemoveBridge id w
  | CAttach id t => (AttachBridgeTunnel id t w).1
  | CUpsert spare body => (handleUpsertBridge spare body w).1
  | CDelete is_delete path => (handleDeleteBridge is_delete path w).1
  end.

End MultiRouter.
