(* ===== verification/MultiRouterFacts.v ===== *)
(** What the router of [MultiRouter] guarantees: its slices of pointers behave like
    a list of bridges with distinct ids, [resolve] picks the first bridge that
    serves the host, and what happens when a bridge is removed under it. *)

From S2P Require Import Prelude GoStr NetIP MultiRouter.
Import MultiRouter.

(** ** The list behind the pointers *)

Record refs_ok (w : world) (refs : list nat) : Prop := {
  ro_arr : (s_arr (bridges (router w)) < length (arrays w))%nat;
  ro_refs : take (s_len (bridges (router w))) (array w (bridges (router w))) = map Some refs;
  ro_len : s_len (bridges (router w)) = length refs;
  ro_nodup : NoDup refs;
  ro_bound : Forall (fun p => p < length (entries w))%nat refs
}.

Lemma refs_of_ok w refs : refs_ok w refs -> refs_of w (bridges (router w)) = refs.
Proof.
  intros [_ Hr _ _ _]. unfold refs_of. rewrite Hr. clear Hr. induction refs as [|p refs IH]; [done|]. cbn. by f_equal.
Qed.

Lemma array_lookup w s : (s_arr s < length (arrays w))%nat -> arrays w !! s_arr s = Some (array w s).
Proof. intros Hlt. unfold array. by apply list_lookup_lookup_total_lt. Qed.

Lemma array_insert w s' a k : (k < length (arrays w))%nat -> s_arr s' = k ->
  array (with_bridges w s' (<[k := a]> (arrays w))) s' = a.
Proof. intros Hlt <-. unfold array. cbn. by rewrite list_lookup_total_insert_eq. Qed.

Lemma deref_lookup w refs i : Forall (fun p => p < length (entries w))%nat refs ->
  deref w refs !! i = p ← refs !! i; entries w !! p.
Proof.
  revert i. induction refs as [|p refs IH]; intros i Hf; [by destruct i|]. apply Forall_cons in Hf as [Hp Hf].
  unfold deref in *. cbn. destruct (lookup_lt_is_Some_2 _ _ Hp) as [b Hb]. rewrite Hb. destruct i as [|i]; cbn; [done|]. by apply IH.
Qed.

Lemma deref_app w l k : deref w (l ++ k) = deref w l ++ deref w k.
Proof. apply omap_app. Qed.

Lemma deref_grow w b l : Forall (fun p => p < length (entries w))%nat l -> deref (alloc b w) l = deref w l.
Proof.
  unfold deref. induction 1 as [|p l Hp Hf IH]; [done|]. cbn. rewrite lookup_app_l by done.
  destruct (entries w !! p); [by f_equal|done].
Qed.

Lemma length_deref w refs : Forall (fun p => p < length (entries w))%nat refs -> length (deref w refs) = length refs.
Proof.
  unfold deref. induction 1 as [|p l Hp Hf IH]; [done|]. cbn.
  destruct (lookup_lt_is_Some_2 _ _ Hp) as [b ->]. cbn. by rewrite IH.
Qed.

Lemma delete_at_ok i w refs : refs_ok w refs -> (i < length refs)%nat -> refs_ok (delete_at i w) (delete i refs).
Proof.
  intros [Ha Hr Hl Hn Hb] Hi. set (s := bridges (router w)) in *. set (a := array w s) in *.
  assert (Hla : (length refs <= length a)%nat).
  { apply (f_equal length) in Hr. rewrite length_take, length_map in Hr. lia. }
  assert (Hdel : length (delete i refs) = pred (length refs)).
  { rewrite length_delete by (by apply lookup_lt_is_Some_2). lia. }
  split; cbn [delete_at with_bridges bridges router arrays entries s_arr s_len]; fold s a.
  - by rewrite length_insert.
  - unfold delete_at. fold s a. rewrite array_insert by done. cbn [s_len].
    assert (E : a = map Some refs ++ drop (length refs) a) by (rewrite <- Hr, Hl, take_drop; done).
    assert (Ei : take i a = map Some (take i refs)).
    { rewrite E, take_app_le by (rewrite length_map; lia). by rewrite firstn_map. }
    assert (Ed : take (s_len s - S i) (drop (S i) a) = map Some (drop (S i) refs)).
    { rewrite E, skipn_app, length_map, skipn_map, Hl.
      replace (S i - length refs)%nat with 0%nat by lia. rewrite drop_0.
      rewrite take_app_le by (rewrite length_map, length_drop; lia).
      apply take_ge. rewrite length_map, length_drop. lia. }
    rewrite Ei, Ed, app_assoc, <- map_app, <- delete_take_drop, Hl.
    rewrite take_app_le by (rewrite length_map; lia). apply take_ge. rewrite length_map. lia.
  - by rewrite Hl, Hdel.
  - eapply sublist_NoDup; [exact Hn|apply sublist_delete].
  - apply Forall_delete. done.
Qed.

Lemma delete_at_list i w refs : refs_ok w refs -> (i < length refs)%nat ->
  bridge_list (delete_at i w) = delete i (bridge_list w).
Proof.
  intros Hok Hi. pose proof (delete_at_ok i w refs Hok Hi) as Hok'. unfold bridge_list.
  rewrite (refs_of_ok _ _ Hok'), (refs_of_ok _ _ Hok). pose proof (ro_bound _ _ Hok) as Hb. change (deref (delete_at i w)) with (deref w).
  rewrite !delete_take_drop, deref_app.
  assert (Hlen : length (deref w (take i refs)) = i).
  { rewrite length_deref by (by apply Forall_take). rewrite length_take. lia. }
  assert (E : deref w refs = deref w (take i refs) ++ deref w (drop i refs)) by (by rewrite <- deref_app, take_drop).
  destruct (drop i refs) as [|p l] eqn:Ed; [apply (f_equal length) in Ed; rewrite length_drop in Ed; cbn in Ed; lia|].
  assert (Edl : drop (S i) refs = l) by (rewrite <- Nat.add_1_r, <- drop_drop, Ed; done).
  assert (Hp : (p < length (entries w))%nat).
  { rewrite Forall_forall in Hb. apply Hb. rewrite <- (take_drop i refs), Ed. apply elem_of_app. right. apply elem_of_cons. by left. }
  destruct (lookup_lt_is_Some_2 _ _ Hp) as [b Hpb]. rewrite Edl, E.
  assert (Ec : deref w (p :: l) = b :: deref w l) by (unfold deref; cbn; by rewrite Hpb).
  rewrite Ec. rewrite take_app_length' by done. f_equal. rewrite drop_app_ge by lia. rewrite Hlen.
  by replace (S i - i)%nat with 1%nat by lia.
Qed.

Lemma append_new_ok spare b w refs : refs_ok w refs ->
  refs_ok (append_ref spare (length (entries w)) (alloc b w)) (refs ++ [length (entries w)]) /\
  bridge_list (append_ref spare (length (entries w)) (alloc b w)) = bridge_list w ++ [b].
Proof.
  intros Hok. pose proof Hok as [Ha Hr Hl Hn Hb]. set (x := length (entries w)).
  assert (Hent : entries (append_ref spare x (alloc b w)) = entries w ++ [b]) by (unfold append_ref; by destruct (_ <? _)%nat).
  assert (Hok' : refs_ok (append_ref spare x (alloc b w)) (refs ++ [x])).
  { set (s := bridges (router w)) in *. set (a := array w s) in *.
    assert (Hla : (s_len s <= length a)%nat).
    { apply (f_equal length) in Hr. rewrite length_take, length_map in Hr. lia. }
    unfold append_ref. cbn [alloc router]. change (array (alloc b w) (bridges (router w))) with a. fold s.
    destruct (Nat.ltb_spec (s_len s) (length a)) as [Hlt|Hge]; split;
      cbn [with_bridges bridges router arrays entries s_arr s_len alloc]; rewrite ?length_app; cbn [length]; try lia.
    - by rewrite length_insert.
    - rewrite (array_insert (alloc b w)) by done.
      rewrite insert_take_drop by done. rewrite cons_middle, app_assoc.
      rewrite take_app_length' by (rewrite length_app, length_take; cbn; lia).
      by rewrite Hr, map_app.
    - apply NoDup_app. split; [done|]. split; [|apply NoDup_singleton].
      intros p Hp ->%list_elem_of_singleton. rewrite Forall_forall in Hb. apply Hb in Hp. lia.
    - apply Forall_app. split; [|constructor; [unfold x; lia|done]]. eapply Forall_impl; [exact Hb|]. cbn. intros. lia.
    - unfold array. cbn. rewrite list_lookup_total_middle by done.
      rewrite cons_middle, app_assoc, take_app_length' by (rewrite length_app, length_take; cbn; lia). by rewrite Hr, map_app.
    - apply NoDup_app. split; [done|]. split; [|apply NoDup_singleton].
      intros p Hp ->%list_elem_of_singleton. rewrite Forall_forall in Hb. apply Hb in Hp. lia.
    - apply Forall_app. split; [|constructor; [unfold x; lia|done]]. eapply Forall_impl; [exact Hb|]. cbn. intros. lia. }
  split; [done|]. unfold bridge_list. rewrite (refs_of_ok _ _ Hok'), (refs_of_ok _ _ Hok). rewrite deref_app.
  assert (Hd : forall l, deref (append_ref spare x (alloc b w)) l = deref (alloc b w) l) by (intros l; unfold deref; by rewrite Hent).
  rewrite !Hd, deref_grow by done. f_equal. unfold deref. cbn. unfold x. by rewrite lookup_app_r, Nat.sub_diag by done.
Qed.

Lemma update_entry_ok i f w refs : refs_ok w refs -> (i < length refs)%nat ->
  refs_ok (update_entry i f w) refs /\ bridge_list (update_entry i f w) = alter f i (bridge_list w).
Proof.
  intros Hok Hi. unfold update_entry. rewrite (refs_of_ok _ _ Hok). destruct (lookup_lt_is_Some_2 _ _ Hi) as [p Hp]. rewrite Hp.
  pose proof Hok as [Ha Hr Hl Hn Hb]. set (w' := mkWorld (router w) (arrays w) (alter f p (entries w))).
  assert (Hok' : refs_ok w' refs).
  { split; try done. eapply Forall_impl; [exact Hb|]. cbn. intros q. by rewrite length_alter. }
  split; [done|]. unfold bridge_list. rewrite (refs_of_ok _ _ Hok'), (refs_of_ok _ _ Hok). apply list_eq. intros j.
  rewrite deref_lookup by apply (ro_bound _ _ Hok'). destruct (decide (i = j)) as [<-|Hne].
  - rewrite list_lookup_alter_eq, deref_lookup, Hp by done. cbn. apply list_lookup_alter_eq.
  - rewrite list_lookup_alter_ne, deref_lookup by done. destruct (refs !! j) as [q|] eqn:Eq; [|done]. cbn.
    apply list_lookup_alter_ne. intros ->. apply Hne. eapply NoDup_lookup; eauto.
Qed.

(** ** The specification: a list of bridges with distinct ids *)

Definition drop_id (id : string) (l : list BridgeEntry) : list BridgeEntry := filter (fun b => b_ID b <> id) l.
Definition change_id (id : string) (f : BridgeEntry -> BridgeEntry) (l : list BridgeEntry) : list BridgeEntry :=
  map (fun b => if bool_decide (b_ID b = id) then f b else b) l.
Definition has_id (id : string) (l : list BridgeEntry) : bool := existsb (fun b => bool_decide (b_ID b = id)) l.

Lemma find_id_spec id l :
  match find_id id l with
  | Some i => exists b, l !! i = Some b /\ b_ID b = id /\ has_id id l = true
  | None => Forall (fun b => b_ID b <> id) l /\ has_id id l = false
  end.
Proof.
  induction l as [|b l IH]; cbn; [by split|]. case_bool_decide as E; cbn; [by exists b|].
  destruct (find_id id l) as [i|]; cbn; [destruct IH as (b' & ? & ? & ?); exists b'; auto|].
  destruct IH as [Hf Hh]. split; [by constructor|exact Hh].
Qed.

Lemma drop_id_none id l : Forall (fun b => b_ID b <> id) l -> drop_id id l = l.
Proof.
  unfold drop_id. induction 1 as [|b l Hb Hf IH]; [done|]. rewrite filter_cons_True by done. by rewrite IH.
Qed.

Lemma delete_id i id l b : NoDup (map b_ID l) -> l !! i = Some b -> b_ID b = id -> delete i l = drop_id id l.
Proof.
  intros Hn Hi <-. rewrite <- (take_drop_middle l i b Hi) in Hn. rewrite map_app in Hn. cbn in Hn.
  apply NoDup_app in Hn as (_ & Hd & Hn). apply NoDup_cons in Hn as [Hx _].
  rewrite delete_take_drop. rewrite <- (take_drop_middle l i b Hi) at 3. unfold drop_id. rewrite filter_app.
  rewrite filter_cons_False by (intros H; by apply H).
  f_equal; symmetry; apply (drop_id_none (b_ID b)); apply Forall_forall; intros c Hc E.
  - apply (Hd (b_ID c)); [by apply list_elem_of_fmap_2|rewrite E; apply elem_of_cons; by left].
  - apply Hx. rewrite <- E. by apply list_elem_of_fmap_2.
Qed.

Lemma change_none id f l : Forall (fun b => b_ID b <> id) l -> change_id id f l = l.
Proof.
  unfold change_id. induction 1 as [|b l Hb Hf IH]; cbn; [done|]. rewrite bool_decide_eq_false_2, IH by done. done.
Qed.

Lemma alter_id i id f l b : NoDup (map b_ID l) -> l !! i = Some b -> b_ID b = id -> alter f i l = change_id id f l.
Proof.
  intros Hn Hi <-. apply list_eq. intros j. unfold change_id. rewrite lookup_map. destruct (decide (i = j)) as [<-|Hne].
  - rewrite list_lookup_alter_eq, Hi. cbn. by rewrite bool_decide_eq_true_2.
  - rewrite list_lookup_alter_ne by done. destruct (l !! j) as [c|] eqn:Ej; [|done]. cbn. rewrite bool_decide_eq_false_2; [done|].
    intros E. apply Hne. eapply NoDup_lookup; [exact Hn|..].
    + rewrite lookup_map, Hi. done.
    + rewrite lookup_map, Ej. cbn. by rewrite E.
Qed.

(** What a caller sees: the primary tunnel, the process, the bridges in order. *)
Definition view : Type := option nat * string * list BridgeEntry.
Definition view_of (w : world) : view := (primary (router w), processOverride (router w), bridge_list w).

Definition spec (v : view) (c : call) : view :=
  let '(p, proc, l) := v in
  match c with
  | CSetPrimary t => (t, proc, l)
  | CSetProcess q => (p, q, l)
  | CAdd _ id address rules t => (p, proc, drop_id id l ++ [mkBridge id address (buildRouteRules id rules) t])
  | CRemove id => (p, proc, drop_id id l)
  | CAttach id t => (p, proc, change_id id (fun b => mkBridge (b_ID b) (b_Address b) (Rules b) t) l)
  | CUpsert _ None => v
  | CUpsert _ (Some (id, address, rules)) =>
      if bool_decide (id = "") || bool_decide (address = "") then v
      else if has_id id l then
        (p, proc, change_id id (fun b => mkBridge (b_ID b) address (buildRouteRules id rules) (b_tunnel b)) l)
      else (p, proc, l ++ [mkBridge id address (buildRouteRules id rules) None])
  | CDelete is_delete path =>
      let id := TrimPrefix path "/multi-bridges/" in
      if is_delete && negb (bool_decide (id = "")) then (p, proc, drop_id id l) else v
  end.

Definition rules_ok (b : BridgeEntry) : Prop := Rules b = buildRouteRules (b_ID b) (map Pattern (Rules b)).

Record list_ok (l : list BridgeEntry) : Prop := { lo_ids : NoDup (map b_ID l); lo_rules : Forall rules_ok l }.

Lemma built_rules id address rules t : rules_ok (mkBridge id address (buildRouteRules id rules) t).
Proof. unfold rules_ok, buildRouteRules. cbn. rewrite !map_map. done. Qed.

Lemma list_ok_drop id l : list_ok l -> list_ok (drop_id id l).
Proof.
  intros [Hn Hr]. assert (Hs : sublist (drop_id id l) l) by apply sublist_filter. split.
  - eapply sublist_NoDup; [exact Hn|]. by apply sublist_map.
  - by eapply sublist_Forall.
Qed.

Lemma list_ok_snoc l b : list_ok l -> b_ID b ∉ map b_ID l -> rules_ok b -> list_ok (l ++ [b]).
Proof.
  intros [Hn Hr] Hb Hrb. split.
  - rewrite map_app. apply NoDup_app. split; [done|]. split; [|apply NoDup_singleton]. by intros x Hx ->%list_elem_of_singleton.
  - apply Forall_app. split; [done|]. by constructor.
Qed.

Lemma drop_id_gone id l : id ∉ map b_ID (drop_id id l).
Proof.
  intros (b & Hb & Hin)%list_elem_of_fmap. apply list_elem_of_filter in Hin as [Hne _]. by apply Hne.
Qed.

Lemma list_ok_change id f l : list_ok l -> (forall b, b_ID b = id -> rules_ok b -> b_ID (f b) = id /\ rules_ok (f b)) ->
  list_ok (change_id id f l).
Proof.
  intros [Hn Hr] Hf. assert (E : forall l, Forall rules_ok l -> map b_ID (change_id id f l) = map b_ID l /\ Forall rules_ok (change_id id f l)).
  { unfold change_id. induction 1 as [|b l' Hb _ IH]; [done|]. cbn. destruct IH as [IH1 IH2].
    case_bool_decide as Eb; rewrite IH1; [|by split; [|constructor]].
    destruct (Hf b Eb Hb) as [E1 E2]. split; [by rewrite E1, Eb|by constructor]. }
  destruct (E l Hr) as [E1 E2]. split; [by rewrite E1|done].
Qed.

Lemma has_id_false id l : has_id id l = false -> id ∉ map b_ID l.
Proof.
  intros Hh (b & Hb & Hin)%list_elem_of_fmap. induction l as [|c l IH]; [by apply not_elem_of_nil in Hin|].
  cbn in Hh. apply orb_false_iff in Hh as [H1 H2]. bool_to_prop. apply elem_of_cons in Hin as [->|Hin]; [congruence|by apply IH].
Qed.

Lemma spec_ok v c : list_ok v.2 -> list_ok (spec v c).2.
Proof.
  destruct v as [[p proc] l]. intros Hl. cbn in Hl.
  destruct c as [t|q|spare id address rules t|id|id t|spare [[[id address] rules]|]|d path]; cbn [spec snd]; try done.
  - apply list_ok_snoc; [by apply list_ok_drop|apply drop_id_gone|apply built_rules].
  - by apply list_ok_drop.
  - apply list_ok_change; [done|]. by intros b.
  - destruct (_ || _); [done|]. destruct (has_id id l) eqn:Eh; cbn [snd].
    + apply list_ok_change; [done|]. intros b <- Hb. split; [done|]. apply (built_rules (b_ID b)).
    + apply list_ok_snoc; [done|by apply has_id_false|apply built_rules].
  - destruct (_ && _); [by apply list_ok_drop|done].
Qed.

Lemma find_in_refs w refs id i : refs_ok w refs -> find_id id (bridge_list w) = Some i -> (i < length refs)%nat.
Proof.
  intros Hok Hf. pose proof (find_id_spec id (bridge_list w)) as Hs. rewrite Hf in Hs. destruct Hs as (b & Hb & _).
  apply lookup_lt_Some in Hb. unfold bridge_list in Hb. rewrite (refs_of_ok _ _ Hok), length_deref in Hb; [done|apply (ro_bound _ _ Hok)].
Qed.

(** The search and the deletion of [RemoveBridge] and [AddBridge]. *)
Lemma remove_ok id w refs : refs_ok w refs -> list_ok (bridge_list w) ->
  let w' := match find_id id (bridge_list w) with Some i => delete_at i w | None => w end in
  (exists refs', refs_ok w' refs') /\ bridge_list w' = drop_id id (bridge_list w).
Proof.
  intros Hok [Hn _]. pose proof (find_id_spec id (bridge_list w)) as Hs. cbn. destruct (find_id id (bridge_list w)) as [i|] eqn:Ef.
  - pose proof (find_in_refs _ _ _ _ Hok Ef) as Hi. destruct Hs as (b & Hb & Eb & _).
    split; [exists (delete i refs); by apply delete_at_ok|]. rewrite (delete_at_list i w refs Hok Hi). by eapply delete_id.
  - split; [by exists refs|]. symmetry. apply drop_id_none, Hs.
Qed.

Lemma change_ok id f w refs : refs_ok w refs -> list_ok (bridge_list w) ->
  let w' := match find_id id (bridge_list w) with Some i => update_entry i f w | None => w end in
  (exists refs', refs_ok w' refs') /\ bridge_list w' = change_id id f (bridge_list w).
Proof.
  intros Hok [Hn _]. pose proof (find_id_spec id (bridge_list w)) as Hs. cbn. destruct (find_id id (bridge_list w)) as [i|] eqn:Ef.
  - pose proof (find_in_refs _ _ _ _ Hok Ef) as Hi. destruct Hs as (b & Hb & Eb & _).
    destruct (update_entry_ok i f w refs Hok Hi) as [H1 H2]. split; [by exists refs|]. rewrite H2. by eapply alter_id.
  - split; [by exists refs|]. symmetry. apply change_none, Hs.
Qed.

Lemma exec_refines w c : (exists refs, refs_ok w refs) -> list_ok (bridge_list w) ->
  (exists refs, refs_ok (exec w c) refs) /\ view_of (exec w c) = spec (view_of w) c.
Proof.
  intros [refs Hok] Hl. pose proof (fun id => remove_ok id w refs Hok Hl) as Hrm.
  pose proof (fun id f => change_ok id f w refs Hok Hl) as Hch.
  assert (Hpp : forall i, primary (router (delete_at i w)) = primary (router w) /\
    processOverride (router (delete_at i w)) = processOverride (router w)) by done.
  assert (Hap : forall spare x w, primary (router (append_ref spare x w)) = primary (router w) /\
    processOverride (router (append_ref spare x w)) = processOverride (router w)).
  { intros spare x w0. unfold append_ref. by destruct (_ <? _)%nat. }
  assert (Hup : forall i f, router (update_entry i f w) = router w) by (intros i f; unfold update_entry; by destruct (_ !! i)).
  unfold view_of, spec.
  destruct c as [t|q|spare id address rules t|id|id t|spare [[[id address] rules]|]|d path]; cbn [exec].
  - split; [|done]. exists refs. by destruct Hok.
  - split; [|done]. exists refs. by destruct Hok.
  - destruct (Hrm id) as [[refs' Hok'] El]. unfold AddBridge. set (w' := match find_id id (bridge_list w) with Some i => delete_at i w | None => w end) in *.
    destruct (append_new_ok spare (mkBridge id address (buildRouteRules id rules) t) w' refs' Hok') as [H1 H2].
    split; [eauto|]. rewrite H2, El. destruct (Hap spare (length (entries w')) (alloc (mkBridge id address (buildRouteRules id rules) t) w')) as [-> ->].
    unfold w'. by destruct (find_id id _).
  - destruct (Hrm id) as [H1 El]. unfold RemoveBridge. split; [done|]. rewrite El. by destruct (find_id id _).
  - destruct (Hch id (fun b => mkBridge (b_ID b) (b_Address b) (Rules b) t)) as [H1 El]. unfold AttachBridgeTunnel.
    destruct (find_id id _) as [i|]; cbn [fst]; (split; [done|]); rewrite <- El, ?Hup; done.
  - unfold handleUpsertBridge. destruct (_ || _); cbn [fst]; [split; [eauto|done]|].
    pose proof (find_id_spec id (bridge_list w)) as Hf.
    destruct (Hch id (fun b => mkBridge (b_ID b) address (buildRouteRules id rules) (b_tunnel b))) as [H1 El].
    destruct (find_id id _) as [i|]; cbn [fst].
    + destruct Hf as (b & _ & _ & ->). split; [done|]. by rewrite <- El, Hup.
    + destruct Hf as [_ ->].
      destruct (append_new_ok spare (mkBridge id address (buildRouteRules id rules) None) w refs Hok) as [H2 H3].
      split; [eauto|]. rewrite H3.
      by destruct (Hap spare (length (entries w)) (alloc (mkBridge id address (buildRouteRules id rules) None) w)) as [-> ->].
  - cbn. split; [eauto|done].
  - unfold handleDeleteBridge. destruct d; cbn [negb andb fst]; [|split; [eauto|done]].
    case_bool_decide; cbn [negb fst]; [split; [eauto|done]|]. destruct (Hrm (TrimPrefix path "/multi-bridges/")) as [H1 El].
    unfold RemoveBridge. split; [done|]. rewrite El. by destruct (find_id _ _).
Qed.

Lemma calls_refine cs w v : (exists refs, refs_ok w refs) -> list_ok (bridge_list w) -> view_of w = v ->
  (exists refs, refs_ok (fold_left exec cs w) refs) /\ list_ok (bridge_list (fold_left exec cs w)) /\
  view_of (fold_left exec cs w) = fold_left spec cs v.
Proof.
  revert w v. induction cs as [|c cs IH]; intros w v Hr Hl <-; [done|]. cbn.
  destruct (exec_refines w c Hr Hl) as [Hr' Hv]. apply IH; [done| |by rewrite Hv].
  change (bridge_list (exec w c)) with (view_of (exec w c)).2. rewrite Hv. by apply spec_ok.
Qed.

Lemma new_ok t : (exists refs, refs_ok (NewMultiRouter t) refs) /\ list_ok (bridge_list (NewMultiRouter t)).
Proof.
  split; [exists []; split; cbn; try done; [lia|constructor]|]. split; constructor.
Qed.

Section Resolve.
Context `{UnicodeCase} `{UnicodeFold}.

(** The tunnel of the first bridge that serves the host, else the primary one. *)
Definition choose (connected : nat -> bool) (host : string) (v : view) : option nat :=
  match head (omap (serves connected v.1.2 host) v.2) with
  | Some t => Some t
  | None => v.1.1
  end.

Lemma resolve_loop_ok connected host w refs pr proc done rest fuel : refs_ok w refs -> refs = done ++ rest ->
  (length rest <= fuel)%nat ->
  resolve_loop fuel connected host w (mkResolver (bridges (router w)) proc pr (length done)) =
  Some (match head (omap (serves connected proc host) (deref w rest)) with Some t => Some t | None => pr end).
Proof.
  intros Hok. revert done fuel. induction rest as [|p rest IH]; intros dn fuel E Hf; pose proof Hok as [Ha Hr Hl Hn Hb].
  - rewrite app_nil_r in E. subst dn. destruct fuel; cbn [resolve_loop]; unfold resolve_turn; cbn [rs_next rs_slice]; by rewrite Hl, Nat.ltb_irrefl.
  - destruct fuel as [|fuel]; [cbn in Hf; lia|].
    assert (Hp : array w (bridges (router w)) !! length dn = Some (Some p)).
    { rewrite <- (lookup_take_lt _ (s_len (bridges (router w)))) by (rewrite Hl, E, length_app; cbn; lia).
      rewrite Hr, E, lookup_map, lookup_app_r, Nat.sub_diag by done. done. }
    assert (Hpb : (p < length (entries w))%nat).
    { rewrite Forall_forall in Hb. apply Hb. rewrite E. apply elem_of_app. right. apply elem_of_cons. by left. }
    destruct (lookup_lt_is_Some_2 _ _ Hpb) as [b Hpe].
    unfold deref. cbn [resolve_loop omap list_omap]. unfold resolve_turn. cbn [rs_next rs_slice rs_proc rs_primary].
    destruct (Nat.ltb_spec (length dn) (s_len (bridges (router w)))) as [_|Hge]; [|rewrite Hl, E, length_app in Hge; cbn in Hge; lia].
    rewrite Hp. cbn [mjoin option_join]. rewrite Hpe. cbn. rewrite Hpe. cbn.
    destruct (serves connected proc host b) as [t|] eqn:Es; [done|].
    specialize (IH (dn ++ [p]) fuel). rewrite length_app, Nat.add_1_r in IH. apply IH; [by rewrite <- app_assoc|cbn in Hf; lia].
Qed.

Lemma resolve_ok connected host w : (exists refs, refs_ok w refs) -> resolve connected host w = Some (choose connected host (view_of w)).
Proof.
  intros [refs Hok]. unfold resolve, choose, view_of, resolve_begin. cbn [fst snd].
  pose proof (resolve_loop_ok connected host w refs (primary (router w)) (processOverride (router w)) [] refs
    (s_len (bridges (router w))) Hok eq_refl) as E. rewrite (ro_len _ _ Hok) in *.
  change (@length nat []) with 0%nat in E. rewrite E by lia.
  unfold bridge_list. by rewrite (refs_of_ok _ _ Hok).
Qed.

End Resolve.

(** ** Addresses with a port *)

Lemma last_index_app c l k : ~ In c k -> last_index_byte c (l ++ c :: k) = zlen l.
Proof.
  intros Hk. assert (Hnone : forall k, ~ In c k -> last_index_byte c k = -1).
  { clear. induction k as [|x k IH]; intros Hk; [done|]. cbn. rewrite IH by (intros ?; apply Hk; by right).
    cbn. destruct (Z.eqb_spec x c) as [->|]; [|done]. exfalso. apply Hk. by left. }
  induction l as [|x l IH]; cbn [app last_index_byte].
  - rewrite (Hnone k Hk). cbn. by rewrite Z.eqb_refl.
  - rewrite IH, zlen_cons. pose proof (zlen_nonneg l). destruct (Z.eqb_spec (zlen l) (-1)); [lia|done].
Qed.

Lemma index_byte_none c l : ~ In c l -> index_byte c l = -1.
Proof. intros Hn. destruct (index_byte_spec c l) as [[? _]|(_ & a & b & -> & _)]; [done|]. exfalso. apply Hn, in_or_app. right. by left. Qed.

Lemma index_byte_found c a b : ~ In c a -> index_byte c (a ++ c :: b) = zlen a.
Proof.
  induction a as [|x a IH]; intros Hn; cbn [app index_byte]; [by rewrite Z.eqb_refl|].
  destruct (Z.eqb_spec x c) as [->|]; [exfalso; apply Hn; by left|]. rewrite IH by (intros ?; apply Hn; by right).
  rewrite zlen_cons. pose proof (zlen_nonneg a). destruct (Z.eqb_spec (zlen a) (-1)); [lia|done].
Qed.

(** A host without brackets and a port without brackets and colons survive
    [JoinHostPort] and [SplitHostPort]. *)
Lemma split_join h p : ~ In 91 h -> ~ In 93 h -> ~ In 91 p -> ~ In 93 p -> ~ In 58 p ->
  split_host_port (if 0 <=? index_byte 58 h then 91 :: h ++ 93 :: 58 :: p else h ++ 58 :: p) = Some (h, p).
Proof.
  intros Hh1 Hh2 Hp1 Hp2 Hp3. pose proof (zlen_nonneg h) as Hz. destruct (0 <=? index_byte 58 h) eqn:Ec.
  - unfold split_host_port.
    assert (E1 : last_index_byte 58 (91 :: h ++ 93 :: 58 :: p) = zlen h + 2).
    { change (91 :: h ++ 93 :: 58 :: p) with ((91 :: h) ++ [93] ++ 58 :: p). rewrite app_assoc, last_index_app by done.
      rewrite zlen_app, zlen_cons, zlen_cons, zlen_nil. lia. }
    assert (E2 : index_byte 93 (91 :: h ++ 93 :: 58 :: p) = zlen h + 1).
    { change (91 :: h ++ 93 :: 58 :: p) with ((91 :: h) ++ 93 :: 58 :: p). rewrite index_byte_found, zlen_cons; [lia|].
      intros [?|?]; [lia|done]. }
    rewrite E1, E2. cbn [head]. rewrite bool_decide_eq_true_2 by done.
    destruct (Z.ltb_spec (zlen h + 2) 0); [lia|]. destruct (Z.ltb_spec (zlen h + 1) 0); [lia|].
    replace (zlen h + 1 + 1 =? zlen h + 2) with true by (symmetry; apply Z.eqb_eq; lia). cbn [orb negb mbind option_bind].
    assert (Ed1 : zdrop 1 (91 :: h ++ 93 :: 58 :: p) = h ++ 93 :: 58 :: p) by done.
    assert (Ed2 : zdrop (zlen h + 1 + 1) (91 :: h ++ 93 :: 58 :: p) = 58 :: p).
    { change (91 :: h ++ 93 :: 58 :: p) with ((91 :: h) ++ [93] ++ 58 :: p). rewrite app_assoc. apply zdrop_app_exact.
      rewrite zlen_app, zlen_cons, zlen_cons, zlen_nil. lia. }
    rewrite Ed1, Ed2, index_byte_none, index_byte_none; cbn; [..|rewrite in_app_iff; cbn; intuition lia]; [|intuition lia].
    f_equal. f_equal.
    + unfold zslice. rewrite Ed1. apply ztake_app_exact. lia.
    + replace (zlen h + 2 + 1) with (zlen ((91 :: h ++ [93]) ++ [58])).
      2:{ cbn [app]. rewrite zlen_cons, !zlen_app, !zlen_cons, !zlen_nil. lia. }
      replace (91 :: h ++ 93 :: 58 :: p) with (((91 :: h ++ [93]) ++ [58]) ++ p) by (cbn [app]; by rewrite <- !app_assoc).
      by apply zdrop_app_exact.
  - assert (Hc : ~ In 58 h).
    { destruct (index_byte_spec 58 h) as [[_ ?]|[? _]]; [done|]. bool_to_prop. lia. }
    unfold split_host_port. rewrite last_index_app by done. destruct (Z.ltb_spec (zlen h) 0); [lia|].
    rewrite ztake_app_exact by done. rewrite bool_decide_eq_false_2.
    2:{ destruct h as [|x h]; cbn; intros [= E]. apply Hh1. subst. by left. }
    rewrite (index_byte_none 58 h) by done. cbn [mbind option_bind Z.leb Z.compare].
    change (zdrop 0 (h ++ 58 :: p)) with (h ++ 58 :: p).
    rewrite !index_byte_none by (rewrite in_app_iff; cbn; intuition lia). cbn.
    do 2 f_equal. replace (h ++ 58 :: p) with ((h ++ [58]) ++ p) by (by rewrite <- app_assoc).
    apply zdrop_app_exact. rewrite zlen_app, zlen_cons, zlen_nil. lia.
Qed.

(** What [resolve] means: a bridge qualifies with its tunnel when the tunnel is
    connected and a rule matches, and the first such bridge is chosen. *)
Definition qualifies `{UnicodeCase} `{UnicodeFold} (connected : nat -> bool) (proc host : string) (b : BridgeEntry) (t : nat) : Prop :=
  b_tunnel b = Some t /\ connected t = true /\ exists rule, rule ∈ Rules b /\ matchPattern (Pattern rule) host proc = true.
Definition chosen `{UnicodeCase} `{UnicodeFold} (connected : nat -> bool) (host : string) (v : view) (r : option nat) : Prop :=
  (exists before b behind t, v.2 = before ++ b :: behind /\ (forall b' u, b' ∈ before -> ~ qualifies connected v.1.2 host b' u) /\ qualifies connected v.1.2 host b t /\ r = Some t)
  \/ ((forall b u, b ∈ v.2 -> ~ qualifies connected v.1.2 host b u) /\ r = v.1.1).

Lemma serves_qualifies `{UnicodeCase} `{UnicodeFold} connected proc host b t : serves connected proc host b = Some t <-> qualifies connected proc host b t.
Proof.
  unfold serves, qualifies. destruct (b_tunnel b) as [u|]; [|split; [done|intros ([=] & _)]]. split.
  - destruct (connected u && existsb _ _) eqn:E; [|done]. intros [= ->]. apply andb_true_iff in E as [Hc He]. apply existsb_exists in He as (x & Hx & Hm).
    split_and!; [done..|]. exists x. split; [apply list_elem_of_In|]; done.
  - intros ([= ->] & Hc & x & Hx & Hm). rewrite Hc. cbn [andb]. rewrite (proj2 (existsb_exists _ _)); [done|]. exists x. split; [apply list_elem_of_In|]; done.
Qed.

Lemma choose_chosen `{UnicodeCase} `{UnicodeFold} connected host v : chosen connected host v (choose connected host v).
Proof.
  unfold chosen, choose. destruct v as [[pr proc] bs]. cbn. induction bs as [|b bs IH]; cbn; [right; split; [intros b u Hb; set_solver|done]|].
  destruct (serves connected proc host b) as [t|] eqn:Es; cbn.
  - left. exists [], b, bs, t. split_and!; [done|set_solver|by apply serves_qualifies|done].
  - assert (Hn : forall u, ~ qualifies connected proc host b u) by (intros u Hu; apply serves_qualifies in Hu; congruence). destruct IH as [(l & b1 & l' & t & E & Hl & Hq & Hr)|[Hno Hr]].
    + left. exists (b :: l), b1, l', t. split_and!; [by rewrite E| |done|done]. intros b' u Hin. apply elem_of_cons in Hin as [->|Hin]; auto.
    + right. split; [|done]. intros b' u Hin. apply elem_of_cons in Hin as [->|Hin]; auto.
Qed.

(** ** The theorems *)

(** C15: after any sequence of calls, whatever arrays the appends reallocate, the
    slice of pointers holds what the calls mean on a plain list (an added bridge
    replaces the one with its id and goes to the end, a removed one is gone, an
    attached tunnel or new rules change the one bridge with the id); ids stay
    distinct and rules carry their bridge's id; and [resolve] returns the tunnel of
    the first bridge whose tunnel is connected and that has a matching rule, else
    the primary tunnel. *)
Theorem router_resolves `{UnicodeCase} `{UnicodeFold} t cs connected host :
  let w := fold_left exec cs (NewMultiRouter t) in
  let v := fold_left spec cs (t, "", []) in
  view_of w = v /\ NoDup (map b_ID v.2) /\ Forall rules_ok v.2 /\
  exists r, resolve connected host w = Some r /\ chosen connected host v r.
Proof.
  cbn. destruct (new_ok t) as [Hr Hl]. destruct (calls_refine cs (NewMultiRouter t) (t, "", []) Hr Hl eq_refl) as (Hr' & [Hn Hf] & Hv).
  rewrite <- Hv. split_and!; [done..|]. eexists. split; [by apply resolve_ok|]. apply choose_chosen.
Qed.

(** Three bridges of which the second serves every host. *)
Definition three_bridges (conn2 : nat) : world :=
  fold_left exec [CAdd 3 "a" "10.0.0.1:443" [] (Some 1%nat); CAdd 0 "b" "10.0.0.2:443" ["*"] (Some conn2);
                  CAdd 0 "c" "10.0.0.3:443" [] (Some 3%nat)] (NewMultiRouter (Some 9%nat)).

(** [resolve] walks the slice without the lock, and a removal moves the
    pointers down under it: a bridge that is connected, has a matching rule and is
    in the list before and after is stepped over, and the stream goes to the
    primary tunnel, although [resolve] before or after the removal returns the
    bridge's tunnel. *)
Theorem removal_hides_bridge `{UnicodeCase} `{UnicodeFold} connected host t : connected t = true ->
  let w := three_bridges t in
  let w' := RemoveBridge "a" w in
  resolve connected host w = Some (Some t) /\ resolve connected host w' = Some (Some t) /\
  exists r, resolve_turn connected host w (resolve_begin w) = inr r /\
  resolve_loop 2 connected host w' r = Some (Some 9%nat).
Proof.
  intros Ht. cbn zeta. unfold three_bridges.
  set (w := fold_left exec _ _). vm_compute in w. set (w' := RemoveBridge "a" w). vm_compute in w'.
  assert (Hs : serves connected "" host (mkBridge "b" "10.0.0.2:443" [mkRule "b:*" "*" "b"] (Some t)) = Some t).
  { unfold serves. cbn. by rewrite Ht. }
  assert (Hn : forall id a u, serves connected "" host (mkBridge id a [] (Some u)) = None).
  { intros. unfold serves. cbn. by rewrite andb_false_r. }
  split_and!.
  - unfold resolve, w. cbn -[serves]. rewrite Hn. cbn -[serves]. by rewrite Hs.
  - unfold resolve, w'. cbn -[serves]. by rewrite Hs.
  - eexists. unfold resolve_turn at 1, w, w'. cbn -[serves]. rewrite Hn. split; [done|]. cbn -[serves]. rewrite Hn. cbn -[serves]. by rewrite Hn.
Qed.

(** A dial through [DialStream] takes the tunnel that [OpenStream] takes for the
    host, also when the host is an IPv6 address and in brackets. *)
Theorem dial_routes_like_open `{UnicodeCase} `{UnicodeFold} connected host port w :
  host <> "" -> Forall (fun c => c <> 91 /\ c <> 93) (bytes_of_string host) ->
  Forall (fun c => c <> 91 /\ c <> 93 /\ c <> 58) (bytes_of_string port) ->
  DialStream_tunnel connected (JoinHostPort host port) w = OpenStream_tunnel connected host w.
Proof.
  intros Hne Hh Hp. unfold DialStream_tunnel, OpenStream_tunnel. f_equal. unfold dial_host, SplitHostPort.
  assert (Hb : forall l (P : Z -> Prop) c, Forall P l -> (P c -> False) -> ~ In c l).
  { intros l P c Hf HP Hin. rewrite List.Forall_forall in Hf. eauto. }
  assert (E : bytes_of_string (JoinHostPort host port) =
    if 0 <=? index_byte 58 (bytes_of_string host) then 91 :: bytes_of_string host ++ 93 :: 58 :: bytes_of_string port
    else bytes_of_string host ++ 58 :: bytes_of_string port).
  { unfold JoinHostPort, IndexByte. destruct (0 <=? _); by rewrite !bytes_of_string_app. }
  rewrite E, split_join; [|eapply Hb; [eassumption|cbn; lia]..]. cbn. rewrite string_of_bytes_of_string.
  by rewrite bool_decide_eq_false_2.
Qed.

(** A bridge that is added again while the connection of the first attempt is still
    being made gets that attempt's tunnel when it comes last. *)
Theorem late_attach_wins t0 t1 t2 :
  let w := fold_left exec [CAdd 0 "b" "old:443" ["*"] None; CAdd 0 "b" "new:443" ["*"] None;
                           CAttach "b" (Some t2); CAttach "b" (Some t1)] (NewMultiRouter t0) in
  bridge_list w = [mkBridge "b" "new:443" (buildRouteRules "b" ["*"]) (Some t1)].
Proof. reflexivity. Qed.

(** ** Witnesses *)
Module RouterWitnesses.

#[local] Instance AsciiCase : UnicodeCase := {| unicode_lower s := s; unicode_upper s := s |}.
#[local] Instance AsciiFold : UnicodeFold := {| unicode_equal_fold s t := bool_decide (s = t) |}.

Example match_patterns :
  map (fun '(p, h) => matchPattern p h "/usr/bin/Curl")
    [("*", "x"); ("process:curl", "x"); ("10.0.0.0/8", "10.1.2.3"); ("10.0.0.0/8", "11.1.2.3");
     ("*.Example.com", "a.EXAMPLE.com"); ("*.example.com", "example.com"); ("*.example.com", "badexample.com"); ("a.b", "A.B")] =
  [true; true; true; false; true; true; false; true].
Proof. vm_compute. reflexivity. Qed.

Lemma removal_hides_bridge_witness :
  exists r, resolve_turn Nat.even "example.com" (three_bridges 2) (resolve_begin (three_bridges 2)) = inr r /\
  resolve_loop 2 Nat.even "example.com" (RemoveBridge "a" (three_bridges 2)) r = Some (Some 9%nat).
Proof. apply (removal_hides_bridge Nat.even "example.com" 2). reflexivity. Defined.

Lemma dial_routes_like_open_witness :
  DialStream_tunnel Nat.even "[2001:db8::1]:443" (three_bridges 2) = OpenStream_tunnel Nat.even "2001:db8::1" (three_bridges 2).
Proof.
  apply (dial_routes_like_open Nat.even "2001:db8::1" "443" (three_bridges 2)); [done|..]; (apply (bool_decide_unpack _); vm_compute; exact I).
Defined.

End RouterWitnesses.
