(* ===== verification/KillSwitch.v ===== *)
(** The kill switch, src/core/killswitch: the state kept by killswitch.go over a
    platform, and the platform of killswitch_linux.go, which drives [iptables].

    [iptables], [iptables-save] and [iptables-restore] are programs outside the
    repository: the class [Iptables] runs them on a firewall state, and
    [IptablesLaws] states the documented effect of the subcommands used, on the
    table of chains; any command may fail, and then changes nothing.  The platform
    is the class [Platform] of killswitch.go, so that the theorems about
    [KillSwitch] hold for each of the three systems. *)

From S2P Require Import Prelude GoStr NetIP.

Module KillSwitch.

(** ** killswitch.go *)

Inductive State := StateDisabled | StateEnabled | StateActive.

#[global] Instance State_eq_dec : EqDecision State.
Proof. solve_decision. Defined.

Definition State_String (s : State) : string :=
  match s with StateDisabled => "disabled" | StateEnabled => "enabled" | StateActive => "active" end.

Record Config := mkConfig {
  Enabled : bool; AllowLAN : bool; AllowDNS : bool; PersistRules : bool; AllowedIPs : list string
}.

Definition DefaultConfig : Config := mkConfig false true false false [].

(** The interface of a system's firewall: every operation acts on [plat] and may
    return an error. *)
Class Platform := {
  plat : Type;
  p_supported : plat -> bool;
  p_enable : IP -> Z -> bool -> bool -> list IP -> plat -> plat * option string;
  p_disable : plat -> plat * option string;
  p_active : plat -> bool;
  p_cleanup : plat -> plat * option string
}.

Section Switch.
Context {P : Platform}.

Record KillSwitch := mkKS {
  config : Config; state : State; vpnIP : option IP; vpnPort : Z; localIPs : list IP; impl : plat;
  notified : list State
}.

Definition New (cfg : option Config) (locals : list IP) (p : plat) : KillSwitch :=
  mkKS (default DefaultConfig cfg) StateDisabled None 0 locals p [].

Definition SetVPNServer (ip : IP) (port : Z) (ks : KillSwitch) : KillSwitch :=
  mkKS (config ks) (state ks) (Some ip) port (localIPs ks) (impl ks) (notified ks).

(** The addresses that stay reachable. *)
Definition allowed (cfg : Config) (locals : list IP) : list IP :=
  omap ParseIP (AllowedIPs cfg) ++ (if AllowLAN cfg then locals else []).

Definition set_state (s : State) (p : plat) (ks : KillSwitch) : KillSwitch :=
  mkKS (config ks) s (vpnIP ks) (vpnPort ks) (localIPs ks) p (notified ks ++ [s]).
Definition set_impl (p : plat) (ks : KillSwitch) : KillSwitch :=
  mkKS (config ks) (state ks) (vpnIP ks) (vpnPort ks) (localIPs ks) p (notified ks).

Definition Enable (ks : KillSwitch) : KillSwitch * option string :=
  if negb (p_supported (impl ks)) then (ks, Some "kill switch not supported on this platform")
  else if decide (state ks = StateActive) then (ks, None)
  else match vpnIP ks with
       | None => (ks, Some "VPN server IP not set")
       | Some ip =>
           match p_enable ip (vpnPort ks) (AllowLAN (config ks)) (AllowDNS (config ks)) (allowed (config ks) (localIPs ks)) (impl ks) with
           | (p, Some e) => (set_impl p ks, Some ("failed to enable kill switch: " +:+ e))
           | (p, None) => (set_state StateActive p ks, None)
           end
       end.

Definition Disable (ks : KillSwitch) : KillSwitch * option string :=
  if decide (state ks = StateDisabled) then (ks, None)
  else match p_disable (impl ks) with
       | (p, Some e) => (set_impl p ks, Some ("failed to disable kill switch: " +:+ e))
       | (p, None) => (set_state StateDisabled p ks, None)
       end.

Definition IsActive (ks : KillSwitch) : bool := bool_decide (state ks = StateActive).

Definition with_config (cfg : Config) (ks : KillSwitch) : KillSwitch :=
  mkKS cfg (state ks) (vpnIP ks) (vpnPort ks) (localIPs ks) (impl ks) (notified ks).

Definition UpdateConfig (cfg : Config) (ks : KillSwitch) : KillSwitch * option string :=
  let wasActive := bool_decide (state ks = StateActive) in
  match (if wasActive then p_disable (impl ks) else (impl ks, None)) with
  | (p, Some e) => (set_impl p ks, Some e)
  | (p, None) =>
      let ks := with_config cfg (set_impl p ks) in
      if wasActive && Enabled cfg then
        match p_enable (default [] (vpnIP ks)) (vpnPort ks) (AllowLAN cfg) (AllowDNS cfg) (allowed cfg (localIPs ks)) (impl ks) with
        | (p, e) => (set_impl p ks, e)
        end
      else (ks, None)
  end.

Definition Shutdown (ks : KillSwitch) : KillSwitch * option string :=
  match (if PersistRules (config ks) then (impl ks, None) else p_cleanup (impl ks)) with
  | (p, Some e) => (set_impl p ks, Some e)
  | (p, None) => (mkKS (config ks) StateDisabled (vpnIP ks) (vpnPort ks) (localIPs ks) p (notified ks), None)
  end.

(** The complaint of [MonitorHealth], if any. *)
Definition MonitorHealth (ks : KillSwitch) : option string :=
  if negb (Enabled (config ks)) || negb (p_supported (impl ks)) then None
  else if negb (p_active (impl ks)) && bool_decide (state ks = StateActive)
       then Some "kill switch rules unexpectedly deactivated" else None.

Inductive call :=
| CSetServer (ip : IP) (port : Z) | CEnable | CDisable | CUpdate (cfg : Config) | CShutdown.

Definition exec (ks : KillSwitch) (c : call) : KillSwitch :=
  match c with
  | CSetServer ip port => SetVPNServer ip port ks
  | CEnable => (Enable ks).1
  | CDisable => (Disable ks).1
  | CUpdate cfg => (UpdateConfig cfg ks).1
  | CShutdown => (Shutdown ks).1
  end.

End Switch.

(** ** killswitch_linux.go *)

Class Iptables := {
  fw : Type;
  iptables : list string -> fw -> fw * option string;
  iptables_save : fw -> option string;
  iptables_restore : string -> fw -> fw * option string
}.

Definition chainName : string := "WHISPERA_KILLSWITCH".

Section Linux.
Context {I : Iptables}.

Record LinuxKillSwitch := mkLinux { rulesActive : bool; savedRules : string; firewall : fw }.

Definition with_fw (l : LinuxKillSwitch) (f : fw) : LinuxKillSwitch := mkLinux (rulesActive l) (savedRules l) f.

Definition runIPTables (args : list string) (l : LinuxKillSwitch) : LinuxKillSwitch * option string :=
  let '(f, e) := iptables args (firewall l) in (with_fw l f, e).
Definition tryRule (l : LinuxKillSwitch) (args : list string) : LinuxKillSwitch := (runIPTables args l).1.

Definition linux_IsSupported (l : LinuxKillSwitch) : bool :=
  match (runIPTables ["-L"; "-n"] l).2 with None => true | Some _ => false end.

Definition createChain (l : LinuxKillSwitch) : LinuxKillSwitch * option string :=
  match runIPTables ["-L"; chainName; "-n"] l with
  | (l, None) => (l, None)
  | (l, Some _) => runIPTables ["-N"; chainName] l
  end.

Definition saveCurrentRules (l : LinuxKillSwitch) : LinuxKillSwitch :=
  match iptables_save (firewall l) with
  | Some s => mkLinux (rulesActive l) s (firewall l)
  | None => l
  end.
Definition restoreRules (l : LinuxKillSwitch) : LinuxKillSwitch :=
  if bool_decide (savedRules l = "") then l else with_fw l (iptables_restore (savedRules l) (firewall l)).1.

Definition disableLocked (l : LinuxKillSwitch) : LinuxKillSwitch :=
  let l := fold_left tryRule
             [["-D"; "INPUT"; "-j"; chainName]; ["-D"; "OUTPUT"; "-j"; chainName]; ["-D"; "FORWARD"; "-j"; chainName];
              ["-F"; chainName]; ["-X"; chainName]] l in
  restoreRules (mkLinux false (savedRules l) (firewall l)).

Definition to (a : string) : list string := ["-d"; a; "-j"; "ACCEPT"].
Definition from (a : string) : list string := ["-s"; a; "-j"; "ACCEPT"].
Definition both (a : string) : list (list string) := [to a; from a].

Definition lanRanges : list string := ["10.0.0.0/8"; "172.16.0.0/12"; "192.168.0.0/16"; "169.254.0.0/16"].
Definition tunInterfaces : list string := ["tun0"; "tun1"; "tap0"; "tap1"; "wg0"; "wg1"].

(** The rules that must be added, and those that may fail. *)
Definition required_rules (vpn : IP) : list (list string) :=
  [["-i"; "lo"; "-j"; "ACCEPT"]; ["-o"; "lo"; "-j"; "ACCEPT"];
   ["-m"; "state"; "--state"; "ESTABLISHED,RELATED"; "-j"; "ACCEPT"]] ++ both (IP_String vpn).
Definition optional_rules (allowLAN allowDNS : bool) (ips : list IP) : list (list string) :=
  (if allowLAN then lanRanges ≫= both else []) ++
  (if allowDNS then [["-p"; "udp"; "--dport"; "53"; "-j"; "ACCEPT"]; ["-p"; "tcp"; "--dport"; "53"; "-j"; "ACCEPT"]] else []) ++
  (ips ≫= fun ip => both (IP_String ip)) ++
  (tunInterfaces ≫= fun i => [["-i"; i; "-j"; "ACCEPT"]; ["-o"; i; "-j"; "ACCEPT"]]).

(** Commands up to the first error. *)
Fixpoint run_all (cmds : list (list string)) (l : LinuxKillSwitch) : LinuxKillSwitch * option string :=
  match cmds with
  | [] => (l, None)
  | c :: cmds => match runIPTables c l with
                 | (l, None) => run_all cmds l
                 | (l, Some e) => (l, Some e)
                 end
  end.

Definition enable_rules (vpn : IP) (allowLAN allowDNS : bool) (ips : list IP) (l : LinuxKillSwitch) : LinuxKillSwitch * option string :=
  match createChain l with
  | (l, Some e) => (l, Some e)
  | (l, None) =>
      let l := tryRule l ["-F"; chainName] in
      match run_all (map (fun r => "-A" :: chainName :: r) (required_rules vpn)) l with
      | (l, Some e) => (l, Some e)
      | (l, None) =>
          let l := fold_left tryRule (map (fun r => "-A" :: chainName :: r) (optional_rules allowLAN allowDNS ips)) l in
          match run_all [["-A"; chainName; "-j"; "DROP"]; ["-I"; "INPUT"; "1"; "-j"; chainName];
                         ["-I"; "OUTPUT"; "1"; "-j"; chainName]] l with
          | (l, Some e) => (l, Some e)
          | (l, None) => (tryRule l ["-I"; "FORWARD"; "1"; "-j"; chainName], None)
          end
      end
  end.

(** [Enable], with the deferred clean-up after an error; the port is not used. *)
Definition linux_Enable (vpn : IP) (port : Z) (allowLAN allowDNS : bool) (ips : list IP) (l : LinuxKillSwitch)
    : LinuxKillSwitch * option string :=
  match enable_rules vpn allowLAN allowDNS ips (saveCurrentRules l) with
  | (l, Some e) => (disableLocked l, Some e)
  | (l, None) => (mkLinux true (savedRules l) (firewall l), None)
  end.
Definition linux_Disable (l : LinuxKillSwitch) : LinuxKillSwitch * option string := (disableLocked l, None).

#[export] Instance LinuxPlatform : Platform := {|
  plat := LinuxKillSwitch; p_supported := linux_IsSupported; p_enable := linux_Enable; p_disable := linux_Disable;
  p_active := rulesActive; p_cleanup := linux_Disable
|}.

End Linux.

End KillSwitch.
