(* ===== verification/KillSwitchFacts.v ===== *)
(** What the kill switch of [KillSwitch] guarantees: which rules a successful
    [Enable] leaves in the firewall, that the reported state agrees with the
    platform, and where it does not. *)

From S2P Require Import Prelude GoStr NetIP KillSwitch.
Import KillSwitch.

(** ** The documented behaviour of iptables *)

Class IptablesLaws (I : Iptables) := {
  chains : fw -> gmap string (list (list string));
  ipt_fail : forall args f f' e, iptables args f = (f', Some e) -> chains f' = chains f;
  ipt_list : forall args f f', iptables ("-L" :: args) f = (f', None) -> chains f' = chains f;
  ipt_exists : forall c f f', iptables ["-L"; c; "-n"] f = (f', None) -> is_Some (chains f !! c);
  ipt_new : forall c f f', iptables ["-N"; c] f = (f', None) -> chains f !! c = None /\ chains f' = <[c := []]> (chains f);
  ipt_flush : forall c f f', iptables ["-F"; c] f = (f', None) -> is_Some (chains f !! c) /\ chains f' = <[c := []]> (chains f);
  ipt_append : forall c r f f', iptables ("-A" :: c :: r) f = (f', None) ->
    exists l, chains f !! c = Some l /\ chains f' = <[c := l ++ [r]]> (chains f);
  ipt_insert : forall c r f f', iptables ("-I" :: c :: "1" :: r) f = (f', None) ->
    exists l, chains f !! c = Some l /\ chains f' = <[c := r :: l]> (chains f)
}.

Section Linux.
Context {I : Iptables} {L : IptablesLaws I}.
Implicit Types (l : LinuxKillSwitch) (rs : list (list string)).

Definition table l : gmap string (list (list string)) := chains (firewall l).
Definition append_cmd (r : list string) : list string := "-A" :: chainName :: r.

Lemma run_append r l l' old : table l !! chainName = Some old -> runIPTables (append_cmd r) l = (l', None) ->
  table l' = <[chainName := old ++ [r]]> (table l) /\ savedRules l' = savedRules l.
Proof.
  unfold runIPTables, table. intros Hold. destruct (iptables _ (firewall l)) as [f e] eqn:E. intros [= <- ->].
  cbn. destruct (ipt_append _ _ _ _ E) as (k & Hk & ->). split; [|done]. congruence.
Qed.

Lemma run_fail args l l' e : runIPTables args l = (l', Some e) -> table l' = table l.
Proof. unfold runIPTables, table. destruct (iptables _ _) as [f e'] eqn:E. intros [= <- ->]. cbn. by eapply ipt_fail. Qed.

(** Required rules are all appended, in order. *)
Lemma run_all_append rs l l' old : table l !! chainName = Some old -> run_all (map append_cmd rs) l = (l', None) ->
  table l' = <[chainName := old ++ rs]> (table l).
Proof.
  revert l old. induction rs as [|r rs IH]; intros l old Hold; cbn.
  { intros [= <-]. rewrite app_nil_r. by rewrite insert_id. }
  destruct (runIPTables _ l) as [l1 [e|]] eqn:E; [done|]. intros Hr.
  destruct (run_append r l l1 old Hold E) as [E1 _]. rewrite (IH l1 (old ++ [r])); [|by rewrite E1, lookup_insert_eq|done].
  by rewrite E1, insert_insert_eq, <- app_assoc.
Qed.

(** Optional rules are appended as far as the commands work. *)
Lemma try_append rs l old : table l !! chainName = Some old ->
  exists rs', sublist rs' rs /\ table (fold_left tryRule (map append_cmd rs) l) = <[chainName := old ++ rs']> (table l).
Proof.
  revert l old. induction rs as [|r rs IH]; intros l old Hold; cbn.
  { exists []. split; [done|]. by rewrite app_nil_r, insert_id. }
  unfold tryRule at 2. destruct (runIPTables (append_cmd r) l) as [l1 [e|]] eqn:E; cbn.
  - apply run_fail in E. destruct (IH l1 old) as (rs' & Hs & Ht); [by rewrite E|].
    exists rs'. split; [by constructor|]. by rewrite Ht, E.
  - destruct (run_append r l l1 old Hold E) as [E1 _].
    destruct (IH l1 (old ++ [r])) as (rs' & Hs & Ht); [by rewrite E1, lookup_insert_eq|].
    exists (r :: rs'). split; [by constructor|]. by rewrite Ht, E1, insert_insert_eq, <- app_assoc.
Qed.

Lemma run_insert c r l l' : runIPTables ("-I" :: c :: "1" :: r) l = (l', None) ->
  exists k, table l !! c = Some k /\ table l' = <[c := r :: k]> (table l).
Proof.
  unfold runIPTables, table. destruct (iptables _ (firewall l)) as [f e] eqn:E. intros [= <- ->]. by apply ipt_insert in E.
Qed.

Lemma try_insert c r l : exists t, table (tryRule l ("-I" :: c :: "1" :: r)) = t /\
  (t = table l \/ exists k, table l !! c = Some k /\ t = <[c := r :: k]> (table l)).
Proof.
  eexists. split; [reflexivity|]. unfold tryRule. destruct (runIPTables _ l) as [l1 [e|]] eqn:E; cbn.
  - left. by eapply run_fail.
  - right. by apply run_insert.
Qed.

Definition before l : list (list string) := default [] (table l !! chainName).

Lemma createChain_ok l l' : createChain l = (l', None) -> table l' !! chainName = Some (before l) /\ forall c, c <> chainName -> table l' !! c = table l !! c.
Proof.
  unfold createChain, runIPTables, before, table. destruct (iptables ["-L"; _; "-n"] (firewall l)) as [f [e|]] eqn:E; cbn.
  - destruct (iptables ["-N"; _] f) as [f2 e2] eqn:E2. intros [= <- ->]. cbn.
    destruct (ipt_new _ _ _ E2) as [Hn ->]. rewrite (ipt_fail _ _ _ _ E) in Hn |- *. rewrite Hn, lookup_insert_eq. split; [done|]. intros c Hc. by rewrite lookup_insert_ne.
  - intros [= <-]. cbn. destruct (ipt_exists _ _ _ E) as [old Ho]. rewrite (ipt_list _ _ _ E), Ho. done.
Qed.

Lemma flush_ok l old : table l !! chainName = Some old ->
  exists stale, table (tryRule l ["-F"; chainName]) !! chainName = Some stale /\ (stale = [] \/ stale = old) /\ forall c, c <> chainName -> table (tryRule l ["-F"; chainName]) !! c = table l !! c.
Proof.
  intros Hold. unfold tryRule, runIPTables, table in *. destruct (iptables ["-F"; _] (firewall l)) as [f [e|]] eqn:E; cbn.
  - exists old. rewrite (ipt_fail _ _ _ _ E). auto.
  - destruct (ipt_flush _ _ _ E) as [_ ->]. exists []. rewrite lookup_insert_eq. split_and!; [done|auto|]. intros c Hc. by rewrite lookup_insert_ne.
Qed.

(** What [Enable] leaves in the firewall when it succeeds. *)
Lemma linux_enable_table vpn port lan dns ips l l' : linux_Enable vpn port lan dns ips l = (l', None) ->
  rulesActive l' = true /\
  exists stale opt, sublist opt (optional_rules lan dns ips) /\
    table l' !! chainName = Some (stale ++ required_rules vpn ++ opt ++ [["-j"; "DROP"]]) /\
    (stale = [] \/ stale = before l) /\
    (forall c, c = "INPUT" \/ c = "OUTPUT" -> exists k, table l !! c = Some k /\ table l' !! c = Some (["-j"; chainName] :: k)) /\
    (table l' !! "FORWARD" = table l !! "FORWARD" \/ exists k, table l !! "FORWARD" = Some k /\ table l' !! "FORWARD" = Some (["-j"; chainName] :: k)).
Proof.
  unfold linux_Enable, enable_rules. set (l0 := saveCurrentRules l).
  assert (T0 : table l0 = table l) by (unfold l0, saveCurrentRules, table; by destruct (iptables_save _)).
  assert (B0 : before l0 = before l) by (unfold before; by rewrite T0).
  destruct (createChain l0) as [l1 [e|]] eqn:E1; [done|]. destruct (createChain_ok _ _ E1) as [Ho1 Hx1].
  destruct (flush_ok l1 _ Ho1) as (stale & Hst & Hfl & Hx2). set (l2 := tryRule l1 _) in *.
  destruct (run_all (map _ (required_rules vpn)) l2) as [l3 [e|]] eqn:E3; [done|].
  apply (run_all_append _ _ _ stale) in E3; [|done].
  destruct (try_append (optional_rules lan dns ips) l3 (stale ++ required_rules vpn)) as (opt & Hopt & E4);
    [by rewrite E3, lookup_insert_eq|]. unfold append_cmd in E4.
  set (l4 := fold_left tryRule _ l3) in *. cbn [run_all].
  destruct (runIPTables ["-A"; _; "-j"; "DROP"] l4) as [l5 [e|]] eqn:E5; [done|].
  apply (run_append ["-j"; "DROP"] l4 l5 ((stale ++ required_rules vpn) ++ opt)) in E5 as [E5 _]; [|by rewrite E4, lookup_insert_eq].
  assert (Hsame : forall c, c <> chainName -> table l5 !! c = table l !! c).
  { intros c Hc. rewrite E5, lookup_insert_ne, E4, lookup_insert_ne, E3, lookup_insert_ne by congruence. rewrite Hx2, Hx1, T0 by done. done. }
  destruct (runIPTables ["-I"; "INPUT"; "1"; "-j"; chainName] l5) as [l6 [e|]] eqn:E6; [done|].
  destruct (runIPTables ["-I"; "OUTPUT"; "1"; "-j"; chainName] l6) as [l7 [e|]] eqn:E7; [done|].
  apply run_insert in E6 as (k6 & Hk6 & E6). apply run_insert in E7 as (k7 & Hk7 & E7). rewrite E6, lookup_insert_ne in Hk7 by done.
  destruct (try_insert "FORWARD" ["-j"; chainName] l7) as (t & Et & Ht). intros [= <-]. split; [done|].
  change (table (mkLinux true _ _)) with (table (tryRule l7 ["-I"; "FORWARD"; "1"; "-j"; chainName])). rewrite Et.
  assert (Hne : forall c, c <> "FORWARD" -> t !! c = table l7 !! c).
  { intros c Hc. destruct Ht as [->|(k & _ & ->)]; [done|]. by rewrite lookup_insert_ne by congruence. }
  assert (Hfw : table l7 !! "FORWARD" = table l !! "FORWARD") by (rewrite E7, lookup_insert_ne, E6, lookup_insert_ne by done; by apply Hsame).
  exists stale, opt. split; [done|]. split; [|split; [by rewrite <- B0|split]].
  - rewrite Hne, E7, lookup_insert_ne, E6, lookup_insert_ne, E5, lookup_insert_eq by done. f_equal. by rewrite <- !app_assoc.
  - intros c [->| ->]; rewrite Hne, E7 by done.
    + exists k6. rewrite <- Hsame by done. split; [done|]. rewrite lookup_insert_ne, E6, lookup_insert_eq by done. done.
    + exists k7. rewrite <- Hsame by done. split; [done|]. by rewrite lookup_insert_eq.
  - destruct Ht as [->|(k & Hk & ->)]; [by left|right]. exists k. rewrite <- Hfw. split; [done|]. by rewrite lookup_insert_eq.
Qed.

End Linux.

(** ** Packets *)

Section Packets.
Context {I : Iptables} {L : IptablesLaws I} {packet : Type} (matches : list string -> packet -> bool).

(** The target of the first rule that matches. *)
Fixpoint verdict (rs : list (list string)) (p : packet) : option string :=
  match rs with
  | [] => None
  | r :: rs => if matches r p then last r else verdict rs p
  end.

Lemma verdict_app rs ks p : Forall (fun r => matches r p = false) rs -> verdict (rs ++ ks) p = verdict ks p.
Proof. induction 1 as [|r rs Hr _ IH]; [done|]. cbn. by rewrite Hr. Qed.

Lemma verdict_accept rs ks p : Forall (fun r => last r = Some "ACCEPT") rs -> Exists (fun r => matches r p = true) rs ->
  verdict (rs ++ ks) p = Some "ACCEPT".
Proof.
  induction 1 as [|r rs Hr _ IH]; intros Hx; [by inversion Hx|]. cbn. destruct (matches r p) eqn:E; [done|].
  apply IH. inversion Hx; [congruence|done].
Qed.


End Packets.

(** ** The reported state *)

(** What killswitch.go expects of a platform. *)
Class PlatformLaws (P : Platform) := {
  pl_enable : forall ip port lan dns ips p p' e, p_enable ip port lan dns ips p = (p', e) ->
    p_active p' = match e with None => true | Some _ => false end;
  pl_disable : forall p p' e, p_disable p = (p', e) -> e = None /\ p_active p' = false;
  pl_cleanup : forall p p' e, p_cleanup p = (p', e) -> e = None /\ p_active p' = false
}.

Lemma restoreRules_active `{Iptables} l : rulesActive (restoreRules l) = rulesActive l.
Proof. unfold restoreRules. by case_bool_decide. Qed.

Lemma disableLocked_active `{Iptables} l : rulesActive (disableLocked l) = false.
Proof. unfold disableLocked. by rewrite restoreRules_active. Qed.

#[export] Instance LinuxLaws `{Iptables} : PlatformLaws LinuxPlatform.
Proof.
  split.
  - intros ip port lan dns ips p p' e. cbn. unfold linux_Enable. destruct (enable_rules _ _ _ _ _) as [l [e'|]]; intros [= <- <-]; [|done].
    apply disableLocked_active.
  - intros p p' e. cbn. unfold linux_Disable. intros [= <- <-]. split; [done|apply disableLocked_active].
  - intros p p' e. cbn. unfold linux_Disable. intros [= <- <-]. split; [done|apply disableLocked_active].
Qed.

Section State.
Context {P : Platform} {PL : PlatformLaws P}.

Definition agrees (ks : KillSwitch) : Prop :=
  IsActive ks = p_active (impl ks) /\ state ks <> StateEnabled /\ PersistRules (config ks) = false.

Lemma exec_agrees ks c : agrees ks -> (forall cfg, c <> CUpdate cfg) -> agrees (exec ks c).
Proof.
  intros (Ha & Hs & Hp) Hc. unfold agrees, IsActive in *. destruct c as [ip port| | |cfg|]; cbn [exec].
  - done.
  - unfold Enable. destruct (negb _); [done|]. destruct (decide _) as [E|E]; [done|]. destruct (vpnIP ks) as [ip|]; [|done].
    destruct (p_enable _ _ _ _ _ _) as [p [e|]] eqn:Ee; apply pl_enable in Ee; cbn; rewrite Ee; split_and!; try done.
    by rewrite bool_decide_eq_false_2.
  - unfold Disable. destruct (decide _) as [E|E]; [done|]. destruct (p_disable _) as [p e] eqn:Ee.
    apply pl_disable in Ee as [-> Ee]. cbn. by rewrite Ee.
  - by destruct (Hc cfg).
  - unfold Shutdown. rewrite Hp. destruct (p_cleanup _) as [p e] eqn:Ee. apply pl_cleanup in Ee as [-> Ee]. cbn. by rewrite Ee.
Qed.

(** As long as the configuration is not replaced, the state a kill switch
    reports is the state of the firewall's rules, whatever calls are made and
    whichever of them fail; so its health check has nothing to complain about. *)
Theorem killswitch_state_agrees cfg locals p cs :
  p_active p = false -> PersistRules (default DefaultConfig cfg) = false -> Forall (fun c => forall d, c <> CUpdate d) cs ->
  let ks := fold_left exec cs (New cfg locals p) in
  IsActive ks = p_active (impl ks) /\ MonitorHealth ks = None.
Proof.
  intros Hp Hc Hcs. assert (Hall : forall cs ks, agrees ks -> Forall (fun c => forall d, c <> CUpdate d) cs -> agrees (fold_left exec cs ks)).
  { clear -PL. induction cs as [|c cs IH]; intros ks Hk Hf; [done|]. apply Forall_cons in Hf as [H1 H2]. cbn. apply IH; [|done]. by apply exec_agrees. }
  destruct (Hall cs (New cfg locals p)) as (Ha & _ & _); [by split; [cbn; rewrite Hp|]|done|]. cbn zeta. split; [done|].
  unfold MonitorHealth. destruct (_ || _); [done|]. unfold IsActive in Ha. rewrite <- Ha. by destruct (bool_decide _).
Qed.

(** [UpdateConfig] of an active kill switch takes the rules away and never
    corrects the state when the new configuration is not enabled or the rules
    cannot be set again: the switch reports that it is active while nothing is
    blocked, and [Enable] returns success without doing anything. *)
Theorem update_leaves_open ks cfg ks' e : state ks = StateActive -> UpdateConfig cfg ks = (ks', e) ->
  Enabled cfg = false \/ e <> None ->
  IsActive ks' = true /\ p_active (impl ks') = false /\ (p_supported (impl ks') = true -> Enable ks' = (ks', None)).
Proof.
  intros Hs Hu Hc. unfold UpdateConfig in Hu. rewrite bool_decide_eq_true_2 in Hu by done.
  destruct (p_disable (impl ks)) as [p e1] eqn:Ed. apply pl_disable in Ed as [-> Ed]. cbn [andb] in Hu.
  assert (state ks' = StateActive /\ p_active (impl ks') = false) as [H1 H2].
  { destruct (Enabled cfg) eqn:Ec; [|injection Hu as <- <-; done].
    destruct (p_enable _ _ _ _ _ _) as [p2 e2] eqn:Ee. injection Hu as <- <-. cbn. apply pl_enable in Ee.
    rewrite Ee. split; [done|]. destruct Hc as [?|Hc]; [done|]. by destruct e2. }
  unfold IsActive. rewrite bool_decide_eq_true_2 by done. split_and!; [done..|]. intros Hsup. unfold Enable. rewrite Hsup. cbn.
  by rewrite decide_True.
Qed.

End State.

(** ** Witnesses: a firewall that is its table of chains *)
Module SwitchWitnesses.

Definition op (args : list string) : string := default "" (head args).

Definition run (args : list string) (f : gmap string (list (list string))) : gmap string (list (list string)) * option string :=
  let c := default "" (head (tail args)) in
  let fail := (f, Some "No chain/target/match by that name.") in
  match f !! c with
  | Some l =>
      if bool_decide (op args = "-L") then (f, None)
      else if bool_decide (op args = "-F") then (<[c := []]> f, None)
      else if bool_decide (op args = "-A") then (<[c := l ++ [drop 2 args]]> f, None)
      else if bool_decide (op args = "-I") then (<[c := drop 3 args :: l]> f, None)
      else fail
  | None => if bool_decide (op args = "-N") then (<[c := []]> f, None)
            else if bool_decide (op args = "-L" /\ tail args = ["-n"]) then (f, None) else fail
  end.

#[local] Instance TableFirewall : Iptables :=
  {| fw := gmap string (list (list string)); iptables := run; iptables_save _ := None; iptables_restore _ f := (f, None) |}.

Ltac run_cases :=
  cbn [iptables TableFirewall]; unfold run, op; cbn [head tail default from_option];
  repeat first [case_match | case_bool_decide].

#[local] Instance TableLaws : IptablesLaws TableFirewall.
Proof.
  refine {| chains := (fun f : @fw TableFirewall => f) |}.
  - intros args f f' e. run_cases; intros [= <- _]; done || congruence.
  - intros args f f'. run_cases; intros; simplify_eq; done.
  - intros c f f'. run_cases; intros; simplify_eq/=; eauto; naive_solver.
  - intros c f f'. run_cases; intros; simplify_eq/=; try done; naive_solver.
  - intros c f f'. run_cases; intros; simplify_eq/=; eauto; naive_solver.
  - intros c r f f'. run_cases; intros; simplify_eq/=; eauto; naive_solver.
  - intros c r f f'. run_cases; intros; simplify_eq/=; eauto; naive_solver.
Defined.

Definition empty_fw : gmap string (list (list string)) := {["INPUT" := []; "OUTPUT" := []; "FORWARD" := []]}.
Definition off : LinuxKillSwitch := mkLinux false "" empty_fw.
Definition server : IP := v4InV6Prefix ++ [192; 0; 2; 7].

(** A packet is its destination; it matches rules on that address. *)
Definition dest_matches (r : list string) (d : string) : bool :=
  bool_decide (r = ["-d"; d; "-j"; "ACCEPT"]) || bool_decide (length r = 2%nat).

Definition on : LinuxKillSwitch := (linux_Enable server 443 false false [] off).1.


Definition cfg_on : Config := mkConfig true false false false [].
Definition armed : KillSwitch := fold_left exec [CSetServer server 443; CEnable] (New (P := LinuxPlatform) (Some cfg_on) [] off).

Lemma killswitch_state_agrees_witness : IsActive armed = true /\ p_active (impl armed) = true /\ MonitorHealth armed = None.
Proof.
  destruct (killswitch_state_agrees (P := LinuxPlatform) (Some cfg_on) [] off [CSetServer server 443; CEnable]) as [H1 H2].
  - reflexivity.
  - reflexivity.
  - repeat constructor; congruence.
  - split_and!; [vm_compute; reflexivity|vm_compute; reflexivity|exact H2].
Defined.

Definition cfg_off : Config := mkConfig false false false false [].
Lemma update_leaves_open_witness :
  let ks := (UpdateConfig cfg_off armed).1 in IsActive ks = true /\ p_active (impl ks) = false.
Proof.
  destruct (update_leaves_open armed cfg_off (UpdateConfig cfg_off armed).1 (UpdateConfig cfg_off armed).2) as (H1 & H2 & _).
  - vm_compute. reflexivity.
  - by destruct (UpdateConfig cfg_off armed).
  - left. reflexivity.
  - split; [exact H1|exact H2].
Defined.

End SwitchWitnesses.
