(* ===== verification/TunnelManager.v ===== *)
(** The tunnel manager, src/core/tunnel/tunnel.go, with the settings of config.go
    and connect_config.go and the connection set-up of datapath.go.  It composes
    the state machine and the breaker of [Tunnel] and the pool of [IdleSet].

    A dial is an outcome given by the environment ([dial_result]); the loop of
    [Reconnect] is run on a list of attempts, each with the outcome of its dial, the
    time, and whether the context is cancelled before it or during the wait behind
    it.  When the list ends the context is cancelled.  Durations are nanoseconds. *)

From S2P Require Import Prelude Tunnel IdleSet.
Import Tunnel.

Module TunnelManager.

(** ** config.go and connect_config.go *)

(** The fields that the operations below read or change; the others only reach the
    dialers. *)
Record Config := mkConfig {
  ServerAddr : string; Transport : string;
  KeepaliveInterval : Z; ReconnectInterval : Z; ReconnectMaxDelay : Z; MaxReconnectAttempts : Z; ConnectionTimeout : Z;
  ForceObfuscation : bool; CustomSNI : string; RateLimitKB : Z; TLSFragmentSize : Z;
  TransportConfig : option (gmap string string)
}.

Definition second : Z := 1000000000.

Definition DefaultConfig : Config :=
  mkConfig "" "" (15 * second) (2 * second) (30 * second) 0 (90 * second) true "" 0 0 None.

Definition or_default (d z : Z) : Z := if z <=? 0 then d else z.

Definition Validate (c : Config) : Config :=
  mkConfig (ServerAddr c) (Transport c)
    (or_default (10 * second) (KeepaliveInterval c)) (or_default (2 * second) (ReconnectInterval c))
    (or_default (30 * second) (ReconnectMaxDelay c)) (MaxReconnectAttempts c) (or_default (90 * second) (ConnectionTimeout c))
    (ForceObfuscation c) (CustomSNI c) (RateLimitKB c) (TLSFragmentSize c) (TransportConfig c).

Definition with_transport (c : Config) (t : string) : Config :=
  mkConfig (ServerAddr c) t (KeepaliveInterval c) (ReconnectInterval c) (ReconnectMaxDelay c) (MaxReconnectAttempts c)
    (ConnectionTimeout c) (ForceObfuscation c) (CustomSNI c) (RateLimitKB c) (TLSFragmentSize c) (TransportConfig c).
Definition with_fragment (c : Config) (n : Z) : Config :=
  mkConfig (ServerAddr c) (Transport c) (KeepaliveInterval c) (ReconnectInterval c) (ReconnectMaxDelay c) (MaxReconnectAttempts c)
    (ConnectionTimeout c) (ForceObfuscation c) (CustomSNI c) (RateLimitKB c) n (TransportConfig c).
Definition with_sni_default (c : Config) : Config :=
  mkConfig (ServerAddr c) (Transport c) (KeepaliveInterval c) (ReconnectInterval c) (ReconnectMaxDelay c) (MaxReconnectAttempts c)
    (ConnectionTimeout c) (ForceObfuscation c) (CustomSNI c) (RateLimitKB c) (TLSFragmentSize c)
    (if bool_decide (CustomSNI c = "") then TransportConfig c
     else let m := default ∅ (TransportConfig c) in
          Some (match m !! "sni" with Some _ => m | None => <["sni" := CustomSNI c]> m end)).

(** Atomic [int32]s. *)
Record connConfig := mkConn {
  rateLimitKB : Z; tlsFragmentSize : Z; transportSecureOverride : Z; forceObfuscation : Z
}.
Definition SetRateLimitKB (kbps : Z) (c : connConfig) : connConfig :=
  mkConn (i32 kbps) (tlsFragmentSize c) (transportSecureOverride c) (forceObfuscation c).
Definition conn_SetTLSFragmentSize (size : Z) (c : connConfig) : connConfig :=
  mkConn (rateLimitKB c) (i32 (if size <? 0 then 0 else size)) (transportSecureOverride c) (forceObfuscation c).
Definition conn_SetForceObfuscation (enabled : bool) (c : connConfig) : connConfig :=
  if enabled then mkConn (rateLimitKB c) (tlsFragmentSize c) 0 1 else mkConn (rateLimitKB c) (tlsFragmentSize c) 1 0.
Definition conn_IsForceObfuscation (c : connConfig) : bool := transportSecureOverride c =? 0.

(** ** tunnel.go *)

(** [killSwitch] is [None] without one, else whether its rules are on; [shut] lists
    the connections closed so far, [lane] whether the datagram lane was started. *)
Record Manager := mkManager {
  config : Config; sm : StateMachine.tunnelStateMachine; cb : Breaker.circuitBreaker;
  idle : IdleSet.idleSet; shut : list nat; muxClient : bool; killSwitch : option bool; lane : bool;
  connCfg : connConfig; currentSNI : string; lastGoodSNI : string; lastGoodTransport : string;
  reconnecting : bool; reconnectDone : nat; dones : list bool; reconnectAttempts : Z;
  boFailCount : Z; boLastSuccessAt : Z; connectedAt : Z; healthy : bool; healthMsg : string
}.

Definition New (cfg : option Config) (ks : option bool) : Manager :=
  let cfg := Validate (default DefaultConfig cfg) in
  let cc := mkConn 0 0 0 (if ForceObfuscation cfg then 1 else 0) in
  mkManager (with_sni_default cfg) StateMachine.newTunnelStateMachine Breaker.newCircuitBreaker
    IdleSet.new_set [] false ks false (if 0 <? RateLimitKB cfg then SetRateLimitKB (RateLimitKB cfg) cc else cc)
    "" "" "" false 0 [true] 0 0 0 0 true "initialized".

Definition set_sm (s : StateMachine.tunnelStateMachine) (m : Manager) : Manager :=
  mkManager (config m) s (cb m) (idle m) (shut m) (muxClient m) (killSwitch m) (lane m) (connCfg m) (currentSNI m)
    (lastGoodSNI m) (lastGoodTransport m) (reconnecting m) (reconnectDone m) (dones m) (reconnectAttempts m)
    (boFailCount m) (boLastSuccessAt m) (connectedAt m) (healthy m) (healthMsg m).
Definition set_cb (b : Breaker.circuitBreaker) (m : Manager) : Manager :=
  mkManager (config m) (sm m) b (idle m) (shut m) (muxClient m) (killSwitch m) (lane m) (connCfg m) (currentSNI m)
    (lastGoodSNI m) (lastGoodTransport m) (reconnecting m) (reconnectDone m) (dones m) (reconnectAttempts m)
    (boFailCount m) (boLastSuccessAt m) (connectedAt m) (healthy m) (healthMsg m).
Definition set_config (c : Config) (m : Manager) : Manager :=
  mkManager c (sm m) (cb m) (idle m) (shut m) (muxClient m) (killSwitch m) (lane m) (connCfg m) (currentSNI m)
    (lastGoodSNI m) (lastGoodTransport m) (reconnecting m) (reconnectDone m) (dones m) (reconnectAttempts m)
    (boFailCount m) (boLastSuccessAt m) (connectedAt m) (healthy m) (healthMsg m).
Definition set_idle (i : IdleSet.idleSet) (closed : list nat) (m : Manager) : Manager :=
  mkManager (config m) (sm m) (cb m) i (shut m ++ closed) (muxClient m) (killSwitch m) (lane m) (connCfg m) (currentSNI m)
    (lastGoodSNI m) (lastGoodTransport m) (reconnecting m) (reconnectDone m) (dones m) (reconnectAttempts m)
    (boFailCount m) (boLastSuccessAt m) (connectedAt m) (healthy m) (healthMsg m).
Definition set_mux (x : bool) (m : Manager) : Manager :=
  mkManager (config m) (sm m) (cb m) (idle m) (shut m) x (killSwitch m) (lane m) (connCfg m) (currentSNI m)
    (lastGoodSNI m) (lastGoodTransport m) (reconnecting m) (reconnectDone m) (dones m) (reconnectAttempts m)
    (boFailCount m) (boLastSuccessAt m) (connectedAt m) (healthy m) (healthMsg m).
Definition set_killSwitch (k : option bool) (m : Manager) : Manager :=
  mkManager (config m) (sm m) (cb m) (idle m) (shut m) (muxClient m) k (lane m) (connCfg m) (currentSNI m)
    (lastGoodSNI m) (lastGoodTransport m) (reconnecting m) (reconnectDone m) (dones m) (reconnectAttempts m)
    (boFailCount m) (boLastSuccessAt m) (connectedAt m) (healthy m) (healthMsg m).
Definition set_connected (now : Z) (ln : bool) (m : Manager) : Manager :=
  mkManager (config m) (sm m) (cb m) (idle m) (shut m) (muxClient m) (killSwitch m) (lane m || ln) (connCfg m) (currentSNI m)
    (lastGoodSNI m) (lastGoodTransport m) (reconnecting m) (reconnectDone m) (dones m) (reconnectAttempts m)
    (boFailCount m) (boLastSuccessAt m) now (healthy m) (healthMsg m).
Definition set_sni (s : string) (m : Manager) : Manager :=
  mkManager (config m) (sm m) (cb m) (idle m) (shut m) (muxClient m) (killSwitch m) (lane m) (connCfg m) s
    (lastGoodSNI m) (lastGoodTransport m) (reconnecting m) (reconnectDone m) (dones m) (reconnectAttempts m)
    (boFailCount m) (boLastSuccessAt m) (connectedAt m) (healthy m) (healthMsg m).
Definition set_reconnect (r : bool) (d : nat) (ds : list bool) (m : Manager) : Manager :=
  mkManager (config m) (sm m) (cb m) (idle m) (shut m) (muxClient m) (killSwitch m) (lane m) (connCfg m) (currentSNI m)
    (lastGoodSNI m) (lastGoodTransport m) r d ds (reconnectAttempts m)
    (boFailCount m) (boLastSuccessAt m) (connectedAt m) (healthy m) (healthMsg m).
Definition set_counts (attempts fails last : Z) (m : Manager) : Manager :=
  mkManager (config m) (sm m) (cb m) (idle m) (shut m) (muxClient m) (killSwitch m) (lane m) (connCfg m) (currentSNI m)
    (lastGoodSNI m) (lastGoodTransport m) (reconnecting m) (reconnectDone m) (dones m) attempts
    fails last (connectedAt m) (healthy m) (healthMsg m).
Definition SetHealthy (h : bool) (msg : string) (m : Manager) : Manager :=
  mkManager (config m) (sm m) (cb m) (idle m) (shut m) (muxClient m) (killSwitch m) (lane m) (connCfg m) (currentSNI m)
    (lastGoodSNI m) (lastGoodTransport m) (reconnecting m) (reconnectDone m) (dones m) (reconnectAttempts m)
    (boFailCount m) (boLastSuccessAt m) (connectedAt m) h msg.

Definition setState (s : StateMachine.TunnelState) (m : Manager) : Manager := set_sm (StateMachine.Set_ (sm m) s).1 m.
Definition setError (e : string) (m : Manager) : Manager := SetHealthy false e (set_sm (StateMachine.SetError (sm m) e) m).
Definition IsConnected (m : Manager) : bool := StateMachine.IsConnected (sm m).

Definition SetTransport (t : string) (m : Manager) : Manager := set_config (with_transport (config m) t) m.

Definition Disconnect (m : Manager) : Manager :=
  let '(i, closed) := IdleSet.closeAll (idle m) in
  let m := set_mux false (set_idle i closed m) in
  let m := set_killSwitch ((fun _ => false) <$> killSwitch m) m in
  setState StateMachine.StateDisconnected m.

(** What the environment decides of an attempt to connect: the switches read from
    environment variables, the multiplexer's own error, and the dial. *)
Inductive dial_result := NoDialer | DialError (e : string) | Dialled (c : nat).
Record attempt_env := mkEnv {
  streamMux : bool; keepAlive : bool; muxError : option string; dial : dial_result; quicLane : bool
}.

Definition connectPerFlow (env : attempt_env) (now : Z) (m : Manager) : Manager * option string :=
  match dial env with
  | NoDialer => (setError "direct: no camo dialer" m, Some "direct: no camo dialer")
  | DialError e => (setError e m, Some e)
  | Dialled c =>
      let '(i, closed) := (if keepAlive env then IdleSet.put c (IdleSet.reopen (idle m)) else (IdleSet.reopen (idle m), [c])) in
      let m := setState StateMachine.StateConnected (set_idle i closed m) in
      (set_connected now (quicLane env) m, None)
  end.

Definition connectStreamMux (env : attempt_env) (now : Z) (m : Manager) : Manager * option string :=
  match (if muxClient m then None else muxError env) with
  | Some e => (setError e m, Some e)
  | None =>
      let m := set_mux true m in
      match dial env with
      | NoDialer => (setError "stream-mux: no whispera dialer" m, Some "stream-mux: no whispera dialer")
      | DialError e => (setError e m, Some e)
      | Dialled c => (set_connected now false (setState StateMachine.StateConnected (set_idle (idle m) [c] m)), None)
      end
  end.

Definition connectInternal (env : attempt_env) (now : Z) (isRotation : bool) (m : Manager) : Manager * option string :=
  let m := setState (if isRotation then StateMachine.StateRotating else StateMachine.StateConnecting) m in
  if streamMux env then connectStreamMux env now m else connectPerFlow env now m.

Definition Connect (env : attempt_env) (now : Z) (m : Manager) : Manager * option string :=
  let '(s, _, (_, blocked)) := StateMachine.CompareAndSet (sm m) StateMachine.StateConnecting
                                 [StateMachine.StateConnecting; StateMachine.StateConnected] in
  let m := set_sm s m in
  if blocked then (m, None) else connectInternal env now false (Disconnect m).

(** ** Reconnecting *)

Definition reconnectFallbackAfterAttempts : Z := 3.

Record reconnectState := mkRS {
  originalTransport : string; fellBackToAuto : bool; zeroRTTSNI : string; zeroRTTTransport : string; delay : Z; attempts : Z
}.

(** The channel made for the reconnect, and its state. *)
Definition beginReconnect (m : Manager) : Manager * nat * reconnectState :=
  let d := length (dones m) in
  (set_reconnect (reconnecting m) d (dones m ++ [false]) m, d,
   mkRS (Transport (config m)) false (lastGoodSNI m) (lastGoodTransport m) (ReconnectInterval (config m)) 0).

Definition prepareAttempt (st : reconnectState) (m : Manager) : Manager * reconnectState :=
  let fall := (attempts st =? reconnectFallbackAfterAttempts + 1) && negb (bool_decide (originalTransport st = ""))
              && negb (bool_decide (originalTransport st = "auto")) && negb (fellBackToAuto st) in
  let st := if fall then mkRS (originalTransport st) true (zeroRTTSNI st) (zeroRTTTransport st) (delay st) (attempts st) else st in
  let m := Disconnect (if fall then SetTransport "auto" m else m) in
  if (attempts st =? 1) && negb (bool_decide (zeroRTTSNI st = "")) then
    let m := set_sni (zeroRTTSNI st) m in
    (if bool_decide (zeroRTTTransport st = "") then m else SetTransport (zeroRTTTransport st) m, st)
  else (set_sni "" m, st).

(** [float64] holds 53 bits; an integer is rounded to the nearest, ties to even. *)
Definition round53 (z : Z) : Z :=
  let e := Z.log2 z - 52 in
  if e <=? 0 then z
  else
    let q := z / 2 ^ e in
    let r := z mod 2 ^ e in
    let half := 2 ^ (e - 1) in
    2 ^ e * (if (half <? r) || ((r =? half) && Z.odd q) then q + 1 else q).

Definition nextBackoff (max : Z) (st : reconnectState) : reconnectState * Z :=
  let wait := delay st in
  let d := 2 * round53 (delay st) in
  let d := if max <? d then max else d in
  (mkRS (originalTransport st) (fellBackToAuto st) (zeroRTTSNI st) (zeroRTTTransport st) d (attempts st),
   if wait <? d then d else wait).

Inductive outcome := Connected | CtxErr | MaxExceeded | BreakerOpen | Waited.

(** One attempt of the loop as the environment plays it. *)
Record turn := mkTurn { t_env : attempt_env; t_now : Z; t_cancelled : bool; t_cancelled_waiting : bool }.

Definition fail_breaker (now : Z) (m : Manager) : Manager := set_cb (Breaker.Fail now (cb m)) m.

(** The loop; the last component are the waits between attempts. *)
Fixpoint reconnect_loop (turns : list turn) (m : Manager) (st : reconnectState) : Manager * reconnectState * outcome * list Z :=
  let n := attempts st + 1 in
  let st := mkRS (originalTransport st) (fellBackToAuto st) (zeroRTTSNI st) (zeroRTTTransport st) (delay st) n in
  let m := set_counts (u32 n) (boFailCount m) (boLastSuccessAt m) m in
  match turns with
  | [] => (m, st, CtxErr, [])
  | t :: turns =>
      if t_cancelled t then (m, st, CtxErr, [])
      else if (0 <? MaxReconnectAttempts (config m)) && (MaxReconnectAttempts (config m) <? n) then
        (setError "max reconnect attempts exceeded" (fail_breaker (t_now t) m), st, MaxExceeded, [])
      else
        let '(m, st) := prepareAttempt st m in
        let '(m, e) := (if (n =? 1) && negb (bool_decide (zeroRTTSNI st = ""))
                        then connectInternal (t_env t) (t_now t) false m else Connect (t_env t) (t_now t) m) in
        match e with
        | None => (set_cb (Breaker.Success (cb m)) (set_counts (reconnectAttempts m) 0 (t_now t / second) m), st, Connected, [])
        | Some _ =>
            let m := fail_breaker (t_now t) (set_counts (reconnectAttempts m) (i32 (boFailCount m + 1)) (boLastSuccessAt m) m) in
            let '(st, w) := nextBackoff (ReconnectMaxDelay (config m)) st in
            if t_cancelled_waiting t then (m, st, CtxErr, [w])
            else let '(m, st, o, ws) := reconnect_loop turns m st in (m, st, o, w :: ws)
        end
  end.

(** The deferred part of [Reconnect]. *)
Definition endReconnect (d : nat) (st : reconnectState) (m : Manager) : Manager :=
  let m := if fellBackToAuto st then SetTransport (originalTransport st) m else m in
  set_reconnect false (reconnectDone m) (<[d := true]> (dones m)) m.

(** [Reconnect] at time [now]; a second caller waits for the channel of the first
    and returns without an error. *)
Definition Reconnect (now : Z) (turns : list turn) (m : Manager) : Manager * outcome * list Z :=
  if reconnecting m then (m, Waited, [])
  else
    let m := set_reconnect true (reconnectDone m) (dones m) m in
    let '(m, d, st) := beginReconnect m in
    let '(b, allowed) := Breaker.Allow now (cb m) in
    let m := set_cb b m in
    if negb allowed then (endReconnect d st m, BreakerOpen, [])
    else
      let '(m, st, o, ws) := reconnect_loop turns (setState StateMachine.StateReconnecting m) st in
      (endReconnect d st m, o, ws).

Definition Start (m : Manager) : Manager := SetHealthy true "tunnel manager running" m.
Definition Stop (m : Manager) : Manager := SetHealthy (healthy m) "stopped" (Disconnect m).

End TunnelManager.
