(* ===== verification/TunnelManagerFacts.v ===== *)
(** What the tunnel manager of [TunnelManager] guarantees: how a reconnect ends, how
    long it waits between attempts, and which connections it leaves open. *)

From S2P Require Import Prelude Tunnel IdleSet TunnelManager.
Import Tunnel TunnelManager.

Implicit Types (m : Manager) (env : attempt_env) (st : reconnectState).

(** ** Single operations *)

Lemma syncReady_state s : StateMachine.state (StateMachine.syncReady s) = StateMachine.state s.
Proof. unfold StateMachine.syncReady. by repeat case_match. Qed.

Lemma assign_state s x : StateMachine.state (StateMachine.assign s x) = x.
Proof. apply syncReady_state. Qed.

Lemma SetError_state s e : StateMachine.state (StateMachine.SetError s e) = StateMachine.StateError.
Proof. apply syncReady_state. Qed.

Definition mstate m : StateMachine.TunnelState := StateMachine.state (sm m).

(** What an attempt to connect leaves alone. *)
Record frame m m' : Prop := {
  fr_config : config m' = config m; fr_cb : cb m' = cb m;
  fr_sni : lastGoodSNI m' = lastGoodSNI m; fr_transport : lastGoodTransport m' = lastGoodTransport m;
  fr_reconnecting : reconnecting m' = reconnecting m; fr_done : reconnectDone m' = reconnectDone m; fr_dones : dones m' = dones m;
  fr_attempts : reconnectAttempts m' = reconnectAttempts m; fr_fails : boFailCount m' = boFailCount m;
  fr_last : boLastSuccessAt m' = boLastSuccessAt m; fr_conn : connCfg m' = connCfg m
}.

#[export] Instance frame_refl : Reflexive frame.
Proof. by split. Qed.
#[export] Instance frame_trans : Transitive frame.
Proof. intros a b c [] []. split; congruence. Qed.

Lemma Disconnect_frame m : frame m (Disconnect m) /\ mstate (Disconnect m) = StateMachine.StateDisconnected /\
  killSwitch (Disconnect m) = (fun _ => false) <$> killSwitch m /\ healthy (Disconnect m) = healthy m /\
  IdleSet.conns (idle (Disconnect m)) = [] /\ shut (Disconnect m) = shut m ++ IdleSet.conns (idle m).
Proof. unfold mstate. split_and!; try done. apply assign_state. Qed.

(** An attempt ends connected, or in the error state with the tunnel unhealthy. *)
Record attempted env m m' (e : option string) : Prop := {
  at_frame : frame m m';
  at_state : mstate m' = match e with None => StateMachine.StateConnected | Some _ => StateMachine.StateError end;
  at_dial : e = None <-> (exists c, dial env = Dialled c) /\ (streamMux env = true -> muxClient m = true \/ muxError env = None);
  at_kill : killSwitch m' = killSwitch m;
  at_healthy : healthy m' = match e with None => healthy m | Some _ => false end
}.

Lemma connectPerFlow_spec env now m m' e : connectPerFlow env now m = (m', e) -> streamMux env = false -> attempted env m m' e.
Proof.
  unfold connectPerFlow. intros H Hs. destruct (dial env) as [|er|c] eqn:Ed.
  - injection H as <- <-. split; try done; [apply SetError_state|]. split; [done|]. intros [[c Hc] _]; congruence.
  - injection H as <- <-. split; try done; [apply SetError_state|]. split; [done|]. intros [[c Hc] _]; congruence.
  - destruct (if keepAlive env then _ else _) as [i closed]. injection H as <- <-.
    split; try done; [apply assign_state|]. split; [|done]. intros _. split; [eauto|congruence].
Qed.

Lemma connectStreamMux_spec env now m m' e : connectStreamMux env now m = (m', e) -> streamMux env = true -> attempted env m m' e.
Proof.
  unfold connectStreamMux. intros H Hs. destruct (if muxClient m then None else muxError env) as [er|] eqn:Em.
  - injection H as <- <-. split; try done; [apply SetError_state|]. split; [done|]. intros [_ Hx]. destruct (muxClient m); [done|].
    destruct (Hx Hs); congruence.
  - assert (Hm : muxClient m = true \/ muxError env = None) by (destruct (muxClient m); auto).
    destruct (dial env) as [|er|c] eqn:Ed.
    + injection H as <- <-. split; try done; [apply SetError_state|]. split; [done|]. intros [[c Hc] _]; congruence.
    + injection H as <- <-. split; try done; [apply SetError_state|]. split; [done|]. intros [[c Hc] _]; congruence.
    + injection H as <- <-. split; try done; [apply assign_state|]. split; [|done]. intros _. split; [eauto|done].
Qed.

Lemma connectInternal_spec env now rot m m' e : connectInternal env now rot m = (m', e) ->
  frame m m' /\ mstate m' = match e with None => StateMachine.StateConnected | Some _ => StateMachine.StateError end /\
  killSwitch m' = killSwitch m /\ healthy m' = match e with None => healthy m | Some _ => false end /\
  (e = None -> exists c, dial env = Dialled c).
Proof.
  unfold connectInternal. intros H. set (m1 := setState _ m) in *. assert (F1 : frame m m1) by done.
  assert (A : attempted env m1 m' e).
  { destruct (streamMux env) eqn:Es; [by eapply connectStreamMux_spec|by eapply connectPerFlow_spec]. }
  destruct A as [Af As Ad Ak Ah]. split_and!; [by etrans|done|by rewrite Ak|by rewrite Ah|]. intros He. by apply Ad in He as [? _].
Qed.

Lemma Connect_spec env now m m' e : Connect env now m = (m', e) ->
  mstate m <> StateMachine.StateConnecting -> mstate m <> StateMachine.StateConnected ->
  frame m m' /\ mstate m' = match e with None => StateMachine.StateConnected | Some _ => StateMachine.StateError end /\
  killSwitch m' = (fun _ => false) <$> killSwitch m /\ healthy m' = match e with None => healthy m | Some _ => false end /\
  (e = None -> exists c, dial env = Dialled c).
Proof.
  unfold Connect, StateMachine.CompareAndSet. intros H H1 H2. destruct (decide _) as [Hin|_].
  { exfalso. apply elem_of_cons in Hin as [Hin|[Hin|Hin%not_elem_of_nil]%elem_of_cons]; [by apply H1|by apply H2|done]. }
  set (m1 := set_sm _ m) in *. pose proof (Disconnect_frame m1) as (F1 & _ & K1 & He1 & _). apply connectInternal_spec in H as (F & S & K & He & Hd).
  split_and!; [|done|by rewrite K, K1|by rewrite He, He1|done]. etrans; [|exact F]. etrans; [|exact F1]. done.
Qed.

(** A caller that finds another connect under way is told that all is well. *)
Theorem connect_while_connecting env now m : mstate m = StateMachine.StateConnecting ->
  Connect env now m = (set_sm (sm m) m, None) /\ IsConnected (set_sm (sm m) m) = false.
Proof.
  intros Hs. unfold Connect, StateMachine.CompareAndSet. rewrite decide_True.
  - split; [done|]. unfold IsConnected, StateMachine.IsConnected, StateMachine.is_connected. cbn. unfold mstate in Hs. by rewrite Hs.
  - unfold mstate in Hs. rewrite Hs. apply elem_of_cons. by left.
Qed.

(** ** The loop *)

Lemma with_transport_twice c a b : with_transport (with_transport c a) b = with_transport c b.
Proof. done. Qed.
Lemma with_transport_id c : with_transport c (Transport c) = c.
Proof. by destruct c. Qed.

(** What an attempt, a failure count or a fallback does not touch. *)
Record keeps m m' : Prop := {
  kp_config : with_transport (config m') "" = with_transport (config m) "";
  kp_reconnecting : reconnecting m' = reconnecting m; kp_done : reconnectDone m' = reconnectDone m; kp_dones : dones m' = dones m;
  kp_conn : connCfg m' = connCfg m
}.
#[export] Instance keeps_refl : Reflexive keeps.
Proof. by split. Qed.
#[export] Instance keeps_trans : Transitive keeps.
Proof. intros a b c [] []. split; congruence. Qed.
Lemma frame_keeps m m' : frame m m' -> keeps m m'.
Proof. intros []. split; congruence. Qed.

Lemma keeps_max m m' : keeps m m' ->
  MaxReconnectAttempts (config m') = MaxReconnectAttempts (config m) /\ ReconnectMaxDelay (config m') = ReconnectMaxDelay (config m).
Proof. intros [E _ _ _ _]. destruct (config m), (config m'). by injection E as -> -> -> -> -> -> -> -> -> -> ->. Qed.

Lemma prepareAttempt_spec st m m' st' : prepareAttempt st m = (m', st') -> zeroRTTSNI st = "" ->
  keeps m m' /\ cb m' = cb m /\ boFailCount m' = boFailCount m /\ mstate m' = StateMachine.StateDisconnected /\ healthy m' = healthy m /\
  zeroRTTSNI st' = "" /\ delay st' = delay st /\ attempts st' = attempts st /\ originalTransport st' = originalTransport st /\
  ((fellBackToAuto st' = fellBackToAuto st /\ Transport (config m') = Transport (config m)) \/
   (fellBackToAuto st' = true /\ attempts st = 4)).
Proof.
  unfold prepareAttempt. set (fall := _ && _ && _ && _). intros H Hz.
  assert (Hz2 : forall b, zeroRTTSNI (if b : bool then mkRS (originalTransport st) true (zeroRTTSNI st) (zeroRTTTransport st) (delay st) (attempts st) else st) = "") by (by intros []).
  rewrite Hz2 in H. rewrite (bool_decide_eq_true_2 (@eq string "" "")) in H by done. rewrite andb_false_r in H. injection H as <- <-.
  pose proof (Disconnect_frame (if fall then SetTransport "auto" m else m)) as (F & S & K & He & _).
  split; [etrans; [|apply frame_keeps; etrans; [exact F|by split]]; by destruct fall|].
  destruct fall eqn:Ef; split_and!; try done.
  - right. split; [done|]. unfold fall in Ef. bool_to_prop. unfold reconnectFallbackAfterAttempts in *. lia.
  - by left.
Qed.

Record loop_ok m st m' st' (o : outcome) (ws : list Z) : Prop := {
  lp_keeps : keeps m m';
  lp_original : originalTransport st' = originalTransport st;
  lp_transport : (fellBackToAuto st' = fellBackToAuto st /\ Transport (config m') = Transport (config m)) \/ fellBackToAuto st' = true;
  lp_outcome : match o with
    | Connected => mstate m' = StateMachine.StateConnected /\ Breaker.failures (cb m') = 0 /\ Breaker.state (cb m') = Breaker.cbClosed /\
                   boFailCount m' = 0
    | CtxErr => mstate m' = mstate m \/ mstate m' = StateMachine.StateError
    | MaxExceeded => mstate m' = StateMachine.StateError /\ 0 < MaxReconnectAttempts (config m)
    | _ => False
    end;
  lp_healthy : healthy m = false -> healthy m' = false;
  lp_waits : (0 < delay st -> delay st <= ReconnectMaxDelay (config m) -> ReconnectMaxDelay (config m) < 2 ^ 53 ->
    forall i w, ws !! i = Some w -> w = Z.min (ReconnectMaxDelay (config m)) (delay st * 2 ^ (Z.of_nat i + 1)));
  lp_count : 0 < MaxReconnectAttempts (config m) -> attempts st <= MaxReconnectAttempts (config m) ->
    attempts st + zlen ws <= MaxReconnectAttempts (config m)
}.

Lemma round53_small z : 0 < z < 2 ^ 53 -> round53 z = z.
Proof.
  intros Hz. unfold round53. assert (Z.log2 z < 53) by (apply Z.log2_lt_pow2; lia).
  replace (Z.log2 z - 52 <=? 0) with true; [done|]. symmetry. apply Z.leb_le. lia.
Qed.

Lemma nextBackoff_spec max st st' w : nextBackoff max st = (st', w) ->
  originalTransport st' = originalTransport st /\ fellBackToAuto st' = fellBackToAuto st /\ zeroRTTSNI st' = zeroRTTSNI st /\
  attempts st' = attempts st /\
  (0 < delay st -> delay st <= max -> max < 2 ^ 53 -> delay st' = Z.min max (2 * delay st) /\ w = delay st').
Proof.
  unfold nextBackoff. intros [= <- <-]. split_and!; try done. cbn. intros H1 H2 H3. rewrite round53_small by lia.
  destruct (Z.ltb_spec max (2 * delay st)).
  - destruct (Z.ltb_spec (delay st) max); lia.
  - destruct (Z.ltb_spec (delay st) (2 * delay st)); lia.
Qed.

Lemma min_double max d p : 0 < d -> d <= max -> 1 <= p -> Z.min max (Z.min max (2 * d) * p) = Z.min max (d * (2 ^ 1 * p)).
Proof.
  intros Hd Hm Hp. change (2 ^ 1) with 2. destruct (Z.le_gt_cases (2 * d) max).
  - rewrite (Z.min_r max (2 * d)) by lia. f_equal. lia.
  - rewrite (Z.min_l max (2 * d)) by lia. rewrite !Z.min_l; nia.
Qed.

Lemma attempt_spec (t : turn) n st m m' e : zeroRTTSNI st = "" -> mstate m = StateMachine.StateDisconnected ->
  (if (n =? 1) && negb (bool_decide (zeroRTTSNI st = "")) then connectInternal (t_env t) (t_now t) false m
   else Connect (t_env t) (t_now t) m) = (m', e) ->
  frame m m' /\ mstate m' = match e with None => StateMachine.StateConnected | Some _ => StateMachine.StateError end /\
  healthy m' = match e with None => healthy m | Some _ => false end.
Proof.
  intros -> Hs. rewrite bool_decide_eq_true_2, andb_false_r by done. intros Hc.
  apply Connect_spec in Hc as (F & S & _ & He & _); [done|rewrite Hs; done|rewrite Hs; done].
Qed.

Lemma loop_spec turns m st m' st' o ws : reconnect_loop turns m st = (m', st', o, ws) -> zeroRTTSNI st = "" -> loop_ok m st m' st' o ws.
Proof.
  revert m st m' st' o ws. induction turns as [|t turns IH]; intros m st m' st' o ws H Hz; cbn [reconnect_loop] in H.
  { injection H as <- <- <- <-. split; try done; try (by left); intros; rewrite ?zlen_nil; lia. }
  set (n := attempts st + 1) in *. set (m1 := set_counts (u32 n) (boFailCount m) (boLastSuccessAt m) m) in *.
  set (st1 := mkRS _ _ _ _ _ n) in *.
  destruct (t_cancelled t); [injection H as <- <- <- <-; split; try done; try (by left); intros; rewrite ?zlen_nil; lia|].
  destruct (_ && _) eqn:Emax.
  { injection H as <- <- <- <-. bool_to_prop. cbn in *. split; try done; try (by left); [split; [apply SetError_state|done]|intros; rewrite zlen_nil; lia]. }
  destruct (prepareAttempt st1 m1) as [m2 st2] eqn:Ep.
  apply prepareAttempt_spec in Ep as (K2 & C2 & B2 & S2 & H2 & Z2 & D2 & A2 & O2 & T2); [|done].
  destruct (if (n =? 1) && _ then _ else _) as [m3 e] eqn:Ea. apply attempt_spec in Ea as (F3 & S3 & H3); [|done|done].
  pose proof (frame_keeps _ _ F3) as K3.
  assert (K13 : keeps m m3) by (etrans; [|exact K3]; etrans; [|exact K2]; done).
  assert (T3 : (fellBackToAuto st2 = fellBackToAuto st /\ Transport (config m3) = Transport (config m)) \/ fellBackToAuto st2 = true).
  { rewrite (fr_config _ _ F3). destruct T2 as [[-> ->]|[? _]]; [by left|by right]. }
  destruct e as [er|].
  2:{ injection H as <- <- <- <-. constructor; [by destruct K13; split|exact O2|exact T3|done|intros Hh; cbn; by rewrite H3, H2|done|].
      intros; rewrite zlen_nil; lia. }
  set (m4 := fail_breaker _ _) in *. destruct (nextBackoff (ReconnectMaxDelay (config m4)) st2) as [st5 w] eqn:Eb.
  assert (K4 : keeps m m4) by (by destruct K13; split). destruct (keeps_max _ _ K4) as [Emx Edl].
  apply nextBackoff_spec in Eb as (O5 & F5 & Z5 & A5 & W5). rewrite Edl, D2 in W5. cbn [delay st1] in W5.
  assert (Hn : 0 < MaxReconnectAttempts (config m) -> n <= MaxReconnectAttempts (config m)).
  { intros Hp. apply andb_false_iff in Emax as [E|E]; bool_to_prop; cbn in E; lia. }
  destruct (t_cancelled_waiting t).
  { injection H as <- <- <- <-. split; try done.
    - by rewrite O5, O2.
    - by rewrite F5.
    - by right.
    - intros Hd1 Hd2 Hd3 i x Hx. destruct i as [|i]; [|done]. injection Hx as <-. destruct (W5 Hd1 Hd2 Hd3) as [E1 ->]. rewrite E1. f_equal. lia.
    - intros Hp Hle. rewrite zlen_cons, zlen_nil. specialize (Hn Hp). lia. }
  destruct (reconnect_loop turns m4 st5) as [[[m6 st6] o6] ws6] eqn:Er. injection H as <- <- <- <-.
  destruct (IH _ _ _ _ _ _ Er) as [L1 L2 L3 L4 L5 L6 L7]; [by rewrite Z5|]. rewrite Emx, Edl in *. split.
  - by etrans.
  - by rewrite L2, O5, O2.
  - rewrite F5 in L3. destruct L3 as [[-> L3]|L3]; [|by right]. destruct T3 as [[E1 E2]|E1]; [left|by right].
    split; [done|]. rewrite L3. exact E2.
  - destruct o6; try done. right. destruct L4 as [->|L4]; [exact S3|done].
  - intros Hh. by apply L5.
  - intros Hd1 Hd2 Hd3 i x Hx. destruct (W5 Hd1 Hd2 Hd3) as [E1 E2]. destruct i as [|i].
    + injection Hx as <-. rewrite E2, E1. f_equal. lia.
    + cbn in Hx. rewrite (L6 ltac:(lia) ltac:(lia) Hd3 i x Hx), E1.
      replace (Z.of_nat (S i) + 1) with (1 + (Z.of_nat i + 1)) by lia. rewrite (Z.pow_add_r 2 1 (Z.of_nat i + 1)) by lia.
      apply min_double; [lia..|]. assert (0 < 2 ^ (Z.of_nat i + 1)) by (apply Z.pow_pos_nonneg; lia). lia.
  - intros Hp Hle. specialize (Hn Hp). rewrite zlen_cons. rewrite A5, A2 in L7. cbn [attempts st1] in L7. specialize (L7 Hp ltac:(lia)). lia.
Qed.

(** ** Reconnecting *)

Lemma IsConnected_state m : IsConnected m = StateMachine.is_connected (mstate m).
Proof. done. Qed.

Lemma endReconnect_spec d st m m' : m' = endReconnect d st m ->
  reconnecting m' = false /\ dones m' = <[d := true]> (dones m) /\ reconnectDone m' = reconnectDone m /\ sm m' = sm m /\ cb m' = cb m /\
  boFailCount m' = boFailCount m /\ healthy m' = healthy m /\
  config m' = (if fellBackToAuto st then with_transport (config m) (originalTransport st) else config m).
Proof. intros ->. unfold endReconnect. by destruct (fellBackToAuto st). Qed.

(** The cases of [Reconnect] for the caller that runs it. *)
Lemma Reconnect_cases now turns m m' o ws : Reconnect now turns m = (m', o, ws) -> reconnecting m = false -> lastGoodSNI m = "" ->
  exists st m1, m' = endReconnect (length (dones m)) st m1 /\ reconnectDone m1 = length (dones m) /\ dones m1 = dones m ++ [false] /\
  connCfg m1 = connCfg m /\ originalTransport st = Transport (config m) /\ with_transport (config m1) "" = with_transport (config m) "" /\
  (fellBackToAuto st = true \/ Transport (config m1) = Transport (config m)) /\
  ((o = BreakerOpen /\ ws = [] /\ sm m1 = sm m /\ healthy m1 = healthy m) \/
   exists m0 st0, loop_ok m0 st0 m1 st o ws /\ mstate m0 = StateMachine.StateReconnecting /\ attempts st0 = 0 /\
     delay st0 = ReconnectInterval (config m) /\ config m0 = config m /\ healthy m0 = healthy m).
Proof.
  unfold Reconnect, beginReconnect. intros H Hr Hl. rewrite Hr in H. cbn in H. rewrite Hl in H.
  destruct (Breaker.Allow now (cb m)) as [b allowed]. destruct allowed; cbn [negb] in H.
  - destruct (reconnect_loop turns _ _) as [[[m1 st] o1] ws1] eqn:Er. injection H as <- <- <-.
    apply loop_spec in Er; [|done]. pose proof Er as [[K1 K2 K3 K4 K5] L2 L3 _ _ _ _]. exists st, m1.
    split_and!; try done; [by destruct L3 as [[? ?]|?]; auto|]. right. eexists _, _. split_and!; [exact Er|apply assign_state|done..].
  - injection H as <- <- <-. eexists _, _. split_and!; [reflexivity|done..|by right|]. by left.
Qed.

Lemma transport_restored c1 c t : with_transport c1 "" = with_transport c "" -> t = Transport c -> with_transport c1 t = c.
Proof.
  intros E ->. rewrite <- (with_transport_twice c1 "" (Transport c)), E, with_transport_twice. apply with_transport_id.
Qed.

(** A reconnect ends in one of four ways, whatever the dials and the context
    do.  It reports success exactly with the tunnel connected, the breaker closed
    and the failure count cleared; it gives up with the tunnel not connected when
    the context is cancelled or, if there is a maximum, after that many attempts; a
    breaker that does not allow it leaves the tunnel's state alone.  In every case
    the configured transport is restored although the fourth attempt falls back to
    automatic choice, waiting callers are released, and the next reconnect can
    run. *)
Theorem reconnect_outcome now turns m m' o ws :
  reconnecting m = false -> lastGoodSNI m = "" -> Reconnect now turns m = (m', o, ws) ->
  reconnecting m' = false /\ dones m' !! reconnectDone m' = Some true /\ config m' = config m /\
  match o with
  | Connected => IsConnected m' = true /\ Breaker.failures (cb m') = 0 /\ Breaker.state (cb m') = Breaker.cbClosed /\ boFailCount m' = 0
  | CtxErr => IsConnected m' = false
  | MaxExceeded => IsConnected m' = false /\ 0 < MaxReconnectAttempts (config m)
  | BreakerOpen => sm m' = sm m /\ ws = []
  | Waited => False
  end.
Proof.
  intros Hr Hl H. destruct (Reconnect_cases _ _ _ _ _ _ H Hr Hl) as (st & m1 & E & Ed & Eds & _ & Eo & Ec & Ef & Hcase).
  destruct (endReconnect_spec _ _ _ _ E) as (R1 & R2 & R3 & R4 & R5 & R6 & _ & R8).
  split; [done|]. split; [rewrite R2, R3, Ed, Eds; apply list_lookup_insert_eq; rewrite length_app; cbn; lia|]. split.
  - rewrite R8. destruct (fellBackToAuto st); [by apply transport_restored|].
    destruct Ef as [?|Ef]; [done|]. rewrite <- (with_transport_id (config m1)). by apply transport_restored.
  - rewrite IsConnected_state. unfold mstate. rewrite R4, R5, R6. fold (mstate m1).
    destruct Hcase as [(-> & -> & Es & _)|(m0 & st0 & [_ _ _ L4 _ _ _] & S0 & _ & _ & Ecfg & _)]; [done|].
    destruct o; try done.
    + destruct L4 as (-> & L4). done.
    + rewrite S0 in L4. by destruct L4 as [-> | ->].
    + rewrite Ecfg in L4. by destruct L4 as [-> ?].
Qed.

(** The waits of a reconnect double from twice the configured interval up to
    the configured maximum and stay there, and with a maximum number of attempts
    there are at most that many. *)
Theorem reconnect_backoff now turns m m' o ws :
  reconnecting m = false -> lastGoodSNI m = "" -> Reconnect now turns m = (m', o, ws) ->
  0 < ReconnectInterval (config m) -> ReconnectInterval (config m) <= ReconnectMaxDelay (config m) ->
  ReconnectMaxDelay (config m) < 2 ^ 53 ->
  (forall i w, ws !! i = Some w ->
     w = Z.min (ReconnectMaxDelay (config m)) (ReconnectInterval (config m) * 2 ^ (Z.of_nat i + 1))) /\
  (0 < MaxReconnectAttempts (config m) -> zlen ws <= MaxReconnectAttempts (config m)).
Proof.
  intros Hr Hl H H1 H2 H3. destruct (Reconnect_cases _ _ _ _ _ _ H Hr Hl) as (st & m1 & _ & _ & _ & _ & _ & _ & _ & Hcase).
  destruct Hcase as [(_ & -> & _)|(m0 & st0 & [_ _ _ _ _ L6 L7] & _ & A0 & D0 & Ec & _)].
  - split; [by intros|]. unfold zlen; cbn; lia.
  - rewrite Ec, D0 in L6. rewrite Ec, A0 in L7. split; [by apply L6|]. intros Hp. specialize (L7 Hp ltac:(lia)). lia.
Qed.

(** Once an attempt has failed the tunnel counts as unhealthy for good: a later
    successful reconnect does not change it. *)
Theorem reconnect_stays_unhealthy now turns m m' o ws :
  reconnecting m = false -> lastGoodSNI m = "" -> healthy m = false -> Reconnect now turns m = (m', o, ws) -> healthy m' = false.
Proof.
  intros Hr Hl Hh H. destruct (Reconnect_cases _ _ _ _ _ _ H Hr Hl) as (st & m1 & E & _ & _ & _ & _ & _ & _ & Hcase).
  destruct (endReconnect_spec _ _ _ _ E) as (_ & _ & _ & _ & _ & _ & -> & _).
  destruct Hcase as [(_ & _ & _ & ->)|(m0 & st0 & [_ _ _ _ L5 _ _] & _ & _ & _ & _ & Eh)]; [done|]. apply L5. congruence.
Qed.

(** A second caller is told that the reconnect worked, whatever comes of it. *)
Theorem second_reconnect_returns now turns m : reconnecting m = true -> Reconnect now turns m = (m, Waited, []).
Proof. intros H. unfold Reconnect. by rewrite H. Qed.

(** A manager made without forced obfuscation reports it as forced. *)
Theorem new_reports_obfuscation cfg ks : conn_IsForceObfuscation (connCfg (New cfg ks)) = true.
Proof. unfold New. cbn. by destruct (0 <? _). Qed.

(** ** Witnesses *)
Module ManagerWitnesses.

Definition bad : turn := mkTurn (mkEnv false true None (DialError "refused") false) 1000 false false.
Definition good (c : nat) : turn := mkTurn (mkEnv false true None (Dialled c) false) 2000 false false.
Definition tm : Manager := New (Some (with_transport DefaultConfig "tcp")) None.
Definition result : Manager * outcome * list Z := Reconnect 0 [bad; bad; bad; bad; good 7] tm.

Lemma reconnect_outcome_witness :
  result.1.2 = Connected /\ Transport (config result.1.1) = "tcp" /\ IsConnected result.1.1 = true /\
  IdleSet.conns (idle result.1.1) = [7%nat].
Proof.
  destruct (reconnect_outcome 0 [bad; bad; bad; bad; good 7] tm result.1.1 result.1.2 result.2 eq_refl eq_refl) as (_ & _ & Hc & Ho).
  - vm_compute. reflexivity.
  - assert (Eo : result.1.2 = Connected) by (vm_compute; reflexivity). rewrite Eo in Ho. destruct Ho as [Ho _].
    split; [exact Eo|]. split; [rewrite Hc; vm_compute; reflexivity|]. split; [exact Ho|vm_compute; reflexivity].
Defined.

Lemma reconnect_backoff_witness : result.2 = map (fun s => s * second) [4; 8; 16; 30].
Proof.
  destruct (reconnect_backoff 0 [bad; bad; bad; bad; good 7] tm result.1.1 result.1.2 result.2 eq_refl eq_refl) as [Hw _];
    [vm_compute; congruence..|]. apply list_eq. intros i. destruct (result.2 !! i) as [w|] eqn:E.
  - specialize (Hw i w E). pose proof (lookup_lt_Some _ _ _ E) as Hlt. vm_compute in Hlt. rewrite Hw.
    do 4 (destruct i as [|i]; [vm_compute; reflexivity|]). lia.
  - apply lookup_ge_None in E. vm_compute in E. symmetry. apply lookup_ge_None. vm_compute. lia.
Defined.

End ManagerWitnesses.
