(* ===== verification/ClientPool.v ===== *)
(** The client's pool of tunnels, src/app/client/pool.go with the entries of
    state.go and the part of client.go that fills and restarts them.

    An entry of the pool is named by its id, a tunnel is an index into the managers
    made so far ([TunnelManager.Manager]), a context is an index into the contexts
    with a flag that says whether it was cancelled.  The order in which Go visits
    the map of entries is the argument [visit].  Outcomes of dials and streams come
    from the environment. *)

From S2P Require Import Prelude GoStr TunnelManager.
Import TunnelManager.

Module ClientPool.

Inductive connStatus := Connecting_ | Connected_ | Disconnected_ | Failed_ | Standby_ | RST_.

Record TransportEntry := mkEntry {
  ID : string; e_Transport : string; Server : string; Status : connStatus; e_Enabled : bool;
  Obfuscated : bool; Mux : bool; e_RateLimitKB : Z; SNI : string; BytesUp : Z; BytesDown : Z; ConnectedAt : Z; Error : string; e_ForceObfuscation : bool;
  BehavioralProfile : string; NoSNI : bool; mgr : option nat; cancel : option nat; restarting : bool
}.

(** The values of [resolveRuntimeParams] and the client configuration used here. *)
Record params := mkParams {
  serverAddress : string; globalSNI : string; p_TransportConfig : option (gmap string string); tlsFragSize : Z
}.

(** [tunnelPool] together with the global pool of entries. *)
Record world := mkWorld {
  entries : gmap string TransportEntry; counter : Z; mgrs : list Manager; ctxs : list bool;
  fails : Z; lastFail : option Z; lastRevive : option Z; inflight : option nat; waits : list bool
}.

Definition with_entries (w : world) (m : gmap string TransportEntry) : world :=
  mkWorld m (counter w) (mgrs w) (ctxs w) (fails w) (lastFail w) (lastRevive w) (inflight w) (waits w).
Definition with_mgrs (w : world) (l : list Manager) : world :=
  mkWorld (entries w) (counter w) l (ctxs w) (fails w) (lastFail w) (lastRevive w) (inflight w) (waits w).
Definition with_ctxs (w : world) (l : list bool) : world :=
  mkWorld (entries w) (counter w) (mgrs w) l (fails w) (lastFail w) (lastRevive w) (inflight w) (waits w).
Definition update (id : string) (f : TransportEntry -> TransportEntry) (w : world) : world :=
  with_entries w (alter f id (entries w)).

Definition newPool : world := mkWorld ∅ 0 [] [] 0 None None None [].

(** ** state.go *)

Definition Add (e : TransportEntry) (w : world) : world := with_entries w (<[ID e := e]> (entries w)).
Definition Get (id : string) (w : world) : option TransportEntry := entries w !! id.
Definition List_ (visit : list string) (w : world) : list TransportEntry := omap (fun id => entries w !! id) visit.
Definition AnyConnected (visit : list string) (w : world) : bool :=
  existsb (fun e => match Status e with Connected_ => e_Enabled e | _ => false end) (List_ visit w).

Definition NextID (w : world) : world * string :=
  let n := u64 (counter w + 1) in
  (mkWorld (entries w) n (mgrs w) (ctxs w) (fails w) (lastFail w) (lastRevive w) (inflight w) (waits w), "conn-" +:+ Itoa n).

(** ** client.go *)

Definition newPoolEntry (id transport server : string) (status : connStatus) (m : option nat) : TransportEntry :=
  mkEntry id transport server status true true false 0 "" 0 0 0 "" true "" false m None false.

Definition tunnelCfg (p : params) (transport addr : string) (tc : option (gmap string string)) : Config :=
  mkConfig addr transport (30 * second) 0 0 0 0 false "" 0 0 tc.

(** [entryCfg]: the settings of the entry, but the server of the client. *)
Definition entryCfg (p : params) (e : TransportEntry) : Config :=
  let sni := if bool_decide (SNI e = "") then globalSNI p else SNI e in
  let tc := if negb (bool_decide (sni = "")) && negb (NoSNI e)
            then Some (<["sni" := sni]> (default ∅ (p_TransportConfig p))) else p_TransportConfig p in
  let c := tunnelCfg p (e_Transport e) (serverAddress p) tc in
  mkConfig (ServerAddr c) (Transport c) (KeepaliveInterval c) (ReconnectInterval c) (ReconnectMaxDelay c) (MaxReconnectAttempts c)
    (ConnectionTimeout c) (e_ForceObfuscation e) sni (e_RateLimitKB e) (tlsFragSize p) (TransportConfig c).

(** ** pool.go *)

Definition reviveMinInterval : Z := 3 * second.
Definition reviveBackoffStep : Z := 2 * second.
Definition reviveBackoffMax : Z := 10 * second.

(** [time.Since] a time that may be the zero time, which is long ago. *)
Definition since_ge (now : Z) (t : option Z) (d : Z) : bool :=
  match t with None => true | Some t => d <=? now - t end.

Definition reviveAllowed (now : Z) (w : world) : bool :=
  if negb (since_ge now (lastRevive w) reviveMinInterval) then false
  else if fails w =? 0 then true
  else since_ge now (lastFail w) (Z.min reviveBackoffMax (fails w * reviveBackoffStep)).

(** The channel, and whether the caller is the one to revive. *)
Definition beginRevive (now : Z) (w : world) : world * option nat * bool :=
  match inflight w with
  | Some d => (w, Some d, false)
  | None =>
      if negb (reviveAllowed now w) then (w, None, false)
      else
        let d := length (waits w) in
        (mkWorld (entries w) (counter w) (mgrs w) (ctxs w) (fails w) (lastFail w) (lastRevive w) (Some d) (waits w ++ [false]), Some d, true)
  end.

Definition endRevive (now : Z) (d : nat) (ok counted : bool) (w : world) : world :=
  mkWorld (entries w) (counter w) (mgrs w) (ctxs w)
    (if counted then if ok then 0 else fails w + 1 else fails w)
    (if counted && negb ok then Some now else lastFail w)
    (if counted then Some now else lastRevive w)
    None (<[d := true]> (waits w)).

Definition connected (w : world) (m : option nat) : bool :=
  match m with Some i => match mgrs w !! i with Some m => IsConnected m | None => false end | None => false end.

Fixpoint live (visit : list string) (w : world) : option nat :=
  match visit with
  | [] => None
  | id :: visit =>
      match entries w !! id with
      | Some e => if e_Enabled e && connected w (mgr e) then mgr e else live visit w
      | None => live visit w
      end
  end.

Definition set_status (s : connStatus) (err : string) (e : TransportEntry) : TransportEntry :=
  mkEntry (ID e) (e_Transport e) (Server e) s (e_Enabled e) (Obfuscated e) (Mux e) (e_RateLimitKB e) (SNI e) (BytesUp e) (BytesDown e)
    (ConnectedAt e) err (e_ForceObfuscation e)
    (BehavioralProfile e) (NoSNI e) (mgr e) (cancel e) (restarting e).
Definition set_restarting (b : bool) (e : TransportEntry) : TransportEntry :=
  mkEntry (ID e) (e_Transport e) (Server e) (Status e) (e_Enabled e) (Obfuscated e) (Mux e) (e_RateLimitKB e) (SNI e) (BytesUp e) (BytesDown e)
    (ConnectedAt e) (Error e) (e_ForceObfuscation e)
    (BehavioralProfile e) (NoSNI e) (mgr e) (cancel e) b.
Definition set_mgr (m c : option nat) (e : TransportEntry) : TransportEntry :=
  mkEntry (ID e) (e_Transport e) (Server e) (Status e) (e_Enabled e) (Obfuscated e) (Mux e) (e_RateLimitKB e) (SNI e) (BytesUp e) (BytesDown e)
    (ConnectedAt e) (Error e) (e_ForceObfuscation e)
    (BehavioralProfile e) (NoSNI e) m c (restarting e).
Definition set_up (now : Z) (e : TransportEntry) : TransportEntry :=
  mkEntry (ID e) (e_Transport e) (Server e) Connected_ (e_Enabled e) (Obfuscated e) (Mux e) (e_RateLimitKB e) (SNI e) (BytesUp e) (BytesDown e)
    now (Error e) (e_ForceObfuscation e)
    (BehavioralProfile e) (NoSNI e) (mgr e) (cancel e) (restarting e).

Definition cancel_ctx (c : option nat) (w : world) : world :=
  match c with Some i => with_ctxs w (<[i := true]> (ctxs w)) | None => w end.
Definition stop_mgr (m : option nat) (w : world) : world :=
  match m with Some i => with_mgrs w (alter Stop i (mgrs w)) | None => w end.

(** [restartTransportEntry] up to the connect: the flag says whether it goes on.
    Its error paths are not reached: [tunnel.New] fails only with [Config.Validate],
    which sets defaults and returns nil, and [base.Module.Init] returns nil.
    [SetBehavioralProfile] on a manager without an obfuscator, as [New] makes it, only
    gives an error, which is logged. *)
Definition restart_begin (cfg : Config) (id : string) (w : world) : world * bool :=
  match entries w !! id with
  | None => (w, false)
  | Some e =>
      if restarting e then (w, false)
      else
        let w := cancel_ctx (cancel e) (update id (set_restarting true) w) in
        let w := stop_mgr (mgr e) (update id (set_status Connecting_ "") w) in
        let w := with_mgrs w (mgrs w ++ [New (Some cfg) None]) in
        let w := with_ctxs w (ctxs w ++ [false]) in
        (update id (set_mgr (Some (pred (length (mgrs w)))) (Some (pred (length (ctxs w))))) w, true)
  end.

(** The connect and what follows; [env] is what the dial comes to. *)
Definition restart_end (env : attempt_env) (now : Z) (id : string) (w : world) : world :=
  match entries w !! id with
  | Some e =>
      match mgr e with
      | Some i =>
          match mgrs w !! i with
          | Some m =>
              let '(m, err) := Connect env now m in
              let w := with_mgrs w (<[i := m]> (mgrs w)) in
              let w := match err with
                       | Some er => update id (set_status Failed_ er) (stop_mgr (Some i) (cancel_ctx (cancel e) w))
                       | None => update id (set_up now) w
                       end in
              update id (set_restarting false) w
          | None => w
          end
      | None => w
      end
  | None => w
  end.

Definition restartTransportEntry (env : attempt_env) (now : Z) (cfg : Config) (id : string) (w : world) : world * bool :=
  match restart_begin cfg id w with
  | (w, false) => (w, false)
  | (w, true) => (restart_end env now id w, true)
  end.

(** The loop of [revive]; [envs] says what each restart comes to. *)
Fixpoint revive_loop (p : params) (envs : string -> attempt_env) (now : Z) (visit : list string) (attempted : bool) (w : world)
    : world * bool * option nat :=
  match visit with
  | [] => (w, attempted, None)
  | id :: visit =>
      match entries w !! id with
      | None => revive_loop p envs now visit attempted w
      | Some e =>
          if negb (e_Enabled e) then revive_loop p envs now visit attempted w
          else if connected w (mgr e) then (w, attempted, mgr e)
          else
            match restartTransportEntry (envs id) now (entryCfg p e) id w with
            | (w, false) => revive_loop p envs now visit attempted w
            | (w, true) =>
                let m := match entries w !! id with Some e => mgr e | None => None end in
                if connected w m then (w, true, m) else revive_loop p envs now visit true w
            end
      end
  end.

(** [revive] of the caller that runs it, without interference. *)
Definition revive_owner (p : params) (envs : string -> attempt_env) (now : Z) (visit : list string) (d : nat) (w : world) : world * option nat :=
  let '(w, attempted, revived) := revive_loop p envs now visit false w in
  (endRevive now d (match revived with Some _ => true | None => false end) attempted w, revived).

Definition IsConnected (visit : list string) (w : world) : bool :=
  match live visit w with
  | Some _ => true
  | None => existsb e_Enabled (List_ visit w)
  end.

(** What a tunnel's [OpenStream] returns: a connection, or an error and whether it
    says that the network is down. *)
Inductive stream := Stream (c : nat) | StreamErr (networkDown : bool) (e : string).

Inductive open_result := Opened (m : nat) (c : nat) | NoLiveTunnel | OpenErr (e : string).

Definition open_on (open : nat -> stream) (m : nat) : open_result :=
  match open m with Stream c => Opened m c | StreamErr _ e => OpenErr e end.

(** [OpenStream] and [DialStream]; [revive] is what [revive] gives the caller. *)
Definition OpenStream (open : nat -> stream) (ctxDone : bool) (visit : list string) (revive : world -> world * option nat) (w : world)
    : world * open_result :=
  match live visit w with
  | None => match revive w with
            | (w, None) => (w, NoLiveTunnel)
            | (w, Some m) => (w, open_on open m)
            end
  | Some m =>
      match open m with
      | Stream c => (w, Opened m c)
      | StreamErr down e =>
          if ctxDone || down then (w, OpenErr e)
          else match revive w with
               | (w, None) => (w, OpenErr e)
               | (w, Some m2) => if (m2 =? m)%nat then (w, OpenErr e) else (w, open_on open m2)
               end
      end
  end.

(** [connectBridge] when its tunnel connects: the entry it adds to the pool. *)
Definition connectBridge_entry (p : params) (env : attempt_env) (now : Z) (id transport addr : string) (w : world) : world :=
  let w := with_mgrs w (mgrs w ++ [New (Some (tunnelCfg p transport addr (p_TransportConfig p))) None]) in
  let w := with_ctxs w (ctxs w ++ [false]) in
  let i := pred (length (mgrs w)) in
  let w := Add (newPoolEntry id transport addr Connecting_ (Some i)) w in
  let w := update id (fun e => set_mgr (mgr e) (Some (pred (length (ctxs w)))) e) w in
  match Connect env now (default (New None None) (mgrs w !! i)) with
  | (m, None) => update id (set_up now) (with_mgrs w (<[i := m]> (mgrs w)))
  | (m, Some er) => cancel_ctx (Some (pred (length (ctxs w)))) (update id (set_status Failed_ er) (with_mgrs w (<[i := m]> (mgrs w))))
  end.

(** ** Callers *)

Inductive caller := Idle | Owner (d : nat) | Waiting (d : nat).

Record system := mkSys { w_ : world; callers : list caller }.

Inductive pool_step : system -> system -> Prop :=
| ps_begin now i s : callers s !! i = Some Idle ->
    pool_step s (let '(w, d, mine) := beginRevive now (w_ s) in
                 mkSys w (<[i := match d with Some d => if mine then Owner d else Waiting d | None => Idle end]> (callers s)))
| ps_restart_begin cfg id s : pool_step s (mkSys (restart_begin cfg id (w_ s)).1 (callers s))
| ps_restart_end env now id s : pool_step s (mkSys (restart_end env now id (w_ s)) (callers s))
| ps_bridge p env now id transport addr s : pool_step s (mkSys (connectBridge_entry p env now id transport addr (w_ s)) (callers s))
| ps_end now i d ok counted s : callers s !! i = Some (Owner d) ->
    pool_step s (mkSys (endRevive now d ok counted (w_ s)) (<[i := Idle]> (callers s)))
| ps_wake i d s : callers s !! i = Some (Waiting d) -> waits (w_ s) !! d = Some true -> pool_step s (mkSys (w_ s) (<[i := Idle]> (callers s)))
| ps_cancelled i d s : callers s !! i = Some (Waiting d) -> pool_step s (mkSys (w_ s) (<[i := Idle]> (callers s))).

(** The steps that end a revive or wake one of its waiters. *)
Inductive finish_step : system -> system -> Prop :=
| fs_end now i d ok counted s : callers s !! i = Some (Owner d) ->
    finish_step s (mkSys (endRevive now d ok counted (w_ s)) (<[i := Idle]> (callers s)))
| fs_wake i d s : callers s !! i = Some (Waiting d) -> waits (w_ s) !! d = Some true -> finish_step s (mkSys (w_ s) (<[i := Idle]> (callers s))).

End ClientPool.
