(* ===== verification/ClientPoolFacts.v ===== *)
(** What the pool of [ClientPool] guarantees: one revival at a time whose waiters
    are all woken, which tunnel a stream is opened on, and how bridges share the
    pool with the client's own tunnels. *)

From S2P Require Import Prelude Tunnel IdleSet TunnelManager TunnelManagerFacts ClientPool.
Import Tunnel TunnelManager ClientPool.

Implicit Types (w : world) (s : system) (e : TransportEntry).

(** ** One revival at a time *)

Record flight_ok s : Prop := {
  fo_owner : forall i d, callers s !! i = Some (Owner d) -> inflight (w_ s) = Some d /\ waits (w_ s) !! d = Some false;
  fo_one : forall i j d d', callers s !! i = Some (Owner d) -> callers s !! j = Some (Owner d') -> i = j;
  fo_waiting : forall i d, callers s !! i = Some (Waiting d) -> waits (w_ s) !! d = Some true \/ inflight (w_ s) = Some d;
  fo_inflight : forall d, inflight (w_ s) = Some d -> exists i, callers s !! i = Some (Owner d)
}.

(** Steps on entries and tunnels do not touch the revival. *)
Definition same_flight w w' : Prop := inflight w' = inflight w /\ waits w' = waits w.

Lemma flight_frame s w' : flight_ok s -> same_flight (w_ s) w' -> flight_ok (mkSys w' (callers s)).
Proof. intros [H1 H2 H3 H4] [E1 E2]. split; cbn; rewrite ?E1, ?E2; done. Qed.

Lemma restart_begin_flight cfg id w : same_flight w (restart_begin cfg id w).1.
Proof. unfold restart_begin, same_flight, stop_mgr, cancel_ctx. by repeat case_match. Qed.

Lemma restart_end_flight env now id w : same_flight w (restart_end env now id w).
Proof.
  unfold restart_end, same_flight, stop_mgr, cancel_ctx. destruct (entries w !! id) as [e|]; [|done]. destruct (mgr e) as [i|]; [|done].
  destruct (mgrs w !! i) as [m|]; [|done]. destruct (Connect env now m) as [m' [er|]]; [|done]. by destruct (cancel e).
Qed.

Lemma bridge_flight p env now id tr addr w : same_flight w (connectBridge_entry p env now id tr addr w).
Proof. unfold connectBridge_entry, same_flight. by destruct (Connect _ _ _) as [m [er|]]. Qed.

Lemma insert_caller (l : list caller) i j x y : <[i := x]> l !! j = Some y -> (i = j /\ y = x) \/ (i <> j /\ l !! j = Some y).
Proof.
  destruct (decide (i = j)) as [->|Hne]; [|rewrite list_lookup_insert_ne by done; auto]. intros H.
  pose proof (lookup_lt_Some _ _ _ H) as Hlt. rewrite length_insert in Hlt. rewrite list_lookup_insert_eq in H by done. left. split; congruence.
Qed.

Lemma begin_flight now i s : flight_ok s -> callers s !! i = Some Idle ->
  flight_ok (let '(w, d, mine) := beginRevive now (w_ s) in
             mkSys w (<[i := match d with Some d => if mine then Owner d else Waiting d | None => Idle end]> (callers s))).
Proof.
  intros [H1 H2 H3 H4] Hi. pose proof (lookup_lt_Some _ _ _ Hi) as Hlt. unfold beginRevive. destruct (inflight (w_ s)) as [d|] eqn:Ef.
  - split; cbn; rewrite ?Ef.
    + intros j x [[_ ?]|[_ Hj]]%insert_caller; [done|]. by apply (H1 j).
    + intros j k x y [[_ ?]|[_ Hj]]%insert_caller [[_ ?]|[_ Hk]]%insert_caller; try done. by eapply H2.
    + intros j x [[_ [= ->]]|[_ Hj]]%insert_caller; [by right|]. by apply (H3 j).
    + intros x [= <-]. destruct (H4 d eq_refl) as [j Hj]. exists j. rewrite list_lookup_insert_ne; [done|congruence].
  - assert (Hno : forall j x, callers s !! j = Some (Owner x) -> False) by (intros j x Hj; by destruct (H1 j x Hj)).
    assert (Hw : forall j x, callers s !! j = Some (Waiting x) -> waits (w_ s) !! x = Some true).
    { intros j x Hj. by destruct (H3 j x Hj). }
    destruct (reviveAllowed now (w_ s)); cbn.
    + split; cbn.
      * intros j x [[_ [= ->]]|[_ Hj]]%insert_caller; [|by destruct (Hno j x)]. split; [done|].
        by rewrite lookup_app_r, Nat.sub_diag by done.
      * intros j k x y [[<- _]|[_ Hj]]%insert_caller [[<- _]|[_ Hk]]%insert_caller; try done; exfalso; eauto.
      * intros j x [[_ ?]|[_ Hj]]%insert_caller; [done|]. left. apply lookup_app_l_Some. by apply (Hw j).
      * intros x [= <-]. exists i. by apply list_lookup_insert_eq.
    + split; cbn; rewrite ?Ef; try done.
      * intros j x [[_ ?]|[_ Hj]]%insert_caller; [done|]. by destruct (Hno j x).
      * intros j k x y [[_ ?]|[_ Hj]]%insert_caller; [done|]. by destruct (Hno j x).
      * intros j x [[_ ?]|[_ Hj]]%insert_caller; [done|]. left. by apply (Hw j).
Qed.

Lemma end_flight now i d ok counted s : flight_ok s -> callers s !! i = Some (Owner d) ->
  flight_ok (mkSys (endRevive now d ok counted (w_ s)) (<[i := Idle]> (callers s))).
Proof.
  intros [H1 H2 H3 H4] Hi. destruct (H1 i d Hi) as [Ef Ew]. pose proof (lookup_lt_Some _ _ _ Ew) as Hlt.
  assert (Hno : forall j x, i <> j -> callers s !! j = Some (Owner x) -> False) by (intros j x Hne Hj; by apply Hne, (H2 i j d x)).
  split; cbn; try done.
  - intros j x [[_ ?]|[Hne Hj]]%insert_caller; [done|]. by destruct (Hno j x).
  - intros j k x y [[_ ?]|[Hne Hj]]%insert_caller; [done|]. by destruct (Hno j x).
  - intros j x [[_ ?]|[Hne Hj]]%insert_caller; [done|]. left. destruct (decide (d = x)) as [->|Hdx].
    + by apply list_lookup_insert_eq.
    + rewrite list_lookup_insert_ne by done. destruct (H3 j x Hj) as [?|E]; [done|]. congruence.
Qed.

Lemma wake_flight i d s : flight_ok s -> callers s !! i = Some (Waiting d) -> flight_ok (mkSys (w_ s) (<[i := Idle]> (callers s))).
Proof.
  intros [H1 H2 H3 H4] Hi. split; cbn.
  - intros j x [[_ ?]|[_ Hj]]%insert_caller; [done|]. by apply (H1 j).
  - intros j k x y [[_ ?]|[_ Hj]]%insert_caller [[_ ?]|[_ Hk]]%insert_caller; try done. by eapply H2.
  - intros j x [[_ ?]|[_ Hj]]%insert_caller; [done|]. by apply (H3 j).
  - intros x Hx. destruct (H4 x Hx) as [j Hj]. exists j. rewrite list_lookup_insert_ne; [done|congruence].
Qed.

Lemma pool_step_flight s s' : flight_ok s -> pool_step s s' -> flight_ok s'.
Proof.
  intros Hi Hs. destruct Hs as [now i s H|cfg id s|env now id s|p env now id tr addr s|now i d ok counted s H|i d s H _|i d s H].
  - by apply begin_flight.
  - by apply flight_frame, restart_begin_flight.
  - by apply flight_frame, restart_end_flight.
  - by apply flight_frame, bridge_flight.
  - by apply end_flight.
  - by eapply wake_flight.
  - by eapply wake_flight.
Qed.

Definition all_idle (n : nat) : system := mkSys newPool (replicate n Idle).

Lemma reach_flight n s : rtc pool_step (all_idle n) s -> flight_ok s.
Proof.
  assert (H0 : flight_ok (all_idle n)).
  { assert (Hx : forall i x, replicate n Idle !! i = Some x -> x = Idle) by (intros i x Hr; by apply lookup_replicate in Hr as [? _]).
    split; cbn; try done; [intros i d H%Hx|intros i j d d' H%Hx|intros i d H%Hx]; done. }
  revert H0. generalize (all_idle n). intros s0 H0 Hr. induction Hr as [|a b c Hs _ IH]; [done|]. eauto using pool_step_flight.
Qed.

(** ** Waiters are woken *)

Definition busy (c : caller) : bool := match c with Idle => false | _ => true end.
Definition busy_count s : nat := length (List.filter busy (callers s)).

Lemma filter_app_bool {A} (f : A -> bool) l k : List.filter f (l ++ k) = List.filter f l ++ List.filter f k.
Proof. induction l as [|x l IH]; [done|]. cbn. destruct (f x); cbn; by rewrite IH. Qed.

Lemma busy_insert (l : list caller) i c : l !! i = Some c -> busy c = true ->
  (length (List.filter busy (<[i := Idle]> l)) < length (List.filter busy l))%nat.
Proof.
  intros Hi Hb. rewrite insert_take_drop by (by eapply lookup_lt_Some). rewrite <- (take_drop_middle l i c Hi) at 3.
  rewrite !filter_app_bool. cbn. rewrite Hb, !length_app. cbn. lia.
Qed.

Lemma finish_progress s : flight_ok s -> (forall i, callers s !! i = Some Idle \/ callers s !! i = None) \/ exists s', finish_step s s'.
Proof.
  intros [H1 H2 H3 H4]. destruct (List.filter busy (callers s)) as [|c l] eqn:Ef.
  - left. intros i. destruct (callers s !! i) as [c|] eqn:Ei; [|by right]. left. destruct (busy c) eqn:Eb; [|by destruct c].
    exfalso. pose proof (busy_insert _ _ _ Ei Eb) as Hlt. rewrite Ef in Hlt. cbn in Hlt. lia.
  - right. assert (Hin : In c (List.filter busy (callers s))) by (rewrite Ef; by left).
    apply filter_In in Hin as [Hin Hb]. apply list_elem_of_In, list_elem_of_lookup in Hin as [i Hi].
    destruct c as [|d|d]; [done| |].
    + eexists. by apply (fs_end 0 i d true true).
    + destruct (H3 i d Hi) as [Hw|Hw]; [eexists; by apply (fs_wake i d)|].
      destruct (H4 d Hw) as [j Hj]. eexists. by apply (fs_end 0 j d true true).
Qed.

Lemma finish_step_ok s s' : flight_ok s -> finish_step s s' -> flight_ok s' /\ (busy_count s' < busy_count s)%nat.
Proof.
  intros Hok Hs. destruct Hs as [now i d ok counted s H|i d s H Hw].
  - split; [by apply end_flight|]. unfold busy_count. cbn. by eapply busy_insert.
  - split; [by eapply wake_flight|]. unfold busy_count. cbn. by eapply busy_insert.
Qed.

(** C17: at most one caller revives the pool at a time, however callers, restarts
    and bridges interleave, and no caller waits in vain: in every reachable state,
    once the revival in progress ends, all those who wait for it go on after
    finitely many steps. *)
Theorem revive_single_flight n s : rtc pool_step (all_idle n) s ->
  (forall i j d d', callers s !! i = Some (Owner d) -> callers s !! j = Some (Owner d') -> i = j) /\
  (forall d, inflight (w_ s) = Some d <-> exists i, callers s !! i = Some (Owner d)) /\
  eventually finish_step (fun s' => forall i, callers s' !! i = Some Idle \/ callers s' !! i = None) s.
Proof.
  intros Hr%reach_flight. split; [apply (fo_one s Hr)|]. split.
  - intros d. split; [apply (fo_inflight s Hr)|]. intros [i Hi]. by apply (fo_owner s Hr i).
  - apply (eventually_measure _ _ flight_ok busy_count); [apply finish_progress| |done].
    intros a b Ha Hb. right. by apply finish_step_ok.
Qed.

(** ** Reviving *)

(** Entries refer to tunnels that exist. *)
Definition wf w : Prop := forall id e i, entries w !! id = Some e -> mgr e = Some i -> (i < length (mgrs w))%nat.

(** Tunnels made before do not become connected. *)
Definition quiet w w' : Prop :=
  (length (mgrs w) <= length (mgrs w'))%nat /\
  forall i, (i < length (mgrs w))%nat -> connected w' (Some i) = true -> connected w (Some i) = true.

#[export] Instance quiet_refl : Reflexive quiet.
Proof. done. Qed.
#[export] Instance quiet_trans : Transitive quiet.
Proof. intros a b c [H1 H2] [H3 H4]. split; [lia|]. intros i Hi Hc. apply H2; [done|]. apply H4; [lia|done]. Qed.

Lemma Stop_disconnected m : TunnelManager.IsConnected (Stop m) = false.
Proof.
  rewrite IsConnected_state. change (mstate (Stop m)) with (mstate (Disconnect m)).
  destruct (Disconnect_frame m) as (_ & -> & _). done.
Qed.

Lemma New_state cfg ks : mstate (New cfg ks) = StateMachine.StateDisconnected.
Proof. done. Qed.

Lemma connected_lookup w i : connected w (Some i) = match mgrs w !! i with Some m => TunnelManager.IsConnected m | None => false end.
Proof. done. Qed.

(** A restart: another entry's tunnel is untouched or stopped, the entry gets a new
    one, and it is connected exactly when the dial worked. *)
Record restarted w w' (id : string) (i : nat) : Prop := {
  rs_new : i = length (mgrs w); rs_len : length (mgrs w') = S (length (mgrs w));
  rs_entry : exists e', entries w' !! id = Some e' /\ mgr e' = Some i /\
               e_Enabled e' = match entries w !! id with Some e => e_Enabled e | None => false end;
  rs_others : forall id', id' <> id -> entries w' !! id' = entries w !! id';
  rs_quiet : quiet w w'
}.

Lemma alter_Stop_quiet (l : list Manager) j i m : alter Stop j l !! i = Some m -> TunnelManager.IsConnected m = true ->
  exists m0, l !! i = Some m0 /\ TunnelManager.IsConnected m0 = true.
Proof.
  intros H Hc. destruct (decide (j = i)) as [->|Hne].
  - rewrite list_lookup_alter_eq in H. destruct (l !! i); [|done]. injection H as <-. by rewrite Stop_disconnected in Hc.
  - rewrite list_lookup_alter_ne in H by done. eauto.
Qed.

Lemma mgrs_update id f w : mgrs (update id f w) = mgrs w.
Proof. done. Qed.
Lemma mgrs_cancel c w : mgrs (cancel_ctx c w) = mgrs w.
Proof. by destruct c. Qed.
Lemma entries_cancel c w : entries (cancel_ctx c w) = entries w.
Proof. by destruct c. Qed.
Lemma entries_stop m w : entries (stop_mgr m w) = entries w.
Proof. by destruct m. Qed.
Lemma mgrs_stop m w w0 : mgrs w = mgrs w0 -> mgrs (stop_mgr m w) = mgrs (stop_mgr m w0).
Proof. intros E. destruct m; cbn; by rewrite E. Qed.
Lemma length_stop m w : length (mgrs (stop_mgr m w)) = length (mgrs w).
Proof. destruct m; [apply length_alter|done]. Qed.
Lemma update_eq id f w e : entries w !! id = Some e -> entries (update id f w) !! id = Some (f e).
Proof. intros E. unfold update. cbn. by rewrite lookup_alter_eq, E. Qed.
Lemma update_ne id f w id' : id' <> id -> entries (update id f w) !! id' = entries w !! id'.
Proof. intros E. unfold update. cbn. by rewrite lookup_alter_ne by congruence. Qed.

Lemma restart_begin_spec cfg id w w1 : restart_begin cfg id w = (w1, true) ->
  exists e e1, entries w !! id = Some e /\ restarting e = false /\ mgrs w1 = mgrs (stop_mgr (mgr e) w) ++ [New (Some cfg) None] /\
  entries w1 !! id = Some e1 /\ mgr e1 = Some (length (mgrs w)) /\ e_Enabled e1 = e_Enabled e /\
  (forall id', id' <> id -> entries w1 !! id' = entries w !! id').
Proof.
  unfold restart_begin. destruct (entries w !! id) as [e|] eqn:Ee; [|done]. destruct (restarting e) eqn:Er; [done|].
  set (wa := cancel_ctx (cancel e) (update id (set_restarting true) w)). set (wb := stop_mgr (mgr e) (update id (set_status Connecting_ "") wa)).
  assert (Ema : mgrs wb = mgrs (stop_mgr (mgr e) w)) by (apply mgrs_stop; rewrite mgrs_update; unfold wa; by rewrite mgrs_cancel).
  assert (Eid : entries wb !! id = Some (set_status Connecting_ "" (set_restarting true e))).
  { unfold wb. rewrite entries_stop. apply update_eq. unfold wa. rewrite entries_cancel. by apply update_eq. }
  intros [= <-]. eexists e, _. split; [done|]. split; [done|]. split; [cbn; by rewrite Ema|]. split; [apply update_eq; exact Eid|]. split_and!; [|done|].
  - cbn. f_equal. rewrite length_app, Ema, length_stop. cbn. lia.
  - intros id' Hne. rewrite update_ne by done. cbn. unfold wb. rewrite entries_stop, update_ne by done. unfold wa.
    by rewrite entries_cancel, update_ne by done.
Qed.

Lemma restart_begin_false cfg id w w1 : restart_begin cfg id w = (w1, false) -> w1 = w.
Proof. unfold restart_begin. repeat case_match; by intros [= <-]. Qed.

Lemma restart_end_spec env now id w e i m : entries w !! id = Some e -> mgr e = Some i -> mgrs w !! i = Some m ->
  let w' := restart_end env now id w in
  (exists e', entries w' !! id = Some e' /\ mgr e' = Some i /\ e_Enabled e' = e_Enabled e) /\
  (forall id', id' <> id -> entries w' !! id' = entries w !! id') /\ length (mgrs w') = length (mgrs w) /\
  (forall j, j <> i -> mgrs w' !! j = mgrs w !! j).
Proof.
  intros He Hm Hi. cbn zeta. unfold restart_end. rewrite He, Hm, Hi. destruct (Connect env now m) as [m' [er|]].
  - split_and!.
    + eexists. split; [apply update_eq, update_eq; rewrite entries_stop, entries_cancel; exact He|]. done.
    + intros id' Hne. rewrite !update_ne by done. by rewrite entries_stop, entries_cancel.
    + cbn. rewrite length_alter, mgrs_cancel. apply length_insert.
    + intros j Hj. cbn. rewrite list_lookup_alter_ne by done. rewrite mgrs_cancel. cbn. by apply list_lookup_insert_ne.
  - split_and!.
    + eexists. split; [apply update_eq, update_eq; exact He|]. done.
    + intros id' Hne. by rewrite !update_ne by done.
    + cbn. apply length_insert.
    + intros j Hj. cbn. by apply list_lookup_insert_ne.
Qed.

Lemma restart_spec env now cfg id w w' : restartTransportEntry env now cfg id w = (w', true) -> restarted w w' id (length (mgrs w)).
Proof.
  unfold restartTransportEntry. destruct (restart_begin cfg id w) as [w1 [|]] eqn:Eb; [|done]. intros [= <-].
  destruct (restart_begin_spec _ _ _ _ Eb) as (e & e1 & He & _ & Em & He1 & Hm1 & Hen & Hoth).
  assert (Hi : mgrs w1 !! length (mgrs w) = Some (New (Some cfg) None)).
  { rewrite Em, lookup_app_r by (rewrite length_stop; done). by rewrite length_stop, Nat.sub_diag. }
  destruct (restart_end_spec env now id w1 e1 _ _ He1 Hm1 Hi) as ((e' & H1 & H2 & H3) & H4 & H5 & H6).
  assert (Hlen : length (mgrs w1) = S (length (mgrs w))) by (rewrite Em, length_app, length_stop; cbn; lia).
  split; [done|lia| | |].
  - exists e'. rewrite He. split_and!; congruence.
  - intros id' Hne. rewrite H4, Hoth; done.
  - split; [lia|]. intros j Hj. rewrite !connected_lookup, H6 by lia. rewrite Em, lookup_app_l by (by rewrite length_stop).
    destruct (mgr e) as [k|]; [|done]. cbn. destruct (alter Stop k (mgrs w) !! j) as [m|] eqn:Ej; [|done]. intros Hc.
    destruct (alter_Stop_quiet _ _ _ _ Ej Hc) as (m0 & -> & ?). done.
Qed.

Lemma restart_false env now cfg id w w' : restartTransportEntry env now cfg id w = (w', false) -> w' = w.
Proof.
  unfold restartTransportEntry. destruct (restart_begin cfg id w) as [w1 [|]] eqn:Eb; [done|]. intros [= <-]. by eapply restart_begin_false.
Qed.

Lemma restarted_wf w w' id i : wf w -> restarted w w' id i -> wf w'.
Proof.
  intros Hw [-> Hl (e' & He & Hm & _) Ho _] id' e j Hj Hm'. rewrite Hl. destruct (decide (id' = id)) as [->|Hne].
  - assert (e = e') as -> by congruence. assert (j = length (mgrs w)) as -> by congruence. lia.
  - rewrite Ho in Hj by done. specialize (Hw _ _ _ Hj Hm'). lia.
Qed.

Record revived_ok w w' (visit : list string) (r : option nat) : Prop := {
  rv_wf : wf w'; rv_quiet : quiet w w';
  rv_frame : forall id, id ∉ visit -> entries w' !! id = entries w !! id;
  rv_result : match r with
    | Some m => connected w' (Some m) = true /\ exists id e, id ∈ visit /\ entries w' !! id = Some e /\ e_Enabled e = true /\ mgr e = Some m
    | None => forall id e, id ∈ visit -> entries w' !! id = Some e -> e_Enabled e = true -> connected w' (mgr e) = false
    end
}.

Lemma quiet_disconnected w w' m : quiet w w' -> (forall i, m = Some i -> (i < length (mgrs w))%nat) ->
  connected w m = false -> connected w' m = false.
Proof.
  intros [_ Hq] Hb Hc. destruct m as [i|]; [|done]. destruct (connected w' (Some i)) eqn:E; [|done].
  by rewrite (Hq i (Hb i eq_refl) E) in Hc.
Qed.

(** An entry that is passed over stays passed over. *)
Lemma revived_skip w w1 w' id visit r : id ∉ visit -> revived_ok w1 w' visit r -> quiet w w1 ->
  (forall id', id' <> id -> entries w1 !! id' = entries w !! id') -> wf w1 ->
  (forall e, entries w1 !! id = Some e -> e_Enabled e = true -> connected w1 (mgr e) = false) ->
  revived_ok w w' (id :: visit) r.
Proof.
  intros Hn [H1 H2 H3 H4] Hq Ho Hwf Hid. split; [done|by etrans| |].
  - intros id' [Hne Hni]%not_elem_of_cons. by rewrite H3, Ho.
  - destruct r as [m|].
    + destruct H4 as (Hc & id' & e & Hin & He). split; [done|]. exists id', e. split; [by apply elem_of_cons; right|done].
    + intros id' e [->|Hin]%elem_of_cons He Hen; [|by eapply H4]. rewrite H3 in He by done.
      eapply quiet_disconnected; [exact H2| |by apply Hid]. intros i Hm. by eapply Hwf.
Qed.

Lemma revive_loop_spec p envs now visit att w w' att' r : NoDup visit -> wf w ->
  revive_loop p envs now visit att w = (w', att', r) -> revived_ok w w' visit r.
Proof.
  intros Hnd. revert att w. induction Hnd as [|id visit Hn Hnd IH]; intros att w Hw; cbn [revive_loop].
  { intros [= <- <- <-]. split; try done. by intros id e ?%not_elem_of_nil. }
  destruct (entries w !! id) as [e|] eqn:He.
  2:{ intros H. eapply (revived_skip w w); [done|by eapply IH|done..|]. intros e. congruence. }
  destruct (e_Enabled e) eqn:Hen; cbn [negb].
  2:{ intros H. eapply (revived_skip w w); [done|by eapply IH|done..|]. intros e0. congruence. }
  destruct (connected w (mgr e)) eqn:Hc.
  { intros [= <- <- <-]. destruct (mgr e) as [m|] eqn:Em; [|done]. split; [done|done|done|]. split; [done|].
    exists id, e. split; [apply elem_of_cons; by left|done]. }
  destruct (restartTransportEntry (envs id) now (entryCfg p e) id w) as [w1 [|]] eqn:Er.
  - pose proof (restart_spec _ _ _ _ _ _ Er) as Rs. pose proof (restarted_wf _ _ _ _ Hw Rs) as Hw1.
    destruct Rs as [_ _ (e1 & He1 & Hm1 & Hen1) Ho Hq]. rewrite He in Hen1. rewrite He1, Hm1.
    destruct (connected w1 (Some (length (mgrs w)))) eqn:Hc1.
    + intros [= <- <- <-]. split; [done|done| |].
      * intros id' [Hne _]%not_elem_of_cons. by apply Ho.
      * split; [done|]. exists id, e1. split; [apply elem_of_cons; by left|]. split_and!; congruence.
    + intros H. eapply (revived_skip w w1); [done|by eapply IH|done..|]. intros e0 He0 _. assert (e0 = e1) as -> by congruence. by rewrite Hm1.
  - apply restart_false in Er as ->. intros H. eapply (revived_skip w w); [done|by eapply IH|done..|]. intros e0 He0 _. congruence.
Qed.

Lemma live_spec visit w :
  match live visit w with
  | Some m => connected w (Some m) = true /\ exists l id l2 e, visit = l ++ id :: l2 /\ entries w !! id = Some e /\ e_Enabled e = true /\ mgr e = Some m /\
      Forall (fun id => forall e, entries w !! id = Some e -> e_Enabled e = true -> connected w (mgr e) = false) l
  | None => Forall (fun id => forall e, entries w !! id = Some e -> e_Enabled e = true -> connected w (mgr e) = false) visit
  end.
Proof.
  induction visit as [|id visit IH]; cbn [live]; [constructor|].
  destruct (entries w !! id) as [e|] eqn:He; [destruct (e_Enabled e) eqn:Hen; [destruct (connected w (mgr e)) eqn:Hc|]|]; cbn [andb].
  - destruct (mgr e) as [m|] eqn:Em; [|done]. split; [done|]. exists [], id, visit, e. by split_and!.
  - assert (Hid : forall e0, entries w !! id = Some e0 -> e_Enabled e0 = true -> connected w (mgr e0) = false) by congruence.
    destruct (live visit w) as [m|]; [|by constructor]. destruct IH as (H1 & l & id' & l2 & e' & -> & H2). split; [done|].
    exists (id :: l), id', l2, e'. split; [done|]. destruct H2 as (? & ? & ? & ?). split_and!; [done..|by constructor].
  - assert (Hid : forall e0, entries w !! id = Some e0 -> e_Enabled e0 = true -> connected w (mgr e0) = false) by congruence.
    destruct (live visit w) as [m|]; [|by constructor]. destruct IH as (H1 & l & id' & l2 & e' & -> & H2). split; [done|].
    exists (id :: l), id', l2, e'. split; [done|]. destruct H2 as (? & ? & ? & ?). split_and!; [done..|by constructor].
  - assert (Hid : forall e0, entries w !! id = Some e0 -> e_Enabled e0 = true -> connected w (mgr e0) = false) by congruence.
    destruct (live visit w) as [m|]; [|by constructor]. destruct IH as (H1 & l & id' & l2 & e' & -> & H2). split; [done|].
    exists (id :: l), id', l2, e'. split; [done|]. destruct H2 as (? & ? & ? & ?). split_and!; [done..|by constructor].
Qed.

(** ** Opening streams *)

Lemma revive_owner_spec p envs now visit d w w' r : NoDup visit -> wf w ->
  revive_owner p envs now visit d w = (w', r) -> revived_ok w w' visit r.
Proof.
  unfold revive_owner. intros Hn Hw. destruct (revive_loop p envs now visit false w) as [[w1 att] r1] eqn:E. intros [= <- <-].
  pose proof (revive_loop_spec _ _ _ _ _ _ _ _ _ Hn Hw E) as [H1 H2 H3 H4]. by split.
Qed.

(** The tunnel [m] belongs to an enabled entry among [visit] and is connected. *)
Definition serving w (visit : list string) (m : nat) : Prop :=
  connected w (Some m) = true /\ exists id e, id ∈ visit /\ entries w !! id = Some e /\ e_Enabled e = true /\ mgr e = Some m.
Definition none_serving w (visit : list string) : Prop :=
  forall id e, id ∈ visit -> entries w !! id = Some e -> e_Enabled e = true -> connected w (mgr e) = false.

Lemma live_serving visit w m : live visit w = Some m -> serving w visit m.
Proof.
  intros E. pose proof (live_spec visit w) as H. rewrite E in H. destruct H as (Hc & l & id & l2 & e & -> & He & Hen & Hm & _).
  split; [done|]. exists id, e. split_and!; [|done..]. apply elem_of_app. right. by left.
Qed.

Lemma open_on_spec open m :
  match open_on open m with Opened m' c => m' = m /\ open m = Stream c | OpenErr er => exists down, open m = StreamErr down er | NoLiveTunnel => False end.
Proof. unfold open_on. destruct (open m) as [c|down er] eqn:E; [done|by exists down]. Qed.

Record opened_ok (open : nat -> stream) (visit visit2 : list string) (r : option nat) w' (res : open_result) : Prop := {
  oo_opened : forall m c, res = Opened m c -> open m = Stream c /\ serving w' (visit ++ visit2) m;
  oo_none : res = NoLiveTunnel -> none_serving w' visit2;
  oo_error : forall er, res = OpenErr er -> exists m down, open m = StreamErr down er /\ (r = Some m \/ serving w' visit2 m)
}.

Lemma serving_l w v1 v2 m : serving w v1 m -> serving w (v1 ++ v2) m.
Proof. intros [H (id & e & Hin & He)]. split; [done|]. exists id, e. split; [apply elem_of_app; by left|done]. Qed.
Lemma serving_r w v1 v2 m : serving w v2 m -> serving w (v1 ++ v2) m.
Proof. intros [H (id & e & Hin & He)]. split; [done|]. exists id, e. split; [apply elem_of_app; by right|done]. Qed.

Lemma opened_on_revived open visit visit2 r w' m : serving w' visit2 m -> opened_ok open visit visit2 r w' (open_on open m).
Proof.
  intros Hm. pose proof (open_on_spec open m) as H. destruct (open_on open m) as [m' c| |er]; [|done|].
  - destruct H as [-> H]. split; [|done|done]. intros ? ? [= <- <-]. split; [done|by apply serving_r].
  - destruct H as [down H]. split; [done|done|]. intros ? [= <-]. exists m, down. by split; [|right].
Qed.

(** The pool opens a stream only on a connected tunnel of an enabled entry,
    which it says was opened exactly when that tunnel opened it; it leaves the pool
    alone when the tunnel it found works; it reports that no tunnel is live only
    after the restart of every enabled entry failed to connect one; and any other
    error is one that a tunnel it tried returned. *)
Theorem pool_opens_on_live open ctxDone visit visit2 p envs now d w w' res : wf w -> NoDup visit2 ->
  OpenStream open ctxDone visit (revive_owner p envs now visit2 d) w = (w', res) ->
  opened_ok open visit visit2 (live visit w) w' res /\
  (forall m c, live visit w = Some m -> open m = Stream c -> w' = w /\ res = Opened m c) /\
  (res = NoLiveTunnel -> live visit w = None).
Proof.
  intros Hw Hn. unfold OpenStream. destruct (live visit w) as [m|] eqn:El.
  - destruct (open m) as [c|down er] eqn:Eo.
    { intros [= <- <-]. split; [|split; [intros ? ? [= <-] ?; split; congruence|done]]. split; [|done|done]. intros ? ? [= <- <-].
      split; [done|]. apply serving_l. by apply live_serving. }
    assert (Herr : forall w0, opened_ok open visit visit2 (Some m) w0 (OpenErr er)).
    { intros w0. split; [done|done|]. intros ? [= <-]. exists m, down. by split; [|left]. }
    assert (Hrest : forall m0 c, Some m = Some m0 -> open m0 = Stream c -> w' = w /\ res = Opened m0 c) by congruence.
    destruct (ctxDone || down); [by intros [= <- <-]|].
    destruct (revive_owner p envs now visit2 d w) as [w1 [m2|]] eqn:Er; [|by intros [= <- <-]].
    destruct (revive_owner_spec _ _ _ _ _ _ _ _ Hn Hw Er) as [_ _ _ Hres].
    destruct (Nat.eqb_spec m2 m) as [->|Hne]; [by intros [= <- <-]|]. intros [= <- <-].
    split; [by apply opened_on_revived|]. split; [done|]. unfold open_on. by destruct (open m2).
  - destruct (revive_owner p envs now visit2 d w) as [w1 [m2|]] eqn:Er;
      destruct (revive_owner_spec _ _ _ _ _ _ _ _ Hn Hw Er) as [_ _ _ Hres]; intros [= <- <-].
    + split; [by apply opened_on_revived|]. by split; [|].
    + split; [|by split]. by split; [|intros _|].
Qed.

(** After a counted revival the next one may start once three seconds have passed
    and, if it failed, two seconds for every failure in a row up to ten. *)
Lemma revive_spacing now now' d ok w : 0 <= fails w ->
  reviveAllowed now' (endRevive now d ok true w) =
  (Z.max reviveMinInterval (if ok then 0 else Z.min reviveBackoffMax ((fails w + 1) * reviveBackoffStep)) <=? now' - now).
Proof.
  intros Hf. unfold reviveAllowed, since_ge, reviveMinInterval, reviveBackoffMax, reviveBackoffStep, second. cbn.
  destruct ok; cbn; [|destruct (Z.eqb_spec (fails w + 1) 0); [lia|]].
  - destruct (Z.leb_spec (3 * 1000000000) (now' - now)); cbn; symmetry; [apply Z.leb_le|apply Z.leb_gt]; lia.
  - destruct (Z.leb_spec (3 * 1000000000) (now' - now)); cbn.
    + destruct (Z.leb_spec (Z.min (10 * 1000000000) ((fails w + 1) * (2 * 1000000000))) (now' - now)); symmetry; [apply Z.leb_le|apply Z.leb_gt]; lia.
    + symmetry. apply Z.leb_gt. lia.
Qed.

(** A revival that attempted nothing leaves the schedule as it was. *)
Lemma uncounted_revive_free now now' d ok w : reviveAllowed now' (endRevive now d ok false w) = reviveAllowed now' w.
Proof. done. Qed.

(** The tunnel of a bridge, once its restart goes through the pool, is built for the
    client's own server, whatever server the entry names. *)
Lemma restarted_entry_dials_main p id e w w1 : entries w !! id = Some e -> restart_begin (entryCfg p e) id w = (w1, true) ->
  exists m, mgrs w1 !! length (mgrs w) = Some m /\ ServerAddr (config m) = serverAddress p.
Proof.
  intros He Hb. destruct (restart_begin_spec _ _ _ _ Hb) as (e0 & e1 & _ & _ & -> & _).
  exists (New (Some (entryCfg p e)) None). rewrite lookup_app_r by (by rewrite length_stop). rewrite length_stop, Nat.sub_diag. split; [done|].
  unfold New, with_sni_default. cbn. by repeat case_match.
Qed.

(** ** Witnesses *)

Module PoolWitnesses.

Definition up (c : nat) : attempt_env := mkEnv false true None (Dialled c) false.
Definition down_ : attempt_env := mkEnv false true None (DialError "refused") false.
Definition P : params := mkParams "main:443" "" None 0.

(** Two entries without a tunnel; the second one's dial works. *)
Definition w0 : world :=
  Add (newPoolEntry "conn-2" "whispera" "main:443" Standby_ None) (Add (newPoolEntry "conn-1" "whispera" "main:443" Failed_ None) newPool).
Definition envs (id : string) : attempt_env := if bool_decide (id = "conn-2") then up 9 else down_.
Definition result : world * open_result :=
  OpenStream (fun m => Stream (100 + m)) false ["conn-1"; "conn-2"] (revive_owner P envs 50 ["conn-1"; "conn-2"] 0) w0.

Lemma pool_opens_on_live_witness : result.2 = Opened 1 101 /\ serving result.1 ["conn-1"; "conn-2"; "conn-1"; "conn-2"] 1.
Proof.
  assert (Er : result.2 = Opened 1 101) by (vm_compute; reflexivity). split; [exact Er|].
  assert (Hw : wf w0).
  { intros id e i He Hm. assert (Hn : map_Forall (fun _ x => mgr x = None) (entries w0)) by (apply map_Forall_to_list; vm_compute; repeat constructor).
    rewrite (Hn _ _ He) in Hm. done. }
  assert (Hd : NoDup ["conn-1"; "conn-2"]) by (apply (bool_decide_unpack _); vm_compute; exact I).
  destruct (pool_opens_on_live (fun m => Stream (100 + m)) false ["conn-1"; "conn-2"] ["conn-1"; "conn-2"] P envs 50 0 w0 result.1 result.2 Hw Hd
              (surjective_pairing result)) as (Hok & _ & _).
  apply (oo_opened _ _ _ _ _ _ Hok 1 101 Er).
Defined.

(** A caller revives, a second one waits, and the first one ends. *)
Definition s1 : system := mkSys (beginRevive 5 newPool).1.1 [Owner 0; Idle].
Definition s2 : system := mkSys (beginRevive 5 newPool).1.1 [Owner 0; Waiting 0].

Lemma revive_single_flight_witness : inflight (w_ s2) = Some 0%nat /\
  eventually finish_step (fun s' => forall i, callers s' !! i = Some Idle \/ callers s' !! i = None) s2.
Proof.
  assert (Hr : rtc pool_step (all_idle 2) s2).
  { eapply (rtc_l _ _ s1); [exact (ps_begin 5 0 (all_idle 2) eq_refl)|]. apply rtc_once. exact (ps_begin 6 1 s1 eq_refl). }
  destruct (revive_single_flight 2 s2 Hr) as (_ & Hi & He). split; [|exact He]. apply (Hi 0%nat). exists 0%nat. reflexivity.
Defined.

(** A bridge's tunnel is an enabled entry of the pool that serves the client's own
    traffic: with the primary tunnel down, [live] hands it out. *)
Lemma bridge_serves_ordinary : forall visit, visit = ["conn-1"; "conn-2"] \/ visit = ["conn-2"; "conn-1"] ->
  live visit (connectBridge_entry P (up 4) 60 "conn-2" "whispera" "bridge:443" (Add (newPoolEntry "conn-1" "whispera" "main:443" Failed_ None) newPool)) = Some 0%nat.
Proof. intros visit [->| ->]; vm_compute; reflexivity. Qed.

(** An enabled entry counts as connected even when its tunnel is down. *)
Lemma failed_pool_is_connected :
  let w := Add (newPoolEntry "conn-1" "whispera" "main:443" Failed_ None) newPool in
  ClientPool.IsConnected ["conn-1"] w = true /\ live ["conn-1"] w = None.
Proof. split; vm_compute; reflexivity. Qed.

End PoolWitnesses.
