(* ===== verification/ControlAPI.v ===== *)
(** The client's control server, src/app/client/api.go: the requests that list and
    change the entries of the pool ([ClientPool]), the bridges ([MultiRouter]) and
    the shape of the traffic ([Framed.Shape]); and of client.go how the client is
    started, its first tunnel connected and the kill switch ([KillSwitch]) armed.

    A handler is a function of the client's state that returns the new state and
    the reply.  Requests arrive with the body as the JSON decoder left it; [decoded]
    says whether it returned an error, which only some handlers look at.  Work
    that a handler starts in a goroutine is a [job] of the state, run by [run_job] at
    any later time.  The server starts after [RunMain] has set [reconnectEntry] and
    [newMultiBridgeTunnel]. *)

From S2P Require Import Prelude GoStr NetIP Framed TunnelManager ClientPool MultiRouter KillSwitch.
Import TunnelManager ClientPool.

Module ControlAPI.

(** ** The settings of a tunnel, connect_config.go *)

Definition set_connCfg (c : connConfig) (m : Manager) : Manager :=
  mkManager (config m) (sm m) (cb m) (idle m) (shut m) (muxClient m) (killSwitch m) (lane m) c (currentSNI m) (lastGoodSNI m)
    (lastGoodTransport m) (reconnecting m) (reconnectDone m) (dones m) (reconnectAttempts m) (boFailCount m) (boLastSuccessAt m)
    (connectedAt m) (healthy m) (healthMsg m).

Definition SetRateLimit (kbps : Z) (m : Manager) : Manager := set_connCfg (SetRateLimitKB kbps (connCfg m)) m.
Definition SetTLSFragmentSize (size : Z) (m : Manager) : Manager :=
  set_config (with_fragment (config m) (if size <? 0 then 0 else size)) (set_connCfg (conn_SetTLSFragmentSize size (connCfg m)) m).
Definition SetForceObfuscation (enabled : bool) (m : Manager) : Manager := set_connCfg (conn_SetForceObfuscation enabled (connCfg m)) m.
Definition IsForceObfuscation (m : Manager) : bool := conn_IsForceObfuscation (connCfg m).

(** Nothing sets the obfuscator of a manager. *)
Definition SetBehavioralProfile (profile : string) (m : Manager) : option string := Some "obfuscator not initialized".

(** ** The state *)

Inductive job := JReconnect (id : string) | JBridge (bridgeID bridgeAddr : string).

Record client := mkClient {
  pool : world; runtime : params; transports : list string; multi : MultiRouter.world; knobs : Shape.ShapeKnobs; jobs : list job
}.

Definition with_pool (c : client) (w : world) : client := mkClient w (runtime c) (transports c) (multi c) (knobs c) (jobs c).
Definition with_multi (c : client) (m : MultiRouter.world) : client := mkClient (pool c) (runtime c) (transports c) m (knobs c) (jobs c).
Definition with_knobs (c : client) (k : Shape.ShapeKnobs) : client := mkClient (pool c) (runtime c) (transports c) (multi c) k (jobs c).
Definition spawn (j : list job) (c : client) : client := mkClient (pool c) (runtime c) (transports c) (multi c) (knobs c) (jobs c ++ j).
Definition with_global_sni (c : client) (s : string) : client :=
  mkClient (pool c) (mkParams (serverAddress (runtime c)) s (p_TransportConfig (runtime c)) (tlsFragSize (runtime c)))
    (transports c) (multi c) (knobs c) (jobs c).

Definition on_entry (id : string) (f : TransportEntry -> TransportEntry) (c : client) : client := with_pool c (update id f (pool c)).
Definition on_mgr (m : option nat) (f : Manager -> Manager) (c : client) : client :=
  match m with Some i => with_pool c (with_mgrs (pool c) (alter f i (mgrs (pool c)))) | None => c end.

(** ** Bodies and replies *)

Record body := mkBody {
  decoded : bool; b_enabled : bool; b_transport : string; b_port : string; b_rate : Z; b_sni : string; b_size : Z; b_profile : string
}.

Inductive reply := HTTPError (code : Z) | Okay | NewID (id : string) | Count (n : nat) | Text (s : string) | Knobs (k : Shape.ShapeKnobs).

(** ** Fields of an entry *)

Definition set_enabled (b : bool) (e : TransportEntry) : TransportEntry :=
  mkEntry (ID e) (e_Transport e) (Server e) (Status e) b (Obfuscated e) (Mux e) (e_RateLimitKB e) (SNI e) (BytesUp e) (BytesDown e)
    (ConnectedAt e) (Error e) (e_ForceObfuscation e) (BehavioralProfile e) (NoSNI e) (mgr e) (cancel e) (restarting e).
Definition set_state (s : connStatus) (e : TransportEntry) : TransportEntry :=
  mkEntry (ID e) (e_Transport e) (Server e) s (e_Enabled e) (Obfuscated e) (Mux e) (e_RateLimitKB e) (SNI e) (BytesUp e) (BytesDown e)
    (ConnectedAt e) (Error e) (e_ForceObfuscation e) (BehavioralProfile e) (NoSNI e) (mgr e) (cancel e) (restarting e).
Definition set_obfuscation (o f : bool) (e : TransportEntry) : TransportEntry :=
  mkEntry (ID e) (e_Transport e) (Server e) (Status e) (e_Enabled e) o (Mux e) (e_RateLimitKB e) (SNI e) (BytesUp e) (BytesDown e)
    (ConnectedAt e) (Error e) f (BehavioralProfile e) (NoSNI e) (mgr e) (cancel e) (restarting e).
Definition set_transport (t : string) (e : TransportEntry) : TransportEntry :=
  mkEntry (ID e) t (Server e) (Status e) (e_Enabled e) (Obfuscated e) (Mux e) (e_RateLimitKB e) (SNI e) (BytesUp e) (BytesDown e)
    (ConnectedAt e) (Error e) (e_ForceObfuscation e) (BehavioralProfile e) (NoSNI e) (mgr e) (cancel e) (restarting e).
Definition set_server (s : string) (e : TransportEntry) : TransportEntry :=
  mkEntry (ID e) (e_Transport e) s (Status e) (e_Enabled e) (Obfuscated e) (Mux e) (e_RateLimitKB e) (SNI e) (BytesUp e) (BytesDown e)
    (ConnectedAt e) (Error e) (e_ForceObfuscation e) (BehavioralProfile e) (NoSNI e) (mgr e) (cancel e) (restarting e).
Definition set_rate (kb : Z) (e : TransportEntry) : TransportEntry :=
  mkEntry (ID e) (e_Transport e) (Server e) (Status e) (e_Enabled e) (Obfuscated e) (Mux e) kb (SNI e) (BytesUp e) (BytesDown e)
    (ConnectedAt e) (Error e) (e_ForceObfuscation e) (BehavioralProfile e) (NoSNI e) (mgr e) (cancel e) (restarting e).
Definition set_sni (s : string) (no : bool) (e : TransportEntry) : TransportEntry :=
  mkEntry (ID e) (e_Transport e) (Server e) (Status e) (e_Enabled e) (Obfuscated e) (Mux e) (e_RateLimitKB e) s (BytesUp e) (BytesDown e)
    (ConnectedAt e) (Error e) (e_ForceObfuscation e) (BehavioralProfile e) no (mgr e) (cancel e) (restarting e).
Definition set_mux (b : bool) (e : TransportEntry) : TransportEntry :=
  mkEntry (ID e) (e_Transport e) (Server e) (Status e) (e_Enabled e) (Obfuscated e) b (e_RateLimitKB e) (SNI e) (BytesUp e) (BytesDown e)
    (ConnectedAt e) (Error e) (e_ForceObfuscation e) (BehavioralProfile e) (NoSNI e) (mgr e) (cancel e) (restarting e).
Definition set_profile (p : string) (e : TransportEntry) : TransportEntry :=
  mkEntry (ID e) (e_Transport e) (Server e) (Status e) (e_Enabled e) (Obfuscated e) (Mux e) (e_RateLimitKB e) (SNI e) (BytesUp e) (BytesDown e)
    (ConnectedAt e) (Error e) (e_ForceObfuscation e) p (NoSNI e) (mgr e) (cancel e) (restarting e).
Definition set_bytes (up down : Z) (e : TransportEntry) : TransportEntry :=
  mkEntry (ID e) (e_Transport e) (Server e) (Status e) (e_Enabled e) (Obfuscated e) (Mux e) (e_RateLimitKB e) (SNI e) up down
    (ConnectedAt e) (Error e) (e_ForceObfuscation e) (BehavioralProfile e) (NoSNI e) (mgr e) (cancel e) (restarting e).

(** ** The actions on an entry *)

Definition cancel_entry (e : TransportEntry) (c : client) : client := with_pool c (cancel_ctx (cancel e) (pool c)).

Definition handleConnClose (e : TransportEntry) (c : client) : client * reply :=
  (cancel_entry e (on_entry (ID e) (fun e => set_state Disconnected_ (set_enabled false e)) c), Okay).

Definition handleConnToggle (b : body) (e : TransportEntry) (c : client) : client * reply :=
  if negb (decoded b) then (c, HTTPError 400)
  else
    let c := on_entry (ID e) (set_enabled (b_enabled b)) c in
    if negb (b_enabled b) && bool_decide (is_Some (cancel e)) then (on_entry (ID e) (set_state Disconnected_) (cancel_entry e c), Okay)
    else (c, Okay).

Definition handleConnObfuscation (b : body) (e : TransportEntry) (c : client) : client * reply :=
  if negb (decoded b) then (c, HTTPError 400)
  else (on_mgr (mgr e) (SetForceObfuscation (b_enabled b)) (on_entry (ID e) (set_obfuscation (b_enabled b) (b_enabled b)) c), Okay).

(** Change the entry and start its reconnection. *)
Definition reconnect_with (id : string) (f : TransportEntry -> TransportEntry) (c : client) : client * reply :=
  (spawn [JReconnect id] (on_entry id (fun e => set_state Connecting_ (f e)) c), Okay).

Definition handleConnTransport (b : body) (e : TransportEntry) (c : client) : client * reply :=
  if bool_decide (b_transport b = "") then (c, Okay) else reconnect_with (ID e) (set_transport (b_transport b)) c.

(** The server's address with another port. *)
Definition with_port (server port : string) : string :=
  let l := bytes_of_string server in
  let i := last_index_byte 58 l in
  string_of_bytes (if 0 <? i then ztake i l else l) +:+ ":" +:+ port.

Definition handleConnPort (b : body) (e : TransportEntry) (c : client) : client * reply :=
  if bool_decide (b_port b = "") then (c, Okay)
  else reconnect_with (ID e) (fun e => set_server (with_port (Server e) (b_port b)) e) c.

Definition handleConnSpeed (b : body) (e : TransportEntry) (c : client) : client * reply :=
  (on_mgr (mgr e) (SetRateLimit (b_rate b)) (on_entry (ID e) (set_rate (b_rate b)) c), Okay).

Definition handleConnSNI (b : body) (e : TransportEntry) (c : client) : client * reply :=
  reconnect_with (ID e) (set_sni (b_sni b) false) c.

Definition handleConnNoSNI (b : body) (e : TransportEntry) (c : client) : client * reply :=
  reconnect_with (ID e) (fun e => set_sni (if b_enabled b then "" else SNI e) (b_enabled b) e) c.

Definition handleConnDuplicate (e : TransportEntry) (c : client) : client * reply :=
  let '(w, id) := NextID (pool c) in
  let n := mkEntry id (e_Transport e) (Server e) Connecting_ true (Obfuscated e) (Mux e) (e_RateLimitKB e) (SNI e) 0 0 0 ""
             (e_ForceObfuscation e) "" false None None false in
  (spawn [JReconnect id] (with_pool c (Add n w)), NewID id).

Definition handleConnMux (b : body) (e : TransportEntry) (c : client) : client * reply :=
  reconnect_with (ID e) (set_mux (b_enabled b)) c.

Definition handleConnTLSFragment (b : body) (e : TransportEntry) (c : client) : client * reply :=
  (on_mgr (mgr e) (SetTLSFragmentSize (b_size b)) c, Okay).

Definition handleConnTransportSecure (b : body) (e : TransportEntry) (c : client) : client * reply :=
  (on_mgr (mgr e) (SetForceObfuscation (negb (b_enabled b)))
     (on_entry (ID e) (fun e => set_obfuscation (Obfuscated e) (negb (b_enabled b)) e) c), Okay).

Definition handleConnProfile (b : body) (e : TransportEntry) (c : client) : client * reply :=
  let c := on_entry (ID e) (set_profile (b_profile b)) c in
  match mgr e ≫= (fun i => mgrs (pool c) !! i) with
  | Some m => match SetBehavioralProfile (b_profile b) m with Some _ => (c, HTTPError 500) | None => (c, Okay) end
  | None => (c, Okay)
  end.

Definition dispatch (action : string) (b : body) (e : TransportEntry) (c : client) : client * reply :=
  if bool_decide (action = "close") then handleConnClose e c
  else if bool_decide (action = "toggle") then handleConnToggle b e c
  else if bool_decide (action = "obfuscation") then handleConnObfuscation b e c
  else if bool_decide (action = "transport") then handleConnTransport b e c
  else if bool_decide (action = "port") then handleConnPort b e c
  else if bool_decide (action = "speed") then handleConnSpeed b e c
  else if bool_decide (action = "sni") then handleConnSNI b e c
  else if bool_decide (action = "no_sni") then handleConnNoSNI b e c
  else if bool_decide (action = "duplicate") then handleConnDuplicate e c
  else if bool_decide (action = "mux") then handleConnMux b e c
  else if bool_decide (action = "tls_fragment") then handleConnTLSFragment b e c
  else if bool_decide (action = "transport_secure") then handleConnTransportSecure b e c
  else if bool_decide (action = "profile") then handleConnProfile b e c
  else (c, HTTPError 400).

Definition handleConnectionAction (path : string) (b : body) (c : client) : client * reply :=
  match map string_of_bytes (split_all 47 (bytes_of_string (TrimPrefix path "/connections/"))) with
  | id :: action :: _ =>
      match Get id (pool c) with
      | None => (c, HTTPError 404)
      | Some e => dispatch action b e c
      end
  | _ => (c, HTTPError 400)
  end.

(** ** The lists *)

Record entryView := mkView {
  v_ID : string; v_Transport : string; v_Server : string; v_Status : connStatus; v_Enabled : bool; v_Obfuscated : bool; v_Mux : bool;
  v_RateLimitKB : Z; v_SNI : string; v_BytesUp : Z; v_BytesDown : Z; v_ConnectedAt : Z; v_Error : string; v_ForceObfuscation : bool;
  v_BehavioralProfile : string; v_NoSNI : bool; v_RTT : Z; v_MissedKAs : Z
}.

(** What the tunnels count, which is the environment's. *)
Record metrics := mkMetrics { bytes : nat -> Z * Z; quality : nat -> Z * Z }.

(** [toView] also refreshes the entry from its tunnel. *)
Definition refreshed (ms : metrics) (w : world) (e : TransportEntry) : TransportEntry :=
  match mgr e with
  | Some i => match mgrs w !! i with
              | Some m => set_obfuscation (Obfuscated e) (IsForceObfuscation m) (set_bytes (bytes ms i).1 (bytes ms i).2 e)
              | None => e
              end
  | None => e
  end.

Definition toView (ms : metrics) (w : world) (e : TransportEntry) : entryView :=
  let e := refreshed ms w e in
  let st := match Status e, mgr e with
            | Connected_, Some _ => if connected w (mgr e) then Connected_ else Disconnected_
            | s, _ => s
            end in
  let q := match mgr e with Some i => quality ms i | None => (0, 0) end in
  mkView (ID e) (e_Transport e) (Server e) st (e_Enabled e) (Obfuscated e) (Mux e) (e_RateLimitKB e) (SNI e) (BytesUp e) (BytesDown e)
    (ConnectedAt e) (Error e) (e_ForceObfuscation e) (BehavioralProfile e) (NoSNI e) (q.1 / 1000000) q.2.

Fixpoint handleConnections (ms : metrics) (visit : list string) (c : client) : client * list entryView :=
  match visit with
  | [] => (c, [])
  | id :: visit =>
      match entries (pool c) !! id with
      | Some e =>
          let '(c', vs) := handleConnections ms visit (on_entry id (refreshed ms (pool c)) c) in
          (c', toView ms (pool c) e :: vs)
      | None => handleConnections ms visit c
      end
  end.

Definition handleConnectionsSplit (visit : list string) (c : client) : list string :=
  omap (fun e => match Status e with
                 | Connected_ => if e_Enabled e && bool_decide (is_Some (mgr e)) then Some (Server e) else None
                 | _ => None
                 end) (List_ visit (pool c)).

Definition wake (w : world) (e : TransportEntry) : bool := e_Enabled e && negb (connected w (mgr e)).

Definition handleWake (visit : list string) (c : client) : client * reply :=
  let js := map (fun e => JReconnect (ID e)) (List.filter (wake (pool c)) (List_ visit (pool c))) in
  (spawn js c, Count (length js)).

(** ** The global SNI, bridges and shape *)

Definition handleGlobalSNI (method sni : string) (visit : list string) (c : client) : client * reply :=
  if bool_decide (method = "GET") then (c, Text (globalSNI (runtime c)))
  else if negb (bool_decide (method = "POST")) then (c, HTTPError 405)
  else
    let c := with_global_sni c sni in
    (spawn (map (fun e => JReconnect (ID e)) (List.filter (fun e => bool_decide (SNI e = "")) (List_ visit (pool c)))) c, Text sni).

(** A GET lists the bridges, see [MultiRouter.handleListBridges]. *)
Definition handleMultiBridges (method : string) (spare : nat) (b : option (string * string * list string)) (c : client) : client * reply :=
  if bool_decide (method = "GET") then (c, Okay)
  else if negb (bool_decide (method = "POST")) then (c, HTTPError 405)
  else
  match b with
  | None => (c, HTTPError 400)
  | Some (id, address, rules) =>
      if bool_decide (id = "") || bool_decide (address = "") then (c, HTTPError 400)
      else (spawn [JBridge id address] (with_multi c (MultiRouter.AddBridge spare id address rules None (multi c))), Okay)
  end.

Definition handleMultiBridgeByID (is_delete : bool) (path : string) (c : client) : client * reply :=
  if negb is_delete then (c, HTTPError 405)
  else
    let id := TrimPrefix path "/multi-bridges/" in
    if bool_decide (id = "") then (c, HTTPError 400) else (with_multi c (MultiRouter.RemoveBridge id (multi c)), Okay).

Record camo := mkCamo {
  PadRecords : option Z; PadMin : option Z; PadMax : option Z; FillerIdleMs : option Z; FillerIntervalMs : option Z;
  FillerMin : option Z; FillerMax : option Z; ChunkMin : option Z; ChunkMax : option Z
}.

(** The reply is the state of the knobs; a POST makes three settings, one after the
    other. *)
Definition handleCamo (method : string) (b : option camo) (c : client) : client * reply :=
  if bool_decide (method = "GET") then (c, Knobs (knobs c))
  else if negb (bool_decide (method = "POST")) then (c, HTTPError 405)
  else
  match b with
  | None => (c, HTTPError 400)
  | Some b =>
      let k := knobs c in
      match Shape.Set_ k (default (Shape.records k) (PadRecords b)) (default (Shape.kmin k) (PadMin b)) (default (Shape.kmax k) (PadMax b)) with
      | (k1, Some _) => (with_knobs c k1, HTTPError 400)
      | (k1, None) =>
          match Shape.SetFiller k1 (default (Shape.fillIdle k) (FillerIdleMs b)) (default (Shape.fillInterval k) (FillerIntervalMs b))
                  (default (Shape.fillMin k) (FillerMin b)) (default (Shape.fillMax k) (FillerMax b)) with
          | (k2, Some _) => (with_knobs c k2, HTTPError 400)
          | (k2, None) =>
              match Shape.SetChunk k2 (default (Shape.chunkMin k) (ChunkMin b)) (default (Shape.chunkMax k) (ChunkMax b)) with
              | (k3, Some _) => (with_knobs c k3, HTTPError 400)
              | (k3, None) => (with_knobs c k3, Knobs k3)
              end
          end
      end
  end.

(** ** Starting *)

Definition newTunnel (p : params) (transport : string) : Manager :=
  New (Some (tunnelCfg p transport (serverAddress p) (p_TransportConfig p))) None.

Definition add_transport (p : params) (st : connStatus) (w : world) (transport : string) : world :=
  let w := with_mgrs w (mgrs w ++ [newTunnel p transport]) in
  let '(w, id) := NextID w in
  Add (newPoolEntry id transport (serverAddress p) st (Some (pred (length (mgrs w))))) w.

Definition addStandbyTransports (p : params) (ts : list string) (w : world) : world := fold_left (add_transport p Standby_) ts w.

(** The pool as [RunMain] fills it; the transports are not empty. *)
Definition start (p : params) (ts : list string) (k : Shape.ShapeKnobs) : client :=
  mkClient (addStandbyTransports p (tl ts) (add_transport p Connecting_ newPool (hd "" ts))) p ts (MultiRouter.NewMultiRouter (Some 0%nat)) k [].

(** [connectPrimary] on the entry: the first tunnel has no context of its own. *)
Definition connectPrimary (env : attempt_env) (now : Z) (id : string) (c : client) : client * bool :=
  match (e ← entries (pool c) !! id; i ← mgr e; m ← mgrs (pool c) !! i; Some (i, m)) with
  | Some (i, m) =>
      let '(m, err) := Connect env now m in
      let c := with_pool c (with_mgrs (pool c) (<[i := m]> (mgrs (pool c)))) in
      match err with
      | Some er => (on_entry id (set_status Failed_ er) c, false)
      | None => (on_entry id (set_up now) c, true)
      end
  | None => (c, false)
  end.

(** [armKillSwitch]: the kill switch is armed for a server given by its address. *)
Definition armKillSwitch `{KillSwitch.Platform} (ks : option KillSwitch.KillSwitch) (serverAddress : string) : option KillSwitch.KillSwitch :=
  match SplitHostPort serverAddress with
  | None => ks
  | Some (host, portStr) =>
      match ks, ParseIP host with
      | Some k, Some ip =>
          match Atoi portStr with
          | None => ks
          | Some port => Some (KillSwitch.Enable (KillSwitch.SetVPNServer ip port k)).1
          end
      | _, _ => ks
      end
  end.

(** "min-max", "n" or "0" milliseconds; the flag says whether there is a value. *)
Definition parseFragmentDelay (spec : string) : Z * Z * bool :=
  let l := bytes_of_string (TrimSpace spec) in
  if bool_decide (l = []) then (0, 0, false)
  else
    let i := index_byte 45 l in
    let '(lo, hi, ranged) := if 0 <=? i then (ztake i l, zdrop (i + 1) l, true) else (l, [], false) in
    match atoi (trim_space lo) with
    | None => (0, 0, false)
    | Some minMs =>
        if minMs <? 0 then (0, 0, false)
        else if negb ranged then (minMs, minMs, true)
        else match atoi (trim_space hi) with
             | None => (minMs, minMs, true)
             | Some maxMs => if maxMs <? minMs then (minMs, minMs, true) else (minMs, maxMs, true)
             end
    end.

(** [stopPool]. *)
Definition stopPool (visit : list string) (c : client) : client :=
  fold_left (fun c e => with_pool c (stop_mgr (mgr e) (pool c))) (List_ visit (pool c)) c.

(** ** The jobs *)

(** [reconnectEntry]: the settings are read when the job runs. *)
Definition reconnectEntry (env : attempt_env) (now : Z) (id : string) (c : client) : client :=
  match entries (pool c) !! id with
  | Some e => with_pool c (restartTransportEntry env now (entryCfg (runtime c) e) id (pool c)).1
  | None => c
  end.

(** [connectBridge]: the tunnel is attached to its bridge when it connected.  For
    the router the pool is tunnel 0 and the [i]-th manager tunnel [S i]. *)
Definition connectBridge (env : attempt_env) (now : Z) (bridgeID bridgeAddr : string) (c : client) : client :=
  let '(w, id) := NextID (pool c) in
  let m := length (mgrs w) in
  let c := with_pool c (connectBridge_entry (runtime c) env now id (hd "" (transports c)) bridgeAddr w) in
  match entries (pool c) !! id with
  | Some e => match Status e with
              | Connected_ => with_multi c (MultiRouter.AttachBridgeTunnel bridgeID (Some (S m)) (multi c)).1
              | _ => c
              end
  | None => c
  end.

Definition run_job (env : attempt_env) (now : Z) (i : nat) (c : client) : client :=
  let rest := mkClient (pool c) (runtime c) (transports c) (multi c) (knobs c) (delete i (jobs c)) in
  match jobs c !! i with
  | Some (JReconnect id) => reconnectEntry env now id rest
  | Some (JBridge id addr) => connectBridge env now id addr rest
  | None => c
  end.

(** ** What the client goes through *)

Inductive event :=
| EAction (path : string) (b : body)
| EList (ms : metrics) (visit : list string)
| EWake (visit : list string)
| EGlobalSNI (method sni : string) (visit : list string)
| EBridge (method : string) (spare : nat) (b : option (string * string * list string))
| EUnbridge (is_delete : bool) (path : string)
| ECamo (method : string) (b : option camo)
| EPrimary (env : attempt_env) (now : Z) (id : string)
| EJob (env : attempt_env) (now : Z) (i : nat)
| ERevive (envs : string -> attempt_env) (now : Z) (visit : list string) (d : nat).

Definition exec (c : client) (ev : event) : client :=
  match ev with
  | EAction path b => (handleConnectionAction path b c).1
  | EList ms visit => (handleConnections ms visit c).1
  | EWake visit => (handleWake visit c).1
  | EGlobalSNI m sni visit => (handleGlobalSNI m sni visit c).1
  | EBridge m spare b => (handleMultiBridges m spare b c).1
  | EUnbridge d path => (handleMultiBridgeByID d path c).1
  | ECamo m b => (handleCamo m b c).1
  | EPrimary env now id => (connectPrimary env now id c).1
  | EJob env now i => run_job env now i c
  | ERevive envs now visit d => with_pool c (revive_owner (runtime c) envs now visit d (pool c)).1
  end.

End ControlAPI.
