(* ===== verification/ControlAPIFacts.v ===== *)
(** What the control server of [ControlAPI] keeps true of the pool, and where what it
    shows or accepts is not what the tunnels do. *)

From S2P Require Import Prelude GoStr NetIP Framed TunnelManager TunnelManagerFacts ClientPool ClientPoolFacts MultiRouter KillSwitch ControlAPI.
Import TunnelManager ClientPool ControlAPI.

Implicit Types (w : world) (c : client) (e : TransportEntry).

(** ** Names of entries *)

Definition conn_id (k : Z) : string := "conn-" +:+ Itoa k.

Lemma conn_id_inj a b : 0 <= a < 2 ^ 64 -> 0 <= b < 2 ^ 64 -> conn_id a = conn_id b -> a = b.
Proof. intros Ha Hb H. apply (inj (String.append "conn-")) in H. by apply Itoa_inj. Qed.

(** ** The invariant of the pool *)

(** Entries are kept under their own names, which were handed out by [NextID]; they
    refer to tunnels and contexts that exist, and no two share a tunnel. *)
Record pool_ok w : Prop := {
  ok_key : forall id e, entries w !! id = Some e -> ID e = id;
  ok_id : forall id e, entries w !! id = Some e -> exists k, 1 <= k <= counter w /\ id = conn_id k;
  ok_mgr : forall id e i, entries w !! id = Some e -> mgr e = Some i -> (i < length (mgrs w))%nat;
  ok_ctx : forall id e i, entries w !! id = Some e -> cancel e = Some i -> (i < length (ctxs w))%nat;
  ok_own : forall id id' e e' i, entries w !! id = Some e -> entries w !! id' = Some e' -> mgr e = Some i -> mgr e' = Some i -> id = id'
}.

(** A change of an entry that leaves its name, tunnel and context alone. *)
Definition same_refs (f : TransportEntry -> TransportEntry) : Prop :=
  forall e, ID (f e) = ID e /\ mgr (f e) = mgr e /\ cancel (f e) = cancel e.

Lemma update_lookup id f w id' e' : entries (update id f w) !! id' = Some e' ->
  exists e, entries w !! id' = Some e /\ e' = if bool_decide (id' = id) then f e else e.
Proof.
  unfold update. cbn. rewrite lookup_alter. case_decide as E; [subst|].
  - intros (e & He & ->)%fmap_Some. exists e. by rewrite bool_decide_eq_true_2.
  - intros H. exists e'. by rewrite bool_decide_eq_false_2 by congruence.
Qed.

Lemma update_ok id f w : same_refs f -> pool_ok w -> pool_ok (update id f w).
Proof.
  intros Hf [K I M C O]. assert (H : forall id' e', entries (update id f w) !! id' = Some e' ->
    exists e, entries w !! id' = Some e /\ ID e' = ID e /\ mgr e' = mgr e /\ cancel e' = cancel e).
  { intros id' e' (e & He & ->)%update_lookup. exists e. split; [done|]. case_bool_decide; [apply Hf|done]. }
  split.
  - intros id' e' (e & He & -> & _)%H. by apply K.
  - intros id' e' (e & He & _)%H. by eapply I.
  - intros id' e' i (e & He & _ & Em & _)%H. rewrite Em. by eapply M.
  - intros id' e' i (e & He & _ & _ & Ec)%H. rewrite Ec. by eapply C.
  - intros i1 i2 e1 e2 i (e & He & _ & Em & _)%H (e' & He' & _ & Em' & _)%H. rewrite Em, Em'. by eapply O.
Qed.

(** Only the lengths of the tables matter. *)
Lemma tables_ok w w' : entries w' = entries w -> counter w' = counter w -> (length (mgrs w) <= length (mgrs w'))%nat ->
  (length (ctxs w) <= length (ctxs w'))%nat -> pool_ok w -> pool_ok w'.
Proof.
  intros Ee Ec Hm Hc [K I M C O]. split; rewrite ?Ee, ?Ec; [done|done| | |done].
  - intros id e i H1 H2. specialize (M _ _ _ H1 H2). lia.
  - intros id e i H1 H2. specialize (C _ _ _ H1 H2). lia.
Qed.

Lemma cancel_ctx_ok o w : pool_ok w -> pool_ok (cancel_ctx o w).
Proof. destruct o; [|done]. apply tables_ok; cbn; rewrite ?length_insert; done. Qed.
Lemma stop_mgr_ok o w : pool_ok w -> pool_ok (stop_mgr o w).
Proof. destruct o; [|done]. apply tables_ok; cbn; rewrite ?length_alter; done. Qed.
Lemma insert_mgr_ok i m w : pool_ok w -> pool_ok (with_mgrs w (<[i := m]> (mgrs w))).
Proof. apply tables_ok; cbn; rewrite ?length_insert; done. Qed.
Lemma alter_mgr_ok i f w : pool_ok w -> pool_ok (with_mgrs w (alter f i (mgrs w))).
Proof. apply tables_ok; cbn; rewrite ?length_alter; done. Qed.

(** An entry that takes a tunnel and a context of its own. *)
Lemma set_mgr_ok id i j w : pool_ok w -> (i < length (mgrs w))%nat -> (j < length (ctxs w))%nat ->
  (forall id' e, entries w !! id' = Some e -> id' <> id -> mgr e <> Some i) ->
  pool_ok (update id (set_mgr (Some i) (Some j)) w).
Proof.
  intros [K I M C O] Hi Hj Hown. split.
  - intros id' e' (e & He & ->)%update_lookup. case_bool_decide; cbn; by apply K.
  - intros id' e' (e & He & ->)%update_lookup. by eapply I.
  - intros id' e' k (e & He & ->)%update_lookup. case_bool_decide; [intros [= <-]; done|by eapply M].
  - intros id' e' k (e & He & ->)%update_lookup. case_bool_decide; [intros [= <-]; done|by eapply C].
  - intros i1 i2 e1 e2 k (e & He & ->)%update_lookup (e' & He' & ->)%update_lookup. repeat case_bool_decide; subst; [done| | |by eapply O].
    + intros [= <-] Hm. by destruct (Hown i2 e').
    + intros Hm [= <-]. by destruct (Hown i1 e).
Qed.

Lemma same_refs_id f g : same_refs f -> same_refs g -> same_refs (fun e => f (g e)).
Proof. intros Hf Hg e. destruct (Hf (g e)) as (-> & -> & ->). apply Hg. Qed.

(** ** Steps of the pool *)

(** The pool stays in order, [n] names are handed out, and entries neither vanish nor
    become enabled. *)
Definition stays_off w w' : Prop := forall id e, entries w !! id = Some e ->
  exists e', entries w' !! id = Some e' /\ (e_Enabled e = false -> e_Enabled e' = false).

#[export] Instance stays_off_preorder : PreOrder stays_off.
Proof.
  split; [intros w id e; eauto|]. intros a b d H1 H2 id e He. destruct (H1 _ _ He) as (e1 & He1 & O1).
  destruct (H2 _ _ He1) as (e2 & He2 & O2). eauto.
Qed.

Record moved (n : Z) w w' : Prop := { mv_ok : pool_ok w'; mv_ctr : counter w' = counter w + n; mv_off : stays_off w w' }.

Lemma moved_refl w : pool_ok w -> moved 0 w w.
Proof. intros H. split; [done|lia|done]. Qed.
Lemma moved_trans n m a b d : moved n a b -> moved m b d -> moved (n + m) a d.
Proof. intros [H1 H2 H3] [H4 H5 H6]. split; [done|lia|by etrans]. Qed.
Lemma moved_trans0 n a b d : moved n a b -> (pool_ok b -> moved 0 b d) -> moved n a d.
Proof. intros H1 H2. rewrite <- (Z.add_0_r n). eapply moved_trans; [done|]. apply H2, H1. Qed.

Definition keeps_off (f : TransportEntry -> TransportEntry) : Prop := forall e, e_Enabled e = false -> e_Enabled (f e) = false.

Lemma update_off id f w : keeps_off f -> stays_off w (update id f w).
Proof.
  intros Hf id' e He. destruct (decide (id' = id)) as [->|Hne].
  - exists (f e). split; [by apply update_eq|apply Hf].
  - exists e. split; [by rewrite update_ne|done].
Qed.

Lemma update_moved id f w : same_refs f -> keeps_off f -> pool_ok w -> moved 0 w (update id f w).
Proof. intros H1 H2 H. split; [by apply update_ok|cbn; lia|by apply update_off]. Qed.

Lemma same_entries_off w w' : entries w' = entries w -> stays_off w w'.
Proof. intros E id e He. rewrite E. eauto. Qed.

Lemma cancel_moved o w : pool_ok w -> moved 0 w (cancel_ctx o w).
Proof. intros H. split; [by apply cancel_ctx_ok|destruct o; cbn; lia|apply same_entries_off; by destruct o]. Qed.
Lemma stop_moved o w : pool_ok w -> moved 0 w (stop_mgr o w).
Proof. intros H. split; [by apply stop_mgr_ok|destruct o; cbn; lia|apply same_entries_off; by destruct o]. Qed.
Lemma insert_moved i m w : pool_ok w -> moved 0 w (with_mgrs w (<[i := m]> (mgrs w))).
Proof. intros H. split; [by apply insert_mgr_ok|cbn; lia|by apply same_entries_off]. Qed.
Lemma alter_moved i f w : pool_ok w -> moved 0 w (with_mgrs w (alter f i (mgrs w))).
Proof. intros H. split; [by apply alter_mgr_ok|cbn; lia|by apply same_entries_off]. Qed.
Lemma new_tables_moved m b w : pool_ok w -> moved 0 w (with_ctxs (with_mgrs w (mgrs w ++ [m])) (ctxs w ++ [b])).
Proof. intros H. split; [|cbn; lia|by apply same_entries_off]. revert H. apply tables_ok; cbn; rewrite ?length_app; cbn; lia || done. Qed.

Create HintDb pool discriminated.
#[export] Hint Resolve cancel_moved stop_moved insert_moved alter_moved new_tables_moved : pool.
#[export] Hint Extern 1 (same_refs _) => (intros ?; done) : pool.
#[export] Hint Extern 1 (keeps_off _) => (intros ?; done) : pool.
#[export] Hint Resolve update_moved : pool.

(** One step after another, each on a pool in order. *)
Ltac pool_then := eapply moved_trans0; [|intros ?].

Lemma restart_begin_moved cfg id w : pool_ok w -> moved 0 w (restart_begin cfg id w).1.
Proof.
  intros Hw. unfold restart_begin. destruct (entries w !! id) as [e|] eqn:He; [|by apply moved_refl].
  destruct (restarting e); [by apply moved_refl|]. cbn zeta. cbn [fst].
  set (wb := stop_mgr (mgr e) _). assert (Hb : moved 0 w wb).
  { unfold wb. repeat (pool_then; [|by eauto with pool]). by apply moved_refl. }
  pool_then; [pool_then; [exact Hb|apply (new_tables_moved (New (Some cfg) None) false); apply Hb]|].
  split; [|cbn; lia|apply update_off; by intros ?].
  apply set_mgr_ok; [done|cbn; rewrite length_app; cbn; lia..|].
  intros id' e' He' Hne Hm. pose proof (ok_mgr _ (mv_ok _ _ _ Hb) id' e' _ He' Hm) as Hlt.
  cbn in Hlt. rewrite length_app in Hlt. cbn in Hlt. lia.
Qed.

Lemma restart_end_moved env now id w : pool_ok w -> moved 0 w (restart_end env now id w).
Proof.
  intros Hw. unfold restart_end. destruct (entries w !! id) as [e|]; [|by apply moved_refl].
  destruct (mgr e) as [i|]; [|by apply moved_refl]. destruct (mgrs w !! i) as [m|]; [|by apply moved_refl].
  destruct (Connect env now m) as [m' [er|]]; cbn zeta.
  - pool_then; [|by eauto with pool]. pool_then; [|by eauto with pool]. pool_then; [|by eauto with pool]. pool_then; [|by eauto with pool].
    by eauto with pool.
  - pool_then; [|by eauto with pool]. pool_then; [|by eauto with pool]. by eauto with pool.
Qed.

Lemma restart_moved env now cfg id w : pool_ok w -> moved 0 w (restartTransportEntry env now cfg id w).1.
Proof.
  intros Hw. unfold restartTransportEntry. pose proof (restart_begin_moved cfg id w Hw) as Hb.
  destruct (restart_begin cfg id w) as [w1 [|]]; [|done]. cbn in *. pool_then; [exact Hb|by apply restart_end_moved].
Qed.

Lemma revive_loop_moved p envs now visit att w : pool_ok w -> moved 0 w (revive_loop p envs now visit att w).1.1.
Proof.
  revert att w. induction visit as [|id visit IH]; intros att w Hw; cbn [revive_loop]; [by apply moved_refl|].
  destruct (entries w !! id) as [e|]; [|by apply IH]. destruct (negb (e_Enabled e)); [by apply IH|].
  destruct (connected w (mgr e)); [by apply moved_refl|].
  pose proof (restart_moved (envs id) now (entryCfg p e) id w Hw) as Hr.
  destruct (restartTransportEntry (envs id) now (entryCfg p e) id w) as [w1 [|]]; cbn in Hr.
  - destruct (connected w1 _); [done|]. pool_then; [exact Hr|by apply IH].
  - pool_then; [exact Hr|by apply IH].
Qed.

Lemma revive_moved p envs now visit d w : pool_ok w -> moved 0 w (revive_owner p envs now visit d w).1.
Proof.
  intros Hw. unfold revive_owner. pose proof (revive_loop_moved p envs now visit false w Hw) as H.
  destruct (revive_loop p envs now visit false w) as [[w1 att] r]. cbn in *. pool_then; [exact H|].
  split; [by apply (tables_ok w1)|cbn; lia|by apply same_entries_off].
Qed.

(** ** New entries *)

Lemma counter_nonneg_fresh w : pool_ok w -> 0 <= counter w < 2 ^ 64 - 1 -> u64 (counter w + 1) = counter w + 1 /\ entries w !! conn_id (counter w + 1) = None.
Proof.
  intros Hw Hc. split; [apply Z.mod_small; lia|]. destruct (entries w !! conn_id (counter w + 1)) as [e|] eqn:He; [|done].
  destruct (ok_id _ Hw _ _ He) as (k & Hk & Ek). apply conn_id_inj in Ek; lia.
Qed.

(** Adding an entry under a new name, with a tunnel that is nobody else's. *)
Lemma add_moved e w : pool_ok w -> 0 <= counter w < 2 ^ 64 - 1 -> ID e = (NextID w).2 -> cancel e = None ->
  (forall i, mgr e = Some i -> (i < length (mgrs w))%nat /\ forall id' e', entries w !! id' = Some e' -> mgr e' <> Some i) ->
  moved 1 w (Add e (NextID w).1).
Proof.
  intros Hw Hc Hid Hcan Hm. destruct (counter_nonneg_fresh w Hw Hc) as [Eu Hf]. 
  unfold NextID in Hid. cbn [snd] in Hid. rewrite Eu in Hid. change (ID e = conn_id (counter w + 1)) in Hid.
  assert (Hl : forall id' e', entries (Add e (NextID w).1) !! id' = Some e' -> id' = conn_id (counter w + 1) /\ e' = e \/ entries w !! id' = Some e').
  { intros id' e'. cbn. rewrite lookup_insert_Some, Hid. intros [[<- <-]|[_ H]]; [by left|by right]. }
  assert (Ec : counter (Add e (NextID w).1) = counter w + 1) by exact Eu.
  destruct Hw as [K I M C O]. split; [split|done|].
  - intros id' e' [[-> ->]|H]%Hl; [done|by apply K].
  - intros id' e' [[-> ->]|H]%Hl; rewrite Ec; [exists (counter w + 1); split; [lia|done]|].
    destruct (I _ _ H) as (k & Hk & ->). exists k. split; [lia|done].
  - intros id' e' i [[-> ->]|H]%Hl Hi; [by apply Hm in Hi as [? _]|by eapply M].
  - intros id' e' i [[-> ->]|H]%Hl Hi; [congruence|by eapply C].
  - intros id1 id2 e1 e2 i [[-> ->]|H1]%Hl [[-> ->]|H2]%Hl Hi1 Hi2; [done|..|by eapply O].
    + apply Hm in Hi1 as [_ Hn]. by apply Hn in H2.
    + apply Hm in Hi2 as [_ Hn]. by apply Hn in H1.
  - intros id' e' He. exists e'. split; [|done]. cbn. rewrite Hid. rewrite lookup_insert_ne; [done|]. congruence.
Qed.

Lemma new_mgr_moved m w : pool_ok w -> moved 0 w (with_mgrs w (mgrs w ++ [m])).
Proof. intros H. split; [|cbn; lia|by apply same_entries_off]. revert H. apply tables_ok; cbn; rewrite ?length_app; cbn; lia || done. Qed.

Lemma fresh_index w id e i : pool_ok w -> entries w !! id = Some e -> mgr e = Some i -> i <> length (mgrs w).
Proof. intros Hw He Hm ->. apply (ok_mgr _ Hw _ _ _ He) in Hm. lia. Qed.

Lemma bridge_moved p env now transport addr w : pool_ok w -> 0 <= counter w < 2 ^ 64 - 1 ->
  moved 1 w (connectBridge_entry p env now (NextID w).2 transport addr (NextID w).1).
Proof.
  intros Hw Hc. unfold connectBridge_entry.
  set (m := New (Some (tunnelCfg p transport addr (p_TransportConfig p))) None). set (id := (NextID w).2).
  set (w1 := with_ctxs (with_mgrs w (mgrs w ++ [m])) (ctxs w ++ [false])).
  assert (H1 : moved 0 w w1) by (by apply new_tables_moved).
  assert (Ei : pred (length (mgrs w1)) = length (mgrs w)) by (cbn; rewrite length_app; cbn; lia).
  set (e := newPoolEntry id transport addr Connecting_ (Some (length (mgrs w)))).
  assert (H2 : moved 1 w (Add e (NextID w1).1)).
  { rewrite <- (Z.add_0_l 1). eapply moved_trans; [exact H1|]. apply add_moved; [apply H1|done|done|done|].
    intros i [= <-]. split; [cbn; rewrite length_app; cbn; lia|]. intros id' e' He' Hm. by apply (fresh_index w _ _ _ Hw He' Hm). }
  set (w2 := Add e (NextID w1).1) in *. cbn zeta.
  change (with_ctxs (with_mgrs (NextID w).1 (mgrs (NextID w).1 ++ [m])) (ctxs (with_mgrs (NextID w).1 (mgrs (NextID w).1 ++ [m])) ++ [false]))
    with (NextID w1).1.
  change (mgrs (NextID w1).1) with (mgrs w1). change (ctxs (NextID w1).1) with (ctxs w1). rewrite Ei. fold e. fold w2.
  set (w3 := update id _ w2).
  assert (H3 : moved 1 w w3).
  { pool_then; [exact H2|]. split; [|cbn; lia|apply update_off; by intros ?].
    assert (He : entries w2 !! id = Some e) by (cbn; apply lookup_insert_eq).
    replace w3 with (update id (set_mgr (Some (length (mgrs w))) (Some (pred (length (ctxs w1))))) w2).
    - apply set_mgr_ok; [done|cbn; rewrite length_app; cbn; lia..|]. intros id' e' He' Hne Hm.
      apply Hne. eapply (ok_own w2); [done|exact He'|exact He|exact Hm|done].
    - unfold w3, update, with_entries. f_equal. apply map_eq. intros j. rewrite !lookup_alter. case_decide; [subst|done].
      change (entries w2) with (entries w2). by rewrite He. }
  destruct (Connect env now _) as [m' [er|]].
  - pool_then; [|by eauto with pool]. pool_then; [|by eauto with pool]. pool_then; [|by eauto with pool]. exact H3.
  - pool_then; [|by eauto with pool]. pool_then; [|by eauto with pool]. exact H3.
Qed.

(** Discharges what a change of an entry has to keep. *)
Ltac entry_change := first [by intros ?|assumption|done].

(** ** The requests *)

(** Entries are in order, at most one name is handed out, and every job refers to an
    entry; [on] says which entries may become enabled. *)
Record served (on : string -> bool) c c' : Prop := {
  sv_ok : pool_ok (pool c'); sv_ctr : counter (pool c) <= counter (pool c') <= counter (pool c) + 1;
  sv_kept : forall id e, entries (pool c) !! id = Some e ->
              exists e', entries (pool c') !! id = Some e' /\ (on id = false -> e_Enabled e = false -> e_Enabled e' = false);
  sv_jobs : forall id, JReconnect id ∈ jobs c' -> JReconnect id ∈ jobs c \/ is_Some (entries (pool c') !! id)
}.

Lemma moved_served on n c c' : 0 <= n <= 1 -> moved n (pool c) (pool c') ->
  (forall id, JReconnect id ∈ jobs c' -> JReconnect id ∈ jobs c \/ is_Some (entries (pool c') !! id)) -> served on c c'.
Proof.
  intros Hn [H1 H2 H3] Hj. split; [done|lia| |done]. intros id e He. destruct (H3 _ _ He) as (e' & He' & Ho). eauto.
Qed.

Lemma same_served on c c' : pool_ok (pool c) -> pool c' = pool c -> jobs c' = jobs c -> served on c c'.
Proof. intros Hw Ew Ej. apply (moved_served on 0); [lia|rewrite Ew; by apply moved_refl|]. rewrite Ej. auto. Qed.

Lemma on_mgr_moved o f c : pool_ok (pool c) -> moved 0 (pool c) (pool (on_mgr o f c)).
Proof. intros H. destruct o; cbn; [by apply alter_moved|by apply moved_refl]. Qed.
Lemma on_mgr_jobs o f c : jobs (on_mgr o f c) = jobs c.
Proof. by destruct o. Qed.

(** A change of one entry, then of its tunnel. *)
Lemma entry_served on id f o g c : same_refs f -> keeps_off f -> pool_ok (pool c) -> served on c (on_mgr o g (on_entry id f c)).
Proof.
  intros Hf Hk Hw. apply (moved_served on 0); [lia| |intros id'; rewrite on_mgr_jobs; auto].
  pool_then; [|by apply on_mgr_moved]. by apply update_moved.
Qed.

Lemma reconnect_served on id f e c : same_refs f -> keeps_off f -> entries (pool c) !! id = Some e -> pool_ok (pool c) ->
  served on c (reconnect_with id f c).1.
Proof.
  intros Hf Hk He Hw. apply (moved_served on 0); [lia| |].
  - apply update_moved; [|by intros e0 ?; apply Hk|done]. intros e0. apply Hf.
  - intros id' [H|H]%elem_of_app; [by left|]. apply list_elem_of_singleton in H as [= ->]. right. cbn. rewrite lookup_alter_eq, He. by eexists.
Qed.

Lemma duplicate_served on e c : pool_ok (pool c) -> 0 <= counter (pool c) < 2 ^ 64 - 1 -> served on c (handleConnDuplicate e c).1.
Proof.
  intros Hw Hc. apply (moved_served on 1); [lia| |].
  - unfold handleConnDuplicate. rewrite (surjective_pairing (NextID (pool c))). cbn [fst pool spawn with_pool]. by apply add_moved.
  - intros id' [H|H]%elem_of_app; [by left|]. apply list_elem_of_singleton in H as [= ->]. right. cbn. rewrite lookup_insert_eq. by eexists.
Qed.

Definition toggled_on (action : string) (b : body) : bool := bool_decide (action = "toggle") && decoded b && b_enabled b.

Lemma toggle_served e c b : entries (pool c) !! ID e = Some e -> pool_ok (pool c) ->
  served (fun id => bool_decide (id = ID e) && toggled_on "toggle" b) c (handleConnToggle b e c).1.
Proof.
  intros He Hw. unfold handleConnToggle, toggled_on. rewrite (bool_decide_eq_true_2 ("toggle" = "toggle")) by done.
  destruct (decoded b); [|by apply same_served]. destruct (b_enabled b); cbn [andb negb].
  - split; [by apply update_ok|cbn; lia| |by left]. intros id e0 He0. rewrite andb_true_r. cbn [fst on_entry with_pool pool].
    destruct (decide (id = ID e)) as [->|Hne].
    + exists (set_enabled true e0). split; [by apply update_eq|]. by rewrite bool_decide_eq_true_2.
    + exists e0. split; [by rewrite update_ne|done].
  - assert (Hu : moved 0 (pool c) (update (ID e) (set_enabled false) (pool c))) by (apply update_moved; entry_change).
    case_bool_decide; [|by apply (moved_served _ 0); [lia|exact Hu|auto]].
    apply (moved_served _ 0); [lia| |by left]. cbn [fst]. pool_then; [|apply (update_moved (ID e) (set_state Disconnected_)); entry_change].
    pool_then; [exact Hu|]. by apply cancel_moved.
Qed.

Lemma close_served on e c : pool_ok (pool c) -> served on c (handleConnClose e c).1.
Proof.
  intros Hw. apply (moved_served on 0); [lia| |by left]. pool_then; [|by apply cancel_moved]. apply update_moved; entry_change.
Qed.

Lemma profile_served on b e c : pool_ok (pool c) -> served on c (handleConnProfile b e c).1.
Proof.
  intros Hw. assert (H : served on c (on_entry (ID e) (set_profile (b_profile b)) c)).
  { apply (moved_served on 0); [lia|apply update_moved; entry_change|by left]. }
  unfold handleConnProfile. cbn zeta. by repeat case_match.
Qed.

Lemma dispatch_served action b e c : entries (pool c) !! ID e = Some e -> pool_ok (pool c) -> 0 <= counter (pool c) < 2 ^ 64 - 1 ->
  served (fun id => bool_decide (id = ID e) && toggled_on action b) c (dispatch action b e c).1.
Proof.
  intros He Hw Hc. unfold dispatch.
  repeat match goal with |- context [if bool_decide (action = ?a) then _ else _] => destruct (bool_decide_reflect (action = a)) as [->|_] end.
  - by apply close_served.
  - by apply toggle_served.
  - unfold handleConnObfuscation. destruct (decoded b); [|by apply same_served]. apply entry_served; entry_change.
  - unfold handleConnTransport. case_bool_decide; [by apply same_served|]. eapply reconnect_served; entry_change.
  - unfold handleConnPort. case_bool_decide; [by apply same_served|]. eapply reconnect_served; entry_change.
  - apply entry_served; entry_change.
  - eapply reconnect_served; entry_change.
  - eapply reconnect_served; entry_change.
  - by apply duplicate_served.
  - eapply reconnect_served; entry_change.
  - apply (moved_served _ 0); [lia|by apply on_mgr_moved|intros id'; cbn; rewrite on_mgr_jobs; auto].
  - apply entry_served; entry_change.
  - by apply profile_served.
  - by apply same_served.
Qed.

Lemma served_refl on c : pool_ok (pool c) -> served on c c.
Proof. intros H. by apply same_served. Qed.

Lemma refreshed_refs ms w e : ID (refreshed ms w e) = ID e /\ mgr (refreshed ms w e) = mgr e /\ cancel (refreshed ms w e) = cancel e /\
  e_Enabled (refreshed ms w e) = e_Enabled e.
Proof. unfold refreshed. by repeat case_match. Qed.

Lemma list_moved ms visit c : pool_ok (pool c) ->
  moved 0 (pool c) (pool (handleConnections ms visit c).1) /\ jobs (handleConnections ms visit c).1 = jobs c.
Proof.
  revert c. induction visit as [|id visit IH]; intros c Hw; cbn [handleConnections]; [by split; [apply moved_refl|]|].
  destruct (entries (pool c) !! id) as [e|]; [|by apply IH].
  set (c1 := on_entry id (refreshed ms (pool c)) c). assert (H1 : moved 0 (pool c) (pool c1)).
  { apply update_moved; [intros e0|intros e0|done]; destruct (refreshed_refs ms (pool c) e0) as (? & ? & ? & E); [done|by rewrite E]. }
  destruct (IH c1 (mv_ok _ _ _ H1)) as [H2 H3]. destruct (handleConnections ms visit c1) as [c2 vs]. cbn in *. split; [|done].
  by apply (moved_trans 0 0 _ (pool c1)).
Qed.

(** Jobs for entries of the pool. *)
Lemma spawn_served on P visit c : pool_ok (pool c) ->
  served on c (spawn (map (fun e => JReconnect (ID e)) (List.filter P (List_ visit (pool c)))) c).
Proof.
  intros Hw. apply (moved_served on 0); [lia|by apply moved_refl|]. intros id [H|H]%elem_of_app; [by left|]. right.
  apply list_elem_of_In, in_map_iff in H as (e & [= <-] & He). apply filter_In in He as [He _]. apply list_elem_of_In in He.
  unfold List_ in He. apply list_elem_of_omap in He as (id0 & _ & He). cbn. rewrite (ok_key _ Hw _ _ He), He. by eexists.
Qed.

Lemma reconnectEntry_served on env now id c : pool_ok (pool c) -> served on c (reconnectEntry env now id c).
Proof.
  intros Hw. unfold reconnectEntry. destruct (entries (pool c) !! id) as [e|]; [|by apply served_refl].
  apply (moved_served on 0); [lia|by apply restart_moved|by left].
Qed.

Lemma connectBridge_served on env now id addr c : pool_ok (pool c) -> 0 <= counter (pool c) < 2 ^ 64 - 1 -> served on c (connectBridge env now id addr c).
Proof.
  intros Hw Hc. unfold connectBridge. rewrite (surjective_pairing (NextID (pool c))). cbn zeta.
  assert (H : forall c', pool c' = connectBridge_entry (runtime c) env now (NextID (pool c)).2 (hd "" (transports c)) addr (NextID (pool c)).1 ->
    jobs c' = jobs c -> served on c c').
  { intros c' E Ej. apply (moved_served on 1); [lia|rewrite E; by apply bridge_moved|rewrite Ej; by left]. }
  repeat case_match; by apply H.
Qed.

Lemma jobs_served on c c' i : served on (mkClient (pool c) (runtime c) (transports c) (multi c) (knobs c) (delete i (jobs c))) c' -> served on c c'.
Proof.
  intros [H1 H2 H3 H4]. split; [done|done|done|]. intros id [H|H]%H4; [left|by right]. cbn in H.
  eapply sublist_subseteq; [apply sublist_delete|exact H].
Qed.

Lemma primary_served on env now id c : pool_ok (pool c) -> served on c (connectPrimary env now id c).1.
Proof.
  intros Hw. unfold connectPrimary. destruct (_ ≫= _) as [[i m]|]; [|by apply served_refl].
  destruct (Connect env now m) as [m' [er|]]; (apply (moved_served on 0); [lia| |by left]);
    (eapply moved_trans0; [by apply (insert_moved i m')|intros ?]); apply update_moved; entry_change.
Qed.

(** Which entries an event may enable. *)
Definition turns_on (ev : event) (id : string) : bool :=
  match ev with
  | EAction path b =>
      match map string_of_bytes (split_all 47 (bytes_of_string (TrimPrefix path "/connections/"))) with
      | id' :: action :: _ => bool_decide (id = id') && toggled_on action b
      | _ => false
      end
  | _ => false
  end.

Lemma exec_served ev c : pool_ok (pool c) -> 0 <= counter (pool c) < 2 ^ 64 - 1 -> served (turns_on ev) c (exec c ev).
Proof.
  intros Hw Hc. destruct ev as [path b|ms visit|visit|m sni visit|m spare b|del path|m b|env now id|env now i|envs now visit d]; cbn [exec].
  - unfold handleConnectionAction, turns_on. destruct (map string_of_bytes _) as [|id [|action l]]; [by apply served_refl..|].
    unfold Get. destruct (entries (pool c) !! id) as [e|] eqn:He; [|by apply served_refl].
    pose proof (ok_key _ Hw _ _ He) as <-. by apply dispatch_served.
  - destruct (list_moved ms visit c Hw) as [H E]. apply (moved_served _ 0); [lia|done|rewrite E; by left].
  - by apply spawn_served.
  - unfold handleGlobalSNI. repeat case_bool_decide; cbn [negb fst]; [by apply served_refl..| |by apply served_refl].
    by destruct (spawn_served (turns_on (EGlobalSNI "POST" sni visit)) (fun e => bool_decide (SNI e = "")) visit (with_global_sni c sni) Hw).
  - unfold handleMultiBridges. repeat case_match; try (by apply served_refl).
    apply (moved_served _ 0); [lia|by apply moved_refl|]. intros id' [H'|H']%elem_of_app; [by left|]. by apply list_elem_of_singleton in H'.
  - unfold handleMultiBridgeByID. repeat case_match; by apply same_served.
  - unfold handleCamo. repeat case_match; by apply same_served.
  - by apply primary_served.
  - unfold run_job. destruct (jobs c !! i) as [[id|id addr]|]; [..|by apply served_refl]; apply (jobs_served _ _ _ i).
    + by apply reconnectEntry_served.
    + by apply connectBridge_served.
  - apply (moved_served _ 0); [lia|by apply revive_moved|by left].
Qed.

(** ** Runs *)

Record client_ok (n : Z) c : Prop := {
  co_pool : pool_ok (pool c); co_ctr : 0 <= counter (pool c) <= n;
  co_jobs : forall id, JReconnect id ∈ jobs c -> is_Some (entries (pool c) !! id)
}.

Lemma exec_ok n ev c : n < 2 ^ 64 - 1 -> client_ok n c -> client_ok (n + 1) (exec c ev).
Proof.
  intros Hn [H1 H2 H3]. destruct (exec_served ev c H1 ltac:(lia)) as [S1 S2 S3 S4]. split; [done|lia|].
  intros id [H|H]%S4; [|done]. apply H3 in H as [e He]. destruct (S3 _ _ He) as (e' & -> & _). by eexists.
Qed.

Lemma run_ok evs n c : n + zlen evs < 2 ^ 64 -> client_ok n c -> client_ok (n + zlen evs) (fold_left exec evs c).
Proof.
  revert n c. induction evs as [|ev evs IH]; intros n c Hn Hc; cbn [fold_left]; [by rewrite zlen_nil, Z.add_0_r|].
  rewrite zlen_cons in *. pose proof (zlen_nonneg evs). replace (n + (1 + zlen evs)) with ((n + 1) + zlen evs) by lia.
  apply IH; [lia|]. apply exec_ok; [lia|done].
Qed.

Lemma transport_moved p st w transport : pool_ok w -> 0 <= counter w < 2 ^ 64 - 1 -> moved 1 w (add_transport p st w transport).
Proof.
  intros Hw Hc. unfold add_transport. set (w1 := with_mgrs w _). assert (H1 : moved 0 w w1) by (by apply new_mgr_moved).
  rewrite <- (Z.add_0_l 1). eapply moved_trans; [exact H1|].
  rewrite (surjective_pairing (NextID w1)). cbn [fst snd]. apply add_moved; [apply H1|done|done|done|].
  assert (Ei : pred (length (mgrs w1)) = length (mgrs w)) by (cbn; rewrite length_app; cbn; lia).
  intros i Hi. change (Some (pred (length (mgrs w1))) = Some i) in Hi. assert (i = length (mgrs w)) as -> by congruence. split; [cbn; rewrite length_app; cbn; lia|].
  intros id' e' He' Hm. by apply (fresh_index w _ _ _ Hw He' Hm).
Qed.

Lemma standby_moved p st ts w : pool_ok w -> 0 <= counter w -> counter w + zlen ts < 2 ^ 64 ->
  pool_ok (fold_left (add_transport p st) ts w) /\ counter (fold_left (add_transport p st) ts w) = counter w + zlen ts.
Proof.
  revert w. induction ts as [|t ts IH]; intros w Hw H0 Hc; cbn [fold_left]; [rewrite zlen_nil; split; [done|lia]|].
  rewrite zlen_cons in *. pose proof (zlen_nonneg ts). destruct (transport_moved p st w t Hw ltac:(lia)) as [H1 H2 _].
  destruct (IH (add_transport p st w t) H1 ltac:(lia) ltac:(lia)) as [H3 H4]. split; [done|lia].
Qed.

Lemma newPool_ok : pool_ok newPool.
Proof. split; intros *; cbn; by rewrite lookup_empty. Qed.

Lemma start_ok p ts k : 0 < zlen ts < 2 ^ 64 -> client_ok (zlen ts) (start p ts k).
Proof.
  intros Hn. destruct ts as [|t ts]; [unfold zlen in Hn; cbn in Hn; lia|]. rewrite zlen_cons in *. pose proof (zlen_nonneg ts).
  destruct (transport_moved p Connecting_ newPool t newPool_ok ltac:(cbn; lia)) as [H1 H2 _]. cbn [start hd tl].
  destruct (standby_moved p Standby_ ts (add_transport p Connecting_ newPool t) H1 ltac:(cbn in *; lia) ltac:(rewrite H2; cbn; lia)) as [H3 H4].
  split; [done| |].
  - cbn [pool start]. unfold addStandbyTransports. cbn [tl hd]. rewrite H4, H2. cbn. lia.
  - by intros id ?%not_elem_of_nil.
Qed.

(** Whatever requests reach the control server, in whatever order its jobs,
    revivals and the first connect run, the pool stays well-formed: every entry is
    kept under its own name, refers to a tunnel and a context that exist, shares its
    tunnel with no other entry, and every pending reconnection is of an entry of the
    pool. *)
Theorem pool_well_formed p ts k evs : 0 < zlen ts -> zlen ts + zlen evs < 2 ^ 64 ->
  client_ok (zlen ts + zlen evs) (fold_left exec evs (start p ts k)).
Proof. intros H1 H2. pose proof (zlen_nonneg evs). apply run_ok; [done|]. apply start_ok. lia. Qed.

Lemma run_off id evs n c e : n + zlen evs < 2 ^ 64 -> client_ok n c -> entries (pool c) !! id = Some e -> e_Enabled e = false ->
  Forall (fun ev => turns_on ev id = false) evs ->
  exists e', entries (pool (fold_left exec evs c)) !! id = Some e' /\ e_Enabled e' = false.
Proof.
  intros Hn Hc He Ho Ht. revert n c e Hn Hc He Ho. induction Ht as [|ev evs Hev Ht IH]; intros n c e Hn Hc He Ho; cbn [fold_left]; [eauto|].
  rewrite zlen_cons in Hn. pose proof (zlen_nonneg evs).
  destruct (exec_served ev c (co_pool _ _ Hc)) as [_ _ Hk _]; [destruct (co_ctr _ _ Hc); lia|]. destruct (Hk _ _ He) as (e' & He' & Ho').
  apply (IH (n + 1) (exec c ev) e'); [lia|apply exec_ok; [lia|done]|done|auto].
Qed.

(** An entry that was switched off stays off whatever else is requested,
    restarted, listed, added or revived, until it is switched on by name; and while it
    is off its tunnel is never the one the pool hands out. *)
Theorem closed_entry_unused p ts k evs evs' id e visit m : 0 < zlen ts -> zlen ts + zlen evs + zlen evs' < 2 ^ 64 ->
  entries (pool (fold_left exec evs (start p ts k))) !! id = Some e -> e_Enabled e = false ->
  Forall (fun ev => turns_on ev id = false) evs' ->
  let w := pool (fold_left exec evs' (fold_left exec evs (start p ts k))) in
  exists e', entries w !! id = Some e' /\ e_Enabled e' = false /\ (live visit w = Some m -> mgr e' <> Some m).
Proof.
  intros H0 Hn He Ho Ht w. pose proof (zlen_nonneg evs). pose proof (zlen_nonneg evs').
  assert (Hok : client_ok (zlen ts + zlen evs) (fold_left exec evs (start p ts k))) by (apply run_ok; [lia|apply start_ok; lia]).
  destruct (run_off id evs' _ _ e Hn Hok He Ho Ht) as (e' & He' & Ho'). exists e'. split; [done|]. split; [done|].
  intros (Hc & id2 & e2 & _ & He2 & Hen2 & Hm2)%live_serving Hm.
  pose proof (run_ok evs' _ _ Hn Hok) as [Hp _ _]. pose proof (ok_own _ Hp _ _ _ _ _ He' He2 Hm Hm2) as <-.
  fold w in He'. congruence.
Qed.

(** ** Settings that do not reach the tunnel *)

(** The port and the multiplexing of an entry are shown, but the tunnel is built
    without them. *)
Lemma port_and_mux_ignored p e server b : entryCfg p (set_server server e) = entryCfg p e /\ entryCfg p (set_mux b e) = entryCfg p e.
Proof. done. Qed.

(** A profile is stored, and reported as an error, for every entry with a tunnel. *)
Lemma profile_always_fails b e c i : mgr e = Some i -> is_Some (mgrs (pool c) !! i) ->
  (handleConnProfile b e c).2 = HTTPError 500 /\ pool (handleConnProfile b e c).1 = update (ID e) (set_profile (b_profile b)) (pool c).
Proof. intros Hm [m Hi]. unfold handleConnProfile. cbn zeta. rewrite Hm. cbn. by rewrite Hi. Qed.

(** A reconnection does not ask whether its entry is enabled. *)
Lemma reconnect_ignores_enabled env now id e c : entries (pool c) !! id = Some e -> restarting e = false ->
  exists e', entries (pool (reconnectEntry env now id c)) !! id = Some e' /\ mgr e' = Some (length (mgrs (pool c))) /\ e_Enabled e' = e_Enabled e.
Proof.
  intros He Hr. unfold reconnectEntry. rewrite He. cbn [pool with_pool].
  destruct (restartTransportEntry env now (entryCfg (runtime c) e) id (pool c)) as [w1 [|]] eqn:E.
  - destruct (restart_spec _ _ _ _ _ _ E) as [_ _ (e' & H1 & H2 & H3) _ _]. rewrite He in H3. cbn. eauto.
  - unfold restartTransportEntry, restart_begin in E. rewrite He, Hr in E. done.
Qed.

(** The kill switch is left alone when the server is named by a host name. *)
Lemma hostname_not_armed `{KillSwitch.Platform} ks addr host port : SplitHostPort addr = Some (host, port) -> ParseIP host = None ->
  armKillSwitch ks addr = ks.
Proof. unfold armKillSwitch. intros -> ->. by destruct ks. Qed.

(** What the delay of fragments can be. *)
Lemma parseFragmentDelay_range spec : let '(lo, hi, _) := parseFragmentDelay spec in 0 <= lo <= hi.
Proof.
  unfold parseFragmentDelay. cbn zeta. case_bool_decide; [lia|]. destruct (if 0 <=? _ then _ else _) as [[lo hi] ranged].
  destruct (atoi (trim_space lo)) as [a|]; [|lia]. destruct (Z.ltb_spec a 0); [lia|]. destruct ranged; cbn [negb]; [|lia].
  destruct (atoi (trim_space hi)) as [b|]; [|lia]. destruct (Z.ltb_spec b a); lia.
Qed.

(** ** Witnesses *)

Module ControlWitnesses.
Import PoolWitnesses.

Definition K : Shape.ShapeKnobs := Shape.newShapeKnobs "".
Definition blank : body := mkBody true false "" "" 0 "" 0 "".
Definition metrics0 : metrics := mkMetrics (fun _ => (0, 0)) (fun _ => (0, 0)).
Definition TS : list string := ["whispera"; "tcp"].
Definition c0 : client := start P TS K.

(** Close the second entry, duplicate the first, change the SNI and run its jobs. *)
Definition run1 : list event := [EPrimary (up 3) 10 "conn-1"; EAction "/connections/conn-2/close" blank].
Definition run2 : list event :=
  [EAction "/connections/conn-1/duplicate" blank; EJob (up 4) 20 0; EGlobalSNI "POST" "cdn.example" ["conn-1"; "conn-2"; "conn-3"];
   EJob (up 5) 30 1; EList metrics0 ["conn-2"; "conn-1"; "conn-3"]; EWake ["conn-2"; "conn-1"]].
Local Abbreviation c1 := (fold_left exec run1 (start P TS K)).
Local Abbreviation c2 := (fold_left exec run2 (fold_left exec run1 (start P TS K))).

Lemma pool_well_formed_witness : pool_ok (pool c1) /\ (size (entries (pool c1)) = 2)%nat.
Proof.
  assert (Hs : (size (entries (pool c1)) = 2)%nat) by (vm_compute; reflexivity). split; [|exact Hs].
  destruct (pool_well_formed P TS K run1) as [Hp _ _]; [vm_compute; reflexivity..|]. exact Hp.
Defined.

Lemma closed_entry_unused_witness :
  exists e', entries (pool c2) !! "conn-2" = Some e' /\ e_Enabled e' = false /\ mgr e' <> Some 0%nat.
Proof.
  destruct (entries (pool c1) !! "conn-2") as [e|] eqn:He.
  2:{ assert (Hs : bool_decide (is_Some (entries (pool c1) !! "conn-2")) = true) by (vm_compute; reflexivity). rewrite He in Hs. discriminate. }
  assert (Ho : e_Enabled e = false).
  { assert (E : (e_Enabled <$> entries (pool c1) !! "conn-2") = Some false) by (vm_compute; reflexivity). rewrite He in E. injection E as E. exact E. }
  assert (Ht : Forall (fun ev => turns_on ev "conn-2" = false) run2) by (repeat (constructor; [vm_compute; reflexivity|]); constructor).
  assert (Hl : live ["conn-1"] (pool c2) = Some 0%nat) by (vm_compute; reflexivity).
  destruct (closed_entry_unused P TS K run1 run2 "conn-2" e ["conn-1"] 0 ltac:(vm_compute; reflexivity)
              ltac:(vm_compute; reflexivity) He Ho Ht) as (e' & He' & Ho' & Hn).
  exists e'. split; [exact He'|]. split; [exact Ho'|]. apply Hn. exact Hl.
Defined.

(** Yet the change of the SNI had reconnected it. *)
Lemma closed_entry_reconnected : (e ← entries (pool c2) !! "conn-2"; Some (connected (pool c2) (mgr e))) = Some true.
Proof. vm_compute. reflexivity. Qed.

(** A request to /camo that is refused may have been carried out in part. *)
Lemma refused_camo_applies :
  let b := mkCamo (Some 5) None None None None (Some (-1)) None None None in
  (handleCamo "POST" (Some b) c0).2 = HTTPError 400 /\ Shape.records (knobs (handleCamo "POST" (Some b) c0).1) = 5 /\ Shape.records (knobs c0) <> 5.
Proof. vm_compute. split; [reflexivity|]. split; [reflexivity|discriminate]. Qed.

(** Obfuscation is switched off for an entry; after its next reconnection the list
    of connections switches it back on. *)
Definition secure : body := mkBody true true "" "" 0 "" 0 "".
Lemma listing_reverts_obfuscation :
  let c := fold_left exec [EAction "/connections/conn-1/transport_secure" secure; EAction "/connections/conn-1/sni" secure; EJob (up 4) 20 0] c0 in
  let forced c := e_ForceObfuscation <$> entries (pool c) !! "conn-1" in
  forced c = Some false /\ forced (exec c (EList metrics0 ["conn-1"])) = Some true.
Proof. split; vm_compute; reflexivity. Qed.

(** The copy of an entry without SNI sends one. *)
Lemma duplicate_drops_no_sni :
  let c := fold_left exec [EAction "/connections/conn-1/no_sni" secure; EAction "/connections/conn-1/duplicate" blank] c0 in
  (NoSNI <$> entries (pool c) !! "conn-1") = Some true /\ (NoSNI <$> entries (pool c) !! "conn-3") = Some false.
Proof. split; vm_compute; reflexivity. Qed.

(** A bridge that was removed still carries the client's own traffic. *)
Lemma removed_bridge_serves :
  let c := fold_left exec [EBridge "POST" 4 (Some ("b", "bridge:443", ["*.test"])); EJob (up 4) 20 0; EUnbridge true "/multi-bridges/b"] c0 in
  MultiRouter.bridge_list (multi c) = [] /\ live ["conn-1"; "conn-2"; "conn-3"] (pool c) = Some 2%nat.
Proof. split; vm_compute; reflexivity. Qed.

End ControlWitnesses.
