(* ===== verification/GoJson.v ===== *)
(** The parts of Go's standard library that connection keys are made of: UTF-8
    (unicode/utf8), the scanner, string decoder and string encoder of
    encoding/json, and padded base64 (encoding/base64).

    Text is a list of bytes.  A JSON document is parsed into a syntax tree [json] in
    which strings are decoded and numbers keep their literal.  The parser is
    recursive on fuel; [parse_fuel] shows that more than [parse] gives it changes
    nothing. *)

From S2P Require Import Prelude GoStr NetIP Auth.

Module GoJson.

(** ** unicode/utf8 *)

Definition runeError : Z := 65533.

Definition cont (c : Z) : bool := (128 <=? c) && (c <=? 191).
Definition in_range (lo hi c : Z) : bool := (lo <=? c) && (c <=? hi).

(** [utf8.DecodeRune]: the rune and its width; an invalid sequence is [runeError]
    of width 1. *)
Definition decode_rune (l : list Z) : Z * nat :=
  match l with
  | [] => (runeError, 0%nat)
  | a :: l1 =>
      if a <? 128 then (a, 1%nat)
      else match l1 with
      | b :: l2 =>
          if in_range 194 223 a then
            if cont b then ((a mod 32) * 64 + b mod 64, 2%nat) else (runeError, 1%nat)
          else match l2 with
          | c :: l3 =>
              if in_range 224 239 a then
                let lo := if a =? 224 then 160 else 128 in
                let hi := if a =? 237 then 159 else 191 in
                if in_range lo hi b && cont c then ((a mod 16) * 4096 + (b mod 64) * 64 + c mod 64, 3%nat) else (runeError, 1%nat)
              else match l3 with
              | d :: _ =>
                  if in_range 240 244 a then
                    let lo := if a =? 240 then 144 else 128 in
                    let hi := if a =? 244 then 143 else 191 in
                    if in_range lo hi b && cont c && cont d
                    then ((a mod 8) * 262144 + (b mod 64) * 4096 + (c mod 64) * 64 + d mod 64, 4%nat) else (runeError, 1%nat)
                  else (runeError, 1%nat)
              | [] => (runeError, 1%nat)
              end
          | [] => (runeError, 1%nat)
          end
      | [] => (runeError, 1%nat)
      end
  end.

(** [utf8.AppendRune]. *)
Definition encode_rune (r : Z) : list Z :=
  let r := if (r <? 0) || (1114111 <? r) || in_range 55296 57343 r then runeError else r in
  if r <? 128 then [r]
  else if r <? 2048 then [192 + r / 64; 128 + r mod 64]
  else if r <? 65536 then [224 + r / 4096; 128 + (r / 64) mod 64; 128 + r mod 64]
  else [240 + r / 262144; 128 + (r / 4096) mod 64; 128 + (r / 64) mod 64; 128 + r mod 64].

(** ** Strings of encoding/json *)

Fixpoint hex_value (l : list Z) (acc : Z) (n : nat) {struct n} : option (Z * list Z) :=
  match n with
  | O => Some (acc, l)
  | S n => match l with
           | c :: l => v ← hex_val c; hex_value l (acc * 16 + v) n
           | [] => None
           end
  end.
Definition hex4 (l : list Z) : option (Z * list Z) := hex_value l 0 4.

Definition utf16_decode (r1 r2 : Z) : Z :=
  if in_range 55296 56319 r1 && in_range 56320 57343 r2 then (r1 - 55296) * 1024 + (r2 - 56320) + 65536 else runeError.

Definition simple_escape (c : Z) : option Z :=
  if (c =? 34) || (c =? 92) || (c =? 47) then Some c
  else if c =? 98 then Some 8 else if c =? 102 then Some 12 else if c =? 110 then Some 10
  else if c =? 114 then Some 13 else if c =? 116 then Some 9 else None.

(** The rune of an escape [\u] and where the text goes on: a high surrogate takes the
    escape behind it along. *)
Definition unicode_escape (l : list Z) : option (Z * list Z) :=
  '(r, l1) ← hex4 l;
  if in_range 55296 57343 r then
    match l2 ← strip_prefix [92; 117] l1; hex4 l2 with
    | Some (r1, l3) => if utf16_decode r r1 =? runeError then Some (runeError, l1) else Some (utf16_decode r r1, l3)
    | None => Some (runeError, l1)
    end
  else Some (r, l1).

(** The rest of a string behind its opening quote: its value and what follows. *)
Fixpoint parse_str (fuel : nat) (l : list Z) : option (list Z * list Z) :=
  match fuel with
  | O => None
  | S fuel =>
      match l with
      | [] => None
      | c :: l1 =>
          if c =? 34 then Some ([], l1)
          else if c =? 92 then
            match l1 with
            | [] => None
            | e :: l2 =>
                if e =? 117 then
                  '(r, l3) ← unicode_escape l2; '(s, rest) ← parse_str fuel l3; Some (encode_rune r ++ s, rest)
                else b ← simple_escape e; '(s, rest) ← parse_str fuel l2; Some (b :: s, rest)
            end
          else if c <? 32 then None
          else if c <? 128 then '(s, rest) ← parse_str fuel l1; Some (c :: s, rest)
          else
            let '(r, n) := decode_rune l in
            '(s, rest) ← parse_str fuel (drop n l); Some (encode_rune r ++ s, rest)
      end
  end.

Definition hexdigit (n : Z) : Z := if n <? 10 then 48 + n else 87 + n.

(** How [json.Marshal] writes a byte below 128, with HTML escaped. *)
Definition escape_byte (b : Z) : list Z :=
  if (b =? 92) || (b =? 34) then [92; b]
  else if b =? 8 then [92; 98] else if b =? 12 then [92; 102] else if b =? 10 then [92; 110]
  else if b =? 13 then [92; 114] else if b =? 9 then [92; 116]
  else if (b <? 32) || (b =? 60) || (b =? 62) || (b =? 38) then [92; 117; 48; 48; hexdigit (b / 16); hexdigit (b mod 16)]
  else [b].

Fixpoint escape_str (fuel : nat) (l : list Z) : list Z :=
  match fuel, l with
  | S fuel, b :: l1 =>
      if b <? 128 then escape_byte b ++ escape_str fuel l1
      else
        let '(r, n) := decode_rune l in
        if (r =? runeError) && (n =? 1)%nat then [92; 117; 102; 102; 102; 100] ++ escape_str fuel l1
        else if (r =? 8232) || (r =? 8233) then [92; 117; 50; 48; 50; hexdigit (r mod 16)] ++ escape_str fuel (drop n l)
        else take n l ++ escape_str fuel (drop n l)
  | _, _ => []
  end.
Definition quote (l : list Z) : list Z := 34 :: escape_str (length l) l ++ [34].

(** ** Documents *)

(** [strconv.AppendInt] in base 10. *)
Definition int_text (z : Z) : list Z := if z <? 0 then 45 :: itoa_digits 20 (- z) [] else itoa_digits 20 z [].

#[warnings="-register-all"]
Inductive json :=
| JNull | JBool (b : bool) | JNum (lit : list Z) | JStr (s : list Z) | JArr (l : list json) | JObj (l : list (list Z * json)).

(** How [json.Marshal] writes a value. *)
Fixpoint print (v : json) : list Z :=
  match v with
  | JNull => [110; 117; 108; 108]
  | JBool true => [116; 114; 117; 101]
  | JBool false => [102; 97; 108; 115; 101]
  | JNum lit => lit
  | JStr s => quote s
  | JArr l => 91 :: match l with [] => [] | v :: l => print v ++ concat (map (fun v => 44 :: print v) l) end ++ [93]
  | JObj ms =>
      123 :: match ms with
             | [] => []
             | m :: ms => quote m.1 ++ 58 :: print m.2 ++ concat (map (fun m => 44 :: quote m.1 ++ 58 :: print m.2) ms)
             end ++ [125]
  end.

Definition is_ws (c : Z) : bool := (c =? 32) || (c =? 9) || (c =? 10) || (c =? 13).
Fixpoint skip_ws (l : list Z) : list Z :=
  match l with c :: l' => if is_ws c then skip_ws l' else l | [] => [] end.

Fixpoint span_digits (l : list Z) : list Z * list Z :=
  match l with
  | c :: l' => if is_digit c then let '(d, r) := span_digits l' in (c :: d, r) else ([], l)
  | [] => ([], [])
  end.

(** One or more digits. *)
Definition some_digits (l : list Z) : option (list Z * list Z) :=
  match span_digits l with ([], _) => None | p => Some p end.

Definition scan_int (l : list Z) : option (list Z * list Z) :=
  match l with
  | c :: l' => if c =? 48 then Some ([48], l') else some_digits l
  | [] => None
  end.
Definition scan_frac (l : list Z) : option (list Z * list Z) :=
  match l with
  | c :: l' => if c =? 46 then '(d, r) ← some_digits l'; Some (46 :: d, r) else Some ([], l)
  | [] => Some ([], [])
  end.
Definition scan_exp (l : list Z) : option (list Z * list Z) :=
  match l with
  | c :: l' =>
      if (c =? 101) || (c =? 69) then
        let '(sg, l2) := match l' with
                         | s :: l2 => if (s =? 43) || (s =? 45) then ([s], l2) else ([], l')
                         | [] => ([], [])
                         end in
        '(d, r) ← some_digits l2; Some (c :: sg ++ d, r)
      else Some ([], l)
  | [] => Some ([], [])
  end.
Definition scan_num (l : list Z) : option (list Z * list Z) :=
  let '(sg, l0) := match l with c :: l' => if c =? 45 then ([45], l') else ([], l) | [] => ([], []) end in
  '(i, l1) ← scan_int l0; '(f, l2) ← scan_frac l1; '(e, l3) ← scan_exp l2; Some (sg ++ i ++ f ++ e, l3).

(** The rest of the text behind white space and the character [c]. *)
Definition after (c : Z) (l : list Z) : option (list Z) :=
  match skip_ws l with x :: r => if x =? c then Some r else None | [] => None end.

Definition maxNestingDepth : Z := 10000.

Fixpoint parse_value (fuel : nat) (depth : Z) (l : list Z) {struct fuel} : option (json * list Z) :=
  match fuel with
  | O => None
  | S fuel =>
      match skip_ws l with
      | [] => None
      | c :: l1 =>
          if c =? 34 then '(s, rest) ← parse_str (length l1) l1; Some (JStr s, rest)
          else if c =? 123 then
            if maxNestingDepth <? depth + 1 then None
            else match after 125 l1 with
                 | Some rest => Some (JObj [], rest)
                 | None => '(ms, rest) ← parse_members fuel (depth + 1) l1; Some (JObj ms, rest)
                 end
          else if c =? 91 then
            if maxNestingDepth <? depth + 1 then None
            else match after 93 l1 with
                 | Some rest => Some (JArr [], rest)
                 | None => '(vs, rest) ← parse_elems fuel (depth + 1) l1; Some (JArr vs, rest)
                 end
          else if c =? 116 then rest ← strip_prefix [114; 117; 101] l1; Some (JBool true, rest)
          else if c =? 102 then rest ← strip_prefix [97; 108; 115; 101] l1; Some (JBool false, rest)
          else if c =? 110 then rest ← strip_prefix [117; 108; 108] l1; Some (JNull, rest)
          else '(n, rest) ← scan_num (c :: l1); Some (JNum n, rest)
      end
  end
with parse_members (fuel : nat) (depth : Z) (l : list Z) {struct fuel} : option (list (list Z * json) * list Z) :=
  match fuel with
  | O => None
  | S fuel =>
      l1 ← after 34 l; '(k, l2) ← parse_str (length l1) l1; l3 ← after 58 l2; '(v, l4) ← parse_value fuel depth l3;
      match after 44 l4 with
      | Some l5 => '(ms, rest) ← parse_members fuel depth l5; Some ((k, v) :: ms, rest)
      | None => rest ← after 125 l4; Some ([(k, v)], rest)
      end
  end
with parse_elems (fuel : nat) (depth : Z) (l : list Z) {struct fuel} : option (list json * list Z) :=
  match fuel with
  | O => None
  | S fuel =>
      '(v, l1) ← parse_value fuel depth l;
      match after 44 l1 with
      | Some l2 => '(vs, rest) ← parse_elems fuel depth l2; Some (v :: vs, rest)
      | None => rest ← after 93 l1; Some ([v], rest)
      end
  end.

(** A whole document. *)
Definition parse (l : list Z) : option json :=
  match parse_value (2 * length l + 2) 0 l with
  | Some (v, rest) => match skip_ws rest with [] => Some v | _ => None end
  | None => None
  end.

(** ** Names of struct fields *)

(** [foldName] on the runes that matter for ASCII names: lower case, the long s and
    the Kelvin sign count as their capitals. *)
Fixpoint fold_name (fuel : nat) (l : list Z) : list Z :=
  match fuel, l with
  | S fuel, b :: l1 =>
      if b <? 128 then (if in_range 97 122 b then b - 32 else b) :: fold_name fuel l1
      else
        let '(r, n) := decode_rune l in
        (if r =? 383 then 83 else if r =? 8490 then 75 else r) :: fold_name fuel (drop n l)
  | _, _ => []
  end.
Definition foldName (l : list Z) : list Z := fold_name (length l) l.

(** ** Padded base64 *)

Section Base64.
Variables (val : Z -> option Z) (char : Z -> Z).

Fixpoint pad_encode (b : list Z) : list Z :=
  match b with
  | x :: y :: z :: b' =>
      char (Z.shiftr x 2) :: char (Z.lor (Z.shiftl (Z.land x 3) 4) (Z.shiftr y 4))
      :: char (Z.lor (Z.shiftl (Z.land y 15) 2) (Z.shiftr z 6)) :: char (Z.land z 63) :: pad_encode b'
  | [x; y] => [char (Z.shiftr x 2); char (Z.lor (Z.shiftl (Z.land x 3) 4) (Z.shiftr y 4)); char (Z.shiftl (Z.land y 15) 2); 61]
  | [x] => [char (Z.shiftr x 2); char (Z.shiftl (Z.land x 3) 4); 61; 61]
  | [] => []
  end.

Fixpoint pad_quanta (l : list Z) : option (list Z) :=
  match l with
  | [] => Some []
  | a :: b :: c :: d :: l' =>
      va ← val a; vb ← val b;
      match val c, val d with
      | Some vc, Some vd =>
          r ← pad_quanta l';
          Some (u8 (Z.lor (Z.shiftl va 2) (Z.shiftr vb 4)) :: u8 (Z.lor (Z.shiftl vb 4) (Z.shiftr vc 2)) :: u8 (Z.lor (Z.shiftl vc 6) vd) :: r)
      | Some vc, None =>
          if (d =? 61) && bool_decide (l' = [])
          then Some [u8 (Z.lor (Z.shiftl va 2) (Z.shiftr vb 4)); u8 (Z.lor (Z.shiftl vb 4) (Z.shiftr vc 2))] else None
      | None, _ =>
          if (c =? 61) && (d =? 61) && bool_decide (l' = []) then Some [u8 (Z.lor (Z.shiftl va 2) (Z.shiftr vb 4))] else None
      end
  | _ => None
  end.

Definition pad_decode (l : list Z) : option (list Z) := pad_quanta (filter Auth.not_newline l).

End Base64.

(** The alphabet of [base64.StdEncoding]; that of [URLEncoding] is [Auth.b64_val]. *)
Definition std_val (c : Z) : option Z :=
  if (c =? 45) || (c =? 95) then None else if c =? 43 then Some 62 else if c =? 47 then Some 63 else Auth.b64_val c.
Definition std_char (v : Z) : Z := if v =? 62 then 43 else if v =? 63 then 47 else Auth.b64_char v.

Definition std_encode : list Z -> list Z := pad_encode std_char.
Definition std_decode : list Z -> option (list Z) := pad_decode std_val.
Definition url_decode : list Z -> option (list Z) := pad_decode Auth.b64_val.

End GoJson.
