(* ===== verification/GoJsonFacts.v ===== *)
(** Facts about [GoJson]: the fuel of the parser is enough, UTF-8 and base64 decode
    what they encode, and the parser reads back the strings, numbers and objects
    that [json.Marshal] writes. *)

From S2P Require Import Prelude GoStr NetIP Auth AuthFacts GoJson.
Import GoJson.

(** ** The fuel of the parser *)

Lemma bind_Some_pair {A B C} (o : option (A * B)) (f : A * B -> option C) y : (o ≫= f) = Some y -> exists a b, o = Some (a, b) /\ f (a, b) = Some y.
Proof. destruct o as [[a b]|]; [eauto|done]. Qed.

Lemma skip_ws_len l : (length (skip_ws l) <= length l)%nat.
Proof. induction l as [|c l IH]; cbn; [done|]. destruct (is_ws c); cbn; lia. Qed.

Lemma after_len c l r : after c l = Some r -> (length r < length l)%nat.
Proof.
  unfold after. pose proof (skip_ws_len l) as H. destruct (skip_ws l) as [|x l']; [done|]. destruct (x =? c); [|done].
  intros [= <-]. cbn in H. lia.
Qed.

Lemma strip_prefix_len w l r : strip_prefix w l = Some r -> (length r + length w = length l)%nat.
Proof. intros H. apply strip_prefix_Some in H. subst. rewrite length_app. lia. Qed.

Lemma decode_rune_width l : l <> [] -> (1 <= (decode_rune l).2)%nat.
Proof. destruct l as [|a l]; [done|]. intros _. unfold decode_rune. repeat case_match; cbn; lia. Qed.

Lemma hex_value_len n l acc v r : hex_value l acc n = Some (v, r) -> (length r + n = length l)%nat.
Proof.
  revert l acc. induction n as [|n IH]; intros l acc; cbn; [intros [= <- <-]; lia|]. destruct l as [|c l]; [done|].
  destruct (hex_val c); [|done]. cbn. intros H%IH. lia.
Qed.

Lemma unicode_escape_len l r rest : unicode_escape l = Some (r, rest) -> (length rest <= length l)%nat.
Proof.
  unfold unicode_escape, hex4. intros (v & l1 & H1 & H2)%bind_Some_pair. apply hex_value_len in H1.
  destruct (in_range 55296 57343 v); [|injection H2 as <- <-; lia].
  destruct (strip_prefix [92; 117] l1) as [l2|] eqn:Es; cbn [mbind option_bind] in H2; [|injection H2 as <- <-; lia].
  apply strip_prefix_len in Es. cbn in Es.
  destruct (hex_value l2 0 4) as [[r1 l3]|] eqn:E; [|injection H2 as <- <-; lia]. apply hex_value_len in E.
  destruct (_ =? _); injection H2 as <- <-; lia.
Qed.

Lemma parse_str_len fuel l s rest : parse_str fuel l = Some (s, rest) -> (length rest < length l)%nat.
Proof.
  revert l s. induction fuel as [|fuel IH]; intros l s; cbn [parse_str]; [done|]. destruct l as [|c l1]; [done|].
  destruct (c =? 34); [intros [= <- <-]; cbn; lia|]. destruct (c =? 92).
  - destruct l1 as [|e l2]; [done|]. destruct (e =? 117).
    + intros (r & l3 & H1 & (s' & rest' & H2 & [= <- <-])%bind_Some_pair)%bind_Some_pair. apply unicode_escape_len in H1. apply IH in H2. cbn. lia.
    + destruct (simple_escape e); [|done]. cbn. intros (s' & rest' & H2 & [= <- <-])%bind_Some_pair. apply IH in H2. lia.
  - destruct (c <? 32); [done|]. destruct (c <? 128).
    + intros (s' & rest' & H2 & [= <- <-])%bind_Some_pair. apply IH in H2. cbn. lia.
    + pose proof (decode_rune_width (c :: l1) ltac:(done)) as Hw. destruct (decode_rune (c :: l1)) as [r n]. cbn in Hw.
      intros (s' & rest' & H2 & [= <- <-])%bind_Some_pair. apply IH in H2. rewrite length_drop in H2. lia.
Qed.

Lemma span_digits_len l : (length (span_digits l).1 + length (span_digits l).2 = length l)%nat.
Proof. induction l as [|c l IH]; [done|]. cbn. destruct (is_digit c); [|done]. destruct (span_digits l). cbn in *. lia. Qed.

Lemma some_digits_len l d r : some_digits l = Some (d, r) -> (length r < length l)%nat.
Proof.
  unfold some_digits. pose proof (span_digits_len l) as H. destruct (span_digits l) as [[|x d'] r']; [done|]. intros [= <- <-]. cbn in *. lia.
Qed.

Lemma scan_num_len l n r : scan_num l = Some (n, r) -> (length r < length l)%nat.
Proof.
  unfold scan_num. intros H.
  assert (Hs : exists sg l0, (length l0 <= length l)%nat /\ ('(i, l1) ← scan_int l0; '(f, l2) ← scan_frac l1; '(e, l3) ← scan_exp l2; Some (sg ++ i ++ f ++ e, l3)) = Some (n, r)).
  { destruct l as [|c l']; [by exists [], []|]. destruct (c =? 45); [exists [45], l'|exists [], (c :: l')]; cbn; (split; [lia|done]). }
  destruct Hs as (sg & l0 & Hl & (i & l1 & Hi & (f & l2 & Hf & (e & l3 & He & [= <- <-])%bind_Some_pair)%bind_Some_pair)%bind_Some_pair).
  assert ((length l1 < length l0)%nat).
  { unfold scan_int in Hi. destruct l0 as [|c l0]; [done|]. destruct (c =? 48); [injection Hi as <- <-; cbn; lia|by eapply some_digits_len]. }
  assert ((length l2 <= length l1)%nat).
  { unfold scan_frac in Hf. destruct l1 as [|c l1]; [by injection Hf as <- <-|]. destruct (c =? 46); [|by injection Hf as <- <-].
    apply bind_Some_pair in Hf as (d & r' & Hd%some_digits_len & [= <- <-]). cbn. lia. }
  assert ((length l3 <= length l2)%nat).
  { unfold scan_exp in He. destruct l2 as [|c l2]; [by injection He as <- <-|]. destruct (_ || _); [|by injection He as <- <-].
    destruct (match l2 with [] => _ | _ => _ end) as [sg' l2'] eqn:El.
    apply bind_Some_pair in He as (d & r' & Hd%some_digits_len & [= <- <-]).
    assert ((length l2' <= length l2)%nat) by (destruct l2 as [|s0 l2]; [injection El as <- <-; lia|destruct (_ || _); injection El as <- <-; cbn; lia]).
    cbn. lia. }
  lia.
Qed.

Section Fuel.

(** What the three parsers give with [f] units of fuel does not depend on [f] once it
    covers the text; a value uses up some of the text. *)
Definition enough (f : nat) : Prop :=
  (forall g d l, (2 * length l + 1 <= f)%nat -> (2 * length l + 1 <= g)%nat -> parse_value f d l = parse_value g d l) /\
  (forall g d l, (2 * length l + 2 <= f)%nat -> (2 * length l + 2 <= g)%nat -> parse_members f d l = parse_members g d l) /\
  (forall g d l, (2 * length l + 2 <= f)%nat -> (2 * length l + 2 <= g)%nat -> parse_elems f d l = parse_elems g d l).

Definition shorter (f : nat) : Prop :=
  (forall d l v r, parse_value f d l = Some (v, r) -> (length r < length l)%nat) /\
  (forall d l v r, parse_members f d l = Some (v, r) -> (length r < length l)%nat) /\
  (forall d l v r, parse_elems f d l = Some (v, r) -> (length r < length l)%nat).

Lemma value_shorter f d l v r : shorter f -> parse_value (S f) d l = Some (v, r) -> (length r < length l)%nat.
Proof.
  intros (Hv & Hm & He). cbn [parse_value]. pose proof (skip_ws_len l) as Hl. destruct (skip_ws l) as [|c l1]; [done|]. cbn in Hl.
  destruct (c =? 34); [intros (s & r' & H%parse_str_len & [= <- <-])%bind_Some_pair; lia|].
  destruct (c =? 123).
  { destruct (_ <? _); [done|]. destruct (after 125 l1) as [r'|] eqn:E; [intros [= <- <-]; apply after_len in E; lia|].
    intros (ms & r' & H%Hm & [= <- <-])%bind_Some_pair. lia. }
  destruct (c =? 91).
  { destruct (_ <? _); [done|]. destruct (after 93 l1) as [r'|] eqn:E; [intros [= <- <-]; apply after_len in E; lia|].
    intros (ms & r' & H%He & [= <- <-])%bind_Some_pair. lia. }
  destruct (c =? 116); [intros (r' & H%strip_prefix_len & [= <- <-])%bind_Some; cbn in H; lia|].
  destruct (c =? 102); [intros (r' & H%strip_prefix_len & [= <- <-])%bind_Some; cbn in H; lia|].
  destruct (c =? 110); [intros (r' & H%strip_prefix_len & [= <- <-])%bind_Some; cbn in H; lia|].
  intros (s & r' & H%scan_num_len & [= <- <-])%bind_Some_pair. cbn in H. lia.
Qed.

Lemma members_shorter f d l v r : shorter f -> parse_members (S f) d l = Some (v, r) -> (length r < length l)%nat.
Proof.
  intros (Hv & Hm & He). cbn [parse_members]. intros (l1 & H1%after_len & H)%bind_Some.
  apply bind_Some_pair in H as (k & l2 & H2%parse_str_len & H). apply bind_Some in H as (l3 & H3%after_len & H).
  apply bind_Some_pair in H as (v' & l4 & H4%Hv & H). destruct (after 44 l4) as [l5|] eqn:E5.
  - apply after_len in E5. apply bind_Some_pair in H as (ms & r' & H6%Hm & [= <- <-]). lia.
  - apply bind_Some in H as (r' & H6%after_len & [= <- <-]). lia.
Qed.

Lemma elems_shorter f d l v r : shorter f -> parse_elems (S f) d l = Some (v, r) -> (length r < length l)%nat.
Proof.
  intros (Hv & Hm & He). cbn [parse_elems]. intros (v' & l1 & H1%Hv & H)%bind_Some_pair. destruct (after 44 l1) as [l2|] eqn:E2.
  - apply after_len in E2. apply bind_Some_pair in H as (vs & r' & H6%He & [= <- <-]). lia.
  - apply bind_Some in H as (r' & H6%after_len & [= <- <-]). lia.
Qed.

Lemma all_shorter f : shorter f.
Proof.
  induction f as [|f IH]; [done|]. split_and!; intros; [by eapply value_shorter|by eapply members_shorter|by eapply elems_shorter].
Qed.

Lemma value_enough f g d l : enough f -> (2 * length l <= f)%nat -> (2 * length l <= g)%nat ->
  parse_value (S f) d l = parse_value (S g) d l.
Proof.
  intros (_ & Hm & He) Hf Hg. cbn [parse_value]. pose proof (skip_ws_len l) as Hl. destruct (skip_ws l) as [|c l1]; [done|]. cbn in Hl.
  destruct (c =? 34); [done|]. destruct (c =? 123); [destruct (_ <? _); [done|]; destruct (after 125 l1); [done|]; by rewrite (Hm g) by lia|].
  destruct (c =? 91); [|done]. destruct (_ <? _); [done|]; destruct (after 93 l1); [done|]; by rewrite (He g) by lia.
Qed.

Lemma members_enough f g d l : enough f -> (2 * length l + 1 <= f)%nat -> (2 * length l + 1 <= g)%nat ->
  parse_members (S f) d l = parse_members (S g) d l.
Proof.
  intros (Hv & Hm & _) Hf Hg. cbn [parse_members]. destruct (after 34 l) as [l1|] eqn:E1; [|done]. apply after_len in E1. cbn [mbind option_bind].
  destruct (parse_str (length l1) l1) as [[k l2]|] eqn:E2; [|done]. apply parse_str_len in E2. cbn.
  destruct (after 58 l2) as [l3|] eqn:E3; [|done]. apply after_len in E3. cbn. rewrite (Hv g) by lia.
  destruct (parse_value g d l3) as [[v l4]|] eqn:E4; [|done]. apply (proj1 (all_shorter g)) in E4. cbn.
  destruct (after 44 l4) as [l5|] eqn:E5; [|done]. apply after_len in E5. by rewrite (Hm g) by lia.
Qed.

Lemma elems_enough f g d l : enough f -> (2 * length l + 1 <= f)%nat -> (2 * length l + 1 <= g)%nat ->
  parse_elems (S f) d l = parse_elems (S g) d l.
Proof.
  intros (Hv & _ & He) Hf Hg. cbn [parse_elems]. rewrite (Hv g) by lia.
  destruct (parse_value g d l) as [[v l1]|] eqn:E1; [|done]. apply (proj1 (all_shorter g)) in E1. cbn.
  destruct (after 44 l1) as [l2|] eqn:E2; [|done]. apply after_len in E2. by rewrite (He g) by lia.
Qed.

Lemma fuel_enough f : enough f.
Proof.
  induction f as [|f IH]; [split_and!; intros; lia|].
  split_and!; intros [|g] d l Hf Hg; try lia; [apply value_enough|apply members_enough|apply elems_enough]; done || lia.
Qed.

(** More fuel than [parse] uses changes nothing. *)
Lemma parse_fuel fuel l : (2 * length l + 2 <= fuel)%nat -> parse_value fuel 0 l = parse_value (2 * length l + 2) 0 l.
Proof. intros H. apply (proj1 (fuel_enough fuel)); lia. Qed.

End Fuel.

(** ** UTF-8 *)

Fixpoint valid_utf8 (fuel : nat) (l : list Z) : bool :=
  match l, fuel with
  | [], _ => true
  | _, O => false
  | _, S fuel => let '(r, n) := decode_rune l in negb ((r =? runeError) && (n =? 1)%nat) && valid_utf8 fuel (drop n l)
  end.
Definition valid (l : list Z) : Prop := valid_utf8 (length l) l = true /\ Forall is_byte l.

Ltac rune_arith := unfold in_range, cont, runeError in *; rewrite ?andb_true_iff, ?orb_true_iff, ?Z.leb_le, ?Z.ltb_lt in *; Z.to_euclidean_division_equations; lia.

(** Settles the tests of [encode_rune] by arithmetic. *)
Ltac rune_tests :=
  repeat match goal with
  | |- context [if ?b then _ else _] =>
      first [ replace b with true by (symmetry; rune_arith)
            | replace b with false by (symmetry; apply not_true_is_false; intros ?; rune_arith) ]; cbn iota
  end.

Lemma encode_2 a b : in_range 194 223 a = true -> cont b = true -> encode_rune ((a mod 32) * 64 + b mod 64) = [a; b].
Proof. intros Ha Hb. unfold encode_rune. cbn zeta. rune_tests. f_equal; [rune_arith|f_equal; rune_arith]. Qed.

Lemma encode_3 a b c : in_range 224 239 a = true -> in_range (if a =? 224 then 160 else 128) (if a =? 237 then 159 else 191) b = true -> cont c = true ->
  encode_rune ((a mod 16) * 4096 + (b mod 64) * 64 + c mod 64) = [a; b; c].
Proof.
  intros Ha Hb Hc. assert (Hb' : 128 <= b <= 191 /\ (a = 224 -> 160 <= b) /\ (a = 237 -> b <= 159)).
  { destruct (Z.eqb_spec a 224), (Z.eqb_spec a 237); rune_arith. }
  clear Hb. unfold encode_rune. cbn zeta. rune_tests. repeat (f_equal; [rune_arith|]). f_equal. rune_arith.
Qed.

Lemma encode_4 a b c d : in_range 240 244 a = true -> in_range (if a =? 240 then 144 else 128) (if a =? 244 then 143 else 191) b = true ->
  cont c = true -> cont d = true ->
  encode_rune ((a mod 8) * 262144 + (b mod 64) * 4096 + (c mod 64) * 64 + d mod 64) = [a; b; c; d].
Proof.
  intros Ha Hb Hc Hd. assert (Hb' : 128 <= b <= 191 /\ (a = 240 -> 144 <= b) /\ (a = 244 -> b <= 143)).
  { destruct (Z.eqb_spec a 240), (Z.eqb_spec a 244); rune_arith. }
  clear Hb. unfold encode_rune. cbn zeta. rune_tests. repeat (f_equal; [rune_arith|]). f_equal. rune_arith.
Qed.

(** A valid rune at the front of a text is decided by its own bytes, is at least 128
    when it is not one byte, and is encoded by them. *)
Lemma decode_rune_spec a l r n : 128 <= a -> decode_rune (a :: l) = (r, n) -> (r =? runeError) && (n =? 1)%nat = false ->
  exists s l', a :: l = s ++ l' /\ n = length s /\ (forall l'', decode_rune (s ++ l'') = (r, n)) /\ encode_rune r = s.
Proof.
  intros Ha. unfold decode_rune. replace (a <? 128) with false by (symmetry; apply Z.ltb_ge; lia).
  assert (Herr : forall X : Prop, (runeError, 1%nat) = (r, n) -> (r =? runeError) && (n =? 1)%nat = false -> X) by (intros X [= <- <-]; done).
  destruct l as [|b l]; [by apply Herr|]. destruct (in_range 194 223 a) eqn:E2.
  { destruct (cont b) eqn:Eb; [|by apply Herr]. intros [= <- <-] _. exists [a; b], l. split; [done|]. split; [done|]. split; [|by apply encode_2].
    intros l''. cbn. replace (a <? 128) with false by (symmetry; apply Z.ltb_ge; lia). by rewrite E2, Eb. }
  destruct l as [|c l]; [by apply Herr|]. destruct (in_range 224 239 a) eqn:E3; cbn zeta.
  { destruct (in_range (if a =? 224 then 160 else 128) (if a =? 237 then 159 else 191) b) eqn:Eb; [|by apply Herr].
    destruct (cont c) eqn:Ec; [|by apply Herr]. cbn [andb]. intros [= <- <-] _. exists [a; b; c], l. split; [done|]. split; [done|].
    split; [|by apply encode_3]. intros l''. cbn. replace (a <? 128) with false by (symmetry; apply Z.ltb_ge; lia). by rewrite E2, E3, Eb, Ec. }
  destruct l as [|d l]; [by apply Herr|]. destruct (in_range 240 244 a) eqn:E4; [|by apply Herr].
  destruct (in_range (if a =? 240 then 144 else 128) (if a =? 244 then 143 else 191) b) eqn:Eb; [|by apply Herr].
  destruct (cont c) eqn:Ec; [|by apply Herr]. destruct (cont d) eqn:Ed; [|by apply Herr]. cbn [andb]. intros [= <- <-] _.
  exists [a; b; c; d], l. split; [done|]. split; [done|]. split; [|by apply encode_4].
  intros l''. cbn. replace (a <? 128) with false by (symmetry; apply Z.ltb_ge; lia). by rewrite E2, E3, E4, Eb, Ec, Ed.
Qed.

(** ** Strings of JSON *)

Lemma hex_val_digit v : 0 <= v < 16 -> hex_val (hexdigit v) = Some v.
Proof.
  intros Hv. assert (H : forallb (fun v => bool_decide (hex_val (hexdigit v) = Some v)) (seqZ 0 16) = true) by (vm_compute; reflexivity).
  rewrite forallb_forall in H. apply (bool_decide_unpack (hex_val (hexdigit v) = Some v)), Is_true_true_2, H.
  apply list_elem_of_In, elem_of_seqZ. lia.
Qed.

(** What one escaped byte contributes. *)
Lemma parse_escaped fuel b l s rest : 0 <= b < 128 -> parse_str fuel l = Some (s, rest) -> parse_str (S fuel) (escape_byte b ++ l) = Some (b :: s, rest).
Proof.
  intros Hb Hp. unfold escape_byte. destruct (Z.eqb_spec b 92) as [->|N1]; [cbn; by rewrite Hp|].
  destruct (Z.eqb_spec b 34) as [->|N2]; [cbn; by rewrite Hp|]. cbn [orb].
  destruct (Z.eqb_spec b 8) as [->|_]; [cbn; by rewrite Hp|]. destruct (Z.eqb_spec b 12) as [->|_]; [cbn; by rewrite Hp|].
  destruct (Z.eqb_spec b 10) as [->|_]; [cbn; by rewrite Hp|]. destruct (Z.eqb_spec b 13) as [->|_]; [cbn; by rewrite Hp|].
  destruct (Z.eqb_spec b 9) as [->|_]; [cbn; by rewrite Hp|]. destruct ((b <? 32) || (b =? 60) || (b =? 62) || (b =? 38)) eqn:E.
  - change ([92; 117; 48; 48; hexdigit (b / 16); hexdigit (b mod 16)] ++ l) with (92 :: 117 :: 48 :: 48 :: hexdigit (b / 16) :: hexdigit (b mod 16) :: l).
    cbn [parse_str]. change (92 =? 34) with false. change (92 =? 92) with true. change (117 =? 117) with true. cbn iota.
    replace (unicode_escape _) with (Some (b, l)).
    + cbn. rewrite Hp. cbn. unfold encode_rune. cbn zeta. rune_tests. done.
    + unfold unicode_escape, hex4. cbn [hex_value]. change (hex_val 48) with (Some 0). cbn [mbind option_bind].
      rewrite !hex_val_digit by (Z.to_euclidean_division_equations; lia). cbn [mbind option_bind].
      replace ((((0 * 16 + 0) * 16 + 0) * 16 + b / 16) * 16 + b mod 16) with b by (Z.to_euclidean_division_equations; lia).
      by replace (in_range 55296 57343 b) with false by (symmetry; apply not_true_is_false; intros ?; rune_arith).
  - cbn [app parse_str]. rewrite (proj2 (Z.eqb_neq b 34) N2), (proj2 (Z.eqb_neq b 92) N1).
    apply orb_false_iff in E as [[[E _]%orb_false_iff _]%orb_false_iff _]. rewrite E. rewrite (proj2 (Z.ltb_lt b 128)) by lia. by rewrite Hp.
Qed.

(** The separators of lines are escaped as well. *)
Lemma parse_separator fuel r l s rest : r = 8232 \/ r = 8233 -> parse_str fuel l = Some (s, rest) ->
  parse_str (S fuel) ([92; 117; 50; 48; 50; hexdigit (r mod 16)] ++ l) = Some (encode_rune r ++ s, rest).
Proof.
  intros Hr Hp. assert (E : unicode_escape (50 :: 48 :: 50 :: hexdigit (r mod 16) :: l) = Some (r, l)) by (destruct Hr as [->| ->]; reflexivity).
  cbn [app parse_str]. change (92 =? 34) with false. change (92 =? 92) with true. change (117 =? 117) with true. cbn iota. rewrite E. cbn [mbind option_bind].
  by rewrite Hp.
Qed.

Lemma parse_raw fuel a l0 l s rest r n : 128 <= a -> decode_rune (a :: l0) = (r, n) -> drop n (a :: l0) = l ->
  parse_str fuel l = Some (s, rest) -> parse_str (S fuel) (a :: l0) = Some (encode_rune r ++ s, rest).
Proof.
  intros Ha Hd Hl Hp. cbn [parse_str]. rewrite (proj2 (Z.eqb_neq a 34)), (proj2 (Z.eqb_neq a 92)), (proj2 (Z.ltb_ge a 32)), (proj2 (Z.ltb_ge a 128)) by lia.
  rewrite Hd, Hl, Hp. done.
Qed.

(** The length of what [escape_str] adds never makes it shorter than the runes. *)
Lemma parse_more fuel l s rest : parse_str fuel l = Some (s, rest) -> parse_str (S fuel) l = Some (s, rest).
Proof.
  revert l s. induction fuel as [|fuel IH]; intros l s; [done|]. cbn [parse_str]. destruct l as [|c l1]; [done|].
  destruct (c =? 34); [done|]. destruct (c =? 92).
  - destruct l1 as [|e l2]; [done|]. destruct (e =? 117).
    + intros (r & l3 & H1 & (s' & rest' & H2 & [= <- <-])%bind_Some_pair)%bind_Some_pair. rewrite H1. cbn [mbind option_bind]. apply IH in H2. cbn [parse_str] in H2. by rewrite H2.
    + destruct (simple_escape e); [|done]. cbn [mbind option_bind]. intros (s' & rest' & H2 & [= <- <-])%bind_Some_pair. apply IH in H2. cbn [parse_str] in H2. by rewrite H2.
  - destruct (c <? 32); [done|]. destruct (c <? 128).
    + intros (s' & rest' & H2 & [= <- <-])%bind_Some_pair. apply IH in H2. cbn [parse_str] in H2. by rewrite H2.
    + destruct (decode_rune (c :: l1)) as [r n]. intros (s' & rest' & H2 & [= <- <-])%bind_Some_pair. apply IH in H2. cbn [parse_str] in H2. by rewrite H2.
Qed.

Lemma parse_le fuel fuel' l s rest : (fuel <= fuel')%nat -> parse_str fuel l = Some (s, rest) -> parse_str fuel' l = Some (s, rest).
Proof. induction 1; [done|]. intros H1. by apply parse_more, IHle. Qed.

Lemma escape_roundtrip f l rest : (length l <= f)%nat -> valid_utf8 f l = true -> Forall is_byte l ->
  parse_str (S (length l)) (escape_str f l ++ 34 :: rest) = Some (l, rest).
Proof.
  revert l. induction f as [|f IH]; intros l Hf Hv Hb; [destruct l; [done|cbn in Hf; lia]|].
  destruct l as [|a l]; [done|]. cbn [escape_str]. inversion_clear Hb as [|? ? Ha Hb']. cbn in Hf. cbn [valid_utf8] in Hv.
  destruct (Z.ltb_spec a 128) as [Hlt|Hge].
  - rewrite <- app_assoc. apply parse_escaped; [unfold is_byte in Ha; lia|]. apply IH; [lia| |done].
    unfold decode_rune in Hv. rewrite (proj2 (Z.ltb_lt a 128)) in Hv by lia. cbn [drop] in Hv. by apply andb_true_iff in Hv as [_ Hv].
  - destruct (decode_rune (a :: l)) as [r n] eqn:Ed. apply andb_true_iff in Hv as [Hn Hv]. apply negb_true_iff in Hn. rewrite Hn.
    destruct (decode_rune_spec a l r n Hge Ed Hn) as (s & l' & Es & En & Hloc & Henc).
    destruct s as [|a' s]; [exfalso; rewrite En in Ed; pose proof (decode_rune_width (a :: l) ltac:(done)); rewrite Ed in *; cbn in *; lia|].
    injection Es as <- ->. subst n. rewrite app_comm_cons, drop_app_length, take_app_length in *.
    assert (IHl : parse_str (S (length l')) (escape_str f l' ++ 34 :: rest) = Some (l', rest)).
    { apply IH; [rewrite length_app in Hf; lia|done|]. by apply Forall_app in Hb' as [_ ?]. }
    assert (Hle : (S (length l') <= length ((a :: s) ++ l'))%nat) by (rewrite length_app; cbn; lia).
    destruct ((r =? 8232) || (r =? 8233)) eqn:Er.
    + rewrite <- app_assoc, <- Henc. apply parse_separator; [apply orb_true_iff in Er as [?%Z.eqb_eq| ?%Z.eqb_eq]; auto|].
      rewrite Henc. by eapply parse_le.
    + rewrite <- app_assoc. replace (Some ((a :: s) ++ l', rest)) with (Some (encode_rune r ++ l', rest)) by (by rewrite Henc).
      eapply parse_raw; [done|apply (Hloc (escape_str f l' ++ 34 :: rest))| |].
      * change (a :: s ++ escape_str f l' ++ 34 :: rest) with ((a :: s) ++ escape_str f l' ++ 34 :: rest). apply drop_app_length.
      * eapply parse_le; [exact Hle|exact IHl].
Qed.

Lemma parse_str_enough f g l : (length l <= f)%nat -> (length l <= g)%nat -> parse_str f l = parse_str g l.
Proof.
  revert g l. induction f as [|f IH]; intros g l Hf Hg; [destruct l, g; done || cbn in Hf; lia|].
  destruct l as [|c l1]; [by destruct g|]. destruct g as [|g]; [cbn in Hg; lia|]. cbn in Hf, Hg. cbn [parse_str].
  destruct (c =? 34); [done|]. destruct (c =? 92).
  - destruct l1 as [|e l2]; [done|]. cbn in Hf, Hg. destruct (e =? 117).
    + destruct (unicode_escape l2) as [[r l3]|] eqn:E; [|done]. apply unicode_escape_len in E. cbn [mbind option_bind]. by rewrite (IH g) by lia.
    + by rewrite (IH g) by lia.
  - rewrite (IH g l1) by lia. pose proof (decode_rune_width (c :: l1) ltac:(done)) as Hw. destruct (decode_rune (c :: l1)) as [r n]. cbn in Hw.
    by rewrite (IH g (drop n (c :: l1))) by (rewrite length_drop; cbn; lia).
Qed.

(** Behind the opening quote a quoted string reads back. *)
Lemma quote_roundtrip s rest : valid s ->
  exists l1, quote s ++ rest = 34 :: l1 /\ parse_str (length l1) l1 = Some (s, rest).
Proof.
  intros [Hv Hb]. eexists. split; [unfold quote; cbn [app]; reflexivity|].
  rewrite <- app_assoc. cbn [app]. set (l1 := escape_str _ _ ++ _).
  rewrite (parse_str_enough _ (length l1 + S (length s))) by lia.
  eapply parse_le; [|apply escape_roundtrip; done]. lia.
Qed.

(** ** Numbers *)

Lemma itoa_shape f n tl : 0 <= n < 10 ^ Z.of_nat f -> (0 < f)%nat ->
  exists c ds, itoa_digits f n tl = c :: ds ++ tl /\ is_digit c = true /\ Forall (fun x => is_digit x = true) ds /\ (c = 48 -> n = 0 /\ ds = []).
Proof.
  revert n tl. induction f as [|f IH]; intros n tl Hn Hf; [lia|]. cbn [itoa_digits].
  pose proof (Z.mod_pos_bound n 10 ltac:(lia)) as Hm. pose proof (Z.div_mod n 10 ltac:(lia)) as Hd.
  assert (Hdig : is_digit (48 + n mod 10) = true) by (unfold is_digit; apply andb_true_intro; split; apply Z.leb_le; lia).
  destruct (Z.eqb_spec (n / 10) 0) as [E|E].
  - exists (48 + n mod 10), []. split_and!; [done|done|done|]. intros ?. split; [lia|done].
  - replace (Z.of_nat (S f)) with (Z.succ (Z.of_nat f)) in Hn by lia. rewrite Z.pow_succ_r in Hn by lia.
    destruct f as [|f]; [exfalso; apply E, Z.div_small; cbn in Hn; lia|].
    destruct (IH (n / 10) (48 + n mod 10 :: tl)) as (c & ds & He & Hc & Hds & Hz).
    { split; [apply Z.div_pos; lia|]. apply Z.div_lt_upper_bound; lia. }
    { lia. }
    exists c, (ds ++ [48 + n mod 10]). rewrite <- app_assoc. split_and!; [done|done|apply Forall_app; by repeat constructor|].
    intros H0. destruct (Hz H0). lia.
Qed.

Definition ends_value (rest : list Z) : Prop := match rest with c :: _ => c = 44 \/ c = 125 | [] => True end.

Lemma span_digits_all ds rest : Forall (fun x => is_digit x = true) ds -> ends_value rest -> span_digits (ds ++ rest) = (ds, rest).
Proof.
  intros Hd Hr. induction Hd as [|x ds Hx Hd IH]; cbn.
  - destruct rest as [|c rest]; [done|]. cbn. by destruct Hr as [->| ->].
  - by rewrite Hx, IH.
Qed.

Lemma frac_none rest : ends_value rest -> scan_frac rest = Some ([], rest) /\ scan_exp rest = Some ([], rest).
Proof. destruct rest as [|c rest]; [done|]. by intros [->| ->]. Qed.

Lemma scan_digits n rest : 0 <= n < 10 ^ 20 -> ends_value rest -> scan_int (itoa_digits 20 n [] ++ rest) = Some (itoa_digits 20 n [], rest).
Proof.
  intros Hn Hr. destruct (itoa_shape 20 n [] Hn ltac:(lia)) as (c & ds & -> & Hc & Hds & Hz). rewrite app_nil_r. cbn [app scan_int].
  destruct (Z.eqb_spec c 48) as [->|]; [by destruct (Hz eq_refl) as [_ ->]|].
  unfold some_digits. rewrite app_comm_cons, span_digits_all; [done| |done]. by constructor.
Qed.

Lemma scan_int_text z rest : -2 ^ 63 <= z < 2 ^ 63 -> ends_value rest -> scan_num (int_text z ++ rest) = Some (int_text z, rest).
Proof.
  intros Hz Hr. destruct (frac_none rest Hr) as [Hf He]. unfold int_text. destruct (Z.ltb_spec z 0).
  - cbn [app scan_num]. unfold scan_num. change (45 =? 45) with true. cbn iota. rewrite scan_digits by (lia || done).
    cbn [mbind option_bind]. rewrite Hf. cbn [mbind option_bind]. rewrite He. cbn [mbind option_bind]. by rewrite !app_nil_r.
  - pose proof (scan_digits z rest ltac:(lia) Hr) as Hs. destruct (itoa_shape 20 z [] ltac:(lia) ltac:(lia)) as (c & ds & E & Hc & _).
    unfold scan_num. rewrite E in *. cbn [app]. replace (c =? 45) with false.
    + cbn [app] in Hs. rewrite Hs. cbn [mbind option_bind]. rewrite Hf. cbn [mbind option_bind]. rewrite He. cbn [mbind option_bind]. by rewrite !app_nil_r.
    + symmetry. apply Z.eqb_neq. intros ->. done.
Qed.

(** [strconv.ParseInt] of a literal is [GoStr.atoi]. *)
Lemma atoi_int_text z : -2 ^ 63 <= z < 2 ^ 63 -> atoi (int_text z) = Some z.
Proof.
  intros Hz. assert (Hr : (-9223372036854775808 <=? z) && (z <=? 9223372036854775807) = true) by (apply andb_true_intro; split; apply Z.leb_le; lia).
  unfold int_text, atoi. destruct (Z.ltb_spec z 0).
  - change (45 =? 45) with true. cbn iota. destruct (itoa_shape 20 (- z) [] ltac:(lia) ltac:(lia)) as (c & ds & E & _). rewrite E, <- E.
    rewrite itoa_value by (cbn; lia). cbn [digits_val]. rewrite Z.opp_involutive. by rewrite Hr.
  - destruct (itoa_shape 20 z [] ltac:(lia) ltac:(lia)) as (c & ds & E & Hc & _).
    assert (c <> 45 /\ c <> 43) as [N1 N2] by (split; intros ->; done). rewrite E, (proj2 (Z.eqb_neq c 45) N1), (proj2 (Z.eqb_neq c 43) N2), <- E.
    rewrite itoa_value by (cbn; lia). cbn [digits_val]. by rewrite Hr.
Qed.

(** ** Objects *)

(** A value and how [json.Marshal] writes it. *)
Inductive prints : json -> list Z -> Prop :=
| p_str s : valid s -> prints (JStr s) (quote s)
| p_true : prints (JBool true) [116; 114; 117; 101]
| p_false : prints (JBool false) [102; 97; 108; 115; 101]
| p_int z : -2 ^ 63 <= z < 2 ^ 63 -> prints (JNum (int_text z)) (int_text z).

Lemma int_text_head z : -2 ^ 63 <= z < 2 ^ 63 -> exists c l, int_text z = c :: l /\ (c = 45 \/ is_digit c = true).
Proof.
  intros Hz. unfold int_text. destruct (Z.ltb_spec z 0); [by eexists _, _; split; [reflexivity|left]|].
  destruct (itoa_shape 20 z [] ltac:(lia) ltac:(lia)) as (c & ds & -> & Hc & _). eauto.
Qed.

Lemma prints_parse v t f d rest : prints v t -> ends_value rest -> parse_value (S f) d (t ++ rest) = Some (v, rest).
Proof.
  intros Hp Hr. destruct Hp as [s Hs| | |z Hz]; [|done|done|].
  - destruct (quote_roundtrip s rest Hs) as (l1 & -> & Hp). cbn. by rewrite Hp.
  - destruct (int_text_head z Hz) as (c & l & E & Hc). pose proof (scan_int_text z rest Hz Hr) as Hs. rewrite E in *. cbn [app parse_value] in *.
    assert (Hc' : c = 45 \/ 48 <= c <= 57) by (destruct Hc as [?|Hc]; [by left|right]; unfold is_digit in Hc; rewrite andb_true_iff, !Z.leb_le in Hc; lia).
    cbn [skip_ws]. replace (is_ws c) with false by (symmetry; unfold is_ws; rewrite !orb_false_iff, !Z.eqb_neq; lia).
    rewrite (proj2 (Z.eqb_neq c 34)), (proj2 (Z.eqb_neq c 123)), (proj2 (Z.eqb_neq c 91)), (proj2 (Z.eqb_neq c 116)), (proj2 (Z.eqb_neq c 102)), (proj2 (Z.eqb_neq c 110)) by lia.
    by rewrite Hs.
Qed.

Definition member_text (m : list Z * list Z) : list Z := quote m.1 ++ 58 :: m.2.
Definition object_text (ms : list (list Z * list Z)) : list Z :=
  123 :: match ms with [] => [] | m :: ms => member_text m ++ concat (map (fun m => 44 :: member_text m) ms) end ++ [125].

Definition member_ok (m : list Z * json) (t : list Z * list Z) : Prop := m.1 = t.1 /\ valid m.1 /\ prints m.2 t.2.

Lemma member_parse f d m t rest : member_ok m t -> ends_value rest ->
  parse_members (S (S f)) d (member_text t ++ rest) =
  match after 44 rest with
  | Some l5 => '(ms, r) ← parse_members (S f) d l5; Some (m :: ms, r)
  | None => r ← after 125 rest; Some ([m], r)
  end.
Proof.
  destruct m as [k v], t as [k' t]. intros (E & Hk & Hp) Hr. cbn in E, Hk, Hp. subst k'. unfold member_text. cbn [fst snd].
  rewrite <- app_assoc. cbn [app]. destruct (quote_roundtrip k (58 :: t ++ rest) Hk) as (l1 & -> & Hq).
  change (S (S f)) with (S (S f)) at 1. cbn [parse_members]. change (after 34 (34 :: l1)) with (Some l1). cbn [mbind option_bind]. rewrite Hq. cbn [mbind option_bind].
  change (after 58 (58 :: t ++ rest)) with (Some (t ++ rest)). cbn [mbind option_bind]. rewrite (prints_parse v t f d rest Hp Hr). done.
Qed.

Lemma members_parse f d m t ms ts rest : member_ok m t -> Forall2 member_ok ms ts -> (length ms < f)%nat ->
  parse_members (S f) d (member_text t ++ concat (map (fun m => 44 :: member_text m) ts) ++ 125 :: rest) = Some (m :: ms, rest).
Proof.
  intros Hm Hms. revert f m t Hm. induction Hms as [|m' t' ms ts Hm' Hms IH]; intros f m t Hm Hf; (destruct f as [|f]; [cbn in Hf; lia|]).
  - cbn [map concat app]. by rewrite (member_parse f d m t) by (done || by right).
  - cbn [map concat]. rewrite <- app_assoc. cbn [app]. rewrite (member_parse f d m t) by (done || by left).
    match goal with |- match after 44 (44 :: ?x) with _ => _ end = _ => change (after 44 (44 :: x)) with (Some x) end. cbn iota.
    rewrite (IH f m' t') by (done || (cbn in Hf; lia)). done.
Qed.

Lemma member_text_len t : (1 <= length (member_text t))%nat.
Proof. unfold member_text. rewrite length_app. cbn. lia. Qed.

Lemma member_texts_len ts : (length ts <= length (concat (map (fun m => 44%Z :: member_text m) ts)))%nat.
Proof. induction ts as [|x ts IH]; cbn [map concat length]; [lia|]. rewrite length_app. cbn [length]. lia. Qed.

Lemma object_parse m t ms ts : member_ok m t -> Forall2 member_ok ms ts -> parse (object_text (t :: ts)) = Some (JObj (m :: ms)).
Proof.
  intros Hm Hms. unfold parse. set (l := object_text (t :: ts)).
  assert (Hlen : (length ms < 2 * length l)%nat).
  { unfold l, object_text. cbn [length]. rewrite !length_app. rewrite (Forall2_length _ _ _ Hms).
    pose proof (member_texts_len ts). lia. }
  replace (2 * length l + 2)%nat with (S (S (2 * length l))) by lia.
  unfold l at 2. unfold object_text. cbn [parse_value skip_ws]. change (is_ws 123) with false. cbn iota.
  change (123 =? 34) with false. change (123 =? 123) with true. change (maxNestingDepth <? 0 + 1) with false. cbn iota.
  destruct m as [k v], t as [k' t]. pose proof Hm as (E & Hk & Hp). cbn in E, Hk. subst k'.
  assert (Hq : exists x, member_text (k, t) = 34 :: x) by (eexists; reflexivity). destruct Hq as [x Hx].
  rewrite <- app_assoc. rewrite Hx at 1. cbn [app].
  match goal with |- context [after 125 (34 :: ?y)] => change (after 125 (34 :: y)) with (@None (list Z)) end. cbn iota.
  pose proof (members_parse (2 * length l) 1 (k, v) (k, t) ms ts [] Hm Hms Hlen) as Hmp.
  rewrite Hx in Hmp. cbn [app] in Hmp. change (0 + 1) with 1. rewrite Hx. cbn [app]. rewrite Hmp. done.
Qed.

Lemma print_prints v t : prints v t -> print v = t.
Proof. by destruct 1. Qed.

Lemma print_object ms : print (JObj ms) = object_text (map (fun m => (m.1, print m.2)) ms).
Proof.
  destruct ms as [|m ms]; [done|]. unfold object_text. cbn [print map]. f_equal. f_equal. unfold member_text. cbn [fst snd].
  rewrite <- app_assoc. cbn [app]. f_equal. f_equal. f_equal. rewrite map_map. f_equal.
Qed.

(** What [print] writes of a flat object is read back. *)
Lemma print_parse ms : ms <> [] -> Forall (fun m => valid m.1 /\ prints m.2 (print m.2)) ms -> parse (print (JObj ms)) = Some (JObj ms).
Proof.
  intros Hne Hms. rewrite print_object. destruct ms as [|m ms]; [done|]. inversion_clear Hms as [|? ? [H1 H2] Hms'].
  cbn [map]. apply object_parse; [done|]. induction Hms' as [|m' ms' [H3 H4] _ IH]; [constructor|]. constructor; [done|]. by apply IH.
Qed.

(** ** What is written *)

Definition printable (c : Z) : Prop := 32 <= c < 256.

Lemma encode_high r : Forall (fun c => 128 <= c < 256) (encode_rune r) \/ exists c, encode_rune r = [c] /\ c < 128.
Proof.
  unfold encode_rune. set (q := if (_ || _ || _) then runeError else r). assert (Hq : 0 <= q <= 1114111).
  { unfold q. destruct ((r <? 0) || (1114111 <? r) || in_range 55296 57343 r) eqn:E; [unfold runeError; lia|].
    rewrite !orb_false_iff, !Z.ltb_ge in E. lia. }
  cbn zeta. clearbody q. destruct (Z.ltb_spec q 128); [right; by exists q|left].
  destruct (Z.ltb_spec q 2048); [|destruct (Z.ltb_spec q 65536)]; repeat (constructor; [Z.to_euclidean_division_equations; lia|]); constructor.
Qed.

Lemma decode_rune_high a l r n : 128 <= a -> decode_rune (a :: l) = (r, n) -> (r =? runeError) && (n =? 1)%nat = false ->
  Forall (fun c => 128 <= c < 256) (take n (a :: l)).
Proof.
  intros Ha Hd Hn. destruct (decode_rune_spec a l r n Ha Hd Hn) as (s & l' & Es & -> & _ & Henc). rewrite Es, take_app_length.
  destruct (encode_high r) as [H|(c & Ec & Hc)]; [by rewrite <- Henc|]. rewrite Ec in Henc. subst s. injection Es as -> _. lia.
Qed.

Lemma escape_byte_printable b : 0 <= b < 128 -> Forall printable (escape_byte b).
Proof.
  intros Hb. assert (H : forallb (fun b => bool_decide (Forall (fun c => 32 <= c < 256) (escape_byte b))) (seqZ 0 128) = true) by (vm_compute; reflexivity).
  rewrite forallb_forall in H. apply (bool_decide_unpack (Forall (fun c => 32 <= c < 256) (escape_byte b))), Is_true_true_2, H.
  apply list_elem_of_In, elem_of_seqZ. lia.
Qed.

Lemma escape_printable f l : Forall is_byte l -> Forall printable (escape_str f l).
Proof.
  revert l. induction f as [|f IH]; intros l Hl; [destruct l; constructor|]. destruct l as [|b l]; [constructor|]. cbn [escape_str].
  inversion_clear Hl as [|? ? Hb Hl']. unfold is_byte in Hb. destruct (Z.ltb_spec b 128).
  - apply Forall_app. split; [apply escape_byte_printable; lia|by apply IH].
  - destruct (decode_rune (b :: l)) as [r n] eqn:Ed. assert (Hd : Forall is_byte (drop n (b :: l))) by (apply Forall_drop; by constructor).
    destruct ((r =? runeError) && (n =? 1)%nat) eqn:Ee; [apply Forall_app; split; [repeat (constructor; [unfold printable; lia|]); constructor|by apply IH]|].
    destruct ((r =? 8232) || (r =? 8233)) eqn:Er; apply Forall_app; (split; [|by apply IH]).
    + apply orb_true_iff in Er as [->%Z.eqb_eq| ->%Z.eqb_eq]; apply (bool_decide_unpack (Forall (fun c => 32 <= c < 256) _)); vm_compute; exact I.
    + eapply Forall_impl; [by apply (decode_rune_high b l r n)|]. unfold printable. cbn. lia.
Qed.

Lemma quote_printable s : Forall is_byte s -> Forall printable (quote s).
Proof.
  intros Hs. unfold quote. constructor; [unfold printable; lia|]. apply Forall_app. split; [by apply escape_printable|].
  constructor; [unfold printable; lia|constructor].
Qed.

(** Values made of bytes, with numbers written as numbers are. *)
#[warnings="-register-all"]
Inductive clean : json -> Prop :=
| cl_null : clean JNull
| cl_bool b : clean (JBool b)
| cl_num lit : Forall printable lit -> clean (JNum lit)
| cl_str s : Forall is_byte s -> clean (JStr s)
| cl_arr l : Forall clean l -> clean (JArr l)
| cl_obj ms : Forall (fun m => Forall is_byte m.1 /\ clean m.2) ms -> clean (JObj ms).

Ltac printable_const := unfold printable; lia.

Lemma print_clean : forall v, clean v -> Forall printable (print v).
Proof.
  fix IH 2. intros v [|b|lit H|s H|l H|ms H]; cbn [print].
  - repeat (constructor; [printable_const|]). constructor.
  - destruct b; repeat (constructor; [printable_const|]); constructor.
  - exact H.
  - by apply quote_printable.
  - constructor; [printable_const|]. apply Forall_app. split; [|constructor; [printable_const|constructor]].
    destruct H as [|v0 l Hv Hl]; [constructor|]. apply Forall_app. split; [by apply IH|].
    induction Hl as [|v' l Hv' Hl IHl]; cbn; [constructor|]. constructor; [printable_const|]. apply Forall_app. split; [by apply IH|exact IHl].
  - constructor; [printable_const|]. apply Forall_app. split; [|constructor; [printable_const|constructor]].
    destruct H as [|m ms [Hk Hv] Hms]; [constructor|]. apply Forall_app. split; [by apply quote_printable|]. constructor; [printable_const|].
    apply Forall_app. split; [by apply IH|].
    induction Hms as [|m' ms [Hk' Hv'] Hms IHm]; cbn [map concat]; [constructor|]. apply Forall_app. split; [|exact IHm].
    constructor; [printable_const|]. apply Forall_app. split; [by apply quote_printable|]. constructor; [printable_const|by apply IH].
Qed.

(** ** Padded base64 *)

Lemma std_val_char v : 0 <= v < 64 -> std_val (std_char v) = Some v.
Proof.
  intros Hv. assert (H : forallb (fun v => bool_decide (std_val (std_char v) = Some v)) (seqZ 0 64) = true) by (vm_compute; reflexivity).
  rewrite forallb_forall in H. apply (bool_decide_unpack (std_val (std_char v) = Some v)), Is_true_true_2, H. apply list_elem_of_In, elem_of_seqZ. lia.
Qed.

Lemma std_char_plain v : 0 <= v < 64 -> 43 <= std_char v <= 122 /\ std_char v <> 63 /\ std_char v <> 58.
Proof.
  intros Hv. assert (H : forallb (fun v => bool_decide (43 <= std_char v <= 122 /\ std_char v <> 63 /\ std_char v <> 58)) (seqZ 0 64) = true) by (vm_compute; reflexivity).
  rewrite forallb_forall in H. apply (bool_decide_unpack (43 <= std_char v <= 122 /\ std_char v <> 63 /\ std_char v <> 58)), Is_true_true_2, H. apply list_elem_of_In, elem_of_seqZ. lia.
Qed.

(** The characters of an encoding: those of the alphabet, and padding. *)
Lemma std_encode_chars b : Forall is_byte b -> Forall (fun c => 43 <= c <= 122 /\ c <> 63 /\ c <> 58) (std_encode b).
Proof.
  unfold std_encode. induction b as [|x|x y|x y z b IH] using list_ind3; intros Hb; cbn [pad_encode]; [constructor|..].
  - pose proof (b64_vals_range [x] Hb) as Hr. cbn in Hr. rewrite !Forall_cons in Hr. destruct Hr as (? & ? & _).
    repeat (constructor; [by apply std_char_plain || lia|]). constructor.
  - pose proof (b64_vals_range [x; y] Hb) as Hr. cbn in Hr. rewrite !Forall_cons in Hr. destruct Hr as (? & ? & ? & _).
    repeat (constructor; [by apply std_char_plain || lia|]). constructor.
  - assert (Hb3 : Forall is_byte [x; y; z] /\ Forall is_byte b) by (rewrite !Forall_cons in *; naive_solver). destruct Hb3 as [Hb3 Hb4].
    pose proof (b64_vals_range [x; y; z] Hb3) as Hr. cbn in Hr. rewrite !Forall_cons in Hr. destruct Hr as (? & ? & ? & ? & _).
    repeat (constructor; [by apply std_char_plain|]). by apply IH.
Qed.

Lemma std_quanta_encode b : Forall is_byte b -> pad_quanta std_val (std_encode b) = Some b.
Proof.
  unfold std_encode. induction b as [|x|x y|x y z b IH] using list_ind3; intros Hb; cbn [pad_encode pad_quanta]; [done|..].
  - pose proof (b64_vals_range [x] Hb) as Hr. pose proof (b64_quanta_vals [x] Hb) as Hq. cbn in Hr. rewrite !Forall_cons in Hr. destruct Hr as (? & ? & _).
    rewrite !std_val_char by done. exact Hq.
  - pose proof (b64_vals_range [x; y] Hb) as Hr. pose proof (b64_quanta_vals [x; y] Hb) as Hq. cbn in Hr. rewrite !Forall_cons in Hr. destruct Hr as (? & ? & ? & _).
    rewrite !std_val_char by done. exact Hq.
  - assert (Hb3 : Forall is_byte [x; y; z] /\ Forall is_byte b) by (rewrite !Forall_cons in *; naive_solver). destruct Hb3 as [Hb3 Hb4].
    pose proof (b64_vals_range [x; y; z] Hb3) as Hr. pose proof (b64_quanta_vals [x; y; z] Hb3) as Hq. cbn in Hr. rewrite !Forall_cons in Hr.
    destruct Hr as (? & ? & ? & ? & _). rewrite !std_val_char by done. cbn [mbind option_bind]. rewrite IH by done. cbn [mbind option_bind].
    cbn [b64_vals Auth.b64_quanta mbind option_bind] in Hq. injection Hq as E1 E2 E3. by rewrite E1, E2, E3.
Qed.

Lemma filter_plain l : Forall (fun c => 43 <= c <= 122 /\ c <> 63 /\ c <> 58) l -> filter Auth.not_newline l = l.
Proof. induction 1 as [|c l [Hc _] _ IH]; [done|]. rewrite filter_cons, decide_True by (unfold Auth.not_newline; lia). by rewrite IH. Qed.

Lemma std_roundtrip b : Forall is_byte b -> std_decode (std_encode b) = Some b.
Proof.
  intros Hb. unfold std_decode, pad_decode. rewrite filter_plain by (by apply std_encode_chars). by apply std_quanta_encode.
Qed.
