(* ===== verification/ConnKey.v ===== *)
(** Connection keys: the keys of src/core/config/keyparser.go as the client reads
    them, what client_config.go and src/app/client/config.go make of them, and how
    src/core/apiserver issues them (cli.go) and hands them out in subscriptions
    (subscription.go, key_store.go).

    Keys travel as base64 of JSON, with the functions of [GoJson].  A struct is
    decoded field by field: the members whose name is the field's, or folds to it
    when no field has the very name, are taken in turn.  Values inside
    transport_config stay JSON; numbers too large for a float64 are not told apart
    there.  [url.Parse] is the operation of the class [UrlParse]; the query of a URL
    is decoded here. *)

From S2P Require Import Prelude GoStr NetIP Auth GoJson.
Import GoJson.

Module ConnKey.

(** ** The key and its JSON *)

Record ConnectionKey := mkKey {
  Version : Z;
  Name : string;
  KeyID : string;
  ExpiresAt : Z;
  Server : string;
  ServerTCP : string;
  ServerWS : string;
  PSK : string;
  ServerPub : string;
  ObfsPreset : string;
  Transport : string;
  ObfsProfile : string;
  EnableASNBypass : bool;
  DropECH : bool;
  TLSFingerprint : string;
  DomainFrontHost : string;
  RussianService : string;
  WhisperaAddr : string;
  WhisperaSNI : string;
  WhisperaQUICAddr : string;
  WhisperaCertPin : string;
  WhisperaIDPub : string;
  WhisperaSelPub : string;
  WhisperaFPRaw : string;
  ChameleonAddr : string;
  GRPCAddr : string;
  GRPCServerName : string;
  GRPCUseTLS : bool;
  YaDiskOAuthToken : string;
  YaDiskSessionID : string;
  TransportConfig : option (gmap string json);
  SubscriptionURL : string
}.

(** The names of the fields in JSON, in the order of the struct. *)
Definition names : list string :=
  ["v"; "name"; "kid"; "exp"; "server"; "server_tcp"; "server_ws"; "psk"; "pub"; "obfs"; "transport"; "obfs_profile";
    "asn_bypass"; "drop_ech"; "tls_fingerprint"; "front_host"; "russian_service"; "whispera_addr"; "whispera_sni";
    "whispera_quic_addr"; "whispera_pin"; "whispera_idpub"; "whispera_selpub"; "tls_fp_raw"; "chameleon_addr"; "grpc_addr";
    "grpc_server_name"; "grpc_use_tls"; "yadisk_oauth_token"; "yadisk_session_id"; "transport_config"; "sub_url"].

Definition bytes : string -> list Z := bytes_of_string.

(** Which members of an object belong to a field. *)
Definition matches (k : list Z) (name : string) : bool :=
  bool_decide (k = bytes name)
  || (negb (existsb (fun n => bool_decide (bytes n = k)) names) && bool_decide (foldName k = foldName (bytes name))).

Definition field {A} (dec : json -> A -> option A) (zero : A) (name : string) (ms : list (list Z * json)) : option A :=
  foldl (fun acc m => a ← acc; if matches m.1 name then dec m.2 a else Some a) (Some zero) ms.

(** A null leaves the field alone, a value of another type is an error. *)
Definition dec_str (v : json) (old : string) : option string :=
  match v with JStr s => Some (string_of_bytes s) | JNull => Some old | _ => None end.
Definition dec_bool (v : json) (old : bool) : option bool :=
  match v with JBool b => Some b | JNull => Some old | _ => None end.
Definition dec_int (v : json) (old : Z) : option Z :=
  match v with JNum lit => atoi lit | JNull => Some old | _ => None end.
Definition dec_map (v : json) (old : option (gmap string json)) : option (option (gmap string json)) :=
  match v with
  | JObj ms => Some (Some (foldl (fun m kv => <[string_of_bytes kv.1 := kv.2]> m) (default ∅ old) ms))
  | JNull => Some None
  | _ => None
  end.

(** [json.Unmarshal] of an object into a key. *)
Definition decode_key (ms : list (list Z * json)) : option ConnectionKey :=
  version_ ← field dec_int 0 "v" ms;
  name_ ← field dec_str "" "name" ms;
  keyid_ ← field dec_str "" "kid" ms;
  expiresat_ ← field dec_int 0 "exp" ms;
  server_ ← field dec_str "" "server" ms;
  servertcp_ ← field dec_str "" "server_tcp" ms;
  serverws_ ← field dec_str "" "server_ws" ms;
  psk_ ← field dec_str "" "psk" ms;
  serverpub_ ← field dec_str "" "pub" ms;
  obfspreset_ ← field dec_str "" "obfs" ms;
  transport_ ← field dec_str "" "transport" ms;
  obfsprofile_ ← field dec_str "" "obfs_profile" ms;
  enableasnbypass_ ← field dec_bool false "asn_bypass" ms;
  dropech_ ← field dec_bool false "drop_ech" ms;
  tlsfingerprint_ ← field dec_str "" "tls_fingerprint" ms;
  domainfronthost_ ← field dec_str "" "front_host" ms;
  russianservice_ ← field dec_str "" "russian_service" ms;
  whisperaaddr_ ← field dec_str "" "whispera_addr" ms;
  whisperasni_ ← field dec_str "" "whispera_sni" ms;
  whisperaquicaddr_ ← field dec_str "" "whispera_quic_addr" ms;
  whisperacertpin_ ← field dec_str "" "whispera_pin" ms;
  whisperaidpub_ ← field dec_str "" "whispera_idpub" ms;
  whisperaselpub_ ← field dec_str "" "whispera_selpub" ms;
  whisperafpraw_ ← field dec_str "" "tls_fp_raw" ms;
  chameleonaddr_ ← field dec_str "" "chameleon_addr" ms;
  grpcaddr_ ← field dec_str "" "grpc_addr" ms;
  grpcservername_ ← field dec_str "" "grpc_server_name" ms;
  grpcusetls_ ← field dec_bool false "grpc_use_tls" ms;
  yadiskoauthtoken_ ← field dec_str "" "yadisk_oauth_token" ms;
  yadisksessionid_ ← field dec_str "" "yadisk_session_id" ms;
  transportconfig_ ← field dec_map None "transport_config" ms;
  subscriptionurl_ ← field dec_str "" "sub_url" ms;
  Some (
    mkKey version_ name_ keyid_ expiresat_ server_ servertcp_ serverws_ psk_ serverpub_ obfspreset_ transport_ obfsprofile_
      enableasnbypass_ dropech_ tlsfingerprint_ domainfronthost_ russianservice_ whisperaaddr_ whisperasni_ whisperaquicaddr_
      whisperacertpin_ whisperaidpub_ whisperaselpub_ whisperafpraw_ chameleonaddr_ grpcaddr_ grpcservername_ grpcusetls_
      yadiskoauthtoken_ yadisksessionid_ transportconfig_ subscriptionurl_).

Definition zero_key : ConnectionKey :=
  mkKey 0 "" "" 0 "" "" "" "" "" "" "" "" false false "" "" "" "" "" "" "" "" "" "" "" "" "" false "" "" None "".

Definition Unmarshal (data : list Z) : option ConnectionKey :=
  match parse data with
  | Some (JObj ms) => decode_key ms
  | Some JNull => Some zero_key
  | _ => None
  end.

Definition str_keep (s : string) : option json := Some (JStr (bytes s)).
Definition str_omit (s : string) : option json := if bool_decide (s = "") then None else str_keep s.
Definition bool_keep (b : bool) : option json := Some (JBool b).
Definition bool_omit (b : bool) : option json := if b then Some (JBool true) else None.
Definition int_keep (z : Z) : option json := Some (JNum (int_text z)).
Definition int_omit (z : Z) : option json := if z =? 0 then None else int_keep z.

(** What [json.Marshal] writes of a key without a transport_config, as all that are
    issued. *)
Definition encode_key (ck : ConnectionKey) : list (string * option json) :=
  [("v", int_keep (Version ck));
   ("name", str_omit (Name ck));
   ("kid", str_omit (KeyID ck));
   ("exp", int_omit (ExpiresAt ck));
   ("server", str_keep (Server ck));
   ("server_tcp", str_omit (ServerTCP ck));
   ("server_ws", str_omit (ServerWS ck));
   ("psk", str_keep (PSK ck));
   ("pub", str_keep (ServerPub ck));
   ("obfs", str_keep (ObfsPreset ck));
   ("transport", str_keep (Transport ck));
   ("obfs_profile", str_omit (ObfsProfile ck));
   ("asn_bypass", bool_keep (EnableASNBypass ck));
   ("drop_ech", bool_omit (DropECH ck));
   ("tls_fingerprint", str_omit (TLSFingerprint ck));
   ("front_host", str_omit (DomainFrontHost ck));
   ("russian_service", str_omit (RussianService ck));
   ("whispera_addr", str_omit (WhisperaAddr ck));
   ("whispera_sni", str_omit (WhisperaSNI ck));
   ("whispera_quic_addr", str_omit (WhisperaQUICAddr ck));
   ("whispera_pin", str_omit (WhisperaCertPin ck));
   ("whispera_idpub", str_omit (WhisperaIDPub ck));
   ("whispera_selpub", str_omit (WhisperaSelPub ck));
   ("tls_fp_raw", str_omit (WhisperaFPRaw ck));
   ("chameleon_addr", str_omit (ChameleonAddr ck));
   ("grpc_addr", str_omit (GRPCAddr ck));
   ("grpc_server_name", str_omit (GRPCServerName ck));
   ("grpc_use_tls", bool_omit (GRPCUseTLS ck));
   ("yadisk_oauth_token", str_omit (YaDiskOAuthToken ck));
   ("yadisk_session_id", str_omit (YaDiskSessionID ck));
   ("sub_url", str_omit (SubscriptionURL ck))].

Definition present (l : list (string * option json)) : list (list Z * json) :=
  omap (fun m => match m.2 with Some v => Some (bytes m.1, v) | None => None end) l.
Definition members (ck : ConnectionKey) : list (list Z * json) := present (encode_key ck).
Definition Marshal (ck : ConnectionKey) : list Z := print (JObj (members ck)).

(** ** keyparser.go *)

Definition IsExpired (now : Z) (ck : ConnectionKey) : bool := (0 <? ExpiresAt ck) && (ExpiresAt ck <? now).

Definition foreignSchemes : list string := ["vless://"; "vmess://"; "trojan://"; "ss://"; "ssr://"; "hysteria2://"; "tuic://"].
Definition isForeignScheme (key : string) : bool := existsb (HasPrefix key) foreignSchemes.

Definition first_of (a b : string) : string := if bool_decide (a = "") then b else a.

Definition applyConnKeyDefaults (ck : ConnectionKey) : ConnectionKey :=
  mkKey (if Version ck =? 0 then 1 else Version ck) (Name ck) (KeyID ck) (ExpiresAt ck) (Server ck) (ServerTCP ck) (ServerWS ck)
    (PSK ck) (ServerPub ck) (first_of (ObfsPreset ck) "default") (first_of (Transport ck) "auto") (ObfsProfile ck)
    (EnableASNBypass ck) (DropECH ck) (TLSFingerprint ck) (DomainFrontHost ck) (RussianService ck) (WhisperaAddr ck)
    (WhisperaSNI ck) (WhisperaQUICAddr ck) (WhisperaCertPin ck) (WhisperaIDPub ck) (WhisperaSelPub ck) (WhisperaFPRaw ck)
    (ChameleonAddr ck) (GRPCAddr ck) (GRPCServerName ck) (GRPCUseTLS ck) (YaDiskOAuthToken ck) (YaDiskSessionID ck)
    (TransportConfig ck) (SubscriptionURL ck).

Definition hasServerAddr (ck : ConnectionKey) : bool := negb (bool_decide (Server ck = "")) || negb (bool_decide (ServerTCP ck = "")).

Inductive key_error := ForeignKey | BadURL | Expired | NoServer | BadEncoding | BadFormat.

(** Host and raw query of a URL, if it is one. *)
Class UrlParse := { url_parse : string -> option (string * string) }.

(** [url.QueryUnescape]. *)
Fixpoint unescape (l : list Z) : option (list Z) :=
  match l with
  | [] => Some []
  | c :: l1 =>
      if c =? 37 then
        match l1 with
        | a :: b :: l2 => x ← hex_val a; y ← hex_val b; r ← unescape l2; Some (x * 16 + y :: r)
        | _ => None
        end
      else r ← unescape l1; Some ((if c =? 43 then 32 else c) :: r)
  end.

(** [strings.Cut] at a byte. *)
Definition cut (sep : Z) (l : list Z) : list Z * list Z :=
  let i := index_byte sep l in if i <? 0 then (l, []) else (ztake i l, zdrop (i + 1) l).

Definition query_pair (part : list Z) : option (list Z * list Z) :=
  if bool_decide (59 ∈ part) || bool_decide (part = []) then None
  else let '(k, v) := cut 61 part in k ← unescape k; v ← unescape v; Some (k, v).

(** [u.Query().Get]: the first value of the name. *)
Definition query_get (q name : string) : string :=
  match list_find (fun kv => kv.1 = bytes name) (omap query_pair (split_all 38 (bytes q))) with
  | Some (_, kv) => string_of_bytes kv.2
  | None => ""
  end.

(** [fmt.Sscanf(val, "%d", &exp)] into a variable that is 0. *)
Definition scan_exp (val : list Z) : Z :=
  let l := strip_all (length val) (List.filter (fun s => negb (bool_decide (s = [10]))) space_runes) val in
  let '(sg, l) := match l with c :: l' => if (c =? 43) || (c =? 45) then ([c], l') else ([], l) | [] => ([], []) end in
  let '(ds, _) := span_digits l in
  if bool_decide (ds = []) then 0 else default 0 (atoi (sg ++ ds)).

Definition decodeJSONHostKey (host : string) : option ConnectionKey :=
  if bool_decide (host = "") then None else data ← std_decode (bytes host); Unmarshal data.

(** The transport_config of a query key; a bad one is dropped. *)
Definition query_cfg (val : string) : option (gmap string json) :=
  if bool_decide (val = "") then None
  else match data ← Auth.b64_decode (bytes val); v ← parse data; dec_map v None with Some m => m | None => None end.

Definition query_key (host q : string) (tc : option (gmap string json)) : ConnectionKey :=
  let get := query_get q in
  let exp := if bool_decide (get "exp" = "") then 0 else scan_exp (bytes (get "exp")) in
  mkKey 1 (get "name") (get "kid") exp host "" "" (first_of (get "psk") (get "key")) (get "pub")
    (first_of (get "obfs") "default") (first_of (get "transport") "auto") (first_of (get "profile") "vk")
    (bool_decide (get "asn" = "1") || bool_decide (get "asn_bypass" = "1")) false (get "tls") (get "front")
    (first_of (get "russian") (get "rs")) "" "" "" (get "pin") "" "" "" "" "" "" false "" "" tc "".

Definition parseWhisperaQueryKey (now : Z) (host q : string) : key_error + ConnectionKey :=
  let ck := query_key host q (query_cfg (query_get q "cfg")) in
  if IsExpired now ck then inl Expired else if negb (hasServerAddr ck) then inl NoServer else inr ck.

Definition parseWhisperaURLKey (now : Z) (host q : string) : key_error + ConnectionKey :=
  match decodeJSONHostKey host with
  | Some ck =>
      if IsExpired now ck then inl Expired
      else let ck := applyConnKeyDefaults ck in if negb (hasServerAddr ck) then inl NoServer else inr ck
  | None => parseWhisperaQueryKey now host q
  end.

Definition decode_any (l : list Z) : option (list Z) :=
  match std_decode l with
  | Some d => Some d
  | None => match url_decode l with Some d => Some d | None => Auth.b64_decode l end
  end.

Definition parseBase64ConnKey (now : Z) (key : string) : key_error + ConnectionKey :=
  match decode_any (bytes key) with
  | None => inl BadEncoding
  | Some data =>
      match Unmarshal data with
      | None => inl BadFormat
      | Some ck =>
          if IsExpired now ck then inl Expired else if negb (hasServerAddr ck) then inl NoServer else inr (applyConnKeyDefaults ck)
      end
  end.

Definition ParseConnectionKey `{UrlParse} (now : Z) (key : string) : key_error + ConnectionKey :=
  let key := TrimSpace key in
  if isForeignScheme key then inl ForeignKey
  else if HasPrefix key "whispera://" && Contains key "?" then
    match url_parse key with
    | None => inl BadURL
    | Some (host, q) => parseWhisperaURLKey now host q
    end
  else parseBase64ConnKey now (TrimPrefix (TrimPrefix key "whispera://") "wpn://").

(** The fields of client_config.go that a key sets; the last are those of the ASN
    bypass. *)
Record ClientConfig := mkClientConfig {
  c_Server : string;
  c_ServerTCP : string;
  c_ServerWS : string;
  c_PSK : string;
  c_ServerPub : string;
  c_ObfsPreset : string;
  c_RussianService : string;
  c_TransportConfig : option (gmap string json);
  c_Transport : string;
  c_WhisperaAddr : string;
  c_WhisperaSNI : string;
  c_DropECH : bool;
  c_WhisperaQUICAddr : string;
  c_WhisperaCertPin : string;
  c_WhisperaIDPub : string;
  c_WhisperaSelPub : string;
  c_WhisperaFPRaw : string;
  c_GRPCAddr : string;
  c_GRPCServerName : string;
  c_GRPCUseTLS : bool;
  c_YaDiskOAuthToken : string;
  c_YaDiskSessionID : string;
  c_UDPOnly : bool;
  c_ASNBypass : option (bool * string * string)
}.

Definition ToClientConfig (ck : ConnectionKey) : ClientConfig :=
  mkClientConfig (Server ck) (ServerTCP ck) (ServerWS ck) (PSK ck) (ServerPub ck) (ObfsPreset ck) (RussianService ck)
    (TransportConfig ck) (Transport ck) (first_of (WhisperaAddr ck) (ChameleonAddr ck)) (WhisperaSNI ck) (DropECH ck)
    (WhisperaQUICAddr ck) (WhisperaCertPin ck) (WhisperaIDPub ck) (WhisperaSelPub ck) (WhisperaFPRaw ck) (GRPCAddr ck)
    (GRPCServerName ck) (GRPCUseTLS ck) (YaDiskOAuthToken ck) (YaDiskSessionID ck) (bool_decide (Transport ck = "udp"))
    (if EnableASNBypass ck then Some (true, TLSFingerprint ck, DomainFrontHost ck) else None).

(** [transportRegistry] and [GetPrimaryServer]. *)
Definition GetPrimaryServer (ck : ConnectionKey) : string :=
  if bool_decide (Transport ck = "tcp") then first_of (ServerTCP ck) (Server ck)
  else if bool_decide (Transport ck = "udp") then Server ck
  else if bool_decide (Transport ck = "ws") then first_of (ServerWS ck) (ServerTCP ck)
  else first_of (Server ck) (ServerTCP ck).

Definition parseKeyList `{UrlParse} (now : Z) (lines : list string) : option (list ConnectionKey) :=
  let out := omap (fun line =>
    let line := TrimSpace line in
    if bool_decide (line = "") || HasPrefix line "#" then None
    else match ParseConnectionKey now line with
         | inl _ => None
         | inr ck => if IsExpired now ck then None else Some ck
         end) lines in
  if bool_decide (out = []) then None else Some out.

(** [json.Unmarshal] into a slice of strings; null is the zero value. *)
Definition string_array (data : list Z) : option (list string) :=
  match parse data with
  | Some (JArr vs) => mapM (fun v => dec_str v "") vs
  | Some JNull => Some []
  | _ => None
  end.

(** [FetchSubscription] on the text that was fetched. *)
Definition read_subscription `{UrlParse} (now : Z) (resp : string) : option (list ConnectionKey) :=
  let body := TrimSpace resp in
  match string_array (bytes body) with
  | Some arr => parseKeyList now arr
  | None =>
      let body := match std_decode (bytes body) with
                  | Some d => TrimSpace (string_of_bytes d)
                  | None => match url_decode (bytes body) with Some d => TrimSpace (string_of_bytes d) | None => body end
                  end in
      parseKeyList now (map string_of_bytes (split_all 10 (bytes body)))
  end.

(** ** src/app/client/config.go and setup.go *)

Definition pickServerAddress (cfg : ClientConfig) (transport : string) : string :=
  let fallback := first_of (c_Server cfg) (c_ServerTCP cfg) in
  if bool_decide (transport = "tcp") || bool_decide (transport = "tls") then first_of (c_ServerTCP cfg) fallback
  else if bool_decide (transport = "ws") || bool_decide (transport = "websocket")
       then first_of (c_ServerWS cfg) (first_of (c_ServerTCP cfg) fallback)
  else fallback.

Definition resolveServerAddress (cfg : ClientConfig) (resolvedTransport : string) : string :=
  first_of (pickServerAddress cfg resolvedTransport) (c_Server cfg).

(** Before the shuffle. *)
Definition resolveTransportList (flag : string) (cfg : ClientConfig) : list string :=
  let ts := List.filter (fun t => negb (bool_decide (t = "")))
              (map (fun t => TrimSpace (string_of_bytes t)) (split_all 44 (bytes (first_of (c_Transport cfg) flag)))) in
  if bool_decide (ts = []) then ["tcp"] else ts.

Definition resolveKeys (cfg : ClientConfig) : option (list Z) * option (list Z) :=
  if bool_decide (c_PSK cfg = "") then (None, None)
  else match std_decode (bytes (c_PSK cfg)) with
       | Some psk => if zlen psk =? 32 then (if bool_decide (c_WhisperaAddr cfg = "") then None else Some psk, Some psk) else (None, None)
       | None => (None, None)
       end.

(** The check of [loadClientConfig] that the addresses have a port. *)
Definition addresses_ok (cfg : ClientConfig) : bool :=
  negb (bool_decide (c_Server cfg = "") && bool_decide (c_ServerTCP cfg = ""))
  && forallb (fun a => bool_decide (a = "") || bool_decide (is_Some (SplitHostPort a))) [c_Server cfg; c_ServerTCP cfg].

(** ** Issuing keys, src/core/apiserver/cli.go *)

Record WhisperaKeyOptions := mkWhispera {
  o_Addr : string; o_SNI : string; o_QUICAddr : string; o_CertPin : string; o_IDPub : string; o_SelPub : string;
  o_Fingerprint : string; o_FPRaw : string; o_DropECH : bool
}.
Record AltTransportKeyOptions := mkAlt {
  a_GRPCAddr : string; a_GRPCServerName : string; a_GRPCUseTLS : bool; a_YaDiskOAuthToken : string; a_YaDiskSessionID : string
}.

Definition fingerprintOrDefault (fp : string) : string := first_of fp "chrome".

(** The key of [CLIBuildConnectionKey] for a user with the private key [psk]. *)
Definition issued_key (kid serverAddr psk serverPub transport : string) (w : WhisperaKeyOptions) (alt : AltTransportKeyOptions) : ConnectionKey :=
  mkKey 2 "" kid 0 serverAddr "" "" psk serverPub "default" transport "" true (o_DropECH w)
    (fingerprintOrDefault (o_Fingerprint w)) "" "" (o_Addr w) (o_SNI w) (o_QUICAddr w) (o_CertPin w) (o_IDPub w) (o_SelPub w)
    (o_FPRaw w) "" (a_GRPCAddr alt) (a_GRPCServerName alt) (a_GRPCUseTLS alt) (a_YaDiskOAuthToken alt) (a_YaDiskSessionID alt)
    None "".

Definition key_uri (ck : ConnectionKey) : string := "whispera://" +:+ string_of_bytes (std_encode (Marshal ck)).

End ConnKey.
