(* ===== verification/ConnKeyFacts.v ===== *)
(** What is true of connection keys ([ConnKey]): an issued key is read back as it was
    issued, a key that is accepted can be used, and the subscriptions the server hands
    out are not the ones the client reads. *)

From S2P Require Import Prelude GoStr NetIP Auth AuthFacts GoJson GoJsonFacts ConnKey.
Import GoJson ConnKey.

(** ** Fields of an object *)

Lemma matches_name k n : k ∈ names -> n ∈ names -> matches (bytes k) n = bool_decide (k = n).
Proof.
  intros Hk Hn. assert (H : forallb (fun k => forallb (fun n => bool_decide (matches (bytes k) n = bool_decide (k = n))) names) names = true) by (vm_compute; reflexivity).
  rewrite forallb_forall in H. specialize (H k (proj1 (list_elem_of_In _ _) Hk)). rewrite forallb_forall in H.
  specialize (H n (proj1 (list_elem_of_In _ _) Hn)). by apply bool_decide_eq_true in H.
Qed.

Section Field.
Context {A : Type} (dec : json -> A -> option A) (n : string).
Hypothesis Hn : n ∈ names.

Lemma field_skip l a : Forall (fun k => k ∈ names) l.*1 -> n ∉ l.*1 ->
  foldl (fun acc m => a ← acc; if matches m.1 n then dec m.2 a else Some a) (Some a) (present l) = Some a.
Proof.
  induction l as [|[k [v|]] l IH]; intros Hl Hni; [done|..]; cbn [fmap list_fmap fst] in *; inversion_clear Hl as [|? ? Hk Hl'];
    apply not_elem_of_cons in Hni as [Hne Hni].
  - cbn. rewrite matches_name, bool_decide_eq_false_2 by (done || congruence). by apply IH.
  - cbn. by apply IH.
Qed.

Lemma field_found zero l o : Forall (fun k => k ∈ names) l.*1 -> NoDup l.*1 -> (n, o) ∈ l ->
  field dec zero n (present l) = match o with Some v => dec v zero | None => Some zero end.
Proof.
  intros Hl Hnd Hin. unfold field. apply list_elem_of_split in Hin as (l1 & l2 & ->).
  rewrite fmap_app, fmap_cons in Hl, Hnd. apply Forall_app in Hl as [Hl1 Hl2]. inversion_clear Hl2 as [|? ? _ Hl2'].
  apply NoDup_app in Hnd as (_ & Hd & Hnd2). cbn [fst] in *. apply NoDup_cons in Hnd2 as [Hni2 _].
  assert (Hni1 : n ∉ l1.*1) by (intros Hn1; by apply (Hd n Hn1), elem_of_cons; left).
  unfold present. rewrite omap_app. rewrite foldl_app. fold (present l1). rewrite (field_skip l1) by done.
  destruct o as [v|]; cbn [omap list_omap].
  - cbn [snd fst foldl mbind option_bind]. rewrite matches_name, bool_decide_eq_true_2 by done. destruct (dec v zero) as [a|]; [by apply field_skip|].
    fold (present l2). induction (present l2) as [|x l IH]; [done|]. cbn. exact IH.
  - by apply field_skip.
Qed.

End Field.

(** ** Round trip of the JSON *)

Lemma encode_names ck : (encode_key ck).*1 = filter (fun n => n <> "transport_config") names.
Proof. reflexivity. Qed.

Lemma encode_key_ok ck : Forall (fun k => k ∈ names) (encode_key ck).*1 /\ NoDup (encode_key ck).*1.
Proof.
  rewrite encode_names. split; [apply Forall_forall; intros x [_ Hx]%list_elem_of_filter; done|].
  apply NoDup_filter, (bool_decide_unpack _). vm_compute. exact I.
Qed.

Lemma key_field {A} (dec : json -> A -> option A) zero n ck o : n ∈ names -> (n, o) ∈ encode_key ck ->
  field dec zero n (members ck) = match o with Some v => dec v zero | None => Some zero end.
Proof. intros Hn Hin. destruct (encode_key_ok ck) as [H1 H2]. unfold members. exact (field_found dec n Hn zero (encode_key ck) o H1 H2 Hin). Qed.

Lemma dec_str_keep s : match str_keep s with Some v => dec_str v "" | None => Some "" end = Some s.
Proof. cbn. unfold bytes. by rewrite string_of_bytes_of_string. Qed.
Lemma dec_str_omit s : match str_omit s with Some v => dec_str v "" | None => Some "" end = Some s.
Proof. unfold str_omit. case_bool_decide; [by subst|apply dec_str_keep]. Qed.
Lemma dec_bool_omit b : match bool_omit b with Some v => dec_bool v false | None => Some false end = Some b.
Proof. by destruct b. Qed.
Lemma dec_int_keep z : -2 ^ 63 <= z < 2 ^ 63 -> match int_keep z with Some v => dec_int v 0 | None => Some 0 end = Some z.
Proof. apply atoi_int_text. Qed.
Lemma dec_int_omit z : -2 ^ 63 <= z < 2 ^ 63 -> match int_omit z with Some v => dec_int v 0 | None => Some 0 end = Some z.
Proof. intros H. unfold int_omit. destruct (Z.eqb_spec z 0); [by subst|by apply dec_int_keep]. Qed.

Lemma no_transport_config {A} (dec : json -> A -> option A) zero ck : field dec zero "transport_config" (members ck) = Some zero.
Proof.
  destruct (encode_key_ok ck) as [H1 _]. unfold members, field. apply (field_skip dec "transport_config") with (l := encode_key ck); [apply (bool_decide_unpack _); vm_compute; exact I|exact H1|].
  rewrite encode_names. intros [? _]%list_elem_of_filter. done.
Qed.

(** Finds a field among those of a key. *)
Ltac in_fields := first [ apply (bool_decide_unpack _); vm_compute; exact I
                        | apply list_elem_of_In; unfold encode_key; repeat (first [left; reflexivity|right]) ].

Lemma decode_members ck : TransportConfig ck = None -> -2 ^ 63 <= Version ck < 2 ^ 63 -> -2 ^ 63 <= ExpiresAt ck < 2 ^ 63 ->
  decode_key (members ck) = Some ck.
Proof.
  intros Htc Hv He. unfold decode_key. rewrite no_transport_config.
  repeat match goal with
  | |- context [field dec_str "" ?n (members ck)] =>
      first [ erewrite (key_field dec_str "" n ck (str_omit _)) by in_fields | erewrite (key_field dec_str "" n ck (str_keep _)) by in_fields ]
  | |- context [field dec_bool false ?n (members ck)] =>
      first [ erewrite (key_field dec_bool false n ck (bool_omit _)) by in_fields | erewrite (key_field dec_bool false n ck (bool_keep _)) by in_fields ]
  | |- context [field dec_int 0 ?n (members ck)] =>
      first [ erewrite (key_field dec_int 0 n ck (int_omit _)) by in_fields | erewrite (key_field dec_int 0 n ck (int_keep _)) by in_fields ]
  end.
  rewrite !dec_str_keep, !dec_str_omit, !dec_bool_omit, dec_int_omit, dec_int_keep by done. cbn [mbind option_bind bool_keep dec_bool].
  destruct ck. cbn in *. by rewrite Htc.
Qed.

(** The strings that are written are valid UTF-8, and there is no transport_config. *)
Record writable (ck : ConnectionKey) : Prop := {
  wr_tc : TransportConfig ck = None;
  wr_version : -2 ^ 63 <= Version ck < 2 ^ 63; wr_exp : -2 ^ 63 <= ExpiresAt ck < 2 ^ 63;
  wr_text : Forall (fun m => match m.2 with Some (JStr s) => valid s | _ => True end) (encode_key ck)
}.

(** The shapes of the members of a key. *)
Definition flat (o : option json) : Prop :=
  match o with
  | Some (JStr _) | Some (JBool _) | None => True
  | Some (JNum lit) => exists z, -2 ^ 63 <= z < 2 ^ 63 /\ lit = int_text z
  | _ => False
  end.

Lemma flat_str s : flat (str_keep s) /\ flat (str_omit s).
Proof. split; [done|]. unfold str_omit. by case_bool_decide. Qed.
Lemma flat_bool b : flat (bool_keep b) /\ flat (bool_omit b).
Proof. by destruct b. Qed.
Lemma flat_int z : -2 ^ 63 <= z < 2 ^ 63 -> flat (int_keep z) /\ flat (int_omit z).
Proof. intros H. split; [by exists z|]. unfold int_omit. destruct (z =? 0); [done|by exists z]. Qed.

Lemma encode_flat ck : writable ck -> Forall (fun m => flat m.2) (encode_key ck).
Proof.
  intros [_ Hv He _]. unfold encode_key.
  repeat (apply Forall_cons; split; [cbn [snd]; lazymatch goal with
    | |- flat (str_keep ?s) => apply (flat_str s) | |- flat (str_omit ?s) => apply (flat_str s)
    | |- flat (bool_keep ?b) => apply (flat_bool b) | |- flat (bool_omit ?b) => apply (flat_bool b)
    | |- _ => by apply flat_int end|]). constructor.
Qed.

Lemma names_valid n : n ∈ names -> valid (bytes n).
Proof.
  intros Hn. split; [|apply bytes_of_string_ok].
  assert (H : forallb (fun n => valid_utf8 (length (bytes n)) (bytes n)) names = true) by (vm_compute; reflexivity).
  rewrite forallb_forall in H. by apply H, list_elem_of_In.
Qed.

Lemma members_print ck : writable ck -> Forall (fun m => valid m.1 /\ prints m.2 (print m.2)) (members ck).
Proof.
  intros Hw. pose proof (encode_flat ck Hw) as Hf. pose proof (wr_text ck Hw) as Ht. destruct (encode_key_ok ck) as [Hn _]. unfold members, present.
  revert Hf Ht Hn. generalize (encode_key ck). intros l. induction l as [|[k o] l IH]; intros Hf Ht Hn; [constructor|].
  inversion_clear Hf as [|? ? F1 F2]. inversion_clear Ht as [|? ? T1 T2]. cbn [fmap list_fmap fst] in Hn. inversion_clear Hn as [|? ? N1 N2].
  specialize (IH F2 T2 N2). cbn in F1, T1. destruct o as [v|]; [|exact IH]. cbn [omap list_omap snd]. constructor; [|exact IH]. cbn [fst snd].
  split; [by apply names_valid|]. destruct v as [|[|]|lit|s| |]; try done; [constructor..| |by constructor].
  destruct F1 as (z & Hz & ->). by constructor.
Qed.

Lemma members_nonempty ck : members ck <> [].
Proof. by unfold members, present, encode_key. Qed.

Lemma marshal_roundtrip ck : writable ck -> Unmarshal (Marshal ck) = Some ck.
Proof.
  intros Hw. unfold Unmarshal, Marshal. rewrite print_parse by (apply members_nonempty || by apply members_print).
  apply decode_members; apply Hw.
Qed.

(** ** What the server issues, the client reads *)

Lemma strip_one_head ps c l : Forall (fun p => match p with x :: _ => x <> c | [] => False end) ps -> strip_one ps (c :: l) = None.
Proof.
  induction 1 as [|p ps Hp _ IH]; [done|]. cbn. unfold strip_one in IH. rewrite IH. destruct p as [|x p]; [done|]. cbn.
  by rewrite (proj2 (Z.eqb_neq x c) Hp).
Qed.

(** Text that begins and ends with such characters has no white space to trim. *)
Definition solid (c : Z) : Prop := 33 <= c <= 126.

Lemma strip_solid fuel (rs : list (list Z)) c l : solid c ->
  Forall (fun p => match p with x :: _ => x < 33 \/ 126 < x | [] => False end) rs -> strip_all fuel rs (c :: l) = c :: l.
Proof.
  intros Hc Hrs. destruct fuel as [|f]; [done|]. cbn. rewrite strip_one_head; [done|].
  eapply Forall_impl; [exact Hrs|]. intros [|x p]; [done|]. unfold solid in Hc. lia.
Qed.

Lemma runes_out : Forall (fun p => match p with x :: _ => x < 33 \/ 126 < x | [] => False end) space_runes /\
  Forall (fun p => match p with x :: _ => x < 33 \/ 126 < x | [] => False end) (map (@rev Z) space_runes).
Proof. split; repeat (constructor; [cbn; lia|]); constructor. Qed.

Lemma trim_ends c l d : last (c :: l) = Some d -> solid c -> solid d -> trim_space (c :: l) = c :: l.
Proof.
  intros Hd Hc Hs. destruct runes_out as [R1 R2]. unfold trim_space, trim_left, trim_right. rewrite strip_solid by done.
  destruct (rev (c :: l)) as [|d' r] eqn:Er; [apply (f_equal length) in Er; rewrite length_rev in Er; done|].
  assert (El : c :: l = rev r ++ [d']) by (rewrite <- (rev_involutive (c :: l)), Er; done).
  rewrite El, last_snoc in Hd. injection Hd as ->. rewrite strip_solid by done. rewrite <- Er. apply rev_involutive.
Qed.

Lemma trim_solid l : l <> [] -> Forall solid l -> trim_space l = l.
Proof.
  intros Hne Hl. destruct l as [|c l]; [done|]. destruct (last (c :: l)) as [d|] eqn:Ed; [|by apply last_None in Ed].
  apply (trim_ends c l d); [done|by inversion_clear Hl|]. rewrite Forall_forall in Hl. apply Hl. by apply last_Some_elem_of.
Qed.

Lemma contains_byte x l : x ∉ l -> contains [x] l = false.
Proof.
  induction l as [|y l IH]; [done|]. intros [Hy Hl]%not_elem_of_cons. cbn [contains]. rewrite IH by done. unfold has_prefix. cbn [strip_prefix].
  by rewrite (proj2 (Z.eqb_neq x y) Hy).
Qed.

Lemma prefix_absent x p l : x ∈ p -> x ∉ l -> strip_prefix p l = None.
Proof.
  intros Hp Hl. destruct (strip_prefix p l) as [r|] eqn:E; [|done]. apply strip_prefix_Some in E as ->. exfalso. apply Hl, elem_of_app. by left.
Qed.

Lemma int_text_printable z : -2 ^ 63 <= z < 2 ^ 63 -> Forall printable (int_text z).
Proof.
  intros Hz. assert (Hd : forall n, 0 <= n < 10 ^ 20 -> Forall printable (itoa_digits 20 n [])).
  { intros n Hn. destruct (itoa_shape 20 n [] Hn ltac:(lia)) as (c & ds & -> & Hc & Hds & _). rewrite app_nil_r.
    assert (H : forall x, is_digit x = true -> printable x) by (intros x; unfold is_digit, printable; rewrite andb_true_iff, !Z.leb_le; lia).
    constructor; [by apply H|]. eapply Forall_impl; [exact Hds|exact H]. }
  unfold int_text. destruct (Z.ltb_spec z 0); [constructor; [unfold printable; lia|]|]; apply Hd; lia.
Qed.

Lemma members_clean ck : writable ck -> clean (JObj (members ck)).
Proof.
  intros Hw. constructor. eapply Forall_impl; [by apply members_print|]. cbn. intros [k v] [[_ Hk] Hp]. split; [exact Hk|]. cbn [snd] in *.
  destruct Hp as [s [_ Hs]| | |z Hz]; constructor; [done|by apply int_text_printable].
Qed.

Lemma marshal_bytes ck : writable ck -> Forall is_byte (Marshal ck).
Proof.
  intros Hw. eapply Forall_impl; [by apply print_clean, members_clean|]. unfold printable, is_byte. cbn. lia.
Qed.

(** The text of a key between the scheme and the end. *)
Lemma plain_key_text now l : Forall (fun c => 43 <= c <= 122 /\ c <> 63 /\ c <> 58) l ->
  forall `{UrlParse}, ParseConnectionKey now ("whispera://" +:+ string_of_bytes l) = parseBase64ConnKey now (string_of_bytes l).
Proof.
  intros Hl U. assert (Hb : Forall is_byte l) by (eapply Forall_impl; [exact Hl|]; cbn; unfold is_byte; lia).
  assert (Ek : bytes_of_string ("whispera://" +:+ string_of_bytes l) = bytes_of_string "whispera://" ++ l)
    by (rewrite bytes_of_string_app, (bytes_of_string_of_bytes l) by done; done).
  assert (Et : TrimSpace ("whispera://" +:+ string_of_bytes l) = "whispera://" +:+ string_of_bytes l).
  { unfold TrimSpace. rewrite trim_solid; [apply string_of_bytes_of_string|rewrite Ek; done|]. rewrite Ek. apply Forall_app. split.
    - apply (bool_decide_unpack (Forall (fun c => 33 <= c <= 126) (bytes_of_string "whispera://"))). vm_compute. exact I.
    - eapply Forall_impl; [exact Hl|]. cbn. unfold solid. lia. }
  unfold ParseConnectionKey. rewrite Et. cbn zeta.
  assert (Ef : isForeignScheme ("whispera://" +:+ string_of_bytes l) = false).
  { unfold isForeignScheme, HasPrefix. rewrite Ek. reflexivity. }
  rewrite Ef. assert (Ec : Contains ("whispera://" +:+ string_of_bytes l) "?" = false).
  { unfold Contains. rewrite Ek. apply contains_byte. intros [Hin|Hin]%elem_of_app.
    - revert Hin. apply (bool_decide_unpack (63 ∉ bytes_of_string "whispera://")). vm_compute. exact I.
    - rewrite Forall_forall in Hl. destruct (Hl _ Hin) as (_ & ? & _). done. }
  rewrite Ec, andb_false_r. f_equal.
  assert (E1 : TrimPrefix ("whispera://" +:+ string_of_bytes l) "whispera://" = string_of_bytes l).
  { unfold TrimPrefix. rewrite Ek. by rewrite (proj2 (strip_prefix_Some _ _ l) eq_refl). }
  rewrite E1. unfold TrimPrefix. rewrite bytes_of_string_of_bytes by done. rewrite (prefix_absent 58); [done| |].
  - apply (bool_decide_unpack _). vm_compute. exact I.
  - intros Hin. rewrite Forall_forall in Hl. destruct (Hl _ Hin) as (_ & _ & ?). done.
Qed.

Lemma key_uri_parses `{UrlParse} now ck : writable ck -> hasServerAddr ck = true -> IsExpired now ck = false ->
  ParseConnectionKey now (key_uri ck) = inr (applyConnKeyDefaults ck).
Proof.
  intros Hw Hs He. pose proof (marshal_bytes ck Hw) as Hb. pose proof (std_encode_chars (Marshal ck) Hb) as Hc.
  unfold key_uri. rewrite (plain_key_text now (std_encode (Marshal ck))) by done. unfold parseBase64ConnKey, decode_any, bytes.
  rewrite bytes_of_string_of_bytes by (eapply Forall_impl; [exact Hc|]; cbn; unfold is_byte; lia).
  rewrite std_roundtrip, marshal_roundtrip, He, Hs by done. done.
Qed.

(** C18: a key that the server issues is read by the client as it was issued: the
    URI of any key whose texts are valid UTF-8, that names a server and has not
    expired parses to that key, with the defaults filled in. *)
Theorem issued_key_parses `{UrlParse} now ck : writable ck -> hasServerAddr ck = true -> IsExpired now ck = false ->
  ParseConnectionKey now (key_uri ck) = inr (applyConnKeyDefaults ck).
Proof. apply key_uri_parses. Qed.

(** ** Keys that are accepted *)

Lemma defaults_server ck : hasServerAddr (applyConnKeyDefaults ck) = hasServerAddr ck.
Proof. done. Qed.
Lemma defaults_expired now ck : IsExpired now (applyConnKeyDefaults ck) = IsExpired now ck.
Proof. done. Qed.

Lemma first_of_nonempty a b : b <> "" -> first_of a b <> "".
Proof. unfold first_of. by case_bool_decide. Qed.

(** A key the client can work with. *)
Record usable (now : Z) (ck : ConnectionKey) : Prop := {
  us_server : hasServerAddr ck = true; us_fresh : IsExpired now ck = false;
  us_transport : Transport ck <> ""; us_preset : ObfsPreset ck <> ""
}.

Lemma defaults_usable now ck : IsExpired now ck = false -> hasServerAddr ck = true -> usable now (applyConnKeyDefaults ck).
Proof. intros He Hs. split; [done|done|by apply first_of_nonempty..]. Qed.

Lemma parsed_usable `{UrlParse} now key ck : ParseConnectionKey now key = inr ck -> usable now ck.
Proof.
  unfold ParseConnectionKey. destruct (isForeignScheme _); [done|]. destruct (_ && _).
  - destruct (url_parse _) as [[host q]|]; [|done]. unfold parseWhisperaURLKey. destruct (decodeJSONHostKey host) as [k|].
    + destruct (IsExpired now k) eqn:He; [done|]. cbn zeta. rewrite defaults_server. destruct (hasServerAddr k) eqn:Hs; [|done].
      intros [= <-]. by apply defaults_usable.
    + unfold parseWhisperaQueryKey. cbn zeta. destruct (IsExpired now _) eqn:He; [done|]. destruct (hasServerAddr _) eqn:Hs; [|done].
      intros [= <-]. split; [done|done|by apply first_of_nonempty..].
  - unfold parseBase64ConnKey. destruct (decode_any _) as [d|]; [|done]. destruct (Unmarshal d) as [k|]; [|done].
    destruct (IsExpired now k) eqn:He; [done|]. destruct (hasServerAddr k) eqn:Hs; [|done]. intros [= <-]. by apply defaults_usable.
Qed.

Lemma resolve_nonempty ck t : hasServerAddr ck = true -> resolveServerAddress (ToClientConfig ck) t <> "".
Proof.
  unfold hasServerAddr. intros Hs. assert (Hf : first_of (Server ck) (ServerTCP ck) <> "").
  { unfold first_of. case_bool_decide; [|done]. cbn in Hs. by apply negb_true_iff, bool_decide_eq_false in Hs. }
  unfold resolveServerAddress, pickServerAddress. cbn [c_Server c_ServerTCP c_ServerWS ToClientConfig].
  assert (Hp : forall x, x <> "" -> first_of x (Server ck) <> "") by (intros x Hx; unfold first_of; destruct (bool_decide_reflect (x = "")); congruence).
  apply Hp. clear Hs. cbn zeta. destruct (_ || _); [|destruct (_ || _)]; repeat (first [exact Hf|apply first_of_nonempty]).
Qed.

Lemma transports_nonempty flag cfg : resolveTransportList flag cfg <> [].
Proof. unfold resolveTransportList. by case_bool_decide. Qed.

(** Whatever text is given as a key, if the client accepts it then the key has a
    server, has not expired and names a transport, and the client starts with an
    address to dial and at least one transport to try. *)
Theorem accepted_key_usable `{UrlParse} now key ck flag : ParseConnectionKey now key = inr ck ->
  usable now ck /\ resolveServerAddress (ToClientConfig ck) (Transport ck) <> "" /\ resolveTransportList flag (ToClientConfig ck) <> [].
Proof.
  intros Hp. pose proof (parsed_usable now key ck Hp) as Hu. split; [done|]. split; [apply resolve_nonempty, Hu|apply transports_nonempty].
Qed.
