(* ===== verification/UserStore.v ===== *)
(** The server's users and subscriptions, src/core/apiserver: the store of
    key_store.go, the commands of cli.go that change it, and the subscriptions of
    subscription.go.

    The users live in memory and in a file.  The file is modelled by what it
    holds; a write may fail ([ok]) and then leaves it as it was.  Commands load the
    file, change the store and save it.  The order in which Go visits the map of
    users is the argument [visit]; keys and identifiers drawn at random are
    arguments. *)

From S2P Require Import Prelude GoStr Auth GoJson ConnKey.
Import GoJson ConnKey.

Module UserStore.

Record User := mkUser {
  u_ID : Z; Username : string; PrivateKey : string; PublicKey : string; ConnectionURI : string; Upload : Z; Download : Z;
  ExpiryDate : string; u_Status : string; CreatedAt : Z; u_ObfsProfile : string; MarionetteProfile : string; u_RussianService : string;
  InboundTags : list string
}.

Record Subscription := mkSub {
  s_ID : string; s_Name : string; Group : string; Token : string; UserIDs : list Z; KeyIDs : list string; Transports : list string;
  s_CreatedAt : Z; UpdatedAt : Z; SubURL : string
}.

(** What the two files hold. *)
Record userPersist := mkUserFile { f_Users : list User; f_NextUserID : Z }.
Record subPersist := mkSubFile { f_Subs : list Subscription; f_NextID : Z }.

Record store := mkStore {
  userStore : gmap Z User; nextUserID : Z; version : Z; userFile : option userPersist;
  subStore : gmap string Subscription; subByToken : gmap string Subscription; subNextID : Z; subFile : option subPersist
}.

Definition with_users (s : store) (m : gmap Z User) (n v : Z) : store :=
  mkStore m n v (userFile s) (subStore s) (subByToken s) (subNextID s) (subFile s).
Definition with_userFile (s : store) (f : option userPersist) : store :=
  mkStore (userStore s) (nextUserID s) (version s) f (subStore s) (subByToken s) (subNextID s) (subFile s).
Definition with_subs (s : store) (m t : gmap string Subscription) (n : Z) : store :=
  mkStore (userStore s) (nextUserID s) (version s) (userFile s) m t n (subFile s).
Definition with_subFile (s : store) (f : option subPersist) : store :=
  mkStore (userStore s) (nextUserID s) (version s) (userFile s) (subStore s) (subByToken s) (subNextID s) f.

Definition new_store : store := mkStore ∅ 1 0 None ∅ ∅ 0 None.

Definition users (visit : list Z) (s : store) : list User := omap (fun id => userStore s !! id) visit.

(** ** key_store.go *)

Definition saveUsers (ok : bool) (visit : list Z) (s : store) : store :=
  if ok then with_userFile s (Some (mkUserFile (users visit s) (nextUserID s))) else s.

Definition applyUsersFromFile (s : store) : store :=
  match userFile s with
  | None => s
  | Some p =>
      let fresh := foldl (fun m u => <[u_ID u := u]> m) ∅ (f_Users p) in
      with_users s fresh (if nextUserID s <? f_NextUserID p then f_NextUserID p else nextUserID s) (u64 (version s + 1))
  end.

Definition GetRegisteredUsers (visit : list Z) (s : store) : list (string * string) :=
  omap (fun u => if negb (bool_decide (PrivateKey u = "")) && negb (bool_decide (u_Status u = "disabled"))
                 then Some (Username u, PrivateKey u) else None) (users visit s).

(** ** cli.go *)

(** The first user of that name that the loop meets. *)
Definition find_user (visit : list Z) (username : string) (s : store) : option User :=
  snd <$> list_find (fun u => Username u = username) (users visit s).

Definition CLIDeleteUser (visit : list Z) (ok : bool) (save : list Z) (username : string) (s : store) : store * bool :=
  let s := applyUsersFromFile s in
  match find_user visit username s with
  | None => (s, false)
  | Some u => (saveUsers ok save (with_users s (delete (u_ID u) (userStore s)) (nextUserID s) (version s)), true)
  end.

(** [keys] are the keys drawn for a new user, or the error. *)
Definition CLIUpsertUser (visit : list Z) (ok : bool) (save : list Z) (keys : option (string * string)) (now : Z) (username : string) (s : store)
    : store * option (string * string) :=
  let s := applyUsersFromFile s in
  match find_user visit username s with
  | Some u => (saveUsers ok save s, Some (PrivateKey u, PublicKey u))
  | None =>
      match keys with
      | None => (s, None)
      | Some (priv, pub) =>
          let u := mkUser (nextUserID s) username priv pub "" 0 0 "" "active" now "" "" "" [] in
          (saveUsers ok save (with_users s (<[nextUserID s := u]> (userStore s)) (nextUserID s + 1) (version s)), Some (priv, pub))
      end
  end.

Definition set_uri (uri : string) (u : User) : User :=
  mkUser (u_ID u) (Username u) (PrivateKey u) (PublicKey u) uri (Upload u) (Download u) (ExpiryDate u) (u_Status u) (CreatedAt u)
    (u_ObfsProfile u) (MarionetteProfile u) (u_RussianService u) (InboundTags u).

Definition CLIBuildConnectionKey (visit : list Z) (ok : bool) (save : list Z) (kid : string)
    (username serverAddr serverPub transport : string) (w : WhisperaKeyOptions) (alt : AltTransportKeyOptions) (s : store) : store * option string :=
  let s := applyUsersFromFile s in
  match find_user visit username s with
  | None => (s, None)
  | Some u =>
      let uri := key_uri (issued_key kid serverAddr (PrivateKey u) serverPub transport w alt) in
      (saveUsers ok save (with_users s (alter (set_uri uri) (u_ID u) (userStore s)) (nextUserID s) (version s)), Some uri)
  end.

(** ** subscription.go *)

Definition saveSubscriptions (ok : bool) (visit : list string) (s : store) : store :=
  if ok then with_subFile s (Some (mkSubFile (omap (fun id => subStore s !! id) visit) (subNextID s))) else s.

Definition loadSubscriptions (s : store) : store :=
  match subFile s with
  | None => s
  | Some p =>
      with_subs s (foldl (fun m x => <[s_ID x := x]> m) (subStore s) (f_Subs p)) (foldl (fun m x => <[Token x := x]> m) (subByToken s) (f_Subs p))
        (if subNextID s <? f_NextID p then f_NextID p else subNextID s)
  end.

(** The token: 24 random bytes in base64, encoded once more and cut. *)
Definition subscription_token (raw : list Z) : string := string_of_bytes (take 32 (Auth.b64_encode (std_encode raw))).

(** The map is visited in a new order for each name ([visits]). *)
Definition CLICreateSubscription (visits : list (list Z)) (ok : bool) (save : list string) (raw : list Z) (now : Z) (name : string)
    (usernames : list string) (s : store) : store * option string :=
  let s := loadSubscriptions (applyUsersFromFile s) in
  let ids := omap (fun x => u_ID <$> find_user x.2 x.1 s) (zip usernames visits) in
  if negb (length ids =? length usernames)%nat then (s, None)
  else
    let token := subscription_token raw in
    let n := subNextID s + 1 in
    let sub := mkSub (Itoa n) name "" token ids [] [] now now "" in
    (saveSubscriptions ok save (with_subs s (<[s_ID sub := sub]> (subStore s)) (<[token := sub]> (subByToken s)) n), Some token).

Definition uri_of (u : User) : option string := if bool_decide (ConnectionURI u = "") then None else Some (ConnectionURI u).

Definition subscriptionKeys (visit : list Z) (sub : Subscription) (s : store) : list string :=
  match KeyIDs sub, UserIDs sub with
  | _ :: _, _ => List.filter (fun k => bool_decide (k ∈ KeyIDs sub)) (omap uri_of (users visit s))
  | [], _ :: _ => omap (fun id => userStore s !! id ≫= uri_of) (UserIDs sub)
  | [], [] => omap uri_of (users visit s)
  end.

(** The body of a subscription: a JSON object in base64.  The servers and the date
    are given. *)
Definition subscription_json (visit : list Z) (servers : json) (updated : string) (sub : Subscription) (s : store) : json :=
  let keys := subscriptionKeys visit sub s in
  JObj [(bytes "keys", match keys with [] => JNull | _ => JArr (map (fun k => JStr (bytes k)) keys) end);
        (bytes "name", JStr (bytes (s_Name sub))); (bytes "servers", servers); (bytes "updated", JStr (bytes updated));
        (bytes "version", JStr (bytes "2"))].

Definition handleServeSubscription (visit : list Z) (servers : json) (updated token : string) (s : store) : option string :=
  if bool_decide (token = "") then None
  else match subByToken s !! token with
       | None => None
       | Some sub => Some (string_of_bytes (std_encode (print (subscription_json visit servers updated sub s))))
       end.

End UserStore.
