(* ===== verification/UserStoreFacts.v ===== *)
(** What [UserStore] guarantees: users keep distinct numbers and names whatever
    commands run and whichever writes fail, a key built for a user opens the client's
    connection with that user's secret, and the subscriptions that the server serves
    cannot be read by its own client. *)

From S2P Require Import Prelude GoStr NetIP Auth AuthFacts GoJson GoJsonFacts ConnKey ConnKeyFacts UserStore.
Import GoJson ConnKey UserStore.

Implicit Types (s : store) (u : User) (visit : list Z).

(** ** Numbers and names *)

(** Users with numbers below [n] that are theirs, and names of their own. *)
Record book (m : gmap Z User) (n : Z) : Prop := {
  bk_id : forall id u, m !! id = Some u -> u_ID u = id /\ 1 <= id < n;
  bk_name : forall id1 id2 u1 u2, m !! id1 = Some u1 -> m !! id2 = Some u2 -> Username u1 = Username u2 -> id1 = id2
}.

Record sheet (l : list User) (n : Z) : Prop := {
  sh_id : forall u, u ∈ l -> 1 <= u_ID u < n;
  sh_name : forall u1 u2, u1 ∈ l -> u2 ∈ l -> Username u1 = Username u2 -> u_ID u1 = u_ID u2
}.

Record store_ok s : Prop := {
  so_next : 1 <= nextUserID s;
  so_book : book (userStore s) (nextUserID s);
  so_file : forall p, userFile s = Some p -> sheet (f_Users p) (f_NextUserID p)
}.

Lemma load_elem (l : list User) (m : gmap Z User) id u :
  foldl (fun m u => <[u_ID u := u]> m) m l !! id = Some u -> (u ∈ l /\ u_ID u = id) \/ m !! id = Some u.
Proof.
  revert m. induction l as [|v l IH]; intros m; cbn; [by right|]. intros [[H1 H2]|H]%IH; [left; split; [by right|done]|].
  apply lookup_insert_Some in H as [[<- <-]|[_ H]]; [left; split; [by left|done]|by right].
Qed.

Lemma sheet_book l n n' : sheet l n -> n <= n' -> book (foldl (fun m u => <[u_ID u := u]> m) ∅ l) n'.
Proof.
  intros [H1 H2] Hn. split.
  - intros id u [[Hu <-]|H]%load_elem; [|done]. specialize (H1 u Hu). split; [done|lia].
  - intros id1 id2 u1 u2 [[Hu1 <-]|?]%load_elem [[Hu2 <-]|?]%load_elem; [by apply H2|done..].
Qed.

Lemma users_elem visit s u : u ∈ users visit s -> exists id, id ∈ visit /\ userStore s !! id = Some u.
Proof. unfold users. intros (id & Hv & H)%list_elem_of_omap. eauto. Qed.

Lemma book_sheet visit s n : book (userStore s) n -> sheet (users visit s) n.
Proof.
  intros [H1 H2]. split.
  - intros u (id & _ & Hu)%users_elem. by destruct (H1 _ _ Hu) as [-> ?].
  - intros u1 u2 (i1 & _ & Hu1)%users_elem (i2 & _ & Hu2)%users_elem Hn. destruct (H1 _ _ Hu1) as [-> _], (H1 _ _ Hu2) as [-> _]. by eapply H2.
Qed.

Lemma save_ok ok visit s : store_ok s -> store_ok (saveUsers ok visit s).
Proof.
  intros [H1 H2 H3]. unfold saveUsers. destruct ok; [|by split]. split; [done|done|]. intros p [= <-]. by apply book_sheet.
Qed.

Lemma load_ok s : store_ok s -> store_ok (applyUsersFromFile s) /\ nextUserID s <= nextUserID (applyUsersFromFile s).
Proof.
  intros [H1 H2 H3]. unfold applyUsersFromFile. destruct (userFile s) as [p|] eqn:Ef; [|split; [split; congruence || done|lia]].
  specialize (H3 p eq_refl). cbn [nextUserID with_users].
  assert (Hn : nextUserID s <= (if nextUserID s <? f_NextUserID p then f_NextUserID p else nextUserID s) /\
               f_NextUserID p <= (if nextUserID s <? f_NextUserID p then f_NextUserID p else nextUserID s))
    by (destruct (Z.ltb_spec (nextUserID s) (f_NextUserID p)); lia).
  split; [|tauto]. split; cbn; [lia|eapply sheet_book; [exact H3|tauto]|]. intros p'. rewrite Ef. intros [= <-]. done.
Qed.

(** A visit of the whole map, in some order. *)
Definition full visit (m : gmap Z User) : Prop := visit ≡ₚ (map_to_list m).*1.

Lemma full_elem visit m id u : full visit m -> m !! id = Some u -> id ∈ visit.
Proof. intros Hf Hu. rewrite Hf. apply list_elem_of_fmap. exists (id, u). split; [done|]. by apply elem_of_map_to_list. Qed.

(** The user a full visit finds is the user of that name. *)
Lemma find_user_spec visit name s : full visit (userStore s) ->
  match find_user visit name s with
  | Some u => Username u = name /\ exists id, userStore s !! id = Some u
  | None => forall id u, userStore s !! id = Some u -> Username u <> name
  end.
Proof.
  intros Hf. unfold find_user. destruct (list_find _ (users visit s)) as [[i u]|] eqn:E; cbn.
  - apply list_find_Some in E as (Hi & Hn & _). split; [done|]. apply list_elem_of_lookup_2, users_elem in Hi as (id & _ & Hu). eauto.
  - apply list_find_None in E. rewrite Forall_forall in E. intros id u Hu. apply E. unfold users. apply list_elem_of_omap. exists id.
    split; [by eapply full_elem|done].
Qed.

Inductive step s : store -> Prop :=
| st_load : step s (applyUsersFromFile s)
| st_upsert visit ok save keys now name : full visit (userStore (applyUsersFromFile s)) ->
    step s (CLIUpsertUser visit ok save keys now name s).1
| st_delete visit ok save name : full visit (userStore (applyUsersFromFile s)) -> step s (CLIDeleteUser visit ok save name s).1
| st_build visit ok save kid name addr pub transport w alt : full visit (userStore (applyUsersFromFile s)) ->
    step s (CLIBuildConnectionKey visit ok save kid name addr pub transport w alt s).1
| st_subscribe visits ok save raw now name names :
    step s (CLICreateSubscription visits ok save raw now name names s).1.

Lemma add_user_ok s u : store_ok s -> u_ID u = nextUserID s -> (forall id v, userStore s !! id = Some v -> Username v <> Username u) ->
  store_ok (with_users s (<[nextUserID s := u]> (userStore s)) (nextUserID s + 1) (version s)).
Proof.
  intros [H1 [H2 H3] H4] Hid Hn. split; [cbn; lia| |done]. split; cbn.
  - intros id v [[<- <-]|[_ Hv]]%lookup_insert_Some; [split; [done|lia]|]. destruct (H2 _ _ Hv). split; [done|lia].
  - intros i1 i2 u1 u2 [[<- <-]|[_ Hv1]]%lookup_insert_Some [[<- <-]|[_ Hv2]]%lookup_insert_Some E; [done|..].
    + by destruct (Hn _ _ Hv2).
    + by destruct (Hn _ _ Hv1).
    + by eapply H3.
Qed.

Lemma change_user_ok s f id : store_ok s -> (forall u, u_ID (f u) = u_ID u /\ Username (f u) = Username u) ->
  store_ok (with_users s (alter f id (userStore s)) (nextUserID s) (version s)).
Proof.
  intros [H1 [H2 H3] H4] Hf. assert (Ha : forall i v, alter f id (userStore s) !! i = Some v -> exists u, userStore s !! i = Some u /\ u_ID v = u_ID u /\ Username v = Username u).
  { intros i v. rewrite lookup_alter. case_decide; [intros (u & Hu & ->)%fmap_Some; subst; destruct (Hf u); eauto|]. intros Hv. by exists v. }
  split; [done| |done]. split; cbn.
  - intros i v (u & Hu & -> & _)%Ha. by apply H2.
  - intros i1 i2 v1 v2 (u1 & Hu1 & _ & ->)%Ha (u2 & Hu2 & _ & ->)%Ha. by eapply H3.
Qed.

Lemma delete_user_ok s id : store_ok s -> store_ok (with_users s (delete id (userStore s)) (nextUserID s) (version s)).
Proof.
  intros [H1 [H2 H3] H4]. split; [done| |done]. split; cbn.
  - intros i v [_ Hv]%lookup_delete_Some. by apply H2.
  - intros i1 i2 v1 v2 [_ Hv1]%lookup_delete_Some [_ Hv2]%lookup_delete_Some. by eapply H3.
Qed.

Lemma saveUsers_next ok visit s : nextUserID (saveUsers ok visit s) = nextUserID s.
Proof. by destruct ok. Qed.

Lemma step_ok s s' : store_ok s -> step s s' -> store_ok s' /\ nextUserID s <= nextUserID s'.
Proof.
  intros Hs Hst. destruct (load_ok s Hs) as [Hl Hle].
  destruct Hst as [|visit ok save keys now name Hv|visit ok save name Hv|visit ok save kid name addr pub tr w alt Hv|visits ok save raw now name ns].
  - done.
  - unfold CLIUpsertUser. cbn zeta. pose proof (find_user_spec visit name _ Hv) as Hf. destruct (find_user _ _ _) as [u|].
    + cbn. rewrite saveUsers_next. split; [by apply save_ok|done].
    + destruct keys as [[priv pub]|]; [|done]. cbn [fst]. rewrite saveUsers_next. cbn. split; [|lia]. apply save_ok, add_user_ok; [done|done|].
      intros id v Hu. by apply (Hf id).
  - unfold CLIDeleteUser. cbn zeta. destruct (find_user _ _ _) as [u|]; [|done]. cbn [fst]. rewrite saveUsers_next. split; [by apply save_ok, delete_user_ok|done].
  - unfold CLIBuildConnectionKey. cbn zeta. destruct (find_user _ _ _) as [u|]; [|done]. cbn [fst]. rewrite saveUsers_next.
    split; [by apply save_ok, change_user_ok|done].
  - unfold CLICreateSubscription. cbn zeta. assert (Hsub : forall s0 m t n f, store_ok s0 -> store_ok (mkStore (userStore s0) (nextUserID s0) (version s0) (userFile s0) m t n f))
      by (intros s0 m t n f [? ? ?]; by split).
    assert (Hl2 : store_ok (loadSubscriptions (applyUsersFromFile s)) /\ nextUserID (loadSubscriptions (applyUsersFromFile s)) = nextUserID (applyUsersFromFile s)).
    { unfold loadSubscriptions. destruct (subFile _); [|done]. split; [by apply Hsub|done]. }
    destruct Hl2 as [Hl2 En]. destruct (negb _); cbn [fst]; [rewrite En; done|]. unfold saveSubscriptions, with_subFile, with_subs. destruct ok; (split; [by apply (Hsub (loadSubscriptions (applyUsersFromFile s)))|cbn; by rewrite En]).
Qed.

(** Users keep numbers and names of their own: whatever commands run in
    whatever order, whichever writes of the file fail and however the maps are
    visited, every user is stored under its number, no two users share a name, and
    the next number is above all numbers in use and never goes back. *)
Theorem users_distinct s s' : rtc step new_store s -> rtc step s s' -> store_ok s' /\ nextUserID s <= nextUserID s'.
Proof.
  intros H1 H2. assert (Hs : store_ok s).
  { assert (H0 : store_ok new_store) by (split; [done|split; intros *; cbn; by rewrite ?lookup_empty|done]).
    revert H0. induction H1 as [|a b c0 Hab _ IH]; [done|]. intros H0. by apply IH, (step_ok a). }
  clear H1. induction H2 as [|a b c0 Hab _ IH]; [split; [done|lia]|]. destruct (step_ok a b Hs Hab) as [Hb Hn]. destruct (IH Hb). split; [done|lia].
Qed.

(** ** A key for a user *)

(** C19: the key that the server builds for a user configures the client as it was
    asked to: if the server's address is not empty and all texts of the key are valid
    UTF-8, the client accepts the URI, and its configuration is, field for field, the
    user's private key, the server's address and public key, the options of the
    transports that were given, and the defaults for what was not; without such a user
    there is no key. *)
Theorem built_key_configures `{UrlParse} now visit ok save kid name addr pub transport w alt s s' r :
  rtc step new_store s -> full visit (userStore (applyUsersFromFile s)) ->
  CLIBuildConnectionKey visit ok save kid name addr pub transport w alt s = (s', r) ->
  match r with
  | None => forall id u, userStore s' !! id = Some u -> Username u <> name
  | Some uri =>
      exists id u, userStore s' !! id = Some u /\ Username u = name /\ ConnectionURI u = uri /\
      (addr <> "" -> writable (issued_key kid addr (PrivateKey u) pub transport w alt) ->
       exists ck, ParseConnectionKey now uri = inr ck /\
         ToClientConfig ck = {| c_Server := addr; c_ServerTCP := ""; c_ServerWS := ""; c_PSK := PrivateKey u; c_ServerPub := pub;
           c_ObfsPreset := "default"; c_RussianService := ""; c_TransportConfig := None; c_Transport := (if decide (transport = "") then "auto" else transport);
           c_WhisperaAddr := o_Addr w; c_WhisperaSNI := o_SNI w; c_DropECH := o_DropECH w; c_WhisperaQUICAddr := o_QUICAddr w; c_WhisperaCertPin := o_CertPin w;
           c_WhisperaIDPub := o_IDPub w; c_WhisperaSelPub := o_SelPub w; c_WhisperaFPRaw := o_FPRaw w;
           c_GRPCAddr := a_GRPCAddr alt; c_GRPCServerName := a_GRPCServerName alt; c_GRPCUseTLS := a_GRPCUseTLS alt;
           c_YaDiskOAuthToken := a_YaDiskOAuthToken alt; c_YaDiskSessionID := a_YaDiskSessionID alt;
           c_UDPOnly := bool_decide (transport = "udp"); c_ASNBypass := Some (true, fingerprintOrDefault (o_Fingerprint w), "") |})
  end.
Proof.
  intros Hr Hv. destruct (users_distinct s s Hr (rtc_refl _ _)) as [Hs _]. destruct (load_ok s Hs) as [[_ Hb _] _].
  unfold CLIBuildConnectionKey. cbn zeta. pose proof (find_user_spec visit name _ Hv) as Hf. destruct (find_user _ _ _) as [u|]; intros [= <- <-]; [|done].
  destruct Hf as [Hn [id Hu]]. destruct (bk_id _ _ Hb _ _ Hu) as [-> _].
  set (uri := key_uri _). exists id, (set_uri uri u). split; [|split; [done|split; [done|]]].
  { unfold saveUsers. destruct ok; cbn; rewrite lookup_alter_eq, Hu; done. }
  intros Ha Hw. eexists. split; [apply key_uri_parses; [exact Hw| |done]|].
  - unfold hasServerAddr. cbn. by rewrite bool_decide_eq_false_2.
  - unfold ToClientConfig, applyConnKeyDefaults, issued_key, first_of. cbn.
    destruct (decide (transport = "")) as [->|Ht].
    + f_equal; by repeat case_bool_decide.
    + rewrite (bool_decide_eq_false_2 (transport = "")) by done. f_equal; by repeat case_bool_decide.
Qed.

(** A user that could not be saved is gone with the next command. *)
Lemma unsaved_user_lost visit visit2 save keys now name kid addr pub tr w alt s :
  userFile s = Some (mkUserFile [] 1) -> find_user visit name (applyUsersFromFile s) = None ->
  (CLIUpsertUser visit false save (Some keys) now name s).2 = Some keys /\
  (CLIBuildConnectionKey visit2 true save kid name addr pub tr w alt (CLIUpsertUser visit false save (Some keys) now name s).1).2 = None.
Proof.
  intros Hfile Hf. unfold CLIUpsertUser. cbn zeta. rewrite Hf. destruct keys as [priv pk]. cbn [snd fst saveUsers]. split; [done|].
  unfold CLIBuildConnectionKey. cbn zeta. set (s1 := applyUsersFromFile _). assert (E : userStore s1 = ∅).
  { unfold s1, applyUsersFromFile. cbn [with_users userFile]. rewrite Hfile. cbn. by rewrite Hfile. }
  unfold find_user, users. rewrite E. replace (omap _ visit2) with (@nil User); [done|].
  induction visit2 as [|v l IH]; [done|]. cbn. rewrite lookup_empty. exact IH.
Qed.

(** ** Subscriptions *)

Lemma split_none sep l n cur : sep ∉ l -> split_n (S (S n)) sep cur l = [rev cur ++ l].
Proof.
  revert cur. induction l as [|x l IH]; intros cur; [cbn; by rewrite app_nil_r|]. intros [Hx Hl]%not_elem_of_cons. cbn [split_n].
  rewrite (proj2 (Z.eqb_neq x sep)) by congruence. rewrite IH by done. cbn. by rewrite <- app_assoc.
Qed.

Lemma pad_bad val c l : val c = None -> pad_quanta val (c :: l) = None.
Proof. intros H. destruct l as [|b [|d [|f l]]]; [done..|]. cbn. by rewrite H. Qed.

(** Text that begins with a brace is no key. *)
Lemma brace_no_key `{UrlParse} now l d : last (123 :: l) = Some d -> solid d -> Forall printable l ->
  ParseConnectionKey now (string_of_bytes (123 :: l)) = inl BadEncoding.
Proof.
  intros Hd Hs Hp. assert (Hb : Forall is_byte (123 :: l)) by (constructor; [unfold is_byte; lia|eapply Forall_impl; [exact Hp|]; unfold printable, is_byte; lia]).
  assert (Et : TrimSpace (string_of_bytes (123 :: l)) = string_of_bytes (123 :: l)).
  { unfold TrimSpace. rewrite bytes_of_string_of_bytes, (trim_ends 123 l d); [done|done|unfold solid; lia|done|done]. }
  unfold ParseConnectionKey. rewrite Et. cbn zeta.
  assert (Hpre : forall p x r, bytes_of_string p = x :: r -> x <> 123 -> HasPrefix (string_of_bytes (123 :: l)) p = false /\ TrimPrefix (string_of_bytes (123 :: l)) p = string_of_bytes (123 :: l)).
  { intros p x r Ep Hx. unfold HasPrefix, has_prefix, TrimPrefix. rewrite bytes_of_string_of_bytes, Ep by done. cbn [strip_prefix]. by rewrite (proj2 (Z.eqb_neq x 123) Hx). }
  assert (Ef : isForeignScheme (string_of_bytes (123 :: l)) = false).
  { unfold isForeignScheme, foreignSchemes. cbn [existsb]. 
    repeat match goal with |- context [HasPrefix _ ?p] => rewrite (proj1 (Hpre p _ _ ltac:(reflexivity) ltac:(discriminate))) end. done. }
  rewrite Ef. rewrite (proj1 (Hpre "whispera://" _ _ ltac:(reflexivity) ltac:(discriminate))). cbn [andb].
  rewrite (proj2 (Hpre "whispera://" _ _ ltac:(reflexivity) ltac:(discriminate))), (proj2 (Hpre "wpn://" _ _ ltac:(reflexivity) ltac:(discriminate))).
  unfold parseBase64ConnKey, decode_any, std_decode, url_decode, pad_decode, bytes, Auth.b64_decode. rewrite bytes_of_string_of_bytes by done.
  rewrite filter_cons, decide_True by (unfold Auth.not_newline; lia). by rewrite !pad_bad.
Qed.

Lemma subscription_clean visit servers updated sub s : clean servers -> clean (subscription_json visit servers updated sub s).
Proof.
  intros Hs. unfold subscription_json. cbn zeta. constructor.
  repeat (constructor; [split; [apply bytes_of_string_ok|]; cbn [snd]|]); try constructor; try done; try apply bytes_of_string_ok.
  destruct (subscriptionKeys visit sub s) as [|k ks]; constructor. apply Forall_fmap, Forall_true. intros x. constructor. apply bytes_of_string_ok.
Qed.

(** The JSON of a subscription: a brace, printable text, a brace. *)
Lemma subscription_text visit servers updated sub s : clean servers ->
  exists l, print (subscription_json visit servers updated sub s) = 123 :: 34 :: l /\ Forall printable (34 :: l) /\ last (123 :: 34 :: l) = Some 125.
Proof.
  intros Hs. pose proof (print_clean _ (subscription_clean visit servers updated sub s Hs)) as Hp.
  assert (E : exists l, print (subscription_json visit servers updated sub s) = 123 :: 34 :: l ++ [125]).
  { unfold subscription_json. cbn zeta. cbn [print quote fst app]. eexists. reflexivity. }
  destruct E as [l E]. exists (l ++ [125]). rewrite E in *. inversion_clear Hp as [|? ? _ Hp']. split_and!; [done|done|].
  rewrite !app_comm_cons. apply last_snoc.
Qed.

(** A base64 text of a subscription is no JSON: it begins with a letter. *)
Lemma encoded_no_json l : exists l', std_encode (123 :: 34 :: l) = 101 :: l' /\ string_array (std_encode (123 :: 34 :: l)) = None.
Proof. destruct l as [|c l]; eexists; (split; [reflexivity|]); reflexivity. Qed.

(** C20: a subscription that the server serves is read by the client as having no
    keys at all, whatever users and keys it was made for: the client looks for lines
    or an array of keys, the server sends an object. *)
Theorem own_subscription_unreadable `{UrlParse} now visit servers updated token s body : clean servers ->
  handleServeSubscription visit servers updated token s = Some body -> read_subscription now body = None.
Proof.
  intros Hs. unfold handleServeSubscription. case_bool_decide; [done|]. destruct (subByToken s !! token) as [sub|]; [|done].
  destruct (subscription_text visit servers updated sub s Hs) as (l & -> & Hp & Hl). intros E. apply (inj Some) in E as <-.
  assert (Hb : Forall is_byte (123 :: 34 :: l)) by (constructor; [unfold is_byte; lia|eapply Forall_impl; [exact Hp|]; unfold printable, is_byte; lia]).
  pose proof (std_encode_chars _ Hb) as Hc. destruct (encoded_no_json l) as (l' & El & Hj).
  assert (Hcb : Forall is_byte (std_encode (123 :: 34 :: l))) by (eapply Forall_impl; [exact Hc|]; cbn; unfold is_byte; lia).
  unfold read_subscription. cbn zeta. assert (Et : TrimSpace (string_of_bytes (std_encode (123 :: 34 :: l))) = string_of_bytes (std_encode (123 :: 34 :: l))).
  { unfold TrimSpace. rewrite bytes_of_string_of_bytes by done. rewrite trim_solid; [done|rewrite El; done|]. eapply Forall_impl; [exact Hc|]. cbn. unfold solid. lia. }
  rewrite Et. unfold bytes. rewrite bytes_of_string_of_bytes by done. rewrite Hj, std_roundtrip by done.
  assert (Eb : TrimSpace (string_of_bytes (123 :: 34 :: l)) = string_of_bytes (123 :: 34 :: l)).
  { unfold TrimSpace. rewrite bytes_of_string_of_bytes, (trim_ends 123 (34 :: l) 125); [done|done|unfold solid; lia..|done]. }
  rewrite Eb, bytes_of_string_of_bytes by done. unfold split_all. rewrite split_none; [cbn [rev app map]|].
  2:{ intros [?|Hin]%elem_of_cons; [done|]. rewrite Forall_forall in Hp. specialize (Hp 10 Hin). unfold printable in Hp. lia. }
  unfold parseKeyList. cbn [omap list_omap]. rewrite Eb. cbn zeta.
  rewrite (brace_no_key now (34 :: l) 125 Hl ltac:(unfold solid; lia) Hp). by destruct (_ || _).
Qed.

(** ** Witnesses *)

Module StoreWitnesses.

#[local] Instance no_url : UrlParse := { url_parse := fun _ => None }.

Definition opts : WhisperaKeyOptions := mkWhispera "203.0.113.7:443" "cdn.example" "" "" "" "" "" "" false.
Definition alt0 : AltTransportKeyOptions := mkAlt "" "" false "" "".
Definition s1 : store := (CLIUpsertUser [] true [1] (Some ("c2VjcmV0", "cHVibGlj")) 7 "alice" new_store).1.
Definition built : store * option string := CLIBuildConnectionKey [1] true [1] "k1" "alice" "203.0.113.7:443" "cHVi" "tcp" opts alt0 s1.
Definition key1 : ConnectionKey := issued_key "k1" "203.0.113.7:443" "c2VjcmV0" "cHVi" "tcp" opts alt0.

Lemma key1_writable : writable key1.
Proof.
  split; [reflexivity|vm_compute; split; [discriminate|reflexivity]..|].
  assert (H : forallb (fun m => match m.2 with Some (JStr t) => valid_utf8 (length t) t && bool_decide (Forall (fun z => 0 <= z < 256) t) | _ => true end) (encode_key key1) = true)
    by (vm_compute; reflexivity).
  apply Forall_forall. intros m Hm. rewrite forallb_forall in H. specialize (H m (proj1 (list_elem_of_In _ _) Hm)).
  destruct (m.2) as [[| | |t| |]|]; try exact I. apply andb_true_iff in H as [H1 H2]. split; [exact H1|]. apply bool_decide_eq_true in H2. exact H2.
Qed.

Lemma issued_key_parses_witness : exists ck, ParseConnectionKey 0 (key_uri key1) = inr ck /\ Server ck = "203.0.113.7:443".
Proof. eexists. split; [apply (issued_key_parses 0 key1 key1_writable); reflexivity|reflexivity]. Defined.

Lemma accepted_key_usable_witness : exists ck, usable 0 ck /\ resolveTransportList "auto" (ToClientConfig ck) <> [].
Proof.
  destruct (ParseConnectionKey 0 (key_uri key1)) as [er|ck] eqn:E.
  - exfalso. assert (Hv : match ParseConnectionKey 0 (key_uri key1) with inl _ => false | inr _ => true end = true) by (vm_compute; reflexivity).
    rewrite E in Hv. discriminate.
  - exists ck. destruct (accepted_key_usable 0 (key_uri key1) ck "auto" E) as (H1 & _ & H3). split; [exact H1|exact H3].
Defined.

Lemma reach_s1 : rtc step new_store s1.
Proof. apply rtc_once, (st_upsert new_store [] true [1]). unfold full. vm_compute. reflexivity. Qed.

Lemma users_distinct_witness : store_ok s1 /\ nextUserID s1 = 2.
Proof. destruct (users_distinct new_store s1 (rtc_refl _ _) reach_s1) as [H _]. split; [exact H|vm_compute; reflexivity]. Defined.

Lemma built_key_configures_witness : exists uri ck, built.2 = Some uri /\ ParseConnectionKey 0 uri = inr ck /\
  c_PSK (ToClientConfig ck) = "c2VjcmV0" /\ c_ServerPub (ToClientConfig ck) = "cHVi" /\ c_Server (ToClientConfig ck) = "203.0.113.7:443".
Proof.
  pose proof (built_key_configures 0 [1] true [1] "k1" "alice" "203.0.113.7:443" "cHVi" "tcp" opts alt0 s1 built.1 built.2 reach_s1) as H.
  assert (Hf : full [1] (userStore (applyUsersFromFile s1))) by (unfold full; vm_compute; reflexivity).
  specialize (H Hf (surjective_pairing built)). destruct (built.2) as [uri|] eqn:E.
  - destruct H as (id & u & H1 & H2 & _ & H4).
    assert (Hp : PrivateKey u = "c2VjcmV0").
    { assert (Hu : forall j v, userStore built.1 !! j = Some v -> PrivateKey v = "c2VjcmV0").
      { intros j v Hv. apply elem_of_map_to_list in Hv. assert (Hm : map (fun kv => PrivateKey kv.2) (map_to_list (userStore built.1)) = ["c2VjcmV0"]) by (vm_compute; reflexivity).
        assert (Hin : PrivateKey v ∈ map (fun kv => PrivateKey kv.2) (map_to_list (userStore built.1))) by (apply list_elem_of_In, in_map_iff; exists (j, v); split; [reflexivity|by apply list_elem_of_In]).
        rewrite Hm in Hin. by apply list_elem_of_singleton in Hin. }
      exact (Hu id u H1). }
    rewrite Hp in H4. destruct (H4 ltac:(discriminate) key1_writable) as (ck & Hck & Hcfg). exists uri, ck. rewrite Hcfg. split_and!; [reflexivity|exact Hck|reflexivity..].
  - exfalso. assert (Hv : match built.2 with Some _ => true | None => false end = true) by (vm_compute; reflexivity). rewrite E in Hv. discriminate.
Defined.

Definition served : option string :=
  let s := (CLICreateSubscription [[1]] true ["1"] [1; 2; 3] 9 "home" ["alice"] built.1).1 in
  handleServeSubscription [1] (JArr []) "2024-01-01T00:00:00Z" (subscription_token [1; 2; 3]) s.

Lemma own_subscription_unreadable_witness : exists body, served = Some body /\ read_subscription 0 body = None.
Proof.
  destruct served as [body|] eqn:E.
  - exists body. split; [reflexivity|]. unfold served in E.
    eapply (own_subscription_unreadable 0 [1] (JArr [])); [constructor; constructor|exact E].
  - exfalso. assert (Hv : match served with Some _ => true | None => false end = true) by (vm_compute; reflexivity). rewrite E in Hv. discriminate.
Defined.

(** A malformed expiry date counts as none. *)
Lemma bad_expiry_ignored : scan_exp (bytes "never") = 0 /\ scan_exp (bytes "99999999999999999999") = 0 /\ scan_exp (bytes "1700000000") = 1700000000.
Proof. split_and!; vm_compute; reflexivity. Qed.

(** The server shown for a key may be none although the client dials one. *)
Definition ws_key : ConnectionKey := applyConnKeyDefaults (issued_key "k1" "203.0.113.7:443" "c2VjcmV0" "cHVi" "ws" opts alt0).
Lemma primary_server_missing : GetPrimaryServer ws_key = "" /\ resolveServerAddress (ToClientConfig ws_key) (Transport ws_key) = "203.0.113.7:443".
Proof. split; vm_compute; reflexivity. Qed.

End StoreWitnesses.
