(* ===== verification/Camo.v ===== *)
(** Recognising clients by their ClientHello: the markers and selectors of
    core/protocol/camo, the index of users by selector tag
    (core/protocol/selector_index.go), the listener that lets recognised clients
    through and relays everyone else to the decoy (core/protocol/camouflage.go),
    and the client's side of it (core/protocol/client.go, [tlsHandshake] and
    [selectorFor]).

    HMAC is the operation of [Auth.Crypto]; SHA-256, HKDF and the scalar
    multiplication of X25519 are those of [Curve]; reading a ClientHello is the
    third-party operation of [Utls].  Times are in nanoseconds.  A private key is
    its scalar. *)

From S2P Require Import Prelude GoIO GoStr NetIP Auth GoJson.

Module Camo.
Import Auth.

Class Curve := {
  sha256 : list Z -> list Z;
  hkdf_sha256 : list Z -> list Z -> Z -> list Z;
  x25519 : list Z -> list Z -> list Z
}.

Record Hello := mkHello { ServerName : string; Random : list Z; KeyShares : list (Z * list Z) }.
Class Utls := { UnmarshalClientHello : list Z -> option Hello }.

(** [copy(out[:], l)] into an array of [n] bytes. *)
Definition fit (n : Z) (l : list Z) : list Z := ztake n l ++ replicate (Z.to_nat (n - len l)) 0.

(** [time.Now().Unix()]. *)
Definition second : Z := 1000000000.
Definition Unix (now : Z) : Z := Z.quot now second.

(** ** camo/marker.go *)

Definition WindowSeconds : Z := 30.
Definition WindowTol : Z := 1.
Definition driftProbeWindows : Z := 10.
Definition X25519 : Z := 29.

Section Markers.
Context `{Crypto}.

(** nil is the empty list. *)
Definition DeriveKey (psk : list Z) : list Z :=
  if negb (len psk =? 32) then [] else hmac_sha256 psk (bytes_of_string "whispera-camo-v1").

Definition ExtractX25519KeyShare (shares : list (Z * list Z)) : list Z :=
  match find (fun sh => sh.1 =? X25519) shares with Some sh => sh.2 | None => [] end.

Definition markerForWindow (key : list Z) (window : Z) (keyShare : list Z) : list Z :=
  fit 32 (hmac_sha256 key (put64 (u64 window) ++ keyShare)).

Definition BuildMarker (now : Z) (key keyShare : list Z) : list Z := markerForWindow key (Z.quot (Unix now) WindowSeconds) keyShare.

(** The candidates from [w - WindowTol] to [w + WindowTol]. *)
Definition windows (w : Z) : list Z := seqZ (w - WindowTol) (2 * WindowTol + 1).

Definition MarkerMatches (now : Z) (keys : list (list Z)) (random keyShare : list Z) : bool :=
  if negb (len random =? 32) || (len keys =? 0) || (len keyShare =? 0) then false
  else existsb (fun key => negb (len key =? 0)
         && existsb (fun cand => bool_decide (markerForWindow key cand keyShare = random)) (windows (Z.quot (Unix now) WindowSeconds))) keys.

(** The offsets tried for one key, nearest first, later before earlier. *)
Definition drift_of (key : list Z) (w : Z) (random keyShare : list Z) : option Z :=
  head (omap (fun off => if bool_decide (markerForWindow key (w + off) keyShare = random) then Some off else None)
    (concat (map (fun o => [o; - o]) (seqZ (WindowTol + 1) (driftProbeWindows - WindowTol))))).

Definition MarkerDrift (now : Z) (keys : list (list Z)) (random keyShare : list Z) : option Z :=
  if negb (len random =? 32) || (len keys =? 0) || (len keyShare =? 0) then None
  else head (omap (fun key => if len key =? 0 then None else drift_of key (Z.quot (Unix now) WindowSeconds) random keyShare) keys).

End Markers.

(** ** camo/selector.go *)

Definition SelectorSize : Z := 8.
Definition MarkerSize : Z := 32 - SelectorSize.

Section Selectors.
Context `{Crypto} `{Curve}.

Definition basepoint : list Z := 9 :: replicate 31 0.
Definition PublicKey (priv : list Z) : list Z := x25519 priv basepoint.
(** [ECDH] refuses an all-zero result. *)
Definition ECDH (priv pub : list Z) : option (list Z) :=
  let s := x25519 priv pub in if forallb (Z.eqb 0) s then None else Some s.
(** [NewPublicKey] and [NewPrivateKey] refuse all but 32 bytes. *)
Definition key32 (k : list Z) : option (list Z) := if len k =? 32 then Some k else None.

Definition ServerKeyFromSeed (seed : list Z) : option (list Z) := key32 (hkdf_sha256 seed (bytes_of_string "whispera-selector-x25519-v1") 32).
Definition UserTag (psk : list Z) : list Z := fit SelectorSize (hmac_sha256 psk (bytes_of_string "whispera-uid-v1")).
Definition selectorMask (shared : list Z) : list Z := fit SelectorSize (sha256 (bytes_of_string "whispera-sel-v1" ++ shared)).
Definition xorTag (a b : list Z) : list Z := zip_with Z.lxor a b.

Definition BuildSelector (psk ephPriv serverPub : list Z) : option (list Z) :=
  shared ← ECDH ephPriv serverPub; Some (xorTag (UserTag psk) (selectorMask shared)).
Definition OpenSelector (selector serverPriv keyShare : list Z) : option (list Z) :=
  peer ← key32 keyShare; shared ← ECDH serverPriv peer; Some (xorTag selector (selectorMask shared)).

Definition markerFor (key : list Z) (window : Z) (keyShare : list Z) : list Z :=
  fit MarkerSize (hmac_sha256 key (put64 (u64 window) ++ keyShare)).

Definition SplitRandom (random : list Z) : option (list Z * list Z) :=
  if negb (len random =? 32) then None else Some (ztake SelectorSize random, zdrop SelectorSize random).
Definition WriteRandom (random sel key : list Z) (window : Z) (keyShare : list Z) : list Z :=
  if negb (len random =? 32) then random else ztake SelectorSize sel ++ markerFor key window keyShare.

(** [now] is in seconds. *)
Definition MarkerMatchesKey (key marker keyShare : list Z) (now : Z) : bool :=
  if negb (len marker =? MarkerSize) || (len key =? 0) || (len keyShare =? 0) then false
  else existsb (fun cand => bool_decide (markerFor key cand keyShare = marker)) (windows (Z.quot now WindowSeconds)).

(** ** selector_index.go *)

Record selectorEntry := mkEntry { userID : string; psk : list Z; camoKey : list Z }.
Record selectorIndex := mkIndex {
  byTag : option (gmap (list Z) selectorEntry); keys : list (list Z); builtAt : Z; builtVer : Z; hasVer : bool
}.
Definition new_index : selectorIndex := mkIndex None [] 0 0 false.
Definition selectorIndexTTL : Z := second.

Definition entry_of (u : UserEntry) : selectorEntry := mkEntry (UserID u) (PSK u) (DeriveKey (PSK u)).
(** The users the index is built of, the shared secret first. *)
Definition indexed (cfg : ServerConfig) : list UserEntry :=
  List.filter (fun u => len (PSK u) =? 32) (mkUser "default" (SharedSecret cfg) :: default [] (GetUsers cfg)).
Definition build (cfg : ServerConfig) : gmap (list Z) selectorEntry :=
  foldl (fun m u => <[UserTag (PSK u) := entry_of u]> m) ∅ (indexed cfg).

Definition fresh (now : Z) (ver : option Z) (s : selectorIndex) : bool :=
  match byTag s with
  | None => false
  | Some _ => match ver with
              | Some v => if hasVer s then builtVer s =? v else now - builtAt s <? selectorIndexTTL
              | None => now - builtAt s <? selectorIndexTTL
              end
  end.

(** [ver] is what [UsersVersion] returns, if it is set.  Go does not say in which
    order it ranges over the map for [keys]. *)
Definition snapshot (now : Z) (ver : option Z) (cfg : ServerConfig) (s : selectorIndex) : selectorIndex * gmap (list Z) selectorEntry :=
  if fresh now ver s then (s, default ∅ (byTag s))
  else let built := build cfg in
       (mkIndex (Some built) (map camoKey (map_to_list built).*2) now (default 0 ver) (bool_decide (is_Some ver)), built).
Definition camoKeys (now : Z) (ver : option Z) (cfg : ServerConfig) (s : selectorIndex) : selectorIndex * list (list Z) :=
  let s := (snapshot now ver cfg s).1 in (s, keys s).

Inductive selReason := ShortFields | NoIdentity | NoKey | BadRandom | OpenFailed | UnknownTag | StaleMarker.

(** [identity] is the seed of the active identity, if there is one. *)
Definition resolveBySelector (now : Z) (ver : option Z) (identity : option (list Z)) (cfg : ServerConfig) (s : selectorIndex) (random keyShare : list Z)
    : selectorIndex * (selReason + selectorEntry) :=
  if negb (len random =? 32) || negb (len keyShare =? 32) then (s, inl ShortFields)
  else match identity with
  | None => (s, inl NoIdentity)
  | Some seed =>
      match ServerKeyFromSeed seed with
      | None => (s, inl NoKey)
      | Some priv =>
          match SplitRandom random with
          | None => (s, inl BadRandom)
          | Some (sel, marker) =>
              match OpenSelector sel priv keyShare with
              | None => (s, inl OpenFailed)
              | Some tag =>
                  let '(s, idx) := snapshot now ver cfg s in
                  match idx !! tag with
                  | None => (s, inl UnknownTag)
                  | Some entry => (s, if MarkerMatchesKey (camoKey entry) marker keyShare (Unix now) then inr entry else inl StaleMarker)
                  end
              end
          end
      end
  end.

(** ** client.go *)

(** [selectorFor]: [cands] are the ephemeral keys of the handshake, [None] when
    there are none. *)
Definition selectorFor (serverSelPub : string) (secret : list Z) (cands : option (list (option (list Z)))) (keyShare : list Z) : option (list Z) :=
  if bool_decide (serverSelPub = "") || negb (len secret =? 32) then None
  else
    serverPub ← (GoJson.std_decode (bytes_of_string serverSelPub) ≫= key32);
    ks ← cands;
    eph ← find (fun eph => bool_decide (PublicKey eph = keyShare)) (omap id ks);
    BuildSelector secret eph serverPub.

(** The random that [tlsHandshake] puts in its hello. *)
Definition mark_random (now : Z) (key : list Z) (sel : option (list Z)) (keyShare random : list Z) : list Z :=
  match sel with
  | Some sel => WriteRandom random sel key (Z.quot (Unix now) WindowSeconds) keyShare
  | None => BuildMarker now key keyShare
  end.
Definition mark_hello (now : Z) (key : list Z) (serverSelPub : string) (secret : list Z) (cands : option (list (option (list Z)))) (h : Hello) : Hello :=
  let keyShare := ExtractX25519KeyShare (KeyShares h) in
  if bool_decide (key = []) || negb (len (Random h) =? 32) || (len keyShare =? 0) then h
  else mkHello (ServerName h) (mark_random now key (selectorFor serverSelPub secret cands keyShare) keyShare (Random h)) (KeyShares h).

End Selectors.

(** ** camouflage.go *)

Definition camoMaxHandshake : Z := 8192.

Inductive peek_error := HelloIncomplete (e : error) | NotHandshake | BadRecordLength | HelloTooLarge | NotClientHello | BadClientHello.
Record peekedHello := mkPeeked { raw : list Z; random : list Z; sni : string; keyShare : list Z }.
Definition only_raw (b : list Z) : peekedHello := mkPeeked b [] "" [].

Section Listener.
Context `{Crypto} `{Curve} `{Utls}.

(** [body[i]] for an index the code has checked. *)
Definition byte_at (l : list Z) (i : Z) : Z := nth (Z.to_nat i) l 0.

(** The loop of [peekClientHello] over the records; [b] and [hs] are its [raw] and
    [hs].  [readFullIdle] reads all or fails, like [io.ReadFull]. *)
Fixpoint peek_loop (fuel : nat) (c : Conn) (b hs : list Z) : option (Conn * peekedHello * option peek_error) :=
  match fuel with
  | O => None
  | S fuel =>
      match ReadFull c 5 with
      | (c, inr e) => Some (c, only_raw b, Some (HelloIncomplete e))
      | (c, inl hdr) =>
          let b := b ++ hdr in
          if negb (byte_at hdr 0 =? 22) then Some (c, only_raw b, Some NotHandshake)
          else
            let recLen := Z.lor (Z.shiftl (byte_at hdr 3) 8) (byte_at hdr 4) in
            if (recLen <=? 0) || (16384 <? recLen) then Some (c, only_raw b, Some BadRecordLength)
            else match ReadFull c recLen with
            | (c, inr e) => Some (c, only_raw b, Some (HelloIncomplete e))
            | (c, inl body) =>
                let b := b ++ body in
                let hs := hs ++ body in
                if camoMaxHandshake <? len hs then Some (c, only_raw b, Some HelloTooLarge)
                else if len hs <? 4 then peek_loop fuel c b hs
                else if negb (byte_at hs 0 =? 1) then Some (c, only_raw b, Some NotClientHello)
                else
                  let bodyLen := Z.lor (Z.lor (Z.shiftl (byte_at hs 1) 16) (Z.shiftl (byte_at hs 2) 8)) (byte_at hs 3) in
                  let want := 4 + bodyLen in
                  if len hs <? want then peek_loop fuel c b hs
                  else match UnmarshalClientHello (ztake want hs) with
                       | None => Some (c, only_raw b, Some BadClientHello)
                       | Some msg => Some (c, mkPeeked b (Random msg) (ServerName msg) (ExtractX25519KeyShare (KeyShares msg)), None)
                       end
            end
      end
  end.
(** Each record adds a byte to [hs], which the limit bounds. *)
Definition peek_fuel : nat := Z.to_nat (camoMaxHandshake + 1).
Definition peekClientHello (c : Conn) : option (Conn * peekedHello * option peek_error) := peek_loop peek_fuel c [] [].

(** [prefixConn] and its [Read] into a buffer of [n] bytes; a read of the
    connection underneath gives some of what is there. *)
Record prefixConn := mkPrefix { p_conn : Conn; prefix : list Z; off : Z; knownUser : string; knownPSK : list Z; decoy : bool }.
Definition Conn_Read (m : Z) (c : Conn) (n : Z) : Conn * (list Z + error) :=
  if len (c_in c) =? 0 then (c, inr (c_inerr c))
  else let k := Z.min n (Z.min (Z.max 1 m) (len (c_in c))) in (with_in c (zdrop k (c_in c)), inl (ztake k (c_in c))).
Definition prefix_Read (m : Z) (pc : prefixConn) (n : Z) : prefixConn * (list Z + error) :=
  if off pc <? len (prefix pc) then
    let got := ztake n (zdrop (off pc) (prefix pc)) in
    (mkPrefix (p_conn pc) (prefix pc) (off pc + len got) (knownUser pc) (knownPSK pc) (decoy pc), inl got)
  else let '(c, r) := Conn_Read m (p_conn pc) n in
       (mkPrefix c (prefix pc) (off pc) (knownUser pc) (knownPSK pc) (decoy pc), r).

Definition validSNI (s : string) : bool := negb (bool_decide (s = "")) && bool_decide (ParseIP s = None).
(** [fallbackHost] is the host name of the configured origin. *)
Definition camoDecoyAddr (fallbackHost sni : string) : string :=
  let host := if validSNI sni then sni else fallbackHost in
  if bool_decide (host = "") then "" else JoinHostPort host "443".

(** [decoyIPRate]. *)
Record decoyRate := mkRate { seen : gmap string Z; count : gmap string Z; lastClean : Z }.
Definition decoyRateWindow : Z := 10 * second.
Definition decoyRateMax : Z := 20.

Definition rate_clean (now : Z) (r : decoyRate) : decoyRate :=
  if 60 * second <? now - lastClean r then
    let keep (p : string * Z) := ~ decoyRateWindow < now - p.2 in
    let s := filter keep (seen r) in
    let old (p : string * Z) := is_Some (seen r !! p.1) -> is_Some (s !! p.1) in
    mkRate s (filter old (count r)) now
  else r.
Definition decoyIPRateAllow (now : Z) (remote : string) (r : decoyRate) : decoyRate * bool :=
  let ip := match SplitHostPort remote with Some (h, _) => h | None => remote end in
  let r := rate_clean now r in
  let first := (mkRate (<[ip := now]> (seen r)) (<[ip := 1]> (count r)) (lastClean r), true) in
  match seen r !! ip with
  | None => first
  | Some last =>
      if decoyRateWindow <? now - last then first
      else let n := default 0 (count r !! ip) + 1 in
           (mkRate (seen r) (<[ip := n]> (count r)) (lastClean r), n <=? decoyRateMax)
  end.

Definition markerDriftInterval : Z := 60 * second.

(** What becomes of a connection: handed to the server, closed, or relayed to the
    origin, which has been sent the hello. *)
Inductive fate := Passed (pc : prefixConn) | Closed (c : Conn) | Relayed (c upstream : Conn) (target : string).

Record listener := mkListener { index : selectorIndex; rate : decoyRate; driftLast : Z }.

(** [handOver]: [open] is whether the listener takes the connection before it is
    closed. *)
Definition handOver (open : bool) (c : Conn) (ph : peekedHello) (user : string) (psk : list Z) (decoy : bool) : fate :=
  if open then Passed (mkPrefix c (raw ph) 0 user psk decoy) else Closed (Conn_Close c).

(** [relayToOrigin] up to the copying in both directions; [dial] is the connection
    to the target, if it can be made. *)
Definition relayToOrigin (dial : string -> option Conn) (c : Conn) (b : list Z) (addr : string) : option fate :=
  if bool_decide (addr = "") then None
  else match dial addr with
       | None => None
       | Some up => if 0 <? len b then
                      match Conn_Write up b with
                      | (_, Some _) => Some (Closed (Conn_Close c))
                      | (up, None) => Some (Relayed c up addr)
                      end
                    else Some (Relayed c up addr)
       end.

(** [driftProbeDue]: whether the drift is looked at, which only logs it. *)
Definition driftProbeDue (now : Z) (l : listener) : listener :=
  if now - driftLast l <? markerDriftInterval then l else mkListener (index l) (rate l) now.

Definition incomplete (err : option peek_error) : bool := match err with Some (HelloIncomplete _) => true | _ => false end.

(** [handle] for a client that was not recognised.  What it collects of the
    fingerprint is not modelled. *)
Definition refuse (now : Z) (open : bool) (dial : string -> option Conn) (fallback remote : string) (c : Conn) (ph : peekedHello) (err : option peek_error)
    (l : listener) : listener * fate :=
  if len (raw ph) =? 0 then (l, Closed (Conn_Close c))
  else if incomplete err && (byte_at (raw ph) 0 =? 22) then (l, Closed (Conn_Close c))
  else
    let l := match err with None => driftProbeDue now l | Some _ => l end in
    let '(r, allowed) := decoyIPRateAllow now remote (rate l) in
    let l := mkListener (index l) r (driftLast l) in
    if negb allowed then (l, Closed (Conn_Close c))
    else match relayToOrigin dial c (raw ph) (camoDecoyAddr fallback (sni ph)) with
         | Some f => (l, f)
         | None => (l, handOver open c ph "" [] true)
         end.

Definition with_index (l : listener) (s : selectorIndex) : listener := mkListener s (rate l) (driftLast l).

(** [handle]; [now] stands for the readings of the clock that the checks of one hello
    take one after the other. *)
Definition handle (now : Z) (ver : option Z) (identity : option (list Z)) (cfg : ServerConfig) (open : bool) (dial : string -> option Conn)
    (fallback remote : string) (c : Conn) (l : listener) : option (listener * fate) :=
  '(c, ph, err) ← peekClientHello c;
  Some match err with
  | Some _ => refuse now open dial fallback remote c ph err l
  | None =>
      match resolveBySelector now ver identity cfg (index l) (random ph) (keyShare ph) with
      | (s, inr entry) => (with_index l s, handOver open c ph (userID entry) (psk entry) false)
      | (s, inl _) =>
          let '(s, ks) := camoKeys now ver cfg s in
          let l := with_index l s in
          if MarkerMatches now ks (random ph) (keyShare ph) then (l, handOver open c ph "" [] false)
          else refuse now open dial fallback remote c ph err l
      end
  end.

End Listener.
End Camo.
