(* ===== verification/CamoFacts.v ===== *)
(** Facts about recognising clients: reading the hello from the stream, the
    agreement of the client's marker with the server's check, and what becomes of
    the bytes of every connection. *)

From S2P Require Import Prelude GoIO GoStr NetIP GoBytes Auth GoJson Camo.
Import Auth Camo.

(** ** Peeking at the hello *)

Lemma ReadFull_spec c n c' b : ReadFull c n = (c', inl b) -> 0 <= n ->
  c_in c = b ++ c_in c' /\ len b = n /\ c' = with_in c (c_in c').
Proof.
  unfold ReadFull. destruct (n <=? len (c_in c)) eqn:E; [|done]. intros [= <- <-] ?. bool_to_prop. cbn.
  rewrite ztake_zdrop, zlen_ztake by lia. done.
Qed.

Section Peek.
Context `{Utls}.

(** [peek_loop] has fuel for every input: [hs] grows by a byte per record. *)
Lemma peek_loop_total fuel c b hs : camoMaxHandshake < Z.of_nat fuel + len hs -> len hs <= camoMaxHandshake -> is_Some (peek_loop fuel c b hs).
Proof.
  revert c b hs. induction fuel as [|fuel IH]; intros c b hs; [lia|]. intros Hf Hh. cbn -[Z.of_nat].
  destruct (ReadFull c 5) as [c1 [hdr|e]] eqn:E1; [|eauto].
  destruct (negb (byte_at hdr 0 =? 22)); [eauto|].
  destruct (_ || _) eqn:El; [eauto|]. bool_to_prop.
  destruct (ReadFull c1 _) as [c2 [body|e]] eqn:E2; [|eauto].
  apply ReadFull_spec in E2 as (_ & Hb & _); [|lia].
  destruct (camoMaxHandshake <? len (hs ++ body)) eqn:Em; [eauto|]. bool_to_prop.
  assert (is_Some (peek_loop fuel c2 ((b ++ hdr) ++ body) (hs ++ body))) by (apply IH; rewrite zlen_app in *; lia).
  destruct (len (hs ++ body) <? 4); [done|]. destruct (negb _); [eauto|].
  destruct (_ <? _); [done|]. destruct (UnmarshalClientHello _); eauto.
Qed.

Lemma peek_total c : is_Some (peekClientHello c).
Proof. apply peek_loop_total; unfold peek_fuel, camoMaxHandshake; rewrite ?zlen_nil, ?Z2Nat.id; lia. Qed.

(** What was read is in [raw], unless a read failed part of the way. *)
Lemma peek_loop_exact fuel c b hs c' ph err :
  peek_loop fuel c b hs = Some (c', ph, err) -> incomplete err = false ->
  raw ph ++ c_in c' = b ++ c_in c /\ c' = with_in c (c_in c').
Proof.
  revert c b hs. induction fuel as [|fuel IH]; intros c b hs; [done|]. cbn.
  destruct (ReadFull c 5) as [c1 [hdr|e]] eqn:E1; [|intros [= <- <- <-]; done].
  apply ReadFull_spec in E1 as (Hc & _ & Hw1); [|lia].
  assert (Hx : b ++ c_in c = (b ++ hdr) ++ c_in c1) by (rewrite Hc, app_assoc; done).
  destruct (negb (byte_at hdr 0 =? 22)); [intros [= <- <- <-] _; done|].
  destruct (_ || _) eqn:El; [intros [= <- <- <-] _; done|]. bool_to_prop.
  destruct (ReadFull c1 _) as [c2 [body|e]] eqn:E2; [|intros [= <- <- <-]; done].
  apply ReadFull_spec in E2 as (Hc1 & _ & Hw2); [|lia].
  assert (Hy : b ++ c_in c = ((b ++ hdr) ++ body) ++ c_in c2) by (rewrite Hx, Hc1, !app_assoc; done).
  assert (Hw : c2 = with_in c (c_in c2)) by (rewrite Hw2, Hw1; done).
  assert (Hrec : peek_loop fuel c2 ((b ++ hdr) ++ body) (hs ++ body) = Some (c', ph, err) -> incomplete err = false ->
      raw ph ++ c_in c' = b ++ c_in c /\ c' = with_in c (c_in c')).
  { intros Hp Hi. destruct (IH _ _ _ Hp Hi) as [-> Hw']. split; [congruence|]. rewrite Hw', Hw. done. }
  split_ifs; try (intros [= <- <- <-] _; done); auto.
  destruct (UnmarshalClientHello _); intros [= <- <- <-] _; done.
Qed.

Lemma ReadFull_out c n : c_out (ReadFull c n).1 = c_out c.
Proof. unfold ReadFull. destruct (n <=? _); done. Qed.

Lemma peek_out fuel c b hs c' ph err : peek_loop fuel c b hs = Some (c', ph, err) -> c_out c' = c_out c.
Proof.
  revert c b hs. induction fuel as [|fuel IH]; intros c b hs; [done|]. cbn. pose proof (ReadFull_out c 5) as H1.
  destruct (ReadFull c 5) as [c1 [hdr|e]]; cbn in H1; [|intros [= <- <- <-]; done].
  set (n := Z.lor _ _). pose proof (ReadFull_out c1 n) as H2. destruct (ReadFull c1 n) as [c2 [body|e]]; cbn in H2.
  - split_ifs; try (intros [= <- <- <-]; congruence); try (intros Hp; apply IH in Hp; congruence).
    destruct (UnmarshalClientHello _); intros [= <- <- <-]; congruence.
  - split_ifs; intros [= <- <- <-]; congruence.
Qed.

Lemma peek_incomplete fuel c b hs c' ph err :
  peek_loop fuel c b hs = Some (c', ph, err) -> incomplete err = true ->
  (b = [] \/ byte_at b 0 = 22) -> raw ph = [] \/ byte_at (raw ph) 0 = 22.
Proof.
  revert c b hs. induction fuel as [|fuel IH]; intros c b hs; [done|]. cbn.
  destruct (ReadFull c 5) as [c1 [hdr|e]] eqn:E1; [|intros [= <- <- <-]; done].
  apply ReadFull_spec in E1 as (_ & Hl & _); [|lia].
  destruct (negb (byte_at hdr 0 =? 22)) eqn:E22; [intros [= <- <- <-]; done|]. bool_to_prop.
  destruct (_ || _) eqn:El; [intros [= <- <- <-]; done|].
  assert (Hb : (b = [] \/ byte_at b 0 = 22) -> forall l, byte_at ((b ++ hdr) ++ l) 0 = 22).
  { intros [->|Hb] l; rewrite <- !app_assoc, ?app_nil_l; [destruct hdr|destruct b]; done. }
  destruct (ReadFull c1 _) as [c2 [body|e]].
  - split_ifs; try (intros [= <- <- <-]; done); try (intros Hp Hi Hb'; eapply IH; [exact Hp|exact Hi|right; auto]).
    destruct (UnmarshalClientHello _); intros [= <- <- <-]; done.
  - intros [= <- <- <-] _ Hb'. right. cbn [raw only_raw]. rewrite <- (app_nil_r (b ++ hdr)). auto.
Qed.

(** ** A hello in any number of records *)

(** A handshake record with the body [chunk]; [v1] and [v2] are its version. *)
Definition record (v1 v2 : Z) (chunk : list Z) : list Z := [22; v1; v2] ++ put16 (len chunk) ++ chunk.
Definition framed (v1 v2 : Z) (chunks : list (list Z)) : list Z := concat (map (record v1 v2) chunks).

(** A handshake message with the type and the length of a ClientHello. *)
Definition client_hello (hs : list Z) : Prop :=
  byte_at hs 0 = 1 /\ len hs = 4 + Z.lor (Z.lor (Z.shiftl (byte_at hs 1) 16) (Z.shiftl (byte_at hs 2) 8)) (byte_at hs 3) /\ 4 <= len hs <= camoMaxHandshake.

Lemma byte_at_app l k i : 0 <= i < len l -> byte_at (l ++ k) i = byte_at l i.
Proof. intros. unfold byte_at. rewrite app_nth1; [done|]. unfold zlen in *. lia. Qed.

Lemma record_length_field n : 0 <= n < 65536 -> Z.lor (Z.shiftl (u8 (Z.shiftr n 8)) 8) (u8 n) = n.
Proof. intros Hn. exact (get16_put16 n [] Hn). Qed.

Lemma peek_record fuel c v1 v2 chunk chunks rest b hs whole h :
  client_hello whole -> UnmarshalClientHello whole = Some h ->
  chunk <> [] -> len chunk <= 16384 -> c_in c = record v1 v2 chunk ++ rest ->
  whole = hs ++ chunk ++ concat chunks -> Forall (fun l => l <> []) chunks ->
  peek_loop (S fuel) c b hs =
    match chunks with
    | [] => Some (with_in c rest, mkPeeked (b ++ record v1 v2 chunk) (Random h) (ServerName h) (ExtractX25519KeyShare (KeyShares h)), None)
    | _ => peek_loop fuel (with_in c rest) (b ++ record v1 v2 chunk) (hs ++ chunk)
    end.
Proof.
  intros (Ht & Hl & Hm) Hu Hne Hc Hin Hw Hcs.
  assert (0 < len chunk) by (destruct chunk; [done|rewrite zlen_cons; pose proof (zlen_nonneg chunk); lia]).
  set (hdr := [22; v1; v2] ++ put16 (len chunk)).
  assert (E1 : ReadFull c 5 = (with_in c (chunk ++ rest), inl hdr)).
  { rewrite (ReadFull_app c 5 hdr (chunk ++ rest)); [done| |done]. rewrite Hin. unfold record, hdr. rewrite <- !app_assoc. done. }
  assert (E2 : ReadFull (with_in c (chunk ++ rest)) (len chunk) = (with_in c rest, inl chunk)).
  { rewrite (ReadFull_app _ (len chunk) chunk rest); done. }
  assert (Hh0 : byte_at hdr 0 = 22) by done.
  assert (Hr : Z.lor (Z.shiftl (byte_at hdr 3) 8) (byte_at hdr 4) = len chunk) by (apply record_length_field; lia).
  assert (Hraw : (b ++ hdr) ++ chunk = b ++ record v1 v2 chunk) by (unfold record, hdr; rewrite <- !app_assoc; done).
  clearbody hdr. cbn [peek_loop]. rewrite E1. cbn beta iota zeta. rewrite Hh0, Hr, E2. cbn [Z.eqb Pos.eqb negb].
  rewrite (proj2 (Z.leb_gt _ _)), (proj2 (Z.ltb_ge _ _)) by lia. cbn [orb].
  assert (Hwl : len whole = len (hs ++ chunk) + len (concat chunks)) by (rewrite Hw, app_assoc, zlen_app; done).
  rewrite Hraw. pose proof (zlen_nonneg (concat chunks)). rewrite (proj2 (Z.ltb_ge _ _)) by lia.
  assert (Hat : forall i, 0 <= i < len (hs ++ chunk) -> byte_at (hs ++ chunk) i = byte_at whole i).
  { intros i Hi. rewrite Hw, app_assoc, (byte_at_app (hs ++ chunk)) by lia. done. }
  destruct chunks as [|k ks].
  - assert (hs ++ chunk = whole) as -> by (rewrite Hw; cbn; rewrite app_nil_r; done).
    rewrite (proj2 (Z.ltb_ge _ _)) by lia. rewrite Ht. cbn [Z.eqb Pos.eqb negb]. rewrite <- Hl, Z.ltb_irrefl, ztake_ge, Hu by lia. done.
  - assert (0 < len (concat (k :: ks))).
    { apply Forall_cons_1 in Hcs as [Hk _]. cbn. rewrite zlen_app. destruct k; [done|]. rewrite zlen_cons. pose proof (zlen_nonneg k). pose proof (zlen_nonneg (concat ks)). lia. }
    destruct (len (hs ++ chunk) <? 4) eqn:E4; [done|]. bool_to_prop.
    rewrite !Hat, Ht by lia. cbn [Z.eqb Pos.eqb negb]. rewrite <- Hl, (proj2 (Z.ltb_lt _ _)) by lia. done.
Qed.

Lemma peek_reassembles fuel c v1 v2 chunks rest b hs whole h :
  client_hello whole -> UnmarshalClientHello whole = Some h -> chunks <> [] -> (length chunks <= fuel)%nat ->
  Forall (fun l => l <> [] /\ len l <= 16384) chunks -> c_in c = framed v1 v2 chunks ++ rest -> whole = hs ++ concat chunks ->
  peek_loop fuel c b hs =
    Some (with_in c rest, mkPeeked (b ++ framed v1 v2 chunks) (Random h) (ServerName h) (ExtractX25519KeyShare (KeyShares h)), None).
Proof.
  intros Hh Hu. revert fuel c b hs. induction chunks as [|k ks IH]; intros fuel c b hs Hne Hf Hk Hin Hw; [done|].
  destruct fuel as [|fuel]; [cbn in Hf; lia|]. apply Forall_cons_1 in Hk as [[Hk1 Hk2] Hks].
  unfold framed in Hin |- *. cbn in Hin. rewrite <- app_assoc in Hin.
  rewrite (peek_record fuel c v1 v2 k ks (framed v1 v2 ks ++ rest) b hs whole h); try done.
  2: { eapply Forall_impl; [exact Hks|]. intros ? [??]. done. }
  destruct ks as [|k' ks]; [unfold framed; cbn; rewrite app_nil_r; done|].
  rewrite (IH fuel (with_in c (framed v1 v2 (k' :: ks) ++ rest)) _ (hs ++ k)); try done; [|cbn in *; lia|rewrite <- app_assoc; done].
  rewrite <- (app_assoc b). reflexivity.
Qed.

(** The number of records is bounded by the length of the message. *)
Lemma chunks_bound (chunks : list (list Z)) : Forall (fun l => l <> [] /\ len l <= 16384) chunks -> Z.of_nat (length chunks) <= len (concat chunks).
Proof.
  induction 1 as [|k ks [Hk _] _ IH]; [done|]. cbn [concat length]. rewrite zlen_app. destruct k; [done|]. rewrite zlen_cons. pose proof (zlen_nonneg k). lia.
Qed.

Lemma peek_hello c v1 v2 chunks rest h :
  client_hello (concat chunks) -> UnmarshalClientHello (concat chunks) = Some h ->
  Forall (fun l => l <> [] /\ len l <= 16384) chunks -> c_in c = framed v1 v2 chunks ++ rest ->
  peekClientHello c = Some (with_in c rest, mkPeeked (framed v1 v2 chunks) (Random h) (ServerName h) (ExtractX25519KeyShare (KeyShares h)), None).
Proof.
  intros Hh Hu Hk Hin. apply (peek_reassembles peek_fuel c v1 v2 chunks rest [] [] (concat chunks) h); try done.
  - intros ->. destruct Hh as (_ & _ & Hl). exact (proj1 Hl eq_refl).
  - pose proof (chunks_bound _ Hk). destruct Hh as (_ & _ & Hl). unfold peek_fuel. lia.
Qed.

End Peek.

(** ** The index *)

Section Index.
Context `{Crypto} `{Curve}.

(** The index, when it is used as it is, is the one of the present users. *)
Definition synced (now : Z) (ver : option Z) (cfg : ServerConfig) (s : selectorIndex) : Prop :=
  fresh now ver s = true -> byTag s = Some (build cfg) /\ keys s = map camoKey (map_to_list (build cfg)).*2.

Lemma snapshot_spec now ver cfg s : synced now ver cfg s ->
  (snapshot now ver cfg s).2 = build cfg /\ synced now ver cfg (snapshot now ver cfg s).1
  /\ keys (snapshot now ver cfg s).1 = map camoKey (map_to_list (build cfg)).*2.
Proof.
  intros Hs. unfold snapshot. destruct (fresh now ver s) eqn:E; [|done].
  destruct (Hs E) as [Hb Hk]. cbn. rewrite Hb. done.
Qed.

(** With versions that tell the users apart, the index stays in step whatever the
    clock does. *)
Lemma snapshot_versioned now now' v v' cfg cfg' s :
  (v = v' -> GetUsers cfg = GetUsers cfg' /\ SharedSecret cfg = SharedSecret cfg') ->
  synced now (Some v) cfg s -> (is_Some (byTag s) -> hasVer s = true) ->
  let s' := (snapshot now (Some v) cfg s).1 in synced now' (Some v') cfg' s' /\ (is_Some (byTag s') -> hasVer s' = true).
Proof.
  intros Hv Hs Hh. assert (Hb : v = v' -> build cfg = build cfg').
  { intros E. destruct (Hv E) as [H1 H2]. unfold build, indexed. rewrite H1, H2. done. }
  unfold snapshot. destruct (fresh now (Some v) s) eqn:E; cbn.
  - destruct (Hs E) as [H1 H2]. split; [|done]. intros Hf. pose proof (Hh (ex_intro _ _ H1)) as Hh'.
    unfold fresh in E, Hf. rewrite H1, Hh' in E, Hf. bool_to_prop. rewrite <- Hb by congruence. done.
  - split; [|done]. intros Hf. unfold fresh in Hf. cbn in *. bool_to_prop. rewrite <- Hb; done.
Qed.

Lemma build_lookup cfg tag e : build cfg !! tag = Some e <->
  exists l u k, indexed cfg = l ++ u :: k /\ UserTag (PSK u) = tag /\ entry_of u = e /\ Forall (fun v => UserTag (PSK v) <> tag) k.
Proof.
  unfold build. generalize (indexed cfg) as us. intros us. induction us as [|u us IH] using rev_ind.
  - cbn. rewrite lookup_empty. split; [done|]. intros (l & u & k & Hl & _). destruct l; done.
  - rewrite foldl_app. cbn. destruct (decide (UserTag (PSK u) = tag)) as [<-|Hne].
    + rewrite lookup_insert_eq. split.
      * intros [= <-]. exists us, u, []. split_and!; done.
      * intros (l & v & k & Hl & Ht & <- & Hk). destruct k as [|w k _] using rev_ind.
        -- apply app_inj_tail in Hl as [_ ->]. done.
        -- rewrite app_comm_cons, app_assoc in Hl. apply app_inj_tail in Hl as [_ ->].
           apply Forall_app in Hk as [_ Hk]. apply Forall_cons_1 in Hk as [Hk _]. done.
    + rewrite lookup_insert_ne, IH by done. split.
      * intros (l & v & k & -> & Ht & He & Hk). exists l, v, (k ++ [u]). rewrite <- app_assoc. cbn. rewrite Forall_app. split_and!; auto.
      * intros (l & v & k & Hl & Ht & He & Hk). destruct k as [|w k _] using rev_ind.
        -- apply app_inj_tail in Hl as [_ ->]. done.
        -- rewrite app_comm_cons, app_assoc in Hl. apply app_inj_tail in Hl as [-> ->].
           apply Forall_app in Hk as [Hk _]. exists l, v, k. done.
Qed.

Lemma indexed_len cfg u : u ∈ indexed cfg -> len (PSK u) = 32.
Proof. unfold indexed. rewrite list_elem_of_In. intros Hu. apply filter_In in Hu as [_ ?]. bool_to_prop. done. Qed.

Lemma build_member cfg tag e : build cfg !! tag = Some e -> exists u, u ∈ indexed cfg /\ entry_of u = e.
Proof. intros (l & u & k & -> & _ & <- & _)%build_lookup. exists u. split; [set_solver|done]. Qed.

Lemma build_has cfg u : u ∈ indexed cfg -> exists e, build cfg !! UserTag (PSK u) = Some e.
Proof.
  unfold build. generalize (indexed cfg) as us. intros us. induction us as [|v us IH] using rev_ind; [set_solver|].
  intros Hu. rewrite foldl_app. cbn. destruct (decide (UserTag (PSK v) = UserTag (PSK u))) as [->|Hne]; [rewrite lookup_insert_eq; eauto|].
  rewrite lookup_insert_ne by done. apply IH. set_solver.
Qed.

(** No two secrets of the index have the same tag. *)
Definition tags_separate (cfg : ServerConfig) : Prop :=
  forall u v, u ∈ indexed cfg -> v ∈ indexed cfg -> UserTag (PSK u) = UserTag (PSK v) -> PSK u = PSK v.

Lemma build_own cfg u : tags_separate cfg -> u ∈ indexed cfg ->
  exists v, v ∈ indexed cfg /\ PSK v = PSK u /\ build cfg !! UserTag (PSK u) = Some (entry_of v).
Proof.
  intros Hs Hu. destruct (build_has cfg u Hu) as [e He]. pose proof He as (l & v & k & Hi & Ht & <- & _)%build_lookup.
  exists v. assert (v ∈ indexed cfg) by (rewrite Hi; set_solver). split_and!; [done| |done]. apply Hs; done.
Qed.

Lemma keys_member cfg k : k ∈ map camoKey (map_to_list (build cfg)).*2 <-> exists tag e, build cfg !! tag = Some e /\ camoKey e = k.
Proof.
  change (map camoKey (map_to_list (build cfg)).*2) with (camoKey <$> (map_to_list (build cfg)).*2).
  rewrite list_elem_of_fmap. setoid_rewrite list_elem_of_fmap. split.
  - intros (e & -> & [tag e'] & -> & Hm). apply elem_of_map_to_list in Hm. eauto.
  - intros (tag & e & He & <-). exists e. split; [done|]. exists (tag, e). split; [done|]. apply elem_of_map_to_list. done.
Qed.
End Index.

(** ** Recognition *)

Class CamoLaws `{Crypto} `{Curve} := {
  hmac_nonempty : forall key msg, hmac_sha256 key msg <> [];
  dh_agrees : forall a b, x25519 a (PublicKey b) = x25519 b (PublicKey a)
}.

Lemma fit_len n l : 0 <= n -> len (fit n l) = n.
Proof.
  intros Hn. unfold fit, ztake. rewrite zlen_app. pose proof (zlen_nonneg l). unfold zlen in *. rewrite length_take, length_replicate. lia.
Qed.

Lemma xorTag_cancel a m : len a = len m -> xorTag (xorTag a m) m = a.
Proof.
  unfold xorTag. revert m. induction a as [|x a IH]; intros [|y m]; rewrite ?zlen_nil, ?zlen_cons; try done.
  - pose proof (zlen_nonneg a). lia.
  - intros Hl. cbn. rewrite Z.lxor_assoc, Z.lxor_nilpotent, Z.lxor_0_r, IH by lia. done.
Qed.

Lemma windows_in w w' : w ∈ windows w' <-> Z.abs (w - w') <= 1.
Proof. unfold windows, WindowTol. rewrite elem_of_seqZ. lia. Qed.

Lemma existsb_elem {A} (f : A -> bool) l : existsb f l = true <-> exists x, x ∈ l /\ f x = true.
Proof. rewrite existsb_exists. setoid_rewrite list_elem_of_In. done. Qed.

Section Recognise.
Context `{CamoLaws} `{Utls}.

(** The window of a time. *)
Definition window_at (now : Z) : Z := Z.quot (Unix now) WindowSeconds.

Lemma selector_opens psk eph priv sel :
  BuildSelector psk eph (PublicKey priv) = Some sel -> len (PublicKey eph) = 32 ->
  OpenSelector sel priv (PublicKey eph) = Some (UserTag psk) /\ len sel = 8.
Proof.
  unfold BuildSelector, OpenSelector, ECDH, key32. intros Hb ->. rewrite dh_agrees in Hb. cbn.
  destruct (forallb _ _); [done|]. cbn in *. injection Hb as <-.
  assert (len (UserTag psk) = 8 /\ len (selectorMask (x25519 priv (PublicKey eph))) = 8) as [Hl1 Hl2] by (split; apply fit_len; done).
  rewrite xorTag_cancel by lia. split; [done|]. unfold xorTag, zlen in *. rewrite length_zip_with. lia.
Qed.

Lemma marker_window_matches key w ks m now : markerFor key w ks = m -> Z.abs (w - Z.quot now WindowSeconds) <= 1 -> key <> [] -> len ks <> 0 ->
  MarkerMatchesKey key m ks now = true.
Proof.
  intros <- Hw Hk Hs. unfold MarkerMatchesKey. unfold markerFor at 1. rewrite fit_len by done. cbn [Z.eqb negb orb].
  rewrite Z.eqb_refl. cbn [negb orb]. assert (len key <> 0) by (intros E%zlen_zero; done). rewrite !(proj2 (Z.eqb_neq _ _)) by done. cbn [orb].
  apply existsb_elem. exists w. rewrite windows_in, bool_decide_eq_true. done.
Qed.

Lemma derive_key_nonempty u cfg : u ∈ indexed cfg -> DeriveKey (PSK u) <> [].
Proof. intros Hu%indexed_len. unfold DeriveKey. rewrite Hu. cbn. apply hmac_nonempty. Qed.

(** A random written with a selector is recognised as its user's. *)
Lemma resolve_own now nowc ver seed priv cfg s u eph sel rnd :
  tags_separate cfg -> synced now ver cfg s -> u ∈ indexed cfg -> Z.abs (window_at nowc - window_at now) <= 1 ->
  ServerKeyFromSeed seed = Some priv -> len (PublicKey eph) = 32 -> BuildSelector (PSK u) eph (PublicKey priv) = Some sel -> len rnd = 32 ->
  exists v, v ∈ indexed cfg /\ PSK v = PSK u /\
    resolveBySelector now ver (Some seed) cfg s (WriteRandom rnd sel (DeriveKey (PSK u)) (window_at nowc) (PublicKey eph)) (PublicKey eph)
    = ((snapshot now ver cfg s).1, inr (entry_of v)).
Proof.
  intros Ht Hs Hu Hw Hk Hp Hb Hr. destruct (selector_opens _ _ _ _ Hb Hp) as [Ho Hl].
  destruct (build_own cfg u Ht Hu) as (v & Hv & Hvp & Hvb). exists v. split_and!; [done..|].
  unfold WriteRandom. rewrite Hr. cbn [Z.eqb Pos.eqb negb]. rewrite (ztake_ge SelectorSize) by (rewrite Hl; done).
  set (m := markerFor _ _ _). assert (Hm : len m = 24) by (apply fit_len; done).
  unfold resolveBySelector, SplitRandom. rewrite zlen_app, Hl, Hm, Hp. cbn [Z.eqb Pos.eqb negb orb Z.add Pos.add].
  change (8 + 24 =? 32) with true. cbn [negb orb]. rewrite Hk, ztake_app_exact, zdrop_app_exact by done. rewrite Ho.
  destruct (snapshot now ver cfg s) as [s' idx] eqn:E. destruct (snapshot_spec now ver cfg s Hs) as (Hi & _). rewrite E in Hi. cbn [snd] in Hi. subst idx.
  cbn beta iota. rewrite Hvb. unfold entry_of. cbn [camoKey]. rewrite Hvp. erewrite marker_window_matches; [done|reflexivity|exact Hw|eapply derive_key_nonempty; done|lia].
Qed.

Lemma matches_own now nowc keys key ks : key ∈ keys -> key <> [] -> len ks <> 0 -> Z.abs (window_at nowc - window_at now) <= 1 ->
  MarkerMatches now keys (BuildMarker nowc key ks) ks = true.
Proof.
  intros Hi Hk Hs Hw. unfold MarkerMatches, BuildMarker. unfold markerForWindow at 1. rewrite fit_len by done. cbn [Z.eqb Pos.eqb negb orb].
  assert (len keys <> 0) by (intros E%zlen_zero; subst; set_solver). rewrite !(proj2 (Z.eqb_neq _ _)) by done. cbn [orb].
  apply existsb_elem. exists key. split; [done|]. assert (len key <> 0) by (intros E%zlen_zero; done).
  rewrite (proj2 (Z.eqb_neq _ _)) by done. apply existsb_elem. exists (window_at nowc). rewrite windows_in, bool_decide_eq_true. done.
Qed.

Lemma own_key_indexed cfg u : tags_separate cfg -> u ∈ indexed cfg -> DeriveKey (PSK u) ∈ map camoKey (map_to_list (build cfg)).*2.
Proof.
  intros Ht Hu. destruct (build_own cfg u Ht Hu) as (v & _ & Hp & Hb). apply keys_member. exists (UserTag (PSK u)), (entry_of v).
  split; [done|]. unfold entry_of. cbn [camoKey]. rewrite Hp. done.
Qed.

Lemma resolve_synced now ver identity cfg s rnd ks s' r : synced now ver cfg s -> resolveBySelector now ver identity cfg s rnd ks = (s', r) -> synced now ver cfg s'.
Proof.
  intros Hs. pose proof (snapshot_spec now ver cfg s Hs) as (_ & Hn & _). unfold resolveBySelector.
  destruct (_ || _); [intros [= <- <-]; done|]. destruct identity; [|intros [= <- <-]; done].
  destruct (ServerKeyFromSeed _); [|intros [= <- <-]; done]. destruct (SplitRandom _) as [[? ?]|]; [|intros [= <- <-]; done].
  destruct (OpenSelector _ _ _); [|intros [= <- <-]; done]. destruct (snapshot now ver cfg s) as [s1 idx]. cbn in Hn.
  destruct (idx !! _); intros [= <- <-]; done.
Qed.

(** The candidate that [selectorFor] found. *)
Lemma selectorFor_spec pub secret cands ks sel : selectorFor pub secret cands ks = Some sel ->
  exists eph sp, GoJson.std_decode (bytes_of_string pub) = Some sp /\ PublicKey eph = ks /\ BuildSelector secret eph sp = Some sel.
Proof.
  unfold selectorFor, key32. destruct (_ || _); [done|]. destruct (GoJson.std_decode _) as [sp|]; [|done]. cbn.
  destruct (len sp =? 32); [|done]. cbn. destruct cands as [ks'|]; [|done]. cbn. destruct (find _ _) as [eph|] eqn:E; [|done]. cbn.
  apply find_some in E as [_ E]. bool_to_prop. intros Hb. exists eph, sp. done.
Qed.

(** C21: a client of a known user is let in, and the TLS server gets its stream from the first byte. *)
Theorem client_recognised nowc now ver identity cfg u l c v1 v2 chunks rest h selPub cands dial fallback remote :
  u ∈ indexed cfg -> tags_separate cfg -> synced now ver cfg (index l) ->
  Z.abs (window_at nowc - window_at now) <= 1 ->
  len (Random h) = 32 -> len (ExtractX25519KeyShare (KeyShares h)) = 32 ->
  (forall sp, GoJson.std_decode (bytes_of_string selPub) = Some sp -> exists seed priv, identity = Some seed /\ ServerKeyFromSeed seed = Some priv /\ sp = PublicKey priv) ->
  client_hello (concat chunks) -> Forall (fun k => k <> [] /\ len k <= 16384) chunks ->
  UnmarshalClientHello (concat chunks) = Some (mark_hello nowc (DeriveKey (PSK u)) selPub (PSK u) cands h) ->
  c_in c = framed v1 v2 chunks ++ rest ->
  exists l' pc, handle now ver identity cfg true dial fallback remote c l = Some (l', Passed pc)
    /\ decoy pc = false /\ off pc = 0 /\ prefix pc = framed v1 v2 chunks /\ c_in (p_conn pc) = rest
    /\ (is_Some (selectorFor selPub (PSK u) cands (ExtractX25519KeyShare (KeyShares h))) ->
         knownPSK pc = PSK u /\ exists v, v ∈ indexed cfg /\ PSK v = PSK u /\ knownUser pc = UserID v).
Proof.
  intros Hu Ht Hs Hw Hr Hk Hpub Hch Hcs Hun Hin.
  pose proof (derive_key_nonempty u cfg Hu) as Hne.
  unfold handle. rewrite (peek_hello c v1 v2 chunks rest _ Hch Hun Hcs Hin). cbn [mbind option_bind random keyShare].
  unfold mark_hello. rewrite bool_decide_false, Hr, Hk by done. cbn [Z.eqb Pos.eqb negb orb Random KeyShares ServerName].
  set (ks := ExtractX25519KeyShare (KeyShares h)) in *.
  destruct (selectorFor selPub (PSK u) cands ks) as [sel|] eqn:Esel; cbn [mark_random].
  - apply selectorFor_spec in Esel as (eph & sp & Hsp & Hks & Hb). destruct (Hpub sp Hsp) as (seed & priv & -> & Hkey & ->).
    destruct (resolve_own now nowc ver seed priv cfg (index l) u eph sel (Random h)) as (v & Hv & Hvp & Hres); [done..|rewrite Hks; done|done|done|].
    rewrite <- Hks. unfold window_at in Hres. rewrite Hres. eexists _, _. split; [reflexivity|]. cbn. rewrite Hvp. split_and!; eauto.
  - destruct (resolveBySelector _ _ _ _ _ _ _) as [s' [reason|entry]] eqn:Eres.
    + apply resolve_synced in Eres; [|done]. unfold camoKeys. destruct (snapshot_spec now ver cfg s' Eres) as (_ & _ & Hkeys). rewrite Hkeys.
      rewrite matches_own; [|apply own_key_indexed; done|done|lia|done].
      eexists _, _. split; [reflexivity|]. cbn. split_and!; try done; intros [? [=]].
    + eexists _, _. split; [reflexivity|]. cbn. split_and!; try done; intros [? [=]].
Qed.

(** What makes the listener take a hello for a client's. *)
Definition authentic (now : Z) (cfg : ServerConfig) (ph : peekedHello) (pc : prefixConn) : Prop :=
  exists u w, u ∈ indexed cfg /\ Z.abs (w - window_at now) <= 1 /\
    (random ph = markerForWindow (DeriveKey (PSK u)) w (keyShare ph) /\ knownPSK pc = []
     \/ zdrop 8 (random ph) = markerFor (DeriveKey (PSK u)) w (keyShare ph) /\ knownPSK pc = PSK u /\ knownUser pc = UserID u).

Lemma matches_authentic now cfg rnd ks : MarkerMatches now (map camoKey (map_to_list (build cfg)).*2) rnd ks = true ->
  exists u w, u ∈ indexed cfg /\ Z.abs (w - window_at now) <= 1 /\ rnd = markerForWindow (DeriveKey (PSK u)) w ks.
Proof.
  unfold MarkerMatches. destruct (_ || _); [done|]. intros (key & Hk & Hm)%existsb_elem. apply andb_true_iff in Hm as [_ (w & Hw & Hm)%existsb_elem].
  bool_to_prop. apply keys_member in Hk as (tag & e & He & <-). apply build_member in He as (u & Hu & <-).
  exists u, w. rewrite windows_in in Hw. done.
Qed.

Lemma resolve_authentic now ver identity cfg s rnd ks s' e : synced now ver cfg s -> resolveBySelector now ver identity cfg s rnd ks = (s', inr e) ->
  exists u w, u ∈ indexed cfg /\ entry_of u = e /\ Z.abs (w - window_at now) <= 1 /\ zdrop 8 rnd = markerFor (DeriveKey (PSK u)) w ks.
Proof.
  intros Hs. pose proof (snapshot_spec now ver cfg s Hs) as (Hi & _). unfold resolveBySelector.
  destruct (_ || _); [done|]. destruct identity; [|done]. destruct (ServerKeyFromSeed _); [|done]. unfold SplitRandom. destruct (negb _); [done|].
  destruct (OpenSelector _ _ _) as [tag|]; [|done]. destruct (snapshot now ver cfg s) as [s1 idx]. cbn [snd] in Hi. subst idx.
  destruct (build cfg !! tag) as [e'|] eqn:E; [|done]. destruct (MarkerMatchesKey _ _ _ _) eqn:Em; [|done]. intros [= <- <-].
  apply build_member in E as (u & Hu & <-). unfold MarkerMatchesKey in Em. destruct (_ || _); [done|].
  apply existsb_elem in Em as (w & Hw & Em). bool_to_prop. exists u, w. rewrite windows_in in Hw. cbn in Em. done.
Qed.

Lemma refuse_never_client now open dial fallback remote c ph err l l' pc :
  refuse now open dial fallback remote c ph err l = (l', Passed pc) -> decoy pc = true.
Proof.
  unfold refuse, relayToOrigin, handOver. destruct (len (raw ph) =? 0); [done|]. destruct (_ && _); [done|].
  destruct (decoyIPRateAllow _ _ _) as [r []]; cbn; [|done].
  repeat case_match; intros; simplify_eq; done.
Qed.

(** C22: nobody else is let in. *)
Theorem passed_only_authentic now ver identity cfg open dial fallback remote c l l' pc :
  synced now ver cfg (index l) ->
  handle now ver identity cfg open dial fallback remote c l = Some (l', Passed pc) -> decoy pc = false ->
  exists c' ph, peekClientHello c = Some (c', ph, None) /\ p_conn pc = c' /\ prefix pc = raw ph /\ authentic now cfg ph pc.
Proof.
  intros Hs. unfold handle. destruct (peekClientHello c) as [[[c' ph] err]|]; [|done]. cbn [mbind option_bind].
  destruct err as [e|]; [intros [= Hp] Hd; apply refuse_never_client in Hp; congruence|].
  destruct (resolveBySelector _ _ _ _ _ _ _) as [s' [reason|entry]] eqn:Er.
  - apply resolve_synced in Er; [|done]. unfold camoKeys. destruct (snapshot_spec now ver cfg s' Er) as (_ & _ & ->).
    destruct (MarkerMatches _ _ _ _) eqn:Em; [|intros [= Hp] Hd; apply refuse_never_client in Hp; congruence].
    unfold handOver. destruct open; [|done]. intros [= <- <-] _. exists c', ph. split_and!; [done..|].
    apply matches_authentic in Em as (u & w & Hu & Hw & Hm). exists u, w. split_and!; [done..|]. left. done.
  - unfold handOver. destruct open; [|done]. intros [= <- <-] _. exists c', ph. split_and!; [done..|].
    apply resolve_authentic in Er as (u & w & Hu & <- & Hw & Hm); [|done]. exists u, w. split_and!; [done..|]. right. done.
Qed.

(** ** What becomes of the bytes *)

(** Reads of given sizes, each with what the network has ready, and what they
    return together. *)
Fixpoint reads (rs : list (Z * Z)) (pc : prefixConn) : prefixConn * list Z :=
  match rs with
  | [] => (pc, [])
  | (m, n) :: rs =>
      let '(pc, r) := prefix_Read m pc n in
      let '(pc, got) := reads rs pc in
      (pc, (match r with inl b => b | inr _ => [] end) ++ got)
  end.
(** What is still to be read. *)
Definition pending (pc : prefixConn) : list Z := zdrop (off pc) (prefix pc) ++ c_in (p_conn pc).

Lemma prefix_Read_spec m pc n : 0 <= n -> 0 <= off pc <= len (prefix pc) ->
  let '(pc', r) := prefix_Read m pc n in
  (match r with inl b => b | inr _ => [] end) ++ pending pc' = pending pc /\ 0 <= off pc' <= len (prefix pc').
Proof.
  intros Hn Ho. unfold prefix_Read, pending. destruct (off pc <? len (prefix pc)) eqn:E; bool_to_prop; cbn.
  - set (rest := zdrop (off pc) (prefix pc)).
    assert (Hrl : len rest = len (prefix pc) - off pc) by (apply zlen_zdrop; lia).
    set (got := ztake n rest). assert (Hg : len got <= len rest) by (unfold got, ztake, zlen; rewrite length_take; lia).
    assert (Hd : zdrop (off pc + len got) (prefix pc) = zdrop (len got) rest).
    { unfold rest, zdrop. rewrite drop_drop. f_equal. pose proof (zlen_nonneg got). lia. }
    rewrite Hd, app_assoc. pose proof (zlen_nonneg got). split; [|lia]. f_equal.
    rewrite <- (ztake_zdrop (len got) rest) at 2. f_equal. unfold got, ztake, zlen. rewrite length_take, Nat2Z.id.
    destruct (Nat.min_spec (Z.to_nat n) (length rest)) as [[? ->]|[? ->]]; [done|]. rewrite !take_ge by lia. done.
  - rewrite zdrop_ge by lia. unfold Conn_Read. destruct (len (c_in (p_conn pc)) =? 0); cbn.
    + rewrite zdrop_ge by lia. done.
    + rewrite zdrop_ge by lia. cbn. rewrite ztake_zdrop. split; [done|lia].
Qed.

Lemma reads_spec rs pc : Forall (fun x => 0 <= x.2) rs -> 0 <= off pc <= len (prefix pc) ->
  let '(pc', got) := reads rs pc in got ++ pending pc' = pending pc.
Proof.
  revert pc. induction rs as [|[m n] rs IH]; intros pc Hr Ho; [done|]. apply Forall_cons_1 in Hr as [Hn Hr]. cbn [reads].
  pose proof (prefix_Read_spec m pc n Hn Ho) as Hp. destruct (prefix_Read m pc n) as [pc1 r]. destruct Hp as [<- Ho1].
  pose proof (IH pc1 Hr Ho1) as Hi. destruct (reads rs pc1) as [pc2 got]. rewrite <- app_assoc, Hi. done.
Qed.

(** The connection to the client that a fate leaves. *)
Definition fate_conn (f : fate) : Conn := match f with Passed pc => p_conn pc | Closed c => c | Relayed c _ _ => c end.

(** The bytes [i] that arrived are read by the server, or sent on and left to be
    sent on to the origin, or the connection is closed. *)
Definition accounted (dial : string -> option Conn) (i : list Z) (f : fate) : Prop :=
  match f with
  | Passed pc => forall rs, Forall (fun x => 0 <= x.2) rs -> let '(pc', got) := reads rs pc in got ++ pending pc' = i
  | Relayed c up target => exists up0 b, dial target = Some up0 /\ c_out up = c_out up0 ++ b /\ b ++ c_in c = i
  | Closed c => c_closed c = true
  end.

Lemma handOver_accounted open c ph user psk d dial : accounted dial (raw ph ++ c_in c) (handOver open c ph user psk d).
Proof.
  unfold handOver. destruct open; [|done]. intros rs Hr.
  pose proof (reads_spec rs (mkPrefix c (raw ph) 0 user psk d) Hr) as Hp. cbn [off prefix] in Hp.
  specialize (Hp ltac:(pose proof (zlen_nonneg (raw ph)); lia)). destruct (reads _ _). rewrite Hp. done.
Qed.

Lemma Conn_Write_done c b c' : Conn_Write c b = (c', None) -> c_out c' = c_out c ++ b.
Proof. unfold Conn_Write. destruct (c_wscript c) as [|[[? ?]|] ?]; intros [= <-]; done. Qed.

Lemma relay_accounted dial c b addr f : relayToOrigin dial c b addr = Some f -> accounted dial (b ++ c_in c) f /\ c_out (fate_conn f) = c_out c.
Proof.
  unfold relayToOrigin. case_bool_decide; [done|]. destruct (dial addr) as [up|] eqn:Ed; [|done].
  destruct (0 <? len b) eqn:El.
  - destruct (Conn_Write up b) as [up' [e|]] eqn:Ew; intros [= <-]; [done|]. split; [|done].
    exists up, b. rewrite (Conn_Write_done _ _ _ Ew). done.
  - intros [= <-]. bool_to_prop. assert (b = []) as -> by (apply zlen_zero; pose proof (zlen_nonneg b); lia).
    split; [|done]. exists up, []. rewrite app_nil_r. done.
Qed.

Lemma refuse_accounted now open dial fallback remote c ph err l :
  (incomplete err = true -> raw ph = [] \/ byte_at (raw ph) 0 = 22) -> forall i, (incomplete err = false -> raw ph ++ c_in c = i) ->
  let f := (refuse now open dial fallback remote c ph err l).2 in accounted dial i f /\ c_out (fate_conn f) = c_out c.
Proof.
  intros Hinc i Hi. unfold refuse. destruct (len (raw ph) =? 0) eqn:E0; [done|].
  destruct (incomplete err) eqn:Ei.
  - destruct (Hinc eq_refl) as [E|E]; [rewrite E in E0; done|]. rewrite E. done.
  - rewrite <- (Hi eq_refl). cbn [andb]. destruct (decoyIPRateAllow _ _ _) as [r []]; cbn [negb]; [|done].
    destruct (relayToOrigin _ _ _ _) as [f|] eqn:Er; [apply relay_accounted in Er; done|].
    split; [apply handOver_accounted|]. unfold handOver. destruct open; done.
Qed.

(** C23: no byte is lost or added, whatever the connection turns out to be. *)
Theorem camouflage_transparent now ver identity cfg open dial fallback remote c l :
  exists l' f, handle now ver identity cfg open dial fallback remote c l = Some (l', f)
    /\ accounted dial (c_in c) f /\ c_out (fate_conn f) = c_out c.
Proof.
  destruct (peek_total c) as [[[c' ph] err] Hp]. unfold handle. rewrite Hp. cbn [mbind option_bind].
  assert (Hex : incomplete err = false -> raw ph ++ c_in c' = c_in c /\ c' = with_in c (c_in c')) by (intros; eapply (peek_loop_exact _ c [] []); done).
  assert (Hco : c_out c' = c_out c) by (eapply peek_out; exact Hp).
  assert (Hinc : incomplete err = true -> raw ph = [] \/ byte_at (raw ph) 0 = 22) by (intros; eapply peek_incomplete; [exact Hp|done|auto]).
  assert (Href : forall l, let f := (refuse now open dial fallback remote c' ph err l).2 in accounted dial (c_in c) f /\ c_out (fate_conn f) = c_out c).
  { intros l1. rewrite <- Hco. apply refuse_accounted; [done|]. intros Hi. apply Hex. done. }
  destruct err as [e|].
  - specialize (Href l). destruct (refuse _ _ _ _ _ _ _ _ _) as [l' f]. exists l', f. done.
  - destruct (Hex eq_refl) as [Hin _]. rewrite <- Hin, <- Hco.
    assert (Hh : forall u k d, accounted dial (raw ph ++ c_in c') (handOver open c' ph u k d) /\ c_out (fate_conn (handOver open c' ph u k d)) = c_out c').
    { intros. split; [apply handOver_accounted|]. unfold handOver. destruct open; done. }
    destruct (resolveBySelector _ _ _ _ _ _ _) as [s' [reason|entry]]; [|eexists _, _; split; [reflexivity|apply Hh]].
    destruct (camoKeys _ _ _ _) as [s2 ks]. destruct (MarkerMatches _ _ _ _); [eexists _, _; split; [reflexivity|apply Hh]|].
    specialize (Href (with_index l s2)). rewrite Hco, Hin. destruct (refuse _ _ _ _ _ _ _ _ _) as [l' f]. exists l', f. done.
Qed.
End Recognise.

(** ** Throttling *)

Definition host_of (remote : string) : string := match SplitHostPort remote with Some (h, _) => h | None => remote end.

(** What a call leaves of the entry of an address, and what it answers. *)
Definition rate_view (ip : string) (r : decoyRate) : option Z * Z := (seen r !! ip, default 0 (count r !! ip)).
Definition in_window (now : Z) (v : option Z * Z) : bool := match v.1 with Some s => now - s <=? decoyRateWindow | None => false end.

Lemma rate_clean_view now ip r : rate_view ip (rate_clean now r) = rate_view ip r \/ in_window now (rate_view ip r) = false /\ (rate_view ip (rate_clean now r)).1 = None.
Proof.
  unfold rate_clean, rate_view, in_window. destruct (60 * second <? _); [|auto]. cbn.
  destruct (seen r !! ip) as [s|] eqn:Es.
  - destruct (decide (decoyRateWindow < now - s)) as [Ho|Ho].
    + right. split; [apply Z.leb_gt; lia|]. apply map_lookup_filter_None_2. right. intros s' Hs'. simplify_eq. tauto.
    + left. assert (Hf : filter (fun p : string * Z => ~ decoyRateWindow < now - p.2) (seen r) !! ip = Some s) by (apply map_lookup_filter_Some; done).
      rewrite Hf. f_equal. f_equal. destruct (count r !! ip) as [n|] eqn:En.
      * apply map_lookup_filter_Some. split; [done|]. cbn. rewrite Hf. eauto.
      * apply map_lookup_filter_None_2. auto.
  - left. rewrite map_lookup_filter_None_2 by auto. f_equal. f_equal. destruct (count r !! ip) as [n|] eqn:En.
    + apply map_lookup_filter_Some. split; [done|]. cbn. rewrite Es. intros [? [=]].
    + apply map_lookup_filter_None_2. auto.
Qed.

Lemma rate_step now remote r : let ip := host_of remote in let '(r', ok) := decoyIPRateAllow now remote r in
  if in_window now (rate_view ip r)
  then rate_view ip r' = ((rate_view ip r).1, (rate_view ip r).2 + 1) /\ ok = ((rate_view ip r).2 + 1 <=? decoyRateMax)
  else rate_view ip r' = (Some now, 1) /\ ok = true.
Proof.
  cbn zeta. unfold decoyIPRateAllow. fold (host_of remote). set (ip := host_of remote). pose proof (rate_clean_view now ip r) as Hv.
  destruct (seen (rate_clean now r) !! ip) as [s|] eqn:Es.
  - destruct Hv as [Hv|[_ Hv]]; [|unfold rate_view in Hv; cbn in Hv; congruence]. rewrite <- Hv.
    unfold in_window, rate_view. cbn. rewrite Es. destruct (decoyRateWindow <? now - s) eqn:E; bool_to_prop.
    + rewrite (proj2 (Z.leb_gt _ _)) by lia. cbn. rewrite !lookup_insert_eq. done.
    + rewrite (proj2 (Z.leb_le _ _)) by lia. cbn. rewrite Es, lookup_insert_eq. done.
  - assert (in_window now (rate_view ip r) = false) as ->.
    { destruct Hv as [Hv|[Hv _]]; [|done]. rewrite <- Hv. unfold in_window, rate_view. cbn. rewrite Es. done. }
    unfold rate_view. cbn. rewrite !lookup_insert_eq. done.
Qed.

Lemma rate_other now remote ip r : host_of remote <> ip -> let r' := (decoyIPRateAllow now remote r).1 in
  rate_view ip r' = rate_view ip r \/ in_window now (rate_view ip r) = false /\ (rate_view ip r').1 = None.
Proof.
  intros Hne. cbn zeta. assert (Hx : rate_view ip (decoyIPRateAllow now remote r).1 = rate_view ip (rate_clean now r)).
  { unfold decoyIPRateAllow. fold (host_of remote). unfold rate_view.
    destruct (seen (rate_clean now r) !! host_of remote); [destruct (_ <? _)|]; cbn; rewrite !lookup_insert_ne by done; done. }
  rewrite Hx. apply rate_clean_view.
Qed.

(** A sequence of connections that were not recognised, and how many of those
    from [ip] were relayed. *)
Fixpoint relayed (ip : string) (evs : list (Z * string)) (r : decoyRate) : decoyRate * Z :=
  match evs with
  | [] => (r, 0)
  | (now, remote) :: evs =>
      let '(r, ok) := decoyIPRateAllow now remote r in
      let '(r, n) := relayed ip evs r in
      (r, (if bool_decide (host_of remote = ip) && (ok : bool) then 1 else 0) + n)
  end.

(** How many more may be relayed until [t + decoyRateWindow] when the entry is [v]:
    at most one more window begins. *)
Definition allowance (t : Z) (v : option Z * Z) : Z :=
  match v.1 with Some s => Z.max 0 (decoyRateMax - v.2) + (if t <=? s then 0 else decoyRateMax) | None => decoyRateMax end.

Lemma relayed_allowance ip t evs r : Forall (fun e => t <= e.1 <= t + decoyRateWindow) evs ->
  (forall s, seen r !! ip = Some s -> 0 <= default 0 (count r !! ip)) ->
  (relayed ip evs r).2 <= allowance t (rate_view ip r) /\ 0 <= (relayed ip evs r).2.
Proof.
  revert r. induction evs as [|[now remote] evs IH]; intros r He Hn.
  - cbn. unfold allowance, decoyRateMax, rate_view. cbn. destruct (seen r !! ip) as [s|]; [destruct (t <=? s)|]; lia.
  - apply Forall_cons_1 in He as [Ht He]. cbn in Ht. cbn [relayed].
    destruct (bool_decide (host_of remote = ip)) eqn:Eip; bool_to_prop.
    + pose proof (rate_step now remote r) as Hs. cbn zeta in Hs. rewrite Eip in Hs. destruct (decoyIPRateAllow now remote r) as [r1 ok].
      assert (Hn1 : forall s, seen r1 !! ip = Some s -> 0 <= default 0 (count r1 !! ip)).
      { intros s Hsome. destruct (in_window now (rate_view ip r)) eqn:Ew; destruct Hs as [Hs _]; unfold rate_view in Hs; injection Hs as Hs1 Hs2; rewrite Hs2; [|lia].
        unfold in_window, rate_view in Ew. cbn in Ew. destruct (seen r !! ip) as [s0|] eqn:E0; [|done]. pose proof (Hn s0 eq_refl). lia. }
      destruct (IH r1 He Hn1) as [Hu Hl]. destruct (relayed ip evs r1) as [r2 n]. cbn in Hu, Hl |- *.
      destruct (in_window now (rate_view ip r)) eqn:Ew; destruct Hs as [Hs ->]; rewrite Hs in Hu; unfold allowance in *; cbn in Hu |- *.
      * unfold in_window, rate_view in *. cbn in *. destruct (seen r !! ip) as [s|] eqn:E0; [|done]. bool_to_prop. unfold decoyRateMax in *.
        destruct (t <=? s); destruct (_ <=? 20) eqn:E20; bool_to_prop; lia.
      * unfold in_window, rate_view in *. cbn in *. unfold decoyRateMax in *. rewrite (proj2 (Z.leb_le t now)) in Hu by lia.
        destruct (seen r !! ip) as [s|] eqn:E0; bool_to_prop; [|lia]. rewrite (proj2 (Z.leb_gt t s)) by lia. lia.
    + pose proof (rate_other now remote ip r Eip) as Hs. cbn zeta in Hs. destruct (decoyIPRateAllow now remote r) as [r1 ok]. cbn in Hs.
      assert (Hn1 : forall s, seen r1 !! ip = Some s -> 0 <= default 0 (count r1 !! ip)).
      { intros s Hsome. destruct Hs as [Hs|[_ Hs]]; unfold rate_view in Hs; cbn in Hs; [|congruence]. injection Hs as Hs1 Hs2. rewrite Hs2. apply (Hn s). congruence. }
      destruct (IH r1 He Hn1) as [Hu Hl]. destruct (relayed ip evs r1) as [r2 n]. cbn in Hu, Hl |- *.
      destruct Hs as [Hs|[Hw Hs]]; [rewrite Hs in Hu; lia|]. unfold allowance, rate_view in *. cbn in *. rewrite Hs in Hu. cbn in Hu.
      unfold in_window, rate_view, decoyRateMax in *. cbn in *. destruct (seen r !! ip) as [s|] eqn:E0; bool_to_prop; [|lia].
      rewrite (proj2 (Z.leb_gt t s)) by lia. lia.
Qed.

Lemma relayed_counts ip evs r : (forall s, seen r !! ip = Some s -> 1 <= default 0 (count r !! ip)) ->
  let r' := (relayed ip evs r).1 in forall s, seen r' !! ip = Some s -> 1 <= default 0 (count r' !! ip).
Proof.
  revert r. induction evs as [|[now remote] evs IH]; intros r Hn; [done|]. cbn zeta. cbn [relayed].
  assert (Hn1 : let r1 := (decoyIPRateAllow now remote r).1 in forall s, seen r1 !! ip = Some s -> 1 <= default 0 (count r1 !! ip)).
  { cbn zeta. destruct (decide (host_of remote = ip)) as [Eip|Eip].
    - pose proof (rate_step now remote r) as Hs. cbn zeta in Hs. rewrite Eip in Hs. destruct (decoyIPRateAllow now remote r) as [r1 ok]. cbn.
      intros s _. destruct (in_window now (rate_view ip r)) eqn:Ew; destruct Hs as [Hs _]; injection Hs as Hs1 Hs2; rewrite Hs2; [|lia].
      unfold in_window, rate_view in Ew |- *. cbn in Ew |- *. destruct (seen r !! ip) as [s0|] eqn:E0; [|done]. pose proof (Hn s0 eq_refl). lia.
    - intros s Hsome. destruct (rate_other now remote ip r Eip) as [Hs|[_ Hs]]; unfold rate_view in Hs; cbn in Hs; [|congruence].
      injection Hs as Hs1 Hs2. rewrite Hs2. apply (Hn s). congruence. }
  destruct (decoyIPRateAllow now remote r) as [r1 ok]. pose proof (IH r1 Hn1) as Hi. destruct (relayed ip evs r1) as [r2 n]. exact Hi.
Qed.

(** C24: in any ten seconds at most 39 strangers of an address are relayed to the origin. *)
Theorem decoy_rate_bound ip t0 before evs t : Forall (fun e => t <= e.1 <= t + decoyRateWindow) evs ->
  (relayed ip evs (relayed ip before (mkRate ∅ ∅ t0)).1).2 <= 2 * decoyRateMax - 1.
Proof.
  intros He. set (r := (relayed ip before _).1).
  assert (Hc : forall s, seen r !! ip = Some s -> 1 <= default 0 (count r !! ip)) by (apply relayed_counts; cbn; intros s; rewrite lookup_empty; done).
  destruct (relayed_allowance ip t evs r He) as [Hu _]; [intros s Hs; specialize (Hc s Hs); lia|].
  etransitivity; [exact Hu|]. unfold allowance, rate_view, decoyRateMax. cbn. destruct (seen r !! ip) as [s|] eqn:E; [|lia].
  specialize (Hc s eq_refl). destruct (t <=? s); lia.
Qed.

(** ** Witnesses *)

Module CamoWitnesses.

Definition add_bytes (k m : list Z) : list Z := zip_with (fun x y => (x + y) mod 256) (fit 32 k) (fit 32 m).
#[local] Instance toy_crypto : Crypto := {| hmac_sha256 := add_bytes; derive_auth k := k |}.
#[local] Instance toy_curve : Curve := {| sha256 m := add_bytes m m; hkdf_sha256 s i n := s; x25519 := zip_with Z.lxor |}.
#[local] Instance toy_utls : Utls :=
  {| UnmarshalClientHello l := Some (mkHello "example.com" (zslice 4 36 l) [(29, zslice 36 68 l)]) |}.
#[local] Instance toy_laws : CamoLaws.
Proof.
  split.
  - intros k m E. assert (Hl : len (add_bytes k m) = 0) by (cbn in E; rewrite E; done). unfold add_bytes, zlen in Hl. rewrite length_zip_with in Hl.
    pose proof (fit_len 32 k ltac:(lia)). pose proof (fit_len 32 m ltac:(lia)). unfold zlen in *. lia.
  - cbn. generalize basepoint. intros p a. revert p. induction a as [|x a IH]; intros [|q p] [|y b]; cbn; try done. f_equal; [|apply IH].
    rewrite <- !Z.lxor_assoc, (Z.lxor_comm x y). done.
Qed.

Definition secret (n : Z) : list Z := map (fun i => (i * i + n) mod 256) (seqZ 1 32).
Definition secret8 (n : Z) : list Z := ztake 8 (secret n).
Definition two_users : ServerConfig := mkServer [] (Some [mkUser "alice" (secret 3); mkUser "bob" (secret 91)]) (mkSeen []).
Lemma two_users_separate : tags_separate two_users.
Proof.
  assert (Hi : indexed two_users = [mkUser "alice" (secret 3); mkUser "bob" (secret 91)]) by (vm_compute; reflexivity).
    intros u v. rewrite Hi. intros Hu Hv Ht.
    assert (Hab : bool_decide (UserTag (secret 3) = UserTag (secret 91)) = false) by (vm_compute; reflexivity).
    apply bool_decide_eq_false in Hab. rewrite !elem_of_cons in Hu, Hv.
    destruct Hu as [->|[->|Hu]]; [| |apply not_elem_of_nil in Hu; done]; destruct Hv as [->|[->|Hv]]; try (apply not_elem_of_nil in Hv; done); try reflexivity;
      cbn [PSK] in Ht; exfalso; [exact (Hab Ht)|exact (Hab (eq_sym Ht))].
Qed.
Definition seed : list Z := secret 200.
Definition eph : list Z := secret 17.
Definition sel_pub : string := string_of_bytes (GoJson.std_encode (PublicKey seed)).
Definition sent (t : Z) : Hello := mark_hello t (DeriveKey (secret 91)) sel_pub (secret 91) (Some [Some eph; None]) (mkHello "example.com" (replicate 32 7) [(29, PublicKey eph)]).
Definition hello_bytes (t : Z) : list Z := [1; 0; 0; 64] ++ Random (sent t) ++ ExtractX25519KeyShare (KeyShares (sent t)).
Definition start : listener := mkListener new_index (mkRate ∅ ∅ 0) 0.
Definition client_time : Z := 1700000010 * second.
Definition server_time : Z := 1700000040 * second.
Definition stream : Conn := mkConn (framed 3 1 [ztake 9 (hello_bytes client_time); zdrop 9 (hello_bytes client_time)] ++ [23; 3; 3]) EOF [] [] false.

Lemma client_recognised_witness : exists l' pc,
  handle server_time None (Some seed) two_users true (fun _ => None) "" "198.51.100.9:50000" stream start = Some (l', Passed pc)
  /\ decoy pc = false /\ knownPSK pc = secret 91 /\ c_in (p_conn pc) = [23; 3; 3].
Proof.
  destruct (client_recognised client_time server_time None (Some seed) two_users (mkUser "bob" (secret 91)) start stream 3 1
    [ztake 9 (hello_bytes client_time); zdrop 9 (hello_bytes client_time)] [23; 3; 3]
    (mkHello "example.com" (replicate 32 7) [(29, PublicKey eph)]) sel_pub (Some [Some eph; None]) (fun _ => None) "" "198.51.100.9:50000")
    as (l' & pc & Hh & Hd & _ & _ & Hc & Hk).
  - apply list_elem_of_In. vm_compute. tauto.
  - apply two_users_separate.
  - intros Hf. vm_compute in Hf. discriminate Hf.
  - vm_compute. discriminate.
  - vm_compute. reflexivity.
  - vm_compute. reflexivity.
  - intros sp Hsp. exists seed, seed. split; [reflexivity|]. split; [vm_compute; reflexivity|].
    assert (He : GoJson.std_decode (bytes_of_string sel_pub) = Some (PublicKey seed)) by (vm_compute; reflexivity).
    rewrite He in Hsp. injection Hsp as <-. reflexivity.
  - split; [vm_compute; reflexivity|]. split; [vm_compute; reflexivity|]. split; vm_compute; discriminate.
  - repeat constructor; vm_compute; discriminate.
  - vm_compute. reflexivity.
  - reflexivity.
  - exists l', pc. split; [exact Hh|]. split; [exact Hd|]. split; [|exact Hc]. apply Hk.
    assert (Hs : bool_decide (is_Some (selectorFor sel_pub (secret 91) (Some [Some eph; None]) (PublicKey eph))) = true) by (vm_compute; reflexivity).
    apply bool_decide_eq_true in Hs. exact Hs.
Defined.

Definition outcome : option (listener * fate) := handle server_time None (Some seed) two_users true (fun _ => None) "" "198.51.100.9:50000" stream start.

Lemma passed_only_authentic_witness :
  match outcome with
  | Some (_, Passed pc) => exists c' ph, peekClientHello stream = Some (c', ph, None) /\ p_conn pc = c' /\ prefix pc = raw ph /\ authentic server_time two_users ph pc
  | _ => False
  end.
Proof.
  assert (Hd : match outcome with Some (_, Passed pc) => decoy pc = false | _ => False end) by (vm_compute; reflexivity).
  destruct outcome as [[l' [pc|c|c up tg]]|] eqn:E; try exact Hd.
  apply (passed_only_authentic server_time None (Some seed) two_users true (fun _ => None) "" "198.51.100.9:50000" stream start l' pc).
  - intros Hf. vm_compute in Hf. discriminate Hf.
  - exact E.
  - exact Hd.
Defined.

Lemma decoy_rate_bound_witness : (relayed "198.51.100.9" (replicate 50 (5 * second, "198.51.100.9:1")) (relayed "198.51.100.9" [(1, "198.51.100.9:1")] (mkRate ∅ ∅ 0)).1).2 <= 39.
Proof. apply (decoy_rate_bound "198.51.100.9" 0 [(1, "198.51.100.9:1")] (replicate 50 (5 * second, "198.51.100.9:1")) 0). apply Forall_replicate. vm_compute. split; discriminate. Defined.

End CamoWitnesses.
