(* ===== verification/QuicInitial.v ===== *)
(** The QUIC Initial packet that announces a client on the datagram lane
    (core/protocol/quic/initial.go) and the packet filter in front of the QUIC
    server (core/protocol/quic/camouflage.go).

    HKDF, AES and AES-GCM are the operations of [QuicCrypto]; building and reading a
    ClientHello are the third-party operations of [Utls] and [UtlsBuild].  An
    indexing or a nonce that Go would panic on is [Crash]. *)

From S2P Require Import Prelude GoIO GoStr GoBytes NetIP Auth GoJson Camo.

Module QuicInitial.
Import Auth Camo.

Inductive quic_error :=
  | BadCipherKey | BadSample | EmptyVarint | TruncatedVarint | NotLongHeader | BadVersion | NotInitial | TruncatedHeader | TruncatedDcid | TruncatedScid
  | TruncatedToken | TruncatedPacket | TooShortToSample | LengthTooSmall | NoCryptoFrame | BadHello | OpenFailed | RandFailure | BuildFailed | NoRandom
  | NoKeyShare | MarshalFailed | Panicked.

Inductive out (A : Type) := Val (a : A) | Err (e : quic_error) | Crash.
Arguments Val {A}. Arguments Err {A}. Arguments Crash {A}.
Definition out_bind {A B} (x : out A) (f : A -> out B) : out B :=
  match x with Val a => f a | Err e => Err e | Crash => Crash end.
Notation "'do' x <- e ; k" := (out_bind e (fun x => k)) (at level 20, x name, e at level 100, k at level 200) : go_scope.

Definition check (b : bool) (e : quic_error) : out unit := if b then Err e else Val tt.
(** [b[i]] and [b[i:j]]. *)
Definition at_ (b : list Z) (i : Z) : out Z :=
  if 0 <=? i then match b !! Z.to_nat i with Some v => Val v | None => Crash end else Crash.
Definition slice_ (b : list Z) (i j : Z) : out (list Z) :=
  if (0 <=? i) && (i <=? j) && (j <=? len b) then Val (zslice i j b) else Crash.

Class QuicCrypto := {
  hkdf_extract : list Z -> list Z -> list Z;
  hkdf_expand : list Z -> list Z -> Z -> option (list Z);
  aes_encrypt : list Z -> list Z -> list Z;
  gcm_seal : list Z -> list Z -> list Z -> list Z -> list Z;
  gcm_open : list Z -> list Z -> list Z -> list Z -> option (list Z)
}.
Class UtlsBuild := { Marshal : Hello -> option (list Z) }.

Definition quicV1InitialSalt : list Z := [56; 118; 44; 247; 245; 89; 52; 179; 77; 23; 154; 230; 164; 200; 12; 173; 204; 187; 127; 10].
Definition quicFrameTypePadding : Z := 0.
Definition quicFrameTypeCrypto : Z := 6.
Definition quicMinInitialPacket : Z := 1200.

(** ** Varints and frames *)

Definition quicVarintAppend (b : list Z) (v : Z) : list Z :=
  if v <=? 63 then b ++ [u8 v]
  else if v <=? 16383 then b ++ [Z.lor (u8 (Z.shiftr v 8)) 64; u8 v]
  else if v <=? 1073741823 then b ++ [Z.lor (u8 (Z.shiftr v 24)) 128; u8 (Z.shiftr v 16); u8 (Z.shiftr v 8); u8 v]
  else b ++ [Z.lor (u8 (Z.shiftr v 56)) 192; u8 (Z.shiftr v 48); u8 (Z.shiftr v 40); u8 (Z.shiftr v 32);
             u8 (Z.shiftr v 24); u8 (Z.shiftr v 16); u8 (Z.shiftr v 8); u8 v].

Definition quicVarintParse (b : list Z) : out (Z * Z) :=
  match b with
  | [] => Err EmptyVarint
  | x :: _ =>
      let l := Z.shiftl 1 (Z.shiftr x 6) in
      if len b <? l then Err TruncatedVarint
      else Val (foldl (fun v y => u64 (Z.lor (Z.shiftl v 8) y)) (Z.land x 63) (zslice 1 l b), l)
  end.

Definition quicVarintLen (v : Z) : Z := if v <=? 63 then 1 else if v <=? 16383 then 2 else if v <=? 1073741823 then 4 else 8.

Definition quicCryptoFrame (data : list Z) : list Z :=
  quicVarintAppend (quicVarintAppend [quicFrameTypeCrypto] 0) (len data) ++ data.

(** The loop of [extractCryptoFrameData]; each frame takes a byte at least. *)
Fixpoint crypto_loop (fuel : nat) (payload crypto : list Z) : option (list Z * bool) :=
  match payload, fuel with
  | [], _ => Some (crypto, negb (len crypto <? 4))
  | _, O => None
  | t :: payload, S fuel =>
      if t =? quicFrameTypePadding then crypto_loop fuel payload crypto
      else if t =? quicFrameTypeCrypto then
        match quicVarintParse payload with
        | Val (_, n) =>
            let payload := zdrop n payload in
            match quicVarintParse payload with
            | Val (dataLen, n) =>
                let payload := zdrop n payload in
                if len payload <? dataLen then Some ([], false)
                else crypto_loop fuel (zdrop dataLen payload) (crypto ++ ztake dataLen payload)
            | _ => Some ([], false)
            end
        | _ => Some ([], false)
        end
      else Some ([], false)
  end.
Definition extractCryptoFrameData (payload : list Z) : option (list Z * bool) := crypto_loop (length payload) payload [].

Section Packets.
Context `{QuicCrypto}.

(** ** Keys *)

(** nil is the empty list. *)
Definition hkdfExpandLabelQUIC (secret context : list Z) (label : string) (length : Z) : list Z :=
  let l := bytes_of_string label in
  default [] (hkdf_expand secret (put16 (u16 length) ++ [u8 (6 + len l)] ++ bytes_of_string "tls13 " ++ l ++ [u8 (len context)] ++ context) length).

Definition quicInitialSecrets (dcid : list Z) : list Z * list Z :=
  let initialSecret := hkdf_extract dcid quicV1InitialSalt in
  (hkdfExpandLabelQUIC initialSecret [] "client in" 32, hkdfExpandLabelQUIC initialSecret [] "server in" 32).
Definition quicKeyIVHP (secret : list Z) : list Z * list Z * list Z :=
  (hkdfExpandLabelQUIC secret [] "quic key" 16, hkdfExpandLabelQUIC secret [] "quic iv" 12, hkdfExpandLabelQUIC secret [] "quic hp" 16).

Definition quicAEADNonce (iv : list Z) (pn : Z) : out (list Z) :=
  let off := len iv - 8 in
  if off <? 0 then Crash else Val (ztake off iv ++ zip_with Z.lxor (zdrop off iv) (put64 pn)).

(** [aes.NewCipher] takes keys of 16, 24 and 32 bytes. *)
Definition cipher_key (key : list Z) : bool := (len key =? 16) || (len key =? 24) || (len key =? 32).
(** GCM panics on a nonce that is not of 12 bytes. *)
Definition gcm_nonce (nonce : list Z) : out unit := if len nonce =? 12 then Val tt else Crash.

Definition quicSeal (key iv : list Z) (pn : Z) (plaintext ad : list Z) : out (list Z) :=
  do _ <- check (negb (cipher_key key)) BadCipherKey;
  do nonce <- quicAEADNonce iv pn;
  do _ <- gcm_nonce nonce;
  Val (gcm_seal key nonce plaintext ad).
Definition quicOpen (key iv : list Z) (pn : Z) (ciphertext ad : list Z) : out (list Z) :=
  do _ <- check (negb (cipher_key key)) BadCipherKey;
  do nonce <- quicAEADNonce iv pn;
  do _ <- gcm_nonce nonce;
  match gcm_open key nonce ciphertext ad with Some p => Val p | None => Err OpenFailed end.

Definition quicHeaderProtectionMask (hpKey sample : list Z) : out (list Z) :=
  do _ <- check (negb (len sample =? 16)) BadSample;
  do _ <- check (negb (cipher_key hpKey)) BadCipherKey;
  Val (fit 16 (aes_encrypt hpKey sample)).

(** ** Building the probe *)

(** [packet[0] ^= mask[0] & 0x0f] and the bytes of the packet number. *)
Definition xor_at (i m : Z) (b : list Z) : list Z := alter (fun x => Z.lxor x m) (Z.to_nat i) b.

(** The header up to the length field. *)
Definition probe_header (dcid scid : list Z) : list Z :=
  [Z.lor 192 0] ++ [0; 0; 0; 1] ++ [u8 (len dcid)] ++ dcid ++ [u8 (len scid)] ++ scid ++ [0].
(** The padding makes the packet 1200 bytes, if the hello leaves room. *)
Definition pad_length (header payload : list Z) : Z :=
  let unpaddedTotal := len header + quicVarintLen (1 + len payload + 16) + 1 + len payload + 16 in
  Z.max quicMinInitialPacket unpaddedTotal - unpaddedTotal.
Definition padded (header payload : list Z) : list Z := payload ++ replicate (Z.to_nat (pad_length header payload)) 0.

(** [BuildCamoProbe] from the two connection ids and the hello on. *)
Definition seal_probe (dcid scid chBytes : list Z) : out (list Z) :=
  let '(key, iv, hp) := quicKeyIVHP (quicInitialSecrets dcid).1 in
  let header := probe_header dcid scid in
  let payload := padded header (quicCryptoFrame chBytes) in
  let header := quicVarintAppend header (1 + len payload + 16) in
  let pnOffset := len header in
  let header := header ++ [0] in
  do sealed <- quicSeal key iv 0 payload header;
  let packet := header ++ sealed in
  do _ <- check (len packet <? pnOffset + 4 + 16) TooShortToSample;
  do sample <- slice_ packet (pnOffset + 4) (pnOffset + 4 + 16);
  do mask <- quicHeaderProtectionMask hp sample;
  Val (xor_at pnOffset (byte_at mask 1) (xor_at 0 (Z.land (byte_at mask 0) 15) packet)).

Context `{Crypto} `{UtlsBuild}.

(** [buildMarkedClientHello]: [hello] is the handshake state that was built. *)
Definition buildMarkedClientHello (now : Z) (camoKey : list Z) (hello : option (option Hello)) : out (list Z * list Z * list Z) :=
  match hello with
  | None => Err BuildFailed
  | Some None => Err NoRandom
  | Some (Some h) =>
      if negb (len (Random h) =? 32) then Err NoRandom
      else
        let ks := ExtractX25519KeyShare (KeyShares h) in
        if len ks =? 0 then Err NoKeyShare
        else
          let shares := match find (fun sh => sh.1 =? X25519) (KeyShares h) with Some share => [share] | None => KeyShares h end in
          let random := BuildMarker now camoKey ks in
          match Marshal (mkHello (ServerName h) random shares) with
          | None => Err MarshalFailed
          | Some raw => Val (raw, ks, random)
          end
  end.

Definition BuildCamoProbe (now : Z) (dcid scid : option (list Z)) (hello : option (option Hello)) (camoKey : list Z) : out (list Z) :=
  match dcid, scid with
  | Some dcid, Some scid =>
      do b <- buildMarkedClientHello now camoKey hello;
      seal_probe dcid scid b.1.1
  | _, _ => Err RandFailure
  end.

(** ** Reading an Initial *)

Record quicInitialHeader := mkHeader { dcid : list Z; pnOffset : Z; length_ : Z }.
Record parsedQUICInitial := mkInitial { i_dcid : list Z; i_sni : string; i_random : list Z; i_keyShare : list Z }.

Definition parseQUICInitialHeader (packet : list Z) : out quicInitialHeader :=
  do _ <- check (len packet <? 7) NotLongHeader;
  do b0 <- at_ packet 0;
  do _ <- check ((Z.land b0 128 =? 0) || (Z.land b0 64 =? 0)) NotLongHeader;
  do version <- slice_ packet 1 5;
  do _ <- check (negb (get32 version =? 1)) BadVersion;
  do _ <- check (negb (Z.land (Z.shiftr b0 4) 3 =? 0)) NotInitial;
  do _ <- check (len packet <=? 5) TruncatedHeader;
  do dcidLen <- at_ packet 5;
  let pos := 6 in
  do _ <- check (len packet <? pos + dcidLen + 1) TruncatedDcid;
  do d <- slice_ packet pos (pos + dcidLen);
  let pos := pos + dcidLen in
  do scidLen <- at_ packet pos;
  let pos := pos + 1 in
  do _ <- check (len packet <? pos + scidLen) TruncatedScid;
  let pos := pos + scidLen in
  do rest <- slice_ packet pos (len packet);
  do token <- quicVarintParse rest;
  let pos := pos + token.2 in
  do _ <- check (len packet <? i64 (pos + i64 token.1)) TruncatedToken;
  let pos := i64 (pos + i64 token.1) in
  do rest <- slice_ packet pos (len packet);
  do lenField <- quicVarintParse rest;
  let pos := pos + lenField.2 in
  do _ <- check (len packet <? i64 (pos + i64 lenField.1)) TruncatedPacket;
  Val (mkHeader d pos (i64 lenField.1)).

(** The loop over the bytes of the packet number. *)
Fixpoint pn_bytes (packet mask : list Z) (off i : Z) (n : nat) : out (list Z) :=
  match n with
  | O => Val []
  | S n =>
      do p <- at_ packet (off + i);
      do m <- at_ mask (1 + i);
      do rest <- pn_bytes packet mask off (i + 1) n;
      Val (Z.lxor p m :: rest)
  end.

Definition decryptQUICInitial (packet : list Z) (h : quicInitialHeader) : out (list Z) :=
  let '(key, iv, hp) := quicKeyIVHP (quicInitialSecrets (dcid h)).1 in
  let sampleOffset := pnOffset h + 4 in
  do _ <- check (len packet <? sampleOffset + 16) TooShortToSample;
  do sample <- slice_ packet sampleOffset (sampleOffset + 16);
  do mask <- quicHeaderProtectionMask hp sample;
  do b0 <- at_ packet 0;
  do m0 <- at_ mask 0;
  let firstByte := Z.lxor b0 (Z.land m0 15) in
  let pnLen := Z.land firstByte 3 + 1 in
  do _ <- check (length_ h <? pnLen) LengthTooSmall;
  do pnb <- pn_bytes packet mask (pnOffset h) 0 (Z.to_nat pnLen);
  let pn := foldl (fun v x => u64 (Z.lor (Z.shiftl v 8) x)) 0 pnb in
  let adEnd := pnOffset h + pnLen in
  do head <- slice_ packet 0 (pnOffset h);
  let ad := firstByte :: zdrop 1 head ++ pnb in
  do body <- slice_ packet adEnd (pnOffset h + length_ h);
  quicOpen key iv pn body ad.

Context `{Utls}.

Definition parseQUICInitialClientHello (packet : list Z) : out parsedQUICInitial :=
  do h <- parseQUICInitialHeader packet;
  do plaintext <- decryptQUICInitial packet h;
  match extractCryptoFrameData plaintext with
  | Some (chBytes, true) =>
      match UnmarshalClientHello chBytes with
      | None => Err BadHello
      | Some msg => Val (mkInitial (dcid h) (ServerName msg) (Random msg) (ExtractX25519KeyShare (KeyShares msg)))
      end
  | _ => Err NoCryptoFrame
  end.

(** [parseInitialSafely]: a panic is an error. *)
Definition parseInitialSafely (packet : list Z) : quic_error + parsedQUICInitial :=
  match parseQUICInitialClientHello packet with Val p => inr p | Err e => inl e | Crash => inl Panicked end.

(** ** camouflage.go *)

Definition quicCamoTrustWindow : Z := (WindowTol * 2 + 1) * WindowSeconds * second.
Definition quicCamoIdleTimeout : Z := 120 * second.
Definition quicCamoCleanupEvery : Z := 60 * second.

(** [upstream] is what was written to the origin, [open] whether its connection
    is still open. *)
Record decoySession := mkSession { upstream : list (list Z); lastActive : Z; open : bool }.
Record camoConn := mkCamo {
  realPeers : gmap string Z; decoySessions : gmap string decoySession; lastClean : Z
}.
Definition NewCamoConn (now : Z) : camoConn := mkCamo ∅ ∅ now.

Definition forward (now : Z) (data : list Z) (s : decoySession) : decoySession :=
  mkSession (if open s then upstream s ++ [data] else upstream s) now (open s).
Definition session_Close (s : decoySession) : decoySession := mkSession (upstream s) (lastActive s) false.
(** The two ends of [pump]: an answer of the origin, and its last. *)
Definition pump_answer (now : Z) (s : decoySession) : decoySession := if open s then mkSession (upstream s) now true else s.
Definition pump_end : decoySession -> decoySession := session_Close.

Definition cleanupLocked (now : Z) (c : camoConn) : camoConn :=
  if now - lastClean c <? quicCamoCleanupEvery then c
  else mkCamo (filter (fun p : string * Z => now <= p.2) (realPeers c))
              (filter (fun p : string * decoySession => now - lastActive p.2 <= quicCamoIdleTimeout) (decoySessions c)) now.

(** What [ReadFrom] does with a packet: return it, or go on to the next. *)
Inductive verdict := Deliver | Announced | Forwarded | Throttled | NoDecoy.

(** One turn of [ReadFrom]: [known] is [authenticate] at this moment, [allow] and
    [dialed] are the answers of the rate limit and of dialling the origin. *)
Definition receive (now : Z) (known : parsedQUICInitial -> bool) (allow dialed : bool) (key : string) (packet : list Z) (c : camoConn) : camoConn * verdict :=
  let trusted := match realPeers c !! key with Some exp => now <? exp | None => false end in
  if trusted then (mkCamo (<[key := now + quicCamoTrustWindow]> (realPeers c)) (decoySessions c) (lastClean c), Deliver)
  else
    let c := mkCamo (delete key (realPeers c)) (decoySessions c) (lastClean c) in
    let sess := decoySessions c !! key in
    let c := cleanupLocked now c in
    match sess with
    | Some s => (mkCamo (realPeers c) (alter (forward now packet) key (decoySessions c)) (lastClean c), Forwarded)
    | None =>
        let fresh_peer := match parseInitialSafely packet with inr p => known p | inl _ => false end in
        if fresh_peer then (mkCamo (<[key := now + quicCamoTrustWindow]> (realPeers c)) (decoySessions c) (lastClean c), Announced)
        else if negb allow then (c, Throttled)
        else if negb dialed then (c, NoDecoy)
        else (mkCamo (realPeers c) (<[key := forward now packet (mkSession [] now true)]> (decoySessions c)) (lastClean c), Forwarded)
    end.

(** [authenticate], with the selector index of the server. *)
Definition authenticate `{Curve} (now : Z) (ver : option Z) (identity : option (list Z)) (cfg : ServerConfig) (s : selectorIndex) (p : parsedQUICInitial) : bool :=
  match resolveBySelector now ver identity cfg s (i_random p) (i_keyShare p) with
  | (_, inr _) => true
  | (s, inl _) => MarkerMatches now (camoKeys now ver cfg s).2 (i_random p) (i_keyShare p)
  end.

End Packets.
End QuicInitial.
