(* ===== verification/QuicInitialFacts.v ===== *)
(** Facts about the announcing Initial: the round trip of varints and frames,
    that reading a packet never goes out of bounds, that the probe of a client is
    read back as it was built, and the packets that reach the QUIC server. *)

From S2P Require Import Prelude GoIO GoStr GoBytes NetIP Auth GoJson Camo CamoFacts QuicInitial.
Import Auth Camo QuicInitial.

(** ** Varints *)

Lemma fold_bytes acc l : 0 <= acc -> Forall is_byte l -> (acc + 1) * 256 ^ len l <= 2 ^ 64 ->
  foldl (fun v y => u64 (Z.lor (Z.shiftl v 8) y)) acc l = acc * 256 ^ len l + bytes_val l.
Proof.
  revert acc. induction l as [|x l IH]; intros acc Ha Hb Hm; [rewrite zlen_nil; cbn; lia|].
  apply Forall_cons_1 in Hb as [Hx Hb]. rewrite zlen_cons in *. pose proof (zlen_nonneg l) as Hl. rewrite Z.pow_add_r in * by lia.
  assert (Hp : 1 <= 256 ^ len l) by (pose proof (Z.pow_pos_nonneg 256 (len l)); lia).
  cbn [foldl]. rewrite lor_shiftl_add by (unfold is_byte in Hx; lia). unfold u64. unfold is_byte in Hx.
  rewrite Z.mod_small by nia. rewrite IH by (try done; nia). rewrite bytes_val_cons. ring.
Qed.

Definition varint (v : Z) : list Z := quicVarintAppend [] v.

Lemma varint_append b v : quicVarintAppend b v = b ++ varint v.
Proof. unfold varint, quicVarintAppend. repeat destruct (v <=? _); done. Qed.

Lemma varint_len v : len (varint v) = quicVarintLen v.
Proof. unfold varint, quicVarintAppend, quicVarintLen. repeat destruct (v <=? _); done. Qed.

Lemma varint_parse_gen x l k n : 0 <= n -> Z.shiftr x 6 = n -> len (x :: l) = 2 ^ n -> 0 <= Z.land x 63 < 64 -> Forall is_byte l -> n <= 3 ->
  quicVarintParse ((x :: l) ++ k) = Val (Z.land x 63 * 256 ^ len l + bytes_val l, 2 ^ n).
Proof.
  intros Hn Hs Hl Hx Hb H3. unfold quicVarintParse. cbn [app]. rewrite Hs, Z.shiftl_1_l.
  rewrite (proj2 (Z.ltb_ge _ _)) by (rewrite app_comm_cons, zlen_app, Hl; pose proof (zlen_nonneg k); lia).
  assert (Hz : zslice 1 (2 ^ n) (x :: l ++ k) = l).
  { unfold zslice. change (zdrop 1 (x :: l ++ k)) with (l ++ k). apply ztake_app_exact. rewrite zlen_cons in Hl. lia. }
  rewrite Hz, fold_bytes; [done|lia|done|]. rewrite zlen_cons in Hl. assert (2 ^ n <= 2 ^ 3) by (apply Z.pow_le_mono_r; lia).
  change (256 ^ len l) with ((2 ^ 8) ^ len l). rewrite <- Z.pow_mul_r by (pose proof (zlen_nonneg l); lia).
  assert (2 ^ (8 * len l) <= 2 ^ 56) by (apply Z.pow_le_mono_r; cbn in *; lia). change (2 ^ 64) with (2 ^ 8 * 2 ^ 56). nia.
Qed.

Lemma u8_byte z : is_byte (u8 z).
Proof. apply u8_range. Qed.
#[local] Hint Resolve u8_byte : go.

(** The first byte of a varint of [2 ^ n] bytes. *)
Lemma varint_head h n : 0 <= h < 64 -> 0 <= n < 4 -> Z.shiftr (Z.lor h (Z.shiftl n 6)) 6 = n /\ Z.land (Z.lor h (Z.shiftl n 6)) 63 = h.
Proof.
  intros Hh Hn. rewrite Z.lor_comm, lor_shiftl_add by lia. change 63 with (Z.ones 6). rewrite Z.land_ones, Z.shiftr_div_pow2 by lia.
  change (2 ^ 6) with 64. split; [|]; Z.to_euclidean_division_equations; lia.
Qed.

(** A varint of [2 ^ n] bytes whose first byte has the top six bits [h]. *)
Lemma varint_parse_head h n l k : 0 <= h < 64 -> 0 <= n < 4 -> len l = 2 ^ n - 1 -> Forall is_byte l ->
  quicVarintParse ((Z.lor h (Z.shiftl n 6) :: l) ++ k) = Val (h * 256 ^ len l + bytes_val l, 2 ^ n).
Proof.
  intros Hh Hn Hl Hb. destruct (varint_head h n Hh Hn) as [H1 H2].
  rewrite (varint_parse_gen _ l k n); rewrite ?H2; try done; try lia. rewrite zlen_cons. lia.
Qed.

Ltac div_lia := unfold bytes_val, u8; cbn [foldl]; rewrite ?Z.shiftr_div_pow2 by lia; Z.to_euclidean_division_equations; lia.

Lemma varint_parse v k : 0 <= v < 2 ^ 62 -> quicVarintParse (varint v ++ k) = Val (v, quicVarintLen v).
Proof.
  intros Hv. unfold varint, quicVarintAppend, quicVarintLen.
  destruct (v <=? 63) eqn:E1; [|destruct (v <=? 16383) eqn:E2; [|destruct (v <=? 1073741823) eqn:E3]]; bool_to_prop; rewrite app_nil_l.
  - rewrite u8_small by lia. assert ([v] = [Z.lor v (Z.shiftl 0 6)]) as -> by (cbn; rewrite Z.lor_0_r; done).
    rewrite varint_parse_head by (done || lia). f_equal. f_equal. change (v * 1 + 0 = v). lia.
  - change 64 with (Z.shiftl 1 6). rewrite (u8_small (Z.shiftr v 8)) by div_lia. rewrite varint_parse_head; [|div_lia|lia|done|repeat constructor; apply u8_byte]. f_equal. f_equal. change (256 ^ len _) with 256. div_lia.
  - change 128 with (Z.shiftl 2 6). rewrite (u8_small (Z.shiftr v 24)) by div_lia. rewrite varint_parse_head; [|div_lia|lia|done|repeat constructor; apply u8_byte]. f_equal. f_equal. change (256 ^ len _) with 16777216. div_lia.
  - change 192 with (Z.shiftl 3 6). rewrite (u8_small (Z.shiftr v 56)) by div_lia. rewrite varint_parse_head; [|div_lia|lia|done|repeat constructor; apply u8_byte]. f_equal. f_equal. change (256 ^ len _) with 72057594037927936. div_lia.
Qed.

Lemma varint_range b v n : Forall is_byte b -> quicVarintParse b = Val (v, n) -> 0 <= v < 2 ^ 62 /\ 1 <= n <= len b.
Proof.
  intros Hb. unfold quicVarintParse. destruct b as [|x b]; [done|]. destruct (_ <? _) eqn:E; [done|]. intros [= <- <-]. bool_to_prop.
  apply Forall_cons_1 in Hb as [Hx Hb]. unfold is_byte in Hx.
  assert (Hn : 0 <= Z.shiftr x 6 < 4) by (rewrite Z.shiftr_div_pow2 by lia; Z.to_euclidean_division_equations; lia).
  rewrite Z.shiftl_1_l in *. set (n := Z.shiftr x 6) in *.
  assert (Hpn : 1 <= 2 ^ n <= 8) by (split; [pose proof (Z.pow_pos_nonneg 2 n); lia|change 8 with (2 ^ 3); apply Z.pow_le_mono_r; lia]).
  split; [|lia]. set (l := zslice 1 (2 ^ n) (x :: b)).
  assert (Hl : len l = 2 ^ n - 1).
  { unfold l, zslice. change (zdrop 1 (x :: b)) with b. apply zlen_ztake. rewrite zlen_cons in E. lia. }
  assert (Hlb : Forall is_byte l) by (unfold l, zslice, ztake, zdrop; apply Forall_take, Forall_drop; constructor; done).
  assert (Hh : 0 <= Z.land x 63 < 64) by (change 63 with (Z.ones 6); rewrite Z.land_ones by lia; apply Z.mod_pos_bound; done).
  pose proof (bytes_val_range l Hlb) as Hv. assert (Hp : 256 ^ len l <= 256 ^ 7) by (apply Z.pow_le_mono_r; lia).
  rewrite fold_bytes; [|lia|done|change (2 ^ 64) with (256 * 256 ^ 7); nia]. change (2 ^ 62) with (64 * 256 ^ 7). nia.
Qed.

Lemma varint_no_crash b : quicVarintParse b <> Crash.
Proof. unfold quicVarintParse. destruct b; [done|]. destruct (_ <? _); done. Qed.

(** ** Frames *)

Lemma crypto_loop_total fuel payload crypto : (length payload <= fuel)%nat -> is_Some (crypto_loop fuel payload crypto).
Proof.
  revert payload crypto. induction fuel as [|fuel IH]; intros [|t p] crypto Hl; cbn in Hl |- *; try (eauto; lia).
  destruct (t =? quicFrameTypePadding); [apply IH; lia|]. destruct (t =? quicFrameTypeCrypto); [|eauto].
  destruct (quicVarintParse p) as [[v n]| |]; eauto. destruct (quicVarintParse (zdrop n p)) as [[dl m]| |]; eauto.
  destruct (_ <? _); eauto. apply IH. unfold zdrop. rewrite !length_drop. lia.
Qed.

Lemma padding_skipped fuel n crypto : (n <= fuel)%nat -> crypto_loop fuel (replicate n 0) crypto = Some (crypto, negb (len crypto <? 4)).
Proof. revert n. induction fuel as [|fuel IH]; intros [|n] Hn; cbn; try done; [lia|]. apply IH. lia. Qed.

Lemma crypto_frame_read fuel ch n : 4 <= len ch < 2 ^ 62 -> (length (quicCryptoFrame ch ++ replicate n 0%Z) <= fuel)%nat ->
  crypto_loop fuel (quicCryptoFrame ch ++ replicate n 0) [] = Some (ch, true).
Proof.
  intros Hc Hf. unfold quicCryptoFrame in *. rewrite (varint_append _ (len ch)) in *. change (quicVarintAppend [quicFrameTypeCrypto] 0) with (6 :: varint 0) in *.
  rewrite <- !app_assoc in *. cbn [app] in *. destruct fuel as [|fuel]; [cbn in Hf; lia|]. cbn [crypto_loop].
  cbn [length] in Hf. rewrite !length_app, length_replicate in Hf.
  change (6 =? quicFrameTypePadding) with false. change (6 =? quicFrameTypeCrypto) with true. cbn iota.
  rewrite varint_parse by lia. rewrite zdrop_app_exact by done. rewrite varint_parse by lia. rewrite zdrop_app_exact by apply varint_len.
  rewrite (proj2 (Z.ltb_ge _ _)) by (rewrite zlen_app; unfold zlen; lia).
  rewrite zdrop_app_exact, ztake_app_exact by done. rewrite padding_skipped by lia. cbn [app]. rewrite (proj2 (Z.ltb_ge _ _)) by lia. done.
Qed.

(** ** Reading within bounds *)

Lemma at_val b i : 0 <= i < len b -> exists v, at_ b i = Val v /\ (Forall is_byte b -> is_byte v).
Proof.
  intros Hi. unfold at_. rewrite (proj2 (Z.leb_le 0 i)) by lia. destruct (b !! Z.to_nat i) as [v|] eqn:E.
  - exists v. split; [done|]. intros Hb. rewrite Forall_lookup in Hb. eauto.
  - apply lookup_ge_None in E. unfold zlen in Hi. lia.
Qed.
Lemma slice_val b i j : 0 <= i <= j -> j <= len b -> slice_ b i j = Val (zslice i j b).
Proof. intros Hi Hj. unfold slice_. rewrite (proj2 (Z.leb_le 0 i)), (proj2 (Z.leb_le i j)), (proj2 (Z.leb_le j _)) by lia. done. Qed.

Lemma check_bind {B} b e (k : unit -> out B) : out_bind (check b e) k = if b then Err e else k tt.
Proof. destruct b; done. Qed.

Lemma i64_small z : - 2 ^ 63 <= z < 2 ^ 63 -> i64 z = z.
Proof. intros Hz. unfold i64. rewrite Z.mod_small; lia. Qed.

Section Safe.
Context `{QuicCrypto} (expand_len : forall s i n, 0 <= n <= 8160 -> exists k, hkdf_expand s i n = Some k /\ len k = n).

Lemma label_len secret label n : 0 <= n <= 8160 -> len (hkdfExpandLabelQUIC secret [] label n) = n.
Proof. intros Hn. unfold hkdfExpandLabelQUIC. match goal with |- context [hkdf_expand ?s ?i _] => destruct (expand_len s i n Hn) as (k & -> & Hk) end. done. Qed.

Lemma nonce_val iv pn : len iv = 12 -> exists nonce, quicAEADNonce iv pn = Val nonce /\ len nonce = 12.
Proof.
  intros Hi. unfold quicAEADNonce. rewrite Hi. eexists. split; [reflexivity|].
  rewrite zlen_app, zlen_ztake by lia. pose proof (put64_len pn) as Hp. pose proof (zlen_zdrop (12 - 8) iv ltac:(lia)) as Hd. unfold zlen in *. rewrite length_zip_with. lia.
Qed.

Lemma open_safe key iv pn c ad : len iv = 12 -> quicOpen key iv pn c ad <> Crash.
Proof.
  intros Hi. unfold quicOpen. rewrite check_bind. destruct (negb _); [done|]. destruct (nonce_val iv pn Hi) as (nonce & -> & Hn). cbn.
  unfold gcm_nonce. rewrite Hn. cbn. destruct (gcm_open _ _ _ _); done.
Qed.

Lemma header_safe packet : Forall is_byte packet -> len packet < 2 ^ 62 ->
  parseQUICInitialHeader packet <> Crash /\
  forall h, parseQUICInitialHeader packet = Val h -> 6 <= pnOffset h /\ 0 <= length_ h /\ pnOffset h + length_ h <= len packet.
Proof.
  intros Hb Hl. unfold parseQUICInitialHeader.
  rewrite check_bind. destruct (len packet <? 7) eqn:E7; [done|]. bool_to_prop.
  destruct (at_val packet 0) as (b0 & -> & _); [lia|]. cbn [out_bind]. rewrite check_bind. destruct (_ || _); [done|].
  rewrite slice_val by lia. cbn [out_bind]. rewrite check_bind. destruct (negb _); [done|]. rewrite check_bind. destruct (negb _); [done|].
  rewrite check_bind, (proj2 (Z.leb_gt _ _)) by lia. destruct (at_val packet 5) as (dl & -> & Hdl); [lia|]. specialize (Hdl Hb). unfold is_byte in Hdl. cbn [out_bind].
  rewrite check_bind. destruct (_ <? _) eqn:Ed; [done|]. bool_to_prop. rewrite slice_val by lia. cbn [out_bind].
  destruct (at_val packet (6 + dl)) as (sl & -> & Hsl); [lia|]. specialize (Hsl Hb). unfold is_byte in Hsl. cbn [out_bind].
  rewrite check_bind. destruct (_ <? _) eqn:Es; [done|]. bool_to_prop. set (p1 := 6 + dl + 1 + sl) in *. rewrite slice_val by lia. cbn [out_bind].
  assert (Hsb : forall i, Forall is_byte (zslice i (len packet) packet)) by (intros; unfold zslice, ztake, zdrop; apply Forall_take, Forall_drop; done).
  assert (Hsn : forall i, 0 <= i <= len packet -> len (zslice i (len packet) packet) = len packet - i)
    by (intros i Hi; unfold zslice; rewrite zlen_ztake by (rewrite zlen_zdrop by lia; lia); done).
  destruct (quicVarintParse (zslice p1 _ _)) as [[tok n1]| |] eqn:Et; try done; [|exfalso; revert Et; apply varint_no_crash].
  apply varint_range in Et as [Ht Hn1]; [|done]. rewrite Hsn in Hn1 by lia. cbn [out_bind fst snd].
  rewrite (i64_small tok), i64_small by lia. rewrite check_bind. destruct (_ <? _) eqn:Ek; [done|]. bool_to_prop. rewrite slice_val by lia. cbn [out_bind].
  destruct (quicVarintParse (zslice (p1 + n1 + tok) _ _)) as [[lf n2]| |] eqn:Ef; try done; [|exfalso; revert Ef; apply varint_no_crash].
  apply varint_range in Ef as [Hf Hn2]; [|done]. rewrite Hsn in Hn2 by lia. cbn [out_bind fst snd].
  rewrite (i64_small lf), i64_small by lia. rewrite check_bind. destruct (_ <? _) eqn:Ep; [done|]. bool_to_prop. split; [done|]. intros h [= <-]. cbn. lia.
Qed.

Lemma mask_len hp sample mask : quicHeaderProtectionMask hp sample = Val mask -> len mask = 16.
Proof. unfold quicHeaderProtectionMask. rewrite !check_bind. repeat destruct (negb _); try done. intros [= <-]. apply fit_len. lia. Qed.

Lemma pn_bytes_val packet mask off i n : 0 <= off -> 0 <= i -> off + i + Z.of_nat n <= len packet -> 1 + i + Z.of_nat n <= len mask ->
  exists l, pn_bytes packet mask off i n = Val l.
Proof.
  revert i. induction n as [|n IH]; intros i Ho Hi Hp Hm; [eexists; reflexivity|]. cbn [pn_bytes].
  destruct (at_val packet (off + i)) as (p & -> & _); [lia|]. destruct (at_val mask (1 + i)) as (m & -> & _); [lia|].
  destruct (IH (i + 1)) as (l & E); [lia..|]. cbn. rewrite E. eexists. reflexivity.
Qed.

Lemma decrypt_safe packet h : 6 <= pnOffset h -> 0 <= length_ h -> pnOffset h + length_ h <= len packet -> decryptQUICInitial packet h <> Crash.
Proof.
  intros Hp Hl Hpl. unfold decryptQUICInitial, quicKeyIVHP. rewrite check_bind. destruct (_ <? _) eqn:Es; [done|]. bool_to_prop.
  rewrite slice_val by lia. cbn [out_bind]. destruct (quicHeaderProtectionMask _ _) as [mask| |] eqn:Em; [|done|].
  2: { exfalso. revert Em. unfold quicHeaderProtectionMask. rewrite !check_bind. repeat destruct (negb _); done. }
  apply mask_len in Em. cbn [out_bind]. destruct (at_val packet 0) as (b0 & -> & _); [lia|]. destruct (at_val mask 0) as (m0 & -> & _); [lia|]. cbn [out_bind].
  set (first := Z.lxor b0 _). assert (Hf : 0 <= Z.land first 3 < 4) by (change 3 with (Z.ones 2); rewrite Z.land_ones by lia; apply Z.mod_pos_bound; done).
  rewrite check_bind. destruct (length_ h <? _) eqn:Ell; [done|]. bool_to_prop.
  destruct (pn_bytes_val packet mask (pnOffset h) 0 (Z.to_nat (Z.land first 3 + 1))) as (pnb & ->); [lia..|]. cbn [out_bind].
  rewrite !slice_val by lia. cbn [out_bind]. apply open_safe, label_len. lia.
Qed.

(** No packet makes the reader panic, so that its recovery is never needed. *)
Theorem initial_parse_safe `{Utls} packet : Forall is_byte packet -> len packet < 2 ^ 62 ->
  match parseQUICInitialClientHello packet with
  | Val p => parseInitialSafely packet = inr p
  | Err e => parseInitialSafely packet = inl e
  | Crash => False
  end.
Proof.
  intros Hb Hl. unfold parseInitialSafely. destruct (parseQUICInitialClientHello packet) eqn:Ep; [done..|]. revert Ep.
  unfold parseQUICInitialClientHello. destruct (header_safe packet Hb Hl) as [Hh Hv]. destruct (parseQUICInitialHeader packet) as [h| |]; try done. cbn [out_bind].
  destruct (Hv h eq_refl) as (Hp1 & Hp2 & Hp3). pose proof (decrypt_safe packet h Hp1 Hp2 Hp3) as Hd. destruct (decryptQUICInitial packet h) as [pt| |]; try done. cbn [out_bind].
  destruct (extractCryptoFrameData pt) as [[ch []]|]; try done. destruct (UnmarshalClientHello ch); done.
Qed.
End Safe.

(** ** The probe is read back *)

Class QuicLaws `{QuicCrypto} := {
  expand_len : forall s i n, 0 <= n <= 8160 -> exists k, hkdf_expand s i n = Some k /\ len k = n;
  seal_len : forall key nonce p ad, len (gcm_seal key nonce p ad) = len p + 16;
  seal_open : forall key nonce p ad, gcm_open key nonce (gcm_seal key nonce p ad) ad = Some p
}.

Lemma slice_tail p i : 0 <= i <= len p -> slice_ p i (len p) = Val (zdrop i p).
Proof. intros Hi. rewrite slice_val by lia. f_equal. unfold zslice. rewrite ztake_ge; [done|]. rewrite zlen_zdrop by lia. lia. Qed.

Lemma xor_at_app l x k m : xor_at (len l) m (l ++ x :: k) = l ++ Z.lxor x m :: k.
Proof. unfold xor_at. rewrite <- length_zlen. induction l as [|y l IH]; [done|]. cbn. f_equal. exact IH. Qed.

Lemma list_of_8 (l : list Z) : len l = 8 -> exists a b c d e f g h, l = [a; b; c; d; e; f; g; h].
Proof.
  intros Hl. do 8 (destruct l as [|? l]; [exfalso; unfold zlen in Hl; cbn in Hl; lia|]). destruct l; [eauto 20|]. exfalso. rewrite !zlen_cons in Hl. pose proof (zlen_nonneg l). lia.
Qed.

(** The first byte under its protection. *)
Lemma first_byte m : let m' := Z.land m 15 in let b := Z.lxor (Z.lor 192 0) m' in
  (Z.land b 128 =? 0) || (Z.land b 64 =? 0) = false /\ Z.land (Z.shiftr b 4) 3 = 0 /\ Z.lxor b m' = 192.
Proof.
  cbn zeta. assert (Hm : Z.land m 15 ∈ seqZ 0 16) by (apply elem_of_seqZ; change 15 with (Z.ones 4); rewrite Z.land_ones by lia; pose proof (Z.mod_pos_bound m (2 ^ 4)); lia).
  revert Hm. generalize (Z.land m 15). intros m' Hm. split_and!; [| |rewrite Z.lxor_assoc, Z.lxor_nilpotent; done]; revert m' Hm; apply Forall_forall;
    repeat (constructor; [reflexivity|]); constructor.
Qed.

(** A packet of the shape that [seal_probe] makes. *)
Lemma probe_header_read b0 d s L x rest :
  len d = 8 -> len s = 8 -> 0 <= L < 2 ^ 32 -> L = 1 + len rest -> len rest < 2 ^ 32 ->
  (Z.land b0 128 =? 0) || (Z.land b0 64 =? 0) = false -> Z.land (Z.shiftr b0 4) 3 = 0 ->
  parseQUICInitialHeader ((b0 :: tail (probe_header d s)) ++ varint L ++ x :: rest) = Val (mkHeader d (24 + quicVarintLen L) L).
Proof.
  intros Hd Hs HL HLr Hr Hb1 Hb2. apply list_of_8 in Hd as (d1 & d2 & d3 & d4 & d5 & d6 & d7 & d8 & ->). apply list_of_8 in Hs as (s1 & s2 & s3 & s4 & s5 & s6 & s7 & s8 & ->).
  unfold probe_header. change (u8 (len [_; _; _; _; _; _; _; _])) with 8. cbn [app tail].
  set (packet := b0 :: _). assert (Hl : len packet = 24 + quicVarintLen L + 1 + len rest).
  { unfold packet. rewrite !zlen_cons, zlen_app, varint_len, zlen_cons. lia. }
  assert (Hv : 1 <= quicVarintLen L <= 8) by (unfold quicVarintLen; split_ifs; lia). pose proof (zlen_nonneg rest).
  unfold parseQUICInitialHeader. rewrite check_bind, (proj2 (Z.ltb_ge _ _)) by lia.
  change (at_ packet 0) with (@Val Z b0). cbn [out_bind]. rewrite check_bind, Hb1. rewrite slice_val by lia. change (zslice 1 5 packet) with [0; 0; 0; 1]. cbn [out_bind].
  rewrite check_bind. change (negb (get32 [0; 0; 0; 1] =? 1)) with false. cbn iota. rewrite check_bind, Hb2. change (negb (0 =? 0)) with false. cbn iota.
  rewrite check_bind, (proj2 (Z.leb_gt _ _)) by lia. change (at_ packet 5) with (@Val Z 8). cbn [out_bind].
  rewrite check_bind, (proj2 (Z.ltb_ge _ _)) by lia. rewrite slice_val by lia. change (zslice 6 (6 + 8) packet) with [d1; d2; d3; d4; d5; d6; d7; d8]. cbn [out_bind].
  change (at_ packet (6 + 8)) with (@Val Z 8). cbn [out_bind]. rewrite check_bind, (proj2 (Z.ltb_ge _ _)) by lia.
  rewrite slice_tail by lia. change (zdrop (6 + 8 + 1 + 8) packet) with (varint 0 ++ varint L ++ x :: rest). cbn [out_bind].
  rewrite varint_parse by lia. cbn [out_bind fst snd]. change (quicVarintLen 0) with 1. change (i64 (6 + 8 + 1 + 8 + 1 + i64 0)) with 24.
  rewrite check_bind, (proj2 (Z.ltb_ge _ _)) by lia. rewrite slice_tail by lia. change (zdrop 24 packet) with (varint L ++ x :: rest). cbn [out_bind].
  rewrite varint_parse by lia. cbn [out_bind fst snd]. rewrite (i64_small L), i64_small by lia. rewrite check_bind, (proj2 (Z.ltb_ge _ _)) by lia. done.
Qed.

Lemma at_byte l i : 0 <= i < len l -> at_ l i = Val (byte_at l i).
Proof.
  intros Hi. unfold at_, byte_at. rewrite (proj2 (Z.leb_le _ _)) by lia. destruct (l !! Z.to_nat i) as [v|] eqn:E.
  - erewrite nth_lookup_Some; [reflexivity|exact E].
  - apply lookup_ge_None in E. unfold zlen in Hi. lia.
Qed.

Lemma zslice_app_r (l k : list Z) i j : 0 <= i -> zslice (len l + i) (len l + j) (l ++ k) = zslice i j k.
Proof.
  intros Hi. unfold zslice. f_equal; [lia|]. unfold zdrop. pose proof (zlen_nonneg l).
  rewrite drop_app_ge by (unfold zlen in *; lia). f_equal. unfold zlen in *. lia.
Qed.

Section Probe.
Context `{QuicLaws}.

(** The parts of a sealed packet: its head without protection, the sealed frames. *)
Definition probe_parts (d s ch : list Z) : list Z * list Z :=
  let key := hkdfExpandLabelQUIC (quicInitialSecrets d).1 [] "quic key" 16 in
  let iv := hkdfExpandLabelQUIC (quicInitialSecrets d).1 [] "quic iv" 12 in
  let payload := padded (probe_header d s) (quicCryptoFrame ch) in
  let head := probe_header d s ++ varint (17 + len payload) in
  (head, gcm_seal key (match quicAEADNonce iv 0 with Val n => n | _ => [] end) payload (head ++ [0])).

Lemma probe_parts_len d s ch : len d = 8 -> len s = 8 -> 4 <= len ch < 2 ^ 30 ->
  let '(head, sealed) := probe_parts d s ch in let payload := padded (probe_header d s) (quicCryptoFrame ch) in
  len (probe_header d s) = 24 /\ len head = 24 + quicVarintLen (17 + len payload) /\ len sealed = len payload + 16
  /\ 4 <= len payload < 2 ^ 31 /\ quicMinInitialPacket <= len head + 1 + len sealed.
Proof.
  intros Hd Hs Hc. unfold probe_parts. cbn zeta. set (payload := padded _ _).
  assert (Hh : len (probe_header d s) = 24) by (unfold probe_header; rewrite !zlen_app; change (len [_]) with 1; change (len [0; 0; 0; 1]) with 4; lia).
  assert (Hf : len (quicCryptoFrame ch) = 2 + quicVarintLen (len ch) + len ch).
  { unfold quicCryptoFrame. rewrite zlen_app, !varint_append, !zlen_app, !varint_len. done. }
  assert (Hvl : forall v w, v <= w -> 1 <= quicVarintLen v <= quicVarintLen w /\ quicVarintLen w <= 8) by (intros v w Hvw; unfold quicVarintLen; split_ifs; lia).
  assert (Hp : len payload = len (quicCryptoFrame ch) + pad_length (probe_header d s) (quicCryptoFrame ch)).
  { unfold payload, padded. rewrite zlen_app, zlen_replicate; [done|]. unfold pad_length. lia. }
  unfold pad_length in Hp. rewrite Hh, Hf in Hp. unfold quicMinInitialPacket in *.
  rewrite zlen_app, varint_len, seal_len, Hh. pose proof (Hvl (len ch) (len ch) ltac:(lia)).
  pose proof (Hvl (1 + (2 + quicVarintLen (len ch) + len ch) + 16) (17 + len payload) ltac:(lia)). split_and!; try done; lia.
Qed.

Lemma seal_probe_val d s ch : len d = 8 -> len s = 8 -> 4 <= len ch < 2 ^ 30 ->
  let '(head, sealed) := probe_parts d s ch in
  exists m, quicHeaderProtectionMask (hkdfExpandLabelQUIC (quicInitialSecrets d).1 [] "quic hp" 16) (zslice 3 19 sealed) = Val m /\ len m = 16 /\
    seal_probe d s ch = Val (Z.lxor 192 (Z.land (byte_at m 0) 15) :: tail head ++ Z.lxor 0 (byte_at m 1) :: sealed).
Proof.
  intros Hd Hs Hc. pose proof (probe_parts_len d s ch Hd Hs Hc) as Hl. unfold probe_parts in *. cbn zeta in *.
  set (payload := padded _ _) in *. set (iv := hkdfExpandLabelQUIC _ _ "quic iv" 12) in *. set (key := hkdfExpandLabelQUIC _ _ "quic key" 16) in *.
  destruct (nonce_val iv 0) as (nonce & Hn & Hnl); [apply (label_len expand_len); lia|]. rewrite Hn in *.
  set (head := probe_header d s ++ varint _) in *. set (sealed := gcm_seal _ _ _ _) in *. destruct Hl as (Hl1 & Hl2 & Hl3 & Hl4 & Hl5).
  set (hp := hkdfExpandLabelQUIC _ _ "quic hp" 16). assert (Hhp : len hp = 16) by (apply (label_len expand_len); lia).
  assert (Hk : len key = 16) by (apply (label_len expand_len); lia).
  assert (Hsl : len (zslice 3 19 sealed) = 16) by (unfold zslice; rewrite zlen_ztake; [done|]; rewrite zlen_zdrop by lia; lia).
  exists (fit 16 (aes_encrypt hp (zslice 3 19 sealed))). unfold quicHeaderProtectionMask, cipher_key. rewrite !check_bind, Hsl, Hhp. split_and!; [done|apply fit_len; lia|].
  unfold seal_probe, quicKeyIVHP. fold key iv hp payload. rewrite varint_append. replace (1 + len payload + 16) with (17 + len payload) by lia. fold head.
  unfold quicSeal, cipher_key. rewrite Hk, check_bind. cbn [Z.eqb Pos.eqb orb negb]. rewrite Hn. cbn [out_bind]. unfold gcm_nonce. rewrite Hnl. cbn [Z.eqb Pos.eqb out_bind].
  fold sealed. clearbody sealed.
  assert (Hpk : len ((head ++ [0]) ++ sealed) = len head + 1 + len sealed) by (rewrite zlen_app, (zlen_app head); done). pose proof (zlen_nonneg head).
  rewrite check_bind, (proj2 (Z.ltb_ge _ _)) by lia. rewrite slice_val by lia. cbn [out_bind].
  assert (Hz : zslice (len head + 4) (len head + 4 + 16) ((head ++ [0]) ++ sealed) = zslice 3 19 sealed).
  { rewrite <- (zslice_app_r (head ++ [0]) sealed 3 19) by lia. rewrite zlen_app. change (len [0]) with 1. f_equal; lia. }
  rewrite Hz. unfold quicHeaderProtectionMask, cipher_key. rewrite !check_bind, Hsl, Hhp. cbn [Z.eqb Pos.eqb orb negb out_bind]. f_equal.
  rewrite <- app_assoc. change ([0] ++ sealed) with (0 :: sealed). set (m := fit 16 _).
  change head with (192 :: tail head). cbn [tail]. change (xor_at 0 ?m' ((192 :: ?l) ++ ?k)) with ((Z.lxor 192 m' :: l) ++ k).
  change (len (192 :: tail head)) with (len (Z.lxor 192 (Z.land (byte_at m 0) 15) :: tail head)). rewrite xor_at_app. done.
Qed.

Lemma probe_opened d s ch : len d = 8 -> len s = 8 -> 4 <= len ch < 2 ^ 30 ->
  exists packet h, seal_probe d s ch = Val packet /\ quicMinInitialPacket <= len packet /\ parseQUICInitialHeader packet = Val h /\ dcid h = d
    /\ decryptQUICInitial packet h = Val (padded (probe_header d s) (quicCryptoFrame ch)).
Proof.
  intros Hd Hs Hc. pose proof (probe_parts_len d s ch Hd Hs Hc) as Hl. pose proof (seal_probe_val d s ch Hd Hs Hc) as Hv.
  destruct (probe_parts d s ch) as [head sealed] eqn:Eparts. destruct Hl as (Hl1 & Hl2 & Hl3 & Hl4 & Hl5). destruct Hv as (m & Hm & Hml & Hp).
  set (payload := padded (probe_header d s) (quicCryptoFrame ch)) in *. set (L := 17 + len payload) in *.
  assert (Hhead : head = probe_header d s ++ varint L) by (unfold probe_parts in Eparts; injection Eparts as <- _; done).
  pose proof (first_byte (byte_at m 0)) as Hb. cbn zeta in Hb. change (Z.lor 192 0) with 192 in Hb. set (b0 := Z.lxor 192 _) in *. destruct Hb as (Hb1 & Hb2 & Hb3).
  set (head' := b0 :: tail head). set (pn := Z.lxor 0 (byte_at m 1)) in *.
  assert (Hh' : len head' = len head) by (unfold head'; rewrite Hhead; unfold probe_header; cbn [app tail]; rewrite !zlen_cons; done).
  exists (head' ++ pn :: sealed), (mkHeader d (24 + quicVarintLen L) L). rewrite Hp. split_and!; [done| | |done|].
  - rewrite zlen_app, zlen_cons. lia.
  - replace (head' ++ pn :: sealed) with ((b0 :: tail (probe_header d s)) ++ varint L ++ pn :: sealed);
      [|unfold head'; rewrite Hhead; unfold probe_header; cbn [app tail]; rewrite <- ?app_assoc; done].
    apply probe_header_read; try done; try lia.
  - unfold decryptQUICInitial, quicKeyIVHP. cbn [dcid pnOffset length_]. rewrite <- Hl2, <- Hh'.
    assert (Hlen : len (head' ++ pn :: sealed) = len head' + 1 + len sealed) by (rewrite zlen_app, zlen_cons; lia). pose proof (zlen_nonneg head'). assert (HL : L = 1 + len sealed) by lia.
    rewrite check_bind, (proj2 (Z.ltb_ge _ _)) by lia. rewrite slice_val by lia. cbn [out_bind].
    assert (Hz : zslice (len head' + 4) (len head' + 4 + 16) (head' ++ pn :: sealed) = zslice 3 19 sealed).
    { change (pn :: sealed) with ([pn] ++ sealed). rewrite app_assoc, <- (zslice_app_r (head' ++ [pn]) sealed 3 19) by lia.
      rewrite zlen_app. change (len [pn]) with 1. f_equal; lia. }
    rewrite Hz, Hm. cbn [out_bind]. change (at_ (head' ++ pn :: sealed) 0) with (@Val Z b0). cbn [out_bind].
    rewrite at_byte by lia. cbn [out_bind]. rewrite Hb3. change (Z.land 192 3 + 1) with 1. rewrite check_bind, (proj2 (Z.ltb_ge _ _)) by lia.
    change (Z.to_nat 1) with 1%nat. cbn [pn_bytes]. rewrite !Z.add_0_r.
    assert (Hat : at_ (head' ++ pn :: sealed) (len head') = Val pn).
    { rewrite at_byte by lia. unfold byte_at. rewrite <- length_zlen, nth_middle. done. }
    rewrite Hat. cbn [out_bind]. rewrite at_byte by lia. cbn [out_bind]. unfold pn. rewrite Z.lxor_assoc, Z.lxor_nilpotent. fold pn. change (Z.lxor 0 0) with 0.
    rewrite !slice_val by lia. cbn [out_bind].
    assert (Hhd : zslice 0 (len head') (head' ++ pn :: sealed) = head') by (unfold zslice; rewrite Z.sub_0_r; apply ztake_app_exact; done).
    assert (Hbd : zslice (len head' + 1) (len head' + L) (head' ++ pn :: sealed) = sealed).
    { change (pn :: sealed) with ([pn] ++ sealed). rewrite app_assoc. replace (len head' + 1) with (len (head' ++ [pn]) + 0) by (rewrite zlen_app; change (len [pn]) with 1; lia).
      replace (len head' + L) with (len (head' ++ [pn]) + len sealed) by (rewrite zlen_app; change (len [pn]) with 1; lia).
      rewrite zslice_app_r by lia. unfold zslice. rewrite Z.sub_0_r. apply ztake_ge. done. }
    rewrite Hhd, Hbd. change (zdrop 1 head') with (tail head). change (foldl _ 0 [0]) with 0.
    assert (Had : 192 :: tail head ++ [0] = head ++ [0]) by (rewrite Hhead; done). rewrite Had.
    pose proof (f_equal snd Eparts) as Es. unfold probe_parts in Es. cbn zeta in Es. cbn [snd] in Es. fold payload L in Es. rewrite <- Hhead in Es.
    destruct (nonce_val (hkdfExpandLabelQUIC (quicInitialSecrets d).1 [] "quic iv" 12) 0) as (nonce & Hn & Hnl); [apply (label_len expand_len); lia|]. rewrite Hn in Es.
    unfold quicOpen, cipher_key. rewrite (label_len expand_len) by lia. rewrite check_bind. cbn [Z.eqb Pos.eqb orb negb]. rewrite Hn. cbn [out_bind].
    unfold gcm_nonce. rewrite Hnl. cbn [Z.eqb Pos.eqb out_bind]. rewrite <- Es, seal_open. done.
Qed.
End Probe.

(** ** The announcement *)

Section Announce.
Context `{QuicLaws} `{CamoLaws} `{Utls} `{UtlsBuild}.

Lemma find_extract shares : ExtractX25519KeyShare shares <> [] ->
  match find (fun sh => sh.1 =? X25519) shares with Some share => [share] | None => shares end = [(X25519, ExtractX25519KeyShare shares)].
Proof.
  unfold ExtractX25519KeyShare. destruct (find _ shares) as [[g k]|] eqn:E; [|done]. intros _.
  apply find_some in E as [_ E]. cbn in *. bool_to_prop. subst. done.
Qed.

(** The hello that carries the marker. *)
Definition marked (now : Z) (u : UserEntry) (h : Hello) : Hello :=
  let ks := ExtractX25519KeyShare (KeyShares h) in mkHello (ServerName h) (BuildMarker now (DeriveKey (PSK u)) ks) [(X25519, ks)].

Lemma authenticate_own nowc now ver identity cfg idx u p : u ∈ indexed cfg -> tags_separate cfg -> synced now ver cfg idx ->
  Z.abs (window_at nowc - window_at now) <= 1 -> i_keyShare p <> [] -> i_random p = BuildMarker nowc (DeriveKey (PSK u)) (i_keyShare p) ->
  authenticate now ver identity cfg idx p = true.
Proof.
  intros Hu Ht Hs Hw Hk Hr. unfold authenticate. destruct (resolveBySelector _ _ _ _ _ _ _) as [s' [reason|entry]] eqn:E; [|done].
  apply resolve_synced in E; [|done]. unfold camoKeys. destruct (snapshot_spec now ver cfg s' E) as (_ & _ & Hkeys). cbn [snd]. rewrite Hkeys, Hr.
  apply matches_own; [apply own_key_indexed; done|eapply derive_key_nonempty; done| |done]. intros Hz%zlen_zero. done.
Qed.

(** The server reads in the probe what the client put in its hello. *)
Lemma probe_parsed nowc u h raw d s : len (Random h) = 32 -> ExtractX25519KeyShare (KeyShares h) <> [] -> len d = 8 -> len s = 8 -> 4 <= len raw < 2 ^ 30 ->
  Marshal (marked nowc u h) = Some raw -> UnmarshalClientHello raw = Some (marked nowc u h) ->
  exists packet, BuildCamoProbe nowc (Some d) (Some s) (Some (Some h)) (DeriveKey (PSK u)) = Val packet /\ quicMinInitialPacket <= len packet
    /\ parseInitialSafely packet = inr (mkInitial d (ServerName h) (Random (marked nowc u h)) (ExtractX25519KeyShare (KeyShares h))).
Proof.
  intros Hr Hk Hd Hsc Hl Hma Hun. unfold BuildCamoProbe, buildMarkedClientHello. rewrite Hr. cbn [Z.eqb Pos.eqb negb].
  destruct (len (ExtractX25519KeyShare (KeyShares h)) =? 0) eqn:E0; [bool_to_prop; apply zlen_zero in E0; done|].
  rewrite find_extract by done. set (h' := marked nowc u h) in *. change (mkHello (ServerName h) _ _) with h'. rewrite Hma. cbn [out_bind fst].
  destruct (probe_opened d s raw Hd Hsc Hl) as (packet & hd & Hseal & Hmin & Hhd & Hdc & Hdec). exists packet. split_and!; [done..|].
  unfold parseInitialSafely, parseQUICInitialClientHello. rewrite Hhd. cbn [out_bind]. rewrite Hdec. cbn [out_bind]. unfold padded, extractCryptoFrameData.
  rewrite crypto_frame_read by lia. rewrite Hun, Hdc. done.
Qed.
End Announce.

(** ** Who is let through *)

Section Filter.
Context `{QuicCrypto} `{Crypto} `{Utls} (known : Z -> parsedQUICInitial -> bool).

(** A packet of an address with the answers of the rate limit and of the origin,
    an answer of the origin to an address, and the end of its connection. *)
Inductive event := Packet (now : Z) (allow dialed : bool) (key : string) (p : list Z) | Answer (now : Z) (key : string) | Ended (key : string).

Definition on_session (f : decoySession -> decoySession) (key : string) (c : camoConn) : camoConn :=
  mkCamo (realPeers c) (alter f key (decoySessions c)) (lastClean c).

(** What a sequence of events leads to, and what became of the packets. *)
Fixpoint run (evs : list event) (c : camoConn) : camoConn * list (Z * string * list Z * verdict) :=
  match evs with
  | [] => (c, [])
  | e :: evs =>
      let '(c, log) := match e with
        | Packet now allow dialed key p => let '(c, v) := receive now (known now) allow dialed key p c in (c, [(now, key, p, v)])
        | Answer now key => (on_session (pump_answer now) key c, [])
        | Ended key => (on_session pump_end key c, [])
        end in
      let '(c, rest) := run evs c in (c, log ++ rest)
  end.

(** A peer is trusted for the time after one of its packets was let through, the
    first of which announced it. *)
Definition vouched (log : list (Z * string * list Z * verdict)) (key : string) (exp : Z) : Prop :=
  (exists t p i, (t, key, p, Announced) ∈ log /\ parseInitialSafely p = inr i /\ known t i = true)
  /\ exists t p v, (t, key, p, v) ∈ log /\ (v = Announced \/ v = Deliver) /\ exp = t + quicCamoTrustWindow.
Definition trust_ok (log : list (Z * string * list Z * verdict)) (c : camoConn) : Prop :=
  forall key exp, realPeers c !! key = Some exp -> vouched log key exp.

Lemma vouched_more log log' key exp : vouched log key exp -> vouched (log ++ log') key exp.
Proof.
  intros [(t & p & i & Hi & Hr) (t' & p' & v & Hi' & Hr')]. split; [exists t, p, i|exists t', p', v]; (split; [apply elem_of_app; auto|done]).
Qed.

Lemma cleanup_peers now c key exp : realPeers (cleanupLocked now c) !! key = Some exp -> realPeers c !! key = Some exp.
Proof. unfold cleanupLocked. destruct (_ <? _); [done|]. cbn. intros Hf. apply map_lookup_filter_Some in Hf as [? _]. done. Qed.

Lemma receive_trust log c now allow dialed key p : trust_ok log c ->
  let '(c', v) := receive now (known now) allow dialed key p c in
  trust_ok (log ++ [(now, key, p, v)]) c' /\ (v = Deliver -> exists exp, now < exp /\ vouched log key exp).
Proof.
  intros Ht. unfold receive. destruct (match realPeers c !! key with Some exp => now <? exp | None => false end) eqn:Etr.
  - destruct (realPeers c !! key) as [exp|] eqn:Ex; [|done]. bool_to_prop. pose proof (Ht key exp Ex) as Hv. split; [|eauto].
    intros k e Hk. cbn in Hk. destruct (decide (k = key)) as [->|Hne].
    + rewrite lookup_insert_eq in Hk. injection Hk as <-. destruct Hv as [(t & q & i & Hi & Hr) _]. split; [exists t, q, i; split; [apply elem_of_app; auto|done]|].
      exists now, p, Deliver. split; [apply elem_of_app; right; set_solver|auto].
    + rewrite lookup_insert_ne in Hk by done. apply vouched_more, Ht. done.
  - set (c0 := mkCamo (delete key (realPeers c)) (decoySessions c) (lastClean c)).
    assert (Hold : forall k e, realPeers (cleanupLocked now c0) !! k = Some e -> forall l, vouched (log ++ l) k e).
    { intros k e Hk l. apply cleanup_peers in Hk. cbn in Hk. apply lookup_delete_Some in Hk as [_ Hk]. apply vouched_more, Ht. done. }
    change (decoySessions c0 !! key) with (decoySessions c !! key). destruct (decoySessions c !! key) as [s|].
    + split; [|done]. intros k e Hk. apply Hold. done.
    + destruct (parseInitialSafely p) as [e|i] eqn:Ep.
      * destruct (negb allow); [|destruct (negb dialed)]; (split; [|done]); intros k e' Hk; apply Hold; done.
      * destruct (known now i) eqn:Ek.
        -- split; [|done]. intros k e Hk. cbn in Hk. destruct (decide (k = key)) as [->|Hne].
           ++ rewrite lookup_insert_eq in Hk. injection Hk as <-. split; [exists now, p, i|exists now, p, Announced]; (split; [apply elem_of_app; right; set_solver|auto]).
           ++ rewrite lookup_insert_ne in Hk by done. apply Hold. done.
        -- destruct (negb allow); [|destruct (negb dialed)]; (split; [|done]); intros k e' Hk; apply Hold; done.
Qed.

Lemma run_trust evs log c : trust_ok log c -> forall before now key p after, (run evs c).2 = before ++ (now, key, p, Deliver) :: after ->
  exists exp, now < exp /\ vouched (log ++ before) key exp.
Proof.
  revert log c. induction evs as [|e evs IH]; intros log c Ht before now key p after; [destruct before; done|].
  destruct e as [n allow dialed k q|n k|k]; cbn [run].
  - pose proof (receive_trust log c n allow dialed k q Ht) as Hr. destruct (receive n (known n) allow dialed k q c) as [c1 v]. destruct Hr as [Ht1 Hd].
    specialize (IH (log ++ [(n, k, q, v)]) c1 Ht1). destruct (run evs c1) as [c2 rest]. cbn [app snd] in *. destruct before as [|x before].
    + intros [= -> -> -> -> _]. rewrite app_nil_r. apply Hd. done.
    + intros [= <- Hrest]. destruct (IH before now key p after Hrest) as (exp & He & Hv). exists exp. rewrite <- app_assoc in Hv. done.
  - specialize (IH log (on_session (pump_answer n) k c) Ht before now key p after). destruct (run evs _) as [c2 rest]. exact IH.
  - specialize (IH log (on_session pump_end k c) Ht before now key p after). destruct (run evs _) as [c2 rest]. exact IH.
Qed.

(** C26: whatever arrives in whatever order, a packet reaches the QUIC server only from an address that announced itself, while it is trusted. *)
Theorem delivered_trusted evs t0 before now key p after :
  (run evs (NewCamoConn t0)).2 = before ++ (now, key, p, Deliver) :: after ->
  (exists t q i, (t, key, q, Announced) ∈ before /\ parseInitialSafely q = inr i /\ known t i = true)
  /\ exists t q v, (t, key, q, v) ∈ before /\ (v = Announced \/ v = Deliver) /\ now < t + quicCamoTrustWindow.
Proof.
  intros Hr. destruct (run_trust evs [] (NewCamoConn t0)) with before now key p after as (exp & He & Ha & (t & q & v & Hi & Hv & Hx)).
  - intros k e Hk. cbn in Hk. rewrite lookup_empty in Hk. done.
  - exact Hr.
  - split; [exact Ha|]. exists t, q, v. subst. done.
Qed.

(** An address that was once relayed to the origin stays with it as long as it
    sends, its announcement included, even after the origin has hung up. *)
Lemma decoyed_stays now allow dialed key p c s : realPeers c !! key = None -> decoySessions c !! key = Some s -> now - lastActive s <= quicCamoIdleTimeout ->
  let '(c', v) := receive now (known now) allow dialed key p c in
  v = Forwarded /\ realPeers c' !! key = None /\ decoySessions c' !! key = Some (forward now p s).
Proof.
  intros Hr Hs Hn. unfold receive. rewrite Hr. cbn [decoySessions]. rewrite Hs. unfold cleanupLocked. cbn [lastClean realPeers decoySessions].
  destruct (_ <? _); cbn [realPeers decoySessions]; (split_and!; [done| |]).
  - rewrite lookup_delete_eq. done.
  - rewrite lookup_alter_eq, Hs. done.
  - apply map_lookup_filter_None_2. left. apply lookup_delete_eq.
  - rewrite lookup_alter_eq. erewrite (proj2 (map_lookup_filter_Some _ _ _ _)); [reflexivity|]. done.
Qed.

(** Packets come in the order of the clock, from [t] on, and those of [key] within the
    trust window of the one before, the first of [last]. *)
Fixpoint kept (t last : Z) (key : string) (evs : list event) : Prop :=
  match evs with
  | [] => True
  | Packet now _ _ k _ :: evs => t <= now /\ (k = key -> now < last + quicCamoTrustWindow) /\ kept now (if decide (k = key) then now else last) key evs
  | _ :: evs => kept t last key evs
  end.

Lemma kept_delivered evs : forall c t last key, realPeers c !! key = Some (last + quicCamoTrustWindow) \/ last + quicCamoTrustWindow < t -> kept t last key evs ->
  Forall (fun x : Z * string * list Z * verdict => x.1.1.2 = key -> x.2 = Deliver) (run evs c).2.
Proof.
  induction evs as [|e evs IH]; intros c t last key Hc Hk; [constructor|]. destruct e as [now allow dialed k p|now k|k]; cbn [run kept] in *.
  - destruct Hk as (Ht & Hnow & Hk). destruct (decide (k = key)) as [->|Hne].
    + specialize (Hnow eq_refl). destruct Hc as [Hc|Hc]; [|lia]. unfold receive. rewrite Hc, (proj2 (Z.ltb_lt _ _)) by lia.
      match goal with |- context [run evs ?c1] => specialize (IH c1 now now key) end. cbn [realPeers] in IH. rewrite lookup_insert_eq in IH. specialize (IH (or_introl eq_refl) Hk).
      destruct (run evs _) as [c2 rest]. constructor; [done|exact IH].
    + assert (Hc' : realPeers (receive now (known now) allow dialed k p c).1 !! key = Some (last + quicCamoTrustWindow) \/ last + quicCamoTrustWindow < now).
      { destruct Hc as [Hc|Hc]; [|right; lia].
        assert (Hcl : forall c1, realPeers c1 !! key = Some (last + quicCamoTrustWindow) -> realPeers (cleanupLocked now c1) !! key = Some (last + quicCamoTrustWindow) \/ last + quicCamoTrustWindow < now).
        { intros c1 Hc1. unfold cleanupLocked. destruct (_ <? _); [auto|]. cbn. destruct (Z_le_gt_dec now (last + quicCamoTrustWindow)); [left|right; lia]. by apply map_lookup_filter_Some. }
        unfold receive. destruct (match realPeers c !! k with Some exp => now <? exp | None => false end); [left; cbn; by rewrite lookup_insert_ne|].
        destruct (Hcl (mkCamo (delete k (realPeers c)) (decoySessions c) (lastClean c))) as [Hk1|Hk1]; [cbn; by rewrite lookup_delete_ne| |by right]. left. cbn [decoySessions].
        destruct (decoySessions c !! k); [exact Hk1|]. destruct (match parseInitialSafely p with inr _ => _ | inl _ => _ end); [cbn; by rewrite lookup_insert_ne|].
        destruct allow, dialed; exact Hk1. }
      destruct (receive now (known now) allow dialed k p c) as [c1 v]. specialize (IH c1 now last key Hc' Hk). destruct (run evs c1) as [c2 rest]. constructor; [intros ?; by destruct Hne|exact IH].
  - specialize (IH (on_session (pump_answer now) k c) t last key Hc Hk). destruct (run evs _) as [c2 rest]. exact IH.
  - specialize (IH (on_session pump_end k c) t last key Hc Hk). destruct (run evs _) as [c2 rest]. exact IH.
Qed.
End Filter.

(** ** A client announces itself *)

Section Client.
Context `{QuicLaws} `{CamoLaws} `{Utls} `{UtlsBuild}.

(** C25: the probe that a client builds with the secret of a user of the server is at
    least as long as an Initial has to be, and the server decrypts it and reads the
    client's hello in it: name, marker and key share.  If the clocks are at most one
    window apart, the server's index is that of its users, no two of which have the same
    tag, and the address of the client is not being relayed to the origin, the server
    then trusts the address, and delivers every later packet from it to the QUIC server,
    whatever others send, as long as each comes within the trust window of the one
    before.  It takes that the TLS library reads back the hello it wrote. *)
Theorem probe_announces nowc now ver identity cfg idx u h raw d s allow dialed key c :
  u ∈ indexed cfg -> tags_separate cfg -> synced now ver cfg idx -> Z.abs (window_at nowc - window_at now) <= 1 ->
  len (Random h) = 32 -> ExtractX25519KeyShare (KeyShares h) <> [] -> len d = 8 -> len s = 8 -> 4 <= len raw < 2 ^ 30 ->
  Marshal (marked nowc u h) = Some raw -> UnmarshalClientHello raw = Some (marked nowc u h) -> decoySessions c !! key = None ->
  exists packet, BuildCamoProbe nowc (Some d) (Some s) (Some (Some h)) (DeriveKey (PSK u)) = Val packet /\ quicMinInitialPacket <= len packet
    /\ parseInitialSafely packet = inr (mkInitial d (ServerName h) (Random (marked nowc u h)) (ExtractX25519KeyShare (KeyShares h)))
    /\ let '(c', v) := receive now (authenticate now ver identity cfg idx) allow dialed key packet c in
       (v = Announced \/ v = Deliver) /\ forall known evs, kept now now key evs ->
         Forall (fun x : Z * string * list Z * verdict => x.1.1.2 = key -> x.2 = Deliver) (run known evs c').2.
Proof.
  intros Hu Ht Hs Hw Hr Hk Hd Hsc Hl Hma Hun Hn. destruct (probe_parsed nowc u h raw d s Hr Hk Hd Hsc Hl Hma Hun) as (packet & Hb & Hmin & Hparse).
  exists packet. split_and!; [done..|].
  assert (Hauth : authenticate now ver identity cfg idx (mkInitial d (ServerName h) (Random (marked nowc u h)) (ExtractX25519KeyShare (KeyShares h))) = true).
  { eapply (authenticate_own nowc); [exact Hu|done..]. }
  unfold receive. destruct (match realPeers c !! key with Some exp => now <? exp | None => false end).
  - split; [auto|]. intros known evs Hev. eapply kept_delivered; [|exact Hev]. left. cbn. by rewrite lookup_insert_eq.
  - cbn [decoySessions]. rewrite Hn, Hparse, Hauth. split; [auto|]. intros known evs Hev. eapply kept_delivered; [|exact Hev]. left. cbn. by rewrite lookup_insert_eq.
Qed.
End Client.

(** ** Witnesses *)

Module QuicWitnesses.
Import CamoWitnesses.
#[local] Existing Instance toy_crypto.
#[local] Existing Instance toy_curve.
#[local] Existing Instance toy_utls.
#[local] Existing Instance toy_laws.
#[local] Instance toy_quic : QuicCrypto := {|
  hkdf_extract s i := s; hkdf_expand s i n := Some (replicate (Z.to_nat n) 5); aes_encrypt k b := map (fun x => (x * 7 + 3) mod 256) b;
  gcm_seal k n p ad := p ++ replicate 16 1; gcm_open k n c ad := Some (ztake (len c - 16) c)
|}.
#[local] Instance toy_build : UtlsBuild := {| Marshal h := Some ([1; 0; 0; 64] ++ Random h ++ ExtractX25519KeyShare (KeyShares h)) |}.
#[local] Instance toy_quic_laws : QuicLaws.
Proof.
  split; cbn.
  - intros s i n Hn. eexists. split; [reflexivity|]. apply zlen_replicate. lia.
  - intros. rewrite zlen_app. done.
  - intros. rewrite ztake_app_exact; [done|]. unfold zlen. rewrite length_app. cbn. lia.
Qed.

Lemma initial_parse_safe_witness : match parseQUICInitialClientHello (replicate 30 255) with Crash => False | _ => True end.
Proof.
  pose proof (initial_parse_safe (QuicInitialFacts.expand_len) (replicate 30 255)) as Hs.
  assert (Hb : Forall is_byte (replicate 30 255)) by (apply Forall_replicate; split; [discriminate|reflexivity]).
  specialize (Hs Hb ltac:(vm_compute; reflexivity)).
  destruct (parseQUICInitialClientHello (replicate 30 255)); [exact I|exact I|exact Hs].
Defined.

Definition built : Hello := mkHello "example.com" (replicate 32 7) [(23, [1]); (29, PublicKey eph)].
Definition wire : list Z := [1; 0; 0; 64] ++ Random (marked client_time (mkUser "bob" (secret 91)) built) ++ PublicKey eph.
Definition authenticates (now : Z) : parsedQUICInitial -> bool := authenticate now None None two_users new_index.

Definition flood : list event :=
  [Packet (server_time + second) false false "203.0.113.5:9" [64]; Ended "203.0.113.5:9"; Packet (server_time + 80 * second) true true "198.51.100.9:50000" [64; 1];
   Packet (server_time + 160 * second) true true "198.51.100.9:50000" [64; 2]].
Lemma probe_announces_witness : exists packet, BuildCamoProbe client_time (Some (secret8 1)) (Some (secret8 2)) (Some (Some built)) (DeriveKey (secret 91)) = Val packet
  /\ 1200 <= len packet /\ let '(c', v) := receive server_time (authenticates server_time) true true "198.51.100.9:50000" packet (NewCamoConn 0) in
     (v = Announced \/ v = Deliver) /\ Forall (fun x : Z * string * list Z * verdict => x.1.1.2 = "198.51.100.9:50000" -> x.2 = Deliver) (run authenticates flood c').2.
Proof.
  destruct (probe_announces client_time server_time None None two_users new_index (mkUser "bob" (secret 91)) built wire (secret8 1) (secret8 2) true true
    "198.51.100.9:50000" (NewCamoConn 0)) as (packet & Hb & Hl & _ & Hr).
  - apply list_elem_of_In. vm_compute. tauto.
  - apply two_users_separate.
  - intros Hf. vm_compute in Hf. discriminate Hf.
  - vm_compute. discriminate.
  - vm_compute. reflexivity.
  - vm_compute. discriminate.
  - vm_compute. reflexivity.
  - vm_compute. reflexivity.
  - vm_compute. split; [discriminate|reflexivity].
  - vm_compute. reflexivity.
  - vm_compute. reflexivity.
  - vm_compute. reflexivity.
  - exists packet. split; [exact Hb|]. split; [exact Hl|]. unfold authenticates. destruct (receive _ _ _ _ _ _ _) as [c' v]. destruct Hr as [Hv Hall]. split; [exact Hv|].
    apply Hall. vm_compute. repeat split; try discriminate; reflexivity.
Defined.

Definition probe : list Z := match BuildCamoProbe client_time (Some (secret8 1)) (Some (secret8 2)) (Some (Some built)) (DeriveKey (secret 91)) with Val p => p | _ => [] end.

Lemma delivered_trusted_witness : exists t q i, (t, "198.51.100.9:50000", q, Announced) ∈ [(server_time, "198.51.100.9:50000", probe, Announced)]
  /\ parseInitialSafely q = inr i /\ authenticates t i = true.
Proof.
  apply (delivered_trusted authenticates
    [Packet server_time true true "198.51.100.9:50000" probe; Packet (server_time + second) true true "198.51.100.9:50000" [64; 1]] 0
    [(server_time, "198.51.100.9:50000", probe, Announced)] (server_time + second) "198.51.100.9:50000" [64; 1] []).
  vm_compute. reflexivity.
Defined.

End QuicWitnesses.
