(* ===== verification/AsnBypass.v ===== *)
(** The dialer that splits the first TLS record, core/asn_bypass/asn_bypass.go.

    Dialling itself is a parameter.  The random choices are draws of an [rng]; a
    pause is its length in milliseconds.  Reads of the hello go through the
    checked accesses of [Dns], where an index out of range is a panic. *)

From S2P Require Import Prelude GoIO GoStr NetIP Dns.

Module AsnBypass.
Import Dns.

Definition defaultFragSize : Z := 40.
Definition defaultMaxHelloRecords : Z := 8.

Record Config := mkConfig {
  EnableTLSFragmentation : bool; TLSFragmentSize : Z; FragmentDelayMinMs : Z; FragmentDelayMaxMs : Z; MaxFragments : Z
}.
Record fragmentPlan := mkPlan { size : Z; maxRecords : Z; delayMin : Z; delayMax : Z }.

(** [NewDialer]: a dialer is its configuration. *)
Definition NewDialer (cfg : option Config) : Config := default (mkConfig true 0 0 0 0) cfg.

Definition plan (cfg : Config) (r : rng) : fragmentPlan * rng :=
  let size := if TLSFragmentSize cfg <=? 0 then defaultFragSize else TLSFragmentSize cfg in
  if MaxFragments cfg <=? 0 then
    let '(n, r) := Intn (defaultMaxHelloRecords - 3) r in (mkPlan size (4 + n) (FragmentDelayMinMs cfg) (FragmentDelayMaxMs cfg), r)
  else (mkPlan size (MaxFragments cfg) (FragmentDelayMinMs cfg) (FragmentDelayMaxMs cfg), r).

(** [None] of a plan is the plain connection. *)
Record firstWriteFragConn := mkFrag { f_conn : Conn; f_plan : option fragmentPlan; f_done : bool }.

(** [DialTCPWithFragments] and [DialTCPWithShape] on a connection that was dialled. *)
Definition DialTCPWithFragments (cfg : Config) (records : Z) (c : Conn) (r : rng) : firstWriteFragConn * rng :=
  if negb (EnableTLSFragmentation cfg) then (mkFrag c None false, r)
  else
    let '(p, r) := plan cfg r in
    (mkFrag c (Some (mkPlan (size p) (if 0 <? records then records else maxRecords p) (delayMin p) (delayMax p))) false, r).
Definition DialTCP (cfg : Config) (c : Conn) (r : rng) : firstWriteFragConn * rng := DialTCPWithFragments cfg 0 c r.
Definition DialTCPWithShape (cfg : Config) (records pauseMs : Z) (c : Conn) (r : rng) : firstWriteFragConn * rng :=
  if negb (EnableTLSFragmentation cfg) then (mkFrag c None false, r)
  else
    let '(p, r) := plan cfg r in
    let records := if 0 <? records then records else maxRecords p in
    (mkFrag c (Some (if 0 <=? pauseMs then mkPlan (size p) records pauseMs pauseMs else mkPlan (size p) records (delayMin p) (delayMax p))) false, r).

(** ** Where the server name is *)

(** The loop over the extensions between [p] and [end_]; each takes four bytes at
    least. *)
Fixpoint sni_loop (fuel : nat) (payload : list Z) (p end_ : Z) : run Z :=
  if end_ <? p + 4 then Ret (-1)
  else match fuel with
  | O => Hang
  | S fuel =>
      let* typ := read16 payload p in
      let* size := read16 payload (p + 2) in
      let body := p + 4 in
      if end_ <? body + size then Ret (-1)
      else if typ =? 0 then
        if size <? 5 then Ret (-1)
        else
          let* nameLen := read16 payload (body + 3) in
          let name := body + 5 in
          if (nameLen <? 2) || (len payload <? name + nameLen) then Ret (-1) else Ret (name + nameLen / 2)
      else sni_loop fuel payload (body + size) end_
  end.

Definition sniSplitOffset (payload : list Z) : run Z :=
  if len payload <? 39 then Ret (-1)
  else
    let* t := at_ payload 0 in
    if negb (t =? 1) then Ret (-1)
    else
      let* sid := at_ payload 38 in
      let p := 38 + (1 + sid) in
      if len payload <? p + 2 then Ret (-1)
      else
        let* suites := read16 payload p in
        let p := p + (2 + suites) in
        if len payload <? p + 1 then Ret (-1)
        else
          let* methods := at_ payload p in
          let p := p + (1 + methods) in
          if len payload <? p + 2 then Ret (-1)
          else
            let* exts := read16 payload p in
            let end_ := Z.min (p + 2 + exts) (len payload) in
            sni_loop (length payload) payload (p + 2) end_.

(** ** The records *)

Definition fragmentPause (minMs maxMs : Z) (r : rng) : Z * rng :=
  if maxMs <=? 0 then (0, r)
  else
    let minMs := Z.min (Z.max minMs 0) maxMs in
    if minMs <? maxMs then let '(n, r) := Intn (maxMs - minMs + 1) r in (minMs + n, r) else (minMs, r).

(** The least and the greatest length of a record before the last. *)
Definition chunk_base (plan : fragmentPlan) (maxRecords n : Z) : Z :=
  Z.max (Z.max (size plan) 8) ((n + maxRecords - 1) / maxRecords).
Definition chunk_lo (base : Z) : Z := Z.max (base / 2) 8.
Definition chunk_hi (base : Z) : Z := base + base / 2.

(** The length of the next record, [chunk] having been drawn. *)
Definition next_chunk (maxRecords split sent count n chunk : Z) : Z :=
  let chunk := Z.min chunk n in
  let chunk := if (sent <? split) && (split - sent <? chunk) && (count + 1 <? maxRecords) then split - sent else chunk in
  if maxRecords <=? count + 1 then n else chunk.

Definition tls_record (contentType majorVer minorVer : Z) (body : list Z) : list Z :=
  [contentType; majorVer; minorVer; u8 (Z.shiftr (len body) 8); u8 (len body)] ++ body.

(** The loop of [writeFragmentedTLSRecord]; a record takes a byte at least.  The
    result is the error, if there was one. *)
Fixpoint frag_loop (fuel : nat) (plan : fragmentPlan) (ty v1 v2 lo hi maxRecords split : Z) (c : Conn) (payload : list Z) (sent count : Z) (r : rng)
    : option (Conn * option error * rng) :=
  match payload, fuel with
  | [], _ => Some (c, None, r)
  | _, O => None
  | _, S fuel =>
      let '(n, r) := Intn (hi - lo + 1) r in
      let chunk := next_chunk maxRecords split sent count (len payload) (lo + n) in
      match Conn_Write c (tls_record ty v1 v2 (ztake chunk payload)) with
      | (c, Some e) => Some (c, Some e, r)
      | (c, None) =>
          let rest := zdrop chunk payload in
          let r := if 0 <? len rest then (fragmentPause (delayMin plan) (delayMax plan) r).2 else r in
          frag_loop fuel plan ty v1 v2 lo hi maxRecords split c rest (sent + chunk) (count + 1) r
      end
  end.

Definition writeFragmentedTLSRecord (c : Conn) (data : list Z) (plan : fragmentPlan) (r : rng) : run (Conn * option error * rng) :=
  match data with
  | ty :: v1 :: v2 :: _ :: _ :: payload =>
      if (len data <? 6) || negb (ty =? 22) then Ret (Conn_Write c data, r)
      else
        let n := if maxRecords plan <? 1 then defaultMaxHelloRecords else maxRecords plan in
        let base := chunk_base plan n (len payload) in
        let* split := sniSplitOffset payload in
        match frag_loop (length payload) plan ty v1 v2 (chunk_lo base) (chunk_hi base) n split c payload 0 0 r with
        | Some res => Ret res
        | None => Hang
        end
  | _ => Ret (Conn_Write c data, r)
  end.

(** [Write] of the connection: the number of bytes, or the error. *)
Definition Write (c : firstWriteFragConn) (b : list Z) (r : rng) : run (firstWriteFragConn * (Z + error) * rng) :=
  match f_plan c with
  | Some p =>
      if f_done c then
        let '(k, e) := Conn_Write (f_conn c) b in Ret (mkFrag k (f_plan c) true, match e with None => inl (len b) | Some e => inr e end, r)
      else
        let* res := writeFragmentedTLSRecord (f_conn c) b p r in
        Ret (mkFrag res.1.1 (f_plan c) true, match res.1.2 with None => inl (len b) | Some e => inr e end, res.2)
  | None => let '(k, e) := Conn_Write (f_conn c) b in Ret (mkFrag k None (f_done c), match e with None => inl (len b) | Some e => inr e end, r)
  end.

(** [helloSplitConn] of core/protocol/client.go, around such a connection. *)
Record helloSplitConn := mkSplit { h_conn : firstWriteFragConn; splitAt : Z; h_split : bool }.
Definition split_Write (c : helloSplitConn) (b : list Z) (r : rng) : run (helloSplitConn * (Z + error) * rng) :=
  if h_split c || (splitAt c <=? 0) || (len b <=? splitAt c) then
    let* res := Write (h_conn c) b r in Ret (mkSplit res.1.1 (splitAt c) true, res.1.2, res.2)
  else
    let* res := Write (h_conn c) (ztake (splitAt c) b) r in
    match res.1.2 with
    | inr e => Ret (mkSplit res.1.1 (splitAt c) true, inr e, res.2)
    | inl n1 =>
        let* res := Write res.1.1 (zdrop (splitAt c) b) res.2 in
        Ret (mkSplit res.1.1 (splitAt c) true, match res.1.2 with inl n2 => inl (n1 + n2) | inr e => inr e end, res.2)
    end.

End AsnBypass.
