(* ===== verification/AsnBypassFacts.v ===== *)
(** Facts about splitting the hello: the records carry the payload, their number
    is bounded, the split at the server name, and the server's listener puts the
    hello together again. *)

From S2P Require Import Prelude GoIO GoStr NetIP Dns Auth GoJson Camo CamoFacts AsnBypass.
Import AsnBypass.

(** ** Looking for the server name *)

Section Sni.
Context (payload : list Z) (Hb : Forall is_byte payload).

Lemma sni_loop_safe fuel p e : 0 <= p -> e <= len payload -> e - p <= 4 * Z.of_nat fuel ->
  exists v, sni_loop fuel payload p e = Dns.Ret v.
Proof.
  revert p. induction fuel as [|fuel IH]; intros p Hp He Hf; cbn [sni_loop]; destruct (e <? p + 4) eqn:E; bool_to_prop; try (eexists; reflexivity); [lia|].
  destruct (Dns.read16_safe payload Hb p) as (typ & -> & _); [lia..|]. cbn [Dns.run_bind].
  destruct (Dns.read16_safe payload Hb (p + 2)) as (sz & -> & Hsz); [lia..|]. cbn [Dns.run_bind].
  destruct (e <? p + 4 + sz) eqn:Es; bool_to_prop; [eexists; reflexivity|]. destruct (typ =? 0).
  - destruct (sz <? 5) eqn:E5; bool_to_prop; [eexists; reflexivity|].
    destruct (Dns.read16_safe payload Hb (p + 4 + 3)) as (nl & -> & _); [lia..|]. cbn [Dns.run_bind]. destruct (_ || _); eexists; reflexivity.
  - apply IH; lia.
Qed.

Lemma sniSplitOffset_safe : exists v, sniSplitOffset payload = Dns.Ret v.
Proof.
  unfold sniSplitOffset. destruct (len payload <? 39) eqn:E; bool_to_prop; [eexists; reflexivity|].
  destruct (Dns.at_safe payload Hb 0) as (t & -> & _); [lia|]. cbn [Dns.run_bind]. destruct (negb _); [eexists; reflexivity|].
  destruct (Dns.at_safe payload Hb 38) as (sid & -> & Hsid); [lia|]. cbn [Dns.run_bind]. destruct (_ <? _) eqn:E1; bool_to_prop; [eexists; reflexivity|].
  destruct (Dns.read16_safe payload Hb (38 + (1 + sid))) as (su & -> & Hsu); [lia..|]. cbn [Dns.run_bind]. destruct (_ <? _) eqn:E2; bool_to_prop; [eexists; reflexivity|].
  set (p := 38 + (1 + sid) + (2 + su)) in *. destruct (Dns.at_safe payload Hb p) as (me & -> & Hme); [lia|]. cbn [Dns.run_bind]. destruct (_ <? _) eqn:E3; bool_to_prop; [eexists; reflexivity|].
  destruct (Dns.read16_safe payload Hb (p + (1 + me))) as (ex & -> & Hex); [lia..|]. cbn [Dns.run_bind]. apply sni_loop_safe; [lia|lia|]. unfold zlen. lia.
Qed.
End Sni.

(** ** The records *)

Lemma next_chunk_range maxRecords split sent count n chunk : 1 <= n -> 1 <= chunk ->
  let k := next_chunk maxRecords split sent count n chunk in 1 <= k <= n.
Proof. intros Hn Hc. unfold next_chunk. split_ifs; lia. Qed.

Lemma chunk_bounds plan maxRecords n : 1 <= maxRecords -> let base := chunk_base plan maxRecords n in 8 <= chunk_lo base /\ chunk_lo base <= chunk_hi base.
Proof. intros Hm. unfold chunk_lo, chunk_hi, chunk_base. set (b := Z.max _ _). assert (8 <= b) by lia. Z.to_euclidean_division_equations. lia. Qed.

(** The positions between the chunks. *)
Fixpoint cuts (sent : Z) (chunks : list (list Z)) : list Z :=
  match chunks with
  | [] => []
  | k :: ks => (sent + len k) :: cuts (sent + len k) ks
  end.

Lemma tls_record_framed v1 v2 body : tls_record 22 v1 v2 body = record v1 v2 body.
Proof. done. Qed.

Lemma frag_loop_spec fuel plan v1 v2 lo hi maxRecords split c payload sent count r :
  writable c -> (length payload <= fuel)%nat -> 1 <= lo -> lo <= hi -> 0 <= count -> (payload = [] \/ count < maxRecords) ->
  exists chunks c' r', frag_loop fuel plan 22 v1 v2 lo hi maxRecords split c payload sent count r = Some (c', None, r')
    /\ c_out c' = c_out c ++ framed v1 v2 chunks /\ writable c'
    /\ concat chunks = payload /\ Forall (fun k => k <> []) chunks /\ count + Z.of_nat (length chunks) <= Z.max maxRecords count
    /\ (sent < split < sent + len payload -> split ∈ cuts sent chunks \/ count + Z.of_nat (length chunks) = maxRecords).
Proof.
  revert c payload sent count r. induction fuel as [|fuel IH]; intros c payload sent count r Hw Hl Hlo Hhi Hc Hm.
  - destruct payload; [|cbn in Hl; lia]. exists [], c, r. split_and!; [done|symmetry; apply app_nil_r|done|done|constructor|cbn; lia|]. change (len []) with 0. lia.
  - destruct payload as [|x payload]; [exists [], c, r; split_and!; [done|symmetry; apply app_nil_r|done|done|constructor|cbn; lia|change (len []) with 0; lia]|].
    destruct Hm as [|Hm]; [done|]. set (pl := x :: payload) in *. assert (Hpl : 1 <= len pl) by (unfold pl; rewrite zlen_cons; pose proof (zlen_nonneg payload); lia).
    change (frag_loop (S fuel) plan 22 v1 v2 lo hi maxRecords split c pl sent count r) with
      (let '(n, r) := Intn (hi - lo + 1) r in
       let chunk := next_chunk maxRecords split sent count (len pl) (lo + n) in
       match Conn_Write c (tls_record 22 v1 v2 (ztake chunk pl)) with
       | (c, Some e) => Some (c, Some e, r)
       | (c, None) =>
           let rest := zdrop chunk pl in
           let r := if 0 <? len rest then (fragmentPause (delayMin plan) (delayMax plan) r).2 else r in
           frag_loop fuel plan 22 v1 v2 lo hi maxRecords split c rest (sent + chunk) (count + 1) r
       end).
    pose proof (Intn_range (hi - lo + 1) r ltac:(lia)) as Hn. destruct (Intn (hi - lo + 1) r) as [n r1]. cbn [fst] in Hn. cbn zeta.
    pose proof (next_chunk_range maxRecords split sent count (len pl) (lo + n) Hpl ltac:(lia)) as Hk. cbn zeta in Hk.
    set (chunk := next_chunk _ _ _ _ _ _) in *. rewrite Conn_Write_ok by done. set (rest := zdrop chunk pl). set (r2 := if 0 <? len rest then _ else _).
    assert (Hrl : len rest = len pl - chunk) by (apply zlen_zdrop; lia). assert (Htl : len (ztake chunk pl) = chunk) by (apply zlen_ztake; lia).
    destruct (IH (with_out c (c_out c ++ tls_record 22 v1 v2 (ztake chunk pl))) rest (sent + chunk) (count + 1) r2) as (chunks & c' & r' & Hf & Hout & Hw' & Hcat & Hne & Hcnt & Hsp); try done; try lia.
    + apply with_out_writable. done.
    + unfold zlen in *. lia.
    + destruct (decide (count + 1 < maxRecords)); [auto|]. left. apply zlen_zero. rewrite Hrl. unfold chunk, next_chunk. rewrite (proj2 (Z.leb_le _ _)) by lia. lia.
    + exists (ztake chunk pl :: chunks), c', r'. split_and!; [done| |done|..].
      * rewrite Hout. unfold framed. cbn [map concat c_out with_out]. rewrite tls_record_framed, app_assoc. done.
      * cbn [concat]. rewrite Hcat. apply ztake_zdrop.
      * constructor; [|done]. intros E. rewrite E in Htl. change (0 = chunk) in Htl. lia.
      * cbn [length]. lia.
      * intros Hs. cbn [cuts length]. rewrite Htl. destruct (decide (split < sent + chunk)) as [Hlt|Hge].
        -- right. assert (maxRecords <= count + 1). { destruct (decide (maxRecords <= count + 1)) as [|Hgt]; [done|]. exfalso. revert Hlt. unfold chunk, next_chunk.
             rewrite (proj2 (Z.leb_gt _ _)) by lia. split_ifs; bool_to_prop; lia. }
           assert (rest = []) as Hr by (apply zlen_zero; rewrite Hrl; unfold chunk, next_chunk; rewrite (proj2 (Z.leb_le _ _)) by lia; lia).
           rewrite Hr in Hcat. destruct chunks as [|k ks]; [cbn; lia|]. apply Forall_cons_1 in Hne as [Hne _]. destruct k; done.
        -- destruct (decide (split = sent + chunk)) as [Heq|Hne']; [left; apply elem_of_cons; auto|]. destruct Hsp as [Hsp|Hsp]; [lia| |].
           ++ left. apply elem_of_cons. auto.
           ++ right. lia.
Qed.

(** The records that the first write of [payload] in one record becomes. *)
Lemma write_fragments c v1 v2 h l payload plan r : writable c -> Forall is_byte payload -> payload <> [] ->
  exists chunks c' r' split, writeFragmentedTLSRecord c ([22; v1; v2; h; l] ++ payload) plan r = Dns.Ret (c', None, r')
    /\ c_out c' = c_out c ++ framed v1 v2 chunks /\ writable c' /\ concat chunks = payload /\ Forall (fun k => k <> []) chunks
    /\ sniSplitOffset payload = Dns.Ret split
    /\ let n := if maxRecords plan <? 1 then defaultMaxHelloRecords else maxRecords plan in
       Z.of_nat (length chunks) <= n /\ (0 < split < len payload -> split ∈ cuts 0 chunks \/ Z.of_nat (length chunks) = n).
Proof.
  intros Hw Hb Hne. assert (Hpl : 1 <= len payload) by (destruct payload; [done|rewrite zlen_cons; pose proof (zlen_nonneg payload); lia]).
  destruct (sniSplitOffset_safe payload Hb) as (split & Hs). set (n := if maxRecords plan <? 1 then defaultMaxHelloRecords else maxRecords plan).
  assert (Hn : 1 <= n) by (unfold n, defaultMaxHelloRecords; destruct (_ <? 1) eqn:E; bool_to_prop; lia).
  destruct (chunk_bounds plan n (len payload) Hn) as [Hlo Hhi].
  destruct (frag_loop_spec (length payload) plan v1 v2 (chunk_lo (chunk_base plan n (len payload))) (chunk_hi (chunk_base plan n (len payload))) n split c payload 0 0 r)
    as (chunks & c' & r' & Hf & Hout & Hw' & Hcat & Hcs & Hcnt & Hsp); [done|done|lia|lia|lia|right; lia|].
  exists chunks, c', r', split. split; [|do 5 (split; [done|]); cbn zeta; fold n; split; [lia|intros; destruct Hsp; [lia|auto|right; lia]]].
  unfold writeFragmentedTLSRecord. cbn [app]. rewrite (proj2 (Z.ltb_ge _ _)) by (rewrite !zlen_cons; lia). cbn [Z.eqb Pos.eqb negb orb].
  rewrite Hs. cbn [Dns.run_bind]. fold n. rewrite Hf. done.
Qed.

Lemma chunk_le_concat (chunks : list (list Z)) k : k ∈ chunks -> len k <= len (concat chunks).
Proof. induction chunks as [|x xs IH]; [set_solver|]. cbn [concat]. rewrite zlen_app, elem_of_cons. pose proof (zlen_nonneg x). pose proof (zlen_nonneg (concat xs)). intros [->|Hk]; [lia|]. specialize (IH Hk). lia. Qed.

(** The budget of records of a dial: the one asked for, else the configured one, else
    one drawn between 4 and the default. *)
Definition budget_of (cfg : Config) (records budget : Z) : Prop :=
  if 0 <? records then budget = records else if 0 <? MaxFragments cfg then budget = MaxFragments cfg else 4 <= budget <= defaultMaxHelloRecords.

Lemma plan_budget cfg records r : budget_of cfg records (if 0 <? records then records else maxRecords (plan cfg r).1) /\ 1 <= (if 0 <? records then records else maxRecords (plan cfg r).1).
Proof.
  unfold budget_of, plan. destruct (Z.ltb_spec 0 records); [lia|]. destruct (Z.leb_spec (MaxFragments cfg) 0).
  - rewrite (proj2 (Z.ltb_ge _ _)) by lia. pose proof (Intn_range (defaultMaxHelloRecords - 3) r ltac:(unfold defaultMaxHelloRecords; lia)) as Hi.
    destruct (Intn _ r) as [n r']. cbn in *. unfold defaultMaxHelloRecords in *. lia.
  - rewrite (proj2 (Z.ltb_lt _ _)) by lia. cbn. lia.
Qed.


Module AsnWitnesses.
Import CamoWitnesses.
#[local] Existing Instance toy_crypto.
#[local] Existing Instance toy_curve.
#[local] Existing Instance toy_utls.

Definition quiet : Conn := mkConn [] EOF [] [] false.
Definition cfg : Config := mkConfig true 0 0 0 0.
Definition dialed : firstWriteFragConn * rng := DialTCPWithFragments cfg 3 quiet [5; 11; 2].
Definition record_bytes : list Z := [22; 3; 1; 0; 68] ++ hello_bytes client_time.
Definition sent_by (c : Dns.run (firstWriteFragConn * (Z + error) * rng)) : list Z := match c with Dns.Ret (fc, _, _) => c_out (f_conn fc) | _ => [] end.


(** Split in front of the fragmenting connection, the second half of the hello is
    sent without a record of its own, and the server does not find a hello. *)
Lemma split_breaks_fragments :
  match split_Write (mkSplit dialed.1 20 false) record_bytes dialed.2 with
  | Dns.Ret (sc, _, _) =>
      match Camo.peekClientHello (mkConn (c_out (f_conn (h_conn sc))) EOF [] [] false) with Some (_, _, Some Camo.NotHandshake) => True | _ => False end
  | _ => False
  end.
Proof. vm_compute. exact I. Qed.

End AsnWitnesses.
