(* ===== verification/YaDisk.v ===== *)
(** The transport over files of a cloud disk, core/transport/yadisk/yadisk.go: one
    direction of it, from the writer of one end over the directory that both ends
    share to the reader of the other.

    The WebDAV server is the map of the files by their number (the path is the
    directory and the number in decimal, so that paths are numbers).  A PUT that
    fails may have stored its file all the same, at once or later; a GET may fail at
    any time; a DELETE may be late or lost.  The goroutines and the callers take
    turns as the actions of [step].  A loop that returns on [stopCh], also out of its
    retries or while it waits for room, takes no further action: what it held stays
    in [putting] or [held] for good. *)

From S2P Require Import Prelude GoIO.

Module YaDisk.

Definition maxChunkSize : Z := 512 * 1024.
(** The capacity of the two channels. *)
Definition queue_cap : Z := 128.

Record Config := mkConfig { ServerMode : bool; OAuthToken : string; SessionID : string }.
(** [New] gives the directories that are read and written. *)
Definition New (cfg : Config) : string * string :=
  let base := String.append "/whispera/" (SessionID cfg) in
  let c2s := String.append base "/c2s" in
  let s2c := String.append base "/s2c" in
  if ServerMode cfg then (c2s, s2c) else (s2c, c2s).
(** [Start] refuses without a token and a session. *)
Definition Start (cfg : Config) : bool := negb (bool_decide (OAuthToken cfg = "")) && negb (bool_decide (SessionID cfg = "")).

(** The writing end: what a caller of [Write] has yet to hand over, the channel,
    the number of the next file and the file that is being put. *)
Record writer := mkWriter { pending : list Z; dataOut : list (list Z); writeSeq : Z; putting : option (Z * list Z); w_stopped : bool }.
(** The reading end: the number of the next file, the file that waits for room, the
    channel, the rest of a chunk, and the files being deleted. *)
Record reader := mkReader { readSeq : Z; held : option (list Z); dataIn : list (list Z); buf : list Z; deleting : list Z; r_stopped : bool }.
(** The directory, and the files of requests that failed but may yet be served. *)
Record state := mkState { w : writer; disk : gmap Z (list Z); late : list (Z * list Z); r : reader }.

Definition new_writer : writer := mkWriter [] [] 0 None false.
Definition new_reader : reader := mkReader 0 None [] [] [] false.
Definition start : state := mkState new_writer ∅ [] new_reader.

(** ** [diskConn.Write] *)

Definition write_begin (p : list Z) (x : writer) : option writer :=
  match pending x with [] => Some (mkWriter p (dataOut x) (writeSeq x) (putting x) (w_stopped x)) | _ => None end.
(** One turn of its loop: the chunk that goes into the channel. *)
Definition write_chunk (x : writer) : option (writer * list Z) :=
  if (0 <? len (pending x)) && (len (dataOut x) <? queue_cap) then
    let end_ := if maxChunkSize <? len (pending x) then maxChunkSize else len (pending x) in
    let cp := ztake end_ (pending x) in
    Some (mkWriter (zdrop end_ (pending x)) (dataOut x ++ [cp]) (writeSeq x) (putting x) (w_stopped x), cp)
  else None.
(** It gives up when the transport has stopped. *)
Definition write_stop (x : writer) : option writer :=
  if w_stopped x then Some (mkWriter [] (dataOut x) (writeSeq x) (putting x) true) else None.

(** ** [runSendLoop] *)

Definition send_take (x : writer) : option writer :=
  match putting x, dataOut x with
  | None, data :: q => Some (mkWriter (pending x) q (u64 (writeSeq x + 1)) (Some (writeSeq x, data)) (w_stopped x))
  | _, _ => None
  end.
(** [putFile] and what follows: [ok] is its success, [stored] whether the file is
    there at once. *)
Definition send_put (ok stored : bool) (s : state) : option state :=
  match putting (w s) with
  | None => None
  | Some (seq, data) =>
      let x := w s in
      let d := if ok || stored then <[seq := data]> (disk s) else disk s in
      Some (mkState (if ok then mkWriter (pending x) (dataOut x) (writeSeq x) None (w_stopped x) else x) d
                    (if ok then late s else (seq, data) :: late s) (r s))
  end.
(** A request that was given up is served. *)
Definition late_put (i : nat) (s : state) : option state :=
  match late s !! i with Some (seq, data) => Some (mkState (w s) (<[seq := data]> (disk s)) (late s) (r s)) | None => None end.

(** ** [runRecvLoop] *)

(** [getFile] of the next file, when it succeeds. *)
Definition recv_get (s : state) : option state :=
  let x := r s in
  match held x, disk s !! readSeq x with
  | None, Some data =>
      Some (mkState (w s) (disk s) (late s) (mkReader (u64 (readSeq x + 1)) (Some (ztake maxChunkSize data)) (dataIn x) (buf x) (readSeq x :: deleting x) (r_stopped x)))
  | _, _ => None
  end.
Definition recv_deliver (x : reader) : option reader :=
  match held x with
  | Some data => if len (dataIn x) <? queue_cap then Some (mkReader (readSeq x) None (dataIn x ++ [data]) (buf x) (deleting x) (r_stopped x)) else None
  | None => None
  end.
(** [deleteFile]: [ok] is whether the request is served. *)
Definition recv_delete (seq : Z) (ok : bool) (s : state) : option state :=
  let x := r s in
  if bool_decide (seq ∈ deleting x) then
    Some (mkState (w s) (if ok then delete seq (disk s) else disk s) (late s) (mkReader (readSeq x) (held x) (dataIn x) (buf x) (List.remove Z.eq_dec seq (deleting x)) (r_stopped x)))
  else None.

(** ** [diskConn.Read] into a buffer of [n] bytes *)

Definition conn_read (n : Z) (x : reader) : option (reader * list Z) :=
  if 0 <? len (buf x) then
    Some (mkReader (readSeq x) (held x) (dataIn x) (zdrop n (buf x)) (deleting x) (r_stopped x), ztake n (buf x))
  else match dataIn x with
  | data :: q => Some (mkReader (readSeq x) (held x) q (buf x ++ zdrop n data) (deleting x) (r_stopped x), ztake n data)
  | [] => None
  end.

(** ** Actions *)

Inductive action :=
  | WriteBegin (p : list Z) | WriteChunk | WriteStop | SendTake | SendPut (ok stored : bool) | LatePut (i : nat)
  | RecvGet | RecvDeliver | RecvDelete (seq : Z) (ok : bool) | ConnRead (n : Z) | StopWriter | StopReader.

Definition with_w (s : state) (x : writer) : state := mkState x (disk s) (late s) (r s).
Definition with_r (s : state) (x : reader) : state := mkState (w s) (disk s) (late s) x.

(** The state after an action, the bytes it took from a caller of [Write] and the
    bytes it gave to a caller of [Read]. *)
Definition step (a : action) (s : state) : option (state * list Z * list Z) :=
  match a with
  | WriteBegin p => x ← write_begin p (w s); Some (with_w s x, [], [])
  | WriteChunk => '(x, cp) ← write_chunk (w s); Some (with_w s x, cp, [])
  | WriteStop => x ← write_stop (w s); Some (with_w s x, [], [])
  | SendTake => x ← send_take (w s); Some (with_w s x, [], [])
  | SendPut ok stored => s ← send_put ok stored s; Some (s, [], [])
  | LatePut i => s ← late_put i s; Some (s, [], [])
  | RecvGet => s ← recv_get s; Some (s, [], [])
  | RecvDeliver => x ← recv_deliver (r s); Some (with_r s x, [], [])
  | RecvDelete seq ok => s ← recv_delete seq ok s; Some (s, [], [])
  | ConnRead n => if n <? 0 then None else '(x, got) ← conn_read n (r s); Some (with_r s x, [], got)
  | StopWriter => Some (with_w s (mkWriter (pending (w s)) (dataOut (w s)) (writeSeq (w s)) (putting (w s)) true), [], [])
  | StopReader => Some (with_r s (mkReader (readSeq (r s)) (held (r s)) (dataIn (r s)) (buf (r s)) (deleting (r s)) true), [], [])
  end.

(** A run: the state, the bytes written and the bytes read. *)
Fixpoint run (l : list action) (s : state) : option (state * list Z * list Z) :=
  match l with
  | [] => Some (s, [], [])
  | a :: l =>
      '(s, wr, rd) ← step a s;
      '(s, wr', rd') ← run l s;
      Some (s, wr ++ wr', rd ++ rd')
  end.

End YaDisk.
