(* ===== verification/YaDiskFacts.v ===== *)
(** Facts about the transport over files: it is a queue of bytes whatever requests
    fail, are late or are repeated, and everything written can always be read. *)

From S2P Require Import Prelude GoIO YaDisk.
Import YaDisk.

(** The two ends of a session use each other's directories. *)
Lemma directories_match tok tok' id : New (mkConfig true tok id) = ((New (mkConfig false tok' id)).2, (New (mkConfig false tok' id)).1).
Proof. done. Qed.

Definition opt_list {A} (o : option (list A)) : list A := default [] o.

(** The files [hist] that the writer numbered so far explain the state: what is on
    the disk, what is on its way, and what was read. *)
Record inv (n : Z) (hist : list (list Z)) (wr rd : list Z) (s : state) : Prop := mkInv {
  inv_count : len hist + len (dataOut (w s)) <= n;
  inv_seq : writeSeq (w s) = len hist;
  inv_put : forall i d, putting (w s) = Some (i, d) -> i + 1 = len hist /\ hist !! Z.to_nat i = Some d;
  inv_disk : forall i d, disk s !! i = Some d -> 0 <= i /\ hist !! Z.to_nat i = Some d;
  inv_late : forall i d, (i, d) ∈ late s -> 0 <= i /\ hist !! Z.to_nat i = Some d;
  inv_read : 0 <= readSeq (r s) <= len hist;
  inv_kept : forall i d, readSeq (r s) <= i -> hist !! Z.to_nat i = Some d -> disk s !! i = Some d \/ putting (w s) = Some (i, d);
  inv_deleting : forall i, i ∈ deleting (r s) -> i < readSeq (r s);
  inv_size : Forall (fun d => len d <= maxChunkSize) (hist ++ dataOut (w s));
  inv_written : wr = concat hist ++ concat (dataOut (w s));
  inv_got : concat (ztake (readSeq (r s)) hist) = rd ++ buf (r s) ++ concat (dataIn (r s)) ++ opt_list (held (r s))
}.

Lemma inv_start : inv 0 [] [] [] start.
Proof. split; cbn; try done; try (intros; set_solver); try lia. Qed.

Lemma lookup_len {A} (l : list A) i x : 0 <= i -> l !! Z.to_nat i = Some x -> i < len l.
Proof. intros Hi Hl. apply lookup_lt_Some in Hl. unfold zlen. lia. Qed.

Lemma ztake_S {A} (l : list A) i x : 0 <= i -> l !! Z.to_nat i = Some x -> ztake (i + 1) l = ztake i l ++ [x].
Proof. intros Hi Hl. unfold ztake. rewrite Z2Nat.inj_add, Nat.add_1_r by lia. apply take_S_r. done. Qed.

Lemma concat_app1 {A} (l : list (list A)) x : concat (l ++ [x]) = concat l ++ x.
Proof. rewrite concat_app. cbn. rewrite app_nil_r. done. Qed.

(** An action that numbers no file keeps [hist]. *)
Ltac keep_hist := intros [= <- <- <-]; exists []; rewrite !app_nil_r; split; cbn; try done; try lia.

Section Steps.
Context (n : Z) (hist : list (list Z)) (wr rd : list Z) (s s' : state) (wr' rd' : list Z) (Hn : n + 1 < 2 ^ 64) (Hinv : inv n hist wr rd s).
Abbreviation kept := (exists k, inv (n + 1) (hist ++ k) (wr ++ wr') (rd ++ rd') s').

Lemma write_chunk_inv : step WriteChunk s = Some (s', wr', rd') -> kept.
Proof.
  destruct Hinv as [Hc Hq Hp Hd Hl Hr Hk Hdel Hsz Hw Hg]. cbn [step]. unfold write_chunk. destruct (_ && _) eqn:E; [|done]. bool_to_prop. set (e := if _ <? _ then _ else _).
  assert (He : 0 <= e <= len (pending (w s)) /\ e <= maxChunkSize) by (unfold e, maxChunkSize; split_ifs; lia). keep_hist.
  - rewrite zlen_app. change (len [_]) with 1. lia.
  - rewrite app_assoc. apply Forall_app. split; [done|]. constructor; [|constructor]. rewrite zlen_ztake; lia.
  - rewrite Hw, concat_app1, app_assoc. done.
Qed.

Lemma send_take_inv : step SendTake s = Some (s', wr', rd') -> kept.
Proof.
  destruct Hinv as [Hc Hq Hp Hd Hl Hr Hk Hdel Hsz Hw Hg]. cbn [step]. unfold send_take.
  destruct (putting (w s)) eqn:Ep; [done|]. destruct (dataOut (w s)) as [|data q] eqn:Eq; [done|]. intros [= <- <- <-].
  exists [data]. rewrite !app_nil_r. rewrite zlen_cons in Hc. pose proof (zlen_nonneg q). pose proof (zlen_nonneg hist).
  assert (H1 : len (hist ++ [data]) = len hist + 1) by (rewrite zlen_app; done).
  assert (Hlast : (hist ++ [data]) !! Z.to_nat (len hist) = Some data) by (rewrite <- length_zlen; apply list_lookup_middle; done).
  assert (Hold : forall i d, 0 <= i /\ hist !! Z.to_nat i = Some d -> 0 <= i /\ (hist ++ [data]) !! Z.to_nat i = Some d) by (intros i d [? ?]; split; [done|apply lookup_app_l_Some; done]).
  split; cbn; rewrite ?H1; auto; try lia.
  - rewrite Hq. unfold u64. rewrite Z.mod_small; lia.
  - intros i d [= <- <-]. rewrite Hq. split; [lia|done].
  - intros i d Hi Hx. destruct (decide (i < len hist)) as [Hlt|Hge].
    + left. rewrite lookup_app_l in Hx by (unfold zlen in Hlt; lia). destruct (Hk i d Hi Hx) as [|Hput]; [done|]. congruence.
    + assert (i = len hist) as -> by (apply lookup_len in Hx; lia). right. rewrite Hlast in Hx. injection Hx as ->. rewrite Hq. done.
  - rewrite <- app_assoc. done.
  - rewrite Hw. cbn. rewrite concat_app1, app_assoc. done.
  - rewrite ztake_app_le by lia. done.
Qed.

(** A file of [hist] may be stored again at any time. *)
Lemma store_again seq data : 0 <= seq -> hist !! Z.to_nat seq = Some data ->
  (forall i d, <[seq := data]> (disk s) !! i = Some d -> 0 <= i /\ hist !! Z.to_nat i = Some d) /\
  (forall i d, readSeq (r s) <= i -> hist !! Z.to_nat i = Some d -> <[seq := data]> (disk s) !! i = Some d \/ i <> seq /\ putting (w s) = Some (i, d)).
Proof.
  destruct Hinv as [Hc Hq Hp Hd Hl Hr Hk Hdel Hsz Hw Hg]. intros H0 Hx. split.
  - intros i d Hi. apply lookup_insert_Some in Hi as [[<- <-]|[_ Hi]]; auto.
  - intros i d Hi Hx'. destruct (decide (i = seq)) as [->|Hne]; [rewrite Hx in Hx'; injection Hx' as ->; left; apply lookup_insert_eq|].
    rewrite lookup_insert_ne by done. destruct (Hk i d Hi Hx'); auto.
Qed.

Lemma send_put_inv ok stored : step (SendPut ok stored) s = Some (s', wr', rd') -> kept.
Proof.
  pose proof Hinv as [Hc Hq Hp Hd Hl Hr Hk Hdel Hsz Hw Hg]. cbn [step]. unfold send_put. destruct (putting (w s)) as [[seq data]|] eqn:Ep; [|done].
  destruct (Hp seq data eq_refl) as [Hs1 Hs2]. assert (H0 : 0 <= seq) by (apply lookup_lt_Some in Hs2; unfold zlen in Hs1; lia).
  destruct (store_again seq data H0 Hs2) as [Hd' Hk']. rewrite Ep in Hk'. destruct ok; cbn.
  - keep_hist. intros i d Hi Hx. destruct (Hk' i d Hi Hx) as [|[Hne [= <- <-]]]; auto; done.
  - keep_hist; rewrite ?Ep; try done.
    + destruct stored; done.
    + intros i d [[= -> ->]|Hi]%elem_of_cons; auto.
    + intros i d Hi Hx. destruct stored; [|auto]. destruct (Hk' i d Hi Hx) as [|[_ ?]]; auto.
Qed.

Lemma late_put_inv i : step (LatePut i) s = Some (s', wr', rd') -> kept.
Proof.
  pose proof Hinv as [Hc Hq Hp Hd Hl Hr Hk Hdel Hsz Hw Hg]. cbn [step]. unfold late_put. destruct (late s !! i) as [[seq data]|] eqn:El; [|done].
  apply list_elem_of_lookup_2 in El. destruct (Hl _ _ El) as [Hs1 Hs2]. destruct (store_again seq data Hs1 Hs2) as [Hd' Hk']. keep_hist.
  intros j d Hj Hx. destruct (Hk' j d Hj Hx) as [|[_ ?]]; auto.
Qed.

Lemma recv_get_inv : step RecvGet s = Some (s', wr', rd') -> kept.
Proof.
  destruct Hinv as [Hc Hq Hp Hd Hl Hr Hk Hdel Hsz Hw Hg]. cbn [step]. unfold recv_get.
  destruct (held (r s)) eqn:Eh; [done|]. destruct (disk s !! readSeq (r s)) as [data|] eqn:Ed; [|done].
  destruct (Hd _ _ Ed) as [Hs1 Hs2]. pose proof (lookup_len hist _ _ Hs1 Hs2) as Hlt.
  assert (Hu : u64 (readSeq (r s) + 1) = readSeq (r s) + 1) by (unfold u64; rewrite Z.mod_small; pose proof (zlen_nonneg (dataOut (w s))); lia).
  assert (Hds : len data <= maxChunkSize) by (apply Forall_app in Hsz as [Hsz _]; rewrite Forall_lookup in Hsz; eauto). keep_hist; rewrite ?Hu.
  - intros i d Hi. apply Hk. lia.
  - intros i [->|Hi]%elem_of_cons; [lia|]. specialize (Hdel i Hi). lia.
  - rewrite (ztake_S hist _ data) by done. rewrite concat_app1, Hg. cbn. rewrite app_nil_r, <- !app_assoc. rewrite (ztake_ge maxChunkSize) by done. done.
Qed.

Lemma recv_delete_inv seq ok : step (RecvDelete seq ok) s = Some (s', wr', rd') -> kept.
Proof.
  destruct Hinv as [Hc Hq Hp Hd Hl Hr Hk Hdel Hsz Hw Hg]. cbn [step]. unfold recv_delete. case_bool_decide as Hin; [|done]. pose proof (Hdel seq Hin) as Hseq. keep_hist.
  - intros i d. destruct ok; [|auto]. intros Hi. apply lookup_delete_Some in Hi as [_ Hi]. auto.
  - intros i d Hi Hx. destruct ok; [rewrite lookup_delete_ne by lia|]; auto.
  - intros i Hi. apply Hdel. rewrite list_elem_of_In in *. apply in_remove in Hi. tauto.
Qed.

Lemma conn_read_inv m : step (ConnRead m) s = Some (s', wr', rd') -> kept.
Proof.
  destruct Hinv as [Hc Hq Hp Hd Hl Hr Hk Hdel Hsz Hw Hg]. cbn [step]. destruct (m <? 0); [done|]. unfold conn_read. destruct (0 <? len (buf (r s))) eqn:Eb.
  - keep_hist. rewrite Hg, <- app_assoc, (app_assoc (ztake _ _)), ztake_zdrop. done.
  - destruct (dataIn (r s)) as [|data q] eqn:Ei; [done|]. keep_hist. bool_to_prop.
    assert (Hbuf : buf (r s) = []) by (apply zlen_zero; pose proof (zlen_nonneg (buf (r s))); lia). rewrite Hbuf in *.
    rewrite Hg. cbn. rewrite <- !app_assoc, (app_assoc (ztake _ _)), ztake_zdrop. done.
Qed.

Lemma step_inv a : step a s = Some (s', wr', rd') -> kept.
Proof.
  destruct a; [|apply write_chunk_inv| |apply send_take_inv|apply send_put_inv|apply late_put_inv|apply recv_get_inv| |apply recv_delete_inv|apply conn_read_inv|..];
    destruct Hinv as [Hc Hq Hp Hd Hl Hr Hk Hdel Hsz Hw Hg]; cbn [step].
  - unfold write_begin. destruct (pending (w s)); [|done]. keep_hist.
  - unfold write_stop. destruct (w_stopped _); [|done]. keep_hist.
  - unfold recv_deliver. destruct (held (r s)) as [data|] eqn:Eh; [|done]. destruct (_ <? _); [|done]. keep_hist.
    rewrite Hg. cbn. rewrite concat_app1, app_nil_r. done.
  - keep_hist.
  - keep_hist.
Qed.
End Steps.

Lemma run_inv l n hist wr rd s s' wr' rd' : inv n hist wr rd s -> n + Z.of_nat (length l) < 2 ^ 64 -> run l s = Some (s', wr', rd') ->
  exists k, inv (n + Z.of_nat (length l)) (hist ++ k) (wr ++ wr') (rd ++ rd') s'.
Proof.
  revert n hist wr rd s wr' rd'. induction l as [|a l IH]; intros n hist wr rd s wr' rd' Hi Hn; cbn [run length].
  - intros [= <- <- <-]. exists []. rewrite !app_nil_r, Z.add_0_r. done.
  - destruct (step a s) as [[[s1 wr1] rd1]|] eqn:Es; [|done]. cbn. destruct (run l s1) as [[[s2 wr2] rd2]|] eqn:Er; [|done]. cbn. intros [= <- <- <-].
    cbn [length] in Hn. destruct (step_inv n hist wr rd s s1 wr1 rd1 ltac:(lia) Hi a Es) as [k1 Hi1].
    destruct (IH (n + 1) _ _ _ s1 wr2 rd2 Hi1 ltac:(lia) Er) as [k2 Hi2]. exists (k1 ++ k2). rewrite !app_assoc.
    replace (n + Z.of_nat (S (length l))) with (n + 1 + Z.of_nat (length l)) by lia. done.
Qed.

(** C28: whatever requests fail, are repeated or are served late, and however the
    loops and the callers take turns, the bytes read at one end are the first of the
    bytes written at the other, each once and in order; those not read yet are in the
    rest of a chunk, in the channels, or in files with consecutive numbers from the
    one that is read next.  Fewer than 2^64 steps keep the numbers from wrapping. *)
Theorem yadisk_fifo l s wr rd : run l start = Some (s, wr, rd) -> Z.of_nat (length l) < 2 ^ 64 ->
  exists unread, wr = rd ++ buf (r s) ++ concat (dataIn (r s)) ++ opt_list (held (r s)) ++ concat unread ++ concat (dataOut (w s))
    /\ (forall i d, unread !! i = Some d -> let seq := readSeq (r s) + Z.of_nat i in disk s !! seq = Some d \/ putting (w s) = Some (seq, d))
    /\ readSeq (r s) + len unread = writeSeq (w s).
Proof.
  intros Hr Hl. destruct (run_inv l 0 [] [] [] start s wr rd inv_start ltac:(lia) Hr) as [hist Hi]. cbn [app] in Hi.
  destruct Hi as [Hc Hq Hp Hd Hlt Hrd Hk Hdel Hsz Hw Hg]. exists (zdrop (readSeq (r s)) hist). split_and!.
  - rewrite Hw, <- (ztake_zdrop (readSeq (r s)) hist) at 1. rewrite concat_app, Hg, <- !app_assoc. done.
  - intros i d Hi. cbn zeta. apply Hk; [lia|]. unfold zdrop in Hi. rewrite lookup_drop in Hi. rewrite <- Hi. f_equal. lia.
  - rewrite Hq, zlen_zdrop by lia. lia.
Qed.

(** ** Everything written can be read *)

(** The actions of the loops and of a reader, without a new write. *)
Definition internal (a : action) : bool :=
  match a with WriteChunk | SendTake | SendPut true true | RecvGet | RecvDeliver | ConnRead _ => true | _ => false end.

(** What is left to do; each of the actions below takes a part of it. *)
Definition some {A} (o : option A) : Z := match o with Some _ => 1 | None => 0 end.
Definition effort (s : state) : Z :=
  9 * len (pending (w s)) + 8 * len (dataOut (w s)) + 4 * some (putting (w s)) + 3 * (writeSeq (w s) - readSeq (r s))
  + 2 * some (held (r s)) + len (dataIn (r s)) + Z.min 1 (len (buf (r s))).

Definition drained (s : state) : Prop :=
  pending (w s) = [] /\ dataOut (w s) = [] /\ readSeq (r s) = writeSeq (w s) /\ held (r s) = None /\ dataIn (r s) = [] /\ buf (r s) = [].

Section Progress.
Context (n : Z) (hist : list (list Z)) (wr rd : list Z) (s : state) (Hn : n + 1 < 2 ^ 64) (Hinv : inv n hist wr rd s).

(** An action that takes a part of the effort. *)
Abbreviation advances := (exists a s1 wr1 rd1, internal a = true /\ step a s = Some (s1, wr1, rd1) /\ effort s1 < effort s /\ pending (w s) = wr1 ++ pending (w s1)).

Lemma read_advances : buf (r s) <> [] \/ dataIn (r s) <> [] -> advances.
Proof.
  intros Hb. destruct (buf (r s)) as [|x b] eqn:Eb.
  - destruct Hb as [|Hb]; [done|]. destruct (dataIn (r s)) as [|d q] eqn:Ei; [done|].
    exists (ConnRead (len d)). cbn [step]. rewrite (proj2 (Z.ltb_ge _ _)) by apply zlen_nonneg. unfold conn_read. rewrite Eb, Ei. cbn.
    do 3 eexists. split_and!; [done|reflexivity| |done]. unfold effort. cbn [r w with_r buf dataIn held readSeq]. rewrite zdrop_ge by lia. rewrite Eb, Ei, zlen_cons. change (len ([] ++ [])) with 0. change (len []) with 0. lia.
  - exists (ConnRead (len (x :: b))). cbn [step]. rewrite (proj2 (Z.ltb_ge _ _)) by apply zlen_nonneg. unfold conn_read. rewrite Eb.
    assert (H0 : 0 < len (x :: b)) by (rewrite zlen_cons; pose proof (zlen_nonneg b); lia). rewrite (proj2 (Z.ltb_lt _ _)) by done. cbn [mbind option_bind].
    do 3 eexists. split_and!; [done|reflexivity| |done]. unfold effort. cbn [r w with_r buf dataIn held readSeq]. rewrite zdrop_ge, Eb by lia. change (len []) with 0. lia.
Qed.

Lemma fetch_advances : dataIn (r s) = [] -> held (r s) <> None \/ putting (w s) <> None \/ readSeq (r s) <> writeSeq (w s) -> advances.
Proof.
  destruct Hinv as [Hc Hq Hp Hd Hl Hr Hk Hdel Hsz Hw Hg]. intros Hi Hh. destruct (held (r s)) as [d|] eqn:Eh.
  - exists RecvDeliver. cbn [step]. unfold recv_deliver. rewrite Eh, Hi. cbn. do 3 eexists. split_and!; [done|reflexivity| |done]. unfold effort. cbn. rewrite Eh, Hi. cbn. zlen_lia.
  - destruct (putting (w s)) as [[seq d]|] eqn:Ep.
    + exists (SendPut true true). cbn [step]. unfold send_put. rewrite Ep. cbn. do 3 eexists. split_and!; [done|reflexivity| |done]. unfold effort. cbn. rewrite Ep. cbn. zlen_lia.
    + destruct Hh as [|[|Hne]]; [done|done|]. destruct (lookup_lt_is_Some_2 hist (Z.to_nat (readSeq (r s)))) as [d Hx]; [unfold zlen in *; lia|].
      destruct (Hk (readSeq (r s)) d ltac:(lia) Hx) as [Hx'|[=]].
      exists RecvGet. cbn [step]. unfold recv_get. rewrite Eh, Hx'. cbn. do 3 eexists. split_and!; [done|reflexivity| |done]. unfold effort. cbn. rewrite Eh. cbn.
      unfold u64. rewrite Z.mod_small; pose proof (zlen_nonneg (dataOut (w s))); zlen_lia.
Qed.

Lemma send_advances : putting (w s) = None -> dataOut (w s) <> [] \/ pending (w s) <> [] -> advances.
Proof.
  destruct Hinv as [Hc Hq Hp Hd Hl Hr Hk Hdel Hsz Hw Hg]. intros Ep Hh. pose proof (zlen_nonneg hist). destruct (dataOut (w s)) as [|d q] eqn:Eo.
  - destruct Hh as [|Hh]; [done|]. exists WriteChunk. cbn [step]. unfold write_chunk. rewrite Eo.
    assert (H0 : 0 < len (pending (w s))) by (destruct (pending (w s)); [done|rewrite zlen_cons; pose proof (zlen_nonneg l); lia]).
    rewrite (proj2 (Z.ltb_lt _ _)) by done. change ((true && (len [] <? queue_cap))) with true. cbn [mbind option_bind]. set (e := if _ <? _ then _ else _).
    assert (He : 1 <= e <= len (pending (w s))) by (unfold e, maxChunkSize; split_ifs; lia).
    do 3 eexists. split_and!; [done|reflexivity| |cbn; symmetry; apply ztake_zdrop]. unfold effort. cbn. rewrite Eo, zlen_zdrop by lia. cbn. zlen_lia.
  - exists SendTake. cbn [step]. unfold send_take. rewrite Ep, Eo. cbn. do 3 eexists. split_and!; [done|reflexivity| |done]. unfold effort. cbn. rewrite Ep, Eo, zlen_cons. cbn.
    unfold u64. rewrite zlen_cons in Hc. pose proof (zlen_nonneg q). rewrite Z.mod_small; zlen_lia.
Qed.

Lemma progress : drained s \/ advances.
Proof.
  destruct (decide (buf (r s) = [])) as [Eb|]; [|right; apply read_advances; auto].
  destruct (decide (dataIn (r s) = [])) as [Ei|]; [|right; apply read_advances; auto].
  destruct (decide (held (r s) = None)) as [Eh|]; [|right; apply fetch_advances; auto].
  destruct (decide (putting (w s) = None)) as [Ep|]; [|right; apply fetch_advances; auto].
  destruct (decide (readSeq (r s) = writeSeq (w s))) as [Es|]; [|right; apply fetch_advances; auto].
  destruct (decide (dataOut (w s) = [])) as [Eo|]; [|right; apply send_advances; auto].
  destruct (decide (pending (w s) = [])) as [Epe|]; [|right; apply send_advances; auto]. left. done.
Qed.

Lemma effort_nonneg : 0 <= effort s.
Proof.
  destruct Hinv as [Hc Hq Hp Hd Hl Hr Hk Hdel Hsz Hw Hg]. unfold effort, some.
  pose proof (zlen_nonneg (pending (w s))). pose proof (zlen_nonneg (dataOut (w s))). pose proof (zlen_nonneg (dataIn (r s))). pose proof (zlen_nonneg (buf (r s))).
  destruct (putting (w s)), (held (r s)); lia.
Qed.
End Progress.

Lemma drains_from m n hist wr rd s : inv n hist wr rd s -> effort s <= Z.of_nat m -> n + Z.of_nat m + 1 < 2 ^ 64 ->
  exists l s' rd', Forall (fun a => internal a = true) l /\ run l s = Some (s', pending (w s), rd') /\ rd ++ rd' = wr ++ pending (w s).
Proof.
  revert n hist wr rd s. induction m as [|m IH]; intros n hist wr rd s Hi He Hn.
  all: destruct (progress n hist wr rd s) as [Hd|(a & s1 & wr1 & rd1 & Ha & Hs & Hlt & Hpe)]; [lia|done| |].
  1,3: destruct Hd as (Hd1 & Hd2 & Hd3 & Hd4 & Hd5 & Hd6); destruct Hi as [Hc Hq _ _ _ Hr _ _ _ Hw Hg];
    exists [], s, []; rewrite Hd1; split_and!; [constructor|done|]; rewrite !app_nil_r, Hw, Hd2; cbn; rewrite app_nil_r;
    rewrite Hd4, Hd5, Hd6 in Hg; cbn in Hg; rewrite app_nil_r in Hg; rewrite <- Hg, ztake_ge by lia; done.
  - destruct (step_inv n hist wr rd s s1 wr1 rd1 ltac:(lia) Hi a Hs) as [k Hi1]. pose proof (effort_nonneg _ _ _ _ _ Hi1). lia.
  - destruct (step_inv n hist wr rd s s1 wr1 rd1 ltac:(lia) Hi a Hs) as [k Hi1].
    destruct (IH (n + 1) _ _ _ s1 Hi1 ltac:(lia) ltac:(lia)) as (l & s' & rd' & Hl & Hr & Heq).
    exists (a :: l), s', (rd1 ++ rd'). split_and!; [constructor; done| |rewrite app_assoc, Heq, <- app_assoc, Hpe; done].
    cbn [run]. rewrite Hs. cbn [mbind option_bind]. rewrite Hr. cbn [mbind option_bind]. rewrite Hpe. done.
Qed.

(** Nothing blocks the transport for good: as long as neither end is stopped,
    the loops and a reader, with no further write and requests that are served, can go
    on from any state they reached until all that was written, and all that the caller
    of Write still holds, has been read. *)
Theorem yadisk_drains l s wr rd : run l start = Some (s, wr, rd) -> Z.of_nat (length l) + Z.max 0 (effort s) + 1 < 2 ^ 64 ->
  w_stopped (w s) = false -> r_stopped (r s) = false ->
  exists l' s' rd', Forall (fun a => internal a = true) l' /\ run l' s = Some (s', pending (w s), rd') /\ rd ++ rd' = wr ++ pending (w s).
Proof.
  intros Hr Hl _ _. destruct (run_inv l 0 [] [] [] start s wr rd inv_start ltac:(lia) Hr) as [hist Hi].
  apply (drains_from (Z.to_nat (Z.max 0 (effort s))) _ _ _ _ _ Hi); lia.
Qed.

Module DiskWitnesses.

(** A put whose answer is lost, so that it is repeated after the file was read. *)
Definition actions : list action :=
  [WriteBegin [1; 2; 3]; WriteChunk; SendTake; SendPut false true; RecvGet; SendPut true true; RecvDelete 0 true; LatePut 0; RecvDeliver; ConnRead 2].
Definition after : state := match run actions start with Some (s, _, _) => s | None => start end.
Definition written : list Z := match run actions start with Some (_, wr, _) => wr | None => [] end.
Definition got : list Z := match run actions start with Some (_, _, rd) => rd | None => [] end.

Lemma yadisk_fifo_witness : exists unread, written = got ++ buf (r after) ++ concat (dataIn (r after)) ++ opt_list (held (r after)) ++ concat unread ++ concat (dataOut (w after)).
Proof.
  destruct (yadisk_fifo actions after written got) as (unread & Hu & _); [vm_compute; reflexivity|vm_compute; reflexivity|]. exists unread. exact Hu.
Defined.

Lemma yadisk_drains_witness : exists l' s' rd', run l' after = Some (s', pending (w after), rd') /\ got ++ rd' = written ++ pending (w after).
Proof.
  destruct (yadisk_drains actions after written got) as (l' & s' & rd' & _ & Hr & He); [vm_compute; reflexivity|vm_compute; reflexivity|vm_compute; reflexivity|vm_compute; reflexivity|].
  exists l', s', rd'. split; [exact Hr|exact He].
Defined.

Definition with_new_writer (s : state) : state := mkState new_writer (disk s) (late s) (r s).
Definition with_new_reader (s : state) : state := mkState (w s) (disk s) (late s) new_reader.

(** A writer that starts again with the same session numbers its files from 0,
    where the reader no longer looks. *)
Lemma restarted_writer_unread :
  match run [WriteBegin [9]; WriteChunk; SendTake; SendPut true true] (with_new_writer after) with
  | Some (s, _, _) => disk s !! 0 = Some [9] /\ step RecvGet s = None
  | None => False
  end.
Proof. vm_compute. done. Qed.

(** A reader that starts again reads what is left of the session before. *)
Lemma restarted_reader_rereads :
  match run [RecvGet; RecvDeliver; ConnRead 9] (with_new_reader after) with Some (_, _, rd) => rd = [1; 2; 3] | None => False end.
Proof. vm_compute. done. Qed.

End DiskWitnesses.
