(* ===== verification/DnsResolver.v ===== *)
(** The DNS resolver of the client, common/dns/resolver.go and dns_upstream.go: the
    cache, the sharing of queries between callers, the choice of the upstream with
    its fallback, and the exchange over a stream.

    HTTPS, QUIC and the resolver of the system are the operations of [Network].
    Callers that run at the same time are the calls of a [world], which take turns
    as the actions of [step]. *)

From S2P Require Import Prelude GoIO GoStr NetIP Cache Dns.

Module DnsResolver.
Import Dns.

Inductive lane_error :=
  | DnsErr (e : dns_error) | NetErr (e : error) | BadLength (n : Z) | OtherLane (code : Z) | Cancelled | Blocked.
Abbreviation answer := (lane_error + list IP)%type.

Definition DefaultCacheSize : Z := 10000.
Definition DefaultCacheTTL : Z := 300 * 1000000000.

(** ** The exchange over a stream *)

(** The query of [resolveTCPDNS]; [rand] is what the random source gives. *)
Definition stream_query (rand : option (Z * Z)) (domain : string) (c : Conn) (qtype : Z) : run (Conn * answer) :=
  let '(msg, qID) := buildDNSMsg rand domain qtype in
  let c := (Conn_Write c [u8 (Z.shiftr (len msg) 8); u8 (len msg)]).1 in
  let c := (Conn_Write c msg).1 in
  match ReadFull c 2 with
  | (c, inr e) => Ret (c, inl (NetErr e))
  | (c, inl lenBuf) =>
      let respLen := get16 lenBuf in
      if (respLen <? 12) || (65535 <? respLen) then Ret (c, inl (BadLength respLen))
      else match ReadFull c respLen with
           | (c, inr e) => Ret (c, inl (NetErr e))
           | (c, inl resp) =>
               let* res := parseDNSResponse resp qID in
               Ret (c, match res with inl e => inl (DnsErr e) | inr ips => inr ips end)
           end
  end.

(** [resolveTCPDNS] on the connection that was dialled: both queries, one after the
    other. *)
Definition resolveTCPDNS (rand4 rand6 : option (Z * Z)) (domain : string) (c : Conn) : run (Conn * answer) :=
  let* r4 := stream_query rand4 domain c dnsTypeA in
  let* r6 := stream_query rand6 domain r4.1 dnsTypeAAAA in
  Ret (Conn_Close r6.1, mergeDualStack (fun t => if t =? dnsTypeA then r4.2 else r6.2)).

(** ** Upstreams *)

Class Network := {
  resolveDoH : string -> string -> answer;
  resolveDoT : string -> string -> answer;
  resolveDoQ : string -> string -> answer;
  resolveTCP : string -> string -> answer;
  resolveSystem : string -> answer;
  lookupUDP : string -> string -> answer
}.

Definition dohFallbackFor (upstream : string) : string :=
  let host := string_of_bytes (default [] (head (split_all 58 (bytes_of_string (TrimSuffix upstream ":53"))))) in
  if bool_decide (host ∈ ["8.8.8.8"; "8.8.4.4"; "dns.google"]) then "https://dns.google/dns-query"
  else if bool_decide (host ∈ ["9.9.9.9"; "149.112.112.112"]) then "https://dns.quad9.net/dns-query"
  else if bool_decide (host ∈ ["94.140.14.14"; "94.140.15.15"]) then "https://dns.adguard.com/dns-query"
  else "https://1.1.1.1/dns-query".

Definition splitHostPortDefault (upstream defaultPort : string) : string * string :=
  match SplitHostPort upstream with
  | Some (h, _) => (h, upstream)
  | None => (upstream, String.append upstream (String.append ":" defaultPort))
  end.

Section Upstream.
Context `{Network} `{UnicodeFold}.

Definition withDoHFallback (host domain : string) (a : answer) : answer :=
  match a with
  | inr ips => inr ips
  | inl e => match resolveDoH (dohFallbackFor host) domain with inr ips => inr ips | inl _ => inl e end
  end.

(** [dial] is whether a dial function is set. *)
Definition resolveUpstream (dial : bool) (upstream domain : string) : answer :=
  if HasPrefix upstream "https://" then resolveDoH upstream domain
  else if HasPrefix upstream "tls://" then
    let host := TrimPrefix upstream "tls://" in withDoHFallback host domain (resolveDoT host domain)
  else if HasPrefix upstream "quic://" then
    let host := TrimPrefix upstream "quic://" in withDoHFallback host domain (resolveDoQ host domain)
  else if bool_decide (upstream = "") || EqualFold upstream "system" then resolveSystem domain
  else if dial then withDoHFallback upstream domain (resolveTCP upstream domain)
  else match lookupUDP upstream domain with
       | inr ips => inr ips
       | inl _ => resolveDoH (dohFallbackFor upstream) domain
       end.
End Upstream.

(** ** The resolver *)

Section Resolver.
Context {L : Cache.LruOps} `{UnicodeFold}.

Record Config := mkConfig { CacheEnabled : bool; CacheSize : Z; CacheTTL : Z; BlockingEnabled : bool }.
Definition Validate (c : Config) : Config :=
  mkConfig (CacheEnabled c) (if CacheSize c <=? 0 then DefaultCacheSize else CacheSize c) (if CacheTTL c <=? 0 then DefaultCacheTTL else CacheTTL c) (BlockingEnabled c).

(** A query others can wait for: its answer and whether [done] is closed. *)
Record pend := mkPend { ans : option answer; closed : bool }.

Record Resolver := mkResolver {
  config : Config; Upstream : string; cache : Cache.LRUCache (list IP); inflight : gmap string nat; pends : list pend; blockList : gset string;
  queries : Z; cacheHits : Z; cacheMisses : Z; blocked : Z; errors : Z
}.

Definition New (cfg : Config) (upstream : string) : Resolver :=
  let cfg := Validate cfg in mkResolver cfg upstream (Cache.NewLRUCache (CacheSize cfg)) ∅ [] ∅ 0 0 0 0 0.

Definition with_cache (r : Resolver) (m : Cache.LRUCache (list IP)) (hit : bool) : Resolver :=
  mkResolver (config r) (Upstream r) m (inflight r) (pends r) (blockList r) (queries r) (if hit then u64 (cacheHits r + 1) else cacheHits r)
    (if hit then cacheMisses r else u64 (cacheMisses r + 1)) (blocked r) (errors r).
Definition with_flight (r : Resolver) (m : Cache.LRUCache (list IP)) (f : gmap string nat) (p : list pend) : Resolver :=
  mkResolver (config r) (Upstream r) m f p (blockList r) (queries r) (cacheHits r) (cacheMisses r) (blocked r) (errors r).
Definition count_query (r : Resolver) (isblocked : bool) : Resolver :=
  mkResolver (config r) (Upstream r) (cache r) (inflight r) (pends r) (blockList r) (u64 (queries r + 1)) (cacheHits r) (cacheMisses r)
    (if isblocked then u64 (blocked r + 1) else blocked r) (errors r).
Definition count_error (r : Resolver) : Resolver :=
  mkResolver (config r) (Upstream r) (cache r) (inflight r) (pends r) (blockList r) (queries r) (cacheHits r) (cacheMisses r) (blocked r) (u64 (errors r + 1)).

(** What follows each dot of a name. *)
Fixpoint after_dots (l : list Z) : list (list Z) :=
  match l with [] => [] | x :: l => if x =? 46 then l :: after_dots l else after_dots l end.
Definition isBlocked (r : Resolver) (domain : string) : bool :=
  BlockingEnabled (config r)
  && (bool_decide (domain ∈ blockList r) || existsb (fun s => bool_decide (string_of_bytes s ∈ blockList r)) (after_dots (bytes_of_string domain))).

(** What a call is at: it has its answer, it waits for the query of another, it
    makes the query itself, it stored the answer, or it took the query out of flight
    and has yet to announce the answer. *)
Inductive call := Finished (a : answer) | Waiting (p : nat) | Asking (p : nat) | Storing (p : nat) (a : answer) | Closing (p : nat) (a : answer).

(** [resolveShared] up to the query or the waiting. *)
Definition shared_enter (domain : string) (r : Resolver) : Resolver * call :=
  match inflight r !! domain with
  | Some p => (r, Waiting p)
  | None => (with_flight r (cache r) (<[domain := length (pends r)]> (inflight r)) (pends r ++ [mkPend None false]), Asking (length (pends r)))
  end.
(** The answer of the upstream is stored, and cached when there is one. *)
Definition shared_store (now : Z) (domain : string) (p : nat) (a : answer) (r : Resolver) : Resolver :=
  let m := match a with
           | inr ips => if CacheEnabled (config r) && (0 <? len ips) then Cache.Set_ now domain ips (CacheTTL (config r)) (cache r) else cache r
           | inl _ => cache r
           end in
  with_flight r m (inflight r) (alter (fun _ => mkPend (Some a) false) p (pends r)).
(** The query is no longer in flight. *)
Definition shared_remove (domain : string) (r : Resolver) : Resolver := with_flight r (cache r) (delete domain (inflight r)) (pends r).
(** Those who wait go on. *)
Definition shared_close (p : nat) (r : Resolver) : Resolver := with_flight r (cache r) (inflight r) (alter (fun x => mkPend (ans x) true) p (pends r)).
(** What one who waits gets. *)
Definition shared_wait (p : nat) (r : Resolver) : option answer :=
  match pends r !! p with Some x => if closed x then ans x else None | None => None end.

(** [Resolve] up to the query or the waiting; [bypass] is the answer of the bypass
    resolver, if the name is for it. *)
Definition Resolve (now : Z) (bypass : option answer) (domain : string) (r : Resolver) : Resolver * call :=
  match ParseIP domain with
  | Some ip => (r, Finished (inr [ip]))
  | None =>
      if isBlocked r domain then (count_query r true, Finished (inl Blocked))
      else
        let r := count_query r false in
        match bypass with
        | Some a => (r, Finished a)
        | None =>
            if CacheEnabled (config r) then
              let '(ips, m) := Cache.Get [] now domain (cache r) in
              if negb (len ips =? 0) then (with_cache r m true, Finished (inr ips)) else shared_enter domain (with_cache r m false)
            else shared_enter domain r
        end
  end.
Definition ResolveUpstream (now : Z) (domain : string) (r : Resolver) : Resolver * call :=
  match ParseIP domain with
  | Some ip => (r, Finished (inr [ip]))
  | None =>
      if CacheEnabled (config r) then
        let '(ips, m) := Cache.Get [] now domain (cache r) in
        let r := with_flight r m (inflight r) (pends r) in
        if negb (len ips =? 0) then (r, Finished (inr ips)) else shared_enter domain r
      else shared_enter domain r
  end.
Definition ResolveCached (now : Z) (domain : string) (r : Resolver) : Resolver * option (list IP) :=
  match ParseIP domain with
  | Some ip => (r, Some [ip])
  | None =>
      if negb (CacheEnabled (config r)) then (r, None)
      else let '(ips, m) := Cache.Get [] now domain (cache r) in
           (with_flight r m (inflight r) (pends r), if 0 <? len ips then Some ips else None)
  end.

Definition SetUpstream (upstream : string) (r : Resolver) : Resolver :=
  let upstream := if EqualFold upstream "system" then "" else upstream in
  mkResolver (config r) upstream (Cache.Clear (cache r)) (inflight r) (pends r) (blockList r) (queries r) (cacheHits r) (cacheMisses r) (blocked r) (errors r).

(** ** Callers *)

(** The calls with their names, and whether they count errors. *)
Record world := mkWorld { res : Resolver; calls : gmap nat (string * bool * call) }.
Inductive action :=
  | Start (id : nat) (counts : bool) (now : Z) (bypass : option answer) (domain : string)
  | Answered (id : nat) (now : Z) (a : answer) | Remove (id : nat) | Announce (id : nat) | Wake (id : nat) | Cancel (id : nat) | Switch (upstream : string).

(** A call that is over counts its error. *)
Definition finish (id : nat) (domain : string) (counts : bool) (a : answer) (r : Resolver) (w : world) : world :=
  mkWorld (match a with inl _ => if counts then count_error r else r | inr _ => r end) (<[id := (domain, counts, Finished a)]> (calls w)).

(** The answers of the upstream and of the bypass resolver are logged with the name
    they are for. *)
Definition step (a : action) (w : world) : option (world * list (string * answer)) :=
  match a with
  | Start id counts now bypass domain =>
      match calls w !! id with
      | Some _ => None
      | None =>
          let '(r, c) := if counts then Resolve now bypass domain (res w) else ResolveUpstream now domain (res w) in
          Some (mkWorld r (<[id := (domain, counts, c)]> (calls w)), match bypass with Some a => [(domain, a)] | None => [] end)
      end
  | Answered id now a =>
      match calls w !! id with
      | Some (domain, counts, Asking p) =>
          Some (mkWorld (shared_store now domain p a (res w)) (<[id := (domain, counts, Storing p a)]> (calls w)), [(domain, a)])
      | _ => None
      end
  | Remove id =>
      match calls w !! id with
      | Some (domain, counts, Storing p a) => Some (mkWorld (shared_remove domain (res w)) (<[id := (domain, counts, Closing p a)]> (calls w)), [])
      | _ => None
      end
  | Announce id =>
      match calls w !! id with
      | Some (domain, counts, Closing p a) => Some (finish id domain counts a (shared_close p (res w)) w, [])
      | _ => None
      end
  | Wake id =>
      match calls w !! id with
      | Some (domain, counts, Waiting p) => a ← shared_wait p (res w); Some (finish id domain counts a (res w) w, [])
      | _ => None
      end
  | Cancel id =>
      match calls w !! id with
      | Some (domain, counts, Waiting p) => Some (finish id domain counts (inl Cancelled) (res w) w, [])
      | _ => None
      end
  | Switch upstream => Some (mkWorld (SetUpstream upstream (res w)) (calls w), [])
  end.

Fixpoint run_actions (l : list action) (w : world) : option (world * list (string * answer)) :=
  match l with
  | [] => Some (w, [])
  | a :: l =>
      '(w, log) ← step a w;
      '(w, log') ← run_actions l w;
      Some (w, log ++ log')
  end.

End Resolver.
End DnsResolver.
