(* ===== verification/DnsResolverFacts.v ===== *)
(** Facts about the resolver: one query per name at a time, whose answer everyone
    who waits gets, answers that come from the upstream only, and the exchange over
    a stream. *)

From S2P Require Import Prelude GoIO GoStr NetIP Cache Dns DnsResolver.
Import DnsResolver.

Section Facts.
Context {L : Cache.LruOps} {LL : Cache.LruLaws L} `{UnicodeFold}.

Definition owns (c : call) (p : nat) : Prop := match c with Asking q | Storing q _ | Closing q _ => q = p | _ => False end.

(** The query is in flight. *)
Definition asks (c : call) (p : nat) : Prop := match c with Asking q | Storing q _ => q = p | _ => False end.
Lemma asks_owns c p : asks c p -> owns c p.
Proof. destruct c; cbn; auto. done. Qed.

(** Entries of the cache are logged answers. *)
Definition cache_logged (log : list (string * answer)) (m : Cache.LRUCache (list IP)) : Prop :=
  Cache.cache_ok m /\ forall d e, Cache.entry_of m d = Some e -> (d, inr (Cache.value e)) ∈ log.

(** What is known of a call for [d]. *)
Definition call_ok (log : list (string * answer)) (r : Resolver) (d : string) (c : call) : Prop :=
  match c with
  | Finished a => match a with inr ips => (exists ip, ParseIP d = Some ip /\ ips = [ip]) \/ (d, a) ∈ log | inl _ => True end
  | Waiting p => exists x, pends r !! p = Some x /\ ((exists a, ans x = Some a /\ (d, a) ∈ log) \/ (closed x = false /\ inflight r !! d = Some p))
  | Asking p => inflight r !! d = Some p /\ pends r !! p = Some (mkPend None false)
  | Storing p a => inflight r !! d = Some p /\ pends r !! p = Some (mkPend (Some a) false) /\ (d, a) ∈ log
  | Closing p a => pends r !! p = Some (mkPend (Some a) false) /\ (d, a) ∈ log
  end.

Record winv (log : list (string * answer)) (w : world) : Prop := mkWinv {
  wi_cache : cache_logged log (cache (res w));
  wi_calls : forall id d counts c, calls w !! id = Some (d, counts, c) -> call_ok log (res w) d c;
  wi_owner : forall d p, inflight (res w) !! d = Some p -> exists id counts c, calls w !! id = Some (d, counts, c) /\ asks c p;
  wi_live : forall p x, pends (res w) !! p = Some x -> closed x = false -> exists id d counts c, calls w !! id = Some (d, counts, c) /\ owns c p;
  wi_unique : forall id id' d d' counts counts' c c' p, calls w !! id = Some (d, counts, c) -> calls w !! id' = Some (d', counts', c') -> owns c p -> owns c' p -> id = id'
}.

Lemma call_ok_more log log' r d c : call_ok log r d c -> call_ok (log ++ log') r d c.
Proof.
  destruct c as [[e|ips]|p|p|p a|p a]; cbn; auto.
  - intros [?|?]; [auto|]. right. apply elem_of_app. auto.
  - intros (x & Hx & [(a & Ha & Hl)|Hc]); exists x; (split; [done|]); [left|auto]. exists a. split; [done|]. apply elem_of_app. auto.
  - intros (H1 & H2 & H3). split_and!; [done..|]. apply elem_of_app. auto.
  - intros (H1 & H2). split_and!; [done..|]. apply elem_of_app. auto.
Qed.

Lemma cache_logged_more log log' m : cache_logged log m -> cache_logged (log ++ log') m.
Proof. intros [Hc He]. split; [done|]. intros d e Hd. apply elem_of_app. left. auto. Qed.

(** ** The cache *)

Lemma entry_Get now k (m : Cache.LRUCache (list IP)) d e : Cache.entry_of (Cache.Get [] now k m).2 d = Some e -> Cache.entry_of m d = Some e.
Proof.
  unfold Cache.Get, Cache.entry_of. destruct (Cache.lru_Get_map k (Cache.c m)) as [E1 E2]. destruct (Cache.lru_Get k (Cache.c m)) as [q c']. cbn [fst snd] in *.
  destruct (Cache.deref m q) as [e'|]; [destruct (Cache.expired now e')|]; cbn; unfold Cache.deref; cbn; rewrite ?Cache.lru_Remove_map, ?E2; try done.
  destruct (decide (d = k)) as [->|Hne]; [rewrite lookup_delete_eq; done|]. rewrite lookup_delete_ne by done. done.
Qed.

Lemma cache_Get log now k m : cache_logged log m ->
  cache_logged log (Cache.Get [] now k m).2 /\ ((Cache.Get [] now k m).1 = [] \/ (k, inr ((Cache.Get [] now k m).1)) ∈ log).
Proof.
  intros [Hc He]. destruct (Cache.Get_spec [] now k m Hc) as (Hv & Hc' & _). split; [split; [done|]; intros d e Hd; apply He, (entry_Get now k); done|].
  rewrite Hv. unfold Cache.view. destruct (Cache.entry_of m k) as [e|] eqn:E; [|auto]. destruct (Cache.expired now e); auto.
Qed.

Lemma cache_Set log now k ips ttl m : cache_logged log m -> (k, inr ips) ∈ log -> cache_logged log (Cache.Set_ now k ips ttl m).
Proof.
  intros [Hc He] Hl. unfold Cache.Set_. split; [apply Cache.add_entry_ok; done|]. intros d e Hd. destruct (decide (d = k)) as [->|Hne].
  - rewrite Cache.add_entry_entry in Hd by done. injection Hd as <-. done.
  - destruct (Cache.add_entry_other k (Cache.mkLruEntry ips 0 (if 0 <? ttl then Some (now + ttl) else None)) m d Hc Hne) as [E|E]; rewrite E in Hd; [auto|done].
Qed.

Lemma cache_Clear log m : cache_logged log m -> cache_logged log (Cache.Clear m).
Proof.
  intros [(Hc1 & Hc2 & Hc3) He]. unfold Cache.Clear, cache_logged, Cache.cache_ok, Cache.entry_of, Cache.deref. cbn. rewrite Cache.lru_Purge_map, Cache.lru_Purge_cap.
  split_and!; [done|intros *; rewrite lookup_empty; done..].
Qed.

(** ** Steps *)

(** A resolver that differs in its cache and its counters only. *)
Definition same_flight (r r' : Resolver) : Prop := inflight r' = inflight r /\ pends r' = pends r.

Lemma call_ok_same log r r' d c : same_flight r r' -> call_ok log r d c -> call_ok log r' d c.
Proof. intros [Hi Hp]. unfold call_ok. rewrite Hi, Hp. done. Qed.

(** A new call leaves the owners what they are. *)
Lemma live_insert (m : gmap nat (string * bool * call)) id v (P : call -> Prop) : m !! id = None ->
  (exists i d k c, m !! i = Some (d, k, c) /\ P c) -> exists i d k c, <[id := v]> m !! i = Some (d, k, c) /\ P c.
Proof. intros Hid (i & d & k & c & Hi & Hc). exists i, d, k, c. rewrite lookup_insert_ne by congruence. done. Qed.

(** Starting a call that is answered or waits, or that begins a query. *)
Lemma winv_enter log w id d counts r c : winv log w -> calls w !! id = None -> same_flight (res w) r -> cache_logged log (cache r) ->
  (exists a, c = Finished a) -> call_ok log r d c -> winv log (mkWorld r (<[id := (d, counts, c)]> (calls w))).
Proof.
  intros [Hca Hcs Ho Hlv Hu] Hid Hs Hcache [a ->] Hok. split; cbn.
  - done.
  - intros id' d' counts' c' [[-> [= <- <- <-]]|[_ Hc]]%lookup_insert_Some; [done|]. eapply call_ok_same; eauto.
  - intros d' p Hf. rewrite (proj1 Hs) in Hf. destruct (Ho d' p Hf) as (i & k & c' & Hi & Hw). exists i, k, c'. split; [|done]. rewrite lookup_insert_ne by congruence. done.
  - intros p x Hp Hx. rewrite (proj2 Hs) in Hp. apply live_insert; eauto.
  - intros i i' d1 d2 k1 k2 c1 c2 p [[<- [= <- <- <-]]|[_ H1]]%lookup_insert_Some [[<- [= <- <- <-]]|[_ H2]]%lookup_insert_Some; cbn; try done. eauto.
Qed.

Lemma winv_shared log w id d counts r : winv log w -> calls w !! id = None -> same_flight (res w) r -> cache_logged log (cache r) ->
  let '(r', c) := shared_enter d r in winv log (mkWorld r' (<[id := (d, counts, c)]> (calls w))).
Proof.
  intros [Hca Hcs Ho Hlv Hu] Hid Hs Hcache. unfold shared_enter. destruct Hs as [Hsi Hsp]. destruct (inflight r !! d) as [p|] eqn:Ef.
  - rewrite Hsi in Ef. destruct (Ho d p Ef) as (i & k & c & Hi & Hw). pose proof (Hcs i d k c Hi) as Hc.
    assert (Hx : exists x, pends (res w) !! p = Some x /\ closed x = false) by (destruct c; cbn in Hw, Hc; try done; subst; [exists (mkPend None false)|exists (mkPend (Some a) false)]; tauto).
    split; cbn; [done| | | |].
    + intros id' d' counts' c' [[-> [= <- <- <-]]|[_ Hc']]%lookup_insert_Some; [|eapply call_ok_same; [split; done|]; eauto].
      cbn. rewrite Hsi, Hsp. destruct Hx as (x & Hx & Hxc). exists x. auto.
    + intros d' q Hf. rewrite Hsi in Hf. destruct (Ho d' q Hf) as (i' & k' & c' & Hi' & Hw'). exists i', k', c'. split; [|done]. rewrite lookup_insert_ne by congruence. done.
    + intros q y Hq Hxo. rewrite Hsp in Hq. apply live_insert; eauto.
    + intros i1 i2 d1 d2 k1 k2 c1 c2 q [[<- [= <- <- <-]]|[_ H1]]%lookup_insert_Some [[<- [= <- <- <-]]|[_ H2]]%lookup_insert_Some; cbn; try done. eauto.
  - set (n := length (pends r)). assert (Hold : forall i d' k c p, calls w !! i = Some (d', k, c) -> owns c p -> (p < n)%nat).
    { intros i d' k c p Hi Hw. pose proof (Hcs i d' k c Hi) as Hc. unfold n. rewrite Hsp. destruct c; cbn in Hw, Hc; try done; subst.
      - destruct Hc as [_ Hc]. apply lookup_lt_Some in Hc. done.
      - destruct Hc as (_ & Hc & _). apply lookup_lt_Some in Hc. done.
      - destruct Hc as (Hc & _). apply lookup_lt_Some in Hc. done. }
    rewrite Hsi in Ef. split; cbn; [done| | | |].
    + intros id' d' counts' c' [[-> [= <- <- <-]]|[_ Hc']]%lookup_insert_Some.
      * cbn. rewrite lookup_insert_eq. split; [done|]. apply list_lookup_middle. done.
      * pose proof (Hcs id' d' counts' c' Hc') as Hc. rewrite Hsi, Hsp. destruct c' as [a|p|p|p a|p a]; cbn in *; rewrite ?Hsi, ?Hsp; [done|..].
        -- destruct Hc as (x & Hx & Hd). exists x. split; [apply lookup_app_l_Some; done|]. destruct Hd as [|[? Hd]]; [auto|]. right. split; [done|]. rewrite lookup_insert_ne; [done|congruence].
        -- destruct Hc as [H1 H2]. rewrite lookup_insert_ne by congruence. split; [done|]. apply lookup_app_l_Some. done.
        -- destruct Hc as (H1 & H2 & H3). rewrite lookup_insert_ne by congruence. split_and!; [done| |done]. apply lookup_app_l_Some. done.
        -- destruct Hc as (H1 & H2). split_and!; [|done]. apply lookup_app_l_Some. done.
    + intros d' q [[<- <-]|[Hne Hf]]%lookup_insert_Some; [exists id, counts, (Asking n); rewrite lookup_insert_eq; done|].
      rewrite Hsi in Hf. destruct (Ho d' q Hf) as (i' & k' & c' & Hi' & Hw'). exists i', k', c'. split; [|done]. rewrite lookup_insert_ne by congruence. done.
    + intros q x [Hq|[Hq [Hq0 <-]%list_lookup_singleton_Some]]%lookup_app_Some Hx; [rewrite Hsp in Hq; apply live_insert; eauto|].
      exists id, d, counts, (Asking n). rewrite lookup_insert_eq. split; [done|]. cbn. unfold n in *. lia.
    + intros i1 i2 d1 d2 k1 k2 c1 c2 q [[<- [= <- <- <-]]|[_ H1]]%lookup_insert_Some [[<- [= <- <- <-]]|[_ H2]]%lookup_insert_Some; cbn; try done; [intros <- Hw|intros Hw <-|eauto];
        exfalso; [pose proof (Hold _ _ _ _ _ H2 Hw)|pose proof (Hold _ _ _ _ _ H1 Hw)]; lia.
Qed.

Lemma winv_more log log' w : winv log w -> winv (log ++ log') w.
Proof. intros [Hca Hcs Ho Hlv Hu]. split; auto using cache_logged_more. intros. apply call_ok_more. eauto. Qed.

Lemma len_nonempty {A} (l : list A) : negb (len l =? 0) = true -> l <> [].
Proof. intros Hl ->. done. Qed.

Lemma resolve_winv log w id now bypass d : winv log w -> calls w !! id = None -> (forall a, bypass = Some a -> (d, a) ∈ log) ->
  let '(r, c) := Resolve now bypass d (res w) in winv log (mkWorld r (<[id := (d, true, c)]> (calls w))).
Proof.
  intros Hi Hid Hb. pose proof (wi_cache _ _ Hi) as Hca. unfold Resolve. destruct (ParseIP d) as [ip|] eqn:Ep; [apply (winv_enter log w); eauto; [done|cbn; eauto]|].
  destruct (isBlocked (res w) d); [apply (winv_enter log w); eauto; done|]. destruct bypass as [a|].
  - apply (winv_enter log w); eauto; [done|]. cbn. destruct a; [done|]. right. auto.
  - change (config (count_query (res w) false)) with (config (res w)). change (cache (count_query (res w) false)) with (cache (res w)).
    destruct (CacheEnabled (config (res w))); [|apply winv_shared; done]. destruct (cache_Get log now d (cache (res w)) Hca) as [Hc1 Hc2].
    destruct (Cache.Get [] now d (cache (res w))) as [ips m]. cbn [fst snd] in *. destruct (negb (len ips =? 0)) eqn:En; [|apply winv_shared; done].
    apply (winv_enter log w); eauto; [done|]. cbn. right. destruct Hc2 as [->|]; done.
Qed.

Lemma resolveUpstream_winv log w id now d : winv log w -> calls w !! id = None ->
  let '(r, c) := ResolveUpstream now d (res w) in winv log (mkWorld r (<[id := (d, false, c)]> (calls w))).
Proof.
  intros Hi Hid. pose proof (wi_cache _ _ Hi) as Hca. unfold ResolveUpstream. destruct (ParseIP d) as [ip|] eqn:Ep; [apply (winv_enter log w); eauto; [done|cbn; eauto]|].
  destruct (CacheEnabled (config (res w))); [|apply winv_shared; done]. destruct (cache_Get log now d (cache (res w)) Hca) as [Hc1 Hc2].
  destruct (Cache.Get [] now d (cache (res w))) as [ips m]. cbn [fst snd] in *. destruct (negb (len ips =? 0)) eqn:En; [|apply winv_shared; done].
  apply (winv_enter log w); eauto; [done|]. cbn. right. destruct Hc2 as [->|]; done.
Qed.

(** The call [id] is over. *)
Lemma finish_winv log w id d counts c0 a r : winv log w -> calls w !! id = Some (d, counts, c0) -> cache_logged log (cache r) ->
  (forall id' d' k c, id' <> id -> calls w !! id' = Some (d', k, c) -> call_ok log r d' c) ->
  inflight r = inflight (res w) -> (forall p, ~ asks c0 p) ->
  (forall p x, pends r !! p = Some x -> closed x = false -> pends (res w) !! p = Some x /\ ~ owns c0 p) ->
  (match a with inr ips => (exists ip, ParseIP d = Some ip /\ ips = [ip]) \/ (d, a) ∈ log | inl _ => True end) ->
  winv log (finish id d counts a r w).
Proof.
  intros [Hca Hcs Ho Hlv Hu] Hid Hcache Hok Hf Hna Hlv' Ha. unfold finish. set (r' := match a with inl _ => _ | inr _ => _ end).
  assert (Hs : same_flight r r' /\ cache r' = cache r) by (unfold r'; destruct a, counts; done). destruct Hs as [[Hsi Hsp] Hsc]. split; cbn.
  - rewrite Hsc. done.
  - intros id' d' k c [[-> [= <- <- <-]]|[Hne Hc]]%lookup_insert_Some; [destruct a; done|]. eapply call_ok_same; [split; done|]. eauto.
  - intros d' p Hp. rewrite Hsi, Hf in Hp. destruct (Ho d' p Hp) as (i & k & c & Hi & Hw). exists i, k, c. split; [|done].
    rewrite lookup_insert_ne; [done|]. intros <-. rewrite Hid in Hi. injection Hi as <- <- <-. exact (Hna p Hw).
  - intros p x Hp Hx. rewrite Hsp in Hp. destruct (Hlv' p x Hp Hx) as [Hp' Hno]. destruct (Hlv p x Hp' Hx) as (i & d' & k & c & Hi & Hw). exists i, d', k, c. split; [|done].
    rewrite lookup_insert_ne; [done|]. intros <-. rewrite Hid in Hi. injection Hi as <- <- <-. done.
  - intros i1 i2 d1 d2 k1 k2 c1 c2 q [[<- [= <- <- <-]]|[_ H1]]%lookup_insert_Some [[<- [= <- <- <-]]|[_ H2]]%lookup_insert_Some; cbn; try done. eauto.
Qed.

(** The owner [id] of a query goes from one phase to the next. *)
Lemma advance_winv log w id d counts c0 c r : winv log w -> calls w !! id = Some (d, counts, c0) -> (forall p, owns c p <-> owns c0 p) ->
  cache_logged log (cache r) -> call_ok log r d c ->
  (forall id' d' k c', id' <> id -> calls w !! id' = Some (d', k, c') -> call_ok log r d' c') ->
  (forall d' p, inflight r !! d' = Some p -> inflight (res w) !! d' = Some p /\ (asks c0 p -> asks c p)) ->
  (forall p x, pends r !! p = Some x -> closed x = false -> exists y, pends (res w) !! p = Some y /\ closed y = false) ->
  winv log (mkWorld r (<[id := (d, counts, c)]> (calls w))).
Proof.
  intros [Hca Hcs Ho Hlv Hu] Hid Hown Hcache Hok Hoth Hf Hlv'. split; cbn.
  - done.
  - intros id' d' k c' [[-> [= <- <- <-]]|[Hne Hc]]%lookup_insert_Some; eauto.
  - intros d' q Hq. destruct (Hf d' q Hq) as [Hq' Hasks]. destruct (Ho d' q Hq') as (i & k & c' & Hi & Hw). destruct (decide (i = id)) as [->|Hne].
    + rewrite Hid in Hi. injection Hi as <- <- <-. exists id, counts, c. rewrite lookup_insert_eq. auto.
    + exists i, k, c'. rewrite lookup_insert_ne by done. done.
  - intros q x Hq Hx. destruct (Hlv' q x Hq Hx) as (y & Hy & Hyc). destruct (Hlv q y Hy Hyc) as (i & d' & k & c' & Hi & Hw). destruct (decide (i = id)) as [->|Hne].
    + rewrite Hid in Hi. injection Hi as <- <- <-. exists id, d, counts, c. rewrite lookup_insert_eq. split; [done|]. apply Hown. done.
    + exists i, d', k, c'. rewrite lookup_insert_ne by done. done.
  - intros i1 i2 d1 d2 k1 k2 c1 c2 q [[<- [= <- <- <-]]|[_ H1]]%lookup_insert_Some [[<- [= <- <- <-]]|[_ H2]]%lookup_insert_Some Hw1 Hw2; [done|..|eauto].
    + apply Hown in Hw1. exact (Hu id i2 _ _ _ _ _ _ q Hid H2 Hw1 Hw2).
    + apply Hown in Hw2. exact (Hu i1 id _ _ _ _ _ _ q H1 Hid Hw1 Hw2).
Qed.

(** Other calls do not own the query of [id]. *)
Lemma not_owner log w id id' d d' k k' c c' p : winv log w -> calls w !! id = Some (d, k, c) -> calls w !! id' = Some (d', k', c') -> owns c p -> id' <> id -> ~ owns c' p.
Proof. intros Hi H1 H2 Hc Hne Hc'. apply Hne. exact (wi_unique _ _ Hi id' id _ _ _ _ _ _ p H2 H1 Hc' Hc). Qed.

Lemma store_winv log w id d counts p now a : winv log w -> calls w !! id = Some (d, counts, Asking p) ->
  winv (log ++ [(d, a)]) (mkWorld (shared_store now d p a (res w)) (<[id := (d, counts, Storing p a)]> (calls w))).
Proof.
  intros Hi Hid. pose proof (winv_more log [(d, a)] w Hi) as Hi'. pose proof (wi_calls _ _ Hi id d counts _ Hid) as [Hf Hp].
  assert (Hin : (d, a) ∈ log ++ [(d, a)]) by (apply elem_of_app; right; set_solver). eapply advance_winv; [exact Hi'|exact Hid|done| | | | |]; cbn.
  - pose proof (wi_cache _ _ Hi') as Hca. destruct a as [e|ips]; [done|]. destruct (_ && _); [|done]. apply cache_Set; done.
  - rewrite list_lookup_alter_eq, Hp. done.
  - intros id' d' k c Hne Hc. pose proof (not_owner _ w id id' _ _ _ _ _ _ p Hi' Hid Hc eq_refl Hne) as Hno.
    pose proof (wi_calls _ _ Hi' id' d' k c Hc) as Hok. destruct c as [b|q|q|q b|q b]; cbn in Hok, Hno |- *; [done|..]; [|rewrite list_lookup_alter_ne by auto; done..].
    destruct Hok as (x & Hx & Hd). destruct (decide (q = p)) as [->|Hqp]; [|rewrite list_lookup_alter_ne by done; eauto].
    rewrite list_lookup_alter_eq, Hx. exists (mkPend (Some a) false). split; [done|]. right. rewrite Hp in Hx. injection Hx as <-. destruct Hd as [(b & Hb & _)|[_ Hd]]; done.
  - auto.
  - intros q x Hq Hx. destruct (decide (q = p)) as [->|Hne]; [exists (mkPend None false); done|]. rewrite list_lookup_alter_ne in Hq by done. eauto.
Qed.

Lemma remove_winv log w id d counts p a : winv log w -> calls w !! id = Some (d, counts, Storing p a) ->
  winv log (mkWorld (shared_remove d (res w)) (<[id := (d, counts, Closing p a)]> (calls w))).
Proof.
  intros Hi Hid. pose proof (wi_calls _ _ Hi id d counts _ Hid) as (Hf & Hp & Hl). eapply advance_winv; [exact Hi|exact Hid|done|exact (wi_cache _ _ Hi)|done| | |]; cbn.
  - intros id' d' k c Hne Hc. pose proof (not_owner _ w id id' _ _ _ _ _ _ p Hi Hid Hc eq_refl Hne) as Hno. pose proof (wi_calls _ _ Hi id' d' k c Hc) as Hok.
    assert (Hdel : forall q, q <> p -> inflight (res w) !! d' = Some q -> delete d (inflight (res w)) !! d' = Some q) by (intros q Hq Hx; rewrite lookup_delete_ne; [done|congruence]).
    destruct c as [b|q|q|q b|q b]; cbn in Hok, Hno |- *; [done| |destruct Hok; split; [auto|done]|destruct Hok as (? & ? & ?); split_and!; [auto|done..]|done].
    destruct Hok as (x & Hx & Hd). exists x. split; [done|]. destruct Hd as [|[Hxc Hd]]; [auto|]. destruct (decide (d' = d)) as [->|Hdd]; [|right; rewrite lookup_delete_ne by done; done].
    left. exists a. split; [|done]. rewrite Hf in Hd. injection Hd as <-. rewrite Hp in Hx. injection Hx as <-. done.
  - intros d' q [Hne Hq]%lookup_delete_Some. split; [done|]. intros <-. exfalso. destruct (wi_owner _ _ Hi d' p Hq) as (i & k & c & Hi' & Hw).
    assert (i = id) as -> by exact (wi_unique _ _ Hi i id _ _ _ _ _ _ p Hi' Hid (asks_owns _ _ Hw) eq_refl). rewrite Hid in Hi'. injection Hi' as -> _ _. done.
  - eauto.
Qed.

Lemma close_winv log w id d counts p a : winv log w -> calls w !! id = Some (d, counts, Closing p a) -> winv log (finish id d counts a (shared_close p (res w)) w).
Proof.
  intros Hi Hid. pose proof (wi_calls _ _ Hi id d counts _ Hid) as (Hp & Hl).
  eapply finish_winv; [exact Hi|exact Hid|exact (wi_cache _ _ Hi)| |done|intros ? []| |destruct a; auto]; cbn.
  - intros id' d' k c Hne Hc. pose proof (not_owner _ w id id' _ _ _ _ _ _ p Hi Hid Hc eq_refl Hne) as Hno.
    pose proof (wi_calls _ _ Hi id' d' k c Hc) as Hok. destruct c as [b|q|q|q b|q b]; cbn in Hok, Hno |- *; [done|..]; [|rewrite list_lookup_alter_ne by auto; done..].
    destruct Hok as (x & Hx & Hd). destruct (decide (q = p)) as [->|Hqp]; [|rewrite list_lookup_alter_ne by done; eauto].
    rewrite list_lookup_alter_eq, Hx. exists (mkPend (ans x) true). split; [done|]. left. destruct Hd as [|[_ Hd]]; [done|]. exfalso.
    destruct (wi_owner _ _ Hi d' p Hd) as (i & k' & c & Hi' & Hw). assert (i = id) as -> by exact (wi_unique _ _ Hi i id _ _ _ _ _ _ p Hi' Hid (asks_owns _ _ Hw) eq_refl).
    rewrite Hid in Hi'. injection Hi' as _ _ <-. done.
  - intros q x Hq Hx. destruct (decide (q = p)) as [->|Hne]; [rewrite list_lookup_alter_eq, Hp in Hq; injection Hq as <-; done|]. rewrite list_lookup_alter_ne in Hq by done. auto.
Qed.

Lemma step_winv log a w w' log' : winv log w -> step a w = Some (w', log') -> winv (log ++ log') w'.
Proof.
  intros Hi. pose proof Hi as [Hca Hcs Ho Hlv Hu]. assert (Hsame : same_flight (res w) (res w)) by done.
  assert (Hkeep : forall id d counts p a, calls w !! id = Some (d, counts, Waiting p) ->
    (match a with inr ips => (exists ip, ParseIP d = Some ip /\ ips = [ip]) \/ (d, a) ∈ log | inl _ => True end) -> winv log (finish id d counts a (res w) w)).
  { intros id d counts p b Hid Hb. eapply finish_winv; [done|exact Hid|done|intros; eauto|done|intros ? []|auto|done]. }
  destruct a as [id counts now bypass d|id now a|id|id|id|id|u]; cbn [step].
  - destruct (calls w !! id) eqn:Hid; [done|]. set (lg := match bypass with Some a => [(d, a)] | None => [] end).
    assert (Hi' : winv (log ++ lg) w) by (apply winv_more; done).
    assert (Hb : forall a, bypass = Some a -> (d, a) ∈ log ++ lg) by (intros a ->; apply elem_of_app; right; cbn; set_solver). destruct counts.
    + pose proof (resolve_winv (log ++ lg) w id now bypass d Hi' Hid Hb) as Hr. destruct (Resolve now bypass d (res w)). intros [= <- <-]. done.
    + pose proof (resolveUpstream_winv (log ++ lg) w id now d Hi' Hid) as Hr. destruct (ResolveUpstream now d (res w)). intros [= <- <-]. done.
  - destruct (calls w !! id) as [[[d counts] [b|p|p|p b|p b]]|] eqn:Hid; try done. intros [= <- <-]. apply store_winv; done.
  - destruct (calls w !! id) as [[[d counts] [b|p|p|p b|p b]]|] eqn:Hid; try done. intros [= <- <-]. rewrite app_nil_r. eapply remove_winv; done.
  - destruct (calls w !! id) as [[[d counts] [b|p|p|p b|p b]]|] eqn:Hid; try done. intros [= <- <-]. rewrite app_nil_r. eapply close_winv; done.
  - destruct (calls w !! id) as [[[d counts] [b|p|p|p b|p b]]|] eqn:Hid; try done. destruct (shared_wait p (res w)) as [a|] eqn:Ew; [|done]. intros [= <- <-]. rewrite app_nil_r.
    eapply Hkeep; [exact Hid|]. pose proof (Hcs id d counts _ Hid) as (x & Hx & Hd). unfold shared_wait in Ew. rewrite Hx in Ew.
    destruct (closed x) eqn:Ec; [|done]. destruct Hd as [(b & Hb & Hbl)|[? _]]; [|done]. destruct a; [done|]. right. congruence.
  - destruct (calls w !! id) as [[[d counts] [b|p|p|p b|p b]]|] eqn:Hid; try done. intros [= <- <-]. rewrite app_nil_r. eapply Hkeep; done.
  - intros [= <- <-]. rewrite app_nil_r. split; cbn; [apply cache_Clear; done| |done..]. intros id d counts c Hc. eapply call_ok_same; [split; reflexivity|]. eauto.
Qed.

Lemma run_winv l log w w' log' : winv log w -> run_actions l w = Some (w', log') -> winv (log ++ log') w'.
Proof.
  revert log w log'. induction l as [|a l IH]; intros log w log' Hi; cbn.
  - intros [= <- <-]. rewrite app_nil_r. done.
  - destruct (step a w) as [[w1 log1]|] eqn:Es; [|done]. cbn. destruct (run_actions l w1) as [[w2 log2]|] eqn:Er; [|done]. cbn. intros [= <- <-].
    rewrite app_assoc. eapply IH; [|exact Er]. eapply step_winv; done.
Qed.

Lemma winv_start cfg up : winv [] (mkWorld (New cfg up) ∅).
Proof. split; cbn; [split; [apply Cache.NewLRUCache_ok|]|..]; intros *; rewrite ?lookup_empty; try done. unfold Cache.entry_of, Cache.NewLRUCache. cbn. rewrite Cache.lru_New_map, lookup_empty. done. Qed.

(** ** Progress of those who wait *)

Lemma wake_step w id d k p x a : calls w !! id = Some (d, k, Waiting p) -> pends (res w) !! p = Some x -> closed x = true -> ans x = Some a ->
  exists w', run_actions [Wake id] w = Some (w', []) /\ calls w' !! id = Some (d, k, Finished a).
Proof.
  intros Hid Hp Hc Ha. eexists. cbn [run_actions step]. unfold shared_wait. rewrite Hid, Hp, Hc, Ha. cbn. split; [reflexivity|]. cbn. rewrite lookup_insert_eq. done.
Qed.

Lemma wake_closing w id d k p id' d' k' a : calls w !! id = Some (d, k, Waiting p) -> calls w !! id' = Some (d', k', Closing p a) -> pends (res w) !! p = Some (mkPend (Some a) false) ->
  exists w', run_actions [Announce id'; Wake id] w = Some (w', []) /\ calls w' !! id = Some (d, k, Finished a).
Proof.
  intros Hid Hid' Hp. assert (Hne : id' <> id) by congruence. set (w1 := finish id' d' k' a (shared_close p (res w)) w).
  destruct (wake_step w1 id d k p (mkPend (Some a) true) a) as (w' & Hr & Hw); [cbn; rewrite lookup_insert_ne by done; done| |done..|].
  - unfold w1, finish. cbn. replace (pends _) with (alter (fun x => mkPend (ans x) true) p (pends (res w))) by (destruct a, k'; done). rewrite list_lookup_alter_eq, Hp. done.
  - exists w'. split; [|done]. remember [Wake id] as l2. cbn [run_actions step]. rewrite Hid'. cbn [option_bind mbind]. fold w1. rewrite Hr. done.
Qed.

Lemma wake_storing w id d k p id' d' k' a : calls w !! id = Some (d, k, Waiting p) -> calls w !! id' = Some (d', k', Storing p a) -> pends (res w) !! p = Some (mkPend (Some a) false) ->
  exists w', run_actions [Remove id'; Announce id'; Wake id] w = Some (w', []) /\ calls w' !! id = Some (d, k, Finished a).
Proof.
  intros Hid Hid' Hp. assert (Hne : id' <> id) by congruence. set (w1 := mkWorld (shared_remove d' (res w)) (<[id' := (d', k', Closing p a)]> (calls w))).
  destruct (wake_closing w1 id d k p id' d' k' a) as (w' & Hr & Hw); [cbn; rewrite lookup_insert_ne by done; done|cbn; apply lookup_insert_eq|done|].
  exists w'. split; [|done]. remember [Announce id'; Wake id] as l2. cbn [run_actions step]. rewrite Hid'. cbn [option_bind mbind]. fold w1. rewrite Hr. done.
Qed.

Lemma wake_asking now b w id d k p id' d' k' : calls w !! id = Some (d, k, Waiting p) -> calls w !! id' = Some (d', k', Asking p) -> pends (res w) !! p = Some (mkPend None false) ->
  exists w', run_actions [Answered id' now b; Remove id'; Announce id'; Wake id] w = Some (w', [(d', b)]) /\ calls w' !! id = Some (d, k, Finished b).
Proof.
  intros Hid Hid' Hp. assert (Hne : id' <> id) by congruence. set (w1 := mkWorld (shared_store now d' p b (res w)) (<[id' := (d', k', Storing p b)]> (calls w))).
  destruct (wake_storing w1 id d k p id' d' k' b) as (w' & Hr & Hw); [cbn; rewrite lookup_insert_ne by done; done|cbn; apply lookup_insert_eq|cbn; rewrite list_lookup_alter_eq, Hp; done|].
  exists w'. split; [|done]. remember [Remove id'; Announce id'; Wake id] as l2. cbn [run_actions step]. rewrite Hid'. cbn [option_bind mbind]. fold w1. rewrite Hr. done.
Qed.

(** The owner of the query a call waits for. *)
Lemma waiting_owner log w id d k p x : winv log w -> calls w !! id = Some (d, k, Waiting p) -> pends (res w) !! p = Some x -> closed x = false ->
  exists id' d' k' c, calls w !! id' = Some (d', k', c) /\ owns c p /\ (c = Asking p -> d' = d).
Proof.
  intros Hi Hid Hx Hc. pose proof (wi_calls _ _ Hi id d k _ Hid) as (y & Hy & Hd). rewrite Hx in Hy. injection Hy as <-.
  destruct (wi_live _ _ Hi p x Hx Hc) as (id' & d' & k' & c & Hc' & Ho). exists id', d', k', c. split_and!; [done..|]. intros ->.
  pose proof (wi_calls _ _ Hi id' d' k' _ Hc') as [_ Hp]. rewrite Hx in Hp. injection Hp as ->. destruct Hd as [(a & Ha & _)|[_ Hf]]; [done|].
  destruct (wi_owner _ _ Hi d p Hf) as (i & k2 & c2 & Hi2 & Hw). assert (i = id') as -> by exact (wi_unique _ _ Hi i id' _ _ _ _ _ _ p Hi2 Hc' (asks_owns _ _ Hw) eq_refl). congruence.
Qed.

Lemma waiting_logged log w id d k p x a : winv log w -> calls w !! id = Some (d, k, Waiting p) -> pends (res w) !! p = Some x -> ans x = Some a -> (d, a) ∈ log.
Proof.
  intros Hi Hid Hx Ha. pose proof (wi_calls _ _ Hi id d k _ Hid) as (y & Hy & Hd). rewrite Hx in Hy. injection Hy as <-. destruct Hd as [(b & Hb & Hl)|[_ Hf]]; [congruence|].
  destruct (wi_owner _ _ Hi d p Hf) as (i & k2 & c2 & Hi2 & Hw). pose proof (wi_calls _ _ Hi i d k2 _ Hi2) as Hok. destruct c2 as [|q|q|q b|q b]; cbn in Hw, Hok; try done; subst q.
  - destruct Hok as [_ Hp]. rewrite Hx in Hp. injection Hp as ->. done.
  - destruct Hok as (_ & Hp & Hl). rewrite Hx in Hp. injection Hp as ->. injection Ha as <-. done.
Qed.

(** A call that waits is over after at most four further steps. *)
Lemma waiting_finishes log w id d k p b : winv log w -> calls w !! id = Some (d, k, Waiting p) ->
  exists l w' log' a, run_actions l w = Some (w', log') /\ (length l <= 4)%nat /\ calls w' !! id = Some (d, k, Finished a) /\ (d, a) ∈ log ++ log' /\
    (a = b \/ exists x, pends (res w) !! p = Some x /\ ans x = Some a).
Proof.
  intros Hi Hid. pose proof (wi_calls _ _ Hi id d k _ Hid) as (x & Hx & Hd). destruct (closed x) eqn:Hc.
  - destruct Hd as [(a & Ha & Hl)|[? _]]; [|done]. destruct (wake_step w id d k p x a Hid Hx Hc Ha) as (w' & Hr & Hw).
    exists [Wake id], w', [], a. rewrite app_nil_r. cbn [length]. split_and!; eauto with lia.
  - destruct (waiting_owner log w id d k p x Hi Hid Hx Hc) as (id' & d' & k' & c & Hc' & Ho & Hdd). pose proof (wi_calls _ _ Hi id' d' k' _ Hc') as Hok.
    destruct c as [|q|q|q a|q a]; cbn in Ho, Hok; try done; subst q.
    + rewrite (Hdd eq_refl) in *. destruct (wake_asking 0 b w id d k p id' d k' Hid Hc' (proj2 Hok)) as (w' & Hr & Hw).
      eexists _, w', _, b. split_and!; [exact Hr|cbn; lia|done|apply elem_of_app; right; set_solver|auto].
    + destruct Hok as (_ & Hp & _). destruct (wake_storing w id d k p id' d' k' a Hid Hc' Hp) as (w' & Hr & Hw). eexists _, w', _, a. rewrite app_nil_r.
      split_and!; [exact Hr|cbn; lia|done|exact (waiting_logged _ _ _ _ _ _ _ a Hi Hid Hp eq_refl)|eauto].
    + destruct Hok as (Hp & _). destruct (wake_closing w id d k p id' d' k' a Hid Hc' Hp) as (w' & Hr & Hw). eexists _, w', _, a. rewrite app_nil_r.
      split_and!; [exact Hr|cbn; lia|done|exact (waiting_logged _ _ _ _ _ _ _ a Hi Hid Hp eq_refl)|eauto].
Qed.

(** ** Theorems *)

(** C29: callers that resolve names at the same time ask the upstream for a name
    once at a time, and nobody waits in vain: in every state they can reach, two calls
    that make a query for the same name are the same call, and a call that waits can
    be finished by at most four further steps, namely those of the call that makes the
    query with whatever answer [b] the upstream gives, and gets an answer that was
    given for its name. *)
Theorem resolver_single_flight cfg up l w log : run_actions l (mkWorld (New cfg up) ∅) = Some (w, log) ->
  (forall id id' d k k' c c' p p', calls w !! id = Some (d, k, c) -> calls w !! id' = Some (d, k', c') -> asks c p -> asks c' p' -> id = id')
  /\ (forall id d k p b, calls w !! id = Some (d, k, Waiting p) ->
       exists l' w' log' a, run_actions l' w = Some (w', log') /\ (length l' <= 4)%nat /\ calls w' !! id = Some (d, k, Finished a) /\ (d, a) ∈ log ++ log' /\
         (a = b \/ exists x, pends (res w) !! p = Some x /\ ans x = Some a)).
Proof.
  intros Hr. pose proof (run_winv l [] _ w log (winv_start cfg up) Hr) as Hi. cbn in Hi. split; [|intros; eapply waiting_finishes; eauto].
  intros id id' d k k' c c' p p' Hc Hc' Ha Ha'.
  assert (Hf : forall i j e q, calls w !! i = Some (d, j, e) -> asks e q -> inflight (res w) !! d = Some q).
  { intros i j e q He Hq. pose proof (wi_calls _ _ Hi i d j e He) as Hok. destruct e; cbn in Hq, Hok; try done; subst; tauto. }
  pose proof (Hf _ _ _ _ Hc Ha) as H1. pose proof (Hf _ _ _ _ Hc' Ha') as H2. rewrite H1 in H2. injection H2 as <-.
  exact (wi_unique _ _ Hi id id' _ _ _ _ _ _ p Hc Hc' (asks_owns _ _ Ha) (asks_owns _ _ Ha')).
Qed.

(** C30: addresses the resolver returns for a name, to a caller or from its cache,
    are the address the name spells or an answer that the upstream or the bypass
    resolver gave for that very name, whatever the interleaving of the callers, the
    evictions of the cache and the changes of the upstream. *)
Theorem resolver_answers cfg up l w log : run_actions l (mkWorld (New cfg up) ∅) = Some (w, log) ->
  (forall id d k ips, calls w !! id = Some (d, k, Finished (inr ips)) -> (exists ip, ParseIP d = Some ip /\ ips = [ip]) \/ (d, inr ips) ∈ log)
  /\ (forall now d ips, (ResolveCached now d (res w)).2 = Some ips -> (exists ip, ParseIP d = Some ip /\ ips = [ip]) \/ (d, inr ips) ∈ log).
Proof.
  intros Hr. pose proof (run_winv l [] _ w log (winv_start cfg up) Hr) as Hi. cbn in Hi. split.
  - intros id d k ips Hc. exact (wi_calls _ _ Hi id d k _ Hc).
  - intros now d ips. unfold ResolveCached. destruct (ParseIP d) as [ip|]; [intros [= <-]; eauto|]. destruct (negb _); [done|].
    destruct (cache_Get log now d (cache (res w)) (wi_cache _ _ Hi)) as [_ Hg]. destruct (Cache.Get [] now d (cache (res w))) as [v m]. cbn in Hg |- *.
    destruct (0 <? len v) eqn:E; [|done]. intros [= <-]. destruct Hg as [->|]; [done|auto].
Qed.

End Facts.

Module ResolverWitnesses.

#[local] Instance AsciiFold : UnicodeFold := {| unicode_equal_fold a b := bool_decide (a = b) |}.
#[local] Existing Instance Cache.WipeLru.
#[local] Existing Instance Cache.WipeLruLaws.

Definition ex_cfg := mkConfig true 4 0 false.
Definition ex_ip : IP := [203; 0; 113; 7].
Definition ex_start := mkWorld (New ex_cfg "8.8.8.8:53") ∅.
Definition ex_run := [Start 0 true 0 None "a.io"; Start 1 true 0 None "a.io"; Answered 0 1 (inr [ex_ip])].
Definition ex_world := run_actions ex_run ex_start.

Definition ex_is_waiting (w : option (world * list (string * answer))) : bool :=
  match w with Some (w, _) => match calls w !! 1%nat with Some (d, _, Waiting 0) => bool_decide (d = "a.io") | _ => false end | None => false end.

Lemma resolver_single_flight_witness :
  exists w log, ex_world = Some (w, log) /\ (exists k p, calls w !! 1%nat = Some ("a.io", k, Waiting p)) /\
    exists l' w' log' a k, run_actions l' w = Some (w', log') /\ (length l' <= 4)%nat /\ calls w' !! 1%nat = Some ("a.io", k, Finished a).
Proof.
  assert (Hb : ex_is_waiting ex_world = true) by (vm_compute; reflexivity). destruct ex_world as [[w log]|] eqn:E; [|discriminate Hb].
  pose proof (resolver_single_flight ex_cfg "8.8.8.8:53" ex_run w log E) as [_ Hw]. exists w, log. split; [reflexivity|]. cbn in Hb.
  destruct (calls w !! 1%nat) as [[[d k] [|[|p]| | |]]|] eqn:Ec; try discriminate Hb. apply bool_decide_eq_true_1 in Hb. subst d. split; [eauto|].
  destruct (Hw 1%nat "a.io" k 0%nat (inl Cancelled) Ec) as (l' & w' & log' & a & H1 & H2 & H3 & _). eauto 10.
Defined.

Definition ex_run2 := ex_run ++ [Remove 0; Announce 0; Wake 1].
Lemma resolver_answers_witness :
  exists w log, run_actions ex_run2 ex_start = Some (w, log) /\ (ResolveCached 2 "a.io" (res w)).2 = Some [ex_ip] /\
    ((exists ip, ParseIP "a.io" = Some ip /\ [ex_ip] = [ip]) \/ ("a.io", inr [ex_ip]) ∈ log).
Proof.
  assert (Hb : (match run_actions ex_run2 ex_start with Some (w, _) => (ResolveCached 2 "a.io" (res w)).2 | None => None end) = Some [ex_ip]) by (vm_compute; reflexivity).
  destruct (run_actions ex_run2 ex_start) as [[w log]|] eqn:E; [|discriminate Hb]. pose proof (resolver_answers ex_cfg "8.8.8.8:53" ex_run2 w log E) as [_ Hc].
  exists w, log. split; [reflexivity|]. split; [exact Hb|]. exact (Hc 2 "a.io" [ex_ip] Hb).
Defined.

(** Changing the upstream empties the cache, yet the answer of a query that was in
    flight is cached after it: names go on to be answered from the old upstream. *)
Definition ex_switch := [Start 0 true 0 None "a.io"; Switch "9.9.9.9"; Answered 0 1 (inr [ex_ip]); Remove 0; Announce 0].
Lemma switch_keeps_old_answer :
  match run_actions ex_switch ex_start with Some (w, _) => (Upstream (res w), (ResolveCached 2 "a.io" (res w)).2) | None => ("", None) end = ("9.9.9.9", Some [ex_ip]).
Proof. vm_compute. reflexivity. Qed.

End ResolverWitnesses.

(** ** Blocking *)

(** Nothing is ever put on the list of blocked names. *)
Lemma step_blockList `{L : Cache.LruOps} `{UnicodeFold} a w w' log : step a w = Some (w', log) -> blockList (res w') = blockList (res w).
Proof.
  destruct a as [id counts now bypass d|id now a|id|id|id|id|u]; cbn [step].
  - destruct (calls w !! id); [done|]. unfold Resolve, ResolveUpstream, shared_enter. repeat (case_match; simplify_eq/=; try done); intros; simplify_eq/=; done.
  - repeat (case_match; simplify_eq/=; try done); intros; simplify_eq/=; done.
  - repeat (case_match; simplify_eq/=; try done); intros; simplify_eq/=; done.
  - unfold finish. repeat (case_match; simplify_eq/=; try done); intros; simplify_eq/=; done.
  - unfold finish. destruct (calls w !! id) as [[[d k] []]|]; try done. destruct (shared_wait _ _) as [[]|]; cbn; intros [= <- <-]; destruct k; done.
  - unfold finish. repeat (case_match; simplify_eq/=; try done); intros; simplify_eq/=; done.
  - intros [= <- <-]. done.
Qed.

Lemma never_blocks `{L : Cache.LruOps} `{UnicodeFold} cfg up l w log d : run_actions l (mkWorld (New cfg up) ∅) = Some (w, log) -> isBlocked (res w) d = false.
Proof.
  intros Hr. assert (Hb : blockList (res w) = ∅).
  { assert (Hg : forall l w0 w log, run_actions l w0 = Some (w, log) -> blockList (res w) = blockList (res w0)).
    { clear. induction l as [|a l IH]; intros w0 w log; cbn; [intros [= <- <-]; done|]. destruct (step a w0) as [[w1 g]|] eqn:Es; [|done]. cbn.
      destruct (run_actions l w1) as [[w2 g2]|] eqn:Er; [|done]. cbn. intros [= <- <-]. rewrite (IH _ _ _ Er). eapply step_blockList; done. }
    rewrite (Hg _ _ _ _ Hr). done. }
  unfold isBlocked. rewrite Hb, (bool_decide_eq_false_2 (d ∈ _)) by set_solver. destruct (BlockingEnabled _); [|done]. cbn. apply not_true_is_false. intros (s & _ & Hs)%existsb_exists.
  apply bool_decide_eq_true_1 in Hs. set_solver.
Qed.
