(* ===== verification/GoPath.v ===== *)
(** Slash-separated paths as Go's [path] and [path/filepath] handle them on Unix. *)

From S2P Require Import Prelude GoIO GoStr NetIP.

(** The segments that stay, the last first. *)
Fixpoint clean_segments (rooted : bool) (segs out : list (list Z)) : list (list Z) :=
  match segs with
  | [] => out
  | s :: segs =>
      if bool_decide (s = []) || bool_decide (s = [46]) then clean_segments rooted segs out
      else if bool_decide (s = [46; 46]) then
        match out with
        | [] => clean_segments rooted segs (if rooted then [] else [s])
        | t :: out' => if bool_decide (t = [46; 46]) then clean_segments rooted segs (s :: out) else clean_segments rooted segs out'
        end
      else clean_segments rooted segs (s :: out)
  end.

Fixpoint join_slash (l : list (list Z)) : list Z :=
  match l with [] => [] | [s] => s | s :: l => s ++ 47 :: join_slash l end.

Definition rooted (p : list Z) : bool := match p with 47 :: _ => true | _ => false end.

(** [path.Clean] *)
Definition path_Clean (p : list Z) : list Z :=
  let segs := rev (clean_segments (rooted p) (split_all 47 p) []) in
  if rooted p then 47 :: join_slash segs else if bool_decide (segs = []) then [46] else join_slash segs.

(** [filepath.Dir] and [filepath.Join] of two elements. *)
Definition path_Dir (p : list Z) : list Z := path_Clean (ztake (last_index_byte 47 p + 1) p).
Definition path_Join (a b : list Z) : list Z :=
  if bool_decide (a = []) then (if bool_decide (b = []) then [] else path_Clean b)
  else if bool_decide (b = []) then path_Clean a else path_Clean (a ++ 47 :: b).

Example clean_up : path_Clean (bytes_of_string "/a/./b//../c/") = bytes_of_string "/a/c".
Proof. reflexivity. Qed.
Example dir_join : path_Join (path_Dir (bytes_of_string "/etc/whispera/config.yaml")) (bytes_of_string ".config.checksum") = bytes_of_string "/etc/whispera/.config.checksum".
Proof. reflexivity. Qed.

(** ** Splitting *)

(** [split_all] without its bound. *)
Fixpoint split_ref (sep : Z) (cur l : list Z) : list (list Z) :=
  match l with [] => [rev cur] | x :: l => if x =? sep then rev cur :: split_ref sep [] l else split_ref sep (x :: cur) l end.

Lemma split_n_ref sep l : forall n cur, (length l + 2 <= n)%nat -> split_n n sep cur l = split_ref sep cur l.
Proof.
  induction l as [|x l IH]; intros n cur Hn; [destruct n; done|]. cbn [length] in Hn. destruct n as [|[|n]]; [lia..|]. cbn [split_n split_ref].
  destruct (x =? sep); [f_equal|]; apply IH; lia.
Qed.

Lemma split_all_ref sep l : split_all sep l = split_ref sep [] l.
Proof. apply split_n_ref. lia. Qed.

Lemma split_ref_cur sep l : forall cur, exists s ss, split_ref sep [] l = s :: ss /\ split_ref sep cur l = (rev cur ++ s) :: ss.
Proof.
  induction l as [|x l IH]; intros cur; cbn; [exists [], []; rewrite app_nil_r; done|]. destruct (x =? sep); [exists [], (split_ref sep [] l); rewrite app_nil_r; done|].
  destruct (IH [x]) as (s & ss & E1 & E2). destruct (IH (x :: cur)) as (s' & ss' & E3 & E4). rewrite E1 in E3. injection E3 as <- <-. exists (x :: s), ss. rewrite E2, E4. cbn. rewrite <- app_assoc. done.
Qed.

Lemma split_all_cons sep x l : split_all sep (x :: l) = if x =? sep then [] :: split_all sep l else match split_all sep l with s :: ss => (x :: s) :: ss | [] => [] end.
Proof.
  rewrite !split_all_ref. cbn. destruct (x =? sep); [done|]. destruct (split_ref_cur sep l [x]) as (s & ss & -> & ->). done.
Qed.

Lemma split_all_nil sep : split_all sep [] = [[]].
Proof. done. Qed.

Lemma split_all_app sep a b : split_all sep (a ++ sep :: b) = split_all sep a ++ split_all sep b.
Proof.
  induction a as [|x a IH]; cbn [app]; [rewrite split_all_cons, Z.eqb_refl; done|]. rewrite !split_all_cons, IH. destruct (x =? sep); [done|].
  rewrite (split_all_ref sep a). destruct (split_ref_cur sep a []) as (s & ss & -> & _). done.
Qed.

Lemma split_all_none sep l : sep ∉ l -> split_all sep l = [l].
Proof.
  induction l as [|x l IH]; intros Hn; [done|]. rewrite split_all_cons. apply not_elem_of_cons in Hn as [H1 H2]. rewrite (proj2 (Z.eqb_neq x sep)) by congruence. rewrite IH by done. done.
Qed.

Lemma split_all_nonempty sep l : split_all sep l <> [].
Proof. rewrite split_all_ref. destruct (split_ref_cur sep l []) as (s & ss & -> & _). done. Qed.

Lemma join_split l : join_slash (split_all 47 l) = l.
Proof.
  induction l as [|x l IH]; [done|]. rewrite split_all_cons. pose proof (split_all_nonempty 47 l) as Hne. destruct (Z.eqb_spec x 47) as [->|Hx].
  - destruct (split_all 47 l) as [|s ss]; [done|]. cbn [join_slash app]. f_equal. exact IH.
  - destruct (split_all 47 l) as [|s ss]; [done|]. destruct ss; cbn in *; f_equal; exact IH.
Qed.
