(* ===== verification/ServerCfg.v ===== *)
(** The configuration of the server, core/config/config.go and checksum.go: the
    settings with their defaults and validation, and the provider that loads, saves,
    changes and watches them.

    YAML is the class [Yaml] and the checksum's MAC is [hmac_sha256] of [Auth.Crypto].
    The file system is a map of paths to contents and modification times.  The
    settings are objects behind pointers, as in the code: a reader keeps the pointer
    it got, so what changes an object in place is visible to it.  Events published on
    the bus are a list. *)

From S2P Require Import Prelude GoIO GoStr NetIP GoPath GoJson TargetGuard Auth.

Module ServerCfg.
Import Auth.

(** ** Settings *)

Abbreviation Duration := Z.
Definition second : Z := 1000000000.

Record RelayConfig := mkRelay { r_EnableTCP : bool; r_EnableUDP : bool; r_Debug : bool; r_UpstreamProxy : string; r_BlockedTargets : list string }.
Record UpdateConfig := mkUpdate { u_Enabled : bool; u_ManifestURL : string; u_PublicKey : string; u_CheckInterval : Duration }.
Record OutboundConfig := mkOutbound { o_Tag : string; o_Address : string; o_Settings : list (string * GoJson.json); o_Chain : list string }.
Record StreamConfig := mkStream { st_Network : string; st_Security : string; st_CertFile : string; st_KeyFile : string; st_WSPath : string; st_Params : list (string * GoJson.json) }.
Record InboundConfig := mkInbound {
  i_Tag : string; i_Listen : string; i_Port : Z; i_Ports : list Z; i_Mode : string; i_RemoteAddr : string; i_Settings : list (string * GoJson.json); i_Stream : StreamConfig
}.
Record WhisperaConfig := mkWhispera {
  w_Enabled : bool; w_ListenAddr : string; w_BackendH2CAddr : string; w_TLSCert : string; w_TLSKey : string; w_Domain : string; w_ACMEDir : string;
  w_DecoyOrigin : string; w_Secret : string; w_QUICListenAddr : string; w_ExtraPorts : list Z; w_QUICExtraPorts : list Z
}.
Record GRPCConfig := mkGRPC { g_Enabled : bool; g_ListenAddr : string; g_ServerName : string; g_TLSCert : string; g_TLSKey : string; g_ExtraPorts : list Z }.
Record YaDiskConfig := mkYaDisk { y_Enabled : bool; y_OAuthToken : string; y_SessionID : string }.
Record ServerSettings := mkSettings { Name : string; ListenAddr : string; MTU : Z; Workers : Z; GracefulStop : Duration; PrivateKey : string; PublicURL : string }.
Record TransportConfig := mkTransport { tcp_Enabled : bool; tcp_ListenAddr : string }.
Record SessionConfig := mkSession { MaxSessions : Z; SessionTimeout : Duration; CleanupInterval : Duration; KeepaliveInterval : Duration }.
Record RoutingConfig := mkRouting {
  geo_Enabled : bool; geo_GeoIPFile : string; geo_GeoSiteFile : string; geo_UpdateInterval : Duration; dns_Enabled : bool; dns_Upstream : string
}.
Record APIConfig := mkAPI {
  a_Enabled : bool; a_ListenAddr : string; a_AuthToken : string; a_WebRoot : string; a_EnableCORS : bool; a_AllowedOrigins : list string; a_TLSCert : string; a_TLSKey : string
}.
Record LoggingConfig := mkLogging { l_Level : string; l_Format : string; l_Output : string; l_File : string }.

(** [Obfuscation] is its profile. *)
Record ServerConfig := mkServerConfig {
  Server : ServerSettings; Transport : TransportConfig; Session : SessionConfig; Routing : RoutingConfig; Obfuscation : string; API : APIConfig; Logging : LoggingConfig;
  Relay : RelayConfig; Whispera : WhisperaConfig; GRPC : GRPCConfig; YaDisk : YaDiskConfig; Inbounds : list InboundConfig; Outbounds : list OutboundConfig;
  StealthMode : string; UpdateSettings : UpdateConfig
}.

Definition DefaultServerConfig : ServerConfig :=
  mkServerConfig (mkSettings "whispera-server" ":443" 1420 8 (30 * second) "" "") (mkTransport false "")
    (mkSession 10000 (24 * 3600 * second) (60 * second) (30 * second)) (mkRouting false "" "" 0 false "") "default"
    (mkAPI true ":8080" "" "" true [] "" "") (mkLogging "info" "text" "stdout" "")
    (mkRelay true true false "" [TargetGuard.ClassLoopback; TargetGuard.ClassUnspecified; TargetGuard.ClassPrivate; TargetGuard.ClassLinkLocal])
    (mkWhispera false "" "" "" "" "" "" "" "" "" [] []) (mkGRPC false "" "" "" "" []) (mkYaDisk false "" "")
    [mkInbound "default-inbound" "0.0.0.0" 8443 [] "" "" [] (mkStream "tcp" "none" "" "" "" [])] [] "" (mkUpdate false "" "" 0).

(** The positive ports, each once, in the order they are given. *)
Fixpoint all_ports (seen ps : list Z) : list Z :=
  match ps with
  | [] => []
  | p :: ps => if (0 <? p) && negb (bool_decide (p ∈ seen)) then p :: all_ports (p :: seen) ps else all_ports seen ps
  end.
Definition AllPorts (c : InboundConfig) : list Z := all_ports [] (i_Port c :: i_Ports c).

Definition maxSaneDuration : Duration := 30 * 24 * 3600 * second.
Definition fillDuration (v fallback : Duration) : Duration := if (v <=? 0) || (maxSaneDuration <? v) then fallback else v.

Definition with_server (c : ServerConfig) (s : ServerSettings) (t : SessionConfig) : ServerConfig :=
  mkServerConfig s (Transport c) t (Routing c) (Obfuscation c) (API c) (Logging c) (Relay c) (Whispera c) (GRPC c) (YaDisk c) (Inbounds c) (Outbounds c) (StealthMode c) (UpdateSettings c).
Definition with_outbounds (c : ServerConfig) (l : list OutboundConfig) : ServerConfig :=
  mkServerConfig (Server c) (Transport c) (Session c) (Routing c) (Obfuscation c) (API c) (Logging c) (Relay c) (Whispera c) (GRPC c) (YaDisk c) (Inbounds c) l (StealthMode c) (UpdateSettings c).

(** [validate]: whether it returns no error. *)
Definition validate (c : ServerConfig) : bool :=
  negb (bool_decide (ListenAddr (Server c) = ""))
  && bool_decide (is_Some (SplitHostPort (ListenAddr (Server c))))
  && negb ((MTU (Server c) <? 576) || (65535 <? MTU (Server c)))
  && negb (MaxSessions (Session c) <? 1)
  && (if w_Enabled (Whispera c) && negb (bool_decide (w_ListenAddr (Whispera c) = "")) then bool_decide (is_Some (SplitHostPort (w_ListenAddr (Whispera c)))) else true).

(** The part of [fill] that sets fields. *)
Definition filled (c : ServerConfig) : ServerConfig :=
  let d := DefaultServerConfig in
  let s := Server c in
  let graceful := if GracefulStop s =? 0 then GracefulStop (Server d) else GracefulStop s in
  with_server c
    (mkSettings (Name s) (if bool_decide (ListenAddr s = "") then ListenAddr (Server d) else ListenAddr s) (if MTU s =? 0 then MTU (Server d) else MTU s)
       (if Workers s =? 0 then Workers (Server d) else Workers s) (fillDuration graceful (GracefulStop (Server d))) (PrivateKey s) (PublicURL s))
    (mkSession (if MaxSessions (Session c) =? 0 then MaxSessions (Session d) else MaxSessions (Session c)) (fillDuration (SessionTimeout (Session c)) (SessionTimeout (Session d)))
       (fillDuration (CleanupInterval (Session c)) (CleanupInterval (Session d))) (fillDuration (KeepaliveInterval (Session c)) (KeepaliveInterval (Session d)))).
Definition fill (c : ServerConfig) : option ServerConfig := if validate (filled c) then Some (filled c) else None.

(** ** Files *)

Record fsys := mkFs { files : gmap string (list Z * Z); unreadable : gset string }.
Inductive read_result := Missing | ReadError | Content (data : list Z).
Definition ReadFile (f : fsys) (path : string) : read_result :=
  match files f !! path with None => Missing | Some (data, _) => if bool_decide (path ∈ unreadable f) then ReadError else Content data end.
Definition ModTime (f : fsys) (path : string) : option Z := snd <$> files f !! path.
(** [fsown.WriteFile] replaces the file as a whole, or leaves it as it is. *)
Definition WriteFile (ok : bool) (now : Z) (path : string) (data : list Z) (f : fsys) : fsys :=
  if ok then mkFs (<[path := (data, now)]> (files f)) (unreadable f) else f.

Class Yaml := { yaml_Marshal : ServerConfig -> option (list Z); yaml_Unmarshal : list Z -> ServerConfig -> option ServerConfig }.

(** ** The provider *)

Inductive value := VString (s : string) | VInt (n : Z) | VDuration (d : Duration) | VOutbounds (l : list OutboundConfig).
Record chan := mkChan { c_buf : list value; c_open : bool }.
Definition watch_cap : Z := 10.

(** [config] points into [objs]; [None] of [watchers] is the nil map. *)
Record Provider := mkProvider {
  objs : list ServerConfig; config : nat; configPath : string; watchers : option (gmap string (list nat)); chans : list chan;
  fileWatcher_open : bool; lastModified : Z; healthy : bool; events : list string
}.

Definition New (configPath : string) : Provider := mkProvider [DefaultServerConfig] 0 configPath (Some ∅) [] true 0 true [].

Definition current (p : Provider) : ServerConfig := default DefaultServerConfig (objs p !! config p).
(** [GetConfig] gives the pointer. *)
Definition GetConfig (p : Provider) : nat := config p.

Definition with_config (p : Provider) (c : ServerConfig) : Provider :=
  mkProvider (objs p ++ [c]) (length (objs p)) (configPath p) (watchers p) (chans p) (fileWatcher_open p) (lastModified p) (healthy p) (events p).
Definition with_chans (p : Provider) (cs : list chan) : Provider :=
  mkProvider (objs p) (config p) (configPath p) (watchers p) cs (fileWatcher_open p) (lastModified p) (healthy p) (events p).
Definition with_loaded (p : Provider) (path : string) (m : Z) : Provider :=
  mkProvider (objs p) (config p) path (watchers p) (chans p) (fileWatcher_open p) m (healthy p) (events p).
Definition SetHealthy (p : Provider) (b : bool) : Provider :=
  mkProvider (objs p) (config p) (configPath p) (watchers p) (chans p) (fileWatcher_open p) (lastModified p) b (events p).
Definition PublishEvent (p : Provider) (e : string) : Provider :=
  mkProvider (objs p) (config p) (configPath p) (watchers p) (chans p) (fileWatcher_open p) (lastModified p) (healthy p) (events p ++ [e]).

(** A send that is skipped when the channel is full. *)
Definition try_send (v : value) (c : chan) : chan := if len (c_buf c) <? watch_cap then mkChan (c_buf c ++ [v]) (c_open c) else c.
Definition notifyWatchers (key : string) (v : value) (p : Provider) : Provider :=
  match watchers p ≫= lookup key with
  | Some ws => with_chans p (foldl (fun cs i => alter (try_send v) i cs) (chans p) ws)
  | None => p
  end.
Definition notifyChanges (old new : ServerConfig) (p : Provider) : Provider :=
  let p := if bool_decide (ListenAddr (Server old) = ListenAddr (Server new)) then p else notifyWatchers "server.listen_addr" (VString (ListenAddr (Server new))) p in
  let p := if MTU (Server old) =? MTU (Server new) then p else notifyWatchers "server.mtu" (VInt (MTU (Server new))) p in
  let p := if MaxSessions (Session old) =? MaxSessions (Session new) then p else notifyWatchers "session.max_sessions" (VInt (MaxSessions (Session new))) p in
  let p := if bool_decide (Obfuscation old = Obfuscation new) then p else notifyWatchers "obfuscation.profile" (VString (Obfuscation new)) p in
  if len (Outbounds old) =? len (Outbounds new) then p else notifyWatchers "outbounds" (VOutbounds (Outbounds new)) p.

Definition Watch (key : string) (p : Provider) : option (Provider * nat) :=
  match watchers p with
  | None => None
  | Some m =>
      let i := length (chans p) in
      Some (mkProvider (objs p) (config p) (configPath p) (Some (<[key := default [] (m !! key) ++ [i]]> m)) (chans p ++ [mkChan [] true])
              (fileWatcher_open p) (lastModified p) (healthy p) (events p), i)
  end.

Definition Get (key : string) (p : Provider) : option value :=
  let c := current p in
  if bool_decide (key = "server.listen_addr") then Some (VString (ListenAddr (Server c)))
  else if bool_decide (key = "server.mtu") then Some (VInt (MTU (Server c)))
  else if bool_decide (key = "session.max_sessions") then Some (VInt (MaxSessions (Session c)))
  else if bool_decide (key = "session.timeout") then Some (VDuration (SessionTimeout (Session c)))
  else if bool_decide (key = "obfuscation.profile") then Some (VString (Obfuscation c))
  else None.
Definition GetString (key : string) (p : Provider) : string := match Get key p with Some (VString s) => s | _ => "" end.
Definition GetInt (key : string) (p : Provider) : Z := match Get key p with Some (VInt n) => n | _ => 0 end.
Definition GetDuration (key : string) (p : Provider) : Duration := match Get key p with Some (VDuration d) => d | _ => 0 end.

(** [Set] changes the object in place. *)
Definition set_value (key : string) (v : value) (c : ServerConfig) : ServerConfig :=
  let s := Server c in
  if bool_decide (key = "server.listen_addr") then
    match v with VString a => with_server c (mkSettings (Name s) a (MTU s) (Workers s) (GracefulStop s) (PrivateKey s) (PublicURL s)) (Session c) | _ => c end
  else if bool_decide (key = "server.mtu") then
    match v with VInt n => with_server c (mkSettings (Name s) (ListenAddr s) n (Workers s) (GracefulStop s) (PrivateKey s) (PublicURL s)) (Session c) | _ => c end
  else c.
Definition Set_ (key : string) (v : value) (p : Provider) : Provider :=
  notifyWatchers key v
    (mkProvider (alter (set_value key v) (config p) (objs p)) (config p) (configPath p) (watchers p) (chans p) (fileWatcher_open p) (lastModified p) (healthy p) (events p)).

Section Integrity.
Context `{Crypto} `{Yaml}.
Variable integrityKey : list Z.

Definition checksumFile : string := ".config.checksum".
Definition checksum_path (configPath : string) : string :=
  string_of_bytes (path_Join (path_Dir (bytes_of_string configPath)) (bytes_of_string checksumFile)).
Definition hex_bytes (l : list Z) : list Z := flat_map (fun b => [hex_digit (b / 16); hex_digit (b mod 16)]) l.

Definition CalculateChecksum (path : string) (f : fsys) : option (list Z) :=
  if bool_decide (path = "") then None
  else match ReadFile f path with Content data => Some (hex_bytes (hmac_sha256 integrityKey data)) | _ => None end.
(** [ok] is whether the file is written. *)
Definition UpdateChecksum (ok : bool) (now : Z) (path : string) (f : fsys) : fsys * bool :=
  match CalculateChecksum path f with
  | None => (f, false)
  | Some sum => (WriteFile ok now (checksum_path path) sum f, ok)
  end.
(** The files, and whether there was no error. *)
Definition VerifyIntegrity (ok : bool) (now : Z) (path : string) (f : fsys) : fsys * bool :=
  if bool_decide (files f !! path = None) then (f, true)
  else match ReadFile f (checksum_path path) with
  | Missing => UpdateChecksum ok now path f
  | ReadError => (f, false)
  | Content savedSum => match CalculateChecksum path f with None => (f, false) | Some sum => (f, bool_decide (sum = savedSum)) end
  end.

(** Which of the calls to the file system succeed; a backup that fails leaves
    something in its file. *)
Record io := mkIo { io_now : Z; mkdir_ok : bool; bak_left : option (list Z); write_ok : bool; sum_ok : bool }.

(** [saveConfig] up to the file itself. *)
Definition save_write (i : io) (path : string) (c : ServerConfig) (f : fsys) : fsys * bool :=
  match yaml_Marshal c with
  | None => (f, false)
  | Some data =>
      if negb (mkdir_ok i) then (f, false)
      else
        let f := match ReadFile f path with Content previous => WriteFile true (io_now i) (String.append path ".bak") (default previous (bak_left i)) f | _ => f end in
        (WriteFile (write_ok i) (io_now i) path data f, write_ok i)
  end.
(** The checksum is of the provider's own file, whatever [path] is. *)
Definition saveConfig (i : io) (path : string) (p : Provider) (f : fsys) : fsys * bool :=
  let '(f, ok) := save_write i path (current p) f in
  if ok then UpdateChecksum (sum_ok i) (io_now i) (configPath p) f else (f, false).
Definition SaveConfig := saveConfig.

Definition Update (i : io) (fn : ServerConfig -> ServerConfig) (p : Provider) (f : fsys) : Provider * fsys * bool :=
  let old := current p in
  let p := with_config p (fn old) in
  let '(f, ok) := if bool_decide (configPath p = "") then (f, true) else saveConfig i (configPath p) p f in
  if ok then (notifyChanges old (current p) p, f, true) else (p, f, false).

Definition Load (source : string) (p : Provider) (f : fsys) : Provider * bool :=
  match ReadFile f source with
  | Content data =>
      match yaml_Unmarshal data DefaultServerConfig ≫= fill with
      | None => (p, false)
      | Some cfg =>
          let old := current p in
          let p := with_config p cfg in
          let p := with_loaded p source (default (lastModified p) (ModTime f source)) in
          (notifyChanges old cfg p, true)
      end
  | _ => (p, false)
  end.
Definition Reload (p : Provider) (f : fsys) : Provider * bool :=
  if bool_decide (configPath p = "") then (p, false)
  else let '(p, ok) := Load (configPath p) p f in if ok then (PublishEvent p "config.reloaded", true) else (p, false).

Definition Init (i : io) (p : Provider) (f : fsys) : Provider * fsys * bool :=
  if bool_decide (configPath p = "") then (p, f, true)
  else
    let '(p, ok) := Load (configPath p) p f in
    if negb ok then (p, f, false)
    else let '(f, ok) := VerifyIntegrity (sum_ok i) (io_now i) (configPath p) f in
         (p, if ok then f else (UpdateChecksum (sum_ok i) (io_now i) (configPath p) f).1, true).

(** A turn of [watchConfigFile], in the two steps in which it reads the file: the
    check, which takes no lock, and the reload of what is in the file by then. *)
Inductive checked := Idle | Alert | Passed (m : Z).
Definition tick_check (i : io) (p : Provider) (f : fsys) : fsys * checked :=
  if bool_decide (configPath p = "") then (f, Idle)
  else match ModTime f (configPath p) with
  | None => (f, Idle)
  | Some m =>
      if lastModified p <? m then
        let '(f, ok) := VerifyIntegrity (sum_ok i) (io_now i) (configPath p) f in
        (f, if ok then Passed m else Alert)
      else (f, Idle)
  end.
Definition tick_reload (m : Z) (p : Provider) (f : fsys) : Provider :=
  let '(p, ok) := Reload p f in if ok then with_loaded p (configPath p) m else SetHealthy p false.

(** [None] is the panic of closing a closed channel. *)
Definition Stop (p : Provider) : option Provider :=
  if negb (fileWatcher_open p) then None
  else
    let ws := match watchers p with Some m => concat (map_to_list m).*2 | None => [] end in
    let cs := foldl (fun cs i => alter (fun c => mkChan (c_buf c) false) i cs) (chans p) ws in
    Some (PublishEvent (mkProvider (objs p) (config p) (configPath p) None cs false (lastModified p) (healthy p) (events p)) "module.stopped").

(** ** Runs

    [begun] is an [Update] between its file and its checksum, where it holds the lock
    of the settings: what needs the lock waits, but the check of the checksum takes
    no lock.  [checking] is a turn of the watcher between its check and its reload,
    with the time of the file it saw. *)
Record sys := mkSys { prov : Provider; fs : fsys; begun : option (io * ServerConfig); checking : option Z; dead : bool }.
Inductive action :=
  | DoUpdate (i : io) (fn : ServerConfig -> ServerConfig) | BeginUpdate (i : io) (fn : ServerConfig -> ServerConfig) | EndUpdate
  | TickCheck (i : io) | TickReload | DoReload | DoSet (key : string) (v : value) | DoWatch (key : string) | Edit (now : Z) (path : string) (data : list Z) | Remove (path : string).

Definition step (a : action) (s : sys) : option sys :=
  if dead s then None
  else match a with
  | DoUpdate i fn =>
      match begun s with
      | Some _ => None
      | None => let '(p, f, _) := Update i fn (prov s) (fs s) in Some (mkSys p f None (checking s) false)
      end
  | BeginUpdate i fn =>
      match begun s with
      | Some _ => None
      | None =>
          let old := current (prov s) in
          let p := with_config (prov s) (fn old) in
          if bool_decide (configPath p = "") then None
          else let '(f, ok) := save_write i (configPath p) (current p) (fs s) in Some (mkSys p f (if ok then Some (i, old) else None) (checking s) false)
      end
  | EndUpdate =>
      match begun s with
      | None => None
      | Some (i, old) =>
          let '(f, ok) := UpdateChecksum (sum_ok i) (io_now i) (configPath (prov s)) (fs s) in
          Some (mkSys (if ok then notifyChanges old (current (prov s)) (prov s) else prov s) f None (checking s) false)
      end
  | TickCheck i =>
      match checking s with
      | Some _ => None
      | None =>
          let '(f, r) := tick_check i (prov s) (fs s) in
          Some (mkSys (prov s) f (begun s) (match r with Passed m => Some m | _ => None end) (match r with Alert => true | _ => false end))
      end
  | TickReload =>
      match checking s, begun s with
      | Some m, None => Some (mkSys (tick_reload m (prov s) (fs s)) (fs s) None None false)
      | _, _ => None
      end
  | DoReload => match begun s with Some _ => None | None => Some (mkSys (Reload (prov s) (fs s)).1 (fs s) None (checking s) false) end
  | DoSet key v => match begun s with Some _ => None | None => Some (mkSys (Set_ key v (prov s)) (fs s) None (checking s) false) end
  | DoWatch key => '(p, _) ← Watch key (prov s); Some (mkSys p (fs s) (begun s) (checking s) false)
  | Edit now path data => Some (mkSys (prov s) (WriteFile true now path data (fs s)) (begun s) (checking s) false)
  | Remove path => Some (mkSys (prov s) (mkFs (delete path (files (fs s))) (unreadable (fs s))) (begun s) (checking s) false)
  end.
Fixpoint run (l : list action) (s : sys) : option sys :=
  match l with [] => Some s | a :: l => s ← step a s; run l s end.
End Integrity.

Definition HostFromPublicURL (publicURL : string) : string :=
  if bool_decide (publicURL = "") then ""
  else
    let s := TrimPrefix (TrimPrefix publicURL "https://") "http://" in
    let s := string_of_bytes (rev (strip_all (String.length s) [[47]] (rev (bytes_of_string s)))) in
    match SplitHostPort s with Some (h, _) => h | None => s end.
Definition PortFromListenAddr (addr : string) : string := match SplitHostPort addr with Some (_, port) => port | None => addr end.

End ServerCfg.
