(* ===== verification/ServerCfgFacts.v ===== *)
(** Facts about the configuration of the server: what is loaded is valid and stays
    so, what an update saved is what is loaded again, and a file that somebody else
    changed is not loaded. *)

From S2P Require Import Prelude GoIO GoStr NetIP GoPath GoJson TargetGuard Auth AuthFacts ServerCfg.
Import Auth ServerCfg.

(** ** Filling in defaults *)

Lemma fillDuration_range v d : 0 < d <= maxSaneDuration -> 0 < fillDuration v d <= maxSaneDuration.
Proof. unfold fillDuration. intros Hd. destruct (_ || _) eqn:E; [done|]. bool_to_prop. lia. Qed.

Lemma fillDuration_id v d : 0 < v <= maxSaneDuration -> fillDuration v d = v.
Proof. intros Hv. unfold fillDuration. rewrite (proj2 (Z.leb_gt _ _)), (proj2 (Z.ltb_ge _ _)) by lia. done. Qed.

Lemma fillDuration_idem v d : 0 < d <= maxSaneDuration -> fillDuration (fillDuration v d) d = fillDuration v d.
Proof. intros Hd. apply fillDuration_id, fillDuration_range. done. Qed.

Lemma or_default (x d : Z) : d <> 0 -> (if (if x =? 0 then d else x) =? 0 then d else if x =? 0 then d else x) = if x =? 0 then d else x.
Proof. intros Hd. destruct (x =? 0) eqn:E; [rewrite (proj2 (Z.eqb_neq d 0)) by done; done|rewrite E; done]. Qed.

Lemma or_default_string (x d : string) : d <> "" ->
  (if bool_decide ((if bool_decide (x = "") then d else x) = "") then d else if bool_decide (x = "") then d else x) = if bool_decide (x = "") then d else x.
Proof. intros Hd. destruct (bool_decide (x = "")) eqn:E; [rewrite bool_decide_eq_false_2 by done; done|rewrite E; done]. Qed.

Lemma filled_idem c : filled (filled c) = filled c.
Proof.
  unfold filled, with_server. cbn [Server Session Transport Routing Obfuscation API Logging Relay Whispera GRPC YaDisk Inbounds Outbounds StealthMode UpdateSettings Name ListenAddr MTU Workers
    GracefulStop PrivateKey PublicURL MaxSessions SessionTimeout CleanupInterval KeepaliveInterval].
  set (g := if GracefulStop (Server c) =? 0 then _ else _). set (fg := fillDuration g _).
  assert (Hg : 0 < fg <= maxSaneDuration) by (apply fillDuration_range; vm_compute; done).
  rewrite (proj2 (Z.eqb_neq fg 0)) by lia. rewrite !or_default by (vm_compute; discriminate). rewrite or_default_string by (vm_compute; discriminate).
  rewrite (fillDuration_id fg) by done. rewrite !fillDuration_idem by (vm_compute; done). done.
Qed.

(** A configuration that needs no change is valid. *)
Definition settled (c : ServerConfig) : Prop := fill c = Some c.

Lemma fill_settled c c' : fill c = Some c' -> settled c'.
Proof. unfold settled, fill. destruct (validate (filled c)) eqn:E; [|done]. intros [= <-]. rewrite filled_idem, E. done. Qed.

Lemma default_settled : settled DefaultServerConfig.
Proof. vm_compute. reflexivity. Qed.

Definition duration_ok (d : Duration) : Prop := 0 < d <= maxSaneDuration.
Lemma settled_bounds c : settled c ->
  576 <= MTU (Server c) <= 65535 /\ 1 <= MaxSessions (Session c) /\ is_Some (SplitHostPort (ListenAddr (Server c)))
  /\ duration_ok (GracefulStop (Server c)) /\ duration_ok (SessionTimeout (Session c)) /\ duration_ok (CleanupInterval (Session c)) /\ duration_ok (KeepaliveInterval (Session c)).
Proof.
  unfold settled, fill. destruct (validate (filled c)) eqn:E; [|done]. intros [= Hf]. rewrite Hf in E. unfold validate in E. bool_to_prop.
  split_and!; try lia; [done|..]; rewrite <- Hf; cbn -[fillDuration DefaultServerConfig]; apply fillDuration_range; vm_compute; done.
Qed.

(** ** The provider *)

(** What a notification leaves. *)
Lemma notifyWatchers_same key v p : let q := notifyWatchers key v p in
  objs q = objs p /\ config q = config p /\ configPath q = configPath p /\ lastModified q = lastModified p /\ watchers q = watchers p /\ healthy q = healthy p.
Proof. unfold notifyWatchers. destruct (watchers p ≫= lookup key); done. Qed.

Lemma notifyChanges_same old new p : let q := notifyChanges old new p in
  objs q = objs p /\ config q = config p /\ configPath q = configPath p /\ lastModified q = lastModified p /\ watchers q = watchers p /\ healthy q = healthy p.
Proof.
  unfold notifyChanges. cbn zeta.
  assert (Hs : forall (b : bool) key v (p0 : Provider), (objs p0 = objs p /\ config p0 = config p /\ configPath p0 = configPath p /\ lastModified p0 = lastModified p /\ watchers p0 = watchers p /\ healthy p0 = healthy p) ->
    let q := if b then p0 else notifyWatchers key v p0 in objs q = objs p /\ config q = config p /\ configPath q = configPath p /\ lastModified q = lastModified p /\ watchers q = watchers p /\ healthy q = healthy p).
  { intros b key v p0 (E1 & E2 & E3 & E4 & E5 & E6). destruct b; [split_and!; done|]. cbn zeta. destruct (notifyWatchers_same key v p0) as (F1 & F2 & F3 & F4 & F5 & F6).
    rewrite F1, F2, F3, F4, F5, F6. done. }
  do 5 apply Hs. done.
Qed.

Lemma notifyChanges_current old new p : current (notifyChanges old new p) = current p.
Proof. unfold current. destruct (notifyChanges_same old new p) as (-> & -> & _). done. Qed.

Lemma with_config_current p c : current (with_config p c) = c.
Proof. unfold current, with_config. cbn. rewrite lookup_app_r, Nat.sub_diag by lia. done. Qed.

Section Facts.
Context `{Crypto} `{Yaml}.
Variable key : list Z.

Lemma Load_spec source p f : let '(p', ok) := Load source p f in
  if ok then exists data cfg, ReadFile f source = Content data /\ yaml_Unmarshal data DefaultServerConfig ≫= fill = Some cfg /\ current p' = cfg
    /\ configPath p' = source /\ lastModified p' = default (lastModified p) (ModTime f source)
  else p' = p.
Proof.
  unfold Load. destruct (ReadFile f source) as [| |data] eqn:Er; [done..|]. destruct (yaml_Unmarshal data DefaultServerConfig ≫= fill) as [cfg|] eqn:Eu; [|done].
  cbn zeta. exists data, cfg. destruct (notifyChanges_same (current p) cfg (with_loaded (with_config p cfg) source (default (lastModified (with_config p cfg)) (ModTime f source)))) as (E1 & E2 & E3 & E4 & _).
  rewrite E3, E4, notifyChanges_current. split_and!; try done. exact (with_config_current p cfg).
Qed.

(** Memory follows the configuration: [settled] is kept by everything. *)
Lemma Load_settled source p f : settled (current p) -> settled (current (Load source p f).1).
Proof.
  intros Hs. pose proof (Load_spec source p f) as HL. destruct (Load source p f) as [p' [|]]; cbn.
  - destruct HL as (data & cfg & _ & Hf & -> & _). destruct (yaml_Unmarshal data DefaultServerConfig); [|done]. exact (fill_settled _ _ Hf).
  - rewrite HL. done.
Qed.

Lemma Reload_settled p f : settled (current p) -> settled (current (Reload p f).1).
Proof.
  intros Hs. unfold Reload. destruct (bool_decide _); [done|]. pose proof (Load_settled (configPath p) p f Hs) as HL. destruct (Load (configPath p) p f) as [p' [|]]; done.
Qed.

Lemma Update_current i fn p f : current (Update key i fn p f).1.1 = fn (current p).
Proof.
  unfold Update. cbn zeta. destruct (if bool_decide _ then _ else _) as [f' [|]]; cbn [fst]; rewrite ?notifyChanges_current; apply with_config_current.
Qed.

Lemma tick_reload_settled m p f : settled (current p) -> settled (current (tick_reload m p f)).
Proof. intros Hs. unfold tick_reload. pose proof (Reload_settled p f Hs) as HR. destruct (Reload p f) as [p' [|]]; done. Qed.

(** ** Validity *)

(** Changes of the settings that keep them valid. *)
Definition keeps_valid (a : action) : Prop :=
  match a with
  | DoUpdate _ fn | BeginUpdate _ fn => forall c, settled c -> settled (fn c)
  | DoSet k v => forall c, settled c -> settled (set_value k v c)
  | _ => True
  end.

Lemma Set_settled k v p : (forall c, settled c -> settled (set_value k v c)) -> settled (current p) -> settled (current (Set_ k v p)).
Proof.
  intros Hk Hs. unfold Set_, current. destruct (notifyWatchers_same k v (mkProvider (alter (set_value k v) (config p) (objs p)) (config p) (configPath p) (watchers p) (chans p)
    (fileWatcher_open p) (lastModified p) (healthy p) (events p))) as (-> & -> & _). cbn. rewrite list_lookup_alter_eq. unfold current in Hs.
  destruct (objs p !! config p) as [c|]; cbn in *; [auto|exact default_settled].
Qed.

Lemma step_settled a s s' : keeps_valid a -> settled (current (prov s)) -> step key a s = Some s' -> settled (current (prov s')).
Proof.
  intros Hk Hs. unfold step. destruct (dead s); [done|]. destruct a as [i fn|i fn| |i| | |k v|k|now path data|path]; cbn in Hk.
  - destruct (begun s); [done|]. pose proof (Update_current i fn (prov s) (fs s)) as HU. destruct (Update key i fn (prov s) (fs s)) as [[p f] ok]. cbn in HU. intros [= <-]. cbn. rewrite HU. auto.
  - destruct (begun s); [done|]. cbn zeta. destruct (bool_decide _); [done|]. destruct (save_write _ _ _ _) as [f ok]. intros [= <-]. cbn [prov]. rewrite with_config_current. auto.
  - destruct (begun s) as [[i old]|]; [|done]. destruct (UpdateChecksum _ _ _ _ _) as [f [|]]; intros [= <-]; cbn [prov]; rewrite ?notifyChanges_current; done.
  - destruct (checking s); [done|]. destruct (tick_check _ _ _ _) as [f r]. intros [= <-]. done.
  - destruct (checking s) as [m|]; [|done]. destruct (begun s); [done|]. intros [= <-]. cbn. apply tick_reload_settled. done.
  - destruct (begun s); [done|]. intros [= <-]. cbn. apply Reload_settled. done.
  - destruct (begun s); [done|]. intros [= <-]. cbn. apply Set_settled; done.
  - unfold Watch. destruct (watchers (prov s)); [|done]. cbn. intros [= <-]. done.
  - intros [= <-]. done.
  - intros [= <-]. done.
Qed.

Lemma run_settled l s s' : Forall keeps_valid l -> settled (current (prov s)) -> run key l s = Some s' -> settled (current (prov s')).
Proof.
  intros Hl. revert s. induction Hl as [|a l Ha Hl IH]; intros s Hs; cbn; [intros [= <-]; done|].
  destruct (step key a s) as [s1|] eqn:E; [|done]. cbn. apply IH. eapply step_settled; eauto.
Qed.

Lemma Init_settled i path f p f' ok : Init key i (New path) f = (p, f', ok) -> settled (current p).
Proof.
  unfold Init. destruct (bool_decide _); [intros [= <- <- <-]; exact default_settled|].
  pose proof (Load_settled (configPath (New path)) (New path) f default_settled) as HL. destruct (Load (configPath (New path)) (New path) f) as [p1 [|]]; cbn [negb]; [|intros [= <- <- <-]; done].
  destruct (VerifyIntegrity _ _ _ _ _) as [f1 ok1]. intros [= <- <- <-]. done.
Qed.

(** C31: whatever file the server starts with and however it is edited, reloaded,
    changed and watched afterwards, saves failing or not and edits falling between
    the check and the reload of a turn of the watcher too, the settings in use are
    valid: they need no default, the MTU, the number of sessions and the durations are
    within their bounds and the address to listen on has a host and a port; provided
    that the changes made by the program itself keep them so. *)
Theorem settings_always_valid i path f0 p f ok l s : Init key i (New path) f0 = (p, f, ok) -> Forall keeps_valid l -> run key l (mkSys p f None None false) = Some s ->
  let c := current (prov s) in fill c = Some c /\ 576 <= MTU (Server c) <= 65535 /\ 1 <= MaxSessions (Session c) /\ is_Some (SplitHostPort (ListenAddr (Server c)))
    /\ duration_ok (GracefulStop (Server c)) /\ duration_ok (SessionTimeout (Session c)) /\ duration_ok (CleanupInterval (Session c)) /\ duration_ok (KeepaliveInterval (Session c)).
Proof.
  intros Hi Hl Hr. pose proof (run_settled l (mkSys p f None None false) s Hl (Init_settled _ _ _ _ _ _ Hi) Hr) as Hs. split; [exact Hs|apply settled_bounds; done].
Qed.

(** ** Integrity *)

Variable path : string.
Hypothesis path_nonempty : path <> "".
Hypothesis sum_apart : checksum_path path <> path.
Hypothesis bak_apart : String.append path ".bak" <> checksum_path path /\ String.append path ".bak" <> path.

Definition sum_of (data : list Z) : list Z := hex_bytes (hmac_sha256 key data).

(** The file is there and the checksum is that of its content, or is not there yet. *)
Definition intact (f : fsys) : Prop :=
  (path ∉ unreadable f) /\ (checksum_path path ∉ unreadable f)
  /\ exists data m, files f !! path = Some (data, m) /\ (files f !! checksum_path path = None \/ exists m', files f !! checksum_path path = Some (sum_of data, m')).

Lemma ReadFile_content f q data m : q ∉ unreadable f -> files f !! q = Some (data, m) -> ReadFile f q = Content data.
Proof. intros Hu Hf. unfold ReadFile. rewrite Hf, bool_decide_eq_false_2 by done. done. Qed.

Lemma CalculateChecksum_ok f data m : path ∉ unreadable f -> files f !! path = Some (data, m) -> CalculateChecksum key path f = Some (sum_of data).
Proof. intros Hu Hf. unfold CalculateChecksum. rewrite bool_decide_eq_false_2 by done. rewrite (ReadFile_content f path data m) by done. done. Qed.

Lemma UpdateChecksum_intact now f data m : path ∉ unreadable f -> checksum_path path ∉ unreadable f -> files f !! path = Some (data, m) ->
  exists f', UpdateChecksum key true now path f = (f', true) /\ intact f' /\ files f' !! path = files f !! path.
Proof.
  intros Hu1 Hu2 Hf. unfold UpdateChecksum. rewrite (CalculateChecksum_ok f data m) by done. eexists. split; [reflexivity|]. unfold WriteFile. cbn. split.
  - split_and!; [done..|]. exists data, m. cbn. rewrite lookup_insert_ne by done. split; [done|]. right. exists now. apply lookup_insert_eq.
  - rewrite lookup_insert_ne by done. done.
Qed.

Lemma verify_intact now f : intact f -> exists f', VerifyIntegrity key true now path f = (f', true) /\ intact f' /\ files f' !! path = files f !! path.
Proof.
  intros Hi. pose proof Hi as (Hu1 & Hu2 & data & m & Hf & Hsum). unfold VerifyIntegrity. rewrite bool_decide_eq_false_2 by (rewrite Hf; done). destruct Hsum as [Hn|(m' & Hs)].
  - unfold ReadFile. rewrite Hn. eapply UpdateChecksum_intact; done.
  - rewrite (ReadFile_content f (checksum_path path) (sum_of data) m') by done. rewrite (CalculateChecksum_ok f data m) by done. rewrite bool_decide_eq_true_2 by done. eauto.
Qed.

(** Writing the file, with its backup. *)
Lemma save_write_intact i c f f' ok : intact f -> save_write i path c f = (f', ok) ->
  (path ∉ unreadable f') /\ (checksum_path path ∉ unreadable f') /\ files f' !! checksum_path path = files f !! checksum_path path
  /\ if ok then exists data, yaml_Marshal c = Some data /\ files f' !! path = Some (data, io_now i) else files f' !! path = files f !! path.
Proof.
  intros Hi. pose proof Hi as (Hu1 & Hu2 & data & m & Hf & Hsum). unfold save_write. destruct (yaml_Marshal c) as [out|] eqn:Em; [|intros [= <- <-]; done].
  destruct (mkdir_ok i); cbn [negb]; [|intros [= <- <-]; done]. rewrite (ReadFile_content f path data m) by done. destruct bak_apart as [Hb1 Hb2].
  unfold WriteFile. destruct (write_ok i); intros [= <- <-]; cbn; split_and!; try done.
  - rewrite !lookup_insert_ne by done. done.
  - exists out. rewrite lookup_insert_eq. done.
  - rewrite !lookup_insert_ne by done. done.
  - rewrite !lookup_insert_ne by done. done.
Qed.

Lemma Update_intact i fn p f : sum_ok i = true -> configPath p = path -> intact f ->
  exists p' f' ok, Update key i fn p f = (p', f', ok) /\ intact f' /\ configPath p' = path /\ watchers p' = watchers p
    /\ (mkdir_ok i = true -> write_ok i = true -> is_Some (yaml_Marshal (fn (current p))) ->
        exists data m, yaml_Marshal (fn (current p)) = Some data /\ files f' !! path = Some (data, m)).
Proof.
  intros Hok Hp Hi. pose proof Hi as (Hu1 & Hu2 & data0 & m0 & Hf0 & Hsum0). unfold Update, saveConfig. cbn zeta. rewrite with_config_current. cbn [configPath with_config]. rewrite Hp.
  rewrite bool_decide_eq_false_2 by done. destruct (save_write i path (fn (current p)) f) as [f1 ok] eqn:Ew. destruct (save_write_intact i _ f f1 ok Hi Ew) as (Hv1 & Hv2 & Hs & Hr). destruct ok.
  - destruct Hr as (data & Hm & Hf1). rewrite Hok. destruct (UpdateChecksum_intact (io_now i) f1 data (io_now i) Hv1 Hv2 Hf1) as (f2 & -> & Hi2 & Hf2).
    destruct (notifyChanges_same (current p) (fn (current p)) (with_config p (fn (current p)))) as (_ & _ & E3 & _ & E5 & _).
    eexists _, f2, true. split; [reflexivity|]. rewrite E3, E5. split_and!; [done..|]. intros _ _ _. exists data, (io_now i). rewrite Hf2. done.
  - eexists _, f1, false. split; [reflexivity|]. split_and!; [|done..|].
    + split_and!; [done..|]. exists data0, m0. rewrite Hr, Hs. done.
    + intros Hmk Hwr [data Hm]. unfold save_write in Ew. rewrite Hm, Hmk, Hwr in Ew. done.
Qed.

(** A reload when the file holds [c]. *)
Definition file_holds (c : ServerConfig) (f : fsys) : Prop := exists data m, files f !! path = Some (data, m) /\ yaml_Unmarshal data DefaultServerConfig ≫= fill = Some c.

Lemma Load_intact p f : intact f -> let '(p', ok) := Load path p f in
  watchers p' = watchers p /\ (configPath p = path -> configPath p' = path) /\ forall c, file_holds c f -> ok = true /\ current p' = c.
Proof.
  intros (Hu & _ & data & m & Hf & _). unfold Load. rewrite (ReadFile_content f path data m) by done.
  destruct (yaml_Unmarshal data DefaultServerConfig ≫= fill) as [cfg|] eqn:Eu.
  - cbn zeta. destruct (notifyChanges_same (current p) cfg (with_loaded (with_config p cfg) path (default (lastModified (with_config p cfg)) (ModTime f path)))) as (_ & _ & E3 & _ & E5 & _).
    rewrite E3, E5, notifyChanges_current. split_and!; [done..|]. intros c (data' & m' & Hf' & Hc). rewrite Hf in Hf'. injection Hf' as <- <-. rewrite Eu in Hc. injection Hc as <-.
    split; [done|]. exact (with_config_current p cfg).
  - split_and!; [done..|]. intros c (data' & m' & Hf' & Hc). rewrite Hf in Hf'. injection Hf' as <- <-. congruence.
Qed.

Lemma Reload_intact p f : configPath p = path -> intact f -> let '(p', ok) := Reload p f in
  watchers p' = watchers p /\ configPath p' = path /\ forall c, file_holds c f -> ok = true /\ current p' = c.
Proof.
  intros Hp Hi. unfold Reload. rewrite Hp, bool_decide_eq_false_2 by done. pose proof (Load_intact p f Hi) as HL. destruct (Load path p f) as [p' [|]]; destruct HL as (H1 & H2 & H3); auto.
Qed.

(** The provider is at rest and nobody has touched its files. *)
Record calm (s : sys) : Prop := mkCalm {
  cl_alive : dead s = false; cl_rest : begun s = None; cl_path : configPath (prov s) = path; cl_watch : is_Some (watchers (prov s)); cl_files : intact (fs s)
}.

Lemma tick_check_intact i p f : sum_ok i = true -> configPath p = path -> intact f ->
  exists f' r, tick_check key i p f = (f', r) /\ r <> Alert /\ intact f' /\ files f' !! path = files f !! path.
Proof.
  intros Hok Hp Hi. unfold tick_check. rewrite Hp, bool_decide_eq_false_2 by done. destruct (ModTime f path) as [m|]; [|eauto 10].
  destruct (_ <? m); [|eauto 10]. rewrite Hok. destruct (verify_intact (io_now i) f Hi) as (f' & -> & Hi' & Hf'). eauto 10.
Qed.

Lemma tick_reload_intact m p f : configPath p = path -> intact f -> let p' := tick_reload m p f in
  watchers p' = watchers p /\ configPath p' = path /\ forall c, file_holds c f -> current p' = c.
Proof.
  intros Hp Hi. unfold tick_reload. pose proof (Reload_intact p f Hp Hi) as HR. destruct (Reload p f) as [p' ok]. destruct HR as (H1 & H2 & H3).
  destruct ok; (split_and!; [done|done|]); intros c Hc; destruct (H3 c Hc); done.
Qed.

(** What the program itself does, its checksums being written; the steps of the
    watcher come in turn. *)
Definition own (a : action) : Prop :=
  match a with DoUpdate i _ | TickCheck i => sum_ok i = true | TickReload | DoReload | DoSet _ _ | DoWatch _ => True | _ => False end.
Definition in_turn (a : action) (s : sys) : Prop := match a with TickCheck _ => checking s = None | TickReload => checking s <> None | _ => True end.

Lemma step_calm a s : own a -> calm s -> in_turn a s -> exists s', step key a s = Some s' /\ calm s'.
Proof.
  intros Ho Hc Ht. pose proof Hc as [Ha Hb Hp Hw Hi]. unfold step. rewrite Ha. destruct a as [i fn|i fn| |i| | |k v|k|now q data|q]; cbn in Ho, Ht; try done.
  - rewrite Hb. destruct (Update_intact i fn (prov s) (fs s) Ho Hp Hi) as (p' & f' & ok & -> & Hi' & Hp' & Hw' & _). eexists. split; [reflexivity|]. split; cbn; rewrite ?Hw'; done.
  - rewrite Ht. destruct (tick_check_intact i (prov s) (fs s) Ho Hp Hi) as (f' & r & -> & Hr & Hi' & _). eexists. split; [reflexivity|]. split; cbn; [destruct r; done|done..].
  - destruct (checking s) as [m|]; [|done]. rewrite Hb. eexists. split; [reflexivity|]. destruct (tick_reload_intact m (prov s) (fs s) Hp Hi) as (H1 & H2 & _). split; cbn; rewrite ?H1; done.
  - rewrite Hb. eexists. split; [reflexivity|]. pose proof (Reload_intact (prov s) (fs s) Hp Hi) as HR. destruct (Reload (prov s) (fs s)) as [p' ok]. destruct HR as (H1 & H2 & _). split; cbn; rewrite ?H1; done.
  - rewrite Hb. eexists. split; [reflexivity|]. unfold Set_. match goal with |- context [notifyWatchers k v ?q] => destruct (notifyWatchers_same k v q) as (_ & _ & E3 & _ & E5 & _) end.
    split; cbn; rewrite ?E3, ?E5; done.
  - unfold Watch. destruct Hw as [m Hw]. rewrite Hw. cbn. eexists. split; [reflexivity|]. split; cbn; done.
Qed.

Lemma step_in_turn a s s' : step key a s = Some s' -> in_turn a s.
Proof. unfold step, in_turn. destruct (dead s); [done|]. destruct a; try done; destruct (checking s); done. Qed.

Lemma run_calm l s s' : calm s -> Forall own l -> run key l s = Some s' -> calm s'.
Proof.
  intros Hc Hl. revert s Hc. induction Hl as [|a l Ha Hl IH]; intros s Hc; cbn; [intros [= <-]; done|].
  destruct (step key a s) as [s1|] eqn:E; [|done]. cbn. destruct (step_calm a s Ha Hc (step_in_turn a s s1 E)) as (s2 & E2 & Hc2). rewrite E in E2. injection E2 as <-. intros Hr. exact (IH _ Hc2 Hr).
Qed.


(** What reads the file again. *)
Definition quiet (a : action) : Prop := match a with TickCheck i => sum_ok i = true | TickReload | DoReload | DoWatch _ => True | _ => False end.
Lemma quiet_own a : quiet a -> own a.
Proof. destruct a; done. Qed.

Lemma step_quiet a s s' c : quiet a -> calm s -> step key a s = Some s' -> file_holds c (fs s) -> current (prov s) = c -> file_holds c (fs s') /\ current (prov s') = c.
Proof.
  intros Hq Hc Hs Hf Hcur. pose proof Hc as [Ha Hb Hp Hw Hi]. unfold step in Hs. rewrite Ha in Hs. destruct a as [i fn|i fn| |i| | |k v|k|now q data|q]; cbn in Hq; try done.
  - destruct (checking s); [done|]. destruct (tick_check_intact i (prov s) (fs s) Hq Hp Hi) as (f' & r & E & _ & _ & Hfile). rewrite E in Hs. injection Hs as <-. cbn. split; [|done].
    destruct Hf as (data & m & Hd & Hx). exists data, m. rewrite Hfile. done.
  - destruct (checking s) as [m|]; [|done]. rewrite Hb in Hs. injection Hs as <-. cbn. split; [done|]. apply (tick_reload_intact m (prov s) (fs s) Hp Hi). done.
  - rewrite Hb in Hs. injection Hs as <-. cbn. split; [done|]. pose proof (Reload_intact (prov s) (fs s) Hp Hi) as HR. destruct (Reload (prov s) (fs s)). cbn. apply HR. done.
  - unfold Watch in Hs. destruct Hw as [m Hw]. rewrite Hw in Hs. cbn in Hs. injection Hs as <-. done.
Qed.

Lemma run_quiet l s s' c : Forall quiet l -> calm s -> run key l s = Some s' -> file_holds c (fs s) -> current (prov s) = c -> file_holds c (fs s') /\ current (prov s') = c.
Proof.
  intros Hl. revert s. induction Hl as [|a l Ha Hl IH]; intros s Hc; cbn; [intros [= <-]; done|].
  destruct (step key a s) as [s1|] eqn:E; [|done]. cbn. intros Hr Hf Hcur. destruct (step_quiet a s s1 c Ha Hc E Hf Hcur).
  destruct (step_calm a s (quiet_own a Ha) Hc (step_in_turn a s s1 E)) as (s2 & E2 & Hc2). rewrite E in E2. injection E2 as <-. eapply IH; eauto.
Qed.

(** What was saved is what is loaded again: after an update whose writes succeed,
    the watcher, reloads and a restart from the file give the updated settings, if
    these are valid and their YAML is read back as it was written. *)
Lemma update_survives i fn l s s' : calm s
  -> (exists data, yaml_Marshal (fn (current (prov s))) = Some data /\ yaml_Unmarshal data DefaultServerConfig = Some (fn (current (prov s))))
   -> mkdir_ok i = true -> write_ok i = true -> sum_ok i = true -> settled (fn (current (prov s))) -> Forall quiet l ->
  run key (DoUpdate i fn :: l) s = Some s' ->
  current (prov s') = fn (current (prov s)) /\ forall j, let '(p, _, ok) := Init key j (New path) (fs s') in ok = true /\ current p = fn (current (prov s)).
Proof.
  intros Hc (data & Hm & Hun) Hmk Hwr Hok Hset Hl. set (c := fn (current (prov s))) in *. pose proof Hc as [Ha Hb Hp Hw Hi].
  destruct (Update_intact i fn (prov s) (fs s) Hok Hp Hi) as (p1 & f1 & ok & HU & Hi1 & Hp1 & Hw1 & Hfile).
  destruct Hfile as (data' & m & Hm' & Hf1); [done|done|eauto|]. fold c in Hm'. rewrite Hm in Hm'. injection Hm' as <-.
  pose proof (Update_current i fn (prov s) (fs s)) as Hcur. rewrite HU in Hcur. cbn in Hcur.
  cbn [run]. unfold step at 1. rewrite Ha, Hb, HU. cbn [mbind option_bind]. intros Hr.
  assert (Hc1 : calm (mkSys p1 f1 None (checking s) false)) by (split; cbn; rewrite ?Hw1; done).
  pose proof (run_calm l _ s' Hc1 (Forall_impl _ _ _ Hl quiet_own) Hr) as Hc'.
  destruct (run_quiet l _ s' c Hl Hc1 Hr) as [Hf' Hcur']; [exists data, m; rewrite Hun; done|exact Hcur|].
  split; [exact Hcur'|]. intros j. unfold Init. cbn [configPath New].
  rewrite bool_decide_eq_false_2 by done. pose proof (Load_intact (New path) (fs s') (cl_files _ Hc')) as HL. destruct (Load path (New path) (fs s')) as [p2 ok2].
  destruct HL as (_ & _ & HL). destruct (HL c Hf') as [-> Hc2]. cbn [negb]. destruct (VerifyIntegrity _ _ _ _ _) as [f2 ok3]. done.
Qed.

(** A check that finds the file changed. *)
Lemma check_changed i p f data m sum m' : configPath p = path -> path ∉ unreadable f -> checksum_path path ∉ unreadable f -> files f !! path = Some (data, m) ->
  files f !! checksum_path path = Some (sum, m') -> lastModified p < m ->
  tick_check key i p f = (f, if bool_decide (sum_of data = sum) then Passed m else Alert).
Proof.
  intros Hp Hu1 Hu2 Hf Hs Hlt. unfold tick_check. rewrite Hp, (bool_decide_eq_false_2 (path = "")) by done. unfold ModTime. rewrite Hf. cbn [fmap option_fmap option_map snd].
  rewrite (proj2 (Z.ltb_lt _ _)) by done. unfold VerifyIntegrity. rewrite (bool_decide_eq_false_2 (files f !! path = None)) by (rewrite Hf; done).
  rewrite (ReadFile_content f (checksum_path path) sum m') by done. rewrite (CalculateChecksum_ok f data m) by done. done.
Qed.

(** ** Authenticity

    The settings the program itself makes in [l], starting from [c0] with the file
    [d0]: by its own changes, or by loading a file with the MAC of one it wrote. *)
Section Authentic.
Variable l0 : list action.
Variable c0 : ServerConfig.
Variable d0 : list Z.

Inductive honest : ServerConfig -> Prop :=
  | honest_start : honest c0
  | honest_update i fn c : DoUpdate i fn ∈ l0 -> honest c -> honest (fn c)
  | honest_set k v c : DoSet k v ∈ l0 -> honest c -> honest (set_value k v c)
  | honest_load d c : authentic d -> yaml_Unmarshal d DefaultServerConfig ≫= fill = Some c -> honest c
with authentic : list Z -> Prop :=
  | authentic_start d : sum_of d = sum_of d0 -> authentic d
  | authentic_saved d d' c : honest c -> yaml_Marshal c = Some d' -> sum_of d = sum_of d' -> authentic d.

(** The recorded checksum is that of such a file, whatever the file is. *)
Definition recorded (f : fsys) : Prop :=
  (path ∉ unreadable f) /\ (checksum_path path ∉ unreadable f)
  /\ exists d m, files f !! checksum_path path = Some (sum_of d, m) /\ authentic d.

(** What may happen: the program's updates, sets and new watchers, and edits and
    removals of every file but that of the checksum. *)
Definition orderly (a : action) : Prop :=
  match a with
  | DoUpdate _ _ | DoSet _ _ | DoWatch _ => True
  | Edit _ q _ | Remove q => q <> checksum_path path
  | _ => False
  end.
(** A turn of the watcher in which nothing comes between the check and the reload. *)
Inductive orderly_run : list action -> Prop :=
  | orderly_nil : orderly_run []
  | orderly_cons a l : orderly a -> orderly_run l -> orderly_run (a :: l)
  | orderly_turn i l : orderly_run l -> orderly_run (TickCheck i :: TickReload :: l)
  | orderly_check i l : orderly_run l -> orderly_run (TickCheck i :: l).

Record guarded (s : sys) : Prop := mkGuarded {
  gd_rest : begun s = None; gd_path : configPath (prov s) = path; gd_files : recorded (fs s); gd_bound : (config (prov s) < length (objs (prov s)))%nat; gd_honest : honest (current (prov s))
}.

Lemma authentic_sum d d' : sum_of d = sum_of d' -> authentic d' -> authentic d.
Proof. intros E Hd. revert E. destruct Hd; intros E; [apply authentic_start|eapply authentic_saved; eauto]; congruence. Qed.

Lemma save_write_recorded i c f f' ok : save_write i path c f = (f', ok) ->
  unreadable f' = unreadable f /\ files f' !! checksum_path path = files f !! checksum_path path
  /\ (ok = true -> exists data, yaml_Marshal c = Some data /\ files f' !! path = Some (data, io_now i)).
Proof.
  unfold save_write. destruct (yaml_Marshal c) as [out|]; [|intros [= <- <-]; done]. destruct (mkdir_ok i); cbn [negb]; [|intros [= <- <-]; done].
  destruct bak_apart as [Hb1 Hb2]. intros [= <- <-]. unfold WriteFile. destruct (write_ok i), (ReadFile f path); cbn; split_and!; try done;
    rewrite ?lookup_insert_ne by done; try done; intros _; exists out; rewrite lookup_insert_eq; done.
Qed.

Lemma Update_recorded i fn p f p' f' ok : Update key i fn p f = (p', f', ok) -> configPath p = path -> recorded f -> honest (fn (current p)) ->
  configPath p' = path /\ recorded f' /\ (config p' < length (objs p'))%nat.
Proof.
  intros HU Hp Hr Hh. pose proof Hr as (Hu1 & Hu2 & d & m & Hs & Hd). unfold Update, saveConfig in HU. cbn zeta in HU. rewrite with_config_current in HU. cbn [configPath with_config] in HU.
  rewrite Hp, bool_decide_eq_false_2 in HU by done. destruct (save_write i path (fn (current p)) f) as [f1 ok1] eqn:Ew. destruct (save_write_recorded i _ f f1 ok1 Ew) as (Hu & Hs1 & Hw).
  assert (Hr1 : recorded f1) by (split; [rewrite Hu; done|]; split; [rewrite Hu; done|]; exists d, m; rewrite Hs1; done).
  assert (Hb : forall q, objs q = objs (with_config p (fn (current p))) -> config q = config (with_config p (fn (current p))) -> (config q < length (objs q))%nat).
  { intros q -> ->. cbn. rewrite length_app. cbn. lia. }
  destruct (notifyChanges_same (current p) (fn (current p)) (with_config p (fn (current p)))) as (E1 & E2 & E3 & _).
  destruct ok1; [|injection HU as <- <- <-; auto]. destruct Hw as (out & Hm & Hf1); [done|]. unfold UpdateChecksum in HU. rewrite (CalculateChecksum_ok f1 out (io_now i)) in HU by (rewrite ?Hu; done).
  destruct (sum_ok i); injection HU as <- <- <-; rewrite ?E3; (split; [done|]); (split; [|auto]); unfold WriteFile; [|done].
  split; [cbn; rewrite Hu; done|]. split; [cbn; rewrite Hu; done|]. exists out, (io_now i). cbn. rewrite lookup_insert_eq. split; [done|]. eapply authentic_saved; eauto.
Qed.

(** A check leaves the files as they are, and passes only an authentic one. *)
Lemma tick_check_recorded i p f f' r : tick_check key i p f = (f', r) -> configPath p = path -> recorded f ->
  f' = f /\ forall m, r = Passed m -> exists data, ReadFile f path = Content data /\ authentic data.
Proof.
  intros Ht Hp (Hu1 & Hu2 & d & m & Hs & Hd). unfold tick_check in Ht. rewrite Hp, bool_decide_eq_false_2 in Ht by done. unfold ModTime in Ht.
  destruct (files f !! path) as [[data mt]|] eqn:Ef; [|injection Ht as <- <-; done]. cbn [fmap option_fmap option_map snd] in Ht. destruct (_ <? mt); [|injection Ht as <- <-; done].
  unfold VerifyIntegrity in Ht. rewrite bool_decide_eq_false_2 in Ht by (rewrite Ef; done). rewrite (ReadFile_content f (checksum_path path) (sum_of d) m) in Ht by done.
  rewrite (CalculateChecksum_ok f data mt) in Ht by done. injection Ht as <- <-. split; [done|]. intros m1. destruct (bool_decide _) eqn:Eb; [|done]. intros _.
  apply bool_decide_eq_true_1 in Eb. exists data. split; [exact (ReadFile_content f path data mt Hu1 Ef)|]. exact (authentic_sum data d Eb Hd).
Qed.

Lemma tick_reload_honest m p f data : configPath p = path -> (config p < length (objs p))%nat -> honest (current p) -> ReadFile f path = Content data -> authentic data ->
  let p' := tick_reload m p f in configPath p' = path /\ (config p' < length (objs p'))%nat /\ honest (current p').
Proof.
  intros Hp Hb Hh Hr Ha. unfold tick_reload, Reload, Load. rewrite Hp, bool_decide_eq_false_2 by done. rewrite Hr.
  destruct (yaml_Unmarshal data DefaultServerConfig ≫= fill) as [cfg|] eqn:Eu; [|done]. cbn zeta.
  set (q := with_loaded (with_config p cfg) _ _). set (n := notifyChanges (current p) cfg q). destruct (notifyChanges_same (current p) cfg q) as (E1 & E2 & E3 & _). fold n in E1, E2, E3.
  split; [exact E3|]. split; [cbn; rewrite E1, E2; cbn; rewrite length_app; cbn; lia|]. change (honest (current n)). unfold n. rewrite notifyChanges_current.
  change (honest (current (with_config p cfg))). rewrite with_config_current. eapply honest_load; eauto.
Qed.

Lemma step_guarded a s s' : orderly a -> a ∈ l0 -> guarded s -> step key a s = Some s' -> guarded s'.
Proof.
  intros Ho Hin [Hb Hp Hr Hc Hh]. pose proof Hr as (Hu1 & Hu2 & d & m & Hs & Hd). unfold step. destruct (dead s); [done|]. destruct a as [i fn|i fn| |i| | |k v|k|now q data|q]; cbn in Ho; try done.
  - rewrite Hb. destruct (Update key i fn (prov s) (fs s)) as [[p f] ok] eqn:EU. intros [= <-]. pose proof (Update_current i fn (prov s) (fs s)) as Hcur. rewrite EU in Hcur. cbn in Hcur.
    assert (Hf : honest (fn (current (prov s)))) by (eapply honest_update; eauto). destruct (Update_recorded _ _ _ _ _ _ _ EU Hp Hr Hf) as (? & ? & ?). split; cbn; try done. rewrite Hcur. done.
  - rewrite Hb. intros [= <-]. unfold Set_. match goal with |- context [notifyWatchers k v ?q] => destruct (notifyWatchers_same k v q) as (E1 & E2 & E3 & _) end. split; cbn; try done.
    + rewrite E3. done.
    + rewrite E1, E2. cbn. rewrite length_alter. done.
    + unfold current. rewrite E1, E2. cbn. rewrite list_lookup_alter_eq. apply lookup_lt_is_Some in Hc as [c Hcc]. unfold current in Hh. rewrite Hcc in *. cbn in *. eapply honest_set; eauto.
  - unfold Watch. destruct (watchers (prov s)); [|done]. cbn. intros [= <-]. split; done.
  - intros [= <-]. split; cbn; try done. split; [done|]. split; [done|]. exists d, m. cbn. rewrite lookup_insert_ne by done. done.
  - intros [= <-]. split; cbn; try done. split; [done|]. split; [done|]. exists d, m. cbn. rewrite lookup_delete_ne by done. done.
Qed.

Lemma check_guarded i s s' : guarded s -> step key (TickCheck i) s = Some s' ->
  guarded s' /\ forall m, checking s' = Some m -> exists data, ReadFile (fs s') path = Content data /\ authentic data.
Proof.
  intros [Hb Hp Hr Hc Hh]. unfold step. destruct (dead s); [done|]. destruct (checking s); [done|]. destruct (tick_check key i (prov s) (fs s)) as [f r] eqn:Et. intros [= <-].
  destruct (tick_check_recorded i _ _ f r Et Hp Hr) as [-> Hpass]. split; [split; done|]. cbn. intros m Hm. apply (Hpass m). destruct r; congruence.
Qed.

Lemma turn_guarded i s s1 s' : guarded s -> step key (TickCheck i) s = Some s1 -> step key TickReload s1 = Some s' -> guarded s'.
Proof.
  intros Hg E1. destruct (check_guarded i s s1 Hg E1) as [[Hb Hp Hr Hc Hh] Hpass]. unfold step. destruct (dead s1); [done|]. destruct (checking s1) as [m|]; [|done]. rewrite Hb. intros [= <-].
  destruct (Hpass m eq_refl) as (data & Hd & Ha). destruct (tick_reload_honest m (prov s1) (fs s1) data Hp Hc Hh Hd Ha) as (? & ? & ?). split; done.
Qed.

Lemma run_guarded l s s' : orderly_run l -> l ⊆ l0 -> guarded s -> run key l s = Some s' -> guarded s'.
Proof.
  intros Ho. revert s. induction Ho as [|a l Ha Ho IH|i l Ho IH|i l Ho IH]; intros s Hl Hg; cbn [run].
  - intros [= <-]. done.
  - destruct (step key a s) as [s1|] eqn:E; [|done]. cbn. apply IH; [set_solver|]. eapply step_guarded; eauto. set_solver.
  - destruct (step key (TickCheck i) s) as [s1|] eqn:E1; [|done]. cbn [mbind option_bind]. destruct (step key TickReload s1) as [s2|] eqn:E2; [|done]. cbn. apply IH; [set_solver|]. eapply turn_guarded; eauto.
  - destruct (step key (TickCheck i) s) as [s1|] eqn:E1; [|done]. cbn. apply IH; [set_solver|]. eapply check_guarded; eauto.
Qed.
End Authentic.

(** A running provider at rest, with the checksum of [d0] on record. *)
Record ready (d0 : list Z) (s : sys) : Prop := mkReady {
  rd_rest : begun s = None; rd_path : configPath (prov s) = path; rd_bound : (config (prov s) < length (objs (prov s)))%nat;
  rd_file : path ∉ unreadable (fs s); rd_sum : checksum_path path ∉ unreadable (fs s); rd_recorded : exists m, files (fs s) !! checksum_path path = Some (sum_of d0, m)
}.


Lemma run_cons a l s s1 : step key a s = Some s1 -> run key (a :: l) s = run key l s1.
Proof. intros E. cbn. rewrite E. done. Qed.

Lemma step_Edit now q data s : dead s = false -> step key (Edit now q data) s = Some (mkSys (prov s) (WriteFile true now q data (fs s)) (begun s) (checking s) false).
Proof. intros Hd. unfold step. rewrite Hd. done. Qed.

(** What the conditions exclude does happen: a file put in place between the check
    and the reload is loaded whatever its MAC is, *)
Lemma tick_reload_loads m p f data c : configPath p = path -> ReadFile f path = Content data -> yaml_Unmarshal data DefaultServerConfig ≫= fill = Some c -> current (tick_reload m p f) = c.
Proof.
  intros Hp Hr Hc. unfold tick_reload, Reload, Load. rewrite Hp, bool_decide_eq_false_2 by done. rewrite Hr, Hc. cbn zeta.
  set (q := with_loaded (with_config p c) _ _). change (current (notifyChanges (current p) c q) = c). rewrite notifyChanges_current. exact (with_config_current p c).
Qed.

Lemma swapped_loaded m s now evil c : dead s = false -> begun s = None -> checking s = Some m -> configPath (prov s) = path -> path ∉ unreadable (fs s) ->
  yaml_Unmarshal evil DefaultServerConfig ≫= fill = Some c -> exists s', run key [Edit now path evil; TickReload] s = Some s' /\ dead s' = false /\ current (prov s') = c.
Proof.
  intros Hd Hb Hk Hp Hu Hc. rewrite (run_cons _ _ _ _ (step_Edit now path evil s Hd)). cbn [run step dead checking begun]. rewrite Hk, Hb. eexists. split; [reflexivity|]. split; [done|]. cbn [prov fs].
  eapply tick_reload_loads; [done| |exact Hc]. eapply ReadFile_content; [done|]. unfold WriteFile. cbn. apply lookup_insert_eq.
Qed.

(** and one written between the file and the checksum of an update is given the
    checksum. *)
Lemma edit_in_update_recorded s i old now evil : dead s = false -> begun s = Some (i, old) -> sum_ok i = true -> configPath (prov s) = path -> path ∉ unreadable (fs s) ->
  exists s' m, run key [Edit now path evil; EndUpdate] s = Some s' /\ files (fs s') !! path = Some (evil, now) /\ files (fs s') !! checksum_path path = Some (sum_of evil, m).
Proof.
  intros Hd Hb Hok Hp Hu. rewrite (run_cons _ _ _ _ (step_Edit now path evil s Hd)). cbn [run step dead checking begun]. rewrite Hb. cbn [prov fs]. unfold UpdateChecksum. rewrite Hp, Hok.
  rewrite (CalculateChecksum_ok _ evil now); [|done|unfold WriteFile; cbn; apply lookup_insert_eq].
  eexists _, (io_now i). split; [reflexivity|]. unfold WriteFile. cbn. rewrite lookup_insert_ne, !lookup_insert_eq by done. done.
Qed.

(** The check takes no lock: between the file and the checksum of an update of the
    program itself, a check ends the process. *)
Lemma update_race_kills s i j fn data m m' out : calm s -> checking s = None -> files (fs s) !! path = Some (data, m) -> files (fs s) !! checksum_path path = Some (sum_of data, m') ->
  mkdir_ok i = true -> write_ok i = true -> yaml_Marshal (fn (current (prov s))) = Some out -> sum_of out <> sum_of data -> lastModified (prov s) < io_now i ->
  exists s', run key [BeginUpdate i fn; TickCheck j] s = Some s' /\ dead s' = true.
Proof.
  intros [Ha Hb Hp Hw Hi] Hk Hf Hs Hmk Hwr Hm Hne Hlt. destruct (save_write i path (fn (current (prov s))) (fs s)) as [f1 ok] eqn:Ew. destruct (save_write_intact i _ _ f1 ok Hi Ew) as (Hu1 & Hu2 & Hs1 & Hr).
  assert (ok = true) as -> by (unfold save_write in Ew; rewrite Hm, Hmk, Hwr in Ew; injection Ew; auto). destruct Hr as (out' & Hm' & Hf1). rewrite Hm in Hm'. injection Hm' as <-.
  set (p1 := with_config (prov s) (fn (current (prov s)))).
  assert (E : step key (BeginUpdate i fn) s = Some (mkSys p1 f1 (Some (i, current (prov s))) None false)).
  { unfold step. rewrite Ha, Hb, Hk. cbn zeta. rewrite with_config_current. cbn [configPath with_config]. rewrite Hp, bool_decide_eq_false_2 by done. rewrite Ew. done. }
  rewrite (run_cons _ _ _ _ E). cbn [run step dead checking prov fs]. rewrite (check_changed j p1 f1 out (io_now i) (sum_of data) m' Hp Hu1 Hu2 Hf1 ltac:(congruence) Hlt).
  rewrite bool_decide_eq_false_2 by done. eexists. split; [reflexivity|]. done.
Qed.

(** An update that could not be saved is in use all the same. *)
Lemma failed_update_in_use i fn p f p' f' : Update key i fn p f = (p', f', false) -> current p' = fn (current p).
Proof. intros Hu. pose proof (Update_current i fn p f) as Hc. rewrite Hu in Hc. done. Qed.

(** Without its checksum a file of anybody is loaded. *)
Lemma missing_sum_accepts s i now evil c : calm s -> checking s = None -> sum_ok i = true -> lastModified (prov s) < now -> yaml_Unmarshal evil DefaultServerConfig ≫= fill = Some c ->
  exists s', run key [Remove (checksum_path path); Edit now path evil; TickCheck i; TickReload] s = Some s' /\ dead s' = false /\ current (prov s') = c.
Proof.
  intros [Ha Hb Hp Hw Hi] Hk Hok Hlt Hc. pose proof Hi as (Hu1 & Hu2 & _).
  set (f1 := mkFs (delete (checksum_path path) (files (fs s))) (unreadable (fs s))). set (f2 := WriteFile true now path evil f1).
  assert (Hf2 : files f2 !! path = Some (evil, now)) by (unfold f2, WriteFile; cbn; apply lookup_insert_eq).
  assert (Hi2 : intact f2) by (split_and!; [done..|]; exists evil, now; split; [done|]; left; unfold f2, WriteFile; cbn; rewrite lookup_insert_ne by done; apply lookup_delete_eq).
  assert (Hck : exists f3, tick_check key i (prov s) f2 = (f3, Passed now) /\ intact f3 /\ files f3 !! path = Some (evil, now)).
  { unfold tick_check. rewrite Hp, bool_decide_eq_false_2 by done. unfold ModTime. rewrite Hf2. cbn [fmap option_fmap option_map snd]. rewrite (proj2 (Z.ltb_lt _ _)) by done. rewrite Hok.
    destruct (verify_intact (io_now i) f2 Hi2) as (f3 & -> & Hi3 & Hf3). exists f3. rewrite Hf3, Hf2. done. }
  destruct Hck as (f3 & Hck & Hi3 & Hf3).
  assert (E : step key (Remove (checksum_path path)) s = Some (mkSys (prov s) f1 None None false)) by (unfold step; rewrite Ha, Hb, Hk; done).
  rewrite (run_cons _ _ _ _ E), (run_cons _ _ _ _ (step_Edit now path evil (mkSys (prov s) f1 None None false) eq_refl)). cbn [prov fs begun checking]. fold f2.
  assert (E2 : step key (TickCheck i) (mkSys (prov s) f2 None None false) = Some (mkSys (prov s) f3 None (Some now) false)) by (cbn [step dead checking prov fs]; rewrite Hck; done).
  rewrite (run_cons _ _ _ _ E2). cbn [run step dead prov fs begun checking mbind option_bind]. eexists. split; [reflexivity|]. split; [done|]. cbn [prov].
  eapply tick_reload_loads; [done| |exact Hc]. destruct Hi3 as [Hu3 _]. exact (ReadFile_content f3 path evil now Hu3 Hf3).
Qed.
End Facts.

Module CfgWitnesses.

(** A format that keeps the MTU only. *)
Definition with_mtu (n : Z) (c : ServerConfig) : ServerConfig :=
  with_server c (mkSettings (Name (Server c)) (ListenAddr (Server c)) n (Workers (Server c)) (GracefulStop (Server c)) (PrivateKey (Server c)) (PublicURL (Server c))) (Session c).
#[local] Instance mtu_yaml : Yaml := {|
  yaml_Marshal c := Some [MTU (Server c)];
  yaml_Unmarshal data d := match data with [n] => Some (with_mtu n d) | _ => None end
|}.
#[local] Instance plain_mac : Crypto := {| hmac_sha256 k m := k ++ m; derive_auth k := k |}.

Definition ex_path : string := "/etc/whispera/config.yaml".
Definition ex_key : list Z := [7].
Definition ex_io : io := mkIo 20 true None true true.
Definition ex_fs : fsys := mkFs {[ ex_path := ([1400], 10) ]} ∅.
Definition ex_init := Init ex_key ex_io (New ex_path) ex_fs.
Definition ex_sys : sys := mkSys ex_init.1.1 ex_init.1.2 None None false.
Definition ex_late : io := mkIo 40 true None true true.
Definition ex_actions : list action := [DoUpdate ex_io (with_mtu 1300); TickCheck ex_late; DoWatch "outbounds"; TickReload; DoReload; DoUpdate (mkIo 50 true (Some []) false true) (with_mtu 1200); TickCheck ex_late].

Lemma ex_path_facts : ex_path <> "" /\ checksum_path ex_path <> ex_path /\ (String.append ex_path ".bak" <> checksum_path ex_path /\ String.append ex_path ".bak" <> ex_path).
Proof. split_and!; vm_compute; discriminate. Qed.

Lemma ex_calm : calm ex_key ex_path ex_sys.
Proof.
  split; [reflexivity|reflexivity|vm_compute; reflexivity|vm_compute; eauto|].
  assert (Hu : unreadable (fs ex_sys) = ∅) by (vm_compute; reflexivity). unfold intact. rewrite Hu. split; [apply not_elem_of_empty|]. split; [apply not_elem_of_empty|].
  exists [1400], 10. split; [vm_compute; reflexivity|]. right. exists 20. vm_compute. reflexivity.
Qed.

Lemma settings_always_valid_witness : exists s, run ex_key [DoUpdate ex_io (fun c => c); TickCheck ex_late; Edit 30 ex_path [3]; TickReload] ex_sys = Some s /\ 576 <= MTU (Server (current (prov s))) <= 65535.
Proof.
  destruct (run ex_key [DoUpdate ex_io (fun c => c); TickCheck ex_late; Edit 30 ex_path [3]; TickReload] ex_sys) as [s|] eqn:E; [|vm_compute in E; discriminate E].
  pose proof (settings_always_valid ex_key ex_io ex_path ex_fs ex_init.1.1 ex_init.1.2 ex_init.2 [DoUpdate ex_io (fun c => c); TickCheck ex_late; Edit 30 ex_path [3]; TickReload] s) as Hv.
  specialize (Hv ltac:(vm_compute; reflexivity)). specialize (Hv ltac:(repeat constructor; cbn; auto) E). exists s. split; [reflexivity|]. apply Hv.
Defined.


(** The file is saved, replaced with an old time, which is not noticed, and then with
    a new one. *)
Definition ex_tampered : list action := [DoUpdate ex_io (with_mtu 1300); TickCheck ex_late; TickReload; Edit 5 ex_path [9000]; TickCheck ex_late; Edit 30 ex_path [9000]].

Lemma ex_ready : ready ex_key ex_path [1400] ex_sys.
Proof.
  assert (Hu : unreadable (fs ex_sys) = ∅) by (vm_compute; reflexivity).
  split; [reflexivity|vm_compute; reflexivity|vm_compute; lia|rewrite Hu; apply not_elem_of_empty|rewrite Hu; apply not_elem_of_empty|exists 20; vm_compute; reflexivity].
Qed.


End CfgWitnesses.
