(* ===== verification/ApiServer.v ===== *)
(** The HTTP server of the administration API, core/apiserver: the chain of
    middlewares of middleware.go and auth.go as api.go composes it, the routes, and
    the handlers of the outbounds of outbound.go.

    A handler works on the state of the server, on the response that is being
    written, and on a world [W] of its own; it may panic.  [http.ServeMux] dispatches
    to a handler or answers by itself, of which the status is modelled; the file
    server is one of the [Handlers].  Contexts and their deadlines are not modelled. *)

From S2P Require Import Prelude GoIO GoStr NetIP GoPath GoJson Auth ConnKey ServerCfg.

Module ApiServer.

Record Config := mkConfig { ListenAddr : string; AuthToken : string; WebRoot : string; EnableCORS : bool; AllowedOrigins : list string }.

(** A request: [Path] is [EscapedPath] without its escapes; of a header the first
    value is kept, under its canonical name. *)
Record request := mkRequest {
  Method : string; EscapedPath : list Z; Path : string; RawQuery : string; Host : string; RemoteAddr : string; Header : list (string * string); TLS : bool;
  Body : list Z; BodyLimit : option Z
}.
Definition header (r : request) (name : string) : string :=
  match list_find (fun h => h.1 = name) (Header r) with Some (_, h) => h.2 | None => "" end.

Record writer := mkWriter { headers : gmap string string; status : option Z; body : list Z }.
Definition set_header (k v : string) (w : writer) : writer := mkWriter (<[k := v]> (headers w)) (status w) (body w).
(** The first status counts. *)
Definition WriteHeader (code : Z) (w : writer) : writer := mkWriter (headers w) (match status w with Some c => Some c | None => Some code end) (body w).
Definition write (l : list Z) (w : writer) : writer := let w := WriteHeader 200 w in mkWriter (headers w) (status w) (body w ++ l).
(** [http.Error] *)
Definition http_Error (msg : string) (code : Z) (w : writer) : writer :=
  let w := mkWriter (delete "Content-Length" (headers w)) (status w) (body w) in
  let w := set_header "X-Content-Type-Options" "nosniff" (set_header "Content-Type" "text/plain; charset=utf-8" w) in
  write (bytes_of_string msg ++ [10]) (WriteHeader code w).

Definition quoted (s : string) : string := string_of_bytes (34 :: bytes_of_string s ++ [34]).
Definition error_text (msg : string) : string := string_of_bytes (GoJson.print (GoJson.JObj [(bytes_of_string "error", GoJson.JStr (bytes_of_string msg))])).

Record apiRateBucket := mkBucket { tokens : float; lastTime : Z }.
Record Server := mkServer { activeConns : gmap string Z; apiRateBuckets : gmap string apiRateBucket; apiRateClean : Z; inflight : Z; lastActivity : Z }.
Definition maxConnsPerIP : Z := 50.

Definition with_conns (s : Server) (m : gmap string Z) : Server := mkServer m (apiRateBuckets s) (apiRateClean s) (inflight s) (lastActivity s).
Definition with_rate (s : Server) (m : gmap string apiRateBucket) (t : Z) : Server := mkServer (activeConns s) m t (inflight s) (lastActivity s).
Definition with_inflight (s : Server) (n : Z) : Server := mkServer (activeConns s) (apiRateBuckets s) (apiRateClean s) n (lastActivity s).
Definition UpdateActivity (now : Z) (s : Server) : Server := mkServer (activeConns s) (apiRateBuckets s) (apiRateClean s) (inflight s) now.

(** ** Clients *)

Definition trusted : list string := ["127.0.0.0/8"; "::1/128"; "10.0.0.0/8"; "172.16.0.0/12"; "192.168.0.0/16"; "fc00::/7"].
Definition isTrustedProxy (ip : string) : bool :=
  match ParseIP ip with
  | None => false
  | Some parsed => existsb (fun cidr => match ParseCIDR cidr with Some n => IPNet_Contains n parsed | None => false end) trusted
  end.
(** The last of [parts] that is not a trusted proxy. *)
Fixpoint last_untrusted (parts : list string) : option string :=
  match parts with
  | [] => None
  | p :: parts =>
      match last_untrusted parts with
      | Some ip => Some ip
      | None => let ip := TrimSpace p in if negb (bool_decide (ip = "")) && negb (isTrustedProxy ip) then Some ip else None
      end
  end.
Definition getClientIP (r : request) : string :=
  let remoteIP := match SplitHostPort (RemoteAddr r) with Some (h, _) => h | None => "" end in
  if negb (isTrustedProxy remoteIP) then remoteIP
  else
    let xff := header r "X-Forwarded-For" in
    match (if bool_decide (xff = "") then None else last_untrusted (map string_of_bytes (split_all 44 (bytes_of_string xff)))) with
    | Some ip => ip
    | None => let xri := header r "X-Real-Ip" in if bool_decide (xri = "") then remoteIP else TrimSpace xri
    end.

Definition tokenMatches (cfg : Config) (r : request) : bool :=
  if bool_decide (AuthToken cfg = "") then false
  else
    let token := ConnKey.query_get (RawQuery r) "token" in
    let authHdr := header r "Authorization" in
    let token := if HasPrefix authHdr "Bearer " then TrimPrefix authHdr "Bearer " else token in
    bool_decide (token = AuthToken cfg).

Section Chain.
Context {W : Type} `{UnicodeFold}.
Variable cfg : Config.
(** The time of the request, and whether HTTP/3 is served. *)
Variable now : Z.
Variable http3 : bool.

Record st := mkSt { srv : Server; wr : writer; world : W }.
(** The last component of a result is a panic. *)
Definition handler := request -> st -> st * bool.
Definition with_srv (x : st) (s : Server) : st := mkSt s (wr x) (world x).
Definition with_wr (x : st) (w : writer) : st := mkSt (srv x) w (world x).

(** ** Middlewares *)

Definition isAllowedOrigin (origin : string) : bool :=
  match AllowedOrigins cfg with
  | [] => true
  | o :: _ => bool_decide (o = "*") || existsb (fun o => EqualFold o origin) (AllowedOrigins cfg)
  end.

Definition trim_slashes (s : string) : string := string_of_bytes (rev (strip_all (String.length s) [[47]] (rev (bytes_of_string s)))).
(** What follows the first "://". *)
Fixpoint after_scheme (l : list Z) : option (list Z) :=
  match strip_prefix [58; 47; 47] l with
  | Some r => Some r
  | None => match l with [] => None | _ :: l => after_scheme l end
  end.
Definition host_part (s : string) : string := match SplitHostPort s with Some (h, _) => h | None => s end.
Definition allowed_origin (r : request) : string :=
  let origin := header r "Origin" in
  match AllowedOrigins cfg with
  | _ :: _ => if existsb (fun a => bool_decide (a = origin) || bool_decide (a = "*")) (AllowedOrigins cfg) then origin else ""
  | [] =>
      if bool_decide (origin = "") then ""
      else
        let originHost := match after_scheme (bytes_of_string origin) with Some l => string_of_bytes l | None => origin end in
        if bool_decide (host_part (trim_slashes originHost) = host_part (Host r)) then origin else ""
  end.
Definition corsMiddleware (next : handler) : handler := fun r x =>
  let a := allowed_origin r in
  let w := wr x in
  let w := if bool_decide (a = "") then w else set_header "Access-Control-Allow-Credentials" "true" (set_header "Access-Control-Allow-Origin" a w) in
  let w := set_header "Access-Control-Allow-Methods" "GET, POST, PUT, DELETE, OPTIONS" w in
  let w := set_header "Access-Control-Allow-Headers" "Authorization, Content-Type" w in
  let w := set_header "Access-Control-Max-Age" "3600" w in
  if bool_decide (Method r = "OPTIONS") then (with_wr x (WriteHeader 204 w), false) else next r (with_wr x w).

Definition security_headers (r : request) (w : writer) : writer :=
  let w := set_header "X-Content-Type-Options" "nosniff" w in
  let w := set_header "X-Frame-Options" "DENY" w in
  let w := set_header "X-XSS-Protection" "1; mode=block" w in
  let w := set_header "Referrer-Policy" "strict-origin-when-cross-origin" w in
  let w := set_header "Permissions-Policy" "camera=(), microphone=(), geolocation=(), interest-cohort=()" w in
  let w := set_header "Cache-Control" "no-store, no-cache, must-revalidate, private" w in
  let w := if TLS r then
             let w := set_header "Strict-Transport-Security" "max-age=63072000; includeSubDomains; preload" w in
             if http3 then
               set_header "Alt-Svc" (String.append "h3=" (String.append (quoted (ListenAddr cfg)) "; ma=86400")) w
             else w
           else w in
  if HasPrefix (Path r) "/api/" || HasPrefix (Path r) "/sub/" then set_header "Content-Security-Policy" "default-src 'none'" w
  else set_header "Content-Security-Policy" "default-src 'self'; script-src 'self' 'unsafe-inline'; style-src 'self' 'unsafe-inline'; img-src 'self' data: blob:; font-src 'self' data:; connect-src 'self'" w.
(** A request that changes something has an origin that is allowed, or a body that a
    form cannot send. *)
Definition origin_refused (r : request) : bool :=
  HasPrefix (Path r) "/api/" && negb (bool_decide (Method r ∈ ["GET"; "HEAD"; "OPTIONS"]))
  && (let origin := header r "Origin" in
      if bool_decide (origin = "") then
        bool_decide (header r "Referer" = "")
        && (let ct := header r "Content-Type" in negb (Contains ct "application/json") && negb (Contains ct "multipart/form-data"))
      else negb (isAllowedOrigin origin)).
Definition securityHeadersMiddleware (next : handler) : handler := fun r x =>
  let x := with_wr x (security_headers r (wr x)) in
  if origin_refused r then
    (with_wr x (http_Error (if bool_decide (header r "Origin" = "") then (error_text "missing origin") else (error_text "origin not allowed")) 403 (wr x)), false)
  else next r x.

Definition requireAdmin (r : request) (x : st) : st * bool :=
  if tokenMatches cfg r then (x, true) else (with_wr x (http_Error (error_text "admin access required") 403 (wr x)), false).

Definition maxAPIBodyBytes : Z := 1048576.
(** [http.MaxBytesReader] around the body. *)
Definition limit_body (n : Z) (r : request) : request :=
  mkRequest (Method r) (EscapedPath r) (Path r) (RawQuery r) (Host r) (RemoteAddr r) (Header r) (TLS r) (Body r) (Some (match BodyLimit r with Some m => Z.min m n | None => n end)).
(** What [handleRestoreBackup] does to the body. *)
Definition maxBackupBodySize : Z := 10485760.
Definition restore_body (r : request) : request := limit_body maxBackupBodySize r.
Definition requestBodyLimitMiddleware (next : handler) : handler := fun r x =>
  next (if bool_decide (Method r ∈ ["POST"; "PUT"; "PATCH"]) then limit_body maxAPIBodyBytes r else r) x.

Definition publicAPIPaths : list string := ["/api/v1/health"].
Definition authMiddleware (next : handler) : handler := fun r x =>
  if negb (HasPrefix (Path r) "/api/") then next r x
  else if bool_decide (Path r ∈ publicAPIPaths) then next r x
  else if tokenMatches cfg r then next r x
  else (with_wr x (http_Error (error_text "unauthorized") 401 (set_header "WWW-Authenticate" (String.append "Bearer realm=" (quoted "api")) (wr x))), false).

Definition loggingMiddleware (next : handler) : handler := fun r x =>
  let x := with_srv x (with_inflight (srv x) (inflight (srv x) + 1)) in
  let '(x, panicked) := next r x in
  let x := if panicked then x else with_srv x (UpdateActivity now (srv x)) in
  (with_srv x (with_inflight (srv x) (inflight (srv x) - 1)), panicked).

(** The deadline it sets is not modelled. *)
Definition timeoutMiddleware (next : handler) : handler := next.

Definition conn_ip (r : request) : string :=
  let ip := bytes_of_string (RemoteAddr r) in
  let i := last_index_byte 58 ip in
  let ip := if 0 <=? i then ztake i ip else ip in
  let trim l := strip_all (length l) [[91]; [93]] l in
  string_of_bytes (rev (trim (rev (trim ip)))).
Definition conn_enter (ip : string) (s : Server) : option Server :=
  let count := default 0 (activeConns s !! ip) in
  if maxConnsPerIP <=? count then None else Some (with_conns s (<[ip := i32 (count + 1)]> (activeConns s))).
Definition conn_leave (ip : string) (s : Server) : Server :=
  let count := i32 (default 0 (activeConns s !! ip) - 1) in
  with_conns s (if count <=? 0 then delete ip (activeConns s) else <[ip := count]> (activeConns s)).
Definition connLimitMiddleware (next : handler) : handler := fun r x =>
  let ip := conn_ip r in
  match conn_enter ip (srv x) with
  | None => (with_wr x (http_Error (error_text "too many connections") 429 (wr x)), false)
  | Some s =>
      let '(x, panicked) := next r (with_srv x s) in
      (with_srv x (conn_leave ip (srv x)), panicked)
  end.

Definition recoveryMiddleware (next : handler) : handler := fun r x =>
  let '(x, panicked) := next r x in
  (if panicked then with_wr x (write (bytes_of_string (error_text "Internal Server Error") ++ [10]) (WriteHeader 500 (wr x))) else x, false).

(** [time.Duration.Seconds] and the bucket of a key. *)
Definition float_of_Z (z : Z) : float := if z <? 0 then (- PrimFloat.of_uint63 (Uint63.of_Z (- z)))%float else PrimFloat.of_uint63 (Uint63.of_Z z).
Definition Seconds (d : Z) : float := (float_of_Z (Z.quot d 1000000000) + float_of_Z (Z.rem d 1000000000) / 1e9)%float.
Definition minute : Z := 60000000000.
Definition rate_clean (s : Server) : Server :=
  if 5 * minute <? now - apiRateClean s then with_rate s (filter (fun kb => now - 10 * minute <= lastTime kb.2) (apiRateBuckets s)) now else s.
Definition refill (b : apiRateBucket) : float :=
  let t := (tokens b + Seconds (now - lastTime b) * 30)%float in if (60 <? t)%float then 60%float else t.
Definition rate_take (key : string) (s : Server) : Server * bool :=
  let s := rate_clean s in
  let b := default (mkBucket 60 now) (apiRateBuckets s !! key) in
  let t := refill b in
  let allowed := (1 <=? t)%float in
  (with_rate s (<[key := mkBucket (if allowed then t - 1 else t)%float now]> (apiRateBuckets s)) (apiRateClean s), allowed).
Definition apiRateMiddleware (next : handler) : handler := fun r x =>
  if negb (HasPrefix (Path r) "/api/") then next r x
  else
    let key := String.append (getClientIP r) (String.append "|" (Path r)) in
    let '(s, allowed) := rate_take key (srv x) in
    let x := with_srv x s in
    if allowed then next r x
    else (with_wr x (http_Error (error_text "too many requests") 429 (set_header "Retry-After" "2" (wr x))), false).

(** ** Routes *)

Inductive route :=
  | RHealth | RStatus | RGetConfig | RGetOutbounds | RAddOutbound | RDeleteOutbound | RSubscription | RGetBackup | RRestoreBackup | RGetLogs | RGetFingerprints | RSetFingerprint.
(** A segment of a pattern: [None] is a wildcard. *)
Abbreviation pattern := (string * list (option string))%type.
Definition registerDefaultRoutes : list (pattern * route) :=
  [(("GET", [Some "api"; Some "v1"; Some "health"]), RHealth); (("GET", [Some "api"; Some "v1"; Some "status"]), RStatus); (("GET", [Some "api"; Some "v1"; Some "config"]), RGetConfig);
   (("GET", [Some "api"; Some "outbounds"]), RGetOutbounds); (("POST", [Some "api"; Some "outbounds"; Some "add"]), RAddOutbound); (("POST", [Some "api"; Some "outbounds"; Some "delete"]), RDeleteOutbound);
   (("GET", [Some "sub"; None]), RSubscription); (("GET", [Some "api"; Some "backup"]), RGetBackup); (("POST", [Some "api"; Some "backup"; Some "restore"]), RRestoreBackup);
   (("GET", [Some "api"; Some "logs"]), RGetLogs); (("GET", [Some "api"; Some "fingerprints"]), RGetFingerprints); (("POST", [Some "api"; Some "fingerprints"; Some "set"]), RSetFingerprint)].

(** [url.PathUnescape] *)
Fixpoint path_unescape (l : list Z) : option (list Z) :=
  match l with
  | [] => Some []
  | c :: l1 =>
      if c =? 37 then
        match l1 with
        | a :: b :: l2 => x ← hex_val a; y ← hex_val b; r ← path_unescape l2; Some (x * 16 + y :: r)
        | _ => None
        end
      else r ← path_unescape l1; Some (c :: r)
  end.
(** The segments of the path behind its first slash, without their escapes; a slash
    at the end is a segment of its own. *)
Definition segment (s : list Z) : list Z := default s (path_unescape s).
Definition segments (path : list Z) : list (list Z) :=
  match path with
  | c :: rest =>
      if c =? 47 then
        match rev (split_all 47 rest) with
        | [] :: before => map segment (rev before) ++ [[47]]
        | segs => map segment (rev segs)
        end
      else []
  | [] => []
  end.
Fixpoint match_segments (ps : list (option string)) (ss : list (list Z)) : option (list string) :=
  match ps, ss with
  | [], [] => Some []
  | Some lit :: ps, s :: ss => if bool_decide (bytes_of_string lit = s) then match_segments ps ss else None
  | None :: ps, s :: ss => if bool_decide (s = [47]) then None else vs ← match_segments ps ss; Some (string_of_bytes s :: vs)
  | _, _ => None
  end.
Definition method_matches (pm m : string) : bool := bool_decide (pm = m) || (bool_decide (pm = "GET") && bool_decide (m = "HEAD")).
Definition cleanPath (p : list Z) : list Z :=
  match p with
  | [] => [47]
  | c :: _ =>
      let p := if c =? 47 then p else 47 :: p in
      let np := path_Clean p in
      if bool_decide (last p = Some 47) && negb (bool_decide (np = [47])) then np ++ [47] else np
  end.

Record Handlers := mkHandlers { on_route : route -> list string -> handler; on_files : handler }.
Definition mux_reply (code : Z) : handler := fun r x => (with_wr x (WriteHeader code (wr x)), false).
Definition find_route (r : request) (path : list Z) : option (route * list string) :=
  let ss := segments path in
  head (omap (fun pr : pattern * route => if method_matches pr.1.1 (Method r) then vs ← match_segments pr.1.2 ss; Some (pr.2, vs) else None) registerDefaultRoutes).
Definition ServeMux (h : Handlers) : handler := fun r x =>
  if bool_decide (EscapedPath r = [42]) then mux_reply 400 r x
  else
    let path := if bool_decide (Method r = "CONNECT") then EscapedPath r else cleanPath (EscapedPath r) in
    if negb (bool_decide (path = EscapedPath r)) then mux_reply 301 r x
    else match find_route r path with
    | Some (rt, vs) => on_route h rt vs r x
    | None =>
        if existsb (fun pr : pattern * route => bool_decide (is_Some (match_segments pr.1.2 (segments path)))) registerDefaultRoutes then mux_reply 405 r x else mux_reply 404 r x
    end.

Definition banner : GoJson.json :=
  GoJson.JObj [(bytes_of_string "api", GoJson.JStr (bytes_of_string "/api/v1/health")); (bytes_of_string "name", GoJson.JStr (bytes_of_string "Whispera API"));
               (bytes_of_string "status", GoJson.JStr (bytes_of_string "running"))].
Definition rootHandler (h : Handlers) : handler := fun r x =>
  if HasPrefix (Path r) "/api/" then ServeMux h r x
  else if negb (bool_decide (WebRoot cfg = "")) then on_files h r x
  else if bool_decide (Path r ∈ ["/"; ""]) then (with_wr x (write (GoJson.print banner ++ [10]) (set_header "Content-Type" "application/json" (wr x))), false)
  else ServeMux h r x.

Definition buildHandler (h : Handlers) : handler :=
  let handler := rootHandler h in
  let handler := authMiddleware handler in
  let handler := requestBodyLimitMiddleware handler in
  let handler := apiRateMiddleware handler in
  let handler := if EnableCORS cfg then corsMiddleware handler else handler in
  let handler := securityHeadersMiddleware handler in
  let handler := loggingMiddleware handler in
  let handler := connLimitMiddleware handler in
  let handler := timeoutMiddleware handler in
  recoveryMiddleware handler.

End Chain.

(** ** Outbounds

    The program behind the API: whether there is a registry, the configuration
    provider registered in it, and the files. *)
Record program := mkProgram { registry : bool; provider : option ServerCfg.Provider; cfs : ServerCfg.fsys }.

Definition json_object (l : list (string * GoJson.json)) : GoJson.json := GoJson.JObj (map (fun kv => (bytes_of_string kv.1, kv.2)) l).
Definition json_string (s : string) : GoJson.json := GoJson.JStr (bytes_of_string s).
Definition Encode (v : GoJson.json) (w : writer) : writer := write (GoJson.print v ++ [10]) w.
Definition jsonOK (v : GoJson.json) (w : writer) : writer := Encode v (set_header "Content-Type" "application/json" w).
Definition jsonCreated (v : GoJson.json) (w : writer) : writer := Encode v (WriteHeader 201 (set_header "Content-Type" "application/json" w)).
(** An empty message is left out. *)
Definition jsonError (code : Z) (msg : string) (w : writer) : writer :=
  Encode (json_object (("success", GoJson.JBool false) :: (if bool_decide (msg = "") then [] else [("error", json_string msg)]))) (WriteHeader code (set_header "Content-Type" "application/json" w)).

(** The first JSON value of the body, as far as it may be read. *)
Definition Decode (r : request) : option GoJson.json :=
  let l := match BodyLimit r with Some n => ztake n (Body r) | None => Body r end in
  fst <$> GoJson.parse_value (2 * length l + 2) 0 l.

(** Members of an object that belong to a field of a struct with these names. *)
Definition belongs (names : list string) (k : list Z) (name : string) : bool :=
  bool_decide (k = bytes_of_string name)
  || (negb (existsb (fun n => bool_decide (bytes_of_string n = k)) names) && bool_decide (GoJson.foldName k = GoJson.foldName (bytes_of_string name))).
Definition struct_field {A} (names : list string) (dec : GoJson.json -> A -> option A) (zero : A) (name : string) (ms : list (list Z * GoJson.json)) : option A :=
  foldl (fun acc m => a ← acc; if belongs names m.1 name then dec m.2 a else Some a) (Some zero) ms.
Definition dec_strings (v : GoJson.json) (old : list string) : option (list string) :=
  match v with GoJson.JArr l => mapM (fun x => ConnKey.dec_str x "") l | GoJson.JNull => Some [] | _ => None end.
Definition dec_settings (v : GoJson.json) (old : list (string * GoJson.json)) : option (list (string * GoJson.json)) :=
  match v with
  | GoJson.JObj ms => Some (map_to_list (foldl (fun m kv => <[string_of_bytes kv.1 := kv.2]> m) (list_to_map old : gmap string GoJson.json) ms))
  | GoJson.JNull => Some []
  | _ => None
  end.
Definition outbound_names : list string := ["tag"; "address"; "settings"; "chain"].
Definition decode_outbound (v : GoJson.json) : option ServerCfg.OutboundConfig :=
  match v with
  | GoJson.JObj ms =>
      tag ← struct_field outbound_names ConnKey.dec_str "" "tag" ms;
      address ← struct_field outbound_names ConnKey.dec_str "" "address" ms;
      settings ← struct_field outbound_names dec_settings [] "settings" ms;
      chain ← struct_field outbound_names dec_strings [] "chain" ms;
      Some (ServerCfg.mkOutbound tag address settings chain)
  | GoJson.JNull => Some (ServerCfg.mkOutbound "" "" [] [])
  | _ => None
  end.
Definition decode_tag (v : GoJson.json) : option string :=
  match v with GoJson.JObj ms => struct_field ["tag"] ConnKey.dec_str "" "tag" ms | GoJson.JNull => Some "" | _ => None end.

(** The changes of the configuration. *)
Definition add_outbound (req : ServerCfg.OutboundConfig) (c : ServerCfg.ServerConfig) : ServerCfg.ServerConfig :=
  if existsb (fun out => bool_decide (ServerCfg.o_Tag out = ServerCfg.o_Tag req)) (ServerCfg.Outbounds c) then c
  else ServerCfg.with_outbounds c (ServerCfg.Outbounds c ++ [req]).
Definition delete_outbound (tag : string) (c : ServerCfg.ServerConfig) : ServerCfg.ServerConfig :=
  ServerCfg.with_outbounds c (List.filter (fun out => negb (bool_decide (ServerCfg.o_Tag out = tag))) (ServerCfg.Outbounds c)).

Section Outbounds.
Context `{Auth.Crypto} `{ServerCfg.Yaml}.
Variable integrityKey : list Z.
Variable cfg : Config.
(** How an outbound is written as JSON. *)
Variable encode_outbound : ServerCfg.OutboundConfig -> GoJson.json.
Variable now : Z.
Variable i : ServerCfg.io.

Definition getConfigProvider (a : program) : string + ServerCfg.Provider :=
  if negb (registry a) then inl "registry not available"
  else match provider a with Some p => inr p | None => inl "config provider not found" end.

Definition reply (x : st (W := program)) (w : writer) : st * bool := (with_wr x w, false).

Definition handleGetOutbounds : handler (W := program) := fun r x =>
  let '(x, ok) := requireAdmin cfg r x in
  if negb ok then (x, false)
  else match getConfigProvider (world x) with
  | inl e => reply x (jsonError 503 e (wr x))
  | inr p =>
      let outs := ServerCfg.Outbounds (ServerCfg.current p) in
      reply x (jsonOK (json_object [("count", GoJson.JNum (GoJson.int_text (len outs))); ("outbounds", GoJson.JArr (map encode_outbound outs))]) (wr x))
  end.

(** [Update] of the provider in the world. *)
Definition update_world (fn : ServerCfg.ServerConfig -> ServerCfg.ServerConfig) (p : ServerCfg.Provider) (x : st (W := program)) : st (W := program) * bool :=
  let '(p, f, ok) := ServerCfg.Update integrityKey i fn p (cfs (world x)) in (mkSt (srv x) (wr x) (mkProgram (registry (world x)) (Some p) f), ok).

Definition handleAddOutbound : handler (W := program) := fun r x =>
  let '(x, ok) := requireAdmin cfg r x in
  if negb ok then (x, false)
  else match getConfigProvider (world x) with
  | inl e => reply x (jsonError 503 e (wr x))
  | inr p =>
      match Decode r ≫= decode_outbound with
      | None => reply x (jsonError 400 "Invalid request" (wr x))
      | Some req =>
          let req := if bool_decide (ServerCfg.o_Tag req = "") then
                       ServerCfg.mkOutbound (String.append "outbound_" (Itoa now)) (ServerCfg.o_Address req) (ServerCfg.o_Settings req) (ServerCfg.o_Chain req)
                     else req in
          let '(x, ok) := update_world (add_outbound req) p x in
          if ok then reply x (jsonCreated (json_object [("outbound", encode_outbound req); ("success", GoJson.JBool true)]) (wr x))
          else reply x (jsonError 500 "Failed to save config: failed to save config" (wr x))
      end
  end.

Definition handleDeleteOutbound : handler (W := program) := fun r x =>
  let '(x, ok) := requireAdmin cfg r x in
  if negb ok then (x, false)
  else match getConfigProvider (world x) with
  | inl e => reply x (jsonError 503 e (wr x))
  | inr p =>
      match Decode r ≫= decode_tag with
      | None => reply x (jsonError 400 "Invalid request" (wr x))
      | Some tag =>
          let '(x, ok) := update_world (delete_outbound tag) p x in
          if ok then reply x (jsonOK (json_object [("success", GoJson.JBool true)]) (wr x))
          else reply x (jsonError 500 "Failed to save config: failed to save config" (wr x))
      end
  end.

(** These handlers among others; of the error of a failed save the cause is left out
    of the text. *)
Definition outbound_handlers (h : Handlers (W := program)) : Handlers (W := program) :=
  mkHandlers (fun rt vs => match rt with RGetOutbounds => handleGetOutbounds | RAddOutbound => handleAddOutbound | RDeleteOutbound => handleDeleteOutbound | _ => on_route h rt vs end) (on_files h).
End Outbounds.
End ApiServer.
