(* ===== verification/ApiServerFacts.v ===== *)
(** Facts about the administration API: who reaches a handler, how many requests of
    an address there are, whose address a request counts for, and that a request
    leaves nothing behind. *)

From S2P Require Import Prelude GoIO GoStr NetIP GoPath GoJson Auth ConnKey ServerCfg ServerCfgFacts ApiServer.
Import ApiServer.

(** ** Paths *)

Lemma path_unescape_slash a b : path_unescape (a ++ 47 :: b) = x ← path_unescape a; y ← path_unescape b; Some (x ++ 47 :: y).
Proof.
  remember (length a) as n eqn:Hn. revert a Hn. induction (lt_wf n) as [n _ IH]. intros a ->. destruct a as [|c a]; [cbn; destruct (path_unescape b); done|].
  cbn [app]. destruct (Z.eqb_spec c 37) as [->|Hc].
  - destruct a as [|d [|e a]]; cbn [app path_unescape Z.eqb Pos.eqb].
    + destruct b as [|f b]; done.
    + cbn. destruct (hex_val d); done.
    + cbn. destruct (hex_val d); [|done]. cbn. destruct (hex_val e); [|done]. cbn. rewrite (IH (length a)) by (cbn; lia || done). destruct (path_unescape a); [|done]. cbn. destruct (path_unescape b); done.
  - cbn [path_unescape]. rewrite (proj2 (Z.eqb_neq c 37)) by done. rewrite (IH (length a)) by (cbn; lia || done). destruct (path_unescape a); [|done]. cbn. destruct (path_unescape b); done.
Qed.

Lemma path_unescape_join segs q : segs <> [] -> path_unescape (join_slash segs) = Some q -> q = join_slash (map segment segs).
Proof.
  revert q. induction segs as [|s segs IH]; intros q Hne; [done|]. destruct segs as [|t segs]; [cbn; unfold segment; intros ->; done|].
  change (join_slash (s :: t :: segs)) with (s ++ 47 :: join_slash (t :: segs)). rewrite path_unescape_slash. destruct (path_unescape s) as [x|] eqn:Es; [|done]. cbn [mbind option_bind].
  destruct (path_unescape (join_slash (t :: segs))) as [y|] eqn:Et; [|done]. cbn [mbind option_bind]. intros [= <-]. rewrite (IH y) by done.
  cbn [map]. change (join_slash (segment s :: segment t :: map segment segs)) with (segment s ++ 47 :: join_slash (map segment (t :: segs))). assert (segment s = x) as -> by (unfold segment; rewrite Es; done). done.
Qed.

(** The server parses what it is sent. *)
Definition parsed (r : request) : Prop := path_unescape (EscapedPath r) = Some (bytes_of_string (Path r)).

Lemma match_no_slash ps ss vs : match_segments ps ss = Some vs -> Forall (fun o => match o with Some lit => bytes_of_string lit <> [47] | None => True end) ps -> [47] ∉ ss.
Proof.
  revert ss vs. induction ps as [|[lit|] ps IH]; intros [|s ss] vs; cbn; try done; intros Hm Hf; [apply not_elem_of_nil|..]; apply Forall_cons in Hf as [H1 H2]; apply not_elem_of_cons.
  - destruct (bool_decide _) eqn:E; [|done]. apply bool_decide_eq_true_1 in E. split; [congruence|eauto].
  - destruct (bool_decide _) eqn:E; [done|]. apply bool_decide_eq_false_1 in E. destruct (match_segments ps ss) eqn:Em; [|done]. split; [congruence|eauto].
Qed.

Lemma match_literal lits ss vs : match_segments (map Some lits) ss = Some vs -> ss = map bytes_of_string lits /\ vs = [].
Proof.
  revert ss vs. induction lits as [|lit lits IH]; intros [|s ss] vs; cbn; try done; [intros [= <-]; done|]. destruct (bool_decide _) eqn:E; [|done]. apply bool_decide_eq_true_1 in E. intros Hm.
  destruct (IH ss vs Hm) as [-> ->]. subst. done.
Qed.

Lemma segments_path r ss : parsed r -> segments (EscapedPath r) = ss -> ss <> [] -> [47] ∉ ss -> bytes_of_string (Path r) = 47 :: join_slash ss.
Proof.
  unfold parsed, segments. destruct (EscapedPath r) as [|c rest]; [intros _ <-; done|]. destruct (Z.eqb_spec c 47) as [->|_].
  2:{ intros _ <-. done. }
  intros Hu. change (47 :: rest) with ([] ++ 47 :: rest) in Hu. rewrite path_unescape_slash in Hu. cbn [path_unescape mbind option_bind] in Hu. destruct (path_unescape rest) as [q|] eqn:Eq; [|done].
  cbn in Hu. injection Hu as Hu. rewrite <- Hu. rewrite <- (join_split rest) in Eq. apply path_unescape_join in Eq; [|apply split_all_nonempty]. rewrite Eq.
  destruct (rev (split_all 47 rest)) as [|[|b s] before] eqn:Er; intros <- Hne Hno.
  - done.
  - exfalso. apply Hno. apply elem_of_app. right. set_solver.
  - do 2 f_equal. rewrite <- Er, rev_involutive. done.
Qed.

(** ** Who reaches a handler *)

Lemma head_omap {A B} (f : A -> option B) l y : head (omap f l) = Some y -> exists x, x ∈ l /\ f x = Some y.
Proof.
  induction l as [|a l IH]; cbn; [done|]. destruct (f a) as [b|] eqn:E; cbn; [intros [= <-]; exists a; split; [left|done]|].
  intros Hh. destruct (IH Hh) as (x & Hx & Hf). exists x. split; [right|]; done.
Qed.

Lemma find_route_entry r path rt vs : find_route r path = Some (rt, vs) ->
  exists m ps, ((m, ps), rt) ∈ registerDefaultRoutes /\ method_matches m (Method r) = true /\ match_segments ps (segments path) = Some vs.
Proof.
  unfold find_route. cbn zeta. intros ([[m ps] rt'] & Hx & Hf)%head_omap. cbn [fst snd] in Hf. destruct (method_matches m (Method r)) eqn:Em; [|done].
  destruct (match_segments ps (segments path)) as [vs'|] eqn:Es; [|done]. cbn in Hf. injection Hf as <- <-. eauto.
Qed.

Lemma literal_route r m lits rt vs : parsed r -> lits <> [] -> ((m, map Some lits), rt) ∈ registerDefaultRoutes -> match_segments (map Some lits) (segments (EscapedPath r)) = Some vs ->
  Forall (fun lit => bytes_of_string lit <> [47]) lits -> bytes_of_string (Path r) = 47 :: join_slash (map bytes_of_string lits).
Proof.
  intros Hp Hne _ Hm Hf. destruct (match_literal lits _ vs Hm) as [Hs _]. rewrite <- Hs. apply segments_path; [done|done|rewrite Hs; destruct lits; done|].
  apply (match_no_slash _ _ _ Hm). apply Forall_map. exact Hf.
Qed.

Definition protected (rt : route) : bool := match rt with RHealth | RSubscription => false | _ => true end.
(** The one path of a route. *)
Definition route_path (rt : route) : option string :=
  match rt with
  | RHealth => Some "/api/v1/health" | RStatus => Some "/api/v1/status" | RGetConfig => Some "/api/v1/config" | RGetOutbounds => Some "/api/outbounds"
  | RAddOutbound => Some "/api/outbounds/add" | RDeleteOutbound => Some "/api/outbounds/delete" | RSubscription => None | RGetBackup => Some "/api/backup"
  | RRestoreBackup => Some "/api/backup/restore" | RGetLogs => Some "/api/logs" | RGetFingerprints => Some "/api/fingerprints" | RSetFingerprint => Some "/api/fingerprints/set"
  end.

Lemma route_path_ok r rt vs p : parsed r -> find_route r (EscapedPath r) = Some (rt, vs) -> route_path rt = Some p -> Path r = p.
Proof.
  intros Hp Hf Hr. destruct (find_route_entry _ _ _ _ Hf) as (m & ps & Hin & _ & Hm). apply list_elem_of_In in Hin. cbn in Hin.
  assert (Hl : forall lits, ps = map Some lits -> lits <> [] -> ((m, map Some lits), rt) ∈ registerDefaultRoutes -> Forall (fun lit => bytes_of_string lit <> [47]) lits ->
    Path r = string_of_bytes (47 :: join_slash (map bytes_of_string lits))).
  { intros lits -> Hne Hi Hs. rewrite <- (literal_route r m lits rt vs Hp Hne Hi Hm Hs), string_of_bytes_of_string. done. }
  repeat (destruct Hin as [Hin|Hin]; [injection Hin as <- <- <-; try done|]); try done;
    (match type of Hm with match_segments ?ps _ = _ =>
       match ps with
       | [Some ?a; Some ?b; Some ?c] => rewrite (Hl [a; b; c])
       | [Some ?a; Some ?b] => rewrite (Hl [a; b])
       end
     end; [cbn in Hr; injection Hr as <-; vm_compute; reflexivity|reflexivity|done|apply list_elem_of_In; cbn; tauto|repeat constructor; vm_compute; discriminate]).
Qed.

Section Chain.
Context {W : Type} `{UnicodeFold}.
Variable cfg : Config.
Variable now : Z.
Variable http3 : bool.
Implicit Types (h : Handlers (W := W)) (x : st (W := W)).

(** Handlers that differ in what needs a token only. *)
Definition agree (h h' : Handlers (W := W)) : Prop :=
  (forall rt vs r x, protected rt = false -> on_route h rt vs r x = on_route h' rt vs r x) /\ (forall r x, on_files h r x = on_files h' r x).

Lemma mux_agree h h' r x : agree h h' -> parsed r -> (HasPrefix (Path r) "/api/" = false \/ Path r ∈ publicAPIPaths) -> ServeMux h r x = ServeMux h' r x.
Proof.
  intros [Ha _] Hp Hpub. unfold ServeMux. destruct (bool_decide (EscapedPath r = [42])); [done|]. cbn zeta. destruct (bool_decide (_ = EscapedPath r)) eqn:E; [|done].
  apply bool_decide_eq_true_1 in E. cbn [negb]. rewrite E. destruct (find_route r (EscapedPath r)) as [[rt vs]|] eqn:Ef; [|done]. apply Ha.
  destruct (route_path rt) as [p|] eqn:Er; [|destruct rt; done]. pose proof (route_path_ok r rt vs p Hp Ef Er) as Hpath. rewrite Hpath in Hpub.
  destruct rt; try done; cbn in Er; injection Er as <-; destruct Hpub as [Hpub|Hpub]; try (vm_compute in Hpub; discriminate Hpub); apply list_elem_of_singleton in Hpub; discriminate Hpub.
Qed.

Lemma auth_agree h h' r x : agree h h' -> parsed r -> tokenMatches cfg r = false -> authMiddleware cfg (rootHandler cfg h) r x = authMiddleware cfg (rootHandler cfg h') r x.
Proof.
  intros Ha Hp Ht. unfold authMiddleware, rootHandler. rewrite Ht. destruct (HasPrefix (Path r) "/api/") eqn:Ep; cbn [negb].
  - destruct (bool_decide (Path r ∈ publicAPIPaths)) eqn:Eb; [|done]. apply bool_decide_eq_true_1 in Eb. apply mux_agree; auto.
  - destruct (negb _); [apply Ha|]. destruct (bool_decide _); [done|]. apply mux_agree; auto.
Qed.

(** C34: without the token of the configuration a request has no effect and sees
    nothing of the API: the server answers it in the same way whatever the handlers of
    the API do, those of the health check and of the subscriptions apart; in
    particular when no token is configured.  This holds for every path, however it is
    escaped or spelt, and every method and header. *)
Theorem api_needs_token h h' r x : agree h h' -> parsed r -> tokenMatches cfg r = false -> buildHandler cfg now http3 h r x = buildHandler cfg now http3 h' r x.
Proof.
  intros Ha Hp Ht. unfold buildHandler, recoveryMiddleware, timeoutMiddleware, connLimitMiddleware, loggingMiddleware, securityHeadersMiddleware.
  assert (Hl : forall y, requestBodyLimitMiddleware (authMiddleware cfg (rootHandler cfg h)) r y = requestBodyLimitMiddleware (authMiddleware cfg (rootHandler cfg h')) r y).
  { intros y. unfold requestBodyLimitMiddleware. destruct (bool_decide _); apply auth_agree; done. }
  assert (Hr : forall y, apiRateMiddleware now (requestBodyLimitMiddleware (authMiddleware cfg (rootHandler cfg h))) r y = apiRateMiddleware now (requestBodyLimitMiddleware (authMiddleware cfg (rootHandler cfg h'))) r y).
  { intros y. unfold apiRateMiddleware. destruct (negb _); [apply Hl|]. destruct (rate_take _ _ _) as [s [|]]; [apply Hl|done]. }
  assert (Hc : forall y, (if EnableCORS cfg then corsMiddleware cfg (apiRateMiddleware now (requestBodyLimitMiddleware (authMiddleware cfg (rootHandler cfg h)))) else apiRateMiddleware now (requestBodyLimitMiddleware (authMiddleware cfg (rootHandler cfg h)))) r y
    = (if EnableCORS cfg then corsMiddleware cfg (apiRateMiddleware now (requestBodyLimitMiddleware (authMiddleware cfg (rootHandler cfg h')))) else apiRateMiddleware now (requestBodyLimitMiddleware (authMiddleware cfg (rootHandler cfg h')))) r y).
  { intros y. destruct (EnableCORS cfg); [|apply Hr]. unfold corsMiddleware. destruct (bool_decide (Method r = "OPTIONS")); [done|apply Hr]. }
  destruct (conn_enter (conn_ip r) (srv x)); [|done]. destruct (origin_refused cfg r); [done|]. rewrite Hc. done.
Qed.

(** ** Served requests *)

Definition prepared (r : request) : request := if bool_decide (Method r ∈ ["POST"; "PUT"; "PATCH"]) then limit_body maxAPIBodyBytes r else r.
Definition rate_key (r : request) : string := String.append (getClientIP r) (String.append "|" (Path r)).

Lemma rate_take_inflight k s n : (rate_take now k (with_inflight s n)).2 = (rate_take now k s).2.
Proof. unfold rate_take, rate_clean. cbn. destruct (5 * minute <? now - apiRateClean s); done. Qed.

Lemma api_mux h r x rt vs p : parsed r -> find_route r (EscapedPath r) = Some (rt, vs) -> route_path rt = Some p -> cleanPath (EscapedPath r) = EscapedPath r ->
  tokenMatches cfg r = true -> authMiddleware cfg (rootHandler cfg h) r x = on_route h rt vs r x.
Proof.
  intros Hp Hf Hr Hcl Ht. pose proof (route_path_ok r rt vs p Hp Hf Hr) as Hpath. unfold authMiddleware, rootHandler. rewrite Ht.
  assert (Hpre : HasPrefix (Path r) "/api/" = true) by (rewrite Hpath; destruct rt; cbn in Hr; try done; injection Hr as <-; reflexivity). rewrite Hpre. cbn [negb].
  assert (Hm : ServeMux h r x = on_route h rt vs r x).
  { unfold ServeMux. rewrite (bool_decide_eq_false_2 (EscapedPath r = [42])).
    - cbn zeta. rewrite Hcl. replace (if bool_decide (Method r = "CONNECT") then EscapedPath r else EscapedPath r) with (EscapedPath r) by (destruct (bool_decide _); done).
      rewrite bool_decide_eq_true_2 by done. cbn [negb]. rewrite Hf. done.
    - intros Hs. unfold parsed in Hp. rewrite Hs in Hp. cbn in Hp. injection Hp as Hp. rewrite Hpath in Hp. destruct rt; cbn in Hr; try done; injection Hr as <-; discriminate Hp. }
  destruct (bool_decide _); exact Hm.
Qed.

(** C35: with the token, a request for a route under /api/ whose path is clean, that is
    not refused for its origin (a POST from an Origin that is not allowed is, and one
    without Origin and Referer whose body is neither JSON nor multipart), and that
    is within the limit of connections and the rate, reaches the handler of the
    route once, its body cut to the limit, on the state of the program as it is; and
    what the handler does and writes is the answer, a panic being turned into an
    internal error. *)
Theorem api_serves_token h r x rt vs p s : parsed r -> find_route r (EscapedPath r) = Some (rt, vs) -> route_path rt = Some p -> cleanPath (EscapedPath r) = EscapedPath r ->
  tokenMatches cfg r = true -> origin_refused cfg r = false -> conn_enter (conn_ip r) (srv x) = Some s -> (rate_take now (rate_key r) s).2 = true ->
  exists s1 w1, let '(y, panicked) := on_route h rt vs (prepared r) (mkSt s1 w1 (world x)) in let '(z, p') := buildHandler cfg now http3 h r x in
    p' = false /\ world z = world y /\ (panicked = false -> wr z = wr y) /\ (panicked = true -> status (wr z) = Some (default 500 (status (wr y)))).
Proof.
  intros Hp Hf Hr Hcl Ht Ho He Hk. destruct (find_route_entry _ _ _ _ Hf) as (m & ps & Hin & Hm & _).
  assert (Hno : Method r <> "OPTIONS").
  { intros Hopt. rewrite Hopt in Hm. apply list_elem_of_In in Hin. cbn in Hin. repeat (destruct Hin as [Hin|Hin]; [injection Hin as <- _ _; vm_compute in Hm; discriminate Hm|]). done. }
  assert (Hpre : HasPrefix (Path r) "/api/" = true) by (rewrite (route_path_ok r rt vs p Hp Hf Hr); destruct rt; cbn in Hr; try done; injection Hr as <-; reflexivity).
  assert (Hb : forall y, requestBodyLimitMiddleware (authMiddleware cfg (rootHandler cfg h)) r y = on_route h rt vs (prepared r) y).
  { intros y. unfold requestBodyLimitMiddleware, prepared. destruct (bool_decide _); apply (api_mux _ _ _ _ _ p); done. }
  assert (Hrate : forall y, (rate_take now (rate_key r) (srv y)).2 = true -> exists s1, apiRateMiddleware now (requestBodyLimitMiddleware (authMiddleware cfg (rootHandler cfg h))) r y
    = on_route h rt vs (prepared r) (mkSt s1 (wr y) (world y))).
  { intros y Hy. unfold apiRateMiddleware. rewrite Hpre. cbn [negb]. fold (rate_key r). destruct (rate_take now (rate_key r) (srv y)) as [s1 al]. cbn in Hy. subst al. exists s1. apply Hb. }
  unfold buildHandler, recoveryMiddleware, timeoutMiddleware, connLimitMiddleware, loggingMiddleware, securityHeadersMiddleware. rewrite He, Ho.
  match goal with |- context [(if EnableCORS cfg then _ else _) r ?y] => set (x1 := y) end. assert (Hx1 : (rate_take now (rate_key r) (srv x1)).2 = true) by (unfold x1; cbn [srv with_wr with_srv]; rewrite rate_take_inflight; exact Hk).
  assert (Hcors : exists s1 w1, (if EnableCORS cfg then corsMiddleware cfg (apiRateMiddleware now (requestBodyLimitMiddleware (authMiddleware cfg (rootHandler cfg h))))
      else apiRateMiddleware now (requestBodyLimitMiddleware (authMiddleware cfg (rootHandler cfg h)))) r x1 = on_route h rt vs (prepared r) (mkSt s1 w1 (world x))).
  { destruct (EnableCORS cfg); [|destruct (Hrate x1 Hx1) as [s1 E]; exists s1, (wr x1); exact E]. unfold corsMiddleware. rewrite bool_decide_eq_false_2 by done. cbn zeta.
    match goal with |- context [apiRateMiddleware _ _ r ?y] => destruct (Hrate y Hx1) as [s1 E]; exists s1, (wr y); rewrite E end. done. }
  destruct Hcors as (s1 & w1 & ->). exists s1, w1. destruct (on_route h rt vs (prepared r) (mkSt s1 w1 (world x))) as [y [|]]; cbn [status wr world srv with_wr with_srv write WriteHeader negb]; split_and!; try done. intros _. destruct (status (wr y)); done.
Qed.

(** ** A request leaves nothing behind *)

Definition keeps (f : handler (W := W)) : Prop := forall r x, activeConns (srv (f r x).1) = activeConns (srv x) /\ inflight (srv (f r x).1) = inflight (srv x).

Lemma keeps_mux h : (forall rt vs, keeps (on_route h rt vs)) -> keeps (ServeMux h).
Proof.
  intros Hh r x. unfold ServeMux. destruct (bool_decide _); [done|]. cbn zeta. destruct (negb _); [done|]. destruct (find_route _ _) as [[rt vs]|]; [apply Hh|]. destruct (existsb _ _); done.
Qed.

Lemma keeps_root h : (forall rt vs, keeps (on_route h rt vs)) -> keeps (on_files h) -> keeps (rootHandler cfg h).
Proof.
  intros Hh Hf r x. unfold rootHandler. destruct (HasPrefix _ _); [apply keeps_mux; done|]. destruct (negb _); [apply Hf|]. destruct (bool_decide _); [done|]. apply keeps_mux. done.
Qed.

Lemma rate_take_keeps k s : activeConns (rate_take now k s).1 = activeConns s /\ inflight (rate_take now k s).1 = inflight s.
Proof. unfold rate_take, rate_clean. cbn. destruct (5 * minute <? now - apiRateClean s); done. Qed.

Lemma keeps_inner h : (forall rt vs, keeps (on_route h rt vs)) -> keeps (on_files h) ->
  let f := apiRateMiddleware now (requestBodyLimitMiddleware (authMiddleware cfg (rootHandler cfg h))) in
  keeps (loggingMiddleware now (securityHeadersMiddleware cfg http3 (if EnableCORS cfg then corsMiddleware cfg f else f))).
Proof.
  intros Hh Hf f. pose proof (keeps_root h Hh Hf) as Hroot.
  assert (Hk : keeps f).
  { intros r x. unfold f, apiRateMiddleware, requestBodyLimitMiddleware, authMiddleware.
    assert (Ha : forall r y, activeConns (srv (if negb (HasPrefix (Path r) "/api/") then rootHandler cfg h r y else if bool_decide (Path r ∈ publicAPIPaths) then rootHandler cfg h r y
      else if tokenMatches cfg r then rootHandler cfg h r y
      else (with_wr y (http_Error (error_text "unauthorized") 401 (set_header "WWW-Authenticate" (String.append "Bearer realm=" (quoted "api")) (wr y))), false)).1) = activeConns (srv y)
      /\ inflight (srv (if negb (HasPrefix (Path r) "/api/") then rootHandler cfg h r y else if bool_decide (Path r ∈ publicAPIPaths) then rootHandler cfg h r y
      else if tokenMatches cfg r then rootHandler cfg h r y
      else (with_wr y (http_Error (error_text "unauthorized") 401 (set_header "WWW-Authenticate" (String.append "Bearer realm=" (quoted "api")) (wr y))), false)).1) = inflight (srv y)).
    { intros r' y. destruct (negb _); [apply Hroot|]. destruct (bool_decide _); [apply Hroot|]. destruct (tokenMatches cfg r'); [apply Hroot|done]. }
    destruct (negb (HasPrefix (Path r) "/api/")) eqn:Ep; [apply Ha|]. destruct (rate_take_keeps (String.append (getClientIP r) (String.append "|" (Path r))) (srv x)) as [H1 H2].
    destruct (rate_take _ _ _) as [s1 [|]]; cbn in H1, H2; [rewrite <- H1, <- H2; apply (Ha _ (with_srv x s1))|done]. }
  intros r x. unfold loggingMiddleware, securityHeadersMiddleware. destruct (origin_refused cfg r); [cbn; split; [done|lia]|].
  match goal with |- context [(if EnableCORS cfg then _ else _) r ?y] => set (x1 := y) end. set (g := if EnableCORS cfg then corsMiddleware cfg f else f).
  assert (Hg : keeps g) by (unfold g; destruct (EnableCORS cfg); [|exact Hk]; intros r' y; unfold corsMiddleware; destruct (bool_decide (Method r' = "OPTIONS")); [done|apply (Hk r' (with_wr y _))]).
  destruct (Hg r x1) as [H1 H2]. destruct (g r x1) as [y [|]]; cbn in *; rewrite H1, H2; split; (done || lia).
Qed.

Definition conns_ok (s : Server) : Prop := forall ip n, activeConns s !! ip = Some n -> 1 <= n <= maxConnsPerIP.

Lemma enter_leave ip s s' s'' : conns_ok s -> conn_enter ip s = Some s' -> activeConns s'' = activeConns s' -> activeConns (conn_leave ip s'') = activeConns s.
Proof.
  unfold conn_enter, conn_leave, maxConnsPerIP. intros Hok. destruct (50 <=? _) eqn:E; [done|]. intros [= <-] ->. cbn. rewrite lookup_insert_eq. bool_to_prop. cbn [default].
  destruct (activeConns s !! ip) as [n|] eqn:En; cbn in *.
  - pose proof (Hok ip n En) as Hn. unfold maxConnsPerIP in Hn. rewrite (i32_small (n + 1)) by lia. replace (n + 1 - 1) with n by lia. rewrite i32_small by lia. rewrite (proj2 (Z.leb_gt _ _)) by lia.
    rewrite insert_insert_eq. apply insert_id. done.
  - change (i32 (0 + 1)) with 1. change (i32 (1 - 1) <=? 0) with true. cbn. rewrite delete_insert_eq. apply delete_id. done.
Qed.

Lemma conn_enter_buckets ip s s' : conn_enter ip s = Some s' -> apiRateBuckets s' = apiRateBuckets s.
Proof. unfold conn_enter. destruct (_ <=? _); [done|]. intros [= <-]. done. Qed.

(** Whatever the handlers do with the response and with the program, panics
    included, a request ends without a panic, gives back its place among the
    connections of its address and its count among the requests in flight. *)
Theorem request_gives_back h r x : (forall rt vs, keeps (on_route h rt vs)) -> keeps (on_files h) -> conns_ok (srv x) ->
  let '(y, panicked) := buildHandler cfg now http3 h r x in panicked = false /\ activeConns (srv y) = activeConns (srv x) /\ inflight (srv y) = inflight (srv x).
Proof.
  intros Hh Hf Hok. unfold buildHandler, recoveryMiddleware, timeoutMiddleware, connLimitMiddleware. destruct (conn_enter (conn_ip r) (srv x)) as [s|] eqn:Ee; [|done].
  match goal with |- context [loggingMiddleware now ?g r ?y] => destruct (keeps_inner h Hh Hf r y) as [H1 H2]; cbn zeta in H1, H2; destruct (loggingMiddleware now g r y) as [z pz] end.
  cbn [fst] in H1, H2. assert (Hi : inflight s = inflight (srv x)) by (unfold conn_enter in Ee; destruct (_ <=? _); [done|]; injection Ee as <-; done).
  pose proof (enter_leave _ _ s (srv z) Hok Ee H1) as Hl. cbn [srv with_srv] in H2.
  split; [done|]. destruct pz; cbn [srv with_srv with_wr]; rewrite Hl; (split; [done|]); transitivity (inflight (srv z)); try done; congruence.
Qed.
End Chain.

(** ** Connections of an address *)

(** Requests that come and go; [live] are the addresses of those being served. *)
Inductive conn_action := Enter (ip : string) | Leave (ip : string).
Definition conn_step (a : conn_action) (x : Server * list string) : option (Server * list string) :=
  match a with
  | Enter ip => match conn_enter ip x.1 with Some s => Some (s, ip :: x.2) | None => Some x end
  | Leave ip => match list_find (eq ip) x.2 with Some (i, _) => Some (conn_leave ip x.1, delete i x.2) | None => None end
  end.
Fixpoint conn_run (l : list conn_action) (x : Server * list string) : option (Server * list string) :=
  match l with [] => Some x | a :: l => x ← conn_step a x; conn_run l x end.

Definition count (ip : string) (l : list string) : Z := len (filter (eq ip) l).
Definition counted (x : Server * list string) : Prop :=
  forall ip, activeConns x.1 !! ip = (if count ip x.2 =? 0 then None else Some (count ip x.2)) /\ 0 <= count ip x.2 <= maxConnsPerIP.

Lemma count_cons ip ip' l : count ip (ip' :: l) = count ip l + (if bool_decide (ip = ip') then 1 else 0).
Proof.
  unfold count. rewrite filter_cons. destruct (decide (ip = ip')) as [->|Hne]; [rewrite bool_decide_eq_true_2, zlen_cons by done; lia|rewrite bool_decide_eq_false_2 by done; lia].
Qed.

Lemma count_delete ip ip' l i : l !! i = Some ip' -> count ip (delete i l) = count ip l - (if bool_decide (ip = ip') then 1 else 0).
Proof.
  revert i. induction l as [|x l IH]; intros [|i] Hi; try done.
  - injection Hi as ->. change (delete 0%nat (ip' :: l)) with l. rewrite count_cons. lia.
  - change (delete (S i) (x :: l)) with (x :: delete i l). rewrite !count_cons, (IH i Hi). lia.
Qed.

Lemma default_count x ip : counted x -> default 0 (activeConns x.1 !! ip) = count ip x.2.
Proof. intros Hc. destruct (Hc ip) as [-> _]. destruct (Z.eqb_spec (count ip x.2) 0) as [->|]; done. Qed.

Lemma step_counted a x x' : counted x -> conn_step a x = Some x' -> counted x'.
Proof.
  intros Hc. destruct a as [ip|ip]; cbn.
  - unfold conn_enter. rewrite (default_count x ip Hc). unfold maxConnsPerIP. destruct (50 <=? count ip x.2) eqn:E; intros [= <-]; [done|]. bool_to_prop.
    intros ip'. destruct (Hc ip') as [Ha Hb]. cbn [fst snd with_conns activeConns]. rewrite count_cons. destruct (decide (ip' = ip)) as [->|Hne].
    + rewrite bool_decide_eq_true_2, lookup_insert_eq by done. unfold maxConnsPerIP in *. rewrite i32_small by lia. rewrite (proj2 (Z.eqb_neq _ _)) by lia. split; [done|lia].
    + rewrite bool_decide_eq_false_2, lookup_insert_ne by done. rewrite Z.add_0_r. done.
  - destruct (list_find (eq ip) x.2) as [[i ip0]|] eqn:Ef; [|done]. intros [= <-]. apply list_find_Some in Ef as (Hi & <- & _). unfold conn_leave. rewrite (default_count x ip Hc).
    pose proof (Hc ip) as [Hat Hbt]. unfold maxConnsPerIP in Hbt. assert (Hpos : 1 <= count ip x.2).
    { unfold count. assert (Hin : ip ∈ filter (eq ip) x.2) by (apply list_elem_of_filter; split; [done|eapply list_elem_of_lookup_2; exact Hi]).
      destruct (filter (eq ip) x.2); [apply elem_of_nil in Hin; done|]. rewrite zlen_cons. pose proof (zlen_nonneg l). lia. }
    rewrite i32_small by lia. intros ip'. destruct (Hc ip') as [Ha Hb]. cbn [fst snd with_conns activeConns]. rewrite (count_delete ip' ip _ _ Hi). destruct (decide (ip' = ip)) as [->|Hne].
    + rewrite bool_decide_eq_true_2 by done. unfold maxConnsPerIP in *. split; [|lia]. destruct (Z.eqb_spec (count ip x.2 - 1) 0) as [E|E].
      * rewrite E. cbn. apply lookup_delete_eq.
      * rewrite (proj2 (Z.leb_gt _ _)) by lia. apply lookup_insert_eq.
    + rewrite bool_decide_eq_false_2 by done. rewrite Z.sub_0_r. split; [|done]. destruct (_ <=? 0); [rewrite lookup_delete_ne by done|rewrite lookup_insert_ne by done]; done.
Qed.

(** However requests come and go at the same time, the table of connections
    holds for every address the number of its requests being served, and no entry when
    there are none, and no address ever has more than fifty. *)
Theorem connections_counted l s live : conn_run l (mkServer ∅ ∅ 0 0 0, []) = Some (s, live) ->
  forall ip, activeConns s !! ip = (if count ip live =? 0 then None else Some (count ip live)) /\ 0 <= count ip live <= 50.
Proof.
  assert (Hg : forall l x x', counted x -> conn_run l x = Some x' -> counted x').
  { clear. induction l as [|a l IH]; intros x x' Hc; cbn; [intros [= <-]; done|]. destruct (conn_step a x) as [x1|] eqn:E; [|done]. cbn. apply IH. eapply step_counted; done. }
  intros Hr. apply (Hg l (mkServer ∅ ∅ 0 0 0, []) (s, live)); [|exact Hr]. intros ip. cbn [fst snd activeConns].
  change (count ip []) with 0. rewrite lookup_empty. split; [done|unfold maxConnsPerIP; lia].
Qed.

(** ** Whose request it is *)

(** An entry that is passed over. *)
Definition skipped (p : string) : bool := bool_decide (TrimSpace p = "") || isTrustedProxy (TrimSpace p).

Lemma last_untrusted_skipped hops : forallb skipped hops = true -> last_untrusted hops = None.
Proof.
  induction hops as [|q hops IH]; [done|]. cbn [forallb last_untrusted]. intros Hq. apply andb_true_iff in Hq as [Hq Hh]. rewrite (IH Hh). unfold skipped in Hq.
  destruct (bool_decide _); [done|]. cbn in Hq. rewrite Hq. done.
Qed.

Lemma last_untrusted_found ps p hops : skipped p = false -> forallb skipped hops = true -> last_untrusted (ps ++ p :: hops) = Some (TrimSpace p).
Proof.
  intros Hp Hh. induction ps as [|q ps IH]; cbn [app last_untrusted].
  - rewrite (last_untrusted_skipped hops Hh). unfold skipped in Hp. apply orb_false_iff in Hp as [-> ->]. done.
  - rewrite IH. done.
Qed.

(** The entries behind the first, each with its comma. *)
Definition appended (hops : list string) : string := foldr (fun h s => String.append "," (String.append h s)) "" hops.
Definition no_comma (s : string) : Prop := 44 ∉ bytes_of_string s.

Lemma split_appended seen hops : no_comma seen -> Forall no_comma hops ->
  split_all 44 (bytes_of_string (String.append seen (appended hops))) = bytes_of_string seen :: map bytes_of_string hops.
Proof.
  intros Hs Hh. revert seen Hs. induction Hh as [|h hops Hh1 Hh IH]; intros seen Hs; cbn [appended foldr map]; rewrite bytes_of_string_app.
  - rewrite app_nil_r. apply split_all_none. done.
  - rewrite bytes_of_string_app. change (bytes_of_string ",") with [44]. cbn [app]. fold (appended hops). rewrite split_all_app, (split_all_none 44 (bytes_of_string seen)) by done.
    rewrite (IH h Hh1). done.
Qed.

Lemma split_forwarded pre forged seen hops : pre = "" \/ pre = String.append forged "," -> no_comma seen -> Forall no_comma hops ->
  exists ps, map string_of_bytes (split_all 44 (bytes_of_string (String.append pre (String.append seen (appended hops))))) = ps ++ seen :: hops.
Proof.
  intros Hpre Hs Hh. assert (Hm : map string_of_bytes (bytes_of_string seen :: map bytes_of_string hops) = seen :: hops).
  { cbn [map]. rewrite string_of_bytes_of_string, map_map. f_equal. rewrite (map_ext _ (fun x => x)) by apply string_of_bytes_of_string. apply map_id. }
  destruct Hpre as [->| ->].
  - exists []. change (String.append "" (String.append seen (appended hops))) with (String.append seen (appended hops)). rewrite split_appended, Hm by done. done.
  - exists (map string_of_bytes (split_all 44 (bytes_of_string forged))). rewrite bytes_of_string_app, (bytes_of_string_app forged). change (bytes_of_string ",") with [44]. rewrite <- app_assoc. cbn [app].
    rewrite split_all_app, split_appended, map_app, Hm by done. done.
Qed.

(** C36: a client outside the private networks cannot pass for another address.  A
    request whose peer is not in a private network counts for the address of the
    peer, whatever headers it carries.  Behind a proxy in a private network, which
    appends the address it sees to X-Forwarded-For or sends it alone, and further
    ones in private networks, which append theirs, it counts for the address the
    first proxy saw, if that is not private, whatever the client put before it. *)
Theorem client_ip_not_forged r : let remote := match SplitHostPort (RemoteAddr r) with Some (h, _) => h | None => "" end in
  (isTrustedProxy remote = false -> getClientIP r = remote)
  /\ (forall pre forged seen hops, isTrustedProxy remote = true -> header r "X-Forwarded-For" = String.append pre (String.append seen (appended hops)) ->
       pre = "" \/ pre = String.append forged "," -> no_comma seen -> Forall no_comma hops -> TrimSpace seen <> "" -> isTrustedProxy (TrimSpace seen) = false ->
       Forall (fun h => isTrustedProxy (TrimSpace h) = true) hops -> getClientIP r = TrimSpace seen).
Proof.
  intros remote. split.
  - intros Ht. unfold getClientIP. fold remote. rewrite Ht. done.
  - intros pre forged seen hops Ht Hx Hpre Hs Hh Hne Hu Hp. unfold getClientIP. fold remote. rewrite Ht. cbn [negb]. rewrite Hx.
    rewrite bool_decide_eq_false_2. 2:{ intros E. apply (f_equal bytes_of_string) in E. rewrite !bytes_of_string_app in E. apply app_nil in E as [_ E]. apply app_nil in E as [E _].
      destruct seen; [apply Hne; reflexivity|discriminate E]. }
    destruct (split_forwarded pre forged seen hops Hpre Hs Hh) as [ps ->]. rewrite last_untrusted_found; [done| |].
    + unfold skipped. rewrite bool_decide_eq_false_2, Hu by done. done.
    + apply forallb_forall. intros h Hin. unfold skipped. rewrite Forall_forall in Hp. rewrite (Hp h) by (apply list_elem_of_In; done). apply orb_true_r.
Qed.

(** Whose address the proxy saw is in a private network itself, counts for the entry
    it wrote before it. *)
Lemma private_client_forges : getClientIP (mkRequest "GET" (bytes_of_string "/api/logs") "/api/logs" "" "h" "10.0.0.2:80" [("X-Forwarded-For", "1.2.3.4, 192.168.1.5")] false [] None) = "1.2.3.4".
Proof. vm_compute. reflexivity. Qed.

(** ** Limits that do not limit *)

(** A path that was not asked for yet has a bucket of its own. *)
Lemma fresh_path_allowed now key s : apiRateBuckets s !! key = None -> (rate_take now key s).2 = true.
Proof.
  intros Hn. unfold rate_take. assert (Hc : apiRateBuckets (rate_clean now s) !! key = None).
  { unfold rate_clean. destruct (_ <? _); [|done]. cbn. apply map_lookup_filter_None_2. left. done. }
  rewrite Hc. cbn [default snd]. unfold refill. cbn [lastTime tokens]. rewrite Z.sub_diag. vm_compute. reflexivity.
Qed.

(** The larger limit for backups comes behind the general one. *)
Lemma backup_limited r : Method r = "POST" -> BodyLimit r = None -> BodyLimit (restore_body (prepared r)) = Some maxAPIBodyBytes.
Proof. intros Hm Hb. unfold prepared. rewrite bool_decide_eq_true_2 by (rewrite Hm; set_solver). cbn. rewrite Hb. done. Qed.

(** With a directory of files to serve, no subscription is served. *)
Lemma webroot_hides_subscriptions {W} cfg (h : Handlers (W := W)) r x : WebRoot cfg <> "" -> HasPrefix (Path r) "/api/" = false -> rootHandler cfg h r x = on_files h r x.
Proof. intros Hw Hp. unfold rootHandler. rewrite Hp, bool_decide_eq_false_2 by done. done. Qed.

(** ** The world behind the chain *)

Section World.
Context {W : Type} `{UnicodeFold}.
Variable P : W -> Prop.
Definition world_inv (f : handler (W := W)) : Prop := forall r x, P (world x) -> P (world (f r x).1).

Lemma inv_mux h : (forall rt vs, world_inv (on_route h rt vs)) -> world_inv (ServeMux h).
Proof.
  intros Hh r x Hp. unfold ServeMux. destruct (bool_decide _); [done|]. cbn zeta. destruct (negb _); [done|]. destruct (find_route _ _) as [[rt vs]|]; [apply Hh; done|]. destruct (existsb _ _); done.
Qed.
Lemma inv_root cfg h : (forall rt vs, world_inv (on_route h rt vs)) -> world_inv (on_files h) -> world_inv (rootHandler cfg h).
Proof.
  intros Hh Hf r x Hp. unfold rootHandler. destruct (HasPrefix _ _); [apply inv_mux; done|]. destruct (negb _); [apply Hf; done|]. destruct (bool_decide _); [done|]. apply inv_mux; done.
Qed.
Lemma inv_auth cfg f : world_inv f -> world_inv (authMiddleware cfg f).
Proof. intros Hf r x Hp. unfold authMiddleware. destruct (negb _); [auto|]. destruct (bool_decide _); [auto|]. destruct (tokenMatches _ _); [auto|done]. Qed.
Lemma inv_body f : world_inv f -> world_inv (requestBodyLimitMiddleware f).
Proof. intros Hf r x Hp. unfold requestBodyLimitMiddleware. auto. Qed.
Lemma inv_rate now f : world_inv f -> world_inv (apiRateMiddleware now f).
Proof. intros Hf r x Hp. unfold apiRateMiddleware. destruct (negb _); [auto|]. destruct (rate_take _ _ _) as [s [|]]; [apply Hf; done|done]. Qed.
Lemma inv_cors cfg f : world_inv f -> world_inv (corsMiddleware cfg f).
Proof. intros Hf r x Hp. unfold corsMiddleware. destruct (bool_decide (Method r = "OPTIONS")); [done|]. apply Hf. done. Qed.
Lemma inv_security cfg http3 f : world_inv f -> world_inv (securityHeadersMiddleware cfg http3 f).
Proof. intros Hf r x Hp. unfold securityHeadersMiddleware. destruct (origin_refused _ _); [done|]. apply Hf. done. Qed.
Lemma inv_logging now f : world_inv f -> world_inv (loggingMiddleware now f).
Proof. intros Hf r x Hp. unfold loggingMiddleware. specialize (Hf r (with_srv x (with_inflight (srv x) (inflight (srv x) + 1))) Hp). destruct (f r _) as [y [|]]; done. Qed.
Lemma inv_conn f : world_inv f -> world_inv (connLimitMiddleware f).
Proof. intros Hf r x Hp. unfold connLimitMiddleware. destruct (conn_enter _ _) as [s|]; [|done]. specialize (Hf r (with_srv x s) Hp). destruct (f r _) as [y b]. done. Qed.
Lemma inv_recovery f : world_inv f -> world_inv (recoveryMiddleware f).
Proof. intros Hf r x Hp. unfold recoveryMiddleware. specialize (Hf r x Hp). destruct (f r x) as [y [|]]; done. Qed.

Lemma buildHandler_inv cfg now http3 h : (forall rt vs, world_inv (on_route h rt vs)) -> world_inv (on_files h) -> world_inv (buildHandler cfg now http3 h).
Proof.
  intros Hh Hf. unfold buildHandler, timeoutMiddleware. apply inv_recovery, inv_conn, inv_logging, inv_security.
  assert (Hr : world_inv (apiRateMiddleware now (requestBodyLimitMiddleware (authMiddleware cfg (rootHandler cfg h))))) by (apply inv_rate, inv_body, inv_auth, inv_root; done).
  destruct (EnableCORS cfg); [apply inv_cors|]; done.
Qed.
End World.

(** ** Outbounds *)

Section Outbounds.
Context `{UnicodeFold} `{Auth.Crypto} `{ServerCfg.Yaml}.
Variables (key : list Z) (cfg : Config) (enc : ServerCfg.OutboundConfig -> GoJson.json) (http3 : bool).

Definition tags (c : ServerCfg.ServerConfig) : list string := map ServerCfg.o_Tag (ServerCfg.Outbounds c).
(** No two outbounds of the configuration in use have the same tag. *)
Definition distinct (a : program) : Prop := match provider a with Some p => NoDup (tags (ServerCfg.current p)) | None => True end.

Lemma add_distinct req c : NoDup (tags c) -> NoDup (tags (add_outbound req c)).
Proof.
  unfold add_outbound, tags. intros Hn. destruct (existsb _ _) eqn:E; [done|]. cbn. rewrite map_app. apply NoDup_app. split_and!; [done| |apply NoDup_singleton].
  intros t Ht ->%list_elem_of_singleton. apply not_true_iff_false in E. apply E. apply existsb_exists. apply list_elem_of_In, in_map_iff in Ht as (o & Ho & Hi). exists o. split; [done|].
  apply bool_decide_eq_true_2. done.
Qed.

Lemma delete_distinct tag c : NoDup (tags c) -> NoDup (tags (delete_outbound tag c)) /\ tag ∉ tags (delete_outbound tag c).
Proof.
  unfold delete_outbound, tags. cbn. induction (ServerCfg.Outbounds c) as [|o l IH]; cbn; [intros _; split; [constructor|apply not_elem_of_nil]|].
  intros [Hn Hd]%NoDup_cons. destruct (IH Hd) as [IH1 IH2]. destruct (bool_decide _) eqn:E; cbn; [done|]. apply bool_decide_eq_false_1 in E. split.
  - apply NoDup_cons. split; [|done]. intros Hi. apply Hn. apply list_elem_of_In, in_map_iff in Hi as (o' & Ho' & Hi). apply List.filter_In in Hi as [Hi _].
    apply list_elem_of_In, in_map_iff. eauto.
  - apply not_elem_of_cons. split; [congruence|done].
Qed.

Lemma update_distinct i fn p x : (forall c, NoDup (tags c) -> NoDup (tags (fn c))) -> NoDup (tags (ServerCfg.current p)) -> distinct (world (update_world key i fn p x).1).
Proof.
  intros Hf Hn. unfold update_world. pose proof (ServerCfgFacts.Update_current key i fn p (cfs (world x))) as Hc. destruct (ServerCfg.Update key i fn p (cfs (world x))) as [[p' f'] ok].
  cbn in Hc |- *. unfold distinct. cbn. rewrite Hc. auto.
Qed.

Lemma requireAdmin_world r (x : st (W := program)) : world (requireAdmin cfg r x).1 = world x.
Proof. unfold requireAdmin. destruct (tokenMatches cfg r); done. Qed.

Lemma provider_distinct (x : st (W := program)) p : distinct (world x) -> getConfigProvider (world x) = inr p -> NoDup (tags (ServerCfg.current p)).
Proof. unfold distinct, getConfigProvider. destruct (negb _); [done|]. destruct (provider (world x)); [|done]. intros Hn [= ->]. done. Qed.

Lemma outbounds_inv now i h : (forall rt vs, world_inv distinct (on_route h rt vs)) -> forall rt vs, world_inv distinct (on_route (outbound_handlers key cfg enc now i h) rt vs).
Proof.
  intros Hh rt vs r x Hd. destruct rt; try (apply Hh; exact Hd); cbn [on_route outbound_handlers];
    unfold handleGetOutbounds, handleAddOutbound, handleDeleteOutbound; pose proof (requireAdmin_world r x) as Hw; destruct (requireAdmin cfg r x) as [x1 ok]; cbn [fst] in Hw;
    (destruct ok; cbn [negb]; [|cbn [fst]; rewrite Hw; exact Hd]); rewrite <- Hw in Hd; (destruct (getConfigProvider (world x1)) as [e|p] eqn:Ep; [exact Hd|]);
    [exact Hd|destruct (Decode r ≫= decode_outbound) as [req|]; [|exact Hd]|destruct (Decode r ≫= decode_tag) as [tag|]; [|exact Hd]]; cbn zeta; pose proof (provider_distinct x1 p Hd Ep) as Hn.
  - match goal with |- context [update_world key i ?fn p x1] => pose proof (update_distinct i fn p x1 (fun c => add_distinct _ c) Hn) as Hu; destruct (update_world key i fn p x1) as [x2 [|]] end; exact Hu.
  - match goal with |- context [update_world key i ?fn p x1] => pose proof (update_distinct i fn p x1 (fun c Hc => proj1 (delete_distinct tag c Hc)) Hn) as Hu; destruct (update_world key i fn p x1) as [x2 [|]] end; exact Hu.
Qed.

(** A request with its time and what the calls to the file system do. *)
Definition serve_all (h : Handlers (W := program)) (rs : list (request * Z * ServerCfg.io)) (x : st (W := program)) : st (W := program) :=
  foldl (fun x q => let '(r, now, i) := q in (buildHandler cfg now http3 (outbound_handlers key cfg enc now i h) r (mkSt (srv x) (mkWriter ∅ None []) (world x))).1) x rs.

(** Whatever requests the server gets, with or without the token, with whatever
    bodies, saves failing or not, no two outbounds of the configuration in use ever
    have the same tag, if they had not at the start and the handlers of the other
    routes leave the outbounds alone. *)
Theorem outbounds_distinct h rs x : (forall rt vs, world_inv distinct (on_route h rt vs)) -> world_inv distinct (on_files h) -> distinct (world x) -> distinct (world (serve_all h rs x)).
Proof.
  intros Hh Hf. unfold serve_all. revert x. induction rs as [|[[r now] i] rs IH]; intros x Hd; [exact Hd|]. cbn [foldl]. apply IH.
  apply (buildHandler_inv distinct cfg now http3); [apply outbounds_inv; exact Hh|exact Hf|exact Hd].
Qed.

(** Adding an outbound whose tag is taken is answered as a success, and nothing is
    added. *)
Lemma duplicate_reported_created now i r x p req : tokenMatches cfg r = true -> getConfigProvider (world x) = inr p -> Decode r ≫= decode_outbound = Some req ->
  ServerCfg.o_Tag req <> "" -> ServerCfg.o_Tag req ∈ tags (ServerCfg.current p) -> ServerCfg.configPath p = "" -> status (wr x) = None ->
  let y := (handleAddOutbound key cfg enc now i r x).1 in status (wr y) = Some 201 /\ exists p', provider (world y) = Some p' /\ ServerCfg.current p' = ServerCfg.current p.
Proof.
  intros Ht Hp Hd Hne Hin Hpath Hs. unfold handleAddOutbound, requireAdmin. rewrite Ht. cbn [negb]. rewrite Hp, Hd. cbn zeta. rewrite bool_decide_eq_false_2 by done. unfold update_world.
  pose proof (ServerCfgFacts.Update_current key i (add_outbound req) p (cfs (world x))) as Hc.
  assert (Hok : (ServerCfg.Update key i (add_outbound req) p (cfs (world x))).2 = true) by (unfold ServerCfg.Update; cbn [ServerCfg.configPath ServerCfg.with_config]; rewrite bool_decide_eq_true_2 by done; done).
  destruct (ServerCfg.Update key i (add_outbound req) p (cfs (world x))) as [[p' f'] ok]. cbn [fst snd] in Hc, Hok. subst ok. cbn [fst reply wr with_wr world]. split.
  - unfold jsonCreated, Encode, write, WriteHeader, set_header. cbn [status]. rewrite Hs. done.
  - exists p'. split; [done|]. rewrite Hc. unfold add_outbound. replace (existsb _ _) with true; [done|]. symmetry. apply existsb_exists.
    apply list_elem_of_In, in_map_iff in Hin as (o & Ho & Hi). exists o. split; [done|]. apply bool_decide_eq_true_2. done.
Qed.
End Outbounds.

Module ApiWitnesses.

#[local] Instance ascii_fold : UnicodeFold := {| unicode_equal_fold a b := bool_decide (a = b) |}.
Definition ex_cfg : Config := mkConfig ":8081" "secret" "" true [].
Definition ex_server : Server := mkServer ∅ ∅ 0 0 0.
Definition ex_st : st (W := Z) := mkSt ex_server (mkWriter ∅ None []) 0.
Definition ex_request (method path auth : string) : request :=
  mkRequest method (bytes_of_string path) path "" "api.example" "203.0.113.9:4242" [("Authorization", auth); ("Content-Type", "application/json")] false [] None.

(** Handlers that count the requests they get, and ones that panic. *)
Definition counting : Handlers (W := Z) := mkHandlers (fun rt vs r x => (mkSt (srv x) (WriteHeader 200 (wr x)) (if protected rt then world x + 1 else world x), false)) (fun r x => (x, false)).
Definition panicking : Handlers (W := Z) := mkHandlers (fun rt vs r x => if protected rt then (x, true) else (mkSt (srv x) (WriteHeader 200 (wr x)) (world x), false)) (fun r x => (x, false)).

Definition stranger : request := ex_request "GET" "/api/backup" "Bearer guess".
Lemma api_needs_token_witness : tokenMatches ex_cfg stranger = false /\ buildHandler ex_cfg 9 false counting stranger ex_st = buildHandler ex_cfg 9 false panicking stranger ex_st.
Proof.
  assert (Ht : tokenMatches ex_cfg stranger = false) by (vm_compute; reflexivity). split; [exact Ht|].
  apply (api_needs_token ex_cfg 9 false counting panicking stranger ex_st); [|vm_compute; reflexivity|exact Ht].
  split; [|intros r x; reflexivity]. intros rt vs r x Hp. unfold counting, panicking. cbn [on_route]. rewrite Hp. reflexivity.
Defined.

Definition admin : request := ex_request "POST" "/api/outbounds/add" "Bearer secret".
Lemma api_serves_token_witness : exists s1 w1, world (buildHandler ex_cfg 9 false counting admin ex_st).1 = world (on_route counting RAddOutbound [] (prepared admin) (mkSt s1 w1 0)).1.
Proof.
  destruct (conn_enter (conn_ip admin) ex_server) as [s|] eqn:Ee; [|vm_compute in Ee; discriminate Ee].
  assert (Hr : (rate_take 9 (rate_key admin) s).2 = true) by (apply fresh_path_allowed; rewrite (conn_enter_buckets _ _ _ Ee); apply lookup_empty).
  destruct (api_serves_token ex_cfg 9 false counting admin ex_st RAddOutbound [] "/api/outbounds/add" s) as (s1 & w1 & Hs);
    [vm_compute; reflexivity|vm_compute; reflexivity|reflexivity|vm_compute; reflexivity|vm_compute; reflexivity|vm_compute; reflexivity|exact Ee|exact Hr|].
  exists s1, w1. destruct (on_route counting RAddOutbound [] (prepared admin) _) as [y pn] eqn:E1. destruct (buildHandler ex_cfg 9 false counting admin ex_st) as [z pz].
  destruct Hs as (_ & Hw & _). exact Hw.
Defined.

Lemma connections_counted_witness : exists s live, conn_run [Enter "a"; Enter "b"; Enter "a"; Leave "b"] (mkServer ∅ ∅ 0 0 0, []) = Some (s, live) /\ activeConns s !! "a" = Some 2.
Proof.
  assert (Hb : (match conn_run [Enter "a"; Enter "b"; Enter "a"; Leave "b"] (mkServer ∅ ∅ 0 0 0, []) with Some (_, live) => count "a" live | None => 0 end) = 2) by (vm_compute; reflexivity).
  destruct (conn_run [Enter "a"; Enter "b"; Enter "a"; Leave "b"] (mkServer ∅ ∅ 0 0 0, [])) as [[s live]|] eqn:E; [|discriminate Hb].
  destruct (connections_counted _ s live E "a") as [Ha _]. exists s, live. split; [reflexivity|]. rewrite Ha, Hb. reflexivity.
Defined.

Definition proxied : request := mkRequest "GET" (bytes_of_string "/api/logs") "/api/logs" "" "h" "10.0.0.2:80" [("X-Forwarded-For", "1.2.3.4, 203.0.113.9, 10.0.0.7")] false [] None.
Lemma client_ip_not_forged_witness : getClientIP proxied = "203.0.113.9".
Proof.
  destruct (client_ip_not_forged proxied) as [_ Hf].
  rewrite (Hf "1.2.3.4," "1.2.3.4" " 203.0.113.9" [" 10.0.0.7"]); [vm_compute; reflexivity|vm_compute; reflexivity|vm_compute; reflexivity|right; reflexivity| | |vm_compute; discriminate|vm_compute; reflexivity|].
  - apply (bool_decide_unpack _). vm_compute. exact I.
  - constructor; [|constructor]. apply (bool_decide_unpack _). vm_compute. exact I.
  - constructor; [vm_compute; reflexivity|constructor].
Defined.

Lemma request_gives_back_witness : activeConns (srv (buildHandler ex_cfg 9 false panicking admin ex_st).1) = ∅.
Proof.
  pose proof (request_gives_back ex_cfg 9 false panicking admin ex_st) as Hg. destruct (buildHandler ex_cfg 9 false panicking admin ex_st) as [y pn]. destruct Hg as (_ & Ha & _).
  - intros rt vs r x. unfold panicking. cbn [on_route]. destruct (protected rt); split; reflexivity.
  - intros r x. split; reflexivity.
  - intros ip n Hn. cbn in Hn. rewrite lookup_empty in Hn. discriminate Hn.
  - exact Ha.
Defined.

#[local] Instance no_yaml : ServerCfg.Yaml := {| ServerCfg.yaml_Marshal c := None; ServerCfg.yaml_Unmarshal d c := None |}.
#[local] Instance no_mac : Auth.Crypto := {| Auth.hmac_sha256 k m := m; Auth.derive_auth k := k |}.
Definition ex_program : program := mkProgram true (Some (ServerCfg.New "")) (ServerCfg.mkFs ∅ ∅).
Definition idle : Handlers (W := program) := mkHandlers (fun rt vs r x => (x, false)) (fun r x => (x, false)).
Definition add_body : list Z := GoJson.print (json_object [("tag", json_string "t1"); ("address", json_string "198.51.100.1:80")]).
Definition add_request : request := mkRequest "POST" (bytes_of_string "/api/outbounds/add") "/api/outbounds/add" "" "h" "203.0.113.9:4242" [("Authorization", "Bearer secret"); ("Content-Type", "application/json")] false add_body None.
Definition ex_io : ServerCfg.io := ServerCfg.mkIo 1 true None true true.
Definition ex_requests : list (request * Z * ServerCfg.io) := [(add_request, 9, ex_io); (add_request, 10, ex_io)].
Definition ex_after : st (W := program) := serve_all [] ex_cfg (fun _ => GoJson.JNull) false idle ex_requests (mkSt ex_server (mkWriter ∅ None []) ex_program).

Lemma outbounds_distinct_witness : distinct (world ex_after) /\ (match provider (world ex_after) with Some p => tags (ServerCfg.current p) | None => [] end) = ["t1"].
Proof.
  split; [|vm_compute; reflexivity]. apply (outbounds_distinct [] ex_cfg (fun _ => GoJson.JNull) false idle ex_requests); [intros rt vs r x Hx; exact Hx|intros r x Hx; exact Hx|]. cbn. constructor.
Defined.

End ApiWitnesses.
