(* ===== verification/Updater.v ===== *)
(** The updater of the server, common/update: the manifest, the download with its
    checks, and the replacement of the binary with backup and rollback.

    What the network answers and which calls to the file system succeed are given
    by [net] and [io]; SHA-256 and Ed25519 are the operations of [Signing]. *)

From S2P Require Import Prelude GoIO GoStr NetIP GoPath GoJson ConnKey ServerCfg ApiServer.

Module Updater.
Import ApiServer.

Class Signing := { sha256 : list Z -> list Z; ed25519_Verify : list Z -> list Z -> list Z -> bool }.

Record VersionInfo := mkInfo { Version : string; Channel : string; Checksum : string; Signature : string; URL : string; Size : Z; ReleaseAt : string; Changelog : string }.
Record Manifest := mkManifest { Latest : VersionInfo; Versions : gmap string VersionInfo }.
Definition zero_info : VersionInfo := mkInfo "" "" "" "" "" 0 "" "".

(** [None] of the key is nil. *)
Record Config := mkConfig { ManifestURL : string; PublicKey : option (list Z); CurrentVersion : string; BinaryPath : string; BackupDir : string; CheckInterval : Z }.
Definition hour : Z := 3600000000000.
Definition NewUpdater (cfg : Config) : Config :=
  mkConfig (ManifestURL cfg) (PublicKey cfg) (CurrentVersion cfg) (BinaryPath cfg) (if bool_decide (BackupDir cfg = "") then "/etc/whispera/backups" else BackupDir cfg)
    (if CheckInterval cfg <=? 0 then hour else CheckInterval cfg).
Definition with_version (cfg : Config) (v : string) : Config := mkConfig (ManifestURL cfg) (PublicKey cfg) v (BinaryPath cfg) (BackupDir cfg) (CheckInterval cfg).

(** ** The manifest *)

Definition info_names : list string := ["version"; "channel"; "checksum_sha256"; "signature_ed25519"; "url"; "size"; "released_at"; "changelog"].
Definition dec_info (v : GoJson.json) (old : VersionInfo) : option VersionInfo :=
  match v with
  | GoJson.JObj ms =>
      version ← struct_field info_names ConnKey.dec_str (Version old) "version" ms;
      channel ← struct_field info_names ConnKey.dec_str (Channel old) "channel" ms;
      checksum ← struct_field info_names ConnKey.dec_str (Checksum old) "checksum_sha256" ms;
      signature ← struct_field info_names ConnKey.dec_str (Signature old) "signature_ed25519" ms;
      url ← struct_field info_names ConnKey.dec_str (URL old) "url" ms;
      size ← struct_field info_names ConnKey.dec_int (Size old) "size" ms;
      released ← struct_field info_names ConnKey.dec_str (ReleaseAt old) "released_at" ms;
      changelog ← struct_field info_names ConnKey.dec_str (Changelog old) "changelog" ms;
      Some (mkInfo version channel checksum signature url size released changelog)
  | GoJson.JNull => Some old
  | _ => None
  end.
Definition dec_versions (v : GoJson.json) (old : gmap string VersionInfo) : option (gmap string VersionInfo) :=
  match v with
  | GoJson.JObj ms => foldl (fun acc kv => m ← acc; i ← dec_info kv.2 zero_info; Some (<[string_of_bytes kv.1 := i]> m)) (Some old) ms
  | GoJson.JNull => Some ∅
  | _ => None
  end.
Definition decode_manifest (v : GoJson.json) : option Manifest :=
  match v with
  | GoJson.JObj ms =>
      latest ← struct_field ["latest"; "versions"] dec_info zero_info "latest" ms;
      versions ← struct_field ["latest"; "versions"] dec_versions ∅ "versions" ms;
      Some (mkManifest latest versions)
  | GoJson.JNull => Some (mkManifest zero_info ∅)
  | _ => None
  end.

(** What the network answers: a status and a body, or nothing, to a request for a
    manifest or a file. *)
Definition net := string -> option (Z * list Z).
Definition max_manifest : Z := 1048576.

(** The error, no update, or the version. *)
Inductive check_result := CheckFailed | UpToDate | Available (info : VersionInfo).
Definition CheckForUpdate (n : net) (cfg : Config) : check_result :=
  match n (ManifestURL cfg) with
  | Some (code, body) =>
      if negb (code =? 200) then CheckFailed
      else
        let l := ztake max_manifest body in
        match GoJson.parse_value (2 * length l + 2) 0 l ≫= fun vr => decode_manifest vr.1 with
        | None => CheckFailed
        | Some m => if bool_decide (Version (Latest m) = CurrentVersion cfg) then UpToDate else Available (Latest m)
        end
  | None => CheckFailed
  end.

(** ** Files *)

(** The content and the permissions of each file. *)
Abbreviation files := (gmap string (list Z * Z)).
(** Which calls succeed; [temp] is the name of the temporary file, [saved] and
    [copied] are what a copy that fails leaves of the download and of the backup. *)
Record io := mkIo {
  temp : string; umask : Z; temp_ok : bool; saved : option (list Z); read_ok : bool; reread_ok : bool; mkdir_ok : bool; open_ok : bool; create_ok : bool; copied : option (list Z);
  stat_ok : bool; chmod_ok : bool; rename_ok : bool; undo_ok : bool; remove_ok : bool
}.

(** [os.Create] keeps the permissions of a file that is there, [os.CreateTemp] makes
    a new one for its owner only. *)
Definition created (i : io) (path : string) (f : files) : Z := match f !! path with Some (_, mode) => mode | None => Z.ldiff 438 (umask i) end.
Definition temp_mode : Z := 384.
Definition os_Remove (i : io) (path : string) (f : files) : files := if remove_ok i then delete path f else f.

Definition defaultMaxBinarySize : Z := 200 * 1024 * 1024.
(** The temporary file, when there is no error. *)
Definition download (n : net) (i : io) (url : string) (maxSize : Z) (f : files) : files * option string :=
  match n url with
  | Some (code, body) =>
      if negb (code =? 200) then (f, None)
      else
        let maxSize := if maxSize <=? 0 then defaultMaxBinarySize else maxSize in
        if negb (temp_ok i) then (f, None)
        else
          let data := ztake (i64 (maxSize + 1)) body in
          match saved i with
          | Some part => (os_Remove i (temp i) (<[temp i := (part, temp_mode)]> f), None)
          | None =>
              let f := <[temp i := (data, temp_mode)]> f in
              if maxSize <? len data then (os_Remove i (temp i) f, None) else (f, Some (temp i))
          end
  | None => (f, None)
  end.

Section Verify.
Context `{Signing}.

Definition verifyChecksum (i : io) (file : string) (expectedHex : string) (f : files) : bool :=
  match f !! file with
  | Some (data, _) => read_ok i && bool_decide (string_of_bytes (ServerCfg.hex_bytes (sha256 data)) = expectedHex)
  | None => false
  end.
Fixpoint hex_decode (l : list Z) : option (list Z) :=
  match l with
  | [] => Some []
  | a :: b :: l => x ← hex_val a; y ← hex_val b; r ← hex_decode l; Some (x * 16 + y :: r)
  | [_] => None
  end.
Definition verifySignature (i : io) (key : list Z) (file : string) (sigHex : string) (f : files) : bool :=
  match hex_decode (bytes_of_string sigHex), f !! file with
  | Some sig, Some (data, _) => reread_ok i && ed25519_Verify key (sha256 data) sig
  | _, _ => false
  end.

Definition backup_path (dir version : string) : string :=
  string_of_bytes (path_Join (bytes_of_string dir) (bytes_of_string (String.append "whispera-" (String.append version ".bak")))).
Definition backup (i : io) (cfg : Config) (f : files) : files * bool :=
  if negb (mkdir_ok i) then (f, false)
  else match f !! BinaryPath cfg with
  | None => (f, true)
  | Some (data, _) =>
      let dst := backup_path (BackupDir cfg) (CurrentVersion cfg) in
      if negb (open_ok i) || negb (create_ok i) then (f, false)
      else match copied i with
      | None => (<[dst := (data, created i dst f)]> f, true)
      | Some part => (<[dst := (part, created i dst f)]> f, false)
      end
  end.

(** [os.Rename] *)
Definition rename (ok : bool) (from to : string) (f : files) : files * bool :=
  match f !! from with
  | Some file => if ok then (<[to := file]> (delete from f), true) else (f, false)
  | None => (f, false)
  end.
Definition os_Chmod (ok : bool) (path : string) (mode : Z) (f : files) : files * bool :=
  match f !! path with
  | Some (data, _) => if ok then (<[path := (data, mode)]> f, true) else (f, false)
  | None => (f, false)
  end.
(** The permissions of the binary, if they can be read. *)
Definition target_mode (i : io) (cfg : Config) (f : files) : Z := match f !! BinaryPath cfg with Some (_, mode) => if stat_ok i then mode else 493 | None => 493 end.
Definition atomicReplace (i : io) (cfg : Config) (tmpFile : string) (f : files) : files * bool :=
  let '(f, ok) := os_Chmod (chmod_ok i) tmpFile (target_mode i cfg f) f in
  if negb ok then (f, false) else rename (rename_ok i) tmpFile (BinaryPath cfg) f.

(** The files that the pattern whispera-*.bak finds in the directory, whose own name
    holds no pattern. *)
Definition is_backup (dir path : string) : bool :=
  match strip_prefix (path_Clean (bytes_of_string dir) ++ 47 :: bytes_of_string "whispera-") (bytes_of_string path) with
  | Some rest => has_prefix (rev (bytes_of_string ".bak")) (rev rest) && negb (bool_decide (47 ∈ rest))
  | None => false
  end.
Fixpoint greatest (best : string) (l : list string) : string :=
  match l with [] => best | x :: l => greatest (if String.ltb best x then x else best) l end.
Definition rollback (i : io) (cfg : Config) (f : files) : files * bool :=
  match List.filter (is_backup (BackupDir cfg)) (map_to_list f).*1 with
  | [] => (f, false)
  | x :: l => rename (undo_ok i) (greatest x l) (BinaryPath cfg) f
  end.

Inductive apply_result := Applied | DownloadFailed | ChecksumFailed | SignatureFailed | BackupFailed | RolledBack | RollbackFailed.

(** [Apply] behind the download, with the removal of the temporary file. *)
Definition apply_file (i : io) (info : VersionInfo) (tmpFile : string) (cfg : Config) (f : files) : Config * files * apply_result :=
  let clean (g : files) : files := os_Remove i tmpFile g in
  if negb (verifyChecksum i tmpFile (Checksum info) f) then (cfg, clean f, ChecksumFailed)
  else if match PublicKey cfg with Some key => negb (bool_decide (Signature info = "")) && negb (verifySignature i key tmpFile (Signature info) f) | None => false end
  then (cfg, clean f, SignatureFailed)
  else
    let '(f, ok) := backup i cfg f in
    if negb ok then (cfg, clean f, BackupFailed)
    else
      let '(f, ok) := atomicReplace i cfg tmpFile f in
      if ok then (with_version cfg (Version info), clean f, Applied)
      else let '(f, ok) := rollback i cfg f in (cfg, clean f, if ok then RolledBack else RollbackFailed).
Definition Apply (n : net) (i : io) (info : VersionInfo) (cfg : Config) (f : files) : Config * files * apply_result :=
  match download n i (URL info) (Size info) f with
  | (f, None) => (cfg, f, DownloadFailed)
  | (f, Some tmpFile) => apply_file i info tmpFile cfg f
  end.

(** The version that failed and its result are what [onUpdateFailed] is told. *)
Definition CheckAndApply (n : net) (i : io) (cfg : Config) (f : files) : Config * files * option (check_result * option apply_result) :=
  match CheckForUpdate n cfg with
  | CheckFailed => (cfg, f, Some (CheckFailed, None))
  | UpToDate => (cfg, f, None)
  | Available info => let '(cfg, f, res) := Apply n i info cfg f in (cfg, f, Some (Available info, Some res))
  end.
End Verify.
End Updater.
