(* ===== verification/UpdaterFacts.v ===== *)
(** Facts about the updater: what can become the binary, and what a failed update
    leaves. *)

From S2P Require Import Prelude GoIO GoStr NetIP GoPath GoJson ConnKey ServerCfg ApiServer QuicInitialFacts Updater.
Import Updater.

Lemma greatest_in x l : greatest x l ∈ x :: l.
Proof.
  revert x. induction l as [|y l IH]; intros x; cbn; [left|]. specialize (IH (if String.ltb x y then y else x)).
  apply elem_of_cons in IH as [->|IH]; [destruct (String.ltb x y); set_solver|right; right; done].
Qed.

Section Facts.
Context `{Signing}.
Variables (n : net) (i : io) (cfg : Config) (f : files).
Let bin := BinaryPath cfg.
Let bak := backup_path (BackupDir cfg) (CurrentVersion cfg).

(** The temporary file is a new one, and the files of the updater are not the same. *)
Record apart : Prop := mkApart {
  ap_new : f !! temp i = None; ap_bin : temp i <> bin; ap_bak : temp i <> bak; ap_both : bak <> bin; ap_pattern : is_backup (BackupDir cfg) (temp i) = false
}.

(** The body that an address gave.  For the largest number as the size the limit
    overflows and nothing is read. *)
Definition served (url : string) (size : Z) (data : list Z) : Prop := exists body, n url = Some (200, body) /\ (size < 2 ^ 63 - 1 -> data = body).

Definition within (size : Z) (data : list Z) : Prop := len data <= (if size <=? 0 then defaultMaxBinarySize else size).

(** [g] holds what [f] holds, but for the temporary file, which is gone if it could
    be removed. *)
Definition same_but_temp (g : files) : Prop := (forall k, k <> temp i -> g !! k = f !! k) /\ (remove_ok i = true -> g !! temp i = None).

Lemma removed_temp g : (forall k, k <> temp i -> g !! k = f !! k) -> same_but_temp (os_Remove i (temp i) g).
Proof.
  intros Hg. unfold os_Remove. split; destruct (remove_ok i) eqn:E; try done; [|intros _; apply lookup_delete_eq]. intros k Hk. rewrite lookup_delete_ne by done. auto.
Qed.

(** The download as it is checked later. *)
Lemma download_spec url size f1 r : apart -> download n i url size f = (f1, r) ->
  match r with
  | Some tmp => tmp = temp i /\ exists data, f1 = <[temp i := (data, temp_mode)]> f /\ within size data /\ served url size data
  | None => same_but_temp f1
  end.
Proof.
  intros Ha. assert (Hf : same_but_temp f) by (split; [done|intros _; apply Ha]). assert (Hins : forall v k, k <> temp i -> <[temp i := v]> f !! k = f !! k) by (intros v k Hk; apply lookup_insert_ne; done).
  unfold download. destruct (n url) as [[code body]|] eqn:En; [|intros [= <- <-]; done]. destruct (Z.eqb_spec code 200) as [->|]; cbn [negb]; [|intros [= <- <-]; done].
  destruct (temp_ok i); cbn [negb]; [|intros [= <- <-]; done]. destruct (saved i) as [part|]; [intros [= <- <-]; apply removed_temp; auto|].
  set (limit := if size <=? 0 then defaultMaxBinarySize else size). destruct (limit <? _) eqn:E; intros [= <- <-]; [apply removed_temp; auto|].
  bool_to_prop. split; [done|]. exists (ztake (i64 (limit + 1)) body). split; [reflexivity|]. split; [exact E|]. exists body. split; [exact En|]. intros Hs.
  assert (Hpos : 0 < limit < 2 ^ 63 - 1) by (unfold limit, defaultMaxBinarySize; destruct (size <=? 0) eqn:Es; bool_to_prop; lia). rewrite i64_small in * by lia.
  apply ztake_ge. destruct (Z_le_gt_dec (len body) limit); [lia|]. rewrite zlen_ztake in E by lia. lia.
Qed.

(** The files after the backup. *)
Lemma backup_spec f1 f2 ok data : apart -> f1 = <[temp i := (data, temp_mode)]> f -> backup i cfg f1 = (f2, ok) ->
  f2 !! bin = f !! bin /\ f2 !! temp i = Some (data, temp_mode) /\ (ok = true -> match f !! bin with Some (old, _) => f2 = <[bak := (old, created i bak f)]> f1 | None => f2 = f1 end)
  /\ (forall k, k <> bak -> f2 !! k = f1 !! k).
Proof.
  intros Ha Hf1. pose proof Ha as [H1 H2 H3 H4 H5]. assert (Hb : f1 !! bin = f !! bin) by (rewrite Hf1; apply lookup_insert_ne; done). assert (Ht : f1 !! temp i = Some (data, temp_mode)) by (rewrite Hf1; apply lookup_insert_eq).
  assert (Hcr : created i bak f1 = created i bak f) by (unfold created; rewrite Hf1, lookup_insert_ne by done; done).
  unfold backup. destruct (mkdir_ok i); cbn [negb]; [|intros [= <- <-]; done]. fold bin. rewrite Hb. destruct (f !! bin) as [[old mo]|] eqn:Eb; [|intros [= <- <-]; done].
  cbn zeta. fold bak. rewrite Hcr. destruct (_ || _); [intros [= <- <-]; done|].
  assert (Hi : forall v, (<[bak := v]> f1) !! bin = Some (old, mo) /\ (<[bak := v]> f1) !! temp i = Some (data, temp_mode) /\ forall k, k <> bak -> (<[bak := v]> f1) !! k = f1 !! k).
  { intros v. rewrite (lookup_insert_ne f1 bak bin), (lookup_insert_ne f1 bak (temp i)) by done. split_and!; [done..|]. intros k Hk. apply lookup_insert_ne. done. }
  destruct (copied i) as [part|]; intros [= <- <-]; [destruct (Hi (part, created i bak f)) as (? & ? & ?)|destruct (Hi (old, created i bak f)) as (? & ? & ?)]; split_and!; done.
Qed.

(** The replacement: the new binary gets the permissions of the old one; if it
    fails, only the permissions of the temporary file can have changed. *)
Lemma replace_spec f2 f3 ok data mode : apart -> f2 !! temp i = Some (data, mode) -> atomicReplace i cfg (temp i) f2 = (f3, ok) ->
  if ok then f3 !! bin = Some (data, target_mode i cfg f2) /\ f3 !! temp i = None else forall k, k <> temp i -> f3 !! k = f2 !! k.
Proof.
  intros Ha Ht. pose proof (ap_bin Ha) as Hb. unfold atomicReplace, os_Chmod, rename. rewrite Ht. fold bin. destruct (chmod_ok i); cbn [negb]; [|intros [= <- <-]; done].
  rewrite lookup_insert_eq. destruct (rename_ok i); intros [= <- <-]; [|intros k Hk; apply lookup_insert_ne; done].
  rewrite lookup_insert_eq, (lookup_insert_ne _ bin (temp i)), lookup_delete_eq by done. done.
Qed.

Lemma rollback_spec f2 f3 ok : rollback i cfg f2 = (f3, ok) ->
  if ok then exists k, is_backup (BackupDir cfg) k = true /\ is_Some (f2 !! k) /\ f3 !! bin = f2 !! k else f3 = f2.
Proof.
  unfold rollback. destruct (List.filter _ _) as [|x l] eqn:E; [intros [= <- <-]; done|]. unfold rename. destruct (f2 !! greatest x l) as [data|] eqn:Eg; [|intros [= <- <-]; done].
  destruct (undo_ok i); intros [= <- <-]; [|done]. exists (greatest x l). pose proof (greatest_in x l) as Hin. rewrite <- E in Hin. apply list_elem_of_In, List.filter_In in Hin as [_ Hb].
  rewrite Eg. split; [done|]. split; [eauto|]. fold bin. apply lookup_insert_eq.
Qed.

(** What the updater checked of a binary. *)
Definition checked (info : VersionInfo) (data : list Z) : Prop :=
  served (URL info) (Size info) data /\ within (Size info) data
  /\ string_of_bytes (ServerCfg.hex_bytes (sha256 data)) = Checksum info
  /\ (forall key, PublicKey cfg = Some key -> Signature info <> "" -> exists sig, hex_decode (bytes_of_string (Signature info)) = Some sig /\ ed25519_Verify key (sha256 data) sig = true).

(** The binary that a rollback puts back: the file of the backup just made, or
    another that was there. *)
Definition put_back (file : list Z * Z) : Prop := exists k, is_backup (BackupDir cfg) k = true
  /\ ((k <> bak /\ f !! k = Some file) \/ (k = bak /\ match f !! bin with Some (old, _) => file = (old, created i bak f) | None => f !! k = Some file end)).

Definition outcome (info : VersionInfo) (cfg' : Config) (f' : files) (res : apply_result) : Prop :=
  match res with
  | Applied => exists data, f' !! bin = Some (data, target_mode i cfg f) /\ checked info data /\ CurrentVersion cfg' = Version info
  | RolledBack => cfg' = cfg /\ exists file, f' !! bin = Some file /\ put_back file
  | _ => cfg' = cfg /\ f' !! bin = f !! bin
  end.

Lemma verified info data key mode g : g !! temp i = Some (data, mode) -> verifyChecksum i (temp i) (Checksum info) g = true ->
  match PublicKey cfg with Some key => negb (bool_decide (Signature info = "")) && negb (verifySignature i key (temp i) (Signature info) g) | None => false end = false ->
  PublicKey cfg = Some key -> Signature info <> "" -> exists sig, hex_decode (bytes_of_string (Signature info)) = Some sig /\ ed25519_Verify key (sha256 data) sig = true.
Proof.
  intros Hg Hc Hs Hk Hne. rewrite Hk in Hs. rewrite bool_decide_eq_false_2 in Hs by done. cbn in Hs. apply negb_false_iff in Hs. unfold verifySignature in Hs. rewrite Hg in Hs.
  destruct (hex_decode _) as [sig|]; [|done]. apply andb_true_iff in Hs as [_ Hs]. eauto.
Qed.

Lemma cleaned (g : files) : temp i <> bin -> os_Remove i (temp i) g !! bin = g !! bin.
Proof. intros Hb. unfold os_Remove. destruct (remove_ok i); [|done]. apply lookup_delete_ne. done. Qed.

Lemma gone (g : files) : remove_ok i = true -> os_Remove i (temp i) g !! temp i = None.
Proof. intros Hr. unfold os_Remove. rewrite Hr. apply lookup_delete_eq. Qed.

Lemma apply_file_spec info data cfg' f' res : apart -> within (Size info) data -> served (URL info) (Size info) data ->
  apply_file i info (temp i) cfg (<[temp i := (data, temp_mode)]> f) = (cfg', f', res) -> (remove_ok i = true -> f' !! temp i = None) /\ outcome info cfg' f' res.
Proof.
  intros Ha Hlen Hn. pose proof Ha as [H1 H2 H3 H4 H5]. set (f1 := <[temp i := (data, temp_mode)]> f). unfold apply_file. cbn zeta beta.
  assert (Hf1 : f1 !! temp i = Some (data, temp_mode)) by apply lookup_insert_eq. assert (Hb1 : f1 !! bin = f !! bin) by (apply lookup_insert_ne; done).
  assert (Hclean : forall g : files, os_Remove i (temp i) g !! bin = g !! bin) by (intros g; apply cleaned; done).
  assert (Hgone : forall g : files, remove_ok i = true -> os_Remove i (temp i) g !! temp i = None) by apply gone.
  destruct (verifyChecksum i (temp i) (Checksum info) f1) eqn:Ec; cbn [negb]; [|intros [= <- <- <-]; split; [auto|]; cbn; rewrite Hclean; done].
  destruct (match PublicKey cfg with Some _ => _ | None => _ end) eqn:Es; [intros [= <- <- <-]; split; [auto|]; cbn; rewrite Hclean; done|].
  assert (Hchk : checked info data).
  { split_and!; [done..| |intros key; eapply verified; eauto]. unfold verifyChecksum in Ec. rewrite Hf1 in Ec. apply andb_true_iff in Ec as [_ Ec]. apply bool_decide_eq_true_1 in Ec. done. }
  destruct (backup i cfg f1) as [f2 ok] eqn:Eb. destruct (backup_spec f1 f2 ok data Ha eq_refl Eb) as (Hb2 & Ht2 & Hok & Hoth). destruct ok; cbn [negb]; [|intros [= <- <- <-]; split; [auto|]; cbn; rewrite Hclean; done].
  specialize (Hok eq_refl). destruct (atomicReplace i cfg (temp i) f2) as [f3 ok] eqn:Er. pose proof (replace_spec f2 f3 ok data temp_mode Ha Ht2 Er) as Hr.
  assert (Hmode : target_mode i cfg f2 = target_mode i cfg f) by (unfold target_mode; fold bin; rewrite Hb2; done). destruct ok.
  - intros [= <- <- <-]. split; [auto|]. exists data. rewrite Hclean, <- Hmode. split; [apply Hr|done].
  - destruct (rollback i cfg f3) as [f4 ok] eqn:Ek. pose proof (rollback_spec f3 f4 ok Ek) as Hk. destruct ok; intros [= <- <- <-]; (split; [auto|]); cbn; rewrite Hclean; (split; [done|]).
    + destruct Hk as (k & Hkb & [file Hold] & Hbin). exists file. rewrite Hbin. split; [done|]. exists k. split; [done|]. assert (Hkt : k <> temp i) by (intros ->; congruence). rewrite (Hr k Hkt) in Hold.
      destruct (decide (k = bak)) as [->|Hne].
      * right. split; [done|]. destruct (f !! bin) as [[b mb]|] eqn:Ebin; subst f2; [rewrite lookup_insert_eq in Hold; congruence|]. unfold f1 in Hold. rewrite lookup_insert_ne in Hold by done. done.
      * left. split; [done|]. rewrite (Hoth k Hne) in Hold. unfold f1 in Hold. rewrite lookup_insert_ne in Hold by done. done.
    + rewrite Hk, (Hr bin) by done. done.
Qed.

Lemma Apply_spec info cfg' f' res : apart -> Apply n i info cfg f = (cfg', f', res) -> (remove_ok i = true -> f' !! temp i = None) /\ outcome info cfg' f' res.
Proof.
  intros Ha HA. unfold Apply in HA. destruct (download n i (URL info) (Size info) f) as [g r] eqn:Ed. pose proof (download_spec _ _ _ _ Ha Ed) as Hd. destruct r as [tmp|].
  - destruct Hd as (-> & data & -> & Hlen & Hn). exact (apply_file_spec info data cfg' f' res Ha Hlen Hn HA).
  - injection HA as <- <- <-. destruct Hd as [Hd Ht]. split; [done|]. split; [done|]. apply Hd. apply not_eq_sym, (ap_bin Ha).
Qed.

(** C37: the binary is only ever replaced by what the manifest describes: after a check
    for updates, whatever the network answers and whichever calls to the file system
    fail, the binary is what it was, or the body that the manifest's address gave
    (nothing of it for the largest number as the size), within its size and with its
    SHA-256, with the permissions of the binary before; or, after a failed
    replacement, a backup.  A signature is checked only if a key is configured and
    the manifest carries one: without either, the SHA-256 of the manifest is all.
    The temporary file is gone if it could be removed. *)
Theorem update_only_checked cfg' f' told : apart -> CheckAndApply n i cfg f = (cfg', f', told) ->
  (remove_ok i = true -> f' !! temp i = None) /\
  (f' !! bin = f !! bin
   \/ (exists info data, told = Some (Available info, Some Applied) /\ f' !! bin = Some (data, target_mode i cfg f) /\ checked info data /\ CurrentVersion cfg' = Version info)
   \/ (exists info file, told = Some (Available info, Some RolledBack) /\ f' !! bin = Some file /\ put_back file)).
Proof.
  intros Ha. unfold CheckAndApply. destruct (CheckForUpdate n cfg) as [| |info]; [intros [= <- <- <-]; rewrite (ap_new Ha); auto..|].
  destruct (Apply n i info cfg f) as [[c1 f1] res] eqn:E. intros [= <- <- <-]. destruct (Apply_spec info c1 f1 res Ha E) as [Ht Hr]. split; [done|].
  destruct res; try (left; apply Hr); right; [left|right].
  - destruct Hr as (data & Hb & Hc & Hv). eauto 10.
  - destruct Hr as (_ & file & Hb & Hp). eauto 10.
Qed.

(** C38: an update that fails leaves the content of the binary, if there was one, as
    it was, byte for byte, whatever fails, the rollback included, and the version
    stays the current one; provided that the backups hold no other version.  The
    permissions are as they were too unless the update was rolled back: then they
    are those of the backup, which is created without the right to be executed. *)
Theorem failed_update_keeps_binary info cfg' f' res old mode : apart -> f !! bin = Some (old, mode) -> (forall k, is_backup (BackupDir cfg) k = true -> is_Some (f !! k) -> k = bak) ->
  Apply n i info cfg f = (cfg', f', res) -> res <> Applied ->
  cfg' = cfg /\ f' !! bin = Some (old, match res with RolledBack => created i bak f | _ => mode end).
Proof.
  intros Ha Hold Honly HA Hres. destruct (Apply_spec info cfg' f' res Ha HA) as [_ Hr]. destruct res; try done; try (destruct Hr as [-> ->]; done).
  destruct Hr as (-> & file & -> & k & Hk & Ho). split; [done|]. destruct Ho as [[Hne Ho]|[-> Ho]]; [exfalso; apply Hne; eauto|]. rewrite Hold in Ho. congruence.
Qed.
End Facts.

(** A manifest without a signature is applied although a key is configured. *)
Lemma unsigned_applied `{Signing} n i cfg f info data old key : apart i cfg f -> n (URL info) = Some (200, data) -> 0 < Size info < 2 ^ 63 - 1 -> len data <= Size info ->
  string_of_bytes (ServerCfg.hex_bytes (sha256 data)) = Checksum info -> PublicKey cfg = Some key -> Signature info = "" -> f !! BinaryPath cfg = Some old ->
  temp_ok i = true -> saved i = None -> read_ok i = true -> mkdir_ok i = true -> open_ok i = true -> create_ok i = true -> copied i = None -> chmod_ok i = true -> rename_ok i = true ->
  exists cfg' f', Apply n i info cfg f = (cfg', f', Applied).
Proof.
  intros Ha Hn Hp Hs Hc Hk Hsig Hold O1 O2 O3 O4 O5 O6 O7 O8 O9. pose proof Ha as [H1 H2 H3 H4 H5]. unfold Apply, download. rewrite Hn, O1, O2. cbn [Z.eqb Pos.eqb negb].
  rewrite (proj2 (Z.leb_gt (Size info) 0)) by lia. rewrite i64_small by lia. rewrite (ztake_ge _ data) by lia. rewrite (proj2 (Z.ltb_ge _ _)) by lia. unfold apply_file. cbn zeta beta.
  unfold verifyChecksum. rewrite lookup_insert_eq, O3, Hc, Hk, Hsig. rewrite bool_decide_eq_true_2 by done. cbn [andb negb]. rewrite bool_decide_eq_true_2 by done. cbn [andb negb].
  unfold backup. rewrite O4, O5, O6, O7. cbn [negb orb]. rewrite lookup_insert_ne by done. rewrite Hold. destruct old as [old mo]. cbn [negb].
  unfold atomicReplace, os_Chmod, rename. rewrite O8, O9, (lookup_insert_ne _ _ (temp i)), lookup_insert_eq by (apply not_eq_sym; done). cbn [negb]. rewrite lookup_insert_eq. eauto.
Qed.

Module UpdateWitnesses.

#[local] Instance toy_signing : Signing := {| sha256 m := m; ed25519_Verify k d s := bool_decide (k ++ d = s) |}.

Definition ex_binary : string := "/usr/local/bin/whispera".
Definition ex_cfg : Config := mkConfig "https://u/manifest.json" (Some [1]) "10" ex_binary "/etc/whispera/backups" 0.
Definition ex_io : io := mkIo "/usr/local/bin/whispera-update-7" 18 true None true true true true true None true true true true true.
Definition ex_files : files := {[ ex_binary := ([9; 9], 493) ]}.
Definition ex_json (fields : list (string * GoJson.json)) : list Z := GoJson.print (ApiServer.json_object [("latest", ApiServer.json_object fields)]).
Definition ex_info : list (string * GoJson.json) :=
  [("version", ApiServer.json_string "11"); ("checksum_sha256", ApiServer.json_string "0203"); ("signature_ed25519", ApiServer.json_string "010203"); ("url", ApiServer.json_string "https://u/bin"); ("size", GoJson.JNum [50])].
Definition ex_net : net := fun url => if bool_decide (url = "https://u/manifest.json") then Some (200, ex_json ex_info) else if bool_decide (url = "https://u/bin") then Some (200, [2; 3]) else None.

Lemma ex_apart f : f !! temp ex_io = None -> apart ex_io ex_cfg f.
Proof. intros Hf. split; [exact Hf|vm_compute; discriminate|vm_compute; discriminate|vm_compute; discriminate|vm_compute; reflexivity]. Qed.

Lemma update_only_checked_witness : exists cfg' f' told, CheckAndApply ex_net ex_io ex_cfg ex_files = (cfg', f', told) /\ f' !! temp ex_io = None /\ f' !! ex_binary = Some ([2; 3], 493).
Proof.
  assert (Hb : (CheckAndApply ex_net ex_io ex_cfg ex_files).1.2 !! ex_binary = Some ([2; 3], 493)) by (vm_compute; reflexivity).
  destruct (CheckAndApply ex_net ex_io ex_cfg ex_files) as [[cfg' f'] told] eqn:E. exists cfg', f', told. split; [reflexivity|].
  destruct (update_only_checked ex_net ex_io ex_cfg ex_files cfg' f' told (ex_apart ex_files ltac:(vm_compute; reflexivity)) E) as [Ht _]. split; [apply Ht; reflexivity|exact Hb].
Defined.

(** The replacement fails; the binary that is put back, 0755 before, is 0644. *)
Definition bad_io : io := mkIo "/usr/local/bin/whispera-update-7" 18 true None true true true true true None true true false true true.
Definition ex_version : VersionInfo := mkInfo "11" "" "0203" "010203" "https://u/bin" 2 "" "".
Lemma failed_update_keeps_binary_witness : exists cfg' f' res, Apply ex_net bad_io ex_version ex_cfg ex_files = (cfg', f', res) /\ f' !! ex_binary = Some ([9; 9], 420).
Proof.
  assert (Hb : (Apply ex_net bad_io ex_version ex_cfg ex_files).2 = RolledBack) by (vm_compute; reflexivity).
  destruct (Apply ex_net bad_io ex_version ex_cfg ex_files) as [[cfg' f'] res] eqn:E. cbn in Hb. subst res. exists cfg', f', RolledBack. split; [reflexivity|].
  destruct (failed_update_keeps_binary ex_net bad_io ex_cfg ex_files ex_version cfg' f' RolledBack [9; 9] 493) as [_ Hf].
  - split; [vm_compute; reflexivity|vm_compute; discriminate|vm_compute; discriminate|vm_compute; discriminate|vm_compute; reflexivity].
  - vm_compute. reflexivity.
  - intros k Hk [d Hd]. unfold ex_files in Hd. apply lookup_singleton_Some in Hd as [<- _]. vm_compute in Hk. discriminate Hk.
  - exact E.
  - discriminate.
  - exact Hf.
Defined.

(** With the backup of an earlier version, 9 after 10, a failed update puts that
    version back instead of the one that ran. *)
Definition ex_old : files := <["/etc/whispera/backups/whispera-9.bak" := ([5], 420)]> ex_files.
Lemma rollback_other_version : (Apply ex_net bad_io ex_version ex_cfg ex_old).1.2 !! ex_binary = Some ([5], 420) /\ (Apply ex_net bad_io ex_version ex_cfg ex_old).2 = RolledBack.
Proof. split; vm_compute; reflexivity. Qed.

(** Any other version is an update, an older one too. *)
Definition old_net : net := fun _ => Some (200, ex_json [("version", ApiServer.json_string "1")]).
Lemma older_version_offered : match CheckForUpdate old_net ex_cfg with Available info => Version info = "1" | _ => False end.
Proof. vm_compute. reflexivity. Qed.

(** With the largest number as the size, nothing is downloaded. *)
Lemma largest_size_empty : download ex_net ex_io "https://u/bin" 9223372036854775807 ex_files = (<[temp ex_io := ([], temp_mode)]> ex_files, Some (temp ex_io)).
Proof. vm_compute. reflexivity. Qed.

End UpdateWitnesses.
