(* ===== verification/Identity.v ===== *)
(** The server's identity, core/protocol/identity.go, with what common.go keeps beside
    it: the key pair that binds the server's certificates and its selector key, the
    client's check of the certificate it is given, the selector keys it has learnt, the
    name it uses in a session and the message of a denied stream.

    Ed25519, X.509 and ASN.1 are the operations of [Ed25519], [X509] and [Asn1];
    SHA-256 and X25519 are those of [Camo]. *)

From S2P Require Import Prelude GoIO GoStr NetIP GoJson Auth Camo.

Module Identity.
Import Camo.

Class Ed25519 := { ed_pub : list Z -> list Z; ed_sign : list Z -> list Z -> list Z; ed_verify : list Z -> list Z -> list Z -> bool }.
Class Asn1 := {
  asn1_octets : list Z -> list Z; asn1_read_octets : list Z -> option (list Z);
  asn1_binding : list Z * list Z -> list Z; asn1_read_binding : list Z -> option (list Z * list Z)
}.

Inductive oid := certBindOID | selBindOID | OtherOID (n : Z).
#[global] Instance oid_eq_dec : EqDecision oid.
Proof. solve_decision. Defined.

Record Certificate := mkCert { Extensions : list (oid * list Z); RawSubjectPublicKeyInfo : list Z }.
(** Parsing, and whether a chain of certificates is trusted for a name. *)
Class X509 := { ParseCertificate : list Z -> option Certificate; chain_trusted : Certificate -> list Certificate -> string -> bool }.

Section Identity.
Context `{Curve} `{Ed25519} `{Asn1}.

Definition selectorBindMessage (pub : list Z) : list Z := sha256 (bytes_of_string "whispera-selector-bind-v1" ++ [0] ++ pub).
Definition certBindMessage (spki : list Z) (sni : string) : list Z := sha256 (bytes_of_string "whispera-cert-bind-v1" ++ [0] ++ spki ++ [0] ++ bytes_of_string sni).

(** The identity is its seed. *)
Record CertIdentity := mkIdentity { seed : list Z }.
Definition pub (id : CertIdentity) : list Z := ed_pub (seed id).
Definition SelectorKey (id : CertIdentity) : option (list Z) := ServerKeyFromSeed (seed id).
Definition SelectorPub (id : CertIdentity) : list Z := match SelectorKey id with Some k => PublicKey k | None => [] end.

(** ** The file *)

Definition SeedSize : Z := 32.
Inductive read_result := NotExist | ReadError | Content (data : list Z).
Record io := mkIo { generated : option (list Z); write_ok : bool; rename_ok : bool; owner_ok : bool }.
(** The file afterwards, and the identity if there is no error. *)
Definition LoadOrCreateCertIdentity (i : io) (file : read_result) : read_result * option CertIdentity :=
  match file with
  | Content data => if len data =? SeedSize then (file, Some (mkIdentity data)) else (file, None)
  | ReadError => (file, None)
  | NotExist =>
      match generated i with
      | None => (file, None)
      | Some s =>
          if negb (write_ok i) || negb (rename_ok i) then (file, None)
          else (Content s, if owner_ok i then Some (mkIdentity s) else None)
      end
  end.

Definition PubB64 (id : CertIdentity) : string := string_of_bytes (GoJson.std_encode (pub id)).

(** ** The server's side *)

Definition bindExtension (id : CertIdentity) (spki : list Z) (sni : string) : oid * list Z := (certBindOID, asn1_octets (ed_sign (seed id) (certBindMessage spki sni))).
Definition selectorExtension (id : CertIdentity) : option (oid * list Z) :=
  let p := SelectorPub id in
  if negb (len p =? 32) then None else Some (selBindOID, asn1_binding (p, ed_sign (seed id) (selectorBindMessage p))).

(** ** The client's side *)

Definition PublicKeySize : Z := 32.
Definition decode_pub (idPubB64 : string) : option (list Z) :=
  p ← GoJson.std_decode (bytes_of_string idPubB64); if len p =? PublicKeySize then Some p else None.

(** The empty string is no key. *)
Definition selectorPubFromCert (cert : Certificate) (idPubB64 : string) : string :=
  match decode_pub idPubB64 with
  | None => ""
  | Some p =>
      match find (fun e => bool_decide (e.1 = selBindOID)) (Extensions cert) with
      | None => ""
      | Some ext =>
          match asn1_read_binding ext.2 with
          | Some (k, sig) => if (len k =? 32) && ed_verify p (selectorBindMessage k) sig then string_of_bytes (GoJson.std_encode k) else ""
          | None => ""
          end
      end
  end.
(** The first extension that can be read. *)
Definition extractCertBindSig (cert : Certificate) : option (list Z) :=
  head (omap (fun e : oid * list Z => if bool_decide (e.1 = certBindOID) then asn1_read_octets e.2 else None) (Extensions cert)).
Definition verifyCertBinding (idPubB64 sni : string) (leaf : Certificate) : bool :=
  match decode_pub idPubB64, extractCertBindSig leaf with
  | Some p, Some sig => ed_verify p (certBindMessage (RawSubjectPublicKeyInfo leaf) sni) sig
  | _, _ => false
  end.
Definition SPKIPin (cert : Certificate) : string := string_of_bytes (GoJson.std_encode (sha256 (RawSubjectPublicKeyInfo cert))).

Context `{X509}.
Definition servedByDecoy (leaf : Certificate) (rest : list (list Z)) (sni : string) : bool :=
  if bool_decide (sni = "") then false else chain_trusted leaf (omap ParseCertificate rest) sni.

Inductive verdict := Accepted | NoCertificate | BadCertificate | ServedDecoy | IdentityFailed | PinMismatch.
(** The result, and the selector key that [onSelPub] is told. *)
Definition certVerifier (pin idPubB64 sni : string) (rawCerts : list (list Z)) : verdict * option string :=
  match rawCerts with
  | [] => (NoCertificate, None)
  | first :: rest =>
      match ParseCertificate first with
      | None => (BadCertificate, None)
      | Some leaf =>
          if negb (bool_decide (idPubB64 = "")) && verifyCertBinding idPubB64 sni leaf then
            let sel := selectorPubFromCert leaf idPubB64 in (Accepted, if bool_decide (sel = "") then None else Some sel)
          else if negb (bool_decide (pin = "")) && bool_decide (SPKIPin leaf = pin) then (Accepted, None)
          else if servedByDecoy leaf rest sni then (ServedDecoy, None)
          else if negb (bool_decide (idPubB64 = "")) && bool_decide (pin = "") then (IdentityFailed, None)
          else (PinMismatch, None)
      end
  end.

(** What a client checks in a handshake that is not resumed, over TCP and over QUIC:
    the library's own checks are off, and [certVerifier] is installed only with a
    pin or an identity. *)
Definition client_verify (pin idPub sni : string) (rawCerts : list (list Z)) : verdict * option string :=
  if negb (bool_decide (pin = "")) || negb (bool_decide (idPub = "")) then certVerifier pin idPub sni rawCerts else (Accepted, None).
End Identity.

(** ** common.go *)

Definition LearnedSelPub (idPub : string) (m : gmap string string) : string := default "" (m !! idPub).
Definition RememberSelPub (idPub selPub : string) (m : gmap string string) : gmap string string :=
  if bool_decide (idPub = "") || bool_decide (selPub = "") then m else <[idPub := selPub]> m.

(** The names of a client, and the one used in this session. *)
Definition pickSNI (serverNames : list string) (serverName : string) (r : rng) : string * rng :=
  let pool := List.filter validSNI serverNames in
  let pool := match pool with [] => if validSNI serverName then [serverName] else [] | _ => pool end in
  match pool with
  | [] => ("", r)
  | _ => let '(k, r) := Intn (len pool) r in (default "" (pool !! Z.to_nat k), r)
  end.
Definition hasConfiguredSNI (serverNames : list string) (serverName : string) : bool := existsb validSNI serverNames || validSNI serverName.
Definition sessionSNI (serverNames : list string) (serverName : string) (sessionSNIVal : string) (r : rng) : string * string * rng :=
  if negb (bool_decide (sessionSNIVal = "")) then (sessionSNIVal, sessionSNIVal, r)
  else
    let '(s, r) := pickSNI serverNames serverName r in
    (s, if hasConfiguredSNI serverNames serverName then s else sessionSNIVal, r).

(** The counter of failures and whether splicing is given up. *)
Definition MessageSpliceResult (received : bool) (s : Z * bool) : Z * bool :=
  if received then (0, s.2) else let n := i32 (s.1 + 1) in (n, s.2 || (2 <=? n)).

Definition denialMagic : list Z := [255; 87; 68; 78].
Definition denialMaxLen : Z := 512.
(** What is written. *)
Definition WriteDenial (msg : string) : list Z :=
  let m := ztake denialMaxLen (bytes_of_string msg) in denialMagic ++ put16 (len m) ++ m.
Definition ParseDenial (b : list Z) : option string :=
  if (len b <? 6) || negb (bool_decide (ztake 4 b = denialMagic)) then None
  else
    let n := get16 (zdrop 4 b) in
    let body := zdrop 6 b in
    if (n =? 0) || (len body <? n) then None else Some (string_of_bytes (ztake n body)).

End Identity.
