(* ===== verification/IdentityFacts.v ===== *)
(** Facts about the server's identity: certificates the server binds are accepted and
    teach the client the selector key, others are not, and the identity is kept. *)

From S2P Require Import Prelude GoIO GoStr NetIP GoJson GoJsonFacts Auth Camo CamoFacts Identity.
Import Camo Identity.

(** What the parameters are for. *)
Class IdentityLaws `{Curve} `{Ed25519} `{Asn1} := {
  ed_pub_len : forall s, len (ed_pub s) = 32;
  ed_pub_bytes : forall s, Forall is_byte (ed_pub s);
  ed_correct : forall s m, ed_verify (ed_pub s) m (ed_sign s m) = true;
  asn1_octets_read : forall x, asn1_read_octets (asn1_octets x) = Some x;
  asn1_binding_read : forall x, asn1_read_binding (asn1_binding x) = Some x;
  x25519_bytes : forall a b, Forall is_byte (x25519 a b)
}.

Lemma std_encode_string b : Forall is_byte b -> bytes_of_string (string_of_bytes (GoJson.std_encode b)) = GoJson.std_encode b.
Proof.
  intros Hb. apply bytes_of_string_of_bytes. eapply Forall_impl; [exact (std_encode_chars b Hb)|]. intros c [[H1 H2] _]. unfold is_byte. lia.
Qed.

Section Facts.
Context `{Curve} `{Ed25519} `{Asn1} `{X509}.

Lemma decode_pub_nonempty s p : decode_pub s = Some p -> s <> "".
Proof. intros Hd ->. vm_compute in Hd. discriminate Hd. Qed.

(** When [certVerifier] accepts.  A genuine certificate of the decoy does not do. *)
Lemma cert_accepted_iff pin idPub sni raws : (certVerifier pin idPub sni raws).1 = Accepted <->
  exists first rest leaf, raws = first :: rest /\ ParseCertificate first = Some leaf /\
    ((exists p sig, decode_pub idPub = Some p /\ extractCertBindSig leaf = Some sig /\ ed_verify p (certBindMessage (RawSubjectPublicKeyInfo leaf) sni) sig = true)
     \/ (pin <> "" /\ SPKIPin leaf = pin)).
Proof.
  unfold certVerifier. split.
  - destruct raws as [|first rest]; [done|]. destruct (ParseCertificate first) as [leaf|] eqn:Ep; [|done]. intros Hv. exists first, rest, leaf. split_and!; [done..|].
    destruct (negb (bool_decide (idPub = "")) && verifyCertBinding idPub sni leaf) eqn:Eb.
    + left. apply andb_true_iff in Eb as [_ Eb]. unfold verifyCertBinding in Eb. destruct (decode_pub idPub) as [p|]; [|done]. destruct (extractCertBindSig leaf) as [sig|]; [|done]. eauto.
    + destruct (negb (bool_decide (pin = "")) && bool_decide (SPKIPin leaf = pin)) eqn:Epin; [right; apply andb_true_iff in Epin as [E1 E2]; apply negb_true_iff, bool_decide_eq_false in E1; apply bool_decide_eq_true in E2; auto|]. destruct (servedByDecoy _ _ _); [done|]. destruct (_ && bool_decide (pin = "")); done.
  - intros (first & rest & leaf & -> & -> & Hor). destruct (negb (bool_decide (idPub = "")) && verifyCertBinding idPub sni leaf) eqn:Eb; [done|]. destruct Hor as [(p & sig & Hp & Hs & Hv)|[Hne Hpin]].
    + unfold verifyCertBinding in Eb. rewrite Hp, Hs, Hv, bool_decide_eq_false_2 in Eb by (eapply decode_pub_nonempty; done). done.
    + rewrite bool_decide_eq_false_2, bool_decide_eq_true_2 by done. done.
Qed.

(** ** Keys in DER

    The length of the element that [l] starts with: the tag, the length in its short
    or long form, and the content. *)
Definition der_total (l : list Z) : option Z :=
  match l with
  | _ :: n :: rest =>
      if n <? 128 then Some (2 + n)
      else let k := n - 128 in if len rest <? k then None else Some (2 + k + foldl (fun a b => a * 256 + b) 0 (ztake k rest))
  | _ => None
  end.
Definition der_element (l : list Z) : Prop := der_total l = Some (len l).

Lemma der_total_app a b t : der_total a = Some t -> der_total (a ++ b) = Some t.
Proof.
  destruct a as [|tag [|k rest]]; [done..|]. cbn. destruct (k <? 128) eqn:Ek; [done|]. bool_to_prop. destruct (len rest <? k - 128) eqn:El; [done|]. bool_to_prop.
  rewrite (proj2 (Z.ltb_ge _ _)) by (rewrite zlen_app; pose proof (zlen_nonneg b); lia). rewrite ztake_app_le by lia. done.
Qed.

(** No element is the beginning of another. *)
Lemma der_prefix_free a b x y : der_element a -> der_element b -> a ++ x = b ++ y -> a = b /\ x = y.
Proof.
  intros Ha Hb E. apply (der_total_app a x) in Ha. apply (der_total_app b y) in Hb. rewrite E, Hb in Ha. injection Ha as Hl. apply app_inj_1; [|done]. unfold zlen in Hl. lia.
Qed.

(** The identity is never replaced: once it could be loaded or created, every
    later start loads the very same one, and a file that is there but cannot be used is
    left as it is. *)
Theorem identity_kept i j file file' id : (forall s, generated i = Some s -> len s = SeedSize) -> LoadOrCreateCertIdentity i file = (file', Some id) ->
  LoadOrCreateCertIdentity j file' = (file', Some id) /\ (file <> NotExist -> file' = file).
Proof.
  intros Hg. unfold LoadOrCreateCertIdentity at 1. destruct file as [| |data]; [|done|].
  - destruct (generated i) as [s|]; [|done]. destruct (_ || _); [done|]. destruct (owner_ok i); [|done]. intros [= <- <-]. cbn. rewrite (Hg s eq_refl). done.
  - destruct (len data =? SeedSize) eqn:E; [|done]. intros [= <- <-]. cbn. rewrite E. done.
Qed.

Context {LAWS : IdentityLaws}.

Lemma decode_PubB64 id : decode_pub (PubB64 id) = Some (pub id).
Proof.
  unfold decode_pub, PubB64. rewrite std_encode_string by apply ed_pub_bytes. rewrite std_roundtrip by apply ed_pub_bytes. cbn. unfold pub. rewrite ed_pub_len. done.
Qed.

Lemma extract_skips others l : Forall (fun e : oid * list Z => e.1 <> certBindOID) others ->
  head (omap (fun e : oid * list Z => if bool_decide (e.1 = certBindOID) then asn1_read_octets e.2 else None) (others ++ l))
  = head (omap (fun e : oid * list Z => if bool_decide (e.1 = certBindOID) then asn1_read_octets e.2 else None) l).
Proof. induction 1 as [|e others He _ IH]; [done|]. cbn. rewrite bool_decide_eq_false_2 by done. exact IH. Qed.

Lemma find_skips (others l : list (oid * list Z)) : Forall (fun e => e.1 <> selBindOID) others ->
  find (fun e => bool_decide (e.1 = selBindOID)) (others ++ l) = find (fun e => bool_decide (e.1 = selBindOID)) l.
Proof. induction 1 as [|e others He _ IH]; [done|]. cbn. rewrite bool_decide_eq_false_2 by done. exact IH. Qed.

(** ** What the server signed

    [certs] are the keys and names of the certificates that the identity bound and
    [keys] the selector keys it signed. *)
Section Signed.
Variable id : CertIdentity.
Variable certs : list (list Z * string).
Variable keys : list (list Z).

Definition cert_text (spki : list Z) (sni : string) : list Z := bytes_of_string "whispera-cert-bind-v1" ++ [0] ++ spki ++ [0] ++ bytes_of_string sni.
Definition selector_text (k : list Z) : list Z := bytes_of_string "whispera-selector-bind-v1" ++ [0] ++ k.
Definition signed_text (t : list Z) : Prop := (exists c, c ∈ certs /\ t = cert_text c.1 c.2) \/ (exists k, k ∈ keys /\ t = selector_text k).

(** A certificate that anybody can present carries no signature of the identity but
    of what the server signed; SHA-256 of what it signed has no second preimage; the
    key in a certificate is an element of DER. *)
Definition unforged (raws : list (list Z)) : Prop := forall raw leaf sig m, head raws = Some raw -> ParseCertificate raw = Some leaf -> extractCertBindSig leaf = Some sig ->
  ed_verify (pub id) m sig = true -> exists t, signed_text t /\ m = sha256 t.
Definition no_second_preimage : Prop := forall t t', signed_text t -> sha256 t' = sha256 t -> t' = t.
Definition keys_in_der : Prop := (forall raw leaf, ParseCertificate raw = Some leaf -> der_element (RawSubjectPublicKeyInfo leaf)) /\ (forall c, c ∈ certs -> der_element c.1).

Lemma signed_binding spki sni : no_second_preimage -> der_element spki -> (forall c, c ∈ certs -> der_element c.1) ->
  (exists t, signed_text t /\ certBindMessage spki sni = sha256 t) -> (spki, sni) ∈ certs.
Proof.
  intros Hp Hd Hc (t & Ht & E). change (certBindMessage spki sni) with (sha256 (cert_text spki sni)) in E. apply (Hp t _ Ht) in E. destruct Ht as [([k n] & Hin & ->)|(k & _ & ->)].
  - unfold cert_text in E. apply app_inv_head, app_inv_head in E. cbn [fst snd] in E. destruct (der_prefix_free spki k _ _ Hd (Hc _ Hin) E) as [-> E2]. apply (app_inv_head [0]) in E2.
    apply (f_equal string_of_bytes) in E2. rewrite !string_of_bytes_of_string in E2. subst n. done.
  - discriminate E.
Qed.

(** C39: the tunnel is not taken over by another certificate.  A client that was given
    the server's identity accepts, in a handshake that is not resumed, only a
    certificate whose key the server itself bound to exactly the name the client asks
    for (one it bound for another name, its selector keys or a genuine certificate of
    the decoy do not do), or the pinned key if there is a pin, and that it does
    accept; provided that signatures of the identity cannot be forged and SHA-256 has
    no second preimages.  A client with neither identity nor pin accepts every
    certificate. *)
Theorem cert_bound_to_name pin sni raws : unforged raws -> no_second_preimage -> keys_in_der ->
  ((client_verify pin (PubB64 id) sni raws).1 = Accepted -> exists raw leaf, head raws = Some raw /\ ParseCertificate raw = Some leaf
     /\ ((RawSubjectPublicKeyInfo leaf, sni) ∈ certs \/ (pin <> "" /\ SPKIPin leaf = pin)))
  /\ (forall raw rest leaf idPub, raws = raw :: rest -> ParseCertificate raw = Some leaf -> SPKIPin leaf = pin -> pin <> "" -> (client_verify pin idPub sni raws).1 = Accepted)
  /\ (client_verify "" "" sni raws).1 = Accepted.
Proof.
  intros Hu Hp [Hd Hc]. split_and!.
  - unfold client_verify. rewrite (bool_decide_eq_false_2 (PubB64 id = "")) by (eapply decode_pub_nonempty; apply decode_PubB64). rewrite orb_true_r. intros Hv.
    apply cert_accepted_iff in Hv as (raw & rest & leaf & -> & Hraw & Hor). exists raw, leaf. split_and!; [done..|]. destruct Hor as [(k & sig & Hk & Hs & Hv)|Hpin]; [left|right; done].
    rewrite decode_PubB64 in Hk. injection Hk as <-. apply signed_binding; [done|eapply Hd; done|done|]. eapply Hu; eauto.
  - intros raw rest leaf idPub -> Hraw Hpin Hne. unfold client_verify. rewrite (bool_decide_eq_false_2 (pin = "")) by done. cbn [negb orb]. apply cert_accepted_iff. exists raw, rest, leaf. auto.
  - done.
Qed.
End Signed.

(** C40: a certificate for [sni] that the server made with its identity, among whatever
    other extensions, is accepted by every client that was given the identity's public
    key, whatever else it pins, and teaches it the server's selector key: what the
    client remembers decodes to the public key of the key the server opens selectors
    with. *)
Theorem bound_cert_teaches id others sel leaf raw rest pin sni m : Forall (fun e => e.1 <> certBindOID /\ e.1 <> selBindOID) others -> selectorExtension id = Some sel ->
  ParseCertificate raw = Some leaf -> Extensions leaf = others ++ [bindExtension id (RawSubjectPublicKeyInfo leaf) sni; sel] ->
  exists s, client_verify pin (PubB64 id) sni (raw :: rest) = (Accepted, Some s) /\ LearnedSelPub (PubB64 id) (RememberSelPub (PubB64 id) s m) = s
    /\ GoJson.std_decode (bytes_of_string s) = (PublicKey <$> SelectorKey id).
Proof.
  intros Ho Hsel Hp He. unfold selectorExtension in Hsel. cbn zeta in Hsel. destruct (len (SelectorPub id) =? 32) eqn:El; [|done]. cbn [negb] in Hsel. injection Hsel as <-.
  assert (Hb : Forall is_byte (SelectorPub id)) by (unfold SelectorPub; destruct (SelectorKey id); [apply x25519_bytes|constructor]).
  assert (Hk : PublicKey <$> SelectorKey id = Some (SelectorPub id)) by (unfold SelectorPub in *; destruct (SelectorKey id); [done|cbn in El; done]).
  assert (Ho1 : Forall (fun e => e.1 <> certBindOID) others) by (eapply Forall_impl; [exact Ho|intros e [? ?]; done]).
  assert (Ho2 : Forall (fun e => e.1 <> selBindOID) others) by (eapply Forall_impl; [exact Ho|intros e [? ?]; done]).
  exists (string_of_bytes (GoJson.std_encode (SelectorPub id))). set (s := string_of_bytes _).
  assert (Hdec : GoJson.std_decode (bytes_of_string s) = Some (SelectorPub id)) by (unfold s; rewrite std_encode_string, std_roundtrip by done; done).
  assert (Hsne : s <> "") by (intros Hs; rewrite Hs in Hdec; change (Some (@nil Z) = Some (SelectorPub id)) in Hdec; injection Hdec as Hd; rewrite <- Hd in El; discriminate El).
  assert (Hidne : PubB64 id <> "") by (eapply decode_pub_nonempty; apply decode_PubB64).
  assert (Hv : verifyCertBinding (PubB64 id) sni leaf = true).
  { unfold verifyCertBinding, extractCertBindSig. rewrite decode_PubB64, He, extract_skips by done. cbn. rewrite asn1_octets_read. apply ed_correct. }
  assert (Hsp : selectorPubFromCert leaf (PubB64 id) = s).
  { unfold selectorPubFromCert. rewrite decode_PubB64, He, find_skips by done.
    match goal with |- context [find ?f [?a; ?b]] => change (find f [a; b]) with (Some b) end. cbn [snd]. rewrite asn1_binding_read, El. unfold pub. rewrite ed_correct. done. }
  split_and!.
  - unfold client_verify. rewrite (bool_decide_eq_false_2 (PubB64 id = "")) by done. rewrite orb_true_r. unfold certVerifier. rewrite Hp, bool_decide_eq_false_2, Hv by done. cbn [negb andb]. rewrite Hsp, bool_decide_eq_false_2 by done. done.
  - unfold RememberSelPub, LearnedSelPub. rewrite !bool_decide_eq_false_2 by done. cbn. rewrite lookup_insert_eq. done.
  - rewrite Hk. exact Hdec.
Qed.
End Facts.

(** ** Names and denials *)

(** The reason of a denial arrives, cut at its limit, whatever follows it. *)
Lemma denial_roundtrip msg rest : msg <> "" -> ParseDenial (WriteDenial msg ++ rest) = Some (string_of_bytes (ztake denialMaxLen (bytes_of_string msg))).
Proof.
  intros Hne. unfold WriteDenial. cbn zeta. set (m := ztake denialMaxLen (bytes_of_string msg)). unfold denialMaxLen in *.
  assert (Hm : 0 < len m <= 512).
  { unfold m. assert (0 < len (bytes_of_string msg)) by (rewrite bytes_of_string_len; destruct msg; cbn; [done|lia]).
    destruct (Z_le_gt_dec (len (bytes_of_string msg)) 512); [rewrite ztake_ge by lia; lia|rewrite zlen_ztake by lia; lia]. }
  unfold ParseDenial. rewrite <- !app_assoc. rewrite (proj2 (Z.ltb_ge _ _)) by (rewrite !zlen_app, put16_len; change (len denialMagic) with 4; pose proof (zlen_nonneg rest); lia).
  assert (Ht : forall l, ztake 4 (denialMagic ++ l) = denialMagic) by (intros l; reflexivity). assert (Hd : forall l, zdrop 4 (denialMagic ++ l) = l) by (intros l; reflexivity).
  rewrite Ht, bool_decide_eq_true_2 by done. cbn [negb orb]. rewrite Hd, get16_put16 by lia.
  assert (Hd6 : zdrop 6 (denialMagic ++ put16 (len m) ++ m ++ rest) = m ++ rest) by reflexivity. rewrite Hd6.
  rewrite (proj2 (Z.eqb_neq _ _)), (proj2 (Z.ltb_ge _ _)) by (rewrite ?zlen_app; pose proof (zlen_nonneg rest); lia). cbn [orb]. do 2 f_equal. apply ztake_app_exact. done.
Qed.

(** The name of a session is a usable one and stays. *)
Lemma sessionSNI_stays names name r : let '(s, v, r1) := sessionSNI names name "" r in
  (s = "" \/ validSNI s = true) /\ (s <> "" -> forall r2, sessionSNI names name v r2 = (s, v, r2)).
Proof.
  unfold sessionSNI. cbn [negb bool_decide]. rewrite bool_decide_eq_true_2 by done. cbn [negb]. unfold pickSNI. cbn zeta.
  set (pool := match List.filter validSNI names with [] => _ | _ => _ end).
  assert (Hv : forall s, s ∈ pool -> validSNI s = true /\ hasConfiguredSNI names name = true).
  { intros s Hs. unfold pool in Hs. destruct (List.filter validSNI names) as [|x l] eqn:Ef.
    - destruct (validSNI name) eqn:En; [|set_solver]. apply list_elem_of_singleton in Hs. subst s. split; [done|]. unfold hasConfiguredSNI. rewrite En. apply orb_true_r.
    - rewrite <- Ef in Hs. apply list_elem_of_In, List.filter_In in Hs as [Hi Hs]. split; [done|]. unfold hasConfiguredSNI. apply orb_true_iff. left. apply existsb_exists. eauto. }
  destruct pool as [|x l] eqn:Ep; [split; [auto|done]|]. destruct (Intn (len (x :: l)) r) as [k r1] eqn:Ei. pose proof (Intn_range (len (x :: l)) r) as Hr. rewrite Ei in Hr. cbn [fst] in Hr.
  assert (Hin : default "" ((x :: l) !! Z.to_nat k) ∈ x :: l).
  { destruct (lookup_lt_is_Some_2 (x :: l) (Z.to_nat k)) as [s Hs]; [specialize (Hr ltac:(rewrite zlen_cons; pose proof (zlen_nonneg l); lia)); unfold zlen in Hr; lia|].
    rewrite Hs. eapply list_elem_of_lookup_2. exact Hs. }
  destruct (Hv _ Hin) as [Hs Hc]. rewrite Hc. split; [auto|]. intros Hne r2. rewrite bool_decide_eq_false_2 by done. done.
Qed.

(** ** Witnesses *)

Module IdentityWitnesses.

Definition mix (k m : list Z) : list Z := zip_with (fun x y => (x + y) mod 256) (fit 32 k) (fit 32 m).
Lemma mix_len k m : len (mix k m) = 32.
Proof.
  unfold mix, zlen. rewrite length_zip_with. pose proof (fit_len 32 k ltac:(lia)). pose proof (fit_len 32 m ltac:(lia)). unfold zlen in *. lia.
Qed.
Lemma mix_bytes k m : Forall is_byte (mix k m).
Proof. unfold mix. generalize (fit 32 m). induction (fit 32 k) as [|x l IH]; intros [|y b]; cbn; constructor; [|apply IH]. unfold is_byte. pose proof (Z.mod_pos_bound (x + y) 256). lia. Qed.

#[local] Instance toy_curve : Curve := {| sha256 m := mix m (rev m); hkdf_sha256 s i n := mix s i; x25519 := mix |}.
#[local] Instance toy_ed : Ed25519 := {| ed_pub s := mix s [7]; ed_sign s m := mix (mix s [7]) m; ed_verify p m sig := bool_decide (sig = mix p m) |}.
#[local] Instance toy_asn1 : Asn1 :=
  {| asn1_octets x := 4 :: x; asn1_read_octets l := match l with 4 :: x => Some x | _ => None end;
     asn1_binding x := len (x.1) :: (x.1 ++ x.2); asn1_read_binding l := match l with n :: x => Some (ztake n x, zdrop n x) | [] => None end |}.
#[local] Instance toy_identity_laws : IdentityLaws.
Proof.
  split.
  - intros s. apply mix_len.
  - intros s. apply mix_bytes.
  - intros s m. cbn. apply bool_decide_eq_true_2. reflexivity.
  - intros x. reflexivity.
  - intros [a b]. cbn. rewrite ztake_app_exact, zdrop_app_exact by reflexivity. reflexivity.
  - intros a b. apply mix_bytes.
Qed.

Definition the_id : CertIdentity := mkIdentity (replicate 32 9).
Definition the_spki : list Z := [48; 1; 2; 3].
Definition the_leaf : Certificate :=
  mkCert [(OtherOID 3, [1]); bindExtension the_id the_spki "example.com"; default (OtherOID 0, []) (selectorExtension the_id)] the_spki.
#[local] Instance toy_x509 : X509 := {| ParseCertificate raw := match raw with [1] => Some the_leaf | _ => None end; chain_trusted _ _ _ := true |}.

Lemma bound_cert_teaches_witness : exists s, client_verify "pinned" (PubB64 the_id) "example.com" [[1]; [2]] = (Accepted, Some s)
  /\ LearnedSelPub (PubB64 the_id) (RememberSelPub (PubB64 the_id) s ∅) = s /\ GoJson.std_decode (bytes_of_string s) = (PublicKey <$> SelectorKey the_id).
Proof.
  apply (bound_cert_teaches the_id [(OtherOID 3, [1])] (default (OtherOID 0, []) (selectorExtension the_id)) the_leaf [1] [[2]]).
  - repeat constructor; discriminate.
  - vm_compute. reflexivity.
  - reflexivity.
  - reflexivity.
Defined.

Definition fresh_io : io := mkIo (Some (replicate 32 5)) true true true.
Lemma identity_kept_witness : LoadOrCreateCertIdentity (mkIo None true false true) (Content (replicate 32 5)) = (Content (replicate 32 5), Some (mkIdentity (replicate 32 5)))
  /\ (NotExist <> NotExist -> Content (replicate 32 5) = NotExist).
Proof.
  apply (identity_kept fresh_io (mkIo None true false true) NotExist).
  - intros s [= <-]. reflexivity.
  - reflexivity.
Defined.

End IdentityWitnesses.

Module BindingWitnesses.

(** A signature is the public key with the message, a digest the message itself. *)
Definition mix := IdentityWitnesses.mix.
#[local] Instance plain_curve : Curve := {| sha256 m := m; hkdf_sha256 s i n := mix s i; x25519 := mix |}.
#[local] Instance plain_ed : Ed25519 := {| ed_pub s := mix s [7]; ed_sign s m := mix s [7] ++ m; ed_verify p m sig := bool_decide (sig = p ++ m) |}.
#[local] Instance plain_asn1 : Asn1 :=
  {| asn1_octets x := 4 :: x; asn1_read_octets l := match l with 4 :: x => Some x | _ => None end;
     asn1_binding x := len (x.1) :: (x.1 ++ x.2); asn1_read_binding l := match l with n :: x => Some (ztake n x, zdrop n x) | [] => None end |}.
#[local] Instance plain_laws : IdentityLaws.
Proof.
  split.
  - intros s. apply IdentityWitnesses.mix_len.
  - intros s. apply IdentityWitnesses.mix_bytes.
  - intros s m. cbn. apply bool_decide_eq_true_2. reflexivity.
  - intros x. reflexivity.
  - intros [a b]. cbn. rewrite ztake_app_exact, zdrop_app_exact by reflexivity. reflexivity.
  - intros a b. apply IdentityWitnesses.mix_bytes.
Qed.

Definition the_id : CertIdentity := mkIdentity (replicate 32 9).
Definition the_spki : list Z := [48; 3; 1; 0; 3].
Definition the_leaf : Certificate := mkCert [(OtherOID 3, [1]); bindExtension the_id the_spki "example.com"] the_spki.
#[local] Instance plain_x509 : X509 := {| ParseCertificate raw := match raw with [1] => Some the_leaf | _ => None end; chain_trusted _ _ _ := true |}.

Lemma parsed_the_leaf raw leaf : ParseCertificate raw = Some leaf -> leaf = the_leaf.
Proof. cbn. destruct raw as [|[|[]|] [|]]; congruence. Qed.

(** The certificate is bound for one name and refused for another. *)
Lemma cert_bound_to_name_witness : (client_verify "" (PubB64 the_id) "example.com" [[1]]).1 = Accepted
  /\ (exists raw leaf, head [[1]] = Some raw /\ ParseCertificate raw = Some leaf /\ ((RawSubjectPublicKeyInfo leaf, "example.com") ∈ [(the_spki, "example.com")] \/ ("" <> "" /\ SPKIPin leaf = "")))
  /\ (client_verify "" (PubB64 the_id) "other.com" [[1]]).1 = ServedDecoy.
Proof.
  assert (Hv : (client_verify "" (PubB64 the_id) "example.com" [[1]]).1 = Accepted) by (vm_compute; reflexivity). split; [exact Hv|]. split; [|vm_compute; reflexivity].
  apply (cert_bound_to_name the_id [(the_spki, "example.com")] [] "" "example.com" [[1]]); [| | |exact Hv].
  - intros raw leaf sig m _ Hl Hs Hver. apply parsed_the_leaf in Hl. subst leaf. exists (cert_text the_spki "example.com"). split; [left; exists (the_spki, "example.com"); split; [left|reflexivity]|].
    assert (E : sig = pub the_id ++ cert_text the_spki "example.com") by (cbn in Hs; injection Hs as <-; reflexivity). cbn in Hver. apply bool_decide_eq_true_1 in Hver. rewrite E in Hver. apply app_inv_head in Hver. symmetry. exact Hver.
  - intros t t' _ E. exact E.
  - split; [|intros c Hc; apply list_elem_of_singleton in Hc; subst c; reflexivity]. intros raw leaf Hl. apply parsed_the_leaf in Hl. subst leaf. reflexivity.
Defined.

End BindingWitnesses.
